(* ===== verification/_CoqProject ===== *)
-Q . S2P
Prelude.v
Avl.v
Heap.v
SliceUtil.v
Pattern.v
Base64.v
Spec.v
Linker.v
ResourceManager.v
ResourceLogic.v
ResourceInvariant.v
ResourceProofs.v
ResourceOps.v
ResourceRoutes.v
ResourceSpec.v
ResourceTheorems.v
Storage.v
ProxyStore.v
Scheduler.v
Cache.v
Compact.v
Util.v
Utilities.v
ConfigResources.v
ProxyTransport.v
Proxy.v
RequestContext.v
DynamicProxy.v
Routing.v
ChangeLogs.v
ProxyLogic.v
Replay.v
Recovery.v
ProxyState.v
ProxyStateTheorems.v
KeyLock.v
LinkedList.v
LinkedListLogic.v
LinkedListOps.v
LinkedListSort.v
LinkedListTheorems.v
AdminAPI.v
AdminAPITheorems.v
Http.v
ReverseProxy.v
ProxyHandler.v
ProxyHandlerTheorems.v
NetIP.v
IPList.v
Transports.v
AdminRoutes.v
AdminRoutesTheorems.v
AdminFSM.v
AdminFSMTheorems.v
RaftAdmin.v
RaftClient.v
RaftAdminTheorems.v
AdminRaft.v
ConfigLoader.v
ConfigLoaderTheorems.v
EventLoop.v
EventLoopTheorems.v
EventLoopOrder.v
AdminClient.v
AdminClientTheorems.v
Cli.v
CliTheorems.v
RaftHttp.v
RaftHttpTheorems.v
ModuleContext.v
Extractors.v
ExtractorsTheorems.v
ModuleApi.v
ModuleApiTheorems.v
