(* ===== verification/Prelude.v ===== *)
(** * DGate: a model of the API gateway, and what it does

    DGate is an API gateway and function server.  An administrator changes
    namespaces, services, routes, domains, modules, collections, documents and
    secrets; each change is a change log.  The proxy applies it to its
    resource manager, keeps it in a store, and configures its routers again;
    a request then goes to the namespace of its domain, to the router of the
    namespace, through the modules of the route, and to the service.

    ** The program and the files

    The files are listed in dependency order.  A definition has the name that
    the Go code gives it wherever Rocq allows it; Prelude.v holds the outcome
    of a call (it returns or panics), the state monad [ST], ordered types,
    sorted association lists, and the automation.

    - Data structures.  Avl.v: pkg/util/tree/avl, the tree behind every index.
      Heap.v: pkg/util/heap.  SliceUtil.v: pkg/util/sliceutil and queue; a
      slice is an option, nil apart from empty.  Linker.v: pkg/util/linker,
      vertices with named edges, in a store of locations because they are
      shared and cyclic.  LinkedList.v: pkg/util/linkedlist, over a heap of
      nodes, with both merge sorts (LinkedListLogic.v: segments of the heap
      and a triple; LinkedListOps.v, LinkedListSort.v: the operations and the
      sorts; LinkedListTheorems.v: the theorems).  IPList.v:
      pkg/util/iplist, on two of them, with the addresses and networks of
      package net in NetIP.v.  KeyLock.v: pkg/util/keylock, as interleaved
      steps of the calls.
    - Text.  Pattern.v: internal/pattern.  Base64.v: the standard library's
      encoding.  Util.v: internal/proxy/util.go.  Utilities.v: the small parts
      of pkg/util, hashes, JSON responses, shared references, log levels.
    - Records.  Spec.v: pkg/spec, commands, change logs, the external and the
      internal record of each resource and the functions between them.
    - Resources.  ResourceManager.v: pkg/resources, every method.  The proofs
      go through an abstract state (ResourceLogic.v: the relation and a
      weakest-precondition calculus; ResourceInvariant.v: the invariant;
      ResourceProofs.v, ResourceOps.v, ResourceRoutes.v: the operations).
      ResourceSpec.v states what the manager promises, a dictionary with the
      answers of each operation; ResourceTheorems.v proves that every
      reachable manager keeps the promise.
    - Storage.  Storage.v: pkg/storage behind the class [Storage], with the
      laws that both stores satisfy.  ProxyStore.v: change logs and documents
      over any storage.
    - Time.  Scheduler.v: pkg/scheduler.  Cache.v: pkg/cache, which runs on it.
    - Configuration.  ConfigResources.v: internal/config/resources.go.
      ConfigLoader.v: loader.go and utils.go beside it, with koanf's tree as a
      class; ConfigLoaderTheorems.v.
    - The proxy.  Proxy.v: the record of the proxy's state, the monad of its
      computations (they return, panic or wait for ever, and keep the state
      in all three cases) and the class of what lies outside the repository.
      ProxyTransport.v, RequestContext.v, DynamicProxy.v, Compact.v,
      ChangeLogs.v and ProxyState.v are the files of internal/proxy that
      carry these names or are named in them.  Routing.v, ProxyLogic.v,
      Replay.v, Recovery.v and ProxyStateTheorems.v hold their properties.
    - A request.  Http.v: what the code uses of net/http, net/url and path.
      ReverseProxy.v: internal/proxy/reverse_proxy, over a store of URLs.
      Transports.v: internal/proxy/proxy_transport.go, over the events of the
      network.
      ProxyHandler.v: internal/proxy/proxy_handler.go, with httputil's reverse
      proxy as far as the handler relies on it; ProxyHandlerTheorems.v.
    - The modules' loop.  EventLoop.v: pkg/eventloop, its jobs in a store and
      what the scheduler may do as events; EventLoopTheorems.v: its counter;
      EventLoopOrder.v: the order of its jobs, and a timer that clears itself.
    - The admin API.  AdminAPI.v: every handler of internal/admin/routes, as
      a computation of the proxy that answers what it writes to the response;
      AdminAPITheorems.v: its properties.  AdminRoutes.v: the guard before
      them, internal/admin/admin_routes.go; AdminRoutesTheorems.v: whom it
      lets through.  AdminClient.v: pkg/dgclient, the client of the API;
      AdminClientTheorems.v runs it against the guard and the handlers.  Cli.v:
      cmd/dgate-cli, the command line; CliTheorems.v follows a command from its
      words to the handler.
    - Replication.  AdminFSM.v: internal/admin/admin_fsm.go, the state machine
      that raft gives its logs to, on the proxy and a state of its own;
      AdminFSMTheorems.v.  RaftAdmin.v and RaftClient.v: pkg/raftadmin, raft's
      administration over HTTP from both sides; RaftAdminTheorems.v composes
      them.  AdminRaft.v: how a node enters a cluster, admin_raft.go.
      RaftHttp.v: pkg/rafthttp, the transport of raft's messages, again from
      both sides; RaftHttpTheorems.v.
    - Modules.  ModuleContext.v: pkg/modules/types, what a module sees of a
      request; Extractors.v: pkg/modules/extractors, how its functions are
      found, run and waited for; ModuleApi.v: pkg/modules/dgate, what a module
      asks the proxy for, and the loader of internal/proxy/runtime_context.go;
      ExtractorsTheorems.v and ModuleApiTheorems.v.

    ** How the parts meet

    The proxy's state contains the manager, the store, the cache and the
    scheduler; [zoom] runs their operations on the part that is theirs.
    [processChangeLog] calls the manager's operations, [StoreChangeLog] and
    [reconfigureState]; [setupRoutes] reads the manager and writes providers
    and routers; [restoreFromChangeLogs] reads the store and calls
    [processChangeLog].  The theorems of the proxy use the manager through its
    specification ([sound], [rm_dict]), the store through [StorageLaws], and
    the environment through [ProxyEnv].  Providers and module pools are shared
    objects in stores of the proxy's state: a request keeps the location of
    the pool it borrowed from, and returns to it whatever became of the
    provider ([pool_step] is what may happen to them meanwhile).

    ** What the theorems show

    - Refinement: the AVL tree, the linker and the manager implement
      dictionaries and graphs; the two stores agree on what they share.
    - The proxy: a change takes the lock and gives it back; a refused change
      leaves no trace but in the manager; a process restarted on its store
      reaches the same resources; the routers have exactly the registrations
      of their routes; where a request goes and what it must satisfy to be
      served; the discipline of module pools, over every order of what
      configuration and requests do to them, and the race that it does not
      survive ([return_race]); retries; validation.
    - A request through the proxy: what the service is asked, what the client
      gets, for an answer and for an error; an extractor goes back whatever
      happens, be it lent or made, and without one the answer is a 500; every request is answered, with the one exception stated; where
      a rewritten path can lead.
    - The transports: what a request does on the network, with TLS as the code
      sets it up, which addresses are refused, and what a retry does after h2c.
    - The admin API: a request changes the proxy by one change log at most
      and leaves its lock free; what the listing of documents answers; which
      requests the guard lets through, and which configurations it refuses; a
      call of the client, and a command of the command line with the
      credentials it was given, reaches the handler it names if the guard lets
      it pass, but for two that have none, and changes nothing if not; a
      deletion asks for what the call before it asked for; what the arguments of a command mean.
    - A cluster: the resources of a node are a function of the committed logs,
      however they were batched; a leader applies its own changes twice, which
      hangs it on a deletion and changes its hash.  A node that joins enrolls
      with the first leader it finds, after a bounded number of questions; what
      a client's call asks of the leader's raft, and what the client learns;
      a message of raft reaches the other node's raft, and the answer comes back.
    - The event loop counts its jobs, in every order of events and whatever
      its functions, scripts over the loop's operations, do with it, and ends
      when none is left, as long as no function clears a job of its own; what
      is submitted to it runs in order.
    - Modules: the document that a module adds is read back, from the
      namespace it names; the values it caches are never found; a promise is
      noticed within a tenth of a second and the lateness of a wake-up, and
      waiting ends within a few such latenesses after its timeout; the default
      upstream takes the URLs in turn; the default error handler fails after a
      response modifier.
    - The configuration: what becomes of a text with variables, and the
      defaults that erase or spoil what was configured.
    - Linked lists are the sequences they stand for, and the two sorts give
      the same sorted list; a key lock excludes once its key is known and no
      call of the key has another mutex, its
      calls finish in every fair order, and a new key is a race.
    - Termination: compaction and the cache's sweep end; every loop that Go
      writes with [for] or [goto] is a function with enough fuel, and the
      theorem says that it is enough.
    - What goes wrong: the restart that waits for its own lock, the panic that
      is stored, the certificate that is never renewed, the module that is
      encoded twice, the collections that lose their type and with it their
      guards, the flags that are read the wrong way round, the path that
      climbs out of its service, and the smaller ones, each with the theorem
      that shows it.

    ** Bounds and fuel

    A Go int is a [Z]; wrap-around is written out where it matters, in the
    hashes of Util.v.  Fuel: the height for the tree, the length of the list
    for compaction ([compact_loop]) and binary search, the pending jobs for
    the scheduler's and the cache's loops, thirteen digits for base 36, five
    retries in [WaitForChanges], and for a promise one round more than there
    are pauses of two milliseconds in thirty seconds, and as many again for
    what [select] chooses after them.

    ** Concurrency

    An operation that the code runs under a mutex is one step.  The proxy's
    lock is part of the state, because its misuse is a property; a goroutine
    that is started is recorded and runs as a call of its own.  The groups of
    goroutines have the limit one ([group_limit]), so they run in sequence.
    The key locks are the exception: KeyLock.v interleaves their calls at
    every access to a mutex.

    ** Not modelled

    Raft, JavaScript (goja), TypeScript, the chi router and the connections of
    net/http are outside code or wrap it: parameters where the modelled code
    calls them; so are the values that cross between Go and JavaScript, and
    the setting up of goja's global objects.  The main functions, starting the
    servers, metrics and logging only move data between these.  Timeouts and
    sleeps are left out, but for the wait for a promise: no other property
    depends on them. *)
From Stdlib Require Import ZArith Lia Sorting.Sorted.
From stdpp Require Import base gmap strings list sets countable.

#[global] Open Scope Z_scope.

(** ** Outcomes: a Go call returns or panics *)

(** [Returns a]: the call returned [a].  [Panics msg]: it panicked. *)
Inductive outcome (A : Type) : Type :=
  | Returns (a : A)
  | Panics (msg : string).
Arguments Returns {A} a.
Arguments Panics {A} msg.

#[export] Instance outcome_ret : MRet outcome := λ A a, Returns a.
#[export] Instance outcome_bind : MBind outcome := λ A B f m,
  match m with Returns a => f a | Panics e => Panics e end.
#[export] Instance outcome_fmap : FMap outcome := λ A B f m,
  match m with Returns a => Returns (f a) | Panics e => Panics e end.

(** The message of the runtime's nil-pointer panic. *)
Definition nil_deref : string := "invalid memory address or nil pointer dereference".
(** The message of the runtime's out-of-range panic. *)
Definition index_range : string := "index out of range".

(** A Go [error] is its message; [Ok]/[Err] are the two shapes of the
    pair [(T, error)] that the code returns. *)
Abbreviation error := string.
Inductive gores (A : Type) : Type :=
  | Ok (a : A)
  | Err (e : error).
Arguments Ok {A} a.
Arguments Err {A} e.

(** ** State passing with panics *)

Definition ST (S A : Type) : Type := S → outcome (A * S).
#[export] Instance st_ret {S} : MRet (ST S) := λ A a s, Returns (a, s).
#[export] Instance st_bind {S} : MBind (ST S) := λ A B f m s,
  match m s with Returns (a, s') => f a s' | Panics e => Panics e end.
#[export] Instance st_fmap {S} : FMap (ST S) := λ A B f m s,
  match m s with Returns (a, s') => Returns (f a, s') | Panics e => Panics e end.

Definition st_panic {S A} (msg : string) : ST S A := λ _, Panics msg.
Definition st_get {S} : ST S S := λ s, Returns (s, s).
Definition st_put {S} (s : S) : ST S unit := λ _, Returns (tt, s).
Definition st_lift {S A} (o : outcome A) : ST S A := λ s,
  match o with Returns a => Returns (a, s) | Panics e => Panics e end.

Lemma st_bind_unfold {S A B} (m : ST S A) (f : A → ST S B) s :
  (m ≫= f) s = match m s with Returns (a, s') => f a s' | Panics e => Panics e end.
Proof. reflexivity. Qed.

Lemma st_ret_unfold {S A} (a : A) (s : S) : (mret a : ST S A) s = Returns (a, s).
Proof. reflexivity. Qed.

Lemma st_fmap_unfold {S A B} (f : A → B) (m : ST S A) s :
  (f <$> m) s = match m s with Returns (a, s') => Returns (f a, s') | Panics e => Panics e end.
Proof. reflexivity. Qed.

Lemma st_lift_unfold {S A} (o : outcome A) (s : S) :
  st_lift o s = match o with Returns a => Returns (a, s) | Panics e => Panics e end.
Proof. reflexivity. Qed.

Lemma st_get_unfold {S} (s : S) : st_get s = Returns (s, s).
Proof. reflexivity. Qed.

Lemma st_put_unfold {S} (s s' : S) : st_put s s' = Returns (tt, s).
Proof. reflexivity. Qed.

Lemma st_panic_unfold {S A} msg (s : S) : (st_panic msg : ST S A) s = Panics msg.
Proof. reflexivity. Qed.

(** The equations of the state monad, to rewrite with. *)
Create HintDb st.
#[export] Hint Rewrite @st_bind_unfold @st_ret_unfold @st_fmap_unfold @st_lift_unfold
  @st_get_unfold @st_put_unfold @st_panic_unfold : st.
Ltac st := autorewrite with st; cbv beta iota.
Ltac st_in H := autorewrite with st in H; cbv beta iota in H.

(** Run the monadic plumbing; [run_eq] also solves the equations of returned
    values it uncovers. *)
Ltac run :=
  cbn [mbind mret fmap outcome_bind outcome_ret outcome_fmap
       st_bind st_ret st_fmap st_lift st_get st_put st_panic] in *;
  unfold mret, outcome_ret, st_ret in *; cbv beta in *.
Ltac run_eq := run; simplify_eq.

(** ** Go's ordered types *)

(** The zero value of a Go type. *)
Class GoZero (V : Type) := go_zero : V.
#[export] Instance zero_string : GoZero string := "".
#[export] Instance zero_Z : GoZero Z := 0.
#[export] Instance zero_bool : GoZero bool := false.
#[export] Instance zero_option {A} : GoZero (option A) := None.
#[export] Instance zero_list {A} : GoZero (list A) := [].

(** [cmp.Ordered]: a type with [<]; [gcmp] is the comparison it induces. *)
Class GoOrdered (K : Type) := gcmp : K → K → comparison.

Class GoOrderedLaws (K : Type) `{GoOrdered K} : Prop := {
  gcmp_eq_iff : ∀ a b : K, gcmp a b = Eq ↔ a = b;
  gcmp_antisym : ∀ a b : K, gcmp b a = CompOpp (gcmp a b);
  gcmp_lt_trans : ∀ a b c : K, gcmp a b = Lt → gcmp b c = Lt → gcmp a c = Lt }.

#[export] Instance ordered_Z : GoOrdered Z := Z.compare.
#[export] Instance ordered_string : GoOrdered string := String.compare.

#[export] Instance ordered_Z_laws : GoOrderedLaws Z.
Proof.
  split; unfold gcmp, ordered_Z; intros.
  - apply Z.compare_eq_iff.
  - apply Z.compare_antisym.
  - rewrite Z.compare_lt_iff in *. lia.
Qed.

Lemma ascii_compare_eq a b : Ascii.compare a b = Eq ↔ a = b.
Proof.
  unfold Ascii.compare. rewrite N.compare_eq_iff. split; [|by intros ->].
  intros Hn. rewrite <-(Ascii.ascii_N_embedding a), <-(Ascii.ascii_N_embedding b).
  by rewrite Hn.
Qed.

Lemma ascii_compare_lt_trans a b c :
  Ascii.compare a b = Lt → Ascii.compare b c = Lt → Ascii.compare a c = Lt.
Proof. unfold Ascii.compare. rewrite !N.compare_lt_iff. lia. Qed.

Lemma ascii_compare_refl a : Ascii.compare a a = Eq.
Proof. by apply ascii_compare_eq. Qed.

Lemma string_compare_refl s : String.compare s s = Eq.
Proof. induction s as [|a s IH]; simpl; [done|]. by rewrite ascii_compare_refl. Qed.

Lemma string_compare_lt_trans s1 s2 s3 :
  String.compare s1 s2 = Lt → String.compare s2 s3 = Lt →
  String.compare s1 s3 = Lt.
Proof.
  revert s2 s3. induction s1 as [|a s1 IH]; intros [|b s2] [|c s3]; simpl; try done.
  destruct (Ascii.compare a b) eqn:Hab; [| |done];
    destruct (Ascii.compare b c) eqn:Hbc; try done.
  - apply ascii_compare_eq in Hab as ->. apply ascii_compare_eq in Hbc as ->.
    rewrite ascii_compare_refl. apply IH.
  - apply ascii_compare_eq in Hab as ->. by rewrite Hbc.
  - apply ascii_compare_eq in Hbc as ->. by rewrite Hab.
  - by rewrite (ascii_compare_lt_trans _ _ _ Hab Hbc).
Qed.

#[export] Instance ordered_string_laws : GoOrderedLaws string.
Proof.
  split; unfold gcmp, ordered_string.
  - intros a b. split; [apply String.compare_eq_iff|intros ->; apply string_compare_refl].
  - intros a b. apply String.compare_antisym.
  - apply string_compare_lt_trans.
Qed.

(** Go's [a < b], [a > b], [a <= b] and [a >= b] on an ordered type. *)
Definition gltb {K} `{GoOrdered K} (a b : K) : bool :=
  match gcmp a b with Lt => true | _ => false end.
Definition ggtb {K} `{GoOrdered K} (a b : K) : bool :=
  match gcmp a b with Gt => true | _ => false end.
Definition gleb {K} `{GoOrdered K} (a b : K) : bool := negb (ggtb a b).
Definition ggeb {K} `{GoOrdered K} (a b : K) : bool := negb (gltb a b).

Declare Scope go_scope.
Delimit Scope go_scope with go.
Infix "<?" := gltb : go_scope.
Infix ">?" := ggtb : go_scope.
Infix "<=?" := gleb : go_scope.
Infix ">=?" := ggeb : go_scope.

Section ordered.
Context {K : Type} `{GoOrderedLaws K}.
Implicit Types a b c : K.

Lemma gcmp_refl a : gcmp a a = Eq.
Proof. by apply gcmp_eq_iff. Qed.

Lemma gcmp_gt a b : gcmp a b = Gt ↔ gcmp b a = Lt.
Proof. rewrite (gcmp_antisym b a). destruct (gcmp b a); naive_solver. Qed.

Lemma gcmp_gt_trans a b c : gcmp a b = Gt → gcmp b c = Gt → gcmp a c = Gt.
Proof. rewrite !gcmp_gt. intros ??. by eapply gcmp_lt_trans. Qed.

Lemma gcmp_lt_irrefl a : gcmp a a ≠ Lt.
Proof. by rewrite gcmp_refl. Qed.

Lemma gcmp_lt_ne a b : gcmp a b = Lt → a ≠ b.
Proof. intros Hlt ->. by apply gcmp_lt_irrefl in Hlt. Qed.

Lemma gltb_lt a b : gltb a b = true ↔ gcmp a b = Lt.
Proof. unfold gltb. destruct (gcmp a b); naive_solver. Qed.

Lemma ggtb_gt a b : ggtb a b = true ↔ gcmp a b = Gt.
Proof. unfold ggtb. destruct (gcmp a b); naive_solver. Qed.

Lemma gltb_irrefl a : gltb a a = false.
Proof. unfold gltb. by rewrite gcmp_refl. Qed.

Lemma gltb_trans a b c : gltb a b = true → gltb b c = true → gltb a c = true.
Proof. rewrite !gltb_lt. apply gcmp_lt_trans. Qed.

Lemma gltb_neg_trans a b c : gltb a b = false → gltb b c = false → gltb a c = false.
Proof.
  rewrite <-!not_true_iff_false, !gltb_lt. intros Hab Hbc Hac. apply Hbc.
  destruct (gcmp b a) eqn:Hba.
  - apply gcmp_eq_iff in Hba as ->. done.
  - by apply (gcmp_lt_trans b a c).
  - apply gcmp_gt in Hba. done.
Qed.

End ordered.

(** Case analysis on a comparison of the goal, keeping the order facts in
    the [gcmp _ _ = Lt] form that the lemmas use. *)
Ltac gcompare a b :=
  let H := fresh "Hcmp" in
  unfold gltb, ggtb, gleb, ggeb in *;
  destruct (gcmp a b) eqn:H;
  [apply gcmp_eq_iff in H; subst | | apply gcmp_gt in H].

(** ** Sorted association lists: the abstract dictionary *)

Section assoc.
Context {K V : Type} `{GoOrderedLaws K}.
Implicit Types (k : K) (v : V) (l : list (K * V)).

(** Keys strictly ascending. *)
Definition akey_lt (p q : K * V) : Prop := gcmp p.1 q.1 = Lt.
Definition asorted l : Prop := StronglySorted akey_lt l.

Fixpoint afind k l : option V :=
  match l with
  | [] => None
  | (k', v) :: l' =>
    match gcmp k k' with Lt => None | Eq => Some v | Gt => afind k l' end
  end.

Fixpoint ainsert k v l : list (K * V) :=
  match l with
  | [] => [(k, v)]
  | (k', v') :: l' =>
    match gcmp k k' with
    | Lt => (k, v) :: l
    | Eq => (k, v) :: l'
    | Gt => (k', v') :: ainsert k v l'
    end
  end.

Fixpoint adelete k l : list (K * V) :=
  match l with
  | [] => []
  | (k', v') :: l' =>
    match gcmp k k' with
    | Lt => l
    | Eq => l'
    | Gt => (k', v') :: adelete k l'
    end
  end.

(** Every key of [l] is below, respectively above, [k]. *)
Definition all_lt k l : Prop := Forall (λ p, gcmp p.1 k = Lt) l.
Definition all_gt k l : Prop := Forall (λ p, gcmp k p.1 = Lt) l.

Lemma all_lt_trans k k' l : gcmp k k' = Lt → all_lt k l → all_lt k' l.
Proof. intros Hk. apply Forall_impl. intros p ?. by eapply gcmp_lt_trans. Qed.

Lemma all_gt_trans k k' l : gcmp k' k = Lt → all_gt k l → all_gt k' l.
Proof. intros Hk. apply Forall_impl. intros p ?. by eapply gcmp_lt_trans. Qed.

Lemma asorted_cons k v l : asorted ((k, v) :: l) ↔ asorted l ∧ all_gt k l.
Proof.
  split.
  - intros Hs. by apply StronglySorted_inv in Hs.
  - intros [Hs Hgt]. by constructor.
Qed.

Lemma asorted_app l1 l2 :
  asorted (l1 ++ l2) ↔ asorted l1 ∧ asorted l2 ∧
    ∀ p q, p ∈ l1 → q ∈ l2 → akey_lt p q.
Proof.
  induction l1 as [|[k v] l1 IH]; simpl.
  - split; [|by intros (_ & ? & _)]. intros ?. split_and!; [constructor|done|].
    intros p q Hp. by apply elem_of_nil in Hp.
  - rewrite !asorted_cons, IH. unfold all_gt. rewrite Forall_app, !list.Forall_forall.
    split.
    + intros [(H1 & H2 & H3) [H4 H5]]. split_and!; try done.
      intros p q Hp Hq. apply elem_of_cons in Hp as [->|Hp]; [|by apply H3].
      by apply H5.
    + intros ([H1 H2] & H3 & H4). split_and!; try done.
      * intros p q ??. apply H4; [by apply elem_of_cons; right|done].
      * intros q Hq. apply (H4 (k, v) q); [by apply elem_of_cons; left|done].
Qed.

Lemma asorted_mid k v l1 l2 :
  asorted (l1 ++ (k, v) :: l2) ↔
  asorted l1 ∧ asorted l2 ∧ all_lt k l1 ∧ all_gt k l2.
Proof.
  rewrite asorted_app, asorted_cons. unfold all_lt, all_gt. rewrite !list.Forall_forall.
  split.
  - intros (H1 & [H2 H3] & H4). split_and!; try done.
    intros p Hp. apply (H4 p (k, v)); [done|by apply elem_of_cons; left].
  - intros (H1 & H2 & H3 & H4). split_and!; try done.
    intros p q Hp Hq. apply elem_of_cons in Hq as [->|Hq]; [by apply H3|].
    unfold akey_lt. apply (gcmp_lt_trans _ k); [by apply (H3 p)|by apply (H4 q)].
Qed.

Lemma afind_all_gt k l : all_gt k l → afind k l = None.
Proof. destruct l as [|[k' v'] l]; [done|]. intros [Hk _]%list.Forall_cons. simpl in *. by rewrite Hk. Qed.

Lemma ainsert_all_gt k v l : all_gt k l → ainsert k v l = (k, v) :: l.
Proof. destruct l as [|[k' v'] l]; [done|]. intros [Hk _]%list.Forall_cons. simpl in *. by rewrite Hk. Qed.

Lemma adelete_all_gt k l : all_gt k l → adelete k l = l.
Proof. destruct l as [|[k' v'] l]; [done|]. intros [Hk _]%list.Forall_cons. simpl in *. by rewrite Hk. Qed.

Lemma afind_skip k l1 l2 : all_lt k l1 → afind k (l1 ++ l2) = afind k l2.
Proof.
  induction l1 as [|[k' v'] l1 IH]; [done|]. intros [Hk Hl]%list.Forall_cons. simpl in *.
  rewrite (proj2 (gcmp_gt _ _)) by done. by apply IH.
Qed.

Lemma ainsert_skip k v l1 l2 :
  all_lt k l1 → ainsert k v (l1 ++ l2) = l1 ++ ainsert k v l2.
Proof.
  induction l1 as [|[k' v'] l1 IH]; [done|]. intros [Hk Hl]%list.Forall_cons. simpl in *.
  rewrite (proj2 (gcmp_gt _ _)) by done. by rewrite IH.
Qed.

Lemma adelete_skip k l1 l2 :
  all_lt k l1 → adelete k (l1 ++ l2) = l1 ++ adelete k l2.
Proof.
  induction l1 as [|[k' v'] l1 IH]; [done|]. intros [Hk Hl]%list.Forall_cons. simpl in *.
  rewrite (proj2 (gcmp_gt _ _)) by done. by rewrite IH.
Qed.

Lemma afind_below k k' v' l1 l2 :
  gcmp k k' = Lt → afind k (l1 ++ (k', v') :: l2) = afind k l1.
Proof.
  intros Hk. induction l1 as [|[k1 v1] l1 IH]; simpl; [by rewrite Hk|].
  destruct (gcmp k k1); auto.
Qed.

Lemma ainsert_below k v k' v' l1 l2 :
  gcmp k k' = Lt →
  ainsert k v (l1 ++ (k', v') :: l2) = ainsert k v l1 ++ (k', v') :: l2.
Proof.
  intros Hk. induction l1 as [|[k1 v1] l1 IH]; simpl; [by rewrite Hk|].
  destruct (gcmp k k1); auto. by rewrite IH.
Qed.

Lemma adelete_below k k' v' l1 l2 :
  gcmp k k' = Lt →
  adelete k (l1 ++ (k', v') :: l2) = adelete k l1 ++ (k', v') :: l2.
Proof.
  intros Hk. induction l1 as [|[k1 v1] l1 IH]; simpl; [by rewrite Hk|].
  destruct (gcmp k k1); auto. by rewrite IH.
Qed.

Lemma ainsert_forall (P : K * V → Prop) k v l :
  P (k, v) → Forall P l → Forall P (ainsert k v l).
Proof.
  intros Hp. induction 1 as [|[k' v'] l ? ? IH]; simpl; [by repeat constructor|].
  destruct (gcmp k k'); repeat constructor; auto.
Qed.

Lemma adelete_forall (P : K * V → Prop) k l : Forall P l → Forall P (adelete k l).
Proof.
  induction 1 as [|[k' v'] l ? ? IH]; simpl; [done|].
  destruct (gcmp k k'); repeat constructor; auto.
Qed.

Lemma ainsert_sorted k v l : asorted l → asorted (ainsert k v l).
Proof.
  induction l as [|[k' v'] l IH]; simpl.
  - intros _. repeat constructor.
  - rewrite asorted_cons. intros [Hs Hgt]. gcompare k k'; rewrite ?asorted_cons.
    + done.
    + split_and!; [done|done|]. constructor; [done|]. by eapply all_gt_trans.
    + split; [by apply IH|]. by apply ainsert_forall.
Qed.

Lemma adelete_sorted k l : asorted l → asorted (adelete k l).
Proof.
  induction l as [|[k' v'] l IH]; simpl; [done|].
  rewrite asorted_cons. intros [Hs Hgt]. gcompare k k'; rewrite ?asorted_cons; [done..|].
  split; [by apply IH|]. by apply adelete_forall.
Qed.

(** The finite map that a sorted association list denotes. *)
Context `{!EqDecision K, !Countable K}.

Definition amap l : gmap K V := list_to_map l.

Lemma all_gt_amap k l : all_gt k l → amap l !! k = None.
Proof.
  intros Hl. apply not_elem_of_list_to_map. intros Hin.
  apply list_elem_of_fmap in Hin as ([k' v'] & -> & Hin). simpl in *.
  unfold all_gt in Hl. rewrite list.Forall_forall in Hl. apply Hl in Hin. simpl in Hin.
  by apply gcmp_lt_irrefl in Hin.
Qed.

Lemma amap_afind k l : asorted l → amap l !! k = afind k l.
Proof.
  induction l as [|[k' v'] l IH]; simpl; [done|].
  rewrite asorted_cons. intros [Hs Hgt]. unfold amap in *. simpl. gcompare k k'.
  - by rewrite lookup_insert_eq.
  - rewrite lookup_insert_ne by (intros ->; by eapply gcmp_lt_ne).
    apply all_gt_amap. by eapply all_gt_trans.
  - rewrite lookup_insert_ne by (by apply gcmp_lt_ne). by apply IH.
Qed.

Lemma amap_ainsert k v l : amap (ainsert k v l) = <[k := v]> (amap l).
Proof.
  induction l as [|[k' v'] l IH]; simpl; [done|].
  unfold amap in *. gcompare k k'; simpl.
  - by rewrite insert_insert_eq.
  - done.
  - rewrite IH, insert_insert_ne; [done|]. by apply gcmp_lt_ne.
Qed.

Lemma amap_adelete k l : asorted l → amap (adelete k l) = delete k (amap l).
Proof.
  induction l as [|[k' v'] l IH]; simpl; [by rewrite delete_empty|].
  rewrite asorted_cons. intros [Hs Hgt]. unfold amap in *. gcompare k k'; simpl.
  - rewrite delete_insert_id; [done|]. by apply all_gt_amap.
  - rewrite delete_insert_ne by (intros ->; by eapply gcmp_lt_ne).
    rewrite delete_id; [done|]. apply all_gt_amap. by eapply all_gt_trans.
  - rewrite IH by done. rewrite delete_insert_ne; [done|].
    by apply not_eq_sym, gcmp_lt_ne.
Qed.

Lemma asorted_nodup l : asorted l → NoDup l.*1.
Proof.
  induction l as [|[k v] l IH]; simpl; [constructor|].
  rewrite asorted_cons. intros [Hs Hgt]. constructor; [|by apply IH].
  apply not_elem_of_list_to_map. by apply all_gt_amap.
Qed.

Lemma asorted_size l : asorted l → size (amap l) = length l.
Proof.
  intros Hs. unfold amap. rewrite <-length_map_to_list.
  rewrite (map_to_list_to_map l) by (by apply asorted_nodup). done.
Qed.

Lemma elem_of_amap k v l : asorted l → (k, v) ∈ l ↔ amap l !! k = Some v.
Proof. intros Hs. apply elem_of_list_to_map. by apply asorted_nodup. Qed.

End assoc.
