(* ===== verification/Avl.v ===== *)
(** * pkg/util/tree/avl: the AVL tree behind every index and edge set

    Nodes are values: a [tree] owns its nodes, so the in-place updates of
    the Go code are returned trees here.  The tree's [sync.RWMutex] guards
    each call as a whole; a definition is one such call.  A dereference of a
    nil node is the outcome [Panics nil_deref].  The first half of the file
    is the code, the second half its correctness: in-order contents refine a
    sorted association list, the AVL balance invariant, the height bound, and
    what [Pop] and [Clone] really return. *)
From Stdlib Require Import ZArith Lia.
From stdpp Require Import base gmap strings list.
From S2P Require Import Prelude.

(** ** Data *)

Section data.
Context {K V : Type}.

Inductive node : Type :=
  | Nil
  | Node (key : K) (val : V) (left right : node) (height : Z).

Record tree : Type := Tree { root : node }.

End data.
Arguments node : clear implicits.
Arguments tree : clear implicits.
#[export] Instance zero_node {K V} : GoZero (node K V) := Nil.

(** ** The code *)

Section code.
Context {K V : Type} {OK : GoOrdered K} {ZV : GoZero V} {ZK : GoZero K}.
Local Open Scope go_scope.
Local Open Scope Z_scope.
Implicit Types (n : node K V) (t : tree K V).

Fixpoint _length n : Z :=
  match n with
  | Nil => 0
  | Node _ _ l r _ => 1 + _length l + _length r
  end.

Definition NewTree : tree K V := Tree Nil.

(** [each] stops as soon as the callback answers [false]; the callback may
    change the caller's state [S] and may panic. *)
Fixpoint each {S} n (f : K → V → ST S bool) : ST S bool :=
  match n with
  | Nil => mret true
  | Node k v l r _ =>
    b ← each l f;
    if (b : bool) then
      b' ← f k v;
      if (b' : bool) then each r f else mret false
    else mret false
  end.

Definition Each {S} t (f : K → V → ST S bool) : ST S unit :=
  _ ← each (root t) f; mret tt.

Definition getHeight n : Z :=
  match n with Nil => 0 | Node _ _ _ _ h => h end.

Definition updateHeight n : outcome (node K V) :=
  match n with
  | Nil => Panics nil_deref
  | Node k v l r _ => Returns (Node k v l r (1 + Z.max (getHeight l) (getHeight r)))
  end.

Definition rotateRight (y : node K V) : outcome (node K V) :=
  match y with
  | Node ky vy (Node kx vx lx t hx) ry hy =>
    y' ← updateHeight (Node ky vy t ry hy);
    updateHeight (Node kx vx lx y' hx)
  | _ => Panics nil_deref
  end.

Definition rotateLeft (x : node K V) : outcome (node K V) :=
  match x with
  | Node kx vx lx (Node ky vy t ry hy) hx =>
    x' ← updateHeight (Node kx vx lx t hx);
    updateHeight (Node ky vy x' ry hy)
  | _ => Panics nil_deref
  end.

Definition getBalanceFactor n : Z :=
  match n with
  | Nil => 0
  | Node _ _ Nil Nil _ => 1
  | Node _ _ Nil (Node _ _ _ _ hr) _ => - hr
  | Node _ _ (Node _ _ _ _ hl) Nil _ => hl
  | Node _ _ (Node _ _ _ _ hl) (Node _ _ _ _ hr) _ => hl - hr
  end.

Definition left_of n : outcome (node K V) :=
  match n with Nil => Panics nil_deref | Node _ _ l _ _ => Returns l end.
Definition right_of n : outcome (node K V) :=
  match n with Nil => Panics nil_deref | Node _ _ _ r _ => Returns r end.
Definition key_of n : outcome K :=
  match n with Nil => Panics nil_deref | Node k _ _ _ _ => Returns k end.
Definition set_left n l : outcome (node K V) :=
  match n with Nil => Panics nil_deref | Node k v _ r h => Returns (Node k v l r h) end.
Definition set_right n r : outcome (node K V) :=
  match n with Nil => Panics nil_deref | Node k v l _ h => Returns (Node k v l r h) end.

(** [a && m]: [m] is evaluated only when [a] holds. *)
Definition and_then (a : bool) (m : outcome bool) : outcome bool :=
  if a then m else Returns false.

(** The tail of [replace], from [updateHeight(root)] on. *)
Definition replace_rebalance n (key : K) : outcome (node K V) :=
  n ← updateHeight n;
  let balance := getBalanceFactor n in
  ll ← and_then (1 <? balance)%Z
         (l ← left_of n; lk ← key_of l; mret (key <? lk)%go);
  if (ll : bool) then rotateRight n else
  rr ← and_then (balance <? -1)%Z
         (r ← right_of n; rk ← key_of r; mret (key >? rk)%go);
  if (rr : bool) then rotateLeft n else
  lr ← and_then (1 <? balance)%Z
         (l ← left_of n; lk ← key_of l; mret (key >? lk)%go);
  if (lr : bool) then
    l ← left_of n; l' ← rotateLeft l; n' ← set_left n l'; rotateRight n' else
  rl ← and_then (balance <? -1)%Z
         (r ← right_of n; rk ← key_of r; mret (key <? rk)%go);
  if (rl : bool) then
    r ← right_of n; r' ← rotateRight r; n' ← set_right n r'; rotateLeft n' else
  mret n.

Fixpoint replace n (key : K) (value : V) : outcome (node K V * V) :=
  match n with
  | Nil => Returns (Node key value Nil Nil 1, go_zero)
  | Node k v l r h =>
    if (key <? k)%go then
      '(l', oldValue) ← replace l key value;
      n' ← replace_rebalance (Node k v l' r h) key; mret (n', oldValue)
    else if (key >? k)%go then
      '(r', oldValue) ← replace r key value;
      n' ← replace_rebalance (Node k v l r' h) key; mret (n', oldValue)
    else Returns (Node k value l r h, v)
  end.

Definition Insert t (key : K) (value : V) : outcome (tree K V * V) :=
  '(n, v) ← replace (root t) key value; mret (Tree n, v).

Fixpoint findMin n : outcome (node K V) :=
  match n with
  | Nil => Panics nil_deref
  | Node _ _ Nil _ _ => Returns n
  | Node _ _ l _ _ => findMin l
  end.

(** The tail of [deleteNode], under [if deleted]. *)
Definition delete_rebalance n : outcome (node K V) :=
  n ← updateHeight n;
  l ← left_of n; r ← right_of n;
  let balance := getBalanceFactor n in
  if (1 <? balance)%Z && (0 <=? getBalanceFactor l)%Z then rotateRight n
  else if (1 <? balance)%Z && (getBalanceFactor l <? 0)%Z then
    l' ← rotateLeft l; n' ← set_left n l'; rotateRight n'
  else if (balance <? -1)%Z && (getBalanceFactor r <=? 0)%Z then rotateLeft n
  else if (balance <? -1)%Z && (0 <? getBalanceFactor r)%Z then
    r' ← rotateRight r; n' ← set_right n r'; rotateLeft n'
  else mret n.

Definition deleteNode_finish n (v : V) (deleted : bool)
    : outcome (node K V * V * bool) :=
  match n with
  | Nil => Returns (Nil, v, deleted)
  | Node _ _ _ _ _ =>
    if deleted then n' ← delete_rebalance n; mret (n', v, deleted)
    else Returns (n, v, deleted)
  end.

Fixpoint deleteNode n (key : K) : outcome (node K V * V * bool) :=
  match n with
  | Nil => Returns (Nil, go_zero, false)
  | Node k v l r h =>
    if (key <? k)%go then
      '(l', v', deleted) ← deleteNode l key;
      deleteNode_finish (Node k v l' r h) v' deleted
    else if (key >? k)%go then
      '(r', v', deleted) ← deleteNode r key;
      deleteNode_finish (Node k v l r' h) v' deleted
    else
      match l, r with
      | Nil, _ => deleteNode_finish r v true
      | _, Nil => deleteNode_finish l v true
      | _, _ =>
        temp ← findMin r;
        match temp with
        | Nil => Panics nil_deref
        | Node tk tv _ _ _ =>
          '(r', v', deleted) ← deleteNode r tk;
          deleteNode_finish (Node tk tv l r' h) v' deleted
        end
      end
  end.

Definition Delete t (key : K) : outcome (tree K V * bool) :=
  '(n, _, found) ← deleteNode (root t) key; mret (Tree n, found).

Definition Pop t (key : K) : outcome (tree K V * (V * bool)) :=
  '(n, v, found) ← deleteNode (root t) key; mret (Tree n, (v, found)).

Fixpoint find n (key : K) : V * bool :=
  match n with
  | Nil => (go_zero, false)
  | Node k v l r _ =>
    if (key <? k)%go then find l key
    else if (key >? k)%go then find r key
    else (v, true)
  end.

Definition Find t (key : K) : V * bool := find (root t) key.

Definition RootKeyValue t : K * V * bool :=
  match root t with
  | Nil => (go_zero, go_zero, false)
  | Node k v _ _ _ => (k, v, true)
  end.

Definition Length t : Z :=
  match root t with Nil => 0 | n => _length n end.

Definition Height t : Z :=
  match root t with Nil => 0 | Node _ _ _ _ h => h end.

Definition Clear t : tree K V := Tree Nil.

(** [clone] builds each node without setting [height], which stays 0. *)
Fixpoint clone n (fn : K → V → V) : node K V :=
  match n with
  | Nil => Nil
  | Node k v l r _ => Node k (fn k v) (clone l fn) (clone r fn) 0
  end.

Definition Clone t : tree K V := Tree (clone (root t) (λ _ v, v)).

Definition Empty t : bool := match root t with Nil => true | _ => false end.

End code.

(** ** What the tree is meant to be *)

Section spec.
Context {K V : Type}.
Implicit Types (n : node K V) (t : tree K V).

(** In-order contents. *)
Fixpoint inorder n : list (K * V) :=
  match n with
  | Nil => []
  | Node k v l r _ => inorder l ++ (k, v) :: inorder r
  end.

(** Stored heights are the real ones and siblings differ by at most one. *)
Fixpoint avl n : Prop :=
  match n with
  | Nil => True
  | Node _ _ l r h =>
    h = 1 + Z.max (getHeight l) (getHeight r) ∧
    -1 ≤ getHeight l - getHeight r ≤ 1 ∧ avl l ∧ avl r
  end.

(** The number of levels, counted. *)
Fixpoint levels n : Z :=
  match n with
  | Nil => 0
  | Node _ _ l r _ => 1 + Z.max (levels l) (levels r)
  end.

(** A well-formed tree: keys in search order, and balanced. *)
Definition tree_wf `{GoOrdered K} t : Prop :=
  asorted (inorder (root t)) ∧ avl (root t).

Definition tree_list t : list (K * V) := inorder (root t).
(** The dictionary a tree stands for. *)
Definition tree_map `{GoOrdered K, !EqDecision K, !Countable K} t : gmap K V :=
  amap (tree_list t).

(** The subtree whose root holds [key]. *)
Fixpoint node_at `{GoOrdered K} n (key : K) : option (node K V) :=
  match n with
  | Nil => None
  | Node k v l r h =>
    match gcmp key k with Lt => node_at l key | Gt => node_at r key | Eq => Some n end
  end.

(** The value [deleteNode] answers with: for a node with two children it is
    the in-order successor's. *)
Definition popped_value n : option V :=
  match n with
  | Nil => None
  | Node _ v Nil _ _ | Node _ v _ Nil _ => Some v
  | Node _ _ _ r _ => snd <$> head (inorder r)
  end.

End spec.

(** ** Rebalancing *)

Section rebalance.
Context {K V : Type} {OK : GoOrdered K} {OL : GoOrderedLaws K}.
Context {ZV : GoZero V} {ZK : GoZero K}.
Implicit Types (n l r : node K V) (t : tree K V).

Lemma avl_height n : avl n → 0 ≤ getHeight n ∧ (getHeight n = 0 ↔ n = Nil).
Proof.
  induction n as [|k v l IHl r IHr h]; simpl; [done|].
  intros (-> & ? & [? _]%IHl & [? _]%IHr). split; [lia|]. split; [lia|done].
Qed.

Lemma avl_height_pos n : avl n → 0 < getHeight n → n ≠ Nil.
Proof. intros ? ? ->. simpl in *. lia. Qed.

Lemma bf_high k v l r h :
  (1 <? getBalanceFactor (Node k v l r h)) = (1 <? getHeight l - getHeight r).
Proof. destruct l, r; simpl; try done; f_equal; lia. Qed.

Lemma bf_low k v l r h :
  (getBalanceFactor (Node k v l r h) <? -1) = (getHeight l - getHeight r <? -1).
Proof. destruct l, r; simpl; try done; f_equal; lia. Qed.

(** Away from leaves the balance factor is the difference of heights. *)
Lemma bf_inner k v l r h :
  0 < getHeight l ∨ 0 < getHeight r →
  getBalanceFactor (Node k v l r h) = getHeight l - getHeight r.
Proof. destruct l, r; simpl; intros; lia. Qed.

(** [rebalanced k v l r n]: [n] is balanced and holds what the unbalanced
    node would. *)
Definition rebalanced k v l r n : Prop :=
  inorder n = inorder l ++ (k, v) :: inorder r ∧ avl n ∧
  (-1 ≤ getHeight l - getHeight r ≤ 1 →
   n = Node k v l r (1 + Z.max (getHeight l) (getHeight r))) ∧
  Z.max (getHeight l) (getHeight r) ≤ getHeight n
    ≤ 1 + Z.max (getHeight l) (getHeight r).

Lemma rebalanced_none k v l r :
  avl l → avl r → -1 ≤ getHeight l - getHeight r ≤ 1 →
  rebalanced k v l r (Node k v l r (1 + Z.max (getHeight l) (getHeight r))).
Proof. intros ???. unfold rebalanced; simpl. split_and!; auto; lia. Qed.

Lemma rotateRight_rebalanced k v lk lv ll lr lh r h :
  avl (Node lk lv ll lr lh) → avl r → lh - getHeight r = 2 →
  getHeight lr ≤ getHeight ll →
  ∃ n, rotateRight (Node k v (Node lk lv ll lr lh) r h) = Returns n ∧
    rebalanced k v (Node lk lv ll lr lh) r n ∧
    (getHeight lr < getHeight ll → getHeight n = lh).
Proof.
  intros (Hlh & Hb & Hll & Hlr) Hr Hd Hle. eexists. split; [reflexivity|].
  apply avl_height in Hll as Hp1. apply avl_height in Hlr as Hp2.
  apply avl_height in Hr as Hp3.
  unfold rebalanced; simpl. rewrite <-app_assoc. simpl. split_and!; auto; try lia.
Qed.

Lemma rotateLeft_rebalanced k v l rk rv rl rr rh h :
  avl (Node rk rv rl rr rh) → avl l → rh - getHeight l = 2 →
  getHeight rl ≤ getHeight rr →
  ∃ n, rotateLeft (Node k v l (Node rk rv rl rr rh) h) = Returns n ∧
    rebalanced k v l (Node rk rv rl rr rh) n ∧
    (getHeight rl < getHeight rr → getHeight n = rh).
Proof.
  intros (Hlh & Hb & Hll & Hlr) Hr Hd Hle. eexists. split; [reflexivity|].
  apply avl_height in Hll as Hp1. apply avl_height in Hlr as Hp2.
  apply avl_height in Hr as Hp3.
  unfold rebalanced; simpl. rewrite <-app_assoc. simpl. split_and!; auto; try lia.
Qed.

(** The double rotations, spelled as the code spells them. *)
Lemma rotate_left_right_rebalanced k v lk lv ll lr lh r h :
  avl (Node lk lv ll lr lh) → avl r → lh - getHeight r = 2 →
  getHeight ll < getHeight lr →
  ∃ n, (l' ← rotateLeft (Node lk lv ll lr lh);
        n' ← set_left (Node k v (Node lk lv ll lr lh) r h) l'; rotateRight n')
       = Returns n ∧
    rebalanced k v (Node lk lv ll lr lh) r n ∧ getHeight n = lh.
Proof.
  intros (Hlh & Hb & Hll & Hlr) Hr Hd Hlt.
  destruct lr as [|xk xv xl xr xh]; [apply avl_height in Hll; simpl in *; lia|].
  destruct Hlr as (Hxh & Hxb & Hxl & Hxr). simpl in *.
  eexists. split; [reflexivity|].
  apply avl_height in Hll as Hp1. apply avl_height in Hxl as Hp2.
  apply avl_height in Hxr as Hp3. apply avl_height in Hr as Hp4.
  unfold rebalanced; simpl. repeat (rewrite <-app_assoc; simpl).
  split_and!; auto; try lia.
Qed.

Lemma rotate_right_left_rebalanced k v l rk rv rl rr rh h :
  avl (Node rk rv rl rr rh) → avl l → rh - getHeight l = 2 →
  getHeight rr < getHeight rl →
  ∃ n, (r' ← rotateRight (Node rk rv rl rr rh);
        n' ← set_right (Node k v l (Node rk rv rl rr rh) h) r'; rotateLeft n')
       = Returns n ∧
    rebalanced k v l (Node rk rv rl rr rh) n ∧ getHeight n = rh.
Proof.
  intros (Hlh & Hb & Hll & Hlr) Hr Hd Hlt.
  destruct rl as [|xk xv xl xr xh]; [apply avl_height in Hlr; simpl in *; lia|].
  destruct Hll as (Hxh & Hxb & Hxl & Hxr). simpl in *.
  eexists. split; [reflexivity|].
  apply avl_height in Hlr as Hp1. apply avl_height in Hxl as Hp2.
  apply avl_height in Hxr as Hp3. apply avl_height in Hr as Hp4.
  unfold rebalanced; simpl. repeat (rewrite <-app_assoc; simpl).
  split_and!; auto; try lia.
Qed.

(** The subtree [n] leans towards [key]: what an insertion that raised the
    height by one leaves behind. *)
Definition leans (key : K) n : Prop :=
  match n with
  | Nil => False
  | Node k _ l r _ =>
    (gcmp key k = Lt ∧ getHeight l = getHeight r + 1) ∨
    (gcmp key k = Gt ∧ getHeight r = getHeight l + 1)
  end.

Lemma replace_rebalance_left k v l r h key :
  avl l → avl r → -1 ≤ getHeight l - getHeight r ≤ 2 →
  (getHeight l - getHeight r = 2 → leans key l) →
  ∃ n, replace_rebalance (Node k v l r h) key = Returns n ∧
    rebalanced k v l r n ∧
    (getHeight l - getHeight r = 2 → getHeight n = getHeight l).
Proof.
  intros Hl Hr Hd Hlean. unfold replace_rebalance. cbn [updateHeight mbind outcome_bind].
  rewrite bf_high, bf_low.
  rewrite (proj2 (Z.ltb_ge (getHeight l - getHeight r) (-1))) by lia.
  destruct (Z.ltb_spec 1 (getHeight l - getHeight r)) as [H2|H2]; simpl.
  2:{ eexists. split; [reflexivity|]. split; [apply rebalanced_none; auto; lia|lia]. }
  specialize (Hlean ltac:(lia)). destruct l as [|lk lv ll lr lh]; [done|]. simpl.
  destruct Hlean as [[Hk Hlh]|[Hk Hlh]]; unfold gltb, ggtb; rewrite Hk; simpl.
  - destruct (rotateRight_rebalanced k v lk lv ll lr lh r
      (1 + lh `max` getHeight r) Hl Hr) as (n & En & Hn & Hht); [simpl in *; lia..|].
    exists n. split_and!; [done|done|]. intros _. apply Hht. lia.
  - destruct (rotate_left_right_rebalanced k v lk lv ll lr lh r
      (1 + lh `max` getHeight r) Hl Hr) as (n & En & Hn & Hht); [simpl in *; lia..|].
    exists n. split_and!; [exact En|done|done].
Qed.

Lemma replace_rebalance_right k v l r h key :
  avl l → avl r → -2 ≤ getHeight l - getHeight r ≤ 1 →
  (getHeight l - getHeight r = -2 → leans key r) →
  ∃ n, replace_rebalance (Node k v l r h) key = Returns n ∧
    rebalanced k v l r n ∧
    (getHeight l - getHeight r = -2 → getHeight n = getHeight r).
Proof.
  intros Hl Hr Hd Hlean. unfold replace_rebalance. cbn [updateHeight mbind outcome_bind].
  rewrite bf_high, bf_low.
  rewrite (proj2 (Z.ltb_ge 1 (getHeight l - getHeight r))) by lia.
  destruct (Z.ltb_spec (getHeight l - getHeight r) (-1)) as [H2|H2]; simpl.
  2:{ eexists. split; [reflexivity|]. split; [apply rebalanced_none; auto; lia|lia]. }
  specialize (Hlean ltac:(lia)). destruct r as [|rk rv rl rr rh]; [done|]. simpl.
  destruct Hlean as [[Hk Hlh]|[Hk Hlh]]; unfold gltb, ggtb; rewrite Hk; simpl.
  - destruct (rotate_right_left_rebalanced k v l rk rv rl rr rh
      (1 + getHeight l `max` rh) Hr Hl) as (n & En & Hn & Hht); [simpl in *; lia..|].
    exists n. split_and!; [exact En|done|done].
  - destruct (rotateLeft_rebalanced k v l rk rv rl rr rh
      (1 + getHeight l `max` rh) Hr Hl) as (n & En & Hn & Hht); [simpl in *; lia..|].
    exists n. split_and!; [done|done|]. intros _. apply Hht. lia.
Qed.

Lemma delete_rebalance_spec k v l r h :
  avl l → avl r → -2 ≤ getHeight l - getHeight r ≤ 2 →
  ∃ n, delete_rebalance (Node k v l r h) = Returns n ∧ rebalanced k v l r n.
Proof.
  intros Hl Hr Hd. unfold delete_rebalance.
  cbn [updateHeight mbind outcome_bind left_of right_of].
  rewrite bf_high, bf_low.
  apply avl_height in Hl as Hhl. apply avl_height in Hr as Hhr.
  destruct (Z.ltb_spec 1 (getHeight l - getHeight r)) as [H2|H2].
  - rewrite (proj2 (Z.ltb_ge (getHeight l - getHeight r) (-1))) by lia. simpl.
    destruct l as [|lk lv ll lr lh]; [simpl in *; lia|].
    assert (Hbf : getBalanceFactor (Node lk lv ll lr lh) = getHeight ll - getHeight lr).
    { destruct Hl as (? & ? & ?%avl_height & ?%avl_height). apply bf_inner. simpl in *. lia. }
    rewrite Hbf. destruct (Z.leb_spec 0 (getHeight ll - getHeight lr)) as [Hle|Hgt].
    + destruct (rotateRight_rebalanced k v lk lv ll lr lh r
        (1 + lh `max` getHeight r)) as (n & En & Hn & _);
        [done|done|simpl in *; lia|lia|]. exists n. by split; [apply En|].
    + rewrite (proj2 (Z.ltb_lt _ 0)) by lia.
      destruct (rotate_left_right_rebalanced k v lk lv ll lr lh r
        (1 + lh `max` getHeight r)) as (n & En & Hn & _);
        [done|done|simpl in *; lia|lia|]. exists n. by split; [apply En|].
  - simpl. destruct (Z.ltb_spec (getHeight l - getHeight r) (-1)) as [H3|H3]; simpl.
    2:{ eexists. split; [reflexivity|]. apply rebalanced_none; auto; lia. }
    destruct r as [|rk rv rl rr rh]; [simpl in *; lia|].
    assert (Hbf : getBalanceFactor (Node rk rv rl rr rh) = getHeight rl - getHeight rr).
    { destruct Hr as (? & ? & ?%avl_height & ?%avl_height). apply bf_inner. simpl in *. lia. }
    rewrite Hbf. destruct (Z.leb_spec (getHeight rl - getHeight rr) 0) as [Hle|Hgt].
    + destruct (rotateLeft_rebalanced k v l rk rv rl rr rh
        (1 + getHeight l `max` rh)) as (n & En & Hn & _);
        [done|done|simpl in *; lia|lia|]. exists n. by split; [apply En|].
    + rewrite (proj2 (Z.ltb_lt 0 _)) by lia.
      destruct (rotate_right_left_rebalanced k v l rk rv rl rr rh
        (1 + getHeight l `max` rh)) as (n & En & Hn & _);
        [done|done|simpl in *; lia|lia|]. exists n. by split; [apply En|].
Qed.

End rebalance.

(** ** Insertion, deletion and lookup *)

Section operations.
Context {K V : Type} {OK : GoOrdered K} {OL : GoOrderedLaws K}.
Context {ZV : GoZero V} {ZK : GoZero K}.
Implicit Types (n l r : node K V) (t : tree K V).

Lemma rebalanced_ne k v l r n : rebalanced k v l r n → n ≠ Nil.
Proof. intros (Hin & _) ->. simpl in Hin. by destruct (inorder l). Qed.

(** What [rebalanced] says in the form [lia] uses. *)
Lemma rebalanced_inv k v l r n :
  rebalanced k v l r n →
  inorder n = inorder l ++ (k, v) :: inorder r ∧ avl n ∧
  (-1 ≤ getHeight l - getHeight r ≤ 1 →
   getHeight n = 1 + Z.max (getHeight l) (getHeight r)) ∧
  Z.max (getHeight l) (getHeight r) ≤ getHeight n
    ≤ 1 + Z.max (getHeight l) (getHeight r).
Proof.
  intros (? & ? & Hnone & ?). split; [done|]. split; [done|]. split; [|done].
  intros Hb. by rewrite (Hnone Hb) at 1.
Qed.

Lemma replace_spec n key value :
  asorted (inorder n) → avl n →
  ∃ n', replace n key value =
      Returns (n', default go_zero (afind key (inorder n))) ∧
    inorder n' = ainsert key value (inorder n) ∧ avl n' ∧
    (getHeight n' = getHeight n ∨
     getHeight n' = getHeight n + 1 ∧ (n = Nil ∨ leans key n')).
Proof.
  induction n as [|k v l IHl r IHr h]; simpl.
  { intros _ _. exists (Node key value Nil Nil 1). split; [done|]. split; [done|].
    split; [simpl; lia|]. simpl. auto. }
  rewrite asorted_mid. intros (Hsl & Hsr & Hlt & Hgt) (-> & Hb & Hl & Hr).
  apply avl_height in Hl as Hl0. apply avl_height in Hr as Hr0.
  gcompare key k.
  - rewrite afind_skip, ainsert_skip by done. simpl. rewrite gcmp_refl.
    eexists. split; [done|]. split; [done|]. split; [simpl; auto|by left].
  - destruct (IHl Hsl Hl) as (l' & El & Hin & Hl' & Hh). clear IHl IHr.
    rewrite afind_below, ainsert_below by done. rewrite El. simpl.
    destruct (replace_rebalance_left k v l' r
      (1 + getHeight l `max` getHeight r) key) as (n' & En & Hn & Hht);
      [done..|lia| |].
    { intros H2. destruct Hh as [Hh|[Hh [->|?]]]; [lia|simpl in *; lia|done]. }
    exists n'. rewrite En. simpl. destruct Hn as (Hin' & Hn' & Hnone & Hhb).
    split_and!; [done|by rewrite Hin', Hin|done|].
    destruct (decide (getHeight l' - getHeight r = 2)) as [H2|H2].
    { left. rewrite Hht by done. lia. }
    rewrite Hnone by lia. simpl. destruct Hh as [Hh|[Hh _]]; [left; lia|].
    destruct (decide (getHeight l = getHeight r)); [|left; lia].
    right. split; [lia|]. right. left. split; [done|lia].
  - destruct (IHr Hsr Hr) as (r' & Er & Hin & Hr' & Hh). clear IHl IHr.
    assert (Hskip : all_lt key (inorder l)) by (by eapply all_lt_trans).
    rewrite afind_skip, ainsert_skip by done. simpl.
    rewrite (proj2 (gcmp_gt key k)) by done. rewrite Er. simpl.
    destruct (replace_rebalance_right k v l r'
      (1 + getHeight l `max` getHeight r) key) as (n' & En & Hn & Hht);
      [done..|lia| |].
    { intros H2. destruct Hh as [Hh|[Hh [->|?]]]; [lia|simpl in *; lia|done]. }
    exists n'. rewrite En. simpl. destruct Hn as (Hin' & Hn' & Hnone & Hhb).
    split_and!; [done|by rewrite Hin', Hin|done|].
    destruct (decide (getHeight l - getHeight r' = -2)) as [H2|H2].
    { left. rewrite Hht by done. lia. }
    rewrite Hnone by lia. simpl. destruct Hh as [Hh|[Hh _]]; [left; lia|].
    destruct (decide (getHeight l = getHeight r)); [|left; lia].
    right. split; [lia|]. right. right. by split; [apply gcmp_gt|lia].
Qed.

Lemma find_spec n key :
  asorted (inorder n) →
  find n key = (default go_zero (afind key (inorder n)),
                bool_decide (is_Some (afind key (inorder n)))).
Proof.
  induction n as [|k v l IHl r IHr h]; simpl; [done|].
  rewrite asorted_mid. intros (Hsl & Hsr & Hlt & Hgt). gcompare key k.
  - rewrite afind_skip by done. simpl. by rewrite gcmp_refl.
  - rewrite IHl, afind_below by done. done.
  - rewrite IHr by done. rewrite afind_skip by (by eapply all_lt_trans).
    simpl. by rewrite (proj2 (gcmp_gt key k)) by done.
Qed.

Lemma findMin_spec n :
  n ≠ Nil → ∃ k v r h, findMin n = Returns (Node k v Nil r h) ∧
    head (inorder n) = Some (k, v).
Proof.
  induction n as [|k v l IHl r _ h]; [done|]. intros _. destruct l as [|lk lv ll lr lh].
  - simpl. eauto 10.
  - destruct IHl as (k' & v' & r' & h' & Em & Hh); [done|].
    exists k', v', r', h'. split; [exact Em|]. simpl in *.
    destruct (inorder ll ++ (lk, lv) :: inorder lr); [done|]. exact Hh.
Qed.

Lemma node_at_head n k v :
  asorted (inorder n) → head (inorder n) = Some (k, v) →
  ∃ n', node_at n k = Some n' ∧ popped_value n' = Some v.
Proof.
  induction n as [|k' v' l IHl r _ h]; simpl; [done|].
  rewrite asorted_mid. intros (Hsl & _ & Hlt & _) Hhd.
  destruct (inorder l) as [|p li] eqn:El; simpl in Hhd.
  - simplify_eq. rewrite gcmp_refl. eexists. split; [done|].
    destruct l as [|? ? ll lr ?]; [done|]. simpl in El. by destruct (inorder ll).
  - simplify_eq. unfold all_lt in Hlt. rewrite list.Forall_cons in Hlt.
    destruct Hlt as [Hk _]. simpl in Hk. rewrite Hk. apply IHl; done.
Qed.

#[local] Arguments deleteNode_finish : simpl never.

(** The value [deleteNode] answers with, for the zero value when absent. *)
Definition popped n (key : K) : V :=
  default go_zero (node_at n key ≫= popped_value).

Lemma deleteNode_finish_spec k v l r h x d :
  avl l → avl r → -2 ≤ getHeight l - getHeight r ≤ 2 →
  (d = false → h = 1 + Z.max (getHeight l) (getHeight r) ∧
               -1 ≤ getHeight l - getHeight r ≤ 1) →
  ∃ n, deleteNode_finish (Node k v l r h) x d = Returns (n, x, d) ∧
    rebalanced k v l r n.
Proof.
  intros Hl Hr Hd Hno. unfold deleteNode_finish. destruct d; simpl.
  - destruct (delete_rebalance_spec k v l r h Hl Hr Hd) as (n & -> & Hn).
    by exists n.
  - destruct Hno as [-> Hb]; [done|]. eexists. split; [done|].
    by apply rebalanced_none.
Qed.

Lemma deleteNode_avl n x :
  avl n → ∃ n', deleteNode_finish n x true = Returns (n', x, true) ∧
    inorder n' = inorder n ∧ avl n' ∧ getHeight n' = getHeight n.
Proof.
  destruct n as [|k v l r h]; intros Hn; [by exists Nil|].
  destruct Hn as (-> & Hb & Hl & Hr).
  destruct (deleteNode_finish_spec k v l r
    (1 + getHeight l `max` getHeight r) x true) as (n' & En & Hin & Hn' & Hnone & _);
    [done..|lia|done|].
  exists n'. split_and!; try done. by rewrite Hnone by done.
Qed.

Lemma deleteNode_spec n key :
  asorted (inorder n) → avl n →
  ∃ n', deleteNode n key =
      Returns (n', popped n key, bool_decide (is_Some (afind key (inorder n)))) ∧
    inorder n' = adelete key (inorder n) ∧ avl n' ∧
    getHeight n - 1 ≤ getHeight n' ≤ getHeight n ∧
    (afind key (inorder n) = None → getHeight n' = getHeight n).
Proof.
  revert key. induction n as [|k v l IHl r IHr h]; intros key; simpl.
  { intros _ _. exists Nil. split_and!; simpl; auto; lia. }
  rewrite asorted_mid. intros (Hsl & Hsr & Hlt & Hgt) (-> & Hb & Hl & Hr).
  apply avl_height in Hl as Hl0. apply avl_height in Hr as Hr0.
  unfold popped. simpl. gcompare key k.
  - (* the node itself *)
    rewrite afind_skip, adelete_skip by done. simpl. rewrite gcmp_refl. simpl.
    destruct l as [|lk lv ll lr lh].
    { destruct (deleteNode_avl r v Hr) as (n' & -> & Hin & Hn' & Hht).
      exists n'. split_and!; try done; simpl in *; lia. }
    destruct r as [|rk rv rl rr rh].
    { destruct (deleteNode_avl _ v Hl) as (n' & -> & Hin & Hn' & Hht).
      exists n'. split_and!; try done; [|simpl in *; lia..].
      rewrite Hin. by rewrite app_nil_r. }
    destruct (findMin_spec (Node rk rv rl rr rh)) as (tk & tv & tr & th & Em & Hhd); [done|].
    rewrite Em. cbn [mbind outcome_bind].
    destruct (node_at_head _ _ _ Hsr Hhd) as (n0 & Hat & Hpop).
    destruct (IHr tk Hsr Hr) as (r' & Er & Hin & Hr' & Hh & _). rewrite Er.
    set (ri := inorder (Node rk rv rl rr rh)) in *.
    destruct ri as [|p ri'] eqn:Eri; [done|]. simpl in Hhd. simplify_eq.
    assert (Hpv : popped (Node rk rv rl rr rh) tk = tv).
    { unfold popped. rewrite Hat. simpl. by rewrite Hpop. }
    assert (Hri : inorder r' = ri').
    { rewrite Hin. simpl. by rewrite gcmp_refl. }
    rewrite Hpv. cbn [afind]. rewrite gcmp_refl, bool_decide_true by done.
    cbn [mbind outcome_bind].
    edestruct (deleteNode_finish_spec tk tv (Node lk lv ll lr lh) r'
      (1 + getHeight (Node lk lv ll lr lh) `max` getHeight (Node rk rv rl rr rh))
      tv true) as (n' & En & Hn); [done|done| |done|].
    { change (getHeight (Node lk lv ll lr lh)) with lh in *.
      change (getHeight (Node rk rv rl rr rh)) with rh in *. simpl. lia. }
    rewrite En. exists n'. apply rebalanced_inv in Hn as (Hin' & Hn' & Hnone & Hhb).
    split; [done|]. split; [by rewrite Hin', Hri|]. split; [done|].
    split; [lia|done].
  - destruct (IHl key Hsl Hl) as (l' & El & Hin & Hl' & Hh & Hsame).
    rewrite afind_below, adelete_below by done. rewrite El. cbn [mbind outcome_bind].
    destruct (deleteNode_finish_spec k v l' r
      (1 + getHeight l `max` getHeight r) (popped l key)
      (bool_decide (is_Some (afind key (inorder l))))) as (n' & En & Hn);
      [done|done|lia| |].
    2:{ rewrite En. exists n'. apply rebalanced_inv in Hn as (Hin' & Hn' & Hnone & Hhb).
        split; [done|]. split; [by rewrite Hin', Hin|]. split; [done|].
        split; [lia|]. intros Hno. apply Hsame in Hno. lia. }
    intros Hno%bool_decide_eq_false. apply eq_None_not_Some, Hsame in Hno.
    rewrite Hno. by split.
  - destruct (IHr key Hsr Hr) as (r' & Er & Hin & Hr' & Hh & Hsame).
    assert (Hskip : all_lt key (inorder l)) by (by eapply all_lt_trans).
    rewrite afind_skip, adelete_skip by done. simpl.
    rewrite (proj2 (gcmp_gt key k)) by done. rewrite Er. cbn [mbind outcome_bind].
    destruct (deleteNode_finish_spec k v l r'
      (1 + getHeight l `max` getHeight r) (popped r key)
      (bool_decide (is_Some (afind key (inorder r))))) as (n' & En & Hn);
      [done|done|lia| |].
    2:{ rewrite En. exists n'. apply rebalanced_inv in Hn as (Hin' & Hn' & Hnone & Hhb).
        split; [done|]. split; [by rewrite Hin', Hin|]. split; [done|].
        split; [lia|]. intros Hno. apply Hsame in Hno. lia. }
    intros Hno%bool_decide_eq_false. apply eq_None_not_Some, Hsame in Hno.
    rewrite Hno. by split.
Qed.

End operations.

(** ** What clients use: a tree is the finite map [tree_map] *)

(** In-order iteration with the callback's early exit, on a list. *)
Fixpoint each_list {K V S} (l : list (K * V)) (f : K → V → ST S bool) : ST S bool :=
  match l with
  | [] => mret true
  | (k, v) :: l => b ← f k v; if (b : bool) then each_list l f else mret false
  end.

Section client.
Context {K V : Type} {OK : GoOrdered K} {OL : GoOrderedLaws K}.
Context {ZV : GoZero V} {ZK : GoZero K} `{!EqDecision K, !Countable K}.
Implicit Types (n : node K V) (t : tree K V).

Lemma NewTree_wf : tree_wf (NewTree : tree K V).
Proof. split; [constructor|done]. Qed.

Lemma NewTree_map : tree_map (NewTree : tree K V) = ∅.
Proof. done. Qed.

Lemma Insert_ok t k v :
  tree_wf t → ∃ t', Insert t k v = Returns (t', default go_zero (tree_map t !! k)) ∧
    tree_wf t' ∧ tree_map t' = <[k := v]> (tree_map t).
Proof.
  intros [Hs Ha]. destruct (replace_spec (root t) k v Hs Ha) as (n' & En & Hin & Hn' & _).
  unfold Insert. rewrite En. exists (Tree n'). unfold tree_map, tree_list.
  rewrite (amap_afind k) by done. split_and!; [done| |].
  - split; [|done]. simpl. rewrite Hin. by apply ainsert_sorted.
  - simpl. rewrite Hin. apply amap_ainsert.
Qed.

Lemma Find_ok t k :
  tree_wf t → Find t k = (default go_zero (tree_map t !! k),
                         bool_decide (is_Some (tree_map t !! k))).
Proof.
  intros [Hs Ha]. unfold Find. rewrite find_spec by done. unfold tree_map, tree_list.
  by rewrite amap_afind by done.
Qed.

Lemma Pop_ok t k :
  tree_wf t → ∃ t', Pop t k =
      Returns (t', (popped (root t) k, bool_decide (is_Some (tree_map t !! k)))) ∧
    tree_wf t' ∧ tree_map t' = delete k (tree_map t).
Proof.
  intros [Hs Ha]. destruct (deleteNode_spec (root t) k Hs Ha) as (n' & En & Hin & Hn' & _).
  unfold Pop. rewrite En. exists (Tree n'). unfold tree_map, tree_list.
  rewrite (amap_afind k) by done. split_and!; [done| |].
  - split; [|done]. simpl. rewrite Hin. by apply adelete_sorted.
  - simpl. rewrite Hin. by apply amap_adelete.
Qed.

Lemma Delete_ok t k :
  tree_wf t → ∃ t', Delete t k = Returns (t', bool_decide (is_Some (tree_map t !! k))) ∧
    tree_wf t' ∧ tree_map t' = delete k (tree_map t).
Proof.
  intros Hwf. destruct (Pop_ok t k Hwf) as (t' & Ep & Hwf' & Hm).
  exists t'. split; [|done]. unfold Pop, Delete in *.
  destruct (deleteNode (root t) k) as [[[n x] d]|]; run; by simplify_eq.
Qed.

Lemma Clear_ok t : tree_wf (Clear t) ∧ tree_map (Clear t) = ∅.
Proof. split; [apply NewTree_wf|done]. Qed.

Lemma length_inorder n : _length n = Z.of_nat (length (inorder n)).
Proof.
  induction n as [|k v l IHl r IHr h]; simpl; [done|].
  rewrite length_app. simpl. lia.
Qed.

Lemma Length_ok t : tree_wf t → Length t = Z.of_nat (size (tree_map t)).
Proof.
  intros [Hs _]. unfold tree_map, tree_list. rewrite asorted_size by done.
  rewrite <-length_inorder. unfold Length. by destruct (root t).
Qed.

Lemma Empty_ok t : Empty t = true ↔ tree_map t = ∅.
Proof.
  unfold Empty, tree_map, tree_list. destruct (root t) as [|k v l r h]; [done|].
  split; [done|]. intros Hm. simpl in Hm.
  assert (Hk : amap (inorder l ++ (k, v) :: inorder r) !! k ≠ None).
  { unfold amap. rewrite <-not_elem_of_list_to_map. rewrite fmap_app, elem_of_app.
    intros Hn. apply Hn. right. apply elem_of_cons. by left. }
  by rewrite Hm in Hk.
Qed.

Lemma RootKeyValue_ok t :
  tree_wf t →
  match RootKeyValue t with
  | (k, v, true) => tree_map t !! k = Some v
  | (_, _, false) => tree_map t = ∅
  end.
Proof.
  intros [Hs _]. unfold RootKeyValue, tree_map, tree_list in *.
  destruct (root t) as [|k v l r h]; [done|]. simpl in *.
  apply elem_of_amap; [done|]. rewrite elem_of_app, elem_of_cons. auto.
Qed.

Lemma each_list_app {S} l1 l2 (f : K → V → ST S bool) s :
  each_list (l1 ++ l2) f s =
  (b ← each_list l1 f; if (b : bool) then each_list l2 f else mret false) s.
Proof.
  revert s. induction l1 as [|[k v] l1 IH]; intros s; simpl; [done|].
  rewrite !st_bind_unfold. by destruct (f k v s) as [[[] s']|].
Qed.

Lemma each_inorder {S} n (f : K → V → ST S bool) s :
  each n f s = each_list (inorder n) f s.
Proof.
  revert s. induction n as [|k v l IHl r IHr h]; intros s; simpl; [done|].
  rewrite each_list_app, !st_bind_unfold, IHl.
  destruct (each_list (inorder l) f s) as [[[] s']|]; try done. simpl.
  rewrite !st_bind_unfold. by destruct (f k v s') as [[[] s'']|].
Qed.

Lemma tree_list_lookup t k v :
  tree_wf t → (k, v) ∈ tree_list t ↔ tree_map t !! k = Some v.
Proof. intros [Hs _]. by apply elem_of_amap. Qed.

Lemma avl_levels n : avl n → getHeight n = levels n.
Proof.
  induction n as [|k v l IHl r IHr h]; simpl; [done|].
  intros (-> & _ & ?%IHl & ?%IHr). lia.
Qed.

Lemma avl_size n : avl n → 2 ^ (getHeight n / 2) ≤ _length n + 1.
Proof.
  induction n as [|k v l IHl r IHr h]; [intros _; by vm_compute|].
  intros (Hh & Hb & Hl & Hr). specialize (IHl Hl). specialize (IHr Hr).
  apply avl_height in Hl as [Hl0 _]. apply avl_height in Hr as [Hr0 _].
  cbn [getHeight _length]. subst h.
  assert (Hmin : ∀ x m, 0 ≤ x → x ≤ m → 2 ^ (x / 2) ≤ 2 ^ (m / 2)).
  { intros x m ??. apply Z.pow_le_mono_r; [lia|]. apply Z.div_le_mono; lia. }
  set (m := Z.max (getHeight l) (getHeight r)) in *.
  destruct (decide (m = 0)) as [->|Hm].
  { replace ((1 + 0) / 2) with 0 by done.
    assert (0 < 2 ^ (getHeight l / 2) ∧ 0 < 2 ^ (getHeight r / 2)) as [? ?].
    { split; apply Z.pow_pos_nonneg; try lia; apply Z.div_pos; lia. }
    simpl. lia. }
  replace (1 + m) with ((m - 1) + 1 * 2) by lia.
  rewrite Z.div_add, Z.pow_add_r by (try (apply Z.div_pos; lia); lia).
  assert (2 ^ ((m - 1) / 2) ≤ 2 ^ (getHeight l / 2)) by (apply Hmin; lia).
  assert (2 ^ ((m - 1) / 2) ≤ 2 ^ (getHeight r / 2)) by (apply Hmin; lia).
  lia.
Qed.

Lemma clone_inorder n (f : K → V → V) :
  inorder (clone n f) = (λ '(k, v), (k, f k v)) <$> inorder n.
Proof.
  induction n as [|k v l IHl r IHr h]; simpl; [done|].
  by rewrite fmap_app, IHl, IHr.
Qed.

End client.

(** ** Properties *)

Section properties.
Context {K V : Type} {OK : GoOrdered K} {OL : GoOrderedLaws K}.
Context {ZV : GoZero V} {ZK : GoZero K} `{!EqDecision K, !Countable K}.

(** C32: [Insert] on a well-formed tree never panics, answers the previous
    value (the zero value when there was none), and leaves a well-formed
    (search-ordered, balanced) tree that denotes the updated finite map. *)
Theorem Insert_refines_map (t : tree K V) (k : K) (v : V) :
  tree_wf t →
  ∃ t', Insert t k v = Returns (t', default go_zero (tree_map t !! k)) ∧
    tree_wf t' ∧ tree_map t' = <[k := v]> (tree_map t) ∧
    (∀ k', Find t' k' = if decide (k = k') then (v, true) else Find t k').
Proof.
  intros Hwf. destruct (Insert_ok t k v Hwf) as (t' & E & Hwf' & Hm).
  exists t'. split_and!; try done. intros k'. rewrite !Find_ok, Hm by done.
  rewrite lookup_insert. by case_decide.
Qed.

(** C33: [Delete] and [Pop] on a well-formed tree never panic, report exactly
    whether the key was present, and leave a well-formed tree that denotes
    the map without the key. *)
Theorem Delete_Pop_refine_map (t : tree K V) (k : K) :
  tree_wf t →
  ∃ t' v, Delete t k = Returns (t', bool_decide (is_Some (tree_map t !! k))) ∧
    Pop t k = Returns (t', (v, bool_decide (is_Some (tree_map t !! k)))) ∧
    tree_wf t' ∧ tree_map t' = delete k (tree_map t) ∧
    (∀ k', Find t' k' = if decide (k = k') then (go_zero, false) else Find t k').
Proof.
  intros Hwf. destruct (Pop_ok t k Hwf) as (t' & E & Hwf' & Hm).
  destruct (Delete_ok t k Hwf) as (t2 & E2 & _ & _).
  assert (t2 = t') as ->.
  { unfold Delete, Pop in *.
    destruct (deleteNode (root t) k) as [[[n x] d]|]; run; by simplify_eq. }
  eexists t', _. split_and!; try done. intros k'. rewrite !Find_ok, Hm by done.
  rewrite lookup_delete. by case_decide.
Qed.

(** the value [Pop] answers with is the popped key's own value only when
    the key's node has at most one child; with two children it is the value
    of the in-order successor, because the recursive [deleteNode] call on the
    right subtree overwrites [v]. *)
Theorem Pop_answers_successor (t : tree K V) (k : K) :
  tree_wf t →
  ∀ kn v l r h, node_at (root t) k = Some (Node kn v l r h) →
  ∃ t', Pop t k = Returns (t', (
      match l, r with
      | Nil, _ | _, Nil => v
      | _, _ => default go_zero (snd <$> head (inorder r))
      end, true)) ∧ tree_map t !! k = Some v.
Proof.
  intros Hwf kn v l r h Hat. destruct (Pop_ok t k Hwf) as (t' & E & _ & _).
  assert (Hk : tree_map t !! k = Some v).
  { destruct Hwf as [Hs _]. unfold tree_map, tree_list.
    apply elem_of_amap; [done|]. clear E. revert Hs Hat.
    induction (root t) as [|k' v' l' IHl r' IHr h']; simpl; [done|].
    rewrite asorted_mid, elem_of_app, elem_of_cons. intros (? & ? & _ & _).
    destruct (gcmp k k') eqn:Hc; auto. intros [=]; subst.
    apply gcmp_eq_iff in Hc as ->. auto. }
  exists t'. split; [|done]. rewrite E, Hk, bool_decide_true by done.
  unfold popped. rewrite Hat. by destruct l, r.
Qed.

(** the height stored at the root of a well-formed tree is its number of
    levels, and is at most twice the binary logarithm of its length. *)
Theorem Height_logarithmic (t : tree K V) :
  tree_wf t → Height t = levels (root t) ∧ 2 ^ (Height t / 2) ≤ Length t + 1.
Proof.
  intros [_ Ha]. apply avl_levels in Ha as Hl. apply avl_size in Ha as Hz.
  unfold Height, Length. by destruct (root t).
Qed.

(** [Each] calls its callback on the entries in ascending key order and
    stops after the first [false]; a callback that always answers [true] sees
    every entry of the map exactly once. *)
Theorem Each_in_order (t : tree K V) :
  tree_wf t →
  (∀ S (f : K → V → ST S bool) s,
     Each t f s = (_ ← each_list (tree_list t) f; mret tt) s) ∧
  asorted (tree_list t) ∧ NoDup (tree_list t) ∧
  (∀ k v, (k, v) ∈ tree_list t ↔ tree_map t !! k = Some v) ∧
  Each t (λ k v l, Returns (true, l ++ [(k, v)])) [] = Returns (tt, tree_list t).
Proof.
  intros Hwf. assert (HE : ∀ S (f : K → V → ST S bool) s,
     Each t f s = (_ ← each_list (tree_list t) f; mret tt) s).
  { intros S f s. unfold Each. rewrite !st_bind_unfold, each_inorder. done. }
  destruct Hwf as [Hs Ha]. split_and!; [done|done| | |].
  - apply (NoDup_fmap_1 fst). by apply asorted_nodup.
  - intros k v. by apply tree_list_lookup.
  - rewrite HE. clear HE. rewrite st_bind_unfold. unfold tree_list.
    assert (Hl : ∀ l l0, each_list l (λ (k : K) (v : V) l, Returns (true, l ++ [(k, v)])) l0
              = Returns (true, l0 ++ l)).
    { induction l as [|[k v] l IH]; intros l0; simpl; [by rewrite app_nil_r|].
      rewrite st_bind_unfold. simpl. by rewrite IH, <-app_assoc. }
    by rewrite Hl.
Qed.

(** [Clone] keeps the contents but no height: the clone of any non-empty
    tree reports height 0. *)
Theorem Clone_loses_heights (t : tree K V) :
  tree_list (Clone t) = tree_list t ∧ Height (Clone t) = 0 ∧
  (tree_wf t → Height t = Height (Clone t) → Empty t = true).
Proof.
  split_and!.
  - unfold tree_list, Clone. simpl. rewrite clone_inorder.
    rewrite <-(list_fmap_id (inorder (root t))) at 2. apply list_fmap_ext.
    by intros ? [k v] _.
  - unfold Height, Clone. simpl. by destruct (root t).
  - intros [_ Ha]. apply avl_height in Ha as [_ H0]. unfold Height, Clone, Empty. simpl.
    destruct (root t); [done|]. simpl in *. intros E. by apply H0 in E.
Qed.

End properties.

(** *** Witnesses *)

(** The tree of the entries 1, 2, 3. *)
Definition sample_tree : tree Z Z :=
  Tree (Node 2 20 (Node 1 10 Nil Nil 1) (Node 3 30 Nil Nil 1) 2).

Lemma sample_tree_wf : tree_wf sample_tree.
Proof. split; [repeat constructor|simpl; lia]. Defined.

Lemma Insert_refines_map_witness :
  ∃ t', Insert sample_tree 4 40 = Returns (t', 0) ∧ Find t' 4 = (40, true).
Proof.
  destruct (Insert_refines_map sample_tree 4 40 sample_tree_wf) as (t' & E & _ & _ & HF).
  exists t'. split; [exact E|]. rewrite HF. reflexivity.
Defined.

Lemma Delete_Pop_refine_map_witness :
  ∃ t' v, Pop sample_tree 2 = Returns (t', (v, true)) ∧ Find t' 2 = (0, false).
Proof.
  destruct (Delete_Pop_refine_map sample_tree 2 sample_tree_wf)
    as (t' & v & _ & E & _ & _ & HF).
  exists t', v. split; [exact E|]. rewrite HF. reflexivity.
Defined.

Lemma Pop_answers_successor_witness :
  ∃ t', Pop sample_tree 2 = Returns (t', (30, true)) ∧ tree_map sample_tree !! 2 = Some 20.
Proof.
  exact (Pop_answers_successor sample_tree 2 sample_tree_wf _ _ _ _ _ eq_refl).
Defined.

Lemma Height_logarithmic_witness :
  Height sample_tree = 2 ∧ 2 ^ (2 / 2) ≤ Length sample_tree + 1.
Proof.
  destruct (Height_logarithmic sample_tree sample_tree_wf) as [H1 H2].
  split; [exact H1|exact H2].
Defined.

Lemma Each_in_order_witness :
  Each sample_tree (λ k v l, Returns (true, l ++ [(k, v)])) [] =
    Returns (tt, [(1, 10); (2, 20); (3, 30)]).
Proof. exact (proj2 (proj2 (proj2 (proj2 (Each_in_order sample_tree sample_tree_wf))))). Defined.

Lemma Clone_loses_heights_witness :
  Height sample_tree = 2 ∧ Height (Clone sample_tree) = 0.
Proof.
  split; [reflexivity|exact (proj1 (proj2 (Clone_loses_heights sample_tree)))].
Defined.
