(* ===== verification/Heap.v ===== *)
(** * pkg/util/heap: the binary heap of the scheduler and the cache

    The slice [data] is a list, an index a [nat]; reading or writing out of
    range is the outcome [Panics index_range].  The two sift loops carry fuel;
    [heap_push] and [heap_pop] start them with the slice's length, which the
    theorems show to be enough: no call runs out. *)
From Stdlib Require Import ZArith Lia.
From stdpp Require Import base gmap strings list.
From S2P Require Import Prelude.

(** ** Data *)

Definition HeapType : Type := Z.
Definition MinHeapType : HeapType := 0.
Definition MaxHeapType : HeapType := 1.

Record pair (K V : Type) : Type := Pair { key : K; val : V }.
Arguments Pair {K V} key val.
Arguments key {K V} p.
Arguments val {K V} p.

Record Heap (K V : Type) : Type := MkHeap {
  heapType : HeapType;
  data : list (pair K V) }.
Arguments MkHeap {K V} heapType data.
Arguments heapType {K V} h.
Arguments data {K V} h.

Definition ErrHeapEmpty : error := "heap is empty".

(** ** The code *)

Section code.
Context {K V : Type} {OK : GoOrdered K} {ZK : GoZero K} {ZV : GoZero V}.
Implicit Types (d : list (pair K V)) (h : Heap K V) (ht : HeapType).

Definition NewHeap ht : outcome (Heap K V) :=
  if negb (ht =? MinHeapType)%Z && negb (ht =? MaxHeapType)%Z
  then Panics "invalid heap type"
  else Returns (MkHeap ht []).

(** [h.data[i]] *)
Definition at_index d (i : nat) : outcome (pair K V) :=
  match d !! i with Some p => Returns p | None => Panics index_range end.

(** [h.data[i], h.data[j] = h.data[j], h.data[i]] *)
Definition swap d (i j : nat) : outcome (list (pair K V)) :=
  p ← at_index d i; q ← at_index d j; mret (<[j := p]> (<[i := q]> d)).

(** [i < len(h.data) && h.data[i].key < h.data[target].key] (with [>] for a
    max-heap). *)
Definition child_wins ht d (i target : nat) : outcome bool :=
  if decide (i < length d)%nat then
    p ← at_index d i; q ← at_index d target;
    mret (if (ht =? MinHeapType)%Z then gltb (key p) (key q)
          else ggtb (key p) (key q))
  else mret false.

Fixpoint heapifyDown (fuel : nat) d (idx : nat) ht : outcome (list (pair K V)) :=
  match fuel with
  | O => Panics "out of fuel"
  | S fuel =>
    let left := (2 * idx + 1)%nat in
    let right := (2 * idx + 2)%nat in
    wl ← child_wins ht d left idx;
    let target := if (wl : bool) then left else idx in
    wr ← child_wins ht d right target;
    let target := if (wr : bool) then right else target in
    if decide (target = idx) then mret d
    else d' ← swap d idx target; heapifyDown fuel d' target ht
  end.

Fixpoint heapifyUp (fuel : nat) d (idx : nat) ht : outcome (list (pair K V)) :=
  match idx with
  | O => mret d
  | S idx' =>
    match fuel with
    | O => Panics "out of fuel"
    | S fuel =>
      let parent := (idx' / 2)%nat in
      p ← at_index d parent; q ← at_index d idx;
      if (if (ht =? MinHeapType)%Z then gleb (key p) (key q)
          else ggeb (key p) (key q) : bool)
      then mret d
      else d' ← swap d parent idx; heapifyUp fuel d' parent ht
    end
  end.

Definition Push h (k : K) (v : V) : outcome (Heap K V) :=
  let d := data h ++ [Pair k v] in
  d' ← heapifyUp (length d) d (length d - 1) (heapType h);
  mret (MkHeap (heapType h) d').

Definition Pop h : outcome (Heap K V * (K * V * bool)) :=
  if decide (length (data h) = 0)%nat then mret (h, (go_zero, go_zero, false))
  else
    min ← at_index (data h) 0;
    let lastIdx := (length (data h) - 1)%nat in
    last ← at_index (data h) lastIdx;
    let d := take lastIdx (<[0%nat := last]> (data h)) in
    d' ← heapifyDown (S (length d)) d 0 (heapType h);
    mret (MkHeap (heapType h) d', (key min, val min, true)).

Definition Peak h : K * V * bool :=
  match data h with
  | [] => (go_zero, go_zero, false)
  | min :: _ => (key min, val min, true)
  end.

Definition Len h : Z := Z.of_nat (length (data h)).

End code.

(** ** The heap order *)

Section order.
Context {K V : Type} {OK : GoOrdered K} {OL : GoOrderedLaws K}.
Context {ZK : GoZero K} {ZV : GoZero V}.
Implicit Types (d : list (pair K V)) (h : Heap K V) (ht : HeapType) (i j : nat).

(** [a] must not sit below [b]: the strict order of the heap's type. *)
Definition wins ht (a b : K) : bool :=
  if (ht =? MinHeapType)%Z then gltb a b else ggtb a b.

(** [a] may sit above [b]. *)
Definition above ht (a b : K) : Prop := wins ht b a = false.

Lemma gltb_false_trans (a b c : K) : gltb b a = false → gltb c b = false → gltb c a = false.
Proof.
  intros H1 H2. destruct (gltb c a) eqn:H3; [|done]. apply gltb_lt in H3.
  destruct (gcmp b c) eqn:Hbc.
  - apply gcmp_eq_iff in Hbc as ->. apply gltb_lt in H3. congruence.
  - assert (gltb b a = true); [|congruence]. apply gltb_lt. by eapply gcmp_lt_trans.
  - apply gcmp_gt, gltb_lt in Hbc. congruence.
Qed.

Lemma ggtb_gltb (a b : K) : ggtb a b = gltb b a.
Proof. unfold ggtb, gltb. rewrite (gcmp_antisym b a). by destruct (gcmp b a). Qed.

Lemma above_trans ht a b c : above ht a b → above ht b c → above ht a c.
Proof.
  unfold above, wins. destruct (ht =? MinHeapType)%Z.
  - apply gltb_false_trans.
  - rewrite !ggtb_gltb. intros. by eapply gltb_false_trans.
Qed.

Lemma above_refl ht a : above ht a a.
Proof. unfold above, wins, gltb, ggtb. rewrite gcmp_refl. by case_match. Qed.

Lemma wins_above ht a b : wins ht a b = true → above ht a b.
Proof.
  unfold above, wins. rewrite !ggtb_gltb. unfold gltb.
  rewrite (gcmp_antisym a b). destruct (ht =? MinHeapType)%Z; by destruct (gcmp a b).
Qed.

(** The key at [i], when there is one. *)
Definition keys d i : option K := key <$> d !! i.

Definition above_at ht d i j : Prop :=
  ∀ a b, keys d i = Some a → keys d j = Some b → above ht a b.

Definition parent i : nat := ((i - 1) / 2)%nat.

Definition heap_ordered ht d : Prop :=
  ∀ j, (0 < j)%nat → above_at ht d (parent j) j.

(** The order with one hole: [i] may be out of order with its parent
    (sifting up), or with its children (sifting down). *)
Definition hole_up ht d i : Prop :=
  (∀ j, (0 < j)%nat → j ≠ i → above_at ht d (parent j) j) ∧
  (∀ j, (0 < i)%nat → (0 < j)%nat → parent j = i → above_at ht d (parent i) j).
Definition hole_down ht d i : Prop :=
  (∀ j, (0 < j)%nat → parent j ≠ i → above_at ht d (parent j) j) ∧
  (∀ j, (0 < i)%nat → (0 < j)%nat → parent j = i → above_at ht d (parent i) j).

Definition heap_wf h : Prop := heap_ordered (heapType h) (data h).

Lemma parent_lt j : (0 < j)%nat → (parent j < j)%nat.
Proof. intros. unfold parent. apply Nat.Div0.div_lt_upper_bound; lia. Qed.

Lemma parent_spec i j : (0 < j)%nat → parent j = i ↔ j = (2 * i + 1)%nat ∨ j = (2 * i + 2)%nat.
Proof.
  intros Hj. unfold parent. split.
  - intros <-. pose proof (Nat.div_mod_eq (j - 1) 2).
    pose proof (Nat.mod_upper_bound (j - 1) 2). lia.
  - intros [->| ->].
    + replace (2 * i + 1 - 1)%nat with (i * 2)%nat by lia. by apply Nat.div_mul.
    + replace (2 * i + 2 - 1)%nat with (1 + i * 2)%nat by lia.
      rewrite Nat.div_add by lia. done.
Qed.

(** Swapping two entries. *)
Lemma swap_ok d i j :
  (i < length d)%nat → (j < length d)%nat → i ≠ j →
  ∃ d', swap d i j = Returns d' ∧ d' ≡ₚ d ∧ length d' = length d ∧
    keys d' i = keys d j ∧ keys d' j = keys d i ∧
    (∀ x, x ≠ i → x ≠ j → keys d' x = keys d x).
Proof.
  intros Hi Hj Hne. destruct (lookup_lt_is_Some_2 d i Hi) as [p Hp].
  destruct (lookup_lt_is_Some_2 d j Hj) as [q Hq].
  unfold swap, at_index. rewrite Hp, Hq. run. eexists. split; [done|].
  unfold keys. split_and!.
  - by apply Permutation_insert_swap.
  - by rewrite !length_insert.
  - rewrite list_lookup_insert_ne, list_lookup_insert_eq by done. by rewrite Hq.
  - rewrite list_lookup_insert_eq by (by rewrite length_insert). by rewrite Hp.
  - intros x ??. by rewrite !list_lookup_insert_ne by done.
Qed.

Lemma keys_in d i : (i < length d)%nat → ∃ a, keys d i = Some a.
Proof. intros [p Hp]%lookup_lt_is_Some_2. exists (key p). unfold keys. by rewrite Hp. Qed.

Lemma keys_out d i : (length d ≤ i)%nat → keys d i = None.
Proof. intros. unfold keys. by rewrite lookup_ge_None_2. Qed.

Lemma above_at_trans ht d i j k :
  above_at ht d i j → above_at ht d j k → (j < length d)%nat → above_at ht d i k.
Proof.
  intros H1 H2 [b Hb]%keys_in a c Ha Hc. eapply above_trans; [by apply H1|by apply H2].
Qed.

(** The tests the code writes, in terms of [wins]. *)
Lemma key_le_wins ht (a b : K) :
  (if (ht =? MinHeapType)%Z then gleb a b else ggeb a b) = negb (wins ht b a).
Proof. unfold gleb, ggeb, wins. by rewrite !ggtb_gltb; case_match. Qed.

Lemma child_wins_ok ht d i target :
  (target < length d)%nat ∨ (length d ≤ i)%nat →
  ∃ w, child_wins ht d i target = Returns w ∧
    if (w : bool) then (i < length d)%nat ∧ above_at ht d i target
    else above_at ht d target i.
Proof.
  intros Ht. unfold child_wins, at_index. case_decide as Hi.
  - destruct Ht as [Ht|?]; [|lia].
    destruct (lookup_lt_is_Some_2 d i Hi) as [p Hp].
    destruct (lookup_lt_is_Some_2 d target Ht) as [q Hq]. rewrite Hp, Hq. run.
    eexists. split; [done|]. fold (wins ht (key p) (key q)).
    destruct (wins ht (key p) (key q)) eqn:Hw; [split; [done|]|];
      intros x y; unfold keys; rewrite Hp, Hq; simpl; intros; simplify_eq.
    + by apply wins_above.
    + done.
  - eexists. split; [done|]. intros x y _. rewrite keys_out by lia. done.
Qed.

(** Swapping a hole with its parent moves the hole up. *)
Lemma hole_up_swap ht d d' i :
  (0 < i)%nat → (i < length d)%nat → above_at ht d i (parent i) →
  keys d' (parent i) = keys d i → keys d' i = keys d (parent i) →
  (∀ x, x ≠ parent i → x ≠ i → keys d' x = keys d x) →
  hole_up ht d i → hole_up ht d' (parent i).
Proof.
  intros Hi Hlen Hw Hkp Hki Hk [H1 H2]. pose proof (parent_lt i Hi) as Hp.
  set (p := parent i) in *. split.
  - intros j Hj Hjp a b. destruct (decide (j = i)) as [->|Hji].
    { fold p. rewrite Hkp, Hki. intros Ha Hb. by apply Hw. }
    rewrite (Hk j) by done. intros Ha Hb.
    destruct (decide (parent j = p)) as [Hpj|Hpj].
    { rewrite Hpj, Hkp in Ha. destruct (keys_in d p) as [c Hc]; [lia|].
      eapply above_trans; [by apply Hw|]. apply (H1 j Hj Hji); [by rewrite Hpj|done]. }
    destruct (decide (parent j = i)) as [Hpi|Hpi].
    { rewrite Hpi, Hki in Ha. by apply (H2 j Hi Hj Hpi). }
    rewrite Hk in Ha by done. by apply (H1 j).
  - intros j Hp0 Hj Hpj a b. pose proof (parent_lt p Hp0) as Hpp.
    rewrite (Hk (parent p)) by lia.
    destruct (decide (j = i)) as [->|Hji].
    { rewrite Hki. apply (H1 p); [done|lia]. }
    rewrite (Hk j) by (try done; intros ->; pose proof (parent_lt p); lia).
    apply (above_at_trans ht d _ p); [apply (H1 p); lia| |lia].
    pose proof (H1 j Hj Hji) as Hc. by rewrite Hpj in Hc.
Qed.

Lemma heapifyUp_ok fuel d idx ht :
  (idx ≤ fuel)%nat → (idx < length d)%nat → hole_up ht d idx →
  ∃ d', heapifyUp fuel d idx ht = Returns d' ∧ d' ≡ₚ d ∧ heap_ordered ht d'.
Proof.
  revert d idx. induction fuel as [|fuel IH]; intros d idx Hf Hlen Hole.
  { destruct idx; [|lia]. exists d. split_and!; [done..|]. intros j Hj. apply Hole; lia. }
  destruct idx as [|idx'].
  { exists d. split_and!; [done..|]. intros j Hj. apply Hole; lia. }
  remember (S idx') as i eqn:Ei.
  assert (Hpar : (idx' / 2)%nat = parent i).
  { subst i. unfold parent. by replace (S idx' - 1)%nat with idx' by lia. }
  pose proof (parent_lt i ltac:(lia)) as Hp.
  assert (Hstep : heapifyUp (S fuel) d i ht =
    (p ← at_index d (parent i); q ← at_index d i;
     if negb (wins ht (key q) (key p)) then mret d
     else d' ← swap d (parent i) i; heapifyUp fuel d' (parent i) ht)).
  { subst i. cbn [heapifyUp]. rewrite Hpar. unfold at_index.
    destruct (d !! parent (S idx')); [|done]. run.
    destruct (d !! S idx'); [|done]. run. by rewrite key_le_wins. }
  rewrite Hstep. clear Hstep.
  destruct (lookup_lt_is_Some_2 d (parent i)) as [p Hlp]; [lia|].
  destruct (lookup_lt_is_Some_2 d i) as [q Hlq]; [lia|].
  unfold at_index. rewrite Hlp, Hlq. run.
  destruct (wins ht (key q) (key p)) eqn:Hw; simpl.
  - destruct (swap_ok d (parent i) i) as (d' & Es & Hperm & Hl & Hkp & Hki & Hk); [lia..|].
    rewrite Es. run.
    destruct (IH d' (parent i)) as (d'' & E & Hperm' & Ho); [lia..| |].
    { apply (hole_up_swap ht d d' i); try done; [lia|].
      intros x y. unfold keys. rewrite Hlp, Hlq. simpl. intros. simplify_eq.
      by apply wins_above. }
    exists d''. split_and!; [done| |done]. by rewrite Hperm'.
  - exists d. split_and!; [done..|]. intros j Hj.
    destruct (decide (j = i)) as [->|]; [|by apply Hole].
    intros x y. unfold keys. rewrite Hlp, Hlq. simpl. intros. by simplify_eq.
Qed.

(** Swapping a hole with its winning child moves the hole down. *)
Lemma hole_down_swap ht d d' i t :
  (t < length d)%nat → (0 < t)%nat → parent t = i →
  (∀ j, (0 < j)%nat → parent j = i → above_at ht d t j) →
  above_at ht d t i → keys d' i = keys d t → keys d' t = keys d i →
  (∀ x, x ≠ i → x ≠ t → keys d' x = keys d x) →
  hole_down ht d i → hole_down ht d' t.
Proof.
  intros Ht Ht0 Hpt Hbest Hw Hki Hkt Hk [H1 H2].
  assert (Hit : i ≠ t) by (pose proof (parent_lt t Ht0); lia). split.
  - intros j Hj Hpj a b. destruct (decide (parent j = i)) as [Hpi|Hpi].
    { rewrite Hpi, Hki. destruct (decide (j = t)) as [->|].
      { rewrite Hkt. by apply Hw. }
      rewrite Hk by (try done; pose proof (parent_lt j Hj); lia). by apply Hbest. }
    rewrite (Hk (parent j)) by done. destruct (decide (j = i)) as [->|].
    { rewrite Hki. apply H2; [done..|by rewrite Hpt]. }
    destruct (decide (j = t)) as [->|]; [done|]. rewrite Hk by done. by apply H1.
  - intros j _ Hj Hpj a b. rewrite Hpt, Hki. pose proof (parent_lt j Hj).
    pose proof (parent_lt t Ht0). rewrite (Hk j) by lia.
    rewrite <-Hpj. apply (H1 j Hj). by rewrite Hpj.
Qed.

Lemma heapifyDown_ok fuel d idx ht :
  (length d - idx < fuel)%nat → hole_down ht d idx →
  ∃ d', heapifyDown fuel d idx ht = Returns d' ∧ d' ≡ₚ d ∧ heap_ordered ht d'.
Proof.
  revert d idx. induction fuel as [|fuel IH]; intros d idx Hf Hole; [lia|].
  cbn [heapifyDown]. set (l := (2 * idx + 1)%nat). set (r := (2 * idx + 2)%nat).
  destruct (child_wins_ok ht d l idx) as (wl & -> & Hwl); [lia|]. run.
  set (t1 := if wl then l else idx).
  assert (Ht1 : (t1 < length d)%nat ∨ (length d ≤ r)%nat).
  { unfold t1. destruct wl; [|lia]. destruct Hwl. lia. }
  destruct (child_wins_ok ht d r t1 Ht1) as (wr & -> & Hwr). run.
  set (t := if wr then r else t1).
  assert (Hbest : t ≠ idx → (t < length d)%nat ∧ (0 < t)%nat ∧ parent t = idx ∧
    above_at ht d t idx ∧ ∀ j, (0 < j)%nat → parent j = idx → above_at ht d t j).
  { assert (Hself : ∀ x, above_at ht d x x).
    { intros x a b Ha Hb. simplify_eq. apply above_refl. }
    intros Hne. unfold t, t1 in *. destruct wr, wl; simpl in *; try done.
    - destruct Hwl as [Hl Hli], Hwr as [Hr Hrl].
      split_and!; [done|lia|apply parent_spec; lia|by apply (above_at_trans ht d r l)|].
      intros j Hj [->| ->]%parent_spec; auto.
    - destruct Hwr as [Hr Hrl].
      split_and!; [done|lia|apply parent_spec; lia|done|].
      intros j Hj [->| ->]%parent_spec; auto. apply (above_at_trans ht d r idx); auto; lia.
    - destruct Hwl as [Hl Hli].
      split_and!; [done|lia|apply parent_spec; lia|done|].
      intros j Hj [->| ->]%parent_spec; auto. }
  destruct (decide (t = idx)) as [Heq|Hne].
  - exists d. split_and!; [done..|]. intros j Hj.
    destruct (decide (parent j = idx)) as [Hpj|]; [|by apply Hole].
    unfold t, t1 in *. destruct wr, wl; try lia.
    rewrite Hpj. by apply parent_spec in Hpj as [->| ->].
  - destruct (Hbest Hne) as (Ht & Ht0 & Hpt & Hti & Htj). pose proof (parent_lt t Ht0).
    destruct (swap_ok d idx t) as (d' & Es & Hperm & Hl & Hki & Hkt & Hk); [lia..|].
    rewrite Es. run. destruct (IH d' t) as (d'' & E & Hperm' & Ho); [lia| |].
    { by apply (hole_down_swap ht d d' idx t). }
    exists d''. split_and!; [done| |done]. by rewrite Hperm'.
Qed.

(** In an ordered heap the first key is above every other. *)
Lemma heap_ordered_root ht d i : heap_ordered ht d → above_at ht d 0 i.
Proof.
  intros Ho. induction i as [i IH] using lt_wf_ind.
  destruct i as [|i]; [intros a b Ha Hb; simplify_eq; apply above_refl|].
  intros a b Ha Hb. pose proof (parent_lt (S i) ltac:(lia)) as Hp.
  assert (Hlen : (S i < length d)%nat).
  { destruct (decide (S i < length d)%nat); [done|]. rewrite keys_out in Hb by lia. done. }
  eapply (above_at_trans ht d 0 (parent (S i))); eauto; [apply Ho; lia|lia].
Qed.

Lemma keys_elem d p : p ∈ d → ∃ i, keys d i = Some (key p).
Proof.
  intros [i Hi]%list_elem_of_lookup. exists i. unfold keys. by rewrite Hi.
Qed.

End order.

(** ** What clients use: a heap is the multiset of its entries *)

Section client.
Context {K V : Type} {OK : GoOrdered K} {OL : GoOrderedLaws K}.
Context {ZK : GoZero K} {ZV : GoZero V}.
Implicit Types (d : list (pair K V)) (h : Heap K V).

Lemma keys_snoc d p i : (i < length d)%nat → keys (d ++ [p]) i = keys d i.
Proof. intros. unfold keys. by rewrite lookup_app_l. Qed.

Lemma heap_Push_ok h k v :
  heap_wf h → ∃ h', Push h k v = Returns h' ∧ heap_wf h' ∧
    heapType h' = heapType h ∧ data h' ≡ₚ Pair k v :: data h.
Proof.
  intros Hwf. unfold Push. set (d := data h ++ [Pair k v]).
  assert (Hlen : length d = S (length (data h))) by (unfold d; rewrite length_app; simpl; lia).
  destruct (heapifyUp_ok (length d) d (length d - 1) (heapType h))
    as (d' & E & Hperm & Ho); [lia..| |].
  { split.
    - intros j Hj Hne a b. destruct (decide (j < length (data h))%nat) as [Hlt|].
      + pose proof (parent_lt j Hj). unfold d. rewrite !keys_snoc by lia. by apply Hwf.
      + rewrite (keys_out d j) by lia. done.
    - intros j _ Hj Hpj a b. pose proof (parent_lt j Hj).
      rewrite (keys_out d j) by lia. done. }
  rewrite E. run. exists (MkHeap (heapType h) d'). split_and!; [done..|]. simpl.
  rewrite Hperm. unfold d. by rewrite Permutation_app_comm.
Qed.

Lemma pop_data_ok (d : list (pair K V)) p last :
  head d = Some p → d !! (length d - 1)%nat = Some last →
  p :: take (length d - 1) (<[0%nat := last]> d) ≡ₚ d.
Proof.
  destruct d as [|p' d]; [done|]. intros [= ->]. simpl. rewrite Nat.sub_0_r.
  destruct d as [|q d _] using rev_ind; [done|].
  rewrite length_app. simpl. rewrite Nat.add_1_r. simpl.
  rewrite lookup_app_r by done. rewrite Nat.sub_diag. intros [= ->].
  rewrite take_app_length. constructor. by rewrite Permutation_app_comm.
Qed.

Lemma keys_pop d last j :
  (0 < j)%nat → (j < length d - 1)%nat →
  keys (take (length d - 1) (<[0%nat := last]> d)) j = keys d j.
Proof.
  intros. unfold keys. rewrite lookup_take_lt by done. by rewrite list_lookup_insert_ne by lia.
Qed.

Lemma heap_Pop_ok h :
  heap_wf h → data h ≠ [] →
  ∃ h' p, Pop h = Returns (h', (key p, val p, true)) ∧ head (data h) = Some p ∧
    heap_wf h' ∧ heapType h' = heapType h ∧ p :: data h' ≡ₚ data h.
Proof.
  intros Hwf Hne. unfold Pop. destruct (data h) as [|p d0] eqn:Ed; [done|].
  rewrite <-Ed in *. assert (Hlen : (0 < length (data h))%nat) by (rewrite Ed; simpl; lia).
  rewrite decide_False by lia. unfold at_index.
  assert (H0 : data h !! 0%nat = Some p) by (by rewrite Ed).
  destruct (lookup_lt_is_Some_2 (data h) (length (data h) - 1)) as [last Hl]; [lia|].
  rewrite H0, Hl. run.
  set (d := take (length (data h) - 1) (<[0%nat := last]> (data h))).
  assert (Hd : length d = (length (data h) - 1)%nat).
  { unfold d. rewrite length_take, length_insert. lia. }
  destruct (heapifyDown_ok (S (length d)) d 0 (heapType h)) as (d' & E & Hperm & Ho); [lia| |].
  { split; [|lia]. intros j Hj Hpj a b. destruct (decide (j < length d)%nat) as [Hlt|].
    - pose proof (parent_lt j Hj). unfold d. rewrite !keys_pop by lia. by apply Hwf.
    - rewrite (keys_out d j) by lia. done. }
  rewrite E. run. exists (MkHeap (heapType h) d'), p. split_and!; [done|by rewrite Ed|done|done|].
  simpl. rewrite Hperm. apply pop_data_ok; [by rewrite Ed|done].
Qed.

Lemma root_above h p q :
  heap_wf h → head (data h) = Some p → q ∈ data h → above (heapType h) (key p) (key q).
Proof.
  intros Hwf Hp [i Hi]%keys_elem. eapply heap_ordered_root; [done| |done].
  unfold keys. destruct (data h); simpl in *; by simplify_eq.
Qed.

Lemma NewHeap_wf ht h : NewHeap ht = Returns h → heap_wf h ∧ heapType h = ht ∧ data h = [].
Proof.
  unfold NewHeap. case_match; intros; simplify_eq. split_and!; [|done..].
  intros j _ a b Ha. by rewrite keys_out in Ha by (simpl; lia).
Qed.

Lemma Peak_ok h :
  heap_wf h →
  match Peak h with
  | (k, v, true) => head (data h) = Some (Pair k v)
  | (_, _, false) => data h = []
  end.
Proof. intros _. unfold Peak. by destruct (data h) as [|[k v] d]. Qed.

End client.

(** ** Properties *)

Section properties.
Context {K V : Type} {OK : GoOrdered K} {OL : GoOrderedLaws K}.
Context {ZK : GoZero K} {ZV : GoZero V}.

(** [Push] on an ordered heap never panics nor runs out of fuel; the heap
    stays ordered and gains exactly the pushed entry. *)
Theorem Push_keeps_order (h : Heap K V) (k : K) (v : V) :
  heap_wf h →
  ∃ h', Push h k v = Returns h' ∧ heap_wf h' ∧ heapType h' = heapType h ∧
    data h' ≡ₚ Pair k v :: data h ∧ Len h' = Len h + 1.
Proof.
  intros Hwf. destruct (heap_Push_ok h k v Hwf) as (h' & E & Hwf' & Hht & Hperm).
  exists h'. split_and!; [done..|]. unfold Len. rewrite Hperm. simpl. lia.
Qed.

(** [Pop] on an ordered heap answers [false] exactly on the empty heap;
    otherwise it removes exactly one entry, the one [Peak] shows, whose key no
    other key beats (the least of a min-heap, the greatest of a max-heap), and
    leaves an ordered heap. *)
Theorem Pop_removes_extremum (h : Heap K V) :
  heap_wf h →
  (data h = [] ∧ Pop h = Returns (h, (go_zero, go_zero, false))) ∨
  (∃ h' k v, Pop h = Returns (h', (k, v, true)) ∧ Peak h = (k, v, true) ∧
     Pair k v :: data h' ≡ₚ data h ∧
     (∀ p, p ∈ data h → wins (heapType h) (key p) k = false) ∧
     heap_wf h' ∧ heapType h' = heapType h).
Proof.
  intros Hwf. destruct (decide (data h = [])) as [He|Hne].
  - left. split; [done|]. unfold Pop. by rewrite He.
  - right. destruct (heap_Pop_ok h Hwf Hne) as (h' & p & E & Hp & Hwf' & Hht & Hperm).
    exists h', (key p), (val p). split_and!; [done| | | |done|done].
    + unfold Peak. destruct (data h); simpl in *; by simplify_eq.
    + by destruct p.
    + intros q Hq. by apply root_above.
Qed.

End properties.

(** *** Witnesses *)

Definition sample_heap : Heap Z Z :=
  MkHeap MinHeapType [Pair 1 10; Pair 3 30; Pair 2 20].

Lemma sample_heap_wf : heap_wf sample_heap.
Proof.
  intros j Hj. destruct j as [|[|[|j]]]; [lia|..]; intros a b Ha Hb;
    vm_compute in Ha, Hb; simplify_eq; done.
Defined.

Lemma Push_keeps_order_witness :
  ∃ h', Push sample_heap 0 0 = Returns h' ∧ Len h' = 4.
Proof.
  destruct (Push_keeps_order sample_heap 0 0 sample_heap_wf) as (h' & E & _ & _ & _ & HL).
  exists h'. split; [exact E|exact HL].
Defined.

Lemma Pop_removes_extremum_witness :
  ∃ h' k v, Pop sample_heap = Returns (h', (k, v, true)) ∧ k = 1.
Proof.
  destruct (Pop_removes_extremum sample_heap sample_heap_wf) as [[He _]|H].
  - discriminate He.
  - destruct H as (h' & k & v & E & P & _). exists h', k, v. split; [exact E|].
    vm_compute in P. congruence.
Defined.
