(* ===== verification/SliceUtil.v ===== *)
(** * pkg/util/sliceutil and pkg/util/queue: helpers on slices

    A Go slice is [option (list A)], [None] being [nil]; the helpers that
    test for nil are modelled on that type, the others on the elements. *)
From Stdlib Require Import ZArith Lia.
From stdpp Require Import base gmap strings list sets.
From S2P Require Import Prelude.

(** ** Slices *)

Abbreviation slice A := (option (list A)).
(** The elements: what [range], [len] and indexing see. *)
Definition elems {A} (s : slice A) : list A := default [] s.

Section code.
Context {A B : Type}.

(** The loop of [SliceMapperError]: the first error ends it. *)
Fixpoint mapper_loop (items : list A) (mpr : A → gores B) : gores (list B) :=
  match items with
  | [] => Ok []
  | v :: items =>
    match mpr v with
    | Err e => Err e
    | Ok b => match mapper_loop items mpr with Ok bs => Ok (b :: bs) | Err e => Err e end
    end
  end.

Definition SliceMapperError (items : slice A) (mpr : A → gores B) : gores (slice B) :=
  match items with
  | None => Ok None
  | Some items =>
    match mapper_loop items mpr with Ok bs => Ok (Some bs) | Err e => Err e end
  end.

Definition SliceMapper (items : slice A) (mpr : A → B) : slice B :=
  match items with
  | None => None
  | Some _ =>
    match SliceMapperError items (λ i, Ok (mpr i)) with Ok s => s | Err _ => None end
  end.

Definition SliceMapperFilter (items : slice A) (mpr : A → bool * B) : slice B :=
  match items with
  | None => None
  | Some items =>
    Some (foldl (λ acc i, let '(keep, val) := mpr i in
                          if (keep : bool) then acc ++ [val] else acc) [] items)
  end.

(** [seen] is the Go map of the keys met so far. *)
Fixpoint unique_loop {C} `{Countable C} (arr : list A) (eq : A → C)
    (seen : gset C) (unique : list A) : list A :=
  match arr with
  | [] => unique
  | v :: arr =>
    let k := eq v in
    if decide (k ∈ seen) then unique_loop arr eq seen unique
    else unique_loop arr eq ({[k]} ∪ seen) (unique ++ [v])
  end.

Definition SliceUnique {C} `{Countable C} (arr : list A) (eq : A → C) : list A :=
  unique_loop arr eq ∅ [].

Fixpoint SliceContains `{EqDecision A} (arr : list A) (val : A) : bool :=
  match arr with
  | [] => false
  | v :: arr => if decide (v = val) then true else SliceContains arr val
  end.

Definition SliceCopy (arr : slice A) : slice A :=
  match arr with None => None | Some l => Some ([] ++ l) end.

(** [slice[i]] for a Go [int]. *)
Definition index_slice (s : list A) (i : Z) : outcome A :=
  if (0 <=? i)%Z then
    match s !! Z.to_nat i with Some a => Returns a | None => Panics index_range end
  else Panics index_range.

(** One turn of the loop per unit of fuel. *)
Fixpoint search_loop (fuel : nat) (s : list A) (val : A) (compare : A → A → Z)
    (low high : Z) : outcome Z :=
  match fuel with
  | O => Panics "out of fuel"
  | S fuel =>
    if (low <=? high)%Z then
      let mid := (low + Z.quot (high - low) 2)%Z in
      v ← index_slice s mid;
      let i := compare v val in
      if (i =? 0)%Z then mret mid
      else if (0 <? i)%Z then search_loop fuel s val compare low (mid - 1)
      else search_loop fuel s val compare (mid + 1) high
    else mret (-1)%Z
  end.

Definition BinarySearch (s : list A) (val : A) (compare : A → A → Z) : outcome Z :=
  search_loop (S (length s)) s val compare 0 (Z.of_nat (length s) - 1).

End code.

(** ** pkg/util/queue *)

Module Queue.
Section queue.
Context {V : Type} {ZV : GoZero V}.

(** The slice [items]; capacities are not modelled. *)
Record queueImpl : Type := MkQueue { items : list V }.

Definition newQueue (size : Z) : outcome queueImpl :=
  if (size <? 0)%Z then Panics "makeslice: cap out of range" else Returns (MkQueue []).

Definition Push (q : queueImpl) (item : V) : queueImpl := MkQueue (items q ++ [item]).

Definition Pop (q : queueImpl) : queueImpl * (V * bool) :=
  match items q with
  | [] => (q, (go_zero, false))
  | item :: rest => (MkQueue rest, (item, true))
  end.

Definition Peek (q : queueImpl) : V * bool :=
  match items q with
  | [] => (go_zero, false)
  | item :: _ => (item, true)
  end.

Definition Len (q : queueImpl) : Z := Z.of_nat (length (items q)).

Definition NewWithSize (size : Z) : outcome queueImpl := newQueue size.

Definition New (vs : list V) : outcome queueImpl :=
  if (0 <? Z.of_nat (length vs))%Z then
    q ← newQueue (Z.of_nat (length vs)); mret (foldl Push q vs)
  else newQueue 128.

(** Pop [n] times, collecting what comes out. *)
Fixpoint drain (n : nat) (q : queueImpl) : list (V * bool) * queueImpl :=
  match n with
  | O => ([], q)
  | S n => let '(q', r) := Pop q in let '(rs, q'') := drain n q' in (r :: rs, q'')
  end.

End queue.
Arguments queueImpl : clear implicits.
End Queue.

(** ** Correctness *)

Section correctness.
Context {A B : Type}.

Lemma mapper_loop_ok (items : list A) (mpr : A → B) :
  mapper_loop items (λ i, Ok (mpr i)) = Ok (mpr <$> items).
Proof. induction items as [|v items IH]; simpl; [done|]. by rewrite IH. Qed.

Lemma SliceMapper_ok (items : slice A) (mpr : A → B) :
  SliceMapper items mpr =
  match items with Some l => Some (mpr <$> l) | None => None end.
Proof. destruct items as [l|]; [|done]. simpl. by rewrite mapper_loop_ok. Qed.

Lemma unique_loop_spec {C} `{Countable C} (arr : list A) (eq : A → C) seen unique :
  ∃ new, unique_loop arr eq seen unique = unique ++ new ∧
    new `sublist_of` arr ∧ NoDup (eq <$> new) ∧
    ∀ k, k ∈ eq <$> new ↔ k ∈ eq <$> arr ∧ k ∉ seen.
Proof.
  revert seen unique. induction arr as [|v arr IH]; intros seen unique; simpl.
  { exists []. rewrite app_nil_r. split_and!; [done..|constructor|].
    intros k. simpl. rewrite elem_of_nil. tauto. }
  case_decide as Hs.
  - destruct (IH seen unique) as (new & -> & Hsub & Hnd & Hk). exists new.
    split_and!; [done|by apply sublist_cons|done|]. intros k.
    rewrite Hk, elem_of_cons. naive_solver.
  - destruct (IH ({[eq v]} ∪ seen) (unique ++ [v])) as (new & -> & Hsub & Hnd & Hk).
    exists (v :: new). rewrite <-app_assoc. simpl. split_and!; [done|by apply sublist_skip| |].
    + constructor; [|done]. rewrite Hk, elem_of_union, elem_of_singleton. tauto.
    + intros k. rewrite !elem_of_cons, Hk, elem_of_union, elem_of_singleton.
      destruct (decide (k = eq v)) as [->|]; tauto.
Qed.

(** A slice is sorted for [compare] against [val] when the answers go from
    negative through zero to positive. *)
Definition sorted_for (compare : A → A → Z) (s : list A) (val : A) : Prop :=
  ∀ i j a b, (i < j)%nat → s !! i = Some a → s !! j = Some b →
    Z.sgn (compare a val) ≤ Z.sgn (compare b val).

Lemma search_loop_ok fuel (s : list A) val compare low high :
  0 ≤ low → high < Z.of_nat (length s) → -1 ≤ high - low + 1 →
  (Z.to_nat (high - low + 1) < fuel)%nat →
  ∃ r, search_loop fuel s val compare low high = Returns r ∧
    ((r = -1 ∧ (sorted_for compare s val →
        (∀ i a, s !! i = Some a → compare a val = 0 → low ≤ Z.of_nat i ≤ high) →
        ∀ i a, s !! i = Some a → compare a val ≠ 0)) ∨
     (low ≤ r ≤ high ∧ ∃ a, s !! Z.to_nat r = Some a ∧ compare a val = 0)).
Proof.
  revert low high. induction fuel as [|fuel IH]; intros low high Hl Hh Hd Hf; [lia|].
  simpl. destruct (Z.leb_spec low high) as [Hle|Hgt].
  2:{ exists (-1). split; [done|]. left. split; [done|]. intros _ Hin i a Hi H0.
      specialize (Hin i a Hi H0). lia. }
  pose proof (Z.quot_pos (high - low) 2). pose proof (Z.quot_le_upper_bound (high - low) 2 (high - low)).
  set (mid := low + Z.quot (high - low) 2) in *.
  assert (Hmid : low ≤ mid ≤ high) by lia.
  unfold index_slice. rewrite (proj2 (Z.leb_le 0 mid)) by lia.
  destruct (lookup_lt_is_Some_2 s (Z.to_nat mid)) as [a Ha]; [lia|]. rewrite Ha. run.
  destruct (Z.eqb_spec (compare a val) 0) as [Heq0|Hn0].
  { exists mid. split; [done|]. right. split; [done|]. by exists a. }
  destruct (Z.ltb_spec 0 (compare a val)) as [Hpos|Hneg].
  - destruct (IH low (mid - 1)) as (r & -> & Hr); [lia..|]. exists r. split; [done|].
    destruct Hr as [[-> Hr]|[? Hr]]; [left|right; split; [lia|done]].
    split; [done|]. intros Hs Hin. apply Hr; [done|]. intros i b Hi Hb.
    specialize (Hin i b Hi Hb). split; [lia|].
    destruct (decide (Z.of_nat i ≤ mid - 1)); [done|].
    destruct (decide (Z.of_nat i = mid)) as [<-|]; [rewrite Nat2Z.id in Ha; congruence|].
    specialize (Hs (Z.to_nat mid) i a b ltac:(lia) Ha Hi). rewrite Hb in Hs. simpl in Hs. lia.
  - destruct (IH (mid + 1) high) as (r & -> & Hr); [lia..|]. exists r. split; [done|].
    destruct Hr as [[-> Hr]|[? Hr]]; [left|right; split; [lia|done]].
    split; [done|]. intros Hs Hin. apply Hr; [done|]. intros i b Hi Hb.
    specialize (Hin i b Hi Hb). split; [|lia].
    destruct (decide (mid + 1 ≤ Z.of_nat i)); [done|].
    destruct (decide (Z.of_nat i = mid)) as [<-|]; [rewrite Nat2Z.id in Ha; congruence|].
    specialize (Hs i (Z.to_nat mid) b a ltac:(lia) Hi Ha). rewrite Hb in Hs. simpl in Hs. lia.
Qed.

End correctness.

Lemma BinarySearch_ok {A} (s : list A) val compare :
  ∃ r, BinarySearch s val compare = Returns r ∧
    ((r = -1 ∧ (sorted_for compare s val →
        ∀ i a, s !! i = Some a → compare a val ≠ 0)) ∨
     (0 ≤ r < Z.of_nat (length s) ∧
      ∃ a, s !! Z.to_nat r = Some a ∧ compare a val = 0)).
Proof.
  destruct (search_loop_ok (S (length s)) s val compare 0 (Z.of_nat (length s) - 1))
    as (r & E & Hr); [lia..|].
  exists r. split; [done|]. destruct Hr as [[-> Hr]|[? Hr]]; [left|right; split; [lia|done]].
  split; [done|]. intros Hs. apply Hr; [done|]. intros i a Hi _.
  apply lookup_lt_Some in Hi. lia.
Qed.

Lemma unique_loop_id {A C} `{Countable C} (arr : list A) (eq : A → C) seen unique :
  NoDup (eq <$> arr) → (∀ k, k ∈ eq <$> arr → k ∉ seen) →
  unique_loop arr eq seen unique = unique ++ arr.
Proof.
  revert seen unique. induction arr as [|v arr IH]; intros seen unique Hnd Hseen; cbn.
  { by rewrite app_nil_r. }
  cbn in Hnd. apply NoDup_cons in Hnd as [Hv Hnd]. rewrite decide_False by (apply Hseen; by left).
  rewrite IH, <-app_assoc; [done|done|]. intros k Hk. rewrite elem_of_union, elem_of_singleton.
  intros [->|Hin]; [done|]. by apply (Hseen k); [right|].
Qed.

(** Without repeated keys nothing is dropped. *)
Lemma SliceUnique_id {A C} `{Countable C} (arr : list A) (eq : A → C) :
  NoDup (eq <$> arr) → SliceUnique arr eq = arr.
Proof. intros Hnd. apply (unique_loop_id arr eq ∅ []); [done|]. intros k _. apply not_elem_of_empty. Qed.

Lemma SliceUnique_ok {A C} `{Countable C} (arr : list A) (eq : A → C) :
  SliceUnique arr eq `sublist_of` arr ∧ NoDup (eq <$> SliceUnique arr eq) ∧
  ∀ k, k ∈ eq <$> SliceUnique arr eq ↔ k ∈ eq <$> arr.
Proof.
  unfold SliceUnique.
  destruct (unique_loop_spec arr eq ∅ []) as (new & -> & Hsub & Hnd & Hk).
  split_and!; [done..|]. intros k. rewrite Hk. split; [by intros [? _]|].
  intros ?. split; [done|apply not_elem_of_empty].
Qed.

(** ** Properties *)

(** [BinarySearch] never indexes out of range and always returns.  An
    index it answers with holds a match; on a slice sorted for the comparison
    the answer -1 means that no element matches. *)
Theorem BinarySearch_correct {A} (s : list A) (val : A) (compare : A → A → Z) :
  ∃ r, BinarySearch s val compare = Returns r ∧
    (r ≠ -1 → 0 ≤ r < Z.of_nat (length s) ∧
       ∃ a, s !! Z.to_nat r = Some a ∧ compare a val = 0) ∧
    (sorted_for compare s val → r = -1 →
       ∀ a, a ∈ s → compare a val ≠ 0).
Proof.
  destruct (BinarySearch_ok s val compare) as (r & E & Hr). exists r. split; [done|].
  destruct Hr as [[-> Hr]|[Hb Hr]]; split.
  - done.
  - intros Hs _ a [i Hi]%list_elem_of_lookup. by apply (Hr Hs i a).
  - done.
  - intros _ ->. lia.
Qed.

(** a queue is first in, first out: after pushing [vs] on a queue holding
    [q], popping as many times as there are elements answers them all in
    order, each flagged present, and leaves the queue empty, where [Pop]
    answers the zero value flagged absent. *)
Theorem Queue_fifo {V} {ZV : GoZero V} (q : Queue.queueImpl V) (vs : list V) :
  let full := foldl Queue.Push q vs in
  Queue.Len full = Queue.Len q + Z.of_nat (length vs) ∧
  Queue.drain (length (Queue.items q) + length vs) full =
    ((λ v, (v, true)) <$> (Queue.items q ++ vs), Queue.MkQueue []) ∧
  Queue.Pop (Queue.MkQueue []) = (Queue.MkQueue [], (go_zero : V, false)).
Proof.
  intros full.
  assert (Hf : Queue.items full = Queue.items q ++ vs).
  { unfold full. clear full. revert q. induction vs as [|v vs IH]; intros q; simpl.
    - by rewrite app_nil_r.
    - rewrite IH. simpl. by rewrite <-app_assoc. }
  split_and!; [|rewrite <-Hf|done].
  - unfold Queue.Len. rewrite Hf, length_app. lia.
  - replace (length (Queue.items q) + length vs)%nat with (length (Queue.items full))
      by (rewrite Hf; by rewrite length_app).
    clear Hf. destruct full as [l]. simpl. clear q vs. induction l as [|v l IH]; [done|].
    simpl. by rewrite IH.
Qed.

(** *** Witness *)

Lemma BinarySearch_correct_witness :
  BinarySearch [1; 3; 5; 7] 5 Z.sub = Returns 2 ∧
  (∀ a, a ∈ [1; 3; 5; 7] → Z.sub a 4 ≠ 0).
Proof.
  split; [reflexivity|].
  destruct (BinarySearch_correct [1; 3; 5; 7] 4 Z.sub) as (r & E & _ & H).
  vm_compute in E. apply H; [|congruence].
  intros i j a b Hij Ha Hb.
  destruct i as [|[|[|[|i]]]], j as [|[|[|[|j]]]]; simplify_eq/=; try lia; by vm_compute.
Defined.
