(* ===== verification/Pattern.v ===== *)
(** * internal/pattern: domain patterns, and the string functions of Go's
    library that the program uses

    [regexp.MatchString] is the parameter [MatchString] of the section: the
    theorems hold for every regular-expression engine. *)
From Stdlib Require Import ZArith Lia Ascii.
From stdpp Require Import base gmap strings list.
From S2P Require Import Prelude.

#[local] Arguments String.append : simpl nomatch.

(** ** Package strings *)

Module Strings.

Definition len (s : string) : Z := Z.of_nat (String.length s).

Definition HasPrefix (s prefix : string) : bool := String.prefix prefix s.

Fixpoint HasSuffix (s suffix : string) : bool :=
  String.eqb s suffix ||
  match s with EmptyString => false | String _ s => HasSuffix s suffix end.

Fixpoint Contains (s substr : string) : bool :=
  String.prefix substr s ||
  match s with EmptyString => false | String _ s => Contains s substr end.

(** [s[lo:hi]] *)
Definition substring (s : string) (lo hi : Z) : outcome string :=
  if (0 <=? lo)%Z && (lo <=? hi)%Z && (hi <=? len s)%Z
  then Returns (String.substring (Z.to_nat lo) (Z.to_nat (hi - lo)) s)
  else Panics "slice bounds out of range".

Definition is_star (c : Ascii.ascii) : bool := Ascii.eqb c "*"%char.

(** [strings.Replace(s, "**", "*", -1)]: left to right, not overlapping. *)
Fixpoint ReplaceStars (s : string) : string :=
  match s with
  | String c1 ((String c2 s2) as s1) =>
    if is_star c1 && is_star c2 then String c1 (ReplaceStars s2)
    else String c1 (ReplaceStars s1)
  | _ => s
  end.

End Strings.
Import Strings.

(** ** The code *)

Definition ErrEmptyPattern : error := "empty pattern".

(** One call per unit of fuel; each shortens the pattern. *)
Fixpoint singlefy_loop (fuel : nat) (pattern : string) : string :=
  match fuel with
  | O => pattern
  | S fuel =>
    if Contains pattern "**" then singlefy_loop fuel (ReplaceStars pattern)
    else pattern
  end.
Definition singlefyAsterisks (pattern : string) : string :=
  singlefy_loop (String.length pattern) pattern.

Section code.
(** [regexp.MatchString re value] *)
Context (MatchString : string → string → gores bool).

Definition PatternMatch (value pattern : string) : outcome (gores bool) :=
  if String.eqb pattern "" then mret (Err ErrEmptyPattern) else
  let pattern := singlefyAsterisks pattern in
  if String.eqb pattern "*" then mret (Ok true) else
  let asteriskPrefix := HasPrefix pattern "*" in
  let asteriskSuffix := HasSuffix pattern "*" in
  if asteriskPrefix && asteriskSuffix then
    inner ← substring pattern 1 (len pattern - 1);
    mret (Ok (Contains value inner))
  else if asteriskPrefix then
    inner ← substring pattern 1 (len pattern); mret (Ok (HasSuffix value inner))
  else if asteriskSuffix then
    inner ← substring pattern 0 (len pattern - 1); mret (Ok (HasPrefix value inner))
  else if HasPrefix pattern "/" && HasSuffix pattern "/" then
    re ← substring pattern 1 (len pattern - 1); mret (MatchString re value)
  else mret (Ok (String.eqb pattern value)).

(** The Go triple [(pattern, match, err)]. *)
Fixpoint MatchAnyPattern (value : string) (patterns : list string)
    : outcome (string * bool * option error) :=
  match patterns with
  | [] => mret ("", false, None)
  | pattern :: patterns =>
    m ← PatternMatch value pattern;
    match m with
    | Err e => mret ("", false, Some e)
    | Ok true => mret (pattern, true, None)
    | Ok false => MatchAnyPattern value patterns
    end
  end.

Fixpoint MatchAllPatterns (value : string) (patterns : list string)
    : outcome (gores bool) :=
  match patterns with
  | [] => mret (Ok true)
  | pattern :: patterns =>
    m ← PatternMatch value pattern;
    match m with
    | Err e => mret (Err e)
    | Ok false => mret (Ok false)
    | Ok true => MatchAllPatterns value patterns
    end
  end.

End code.

(** ** Specification *)

(** Runs of asterisks read as one. *)
Fixpoint collapse (s : string) : string :=
  match s with
  | EmptyString => EmptyString
  | String c s =>
    let s' := collapse s in
    match s' with
    | String c' _ => if is_star c && is_star c' then s' else String c s'
    | EmptyString => String c s'
    end
  end.

Definition ends_star (s : string) : Prop := ∃ x, s = x +:+ "*".
Definition starts_star (s : string) : Prop := ∃ x, s = "*" +:+ x.
(** [/re/] with an [re], possibly empty. *)
Definition slashed (s : string) : Prop := ∃ re, s = "/" +:+ re +:+ "/".

(** Which values a collapsed pattern that is no regular expression accepts:
    asterisks count at the ends only. *)
Inductive glob : string → string → Prop :=
  | glob_any v : glob "*" v
  | glob_contains x a b : x ≠ "" → glob ("*" +:+ x +:+ "*") (a +:+ x +:+ b)
  | glob_suffix x a : x ≠ "" → ¬ ends_star x → glob ("*" +:+ x) (a +:+ x)
  | glob_prefix x b : x ≠ "" → ¬ starts_star x → glob (x +:+ "*") (x +:+ b)
  | glob_exact x : ¬ starts_star x → ¬ ends_star x → glob x x.

(** ** Lemmas on strings *)

Lemma string_app_nil_r s : s +:+ "" = s.
Proof. induction s as [|c s IH]; simpl; [done|]. by rewrite IH. Qed.

Lemma string_app_assoc s1 s2 s3 : s1 +:+ (s2 +:+ s3) = (s1 +:+ s2) +:+ s3.
Proof. induction s1 as [|c s1 IH]; simpl; [done|]. by rewrite IH. Qed.

Lemma string_length_app s1 s2 :
  String.length (s1 +:+ s2) = (String.length s1 + String.length s2)%nat.
Proof. induction s1 as [|c s1 IH]; simpl; [done|]. by rewrite IH. Qed.

Lemma HasPrefix_true s p : HasPrefix s p = true ↔ ∃ r, s = p +:+ r.
Proof.
  unfold HasPrefix. revert s. induction p as [|c p IH]; intros s; simpl.
  - destruct s; (split; [by eexists|done]).
  - destruct s as [|c' s]; simpl; [split; [done|by intros [r ?]]|].
    destruct (Ascii.ascii_dec c c') as [->|Hne].
    + rewrite IH. split; intros [r Hr]; exists r; simplify_eq/=; done.
    + split; [done|]. intros [r [=]]. congruence.
Qed.

Lemma HasSuffix_true s p : HasSuffix s p = true ↔ ∃ r, s = r +:+ p.
Proof.
  induction s as [|c s IH]; cbn [HasSuffix]; rewrite orb_true_iff, String.eqb_eq.
  - split; [intros [<-|?]; [by exists ""|done]|].
    intros [[|c r] Hr]; simpl in Hr; [by left|done].
  - rewrite IH. split.
    + intros [<-|[r ->]]; [by exists ""|by exists (String c r)].
    + intros [[|c' r] Hr]; simpl in Hr; [by left|]. right. exists r. by simplify_eq.
Qed.

Lemma Contains_true s p : Contains s p = true ↔ ∃ a b, s = a +:+ p +:+ b.
Proof.
  induction s as [|c s IH]; cbn [Contains]; rewrite orb_true_iff.
  - change (String.prefix p "") with (HasPrefix "" p). rewrite HasPrefix_true.
    split; [intros [[r Hr]|?]; [by exists "", r|done]|].
    intros ([|c a] & b & Hr); simpl in Hr; [left; by exists b|done].
  - change (String.prefix p (String c s)) with (HasPrefix (String c s) p).
    rewrite HasPrefix_true, IH. split.
    + intros [[r Hr]|(a & b & ->)]; [by exists "", r|by exists (String c a), b].
    + intros ([|c' a] & b & Hr); simpl in Hr; [left; by exists b|].
      right. exists a, b. by simplify_eq.
Qed.

Lemma bool_iff_false (b : bool) (P : Prop) : (b = true ↔ P) → (b = false ↔ ¬ P).
Proof. destruct b; naive_solver. Qed.

Lemma substring_app s1 s2 s3 :
  substring (s1 +:+ s2 +:+ s3) (len s1) (len s1 + len s2) = Returns s2.
Proof.
  unfold substring, len. rewrite !string_length_app.
  rewrite !(proj2 (Z.leb_le _ _)) by lia. simpl. f_equal.
  replace (Z.to_nat (Z.of_nat (String.length s1) + Z.of_nat (String.length s2)
    - Z.of_nat (String.length s1))) with (String.length s2) by lia.
  rewrite Nat2Z.id. induction s1 as [|c s1 IH]; simpl; [|exact IH].
  induction s2 as [|c s2 IH]; simpl; [by destruct s3|]. by rewrite IH.
Qed.

(** *** Collapsing *)

Lemma collapse_no_double s : Contains s "**" = false → collapse s = s.
Proof.
  induction s as [|c s IH]; [done|]. intros Hc. cbn [Contains] in Hc.
  apply orb_false_iff in Hc as [Hp Hc]. simpl. rewrite (IH Hc).
  destruct s as [|c' s]; [done|].
  destruct (is_star c) eqn:E1, (is_star c') eqn:E2; try done.
  apply Ascii.eqb_eq in E1 as ->. apply Ascii.eqb_eq in E2 as ->.
  by destruct s.
Qed.

Lemma collapse_cons c s : collapse (String c s) =
  match collapse s with
  | String c' s' => if is_star c && is_star c' then collapse s else String c (collapse s)
  | EmptyString => String c (collapse s)
  end.
Proof. simpl. by destruct (collapse s). Qed.

Lemma collapse_star_star s :
  collapse (String "*" (String "*" s)) = collapse (String "*" s).
Proof.
  rewrite (collapse_cons _ (String _ s)), (collapse_cons _ s).
  destruct (collapse s) as [|c s']; [done|]. by destruct (is_star c) eqn:E; simpl; rewrite ?E.
Qed.

Lemma ReplaceStars_cons c1 c2 s : ReplaceStars (String c1 (String c2 s)) =
  if is_star c1 && is_star c2 then String c1 (ReplaceStars s)
  else String c1 (ReplaceStars (String c2 s)).
Proof. done. Qed.

Lemma collapse_replace n s : (String.length s ≤ n)%nat → collapse (ReplaceStars s) = collapse s.
Proof.
  revert s. induction n as [|n IH]; intros s Hn; [by destruct s; simpl in *; [|lia]|].
  destruct s as [|c1 [|c2 s]]; [done..|]. simpl in Hn.
  rewrite ReplaceStars_cons. destruct (is_star c1 && is_star c2) eqn:E.
  - apply andb_true_iff in E as [E1%Ascii.eqb_eq E2%Ascii.eqb_eq]. subst.
    rewrite collapse_star_star. rewrite !(collapse_cons "*").
    by rewrite IH by lia.
  - rewrite !(collapse_cons c1). by rewrite IH by (simpl; lia).
Qed.

Lemma replace_length n s : (String.length s ≤ n)%nat →
  (String.length (ReplaceStars s) ≤ String.length s)%nat ∧
  (Contains s "**" = true → (String.length (ReplaceStars s) < String.length s)%nat).
Proof.
  revert s. induction n as [|n IH]; intros s Hn; [by destruct s; simpl in *; [|lia]|].
  destruct s as [|c1 [|c2 s]].
  { done. }
  { split; [done|]. intros Hc. exfalso. revert Hc.
    cbn [Contains String.prefix]. by destruct (Ascii.ascii_dec "*" c1). }
  simpl in Hn. destruct (IH s) as [H1 _]; [lia|].
  destruct (IH (String c2 s)) as [H2 H3]; [simpl; lia|].
  rewrite ReplaceStars_cons. destruct (is_star c1 && is_star c2) eqn:E; [simpl; split; lia|].
  cbn [String.length] in *. split; [lia|]. intros Hc. apply -> Nat.succ_lt_mono.
  apply H3. cbn [Contains] in Hc. apply orb_true_iff in Hc as [Hp|Hc]; [|done].
  exfalso. cbn [String.prefix] in Hp. unfold is_star in E.
  destruct (Ascii.ascii_dec "*" c1) as [<-|]; [|done].
  by destruct (Ascii.ascii_dec "*" c2) as [<-|].
Qed.

Lemma singlefy_collapse pattern : singlefyAsterisks pattern = collapse pattern.
Proof.
  unfold singlefyAsterisks. remember (String.length pattern) as n eqn:En.
  assert (Hn : (String.length pattern ≤ n)%nat) by lia. clear En.
  revert pattern Hn. induction n as [|n IH]; intros s Hn; simpl.
  { by destruct s; simpl in *; [|lia]. }
  destruct (Contains s "**") eqn:Hc; [|symmetry; by apply collapse_no_double].
  destruct (replace_length (S n) s Hn) as [_ Hlt]. specialize (Hlt Hc).
  rewrite IH by lia. by apply (collapse_replace (S n)).
Qed.

Lemma collapse_single s : Contains (collapse s) "**" = false.
Proof.
  induction s as [|c s IH]; [done|]. rewrite collapse_cons.
  destruct (collapse s) as [|c' s'] eqn:E.
  - cbn [Contains String.prefix]. by destruct (Ascii.ascii_dec "*" c).
  - destruct (is_star c && is_star c') eqn:Es; [done|].
    change (String.prefix "**" (String c (String c' s')) || Contains (String c' s') "**" = false).
    rewrite IH, orb_false_r. cbn [String.prefix]. unfold is_star in Es.
    destruct (Ascii.ascii_dec "*" c) as [<-|]; [|done].
    by destruct (Ascii.ascii_dec "*" c') as [<-|].
Qed.

Lemma collapse_empty s : collapse s = "" → s = "".
Proof.
  destruct s as [|c s]; [done|]. rewrite collapse_cons.
  destruct (collapse s) as [|c' s']; [done|]. by destruct (is_star c && is_star c').
Qed.

(** *** Both ends of a string *)

Lemma string_app_inj_r x y z : x +:+ z = y +:+ z → x = y.
Proof.
  revert y. induction x as [|c x IH]; intros [|c' y]; simpl; [done| | |].
  - intros Hz. exfalso. apply (f_equal String.length) in Hz. simpl in Hz.
    rewrite string_length_app in Hz. lia.
  - intros Hz. exfalso. apply (f_equal String.length) in Hz. simpl in Hz.
    rewrite string_length_app in Hz. lia.
  - intros [= -> Hz]. by rewrite (IH y).
Qed.

(** A string with the one-character prefix and suffix [c] is [c] alone or
    has them apart. *)
Lemma both_ends c x y :
  String c x = y +:+ String c "" → x = "" ∨ ∃ z, x = z +:+ String c "".
Proof. destruct y as [|c' y]; simpl; intros [=]; subst; [by left|right; by exists y]. Qed.

(** A string is empty or has a last character. *)
Lemma string_rev_case s : s = "" ∨ ∃ x c, s = x +:+ String c "".
Proof.
  induction s as [|c s [->|(x & c' & ->)]]; [by left|right; by exists "", c|].
  right. by exists (String c x), c'.
Qed.

Lemma string_snoc_inj x y c d : x +:+ String c "" = y +:+ String d "" → x = y ∧ c = d.
Proof.
  revert y. induction x as [|a x IH]; intros [|b y]; simpl; intros [=]; subst; try done.
  - by destruct y.
  - by destruct x.
  - by destruct (IH y) as [-> ->].
Qed.

Lemma substring_tail c x s :
  s = String c "" +:+ x → substring s 1 (len s) = Returns x.
Proof.
  intros ->. pose proof (substring_app (String c "") x "") as H. rewrite string_app_nil_r in H.
  rewrite <-H. f_equal. unfold len. rewrite string_length_app. cbn [String.length]. lia.
Qed.

Lemma substring_init c x s :
  s = x +:+ String c "" → substring s 0 (len s - 1) = Returns x.
Proof.
  intros ->. pose proof (substring_app "" x (String c "")) as H. rewrite <-H. f_equal.
  unfold len. rewrite string_length_app. cbn [String.length]. lia.
Qed.

Lemma substring_inner c x s :
  s = String c "" +:+ x +:+ String c "" → substring s 1 (len s - 1) = Returns x.
Proof.
  intros ->. pose proof (substring_app (String c "") x (String c "")) as H.
  rewrite <-H. f_equal. unfold len. rewrite !string_length_app. cbn [String.length]. lia.
Qed.

Lemma starts_star_bool s : HasPrefix s "*" = true ↔ starts_star s.
Proof. apply HasPrefix_true. Qed.
Lemma ends_star_bool s : HasSuffix s "*" = true ↔ ends_star s.
Proof. apply HasSuffix_true. Qed.

Lemma collapse_two_stars p : collapse p ≠ "**".
Proof. intros Hp. pose proof (collapse_single p) as H. by rewrite Hp in H. Qed.

(** The four shapes a pattern that is not ["*"] can have. *)
Inductive shape : string → bool → bool → Prop :=
  | shape_both x : x ≠ "" → shape ("*" +:+ x +:+ "*") true true
  | shape_prefix x : x ≠ "" → ¬ ends_star x → shape ("*" +:+ x) true false
  | shape_suffix x : x ≠ "" → ¬ starts_star x → shape (x +:+ "*") false true
  | shape_plain x : ¬ starts_star x → ¬ ends_star x → shape x false false.

Lemma ends_star_cons c x : ends_star x → ends_star (String c x).
Proof. intros [y ->]. by exists (String c y). Qed.

Lemma starts_star_app x y : starts_star x → starts_star (x +:+ y).
Proof. intros [z ->]. by exists (z +:+ y). Qed.

Lemma starts_star_app_inv x y : x ≠ "" → starts_star (x +:+ y) → starts_star x.
Proof.
  destruct x as [|c x]; [done|]. intros _ [z Hz]. simpl in Hz. exists x. by simplify_eq.
Qed.

Lemma shape_of q : q ≠ "" → q ≠ "*" → q ≠ "**" →
  shape q (HasPrefix q "*") (HasSuffix q "*").
Proof.
  intros Hne H1 H2. destruct (HasPrefix q "*") eqn:Ep.
  - apply starts_star_bool in Ep as [x ->]. destruct (HasSuffix _ "*") eqn:Es.
    + apply ends_star_bool in Es as [y Hy].
      destruct (both_ends _ _ _ Hy) as [->|[z ->]]; [done|].
      constructor. by intros ->.
    + assert (Hn : ¬ ends_star ("*" +:+ x)) by (rewrite <-ends_star_bool; congruence).
      constructor; [by intros ->|]. intros Hx. apply Hn. by apply ends_star_cons.
  - assert (Hn : ¬ starts_star q) by (rewrite <-starts_star_bool; congruence).
    destruct (HasSuffix q "*") eqn:Es.
    + apply ends_star_bool in Es as [x ->].
      constructor; [by intros ->|]. intros Hx. apply Hn. by apply starts_star_app.
    + constructor; [done|]. rewrite <-ends_star_bool. congruence.
Qed.

(** [glob], read off the shape. *)
Lemma glob_both x v : x ≠ "" → glob ("*" +:+ x +:+ "*") v ↔ Contains v x = true.
Proof.
  intros Hx. rewrite Contains_true. split.
  - intros Hg. inversion Hg as [v' Hq|y a b Hy Hq|y a Hy Hn Hq|y b Hy Hn Hq|y Hn Hn' Hq]; subst.
    + by destruct x.
    + apply string_app_inj_r in Hq as ->. by exists a, b.
    + exfalso. apply Hn. by exists x.
    + exfalso. apply Hn. destruct y as [|c y]; [done|]. simpl in Hq. exists y. by simplify_eq.
    + exfalso. apply Hn. by eexists.
  - intros (a & b & ->). by constructor.
Qed.

Lemma glob_star_prefix x v : x ≠ "" → ¬ ends_star x →
  glob ("*" +:+ x) v ↔ HasSuffix v x = true.
Proof.
  intros Hx Hend. rewrite HasSuffix_true. split.
  - intros Hg. inversion Hg as [v' Hq|y a b Hy Hq|y a Hy Hn Hq|y b Hy Hn Hq|y Hn Hn' Hq]; subst.
    + done.
    + exfalso. apply Hend. by exists y.
    + by exists a.
    + exfalso. apply Hn. destruct y as [|c y]; [done|]. simpl in Hq. exists y. by simplify_eq.
    + exfalso. apply Hn. by eexists.
  - intros (a & ->). by constructor.
Qed.

Lemma glob_star_suffix x v : x ≠ "" → ¬ starts_star x →
  glob (x +:+ "*") v ↔ HasPrefix v x = true.
Proof.
  intros Hx Hstart. rewrite HasPrefix_true. split.
  - intros Hg. inversion Hg as [v' Hq|y a b Hy Hq|y a Hy Hn Hq|y b Hy Hn Hq|y Hn Hn' Hq]; subst.
    + destruct x as [|c [|c' x]]; by simpl in Hq; simplify_eq.
    + exfalso. apply Hstart. destruct x as [|c x]; [done|]. simpl in Hq. exists x. by simplify_eq.
    + exfalso. apply Hstart. destruct x as [|c x]; [done|]. simpl in Hq. exists x. by simplify_eq.
    + apply string_app_inj_r in Hq as ->. by exists b.
    + exfalso. apply Hn'. by eexists.
  - intros (a & ->). by constructor.
Qed.

Lemma glob_plain x v : ¬ starts_star x → ¬ ends_star x → glob x v ↔ x = v.
Proof.
  intros Hs He. split; [|intros <-; by constructor].
  intros Hg. destruct Hg; [|..|done]; exfalso.
  - apply Hs. by exists "".
  - apply Hs. by eexists.
  - apply Hs. by eexists.
  - apply He. by eexists.
Qed.

Definition slashed_bool (s : string) : bool := HasPrefix s "/" && HasSuffix s "/".

Lemma slashed_bool_true s : s ≠ "/" → slashed_bool s = true ↔ slashed s.
Proof.
  intros Hne. unfold slashed_bool. rewrite andb_true_iff, HasPrefix_true, HasSuffix_true. split.
  - intros [[x ->] [y Hy]]. destruct (both_ends _ _ _ Hy) as [->|[z ->]]; [done|by exists z].
  - intros [re ->]. split; [by exists (re +:+ "/")|]. by exists ("/" +:+ re).
Qed.

Lemma slashed_plain s : s = "/" ∨ slashed s → HasPrefix s "*" = false ∧ HasSuffix s "*" = false.
Proof.
  intros [->|[re ->]]; [done|]. split; [done|].
  apply not_true_iff_false. rewrite HasSuffix_true. intros [r Hr].
  rewrite (string_app_assoc "/" re "/") in Hr. revert Hr. generalize ("/" +:+ re).
  intros x. revert r. induction x as [|c x IH]; intros [|c' r]; simpl; try done.
  - intros [= _ Hx]. by destruct r.
  - intros [= -> Hx]. by destruct x.
  - intros [= _ Hx]. by apply IH in Hx.
Qed.

(** ** Claims *)

(** [singlefyAsterisks] terminates and is the one-pass collapse of every
    run of asterisks; no two adjacent ones are left. *)
Theorem singlefy_correct (pattern : string) :
  singlefyAsterisks pattern = collapse pattern ∧
  Contains (singlefyAsterisks pattern) "**" = false ∧
  singlefyAsterisks (singlefyAsterisks pattern) = singlefyAsterisks pattern.
Proof.
  rewrite !singlefy_collapse. split_and!; [done|apply collapse_single|].
  apply collapse_no_double, collapse_single.
Qed.

(** A pattern that is a single slash, or [/re/]. *)
Lemma PatternMatch_slashed (MatchString : string → string → gores bool) (value pattern : string) :
  (collapse pattern = "/" → PatternMatch MatchString value pattern = Panics "slice bounds out of range") ∧
  (∀ re, collapse pattern = "/" +:+ re +:+ "/" → PatternMatch MatchString value pattern = Returns (MatchString re value)).
Proof.
  assert (Hne : ∀ s, collapse pattern = String "/" s → pattern ≠ "") by (intros s H ->; done).
  unfold PatternMatch. rewrite singlefy_collapse. split.
  - intros H. rewrite (proj2 (String.eqb_neq _ _) (Hne _ H)), H. done.
  - intros re H. rewrite (proj2 (String.eqb_neq _ _) (Hne _ H)), H.
    destruct (slashed_plain ("/" +:+ re +:+ "/")) as [Hp Hs]; [right; by exists re|].
    rewrite Hp, Hs. run. rewrite (substring_inner "/" re) by done.
    rewrite (proj2 (HasPrefix_true _ "/")), (proj2 (HasSuffix_true _ "/")); [done|..].
    + by exists ("/" +:+ re).
    + by eexists.
Qed.

(** C40: what [PatternMatch] answers on every pattern, where runs of asterisks
    read as one.  The empty pattern is an error, a single slash panics, and
    [/re/] answers what the regular expression does.  On any other pattern it
    never fails and decides the glob relation: asterisks at the ends stand for
    anything. *)
Theorem PatternMatch_glob (MatchString : string → string → gores bool) (value pattern : string) :
  (pattern = "" → PatternMatch MatchString value pattern = Returns (Err ErrEmptyPattern)) ∧
  (collapse pattern = "/" → PatternMatch MatchString value pattern = Panics "slice bounds out of range") ∧
  (∀ re, collapse pattern = "/" +:+ re +:+ "/" →
     PatternMatch MatchString value pattern = Returns (MatchString re value)) ∧
  (pattern ≠ "" → collapse pattern ≠ "/" → ¬ slashed (collapse pattern) →
     ∃ b, PatternMatch MatchString value pattern = Returns (Ok b) ∧ (b = true ↔ glob (collapse pattern) value)).
Proof.
  split; [by intros ->|]. split; [by apply PatternMatch_slashed|]. split; [by apply PatternMatch_slashed|].
  intros Hne Hslash Hre. unfold PatternMatch. rewrite (proj2 (String.eqb_neq _ _) Hne), singlefy_collapse.
  pose proof (collapse_two_stars pattern) as Htwo.
  assert (Hq : collapse pattern ≠ "") by (by intros ?%collapse_empty).
  revert Hslash Hre Htwo Hq. generalize (collapse pattern). intros q Hslash Hre Htwo Hq.
  destruct (String.eqb_spec q "*") as [->|Hstar].
  { exists true. split; [done|]. split; [constructor|done]. }
  rewrite <-slashed_bool_true in Hre by done. unfold slashed_bool in Hre.
  apply not_true_iff_false in Hre. pose proof (shape_of q Hq Hstar Htwo) as Hs.
  destruct (HasPrefix q "*") eqn:Ep, (HasSuffix q "*") eqn:Es;
    inversion Hs as [x Hx|x Hx He|x Hx He|x Hn He]; subst; cbn [andb]; run.
  - rewrite (substring_inner "*" x) by done.
    eexists. split; [done|]. by rewrite glob_both.
  - rewrite (substring_tail "*" x) by done.
    eexists. split; [done|]. by rewrite glob_star_prefix.
  - rewrite (substring_init "*" x) by done. eexists. split; [done|]. by rewrite glob_star_suffix.
  - rewrite Hre. eexists. split; [done|]. by rewrite glob_plain, String.eqb_eq.
Qed.

Lemma PatternMatch_glob_witness :
  ∃ b, PatternMatch (λ _ _, Err "regexp") "www.dgate.io" "**.dgate**" = Returns (Ok b) ∧
       (b = true ↔ glob (collapse "**.dgate**") "www.dgate.io").
Proof. apply (PatternMatch_glob (λ _ _, Err "regexp") "www.dgate.io" "**.dgate**"); [done..|]. intros [re [=]]. Defined.

(** a pattern [/re/] is the regular expression [re], its answer and its
    error passed through; the empty pattern is an error; the pattern [/]
    slices out of bounds. *)
Theorem PatternMatch_regexp (MatchString : string → string → gores bool) (value re : string)
    (Hre : Contains re "**" = false) :
  PatternMatch MatchString value ("/" +:+ re +:+ "/") = Returns (MatchString re value) ∧
  PatternMatch MatchString value "" = Returns (Err ErrEmptyPattern) ∧
  PatternMatch MatchString value "/" = Panics "slice bounds out of range".
Proof.
  split_and!; [|done..].
  assert (Hc : singlefyAsterisks ("/" +:+ re +:+ "/") = "/" +:+ re +:+ "/").
  { rewrite singlefy_collapse. apply collapse_no_double.
    change (Contains (re +:+ "/") "**" = false). revert Hre.
    rewrite <-!not_true_iff_false, !Contains_true. intros Hre (a & b & Hab). apply Hre.
    destruct (string_rev_case b) as [->|(b' & c & ->)].
    - rewrite string_app_nil_r in Hab. exfalso. revert Hab. generalize re.
      induction a as [|c a IH]; intros [|c' r]; simpl; intros [=]; subst.
      + destruct r as [|? r]; simpl in *; simplify_eq. by destruct r.
      + by destruct a.
      + eapply IH. done.
    - exists a, b'. rewrite !string_app_assoc. rewrite !string_app_assoc in Hab.
      by apply string_snoc_inj in Hab as [-> _]. }
  rewrite singlefy_collapse in Hc. by apply PatternMatch_slashed.
Qed.

Lemma PatternMatch_regexp_witness :
  Contains ".*\.io" "**" = false ∧
  PatternMatch (λ re v, Ok (HasSuffix v ".io")) "dgate.io" "/.*\.io/" = Returns (Ok true).
Proof.
  split; [done|]. 
  apply (PatternMatch_regexp (λ re v, Ok (HasSuffix v ".io")) "dgate.io" ".*\.io" eq_refl).
Defined.

(** The patterns before the first one that does not say [Ok false]. *)
Definition all_false (f : string → outcome (gores bool)) (l : list string) : Prop :=
  Forall (λ p, f p = Returns (Ok false)) l.

(** [MatchAnyPattern] answers the first pattern that matches, or the
    first error met before any match; patterns after it are not looked at. *)
Theorem MatchAnyPattern_first (MatchString : string → string → gores bool) (value : string)
    (before : list string) (p : string) (after : list string) (r : gores bool)
    (Hbefore : all_false (PatternMatch MatchString value) before)
    (Hp : PatternMatch MatchString value p = Returns r) (Hr : r ≠ Ok false) :
  MatchAnyPattern MatchString value (before ++ p :: after) =
    Returns match r with Ok _ => (p, true, None) | Err e => ("", false, Some e) end ∧
  MatchAnyPattern MatchString value before = Returns ("", false, None).
Proof.
  induction Hbefore as [|q before Hq _ [IH1 IH2]].
  - split; [|done]. simpl. rewrite Hp. run. by destruct r as [[]|].
  - simpl. rewrite Hq. by run.
Qed.

Lemma MatchAnyPattern_first_witness :
  MatchAnyPattern (λ _ _, Err "bad") "a.io" ["b.io"; "*.io"; ""] = Returns ("*.io", true, None).
Proof.
  apply (MatchAnyPattern_first (λ _ _, Err "bad") "a.io" ["b.io"] "*.io" [""] (Ok true)).
  - by repeat constructor.
  - done.
  - done.
Defined.
