(* ===== verification/Base64.v ===== *)
(** * encoding/base64: the codec the transformers use

    The standard alphabet, with padding ([StdEncoding]) and without
    ([RawStdEncoding]), on strings of bytes as Go decodes them: ['\r'] and
    ['\n'] are skipped, the unused bits of a last partial quantum ignored.
    The offset in the text of a decoding error is left out. *)
From Stdlib Require Import ZArith Lia Ascii NArith Strings.String.
From stdpp Require Import base strings list.
From S2P Require Import Prelude.

#[local] Arguments String.append : simpl nomatch.

Definition CorruptInputError : error := "illegal base64 data at input byte".

(** ** Digits *)

Definition digit (n : N) : ascii :=
  ascii_of_N
    (if N.ltb n 26 then n + 65 else if N.ltb n 52 then n + 71
     else if N.ltb n 62 then n - 4 else if N.eqb n 62 then 43 else 47)%N.

Definition undigit (c : ascii) : option N :=
  let n := N_of_ascii c in
  if N.leb 65 n && N.leb n 90 then Some (n - 65)%N
  else if N.leb 97 n && N.leb n 122 then Some (n - 71)%N
  else if N.leb 48 n && N.leb n 57 then Some (n + 4)%N
  else if N.eqb n 43 then Some 62%N else if N.eqb n 47 then Some 63%N else None.

Definition pad : ascii := "=".

(** ** Encoding *)

Fixpoint encode (bs : list N) : list ascii :=
  match bs with
  | b1 :: b2 :: b3 :: bs =>
    digit (b1 / 4) :: digit (b1 mod 4 * 16 + b2 / 16)
    :: digit (b2 mod 16 * 4 + b3 / 64) :: digit (b3 mod 64) :: encode bs
  | [b1; b2] => [digit (b1 / 4); digit (b1 mod 4 * 16 + b2 / 16); digit (b2 mod 16 * 4); pad]
  | [b1] => [digit (b1 / 4); digit (b1 mod 4 * 16); pad; pad]
  | [] => []
  end%N.

(** Without padding. *)
Fixpoint encode_raw (bs : list N) : list ascii :=
  match bs with
  | b1 :: b2 :: b3 :: bs =>
    digit (b1 / 4) :: digit (b1 mod 4 * 16 + b2 / 16)
    :: digit (b2 mod 16 * 4 + b3 / 64) :: digit (b3 mod 64) :: encode_raw bs
  | [b1; b2] => [digit (b1 / 4); digit (b1 mod 4 * 16 + b2 / 16); digit (b2 mod 16 * 4)]
  | [b1] => [digit (b1 / 4); digit (b1 mod 4 * 16)]
  | [] => []
  end%N.

(** ** Decoding *)

Definition skipped (c : ascii) : bool :=
  Ascii.eqb c (ascii_of_N 10) || Ascii.eqb c (ascii_of_N 13).

(** The decoder on the input without the skipped characters; [padded] is the
    encoding's padding mode. *)
Fixpoint decode_quanta (padded : bool) (cs : list ascii) : gores (list N) :=
  match cs with
  | [] => Ok []
  | [c1; c2] =>
    match undigit c1, undigit c2 with
    | Some d1, Some d2 => if padded then Err CorruptInputError else Ok [d1 * 4 + d2 / 16]%N
    | _, _ => Err CorruptInputError
    end
  | [c1; c2; c3] =>
    match undigit c1, undigit c2, undigit c3 with
    | Some d1, Some d2, Some d3 =>
      if padded then Err CorruptInputError
      else Ok [d1 * 4 + d2 / 16; d2 mod 16 * 16 + d3 / 4]%N
    | _, _, _ => Err CorruptInputError
    end
  | c1 :: c2 :: c3 :: c4 :: cs =>
    match undigit c1, undigit c2, undigit c3, undigit c4 with
    | Some d1, Some d2, Some d3, Some d4 =>
      match decode_quanta padded cs with
      | Ok bs => Ok ([d1 * 4 + d2 / 16; d2 mod 16 * 16 + d3 / 4; d3 mod 4 * 64 + d4]%N ++ bs)
      | Err e => Err e
      end
    | Some d1, Some d2, Some d3, None =>
      if padded && Ascii.eqb c4 pad && bool_decide (cs = [])
      then Ok [d1 * 4 + d2 / 16; d2 mod 16 * 16 + d3 / 4]%N else Err CorruptInputError
    | Some d1, Some d2, None, _ =>
      if padded && Ascii.eqb c3 pad && Ascii.eqb c4 pad && bool_decide (cs = [])
      then Ok [d1 * 4 + d2 / 16]%N else Err CorruptInputError
    | _, _, _, _ => Err CorruptInputError
    end
  | _ => Err CorruptInputError
  end.

Definition bytes (s : string) : list N := N_of_ascii <$> list_ascii_of_string s.
Definition of_bytes (bs : list N) : string := string_of_list_ascii (ascii_of_N <$> bs).

Definition EncodeToString (s : string) : string :=
  string_of_list_ascii (encode (bytes s)).

Definition RawEncodeToString (s : string) : string :=
  string_of_list_ascii (encode_raw (bytes s)).

Definition decode (padded : bool) (s : string) : gores string :=
  match decode_quanta padded (filter (λ c, skipped c = false) (list_ascii_of_string s)) with
  | Ok bs => Ok (of_bytes bs)
  | Err e => Err e
  end.
(** [StdEncoding.DecodeString] and [RawStdEncoding.DecodeString] *)
Definition StdDecodeString : string → gores string := decode true.
Definition RawStdDecodeString : string → gores string := decode false.

(** ** Round trip *)

Definition digit_check (n : N) : bool :=
  bool_decide (undigit (digit n) = Some n) && negb (skipped (digit n)).

Lemma digit_ok n : (n < 64)%N →
  undigit (digit n) = Some n ∧ skipped (digit n) = false.
Proof.
  intros Hn. assert (Hall : forallb digit_check (N.of_nat <$> seq 0 64) = true)
    by by vm_compute.
  rewrite List.forallb_forall in Hall. specialize (Hall n).
  apply andb_true_iff in Hall as [H1 H2].
  - split; [by apply bool_decide_eq_true in H1|by apply negb_true_iff in H2].
  - apply list_elem_of_In, list_elem_of_fmap. exists (N.to_nat n). split; [lia|].
    apply elem_of_seq. lia.
Qed.

#[local] Ltac Zify.zify_post_hook ::= Z.to_euclidean_division_equations.

(** Induction by groups of three bytes. *)
Lemma triples_ind (P : list N → Prop) :
  P [] → (∀ a, P [a]) → (∀ a b, P [a; b]) →
  (∀ a b c l, P l → P (a :: b :: c :: l)) → ∀ l, P l.
Proof.
  intros H0 H1 H2 H3. fix IH 1. intros [|a [|b [|c l]]]; [done|apply H1|apply H2|].
  apply H3, IH.
Qed.

Lemma encode_not_skipped bs : Forall (λ b, b < 256)%N bs →
  Forall (λ c, skipped c = false) (encode bs).
Proof.
  induction bs as [|a|a b|a b c bs IH] using triples_ind; rewrite ?list.Forall_cons; intros Hb.
  - constructor.
  - repeat constructor; apply digit_ok; lia.
  - repeat constructor; apply digit_ok; lia.
  - cbn [encode]. do 4 (constructor; [apply digit_ok; lia|]). apply IH. tauto.
Qed.

Lemma decode_encode bs : Forall (λ b, b < 256)%N bs → decode_quanta true (encode bs) = Ok bs.
Proof.
  induction bs as [|a|a b|a b c bs IH] using triples_ind; rewrite ?list.Forall_cons; intros Hb.
  - done.
  - cbn [encode decode_quanta]. rewrite !(λ n H, proj1 (digit_ok n H)) by lia.
    cbn [undigit]. do 2 f_equal. lia.
  - cbn [encode decode_quanta]. rewrite !(λ n H, proj1 (digit_ok n H)) by lia.
    do 2 f_equal; [lia|f_equal; lia].
  - cbn [encode decode_quanta]. rewrite !(λ n H, proj1 (digit_ok n H)) by lia.
    rewrite IH by tauto. cbn [app]. repeat f_equal; lia.
Qed.

Lemma bytes_bound s : Forall (λ b, b < 256)%N (bytes s).
Proof.
  apply list.Forall_forall. intros b Hb. apply list_elem_of_fmap in Hb as (c & -> & _).
  apply N_ascii_bounded.
Qed.

Lemma of_bytes_bytes s : of_bytes (bytes s) = s.
Proof.
  unfold of_bytes, bytes. rewrite <-list_fmap_compose.
  rewrite (list_fmap_ext _ id) by (intros ? c ?; apply ascii_N_embedding).
  rewrite list_fmap_id. apply string_of_list_ascii_of_string.
Qed.

Lemma filter_all {A} (P : A → Prop) `{!∀ x, Decision (P x)} (l : list A) :
  Forall P l → filter P l = l.
Proof.
  induction 1 as [|x l Hx Hl IH]; [done|]. rewrite filter_cons, IH. by rewrite decide_True.
Qed.

Lemma StdDecode_encode s : StdDecodeString (EncodeToString s) = Ok s.
Proof.
  unfold StdDecodeString, decode, EncodeToString.
  rewrite list_ascii_of_string_of_list_ascii.
  rewrite filter_all by (apply encode_not_skipped, bytes_bound).
  rewrite decode_encode by apply bytes_bound. by rewrite of_bytes_bytes.
Qed.

Lemma encode_raw_not_skipped bs : Forall (λ b, b < 256)%N bs →
  Forall (λ c, skipped c = false) (encode_raw bs).
Proof.
  induction bs as [|a|a b|a b c bs IH] using triples_ind; rewrite ?list.Forall_cons; intros Hb.
  - constructor.
  - repeat constructor; apply digit_ok; lia.
  - repeat constructor; apply digit_ok; lia.
  - cbn [encode_raw]. do 4 (constructor; [apply digit_ok; lia|]). apply IH. tauto.
Qed.

Lemma decode_encode_raw bs : Forall (λ b, b < 256)%N bs →
  decode_quanta false (encode_raw bs) = Ok bs.
Proof.
  induction bs as [|a|a b|a b c bs IH] using triples_ind; rewrite ?list.Forall_cons; intros Hb.
  - done.
  - cbn [encode_raw decode_quanta]. rewrite !(λ n H, proj1 (digit_ok n H)) by lia.
    do 2 f_equal. lia.
  - cbn [encode_raw decode_quanta]. rewrite !(λ n H, proj1 (digit_ok n H)) by lia.
    do 2 f_equal; [lia|f_equal; lia].
  - cbn [encode_raw decode_quanta]. rewrite !(λ n H, proj1 (digit_ok n H)) by lia.
    rewrite IH by tauto. cbn [app]. repeat f_equal; lia.
Qed.

Lemma RawStdDecode_encode s : RawStdDecodeString (RawEncodeToString s) = Ok s.
Proof.
  unfold RawStdDecodeString, decode, RawEncodeToString.
  rewrite list_ascii_of_string_of_list_ascii.
  rewrite filter_all by apply encode_raw_not_skipped, bytes_bound.
  rewrite decode_encode_raw by apply bytes_bound. by rewrite of_bytes_bytes.
Qed.
