(* ===== verification/Spec.v ===== *)
(** * pkg/spec: commands, resources, change logs and transformers

    The records of external_resources.go (as clients send them) and of
    internal_resources.go (as the proxy keeps them), the commands of
    change_log.go, the translations of transformers.go between the two, and
    the response tracker.  A pointer field is an [option]; the code replaces
    the records behind them, it never mutates one in place. *)
From Stdlib Require Import ZArith Lia Ascii.
From stdpp Require Import base gmap strings list.
From S2P Require Import Prelude SliceUtil Pattern Base64.

Import Pattern.Strings.

(** ** Commands (change_log.go) *)

Definition Action : Type := string.
Definition Resource : Type := string.
Definition Command : Type := string.

Definition Add : Action := "add".
Definition Delete : Action := "delete".

Definition Routes : Resource := "route".
Definition Services : Resource := "service".
Definition Namespaces : Resource := "namespace".
Definition Modules : Resource := "module".
Definition Domains : Resource := "domain".
Definition Collections : Resource := "collection".
Definition Documents : Resource := "document".
Definition Secrets : Resource := "secret".

Definition newCommand (action : Action) (resource : Resource) : Command :=
  action +:+ "_" +:+ resource.

Definition NoopCommand : Command := "noop".
Definition AddRouteCommand : Command := newCommand Add Routes.
Definition AddServiceCommand : Command := newCommand Add Services.
Definition AddNamespaceCommand : Command := newCommand Add Namespaces.
Definition AddModuleCommand : Command := newCommand Add Modules.
Definition AddDomainCommand : Command := newCommand Add Domains.
Definition AddCollectionCommand : Command := newCommand Add Collections.
Definition AddDocumentCommand : Command := newCommand Add Documents.
Definition AddSecretCommand : Command := newCommand Add Secrets.
Definition DeleteRouteCommand : Command := newCommand Delete Routes.
Definition DeleteServiceCommand : Command := newCommand Delete Services.
Definition DeleteNamespaceCommand : Command := newCommand Delete Namespaces.
Definition DeleteModuleCommand : Command := newCommand Delete Modules.
Definition DeleteDomainCommand : Command := newCommand Delete Domains.
Definition DeleteCollectionCommand : Command := newCommand Delete Collections.
Definition DeleteDocumentCommand : Command := newCommand Delete Documents.
Definition DeleteSecretCommand : Command := newCommand Delete Secrets.

Definition IsNoop (clc : Command) : bool := String.eqb clc "noop".
Definition IsShutdown (clc : Command) : bool := String.eqb clc "shutdown".
Definition IsRestart (clc : Command) : bool := String.eqb clc "restart".

Definition IsRelatedTo (resource1 resource2 : Resource) : bool :=
  if String.eqb resource1 resource2 then true
  else if (String.eqb resource1 Namespaces || String.eqb resource2 Namespaces)
          && (negb (String.eqb resource1 Documents) && negb (String.eqb resource2 Documents))
  then true
  else if String.eqb resource1 Routes then
    String.eqb resource2 Services || String.eqb resource2 Modules
  else if String.eqb resource1 Services || String.eqb resource1 Modules then
    String.eqb resource2 Routes
  else if String.eqb resource1 Collections then String.eqb resource2 Documents
  else if String.eqb resource1 Documents then String.eqb resource2 Collections
  else false.

Definition invalid_command : string := "change log: invalid command".

(** [Command.Action] and [Command.Resource] *)
Definition Command_Action (clc : Command) : outcome Action :=
  if HasPrefix clc "add_" then mret Add
  else if HasPrefix clc "delete_" then mret Delete
  else if IsNoop clc then mret "noop"
  else Panics invalid_command.

Definition Command_Resource (clc : Command) : outcome Resource :=
  if IsNoop clc then mret "noop"
  else if HasSuffix clc "_route" then mret Routes
  else if HasSuffix clc "_service" then mret Services
  else if HasSuffix clc "_namespace" then mret Namespaces
  else if HasSuffix clc "_module" then mret Modules
  else if HasSuffix clc "_domain" then mret Domains
  else if HasSuffix clc "_collection" then mret Collections
  else if HasSuffix clc "_document" then mret Documents
  else if HasSuffix clc "_secret" then mret Secrets
  else Panics invalid_command.

(** ** Change logs

    [Item] is an [any]: its type is a parameter.  [now] is the clock's
    nanosecond reading. *)

Definition base36_digit (n : Z) : ascii :=
  ascii_of_N (Z.to_N (if n <? 10 then n + 48 else n + 87)).

(** [strconv.FormatInt n 36]; 13 digits hold any 64-bit integer. *)
Fixpoint base36_loop (fuel : nat) (n : Z) (acc : string) : string :=
  match fuel with
  | O => acc
  | S fuel =>
    let acc := String (base36_digit (n mod 36)) acc in
    if n / 36 =? 0 then acc else base36_loop fuel (n / 36) acc
  end.
Definition FormatInt36 (n : Z) : string :=
  if n <? 0 then String "-" (base36_loop 13 (- n) "") else base36_loop 13 n "".

Section changelog.
Context {Item : Type}.

Record ChangeLog : Type := MkChangeLog {
  ID : string;
  Cmd : Command;
  Name : string;
  Namespace : string;
  cl_Item : option Item;
  Version : Z }.

Definition NewNoopChangeLog (now : Z) : ChangeLog :=
  {| ID := FormatInt36 now; Cmd := NoopCommand; Name := ""; Namespace := "";
     cl_Item := None; Version := 1 |}.

(** [GetName] is the [Named] interface's method. *)
Definition NewChangeLog (now : Z) (GetName : Item → string) (item : option Item)
    (namespace : string) (cmd : Command) : outcome ChangeLog :=
  match item with
  | None => Panics "item cannot be nil"
  | Some it =>
    if String.eqb namespace "" then Panics "namespace cannot be empty"
    else if String.eqb cmd "" then Panics "cmd cannot be empty"
    else mret {| ID := FormatInt36 now; Cmd := cmd; Name := GetName it;
                 Namespace := namespace; cl_Item := item; Version := 1 |}
  end.

Definition RenewID (now : Z) (cl : ChangeLog) : ChangeLog :=
  {| ID := FormatInt36 now; Cmd := Cmd cl; Name := Name cl; Namespace := Namespace cl;
     cl_Item := cl_Item cl; Version := Version cl |}.

End changelog.
Arguments ChangeLog : clear implicits.

(** ** Code outside the repository

    encoding/json, net/url and the JSON-schema compiler, as the operations
    the transformers call.  [JSON] is a non-nil decoded value, [URL] a parsed
    URL, [Schema] a compiled schema. *)
Class Externals := {
  JSON : Type;
  URL : Type;
  Schema : Type;
  json_Marshal : JSON → gores string;
  (** into an [any]: [null] decodes to nil *)
  json_Unmarshal : string → gores (option JSON);
  (** into a [*jsonschema.Schema]; only the error is used *)
  schema_Unmarshal : string → option error;
  url_Parse : string → gores URL;
  url_String : URL → string;
  (** [MustCompileString]: name and text, [None] when it panics *)
  schema_Compile : string → string → option Schema }.

(** ** Records *)

Definition Duration : Type := Z.
Definition ModuleType : Type := string.
Definition CollectionType : Type := string.
Definition CollectionVisibility : Type := string.

Definition ModuleTypeJavascript : ModuleType := "javascript".
Definition ModuleTypeTypescript : ModuleType := "typescript".
Definition ModuleType_Valid (m : ModuleType) : bool :=
  String.eqb m ModuleTypeJavascript || String.eqb m ModuleTypeTypescript.

Definition CollectionTypeDocument : CollectionType := "document".
Definition CollectionTypeFetcher : CollectionType := "fetcher".
Definition CollectionVisibilityPublic : CollectionVisibility := "public".
Definition CollectionVisibilityPrivate : CollectionVisibility := "private".

(** The instant [time.Time{}] is 0. *)
Definition Time : Type := Z.

Module DGateNamespace.
Record t : Type := mk { Name : string; Tags : slice string }.
End DGateNamespace.

Module DGateModule.
Record t : Type := mk {
  Name : string; Namespace : option DGateNamespace.t; Payload : string;
  Type_ : ModuleType; Tags : slice string }.
End DGateModule.

Module DGateService.
Record t `{Externals} : Type := mk {
  Name : string; URLs : slice (option URL); Tags : slice string;
  Namespace : option DGateNamespace.t;
  DisableQueryParams : bool; Retries : Z; RetryTimeout : Duration;
  ConnectTimeout : Duration; RequestTimeout : Duration;
  TLSSkipVerify : bool; HTTP2Only : bool; HideDGateHeaders : bool }.
End DGateService.

Module DGateRoute.
Record t `{Externals} : Type := mk {
  Name : string; Paths : slice string; Methods : slice string;
  StripPath : bool; PreserveHost : bool;
  Service : option DGateService.t; Namespace : option DGateNamespace.t;
  Modules : slice (option DGateModule.t); Tags : slice string }.
End DGateRoute.

Module DGateDomain.
Record t : Type := mk {
  Name : string; CreatedAt : Time; UpdatedAt : Time;
  Namespace : option DGateNamespace.t; Patterns : slice string; Priority : Z;
  Cert : string; Key : string; Tags : slice string }.
End DGateDomain.

Module DGateCollection.
Record t `{Externals} : Type := mk {
  Name : string; Namespace : option DGateNamespace.t; Schema_ : option Schema;
  SchemaPayload : string; Type_ : CollectionType; Visibility : CollectionVisibility;
  Tags : slice string }.
End DGateCollection.

Module DGateDocument.
Record t `{Externals} : Type := mk {
  ID : string; CreatedAt : Time; UpdatedAt : Time;
  Namespace : option DGateNamespace.t; Collection : option DGateCollection.t;
  Data : string }.
End DGateDocument.

Module DGateSecret.
Record t : Type := mk {
  Name : string; CreatedAt : Time; UpdatedAt : Time;
  Namespace : option DGateNamespace.t; Data : string; Tags : slice string }.
End DGateSecret.

Module Namespace.
Record t : Type := mk { Name : string; Tags : slice string }.
End Namespace.

Module Service.
Record t : Type := mk {
  Name : string; URLs : slice string; NamespaceName : string;
  Retries : option Z; RetryTimeout : option Duration;
  ConnectTimeout : option Duration; RequestTimeout : option Duration;
  TLSSkipVerify : option bool; HTTP2Only : option bool;
  HideDGateHeaders : option bool; DisableQueryParams : option bool;
  Tags : slice string }.
End Service.

Module Route.
Record t : Type := mk {
  Name : string; Paths : slice string; Methods : slice string;
  PreserveHost : bool; StripPath : bool; ServiceName : string;
  NamespaceName : string; Modules : slice string; Tags : slice string }.
End Route.

Module Module_.
Record t : Type := mk {
  Name : string; NamespaceName : string; Payload : string;
  Type_ : ModuleType; Tags : slice string }.
End Module_.

Module Domain.
Record t : Type := mk {
  Name : string; NamespaceName : string; Patterns : slice string;
  Priority : Z; Cert : string; Key : string; Tags : slice string }.
End Domain.

Module Collection.
Record t `{Externals} : Type := mk {
  Name : string; NamespaceName : string; Schema : option JSON;
  Visibility : CollectionVisibility; Type_ : CollectionType; Tags : slice string }.
End Collection.

Module Document.
Record t `{Externals} : Type := mk {
  ID : string; CreatedAt : Time; UpdatedAt : Time; NamespaceName : string;
  CollectionName : string; Data : option JSON }.
End Document.

Module Secret.
Record t : Type := mk {
  Name : string; NamespaceName : string; Data : string; Tags : slice string }.
End Secret.

Definition DefaultNamespace : Namespace.t := Namespace.mk "default" (Some ["default"]).

Definition ErrNamespaceNotFound (ns : string) : error := "namespace not found: " +:+ ns.
Definition ErrCollectionNotFound (col : string) : error := "collection not found: " +:+ col.
Definition ErrDocumentNotFound (doc : string) : error := "document not found: " +:+ doc.
Definition ErrModuleNotFound (mod_ : string) : error := "module not found: " +:+ mod_.
Definition ErrServiceNotFound (svc : string) : error := "service not found: " +:+ svc.
Definition ErrRouteNotFound (route : string) : error := "route not found: " +:+ route.
Definition ErrDomainNotFound (domain : string) : error := "domain not found: " +:+ domain.
Definition ErrSecretNotFound (secret : string) : error := "secret not found: " +:+ secret.

(** ** Transformers, from the proxy's records to the clients' *)

Section transformers.
Context `{E : Externals}.

(** [p.f] for a pointer [p] *)
Definition deref {A B} (p : option A) (f : A → B) : outcome B :=
  match p with Some a => mret (f a) | None => Panics nil_deref end.

(** The loop of the variadic transformers. *)
Fixpoint transform_all {A B} (f : A → outcome B) (l : list A) : outcome (list B) :=
  match l with
  | [] => mret []
  | a :: l => b ← f a; bs ← transform_all f l; mret (b :: bs)
  end.

(** [sliceutil.SliceMapper] with a function that may panic. *)
Definition map_slice {A B} (f : A → outcome B) (s : slice A) : outcome (slice B) :=
  match s with None => mret None | Some l => bs ← transform_all f l; mret (Some bs) end.

Definition TransformDGateRoute (r : DGateRoute.t) : outcome Route.t :=
  let svcName := match DGateRoute.Service r with
                 | Some svc => DGateService.Name svc | None => "" end in
  match DGateRoute.Namespace r with
  | None => Panics "route namespace is nil"
  | Some ns =>
    modules ← match elems (DGateRoute.Modules r) with
              | [] => mret None
              | _ => map_slice (λ m, deref m DGateModule.Name) (DGateRoute.Modules r)
              end;
    mret (Route.mk (DGateRoute.Name r) (DGateRoute.Paths r) (DGateRoute.Methods r)
            (DGateRoute.PreserveHost r) (DGateRoute.StripPath r) svcName
            (DGateNamespace.Name ns) modules (DGateRoute.Tags r))
  end.
Definition TransformDGateRoutes : list DGateRoute.t → outcome (list Route.t) :=
  transform_all TransformDGateRoute.

Definition TransformDGateModule (m : DGateModule.t) : outcome Module_.t :=
  let payload := if String.eqb (DGateModule.Payload m) "" then ""
                 else EncodeToString (DGateModule.Payload m) in
  ns ← deref (DGateModule.Namespace m) DGateNamespace.Name;
  mret (Module_.mk (DGateModule.Name m) ns payload "" (DGateModule.Tags m)).
Definition TransformDGateModules : list DGateModule.t → outcome (list Module_.t) :=
  transform_all TransformDGateModule.

Definition TransformDGateService (s : option DGateService.t) : outcome (option Service.t) :=
  match s with
  | None => mret None
  | Some s =>
    ns ← deref (DGateService.Namespace s) DGateNamespace.Name;
    urls ← map_slice (λ u, deref u url_String) (DGateService.URLs s);
    mret (Some (Service.mk (DGateService.Name s) urls ns
      (Some (DGateService.Retries s)) (Some (DGateService.RetryTimeout s))
      (Some (DGateService.ConnectTimeout s)) (Some (DGateService.RequestTimeout s))
      (Some (DGateService.TLSSkipVerify s)) (Some (DGateService.HTTP2Only s))
      None None (DGateService.Tags s)))
  end.
Definition TransformDGateServices : list (option DGateService.t) → outcome (list (option Service.t)) :=
  transform_all TransformDGateService.

Definition TransformDGateNamespace (ns : DGateNamespace.t) : outcome Namespace.t :=
  mret (Namespace.mk (DGateNamespace.Name ns) (DGateNamespace.Tags ns)).
Definition TransformDGateNamespaces : list DGateNamespace.t → outcome (list Namespace.t) :=
  transform_all TransformDGateNamespace.

Definition TransformDGateDomain (dom : DGateDomain.t) : outcome Domain.t :=
  ns ← deref (DGateDomain.Namespace dom) DGateNamespace.Name;
  mret (Domain.mk (DGateDomain.Name dom) ns (DGateDomain.Patterns dom) 0
          (DGateDomain.Cert dom) (DGateDomain.Key dom) (DGateDomain.Tags dom)).
Definition TransformDGateDomains : list DGateDomain.t → outcome (list Domain.t) :=
  transform_all TransformDGateDomain.

(** A JSON text decoded into an [any], panicking on an error. *)
Definition decode_any (text : string) : outcome (option JSON) :=
  if String.eqb text "" then mret None
  else match json_Unmarshal text with Ok j => mret j | Err e => Panics e end.

Definition TransformDGateCollection (col : DGateCollection.t) : outcome Collection.t :=
  schema ← decode_any (DGateCollection.SchemaPayload col);
  ns ← deref (DGateCollection.Namespace col) DGateNamespace.Name;
  mret (Collection.mk _ (DGateCollection.Name col) ns schema
          (DGateCollection.Visibility col) "" (DGateCollection.Tags col)).
Definition TransformDGateCollections : list DGateCollection.t → outcome (list Collection.t) :=
  transform_all TransformDGateCollection.

Definition TransformDGateDocument (document : DGateDocument.t) : outcome Document.t :=
  payloadStruct ← decode_any (DGateDocument.Data document);
  ns ← deref (DGateDocument.Namespace document) DGateNamespace.Name;
  col ← deref (DGateDocument.Collection document) DGateCollection.Name;
  mret (Document.mk _ (DGateDocument.ID document) 0 0 ns col payloadStruct).
Definition TransformDGateDocuments : list DGateDocument.t → outcome (list Document.t) :=
  transform_all TransformDGateDocument.

Definition TransformDGateSecret (sec : DGateSecret.t) : outcome Secret.t :=
  ns ← deref (DGateSecret.Namespace sec) DGateNamespace.Name;
  mret (Secret.mk (DGateSecret.Name sec) ns "**redacted**" (DGateSecret.Tags sec)).
Definition TransformDGateSecrets : list DGateSecret.t → outcome (list Secret.t) :=
  transform_all TransformDGateSecret.

(** ** Transformers, from the clients' records to the proxy's *)

Definition zero_service (name : string) : DGateService.t :=
  DGateService.mk _ name None None None false 0 0 0 0 false false false.
Definition named_module (name : string) : DGateModule.t :=
  DGateModule.mk name None "" "" None.

Definition TransformRoute (r : Route.t) : DGateRoute.t :=
  let svc := zero_service (if String.eqb (Route.ServiceName r) "" then ""
                           else Route.ServiceName r) in
  DGateRoute.mk _ (Route.Name r) (Route.Paths r) (Route.Methods r) (Route.StripPath r)
    (Route.PreserveHost r) (Some svc) (Some (DGateNamespace.mk (Route.NamespaceName r) None))
    (SliceMapper (Route.Modules r) (λ m, Some (named_module m))) (Route.Tags r).
Definition TransformRoutes (routes : list Route.t) : list DGateRoute.t :=
  TransformRoute <$> routes.

Definition TransformModule (ns : option DGateNamespace.t) (m : Module_.t) : gores DGateModule.t :=
  match StdDecodeString (Module_.Payload m) with
  | Err err => Err err
  | Ok payload =>
    Ok (DGateModule.mk (Module_.Name m) ns payload (Module_.Type_ m) (Module_.Tags m))
  end.
Definition TransformModules (ns : option DGateNamespace.t) (modules : list Module_.t)
    : outcome (gores (list DGateModule.t)) :=
  mods ← transform_all (λ m, match TransformModule ns m with
                             | Ok md => mret md | Err err => Panics err end) modules;
  mret (Ok mods).

Definition or {T} (v : option T) (def : T) : T :=
  match v with None => def | Some v => v end.

Definition TransformService (ns : option DGateNamespace.t) (s : Service.t) : DGateService.t :=
  DGateService.mk _ (Service.Name s)
    (SliceMapper (Service.URLs s)
      (λ u, match url_Parse u with Ok url => Some url | Err _ => None end))
    (Service.Tags s) ns false (or (Service.Retries s) 3) (or (Service.RetryTimeout s) 0)
    (or (Service.ConnectTimeout s) 0) (or (Service.RequestTimeout s) 0)
    (or (Service.TLSSkipVerify s) false) (or (Service.HTTP2Only s) false) false.
Definition TransformServices (ns : option DGateNamespace.t) (services : list Service.t)
    : list DGateService.t := TransformService ns <$> services.

Definition TransformNamespace (ns : Namespace.t) : DGateNamespace.t :=
  DGateNamespace.mk (Namespace.Name ns) (Namespace.Tags ns).
Definition TransformNamespaces (nss : list Namespace.t) : list DGateNamespace.t :=
  TransformNamespace <$> nss.

Definition TransformDomain (ns : option DGateNamespace.t) (dom : Domain.t) : DGateDomain.t :=
  DGateDomain.mk (Domain.Name dom) 0 0 ns (Domain.Patterns dom) 0 (Domain.Cert dom)
    (Domain.Key dom) (Domain.Tags dom).
Definition TransformDomains (ns : option DGateNamespace.t) (domains : list Domain.t)
    : list DGateDomain.t := TransformDomain ns <$> domains.

(** [MustCompileString] panics with the compiler's message, which is not
    modelled. *)
Definition TransformCollection (ns : option DGateNamespace.t) (col : Collection.t)
    : outcome DGateCollection.t :=
  '(schema, schemaData) ←
    match Collection.Schema col with
    | None => mret (None, "")
    | Some j =>
      match json_Marshal j with
      | Err err => Panics err
      | Ok schemaData =>
        match schema_Unmarshal schemaData with
        | Some err => Panics err
        | None =>
          match schema_Compile (Collection.Name col +:+ ".json") schemaData with
          | Some schema => mret (Some schema, schemaData)
          | None => Panics "jsonschema"
          end
        end
      end
    end;
  mret (DGateCollection.mk _ (Collection.Name col) ns schema schemaData ""
          (Collection.Visibility col) (Collection.Tags col)).
Definition TransformCollections (ns : option DGateNamespace.t) (collections : list Collection.t)
    : outcome (list DGateCollection.t) := transform_all (TransformCollection ns) collections.

Definition TransformDocument (ns : option DGateNamespace.t) (col : option DGateCollection.t)
    (document : Document.t) : outcome DGateDocument.t :=
  payload ← match Document.Data document with
            | None => mret ""
            | Some j => match json_Marshal j with Ok b => mret b | Err err => Panics err end
            end;
  mret (DGateDocument.mk _ (Document.ID document) 0 0 ns col payload).
Definition TransformDocuments (ns : option DGateNamespace.t) (col : option DGateCollection.t)
    (documents : list Document.t) : outcome (list DGateDocument.t) :=
  transform_all (TransformDocument ns col) documents.

Definition TransformSecret (ns : option DGateNamespace.t) (secret : Secret.t)
    : gores DGateSecret.t :=
  match (if String.eqb (Secret.Data secret) "" then Ok ""
         else RawStdDecodeString (Secret.Data secret)) with
  | Err err => Err err
  | Ok payload =>
    Ok (DGateSecret.mk (Secret.Name secret) 0 0 ns payload (Secret.Tags secret))
  end.
Definition TransformSecrets (ns : option DGateNamespace.t) (secrets : list Secret.t)
    : gores (list DGateSecret.t) := mapper_loop secrets (TransformSecret ns).

End transformers.

(** ** The response tracker (response_writer_tracker.go)

    The wrapped [http.ResponseWriter] is a parameter with state [W]: its
    [Write] answers the count written and the error. *)
Module Tracker.
Section tracker.
Context {W : Type} (rw_Write : string → W → (Z * option error) * W)
        (rw_WriteHeader : Z → W → W).

Record rwTracker : Type := MkTracker { rw : W; status : Z; bytesWritten : Z }.

(** On a writer that is no tracker yet; a tracker is returned as it is. *)
Definition NewResponseWriterTracker (w : W) : rwTracker := MkTracker w 0 0.

Definition HeadersSent (t : rwTracker) : bool := negb (status t =? 0).

Definition WriteHeader (t : rwTracker) (statusCode : Z) : outcome rwTracker :=
  if statusCode =? 0 then Panics "rwTracker.WriteHeader: statusCode cannot be 0"
  else mret (MkTracker (rw_WriteHeader statusCode (rw t)) statusCode (bytesWritten t)).

Definition StatusOK : Z := 200.

Definition Write (t : rwTracker) (b : string) : outcome ((Z * option error) * rwTracker) :=
  t ← (if negb (HeadersSent t) then WriteHeader t StatusOK else mret t);
  let '((n, err), w) := rw_Write b (rw t) in
  mret ((n, err), MkTracker w (status t) (bytesWritten t + n)).

Definition Status (t : rwTracker) : Z := status t.
Definition BytesWritten (t : rwTracker) : Z := bytesWritten t.

(** A handler's calls in sequence. *)
Inductive call := CallWrite (b : string) | CallWriteHeader (code : Z).
Definition do_call (t : rwTracker) (c : call) : outcome rwTracker :=
  match c with
  | CallWrite b => '(_, t) ← Write t b; mret t
  | CallWriteHeader code => WriteHeader t code
  end.
Fixpoint do_calls (t : rwTracker) (cs : list call) : outcome rwTracker :=
  match cs with
  | [] => mret t
  | c :: cs => t ← do_call t c; do_calls t cs
  end.

End tracker.
End Tracker.

(** ** Claims: commands *)

Definition all_resources : list Resource :=
  [Routes; Services; Namespaces; Modules; Domains; Collections; Documents; Secrets].
Definition all_actions : list Action := [Add; Delete].

(** every command of the sixteen reads back as the action and the
    resource it was made of, so no two of them are equal; a command that
    both readers accept and is not the no-op starts with its action and ends
    with its resource. *)
Theorem Command_roundtrip :
  (∀ a r, a ∈ all_actions → r ∈ all_resources →
     Command_Action (newCommand a r) = Returns a ∧
     Command_Resource (newCommand a r) = Returns r) ∧
  (∀ c a r, Command_Action c = Returns a → Command_Resource c = Returns r → IsNoop c = false →
     a ∈ all_actions ∧ r ∈ all_resources ∧
     HasPrefix c (a +:+ "_") = true ∧ HasSuffix c ("_" +:+ r) = true).
Proof.
  split.
  - intros a r Ha Hr.
    repeat (apply elem_of_cons in Ha as [->|Ha]); [..|by apply elem_of_nil in Ha];
    repeat (apply elem_of_cons in Hr as [->|Hr]); (by apply elem_of_nil in Hr) || done.
  - unfold Command_Action, Command_Resource, all_resources, all_actions.
    intros c a r Ha Hr Hn. rewrite Hn in Ha, Hr. clear Hn. split_and!.
    + repeat case_match; simplify_eq/=; run_eq; repeat constructor.
    + clear Ha. repeat case_match; simplify_eq/=; run_eq; rewrite !elem_of_cons; tauto.
    + clear Hr. repeat case_match; simplify_eq/=; run_eq; done.
    + clear Ha. repeat case_match; simplify_eq/=; run_eq; done.
Qed.

(** The dependencies between resources that the change stream follows. *)
Definition depends (r1 r2 : Resource) : Prop :=
  (r1 = Routes ∧ (r2 = Services ∨ r2 = Modules)) ∨
  (r1 = Documents ∧ r2 = Collections) ∨
  (r2 = Namespaces ∧ r1 ≠ Documents).

Definition dependsb (r1 r2 : Resource) : bool :=
  String.eqb r1 Routes && (String.eqb r2 Services || String.eqb r2 Modules) ||
  (String.eqb r1 Documents && String.eqb r2 Collections ||
   String.eqb r2 Namespaces && negb (String.eqb r1 Documents)).

Lemma dependsb_true r1 r2 : dependsb r1 r2 = true ↔ depends r1 r2.
Proof.
  unfold dependsb, depends.
  rewrite !orb_true_iff, !andb_true_iff, !orb_true_iff, negb_true_iff, String.eqb_neq.
  by rewrite !String.eqb_eq.
Qed.

(** [IsRelatedTo] is the reflexive and symmetric closure of the
    dependency relation. *)
Theorem IsRelatedTo_correct (r1 r2 : Resource) :
  IsRelatedTo r1 r2 = true ↔ r1 = r2 ∨ depends r1 r2 ∨ depends r2 r1.
Proof.
  rewrite <-!dependsb_true, <-String.eqb_eq, <-!orb_true_iff.
  enough (IsRelatedTo r1 r2 = String.eqb r1 r2 || (dependsb r1 r2 || dependsb r2 r1)) as ->
    by done.
  unfold IsRelatedTo, dependsb. destruct (String.eqb_spec r1 r2) as [|Hne]; [done|].
  repeat match goal with
  | |- context [String.eqb r1 ?b] => destruct (String.eqb_spec r1 b) as [->|?]
  | |- context [String.eqb r2 ?b] => destruct (String.eqb_spec r2 b) as [->|?]
  end; done.
Qed.

(** ** Claims: transformers *)

Section roundtrips.
Context `{E : Externals}.

Lemma transform_all_ok {A B} (f : A → outcome B) (g : A → B) l :
  Forall (λ a, f a = Returns (g a)) l → transform_all f l = Returns (g <$> l).
Proof. induction 1 as [|a l Ha _ IH]; [done|]. simpl. rewrite Ha, IH. done. Qed.

Lemma map_slice_ok {A B} (f : A → outcome B) (g : A → B) s :
  Forall (λ a, f a = Returns (g a)) (elems s) → map_slice f s = Returns (fmap (M:=option) (fmap (M:=list) g) s).
Proof. destruct s as [l|]; [|done]. simpl. intros Hl. by rewrite (transform_all_ok f g). Qed.

Lemma SliceMapper_fmap {A B} (f : A → B) (s : slice A) : SliceMapper s f = fmap (M:=option) (fmap (M:=list) f) s.
Proof. destruct s as [l|]; [|done]. by rewrite SliceMapper_ok. Qed.

Definition url_text (u : option URL) : string :=
  match u with Some u => url_String u | None => "" end.

(** a service sent to a client and read back is the same service with
    DisableQueryParams and HideDGateHeaders forgotten: neither translation
    carries the two fields. *)
Theorem Service_roundtrip (s : DGateService.t) (ns : DGateNamespace.t)
    (Hns : DGateService.Namespace s = Some ns)
    (Hurls : Forall (λ u, ∃ url, u = Some url ∧ url_Parse (url_String url) = Ok url)
               (elems (DGateService.URLs s))) :
  ∃ x, TransformDGateService (Some s) = Returns (Some x) ∧
    Service.HideDGateHeaders x = None ∧ Service.DisableQueryParams x = None ∧
    TransformService (Some ns) x =
      DGateService.mk _ (DGateService.Name s) (DGateService.URLs s) (DGateService.Tags s)
        (DGateService.Namespace s) false (DGateService.Retries s)
        (DGateService.RetryTimeout s) (DGateService.ConnectTimeout s)
        (DGateService.RequestTimeout s) (DGateService.TLSSkipVerify s)
        (DGateService.HTTP2Only s) false.
Proof.
  unfold TransformDGateService. rewrite Hns. cbn [deref]. run.
  rewrite (map_slice_ok _ url_text).
  2:{ eapply Forall_impl; [exact Hurls|]. by intros u (url & -> & _). }
  run. eexists. split_and!; [done..|]. unfold TransformService. cbn. f_equal.
  rewrite SliceMapper_fmap. destruct (DGateService.URLs s) as [l|]; [|done].
  cbn in *. f_equal. induction Hurls as [|u l (url & -> & Hu) _ IH]; [done|].
  cbn. rewrite Hu. f_equal. done.
Qed.

(** a module sent to a client and read back keeps its payload byte for
    byte, through base64, and loses its type. *)
Theorem Module_roundtrip (m : DGateModule.t) (ns : DGateNamespace.t)
    (Hns : DGateModule.Namespace m = Some ns) :
  ∃ x, TransformDGateModule m = Returns x ∧
    TransformModule (Some ns) x =
      Ok (DGateModule.mk (DGateModule.Name m) (DGateModule.Namespace m)
            (DGateModule.Payload m) "" (DGateModule.Tags m)).
Proof.
  unfold TransformDGateModule. rewrite Hns. cbn [deref]. run. eexists. split; [done|].
  unfold TransformModule. cbn.
  destruct (String.eqb_spec (DGateModule.Payload m) "") as [->|_]; [done|].
  by rewrite StdDecode_encode.
Qed.

(** the record of a domain that a client receives holds the certificate
    and the private key as stored, and priority 0 whatever the domain's. *)
Theorem Domain_exposes_key (dom : DGateDomain.t) (ns : DGateNamespace.t)
    (Hns : DGateDomain.Namespace dom = Some ns) :
  ∃ x, TransformDGateDomain dom = Returns x ∧
    Domain.Cert x = DGateDomain.Cert dom ∧ Domain.Key x = DGateDomain.Key dom ∧
    Domain.Priority x = 0 ∧
    TransformDomain (Some ns) x =
      DGateDomain.mk (DGateDomain.Name dom) 0 0 (DGateDomain.Namespace dom)
        (DGateDomain.Patterns dom) 0 (DGateDomain.Cert dom) (DGateDomain.Key dom)
        (DGateDomain.Tags dom).
Proof.
  unfold TransformDGateDomain. rewrite Hns. cbn [deref]. run. eexists. split; [done|].
  unfold TransformDomain. cbn. done.
Qed.

(** Two secrets that differ in their data and times only. *)
Definition same_but_data (s1 s2 : DGateSecret.t) : Prop :=
  DGateSecret.Name s1 = DGateSecret.Name s2 ∧
  DGateSecret.Namespace s1 = DGateSecret.Namespace s2 ∧
  DGateSecret.Tags s1 = DGateSecret.Tags s2.

(** what a client receives of a secret does not depend on its data, and
    is refused when it is sent back. *)
Theorem Secret_redacted (s1 s2 : DGateSecret.t) (Hsame : same_but_data s1 s2) :
  TransformDGateSecret s1 = TransformDGateSecret s2 ∧
  ∀ x ns, TransformDGateSecret s1 = Returns x →
    TransformSecret ns x = Err CorruptInputError.
Proof.
  destruct Hsame as (Hn & Hns & Ht). unfold TransformDGateSecret.
  rewrite Hn, Hns, Ht. split; [done|]. intros x ns.
  destruct (DGateSecret.Namespace s2); cbn [deref]; run; [|done]. intros [= <-]. done.
Qed.

(** with a JSON codec that decodes what it encodes, a document and a
    collection's schema survive the way in and out; a document without data
    stays without. *)
Theorem Document_roundtrip (ns : DGateNamespace.t) (col : DGateCollection.t) (d : Document.t)
    (Hjson : ∀ j, Document.Data d = Some j → ∃ text, json_Marshal j = Ok text ∧
       text ≠ "" ∧ json_Unmarshal text = Ok (Some j)) :
  ∃ x, TransformDocument (Some ns) (Some col) d = Returns x ∧
    TransformDGateDocument x =
      Returns (Document.mk _ (Document.ID d) 0 0 (DGateNamespace.Name ns)
                 (DGateCollection.Name col) (Document.Data d)).
Proof.
  unfold TransformDocument. destruct (Document.Data d) as [j|] eqn:Hd.
  - destruct (Hjson j eq_refl) as (text & Hm & Hne & Hu). rewrite Hm. run. eexists.
    split; [done|]. unfold TransformDGateDocument, decode_any. cbn.
    rewrite (proj2 (String.eqb_neq _ _) Hne), Hu. done.
  - run. eexists. split; [done|]. done.
Qed.

End roundtrips.

(** ** Claims: the tracker *)

Section tracker_claims.
Import Tracker.

(** What the wrapped writer sees. *)
Inductive event := EHeader (code : Z) | EWrite (b : string).
Context (answer : list event → string → Z * option error).

Definition log_Write (b : string) (w : list event) : (Z * option error) * list event :=
  (answer w b, w ++ [EWrite b]).
Definition log_WriteHeader (code : Z) (w : list event) : list event := w ++ [EHeader code].

(** The code of the last header, 0 before any. *)
Definition last_header (w : list event) : Z :=
  foldl (λ c e, match e with EHeader code => code | EWrite _ => c end) 0 w.
(** The counts the writer answered, in sequence. *)
Definition written (w : list event) : Z :=
  (foldl (λ '(past, n) e, (past ++ [e], match e with
     | EHeader _ => n | EWrite b => n + (answer past b).1 end)) ([], 0) w).2.

Definition headers_first (w : list event) : Prop :=
  match w with EWrite _ :: _ => False | _ => True end.

Definition tracks (t : rwTracker) : Prop :=
  headers_first (rw t) ∧ (rw t = [] → status t = 0) ∧ status t = last_header (rw t) ∧
  (rw t ≠ [] → status t ≠ 0) ∧ bytesWritten t = written (rw t).

Lemma written_past w p n :
  foldl (λ '(past, n) e, (past ++ [e], match e with
     | EHeader _ => n | EWrite b => n + (answer past b).1 end)) (p, n) w =
  (p ++ w, n + (foldl (λ '(past, n) e, (past ++ [e], match e with
     | EHeader _ => n | EWrite b => n + (answer past b).1 end)) (p, 0) w).2).
Proof.
  revert p n. induction w as [|e w IH]; intros p n; cbn [foldl].
  - rewrite app_nil_r. f_equal. simpl. lia.
  - rewrite IH, <-app_assoc. cbn [app]. f_equal. destruct e; [done|].
    rewrite (IH _ (0 + _)). simpl. lia.
Qed.

Lemma written_snoc w e : written (w ++ [e]) =
  written w + match e with EHeader _ => 0 | EWrite b => (answer w b).1 end.
Proof.
  unfold written. rewrite foldl_app. rewrite (written_past w [] 0). cbn. destruct e; lia.
Qed.

Lemma tracks_header t code : code ≠ 0 → tracks t →
  tracks (MkTracker (log_WriteHeader code (rw t)) code (bytesWritten t)).
Proof.
  intros Hc (H1 & H2 & H3 & H4 & H5). unfold log_WriteHeader. split_and!; cbn.
  - by destruct (rw t).
  - by destruct (rw t).
  - unfold last_header. by rewrite foldl_app.
  - done.
  - rewrite written_snoc. lia.
Qed.

Lemma tracks_write t b : status t ≠ 0 → tracks t →
  tracks (MkTracker (rw t ++ [EWrite b]) (status t) (bytesWritten t + (answer (rw t) b).1)).
Proof.
  intros Hs (H1 & H2 & H3 & H4 & H5). split_and!; cbn.
  - destruct (rw t); [by rewrite H2 in Hs|done].
  - by destruct (rw t).
  - unfold last_header. rewrite foldl_app. done.
  - done.
  - rewrite written_snoc. lia.
Qed.

(** under any calls a handler makes with non-zero codes, the tracker
    never panics, sends a header before the first byte, remembers the last
    code sent and the sum of the counts written. *)
Theorem Tracker_headers_first (cs : list call)
    (Hcs : Forall (λ c, match c with CallWriteHeader code => code ≠ 0 | _ => True end) cs) :
  ∃ t, do_calls log_Write log_WriteHeader (NewResponseWriterTracker []) cs = Returns t ∧
    headers_first (rw t) ∧ Status t = last_header (rw t) ∧
    (HeadersSent t = true ↔ rw t ≠ []) ∧ BytesWritten t = written (rw t).
Proof.
  assert (H0 : tracks (NewResponseWriterTracker [])) by by split_and!.
  revert H0. generalize (NewResponseWriterTracker ([] : list event)).
  induction Hcs as [|c cs Hc _ IH]; intros t Ht; cbn [do_calls].
  - exists t. split; [done|]. destruct Ht as (H1 & H2 & H3 & H4 & H5). split_and!; try done.
    unfold HeadersSent. destruct (Z.eqb_spec (status t) 0); split; try done; intros; [|auto].
    exfalso. by apply H4.
  - destruct c as [b|code]; cbn [do_call].
    + unfold Write, HeadersSent. destruct (Z.eqb_spec (status t) 0) as [Hs|Hs]; cbn [negb].
      * unfold WriteHeader. cbn. run. cbn.
        pose proof (tracks_header t 200 ltac:(done) Ht) as Ht1.
        apply (tracks_write _ b) in Ht1 as Ht2; [|done]. cbn in Ht2.
        unfold log_Write. destruct (answer _ b) as [n err] eqn:Ea. cbn in *.
        by apply IH.
      * run. unfold log_Write. pose proof (tracks_write t b Hs Ht) as Ht2.
        destruct (answer _ b) as [n err] eqn:Ea. cbn in *. by apply IH.
    + unfold WriteHeader. rewrite (proj2 (Z.eqb_neq _ _) Hc). run. apply IH.
      by apply tracks_header.
Qed.

End tracker_claims.

(** ** Witnesses *)

(** A codec that keeps texts as they are. *)
Definition text_externals : Externals := {|
  JSON := string; URL := string; Schema := string;
  json_Marshal j := Ok j; json_Unmarshal t := Ok (Some t);
  schema_Unmarshal _ := None; url_Parse u := Ok u; url_String u := u;
  schema_Compile _ t := Some t |}.

Definition sample_ns : DGateNamespace.t := DGateNamespace.mk "default" (Some ["default"]).
Definition sample_service : @DGateService.t text_externals :=
  DGateService.mk text_externals "svc" (Some [Some "http://localhost:8080"]) None
    (Some sample_ns) true 2 1000 2000 3000 false false true.

Lemma Service_roundtrip_witness :
  DGateService.Namespace sample_service = Some sample_ns ∧
  ∃ x, TransformDGateService (Some sample_service) = Returns (Some x) ∧
    Service.HideDGateHeaders x = None.
Proof.
  split; [done|].
  destruct (Service_roundtrip (E := text_externals) sample_service sample_ns)
    as (x & H1 & H2 & _).
  - reflexivity.
  - repeat constructor. exists "http://localhost:8080". done.
  - by exists x.
Defined.

Lemma Module_roundtrip_witness :
  ∃ x, TransformDGateModule (DGateModule.mk "m" (Some sample_ns) "export {}" "typescript" None)
         = Returns x ∧
    TransformModule (Some sample_ns) x =
      Ok (DGateModule.mk "m" (Some sample_ns) "export {}" "" None).
Proof.
  apply (Module_roundtrip (DGateModule.mk "m" (Some sample_ns) "export {}" "typescript" None)).
  reflexivity.
Defined.

Lemma Domain_exposes_key_witness :
  ∃ x, TransformDGateDomain
         (DGateDomain.mk "d" 0 0 (Some sample_ns) None 7 "CERT" "KEY" None) = Returns x ∧
    Domain.Cert x = "CERT" ∧ Domain.Key x = "KEY" ∧ Domain.Priority x = 0.
Proof.
  destruct (Domain_exposes_key (DGateDomain.mk "d" 0 0 (Some sample_ns) None 7 "CERT" "KEY" None)
    sample_ns) as (x & H1 & H2 & H3 & H4 & _); [reflexivity|]. by exists x.
Defined.

Lemma Secret_redacted_witness :
  same_but_data (DGateSecret.mk "s" 0 0 (Some sample_ns) "a" None)
    (DGateSecret.mk "s" 0 0 (Some sample_ns) "b" None) ∧
  TransformDGateSecret (DGateSecret.mk "s" 0 0 (Some sample_ns) "a" None) =
  TransformDGateSecret (DGateSecret.mk "s" 0 0 (Some sample_ns) "b" None).
Proof.
  split; [done|].
  apply (Secret_redacted (DGateSecret.mk "s" 0 0 (Some sample_ns) "a" None)
    (DGateSecret.mk "s" 0 0 (Some sample_ns) "b" None)). done.
Defined.

Definition sample_collection : @DGateCollection.t text_externals :=
  DGateCollection.mk text_externals "c" (Some sample_ns) None "" "" "public" None.

Lemma Document_roundtrip_witness :
  ∃ x, TransformDocument (Some sample_ns) (Some sample_collection)
         (Document.mk text_externals "d1" 0 0 "default" "c" (Some "{}")) = Returns x ∧
    TransformDGateDocument x =
      Returns (Document.mk text_externals "d1" 0 0 "default" "c" (Some "{}")).
Proof.
  apply (Document_roundtrip sample_ns sample_collection
    (Document.mk text_externals "d1" 0 0 "default" "c" (Some "{}"))).
  intros j [= <-]. by exists "{}".
Defined.

Lemma Tracker_headers_first_witness :
  ∃ t, Tracker.do_calls (log_Write (λ _ b, (len b, None))) log_WriteHeader
         (Tracker.NewResponseWriterTracker [])
         [Tracker.CallWrite "hello"; Tracker.CallWriteHeader 404] = Returns t ∧
    headers_first (Tracker.rw t).
Proof.
  destruct (Tracker_headers_first (λ _ b, (len b, None))
    [Tracker.CallWrite "hello"; Tracker.CallWriteHeader 404]) as (t & H1 & H2 & _).
  - by repeat constructor.
  - by exists t.
Defined.
