(* ===== verification/Linker.v ===== *)
(** * pkg/util/linker and pkg/util/safe: named vertices and their edges

    The vertices live in a store, since the code shares them: a [Linker] is
    a location, 0 the nil interface.  An edge name leads to an AVL tree from
    keys to vertices.  [Ref] is the cell of the vertex' item: [Item] reads a
    copy, [Replace] stores one, and nobody keeps the cell's address, so the
    cell is a field.  [Clone] and the JSON methods, which nothing in the
    program calls, are left out; keys are strings, as everywhere in it. *)
From Stdlib Require Import ZArith Lia.
From stdpp Require Import base gmap strings list fin_maps.
From S2P Require Import Prelude Avl.

Abbreviation loc := N.
#[export] Instance zero_loc : GoZero loc := 0%N.
(** The nil [Linker]. *)
Definition nil : loc := 0%N.

Definition one_edge : string :=
  "this function should not be called on a vertex with more than one edge per name".
Definition no_name (name : string) : string :=
  "name not found for this vertex: " +:+ name.

(** ** The code *)

Record Link (I : Type) : Type := MkLink { item : I; edges : list (string * tree string loc) }.
Arguments MkLink {I} item edges.
Arguments item {I} l.
Arguments edges {I} l.
Abbreviation store I := (gmap loc (Link I)).

Section code.
Context {I : Type}.

(** A dereference of a [Linker]. *)
Definition load (nl : loc) : ST (store I) (Link I) := λ g,
  match g !! nl with Some v => Returns (v, g) | None => Panics nil_deref end.
Definition store_at (nl : loc) (v : Link I) : ST (store I) unit := λ g,
  Returns (tt, <[nl := v]> g).

Definition NewNamedVertexWithValue (it : I) (names : list string) : ST (store I) loc := λ g,
  let l := fresh ({[nil]} ∪ dom g : gset loc) in
  Returns (l, <[l := MkLink it ((λ name, (name, NewTree)) <$> names)]> g).

Definition Item (nl : loc) : ST (store I) I := v ← load nl; mret (item v).
Definition SetItem (nl : loc) (it : I) : ST (store I) unit :=
  v ← load nl; store_at nl (MkLink it (edges v)).

(** [for _, edge := range nl.edges { if edge.key == name {...} }]: the first
    edge of that name. *)
Fixpoint edge_named (es : list (string * tree string loc)) (name : string)
    : option (tree string loc) :=
  match es with
  | [] => None
  | (key, val) :: es => if String.eqb key name then Some val else edge_named es name
  end.
Fixpoint set_edge (es : list (string * tree string loc)) (name : string)
    (t : tree string loc) : list (string * tree string loc) :=
  match es with
  | [] => []
  | (key, val) :: es =>
    if String.eqb key name then (key, t) :: es else (key, val) :: set_edge es name t
  end.

(** Replace the tree of an edge of [nl]. *)
Definition put_edge (nl : loc) (name : string) (t : tree string loc) : ST (store I) unit :=
  v ← load nl; store_at nl (MkLink (item v) (set_edge (edges v) name t)).

(** The edge, or the panic after the loop. *)
Definition need_edge (nl : loc) (name : string) : ST (store I) (tree string loc) :=
  v ← load nl;
  match edge_named (edges v) name with
  | Some t => mret t
  | None => st_panic (no_name name)
  end.

(** [edge.val.Each] with a counter that stops above two. *)
Definition count_to_three (t : tree string loc) : outcome Z :=
  match Each t (λ _ _, count ← st_get; _ ← st_put (count + 1); mret (count + 1 <=? 2)) 0 with
  | Returns (_, count) => Returns count
  | Panics e => Panics e
  end.

Definition Get (nl : loc) (name : string) : ST (store I) loc :=
  v ← load nl;
  match edge_named (edges v) name with
  | None => mret nil
  | Some t =>
    if negb (Empty t) then
      count ← st_lift (count_to_three t);
      let '(_, lk, ok) := RootKeyValue t in
      if (ok : bool) && (count =? 1) then mret lk else st_panic one_edge
    else mret nil
  end.

Definition Len (nl : loc) (name : string) : ST (store I) Z :=
  v ← load nl;
  match edge_named (edges v) name with
  | Some t => mret (Length t)
  | None => mret 0
  end.

Definition Find (nl : loc) (name key : string) : ST (store I) (loc * bool) :=
  v ← load nl;
  match edge_named (edges v) name with
  | Some t => mret (Avl.Find t key)
  | None => mret (nil, false)
  end.

Definition LinkOneMany (nl : loc) (name key : string) (vtx : loc) : ST (store I) unit :=
  t ← need_edge nl name;
  '(t, _) ← st_lift (Insert t key vtx);
  put_edge nl name t.

Definition UnlinkOneMany (nl : loc) (name key : string) : ST (store I) (loc * bool) :=
  t ← need_edge nl name;
  '(t, r) ← st_lift (Pop t key);
  _ ← put_edge nl name t; mret r.

Definition UnlinkAllOneMany (nl : loc) (name : string) : ST (store I) (list loc) :=
  t ← need_edge nl name;
  '(_, removed) ← st_lift
     (Each t (λ _ val, removed ← st_get; _ ← st_put (removed ++ [val]); mret true) []);
  _ ← put_edge nl name (Clear t); mret removed.

Definition LinkOneOne (nl : loc) (name key : string) (vertex : loc) : ST (store I) unit :=
  t ← need_edge nl name;
  '(t, _) ← st_lift (Insert t key vertex);
  _ ← put_edge nl name t;
  if 1 <? Length t then st_panic one_edge else mret tt.

Definition UnlinkOneOneByKey (nl : loc) (name key : string) : ST (store I) (loc * bool) :=
  t ← need_edge nl name;
  '(t, r) ← st_lift (Pop t key);
  _ ← put_edge nl name t; mret r.

Definition UnlinkOneOne (nl : loc) (name : string) : ST (store I) (loc * bool) :=
  t ← need_edge nl name;
  let '(_, link, ok) := RootKeyValue t in
  _ ← (if (ok : bool) then put_edge nl name (Clear t) else mret tt);
  mret (link, ok).

End code.

(** [Linker.Each]: the callback runs in a state [S] that holds the store
    ([get_edge] finds the edge there); the callbacks of the program do not
    change the tree they iterate over. *)
Definition Each_edge {S} (need : ST S (tree string loc)) (fn : string → loc → ST S unit)
    : ST S unit :=
  t ← need; Avl.Each t (λ key vertex, _ ← fn key vertex; mret true).

(** ** The labelled graph that a store denotes *)

Section spec.
Context {I : Type}.
Implicit Types (g : store I) (v : Link I) (l x : loc) (name key : string).

(** A vertex: its item, and its edges as finite maps. *)
Record avertex : Type := AVertex { aitem : I; aedges : gmap string (gmap string loc) }.

Fixpoint abs_edges (es : list (string * tree string loc)) : gmap string (gmap string loc) :=
  match es with [] => ∅ | (key, t) :: es => <[key := tree_map t]> (abs_edges es) end.
Definition abs_link v : avertex := AVertex (item v) (abs_edges (edges v)).
Definition abs g : gmap loc avertex := abs_link <$> g.

Definition link_wf v : Prop := Forall (λ e, tree_wf e.2) (edges v).
Definition store_wf g : Prop := g !! nil = None ∧ map_Forall (λ _, link_wf) g.

(** Neighbours of [l] by the edge [name]. *)
Definition nbrs (a : gmap loc avertex) l name : option (gmap string loc) :=
  av ← a !! l; aedges av !! name.

(** Replacing them. *)
Definition set_nbrs (a : gmap loc avertex) l name (m : gmap string loc) : gmap loc avertex :=
  alter (λ av, AVertex (aitem av) (<[name := m]> (aedges av))) l a.

(** *** Lemmas on the edge lists *)

Lemma abs_edges_named es name :
  abs_edges es !! name = tree_map <$> edge_named es name.
Proof.
  induction es as [|[k t] es IH]; [done|]. cbn [abs_edges edge_named].
  destruct (String.eqb_spec k name) as [->|Hne].
  - by rewrite lookup_insert_eq.
  - by rewrite lookup_insert_ne.
Qed.

Lemma abs_set_edge es name t t' : edge_named es name = Some t' →
  abs_edges (set_edge es name t) = <[name := tree_map t]> (abs_edges es).
Proof.
  induction es as [|[k t0] es IH]; [done|]. cbn [edge_named set_edge].
  destruct (String.eqb_spec k name) as [->|Hne]; intros Ht; cbn [abs_edges].
  - by rewrite insert_insert_eq.
  - rewrite IH by done. by rewrite insert_insert_ne.
Qed.

Lemma edge_named_wf es name t :
  Forall (λ e : string * tree string loc, tree_wf e.2) es → edge_named es name = Some t → tree_wf t.
Proof.
  induction 1 as [|[k t0] es Ht _ IH]; [done|]. cbn [edge_named].
  destruct (String.eqb k name); [|done]. by intros [= <-].
Qed.

Lemma set_edge_wf es name t :
  Forall (λ e : string * tree string loc, tree_wf e.2) es → tree_wf t →
  Forall (λ e, tree_wf e.2) (set_edge es name t).
Proof.
  intros Hes Ht. induction Hes as [|[k t0] es Ht0 Hes IH]; [constructor|]. cbn [set_edge].
  destruct (String.eqb k name); by constructor.
Qed.

(** *** Reading and writing one edge *)

Lemma nbrs_inv g l name m : store_wf g → nbrs (abs g) l name = Some m →
  ∃ v t, g !! l = Some v ∧ edge_named (edges v) name = Some t ∧ tree_wf t ∧ tree_map t = m.
Proof.
  intros [_ Hg] Hm. unfold nbrs, abs in Hm. rewrite lookup_fmap in Hm.
  destruct (g !! l) as [v|] eqn:Hl; cbn in Hm; [|done].
  rewrite abs_edges_named in Hm.
  destruct (edge_named (edges v) name) as [t|] eqn:Ht; simplify_eq/=.
  exists v, t. do 2 (split; [done|]). split; [|done]. eapply edge_named_wf; [|done]. by apply (Hg l).
Qed.

Lemma need_edge_ok g l name m : store_wf g → nbrs (abs g) l name = Some m →
  ∃ t, need_edge l name g = Returns (t, g) ∧ tree_wf t ∧ tree_map t = m.
Proof.
  intros Hg Hm. destruct (nbrs_inv g l name m Hg Hm) as (v & t & Hl & Ht & Hwf & Hmap).
  exists t. split; [|done]. unfold need_edge, load. st. rewrite Hl. by st; rewrite Ht.
Qed.

Lemma put_edge_ok g l name m t : store_wf g → nbrs (abs g) l name = Some m → tree_wf t →
  ∃ g', put_edge l name t g = Returns (tt, g') ∧ store_wf g' ∧
    abs g' = set_nbrs (abs g) l name (tree_map t).
Proof.
  intros Hg Hm Hwf. destruct (nbrs_inv g l name m Hg Hm) as (v & t0 & Hl & Ht & _ & _).
  unfold put_edge, load, store_at. st. rewrite Hl. eexists. split; [done|]. split.
  - destruct Hg as [Hnil Hall]. split.
    + rewrite lookup_insert_ne; [done|]. intros ->. congruence.
    + apply map_Forall_insert_2; [|done]. apply set_edge_wf; [|done]. by apply (Hall l).
  - unfold abs, set_nbrs. rewrite fmap_insert. unfold abs_link at 1. cbn.
    erewrite abs_set_edge by done. apply map_eq. intros i.
    destruct (decide (i = l)) as [->|Hne].
    + rewrite lookup_insert_eq, lookup_alter_eq, lookup_fmap, Hl. done.
    + by rewrite lookup_insert_ne, lookup_alter_ne.
Qed.

Lemma nbrs_set_eq a l name m m0 : nbrs a l name = Some m0 →
  nbrs (set_nbrs a l name m) l name = Some m.
Proof.
  unfold nbrs, set_nbrs. rewrite lookup_alter_eq. destruct (a !! l); [|done].
  intros _. cbn. by rewrite lookup_insert_eq.
Qed.

Lemma nbrs_set_ne a l name m l' name' : (l, name) ≠ (l', name') →
  nbrs (set_nbrs a l name m) l' name' = nbrs a l' name'.
Proof.
  intros Hne. unfold nbrs, set_nbrs. destruct (decide (l = l')) as [->|Hl].
  - rewrite lookup_alter_eq. destruct (a !! l') as [av|]; [|done]. cbn.
    rewrite lookup_insert_ne; [done|]. congruence.
  - by rewrite lookup_alter_ne.
Qed.

(** *** The operations *)

Section operations.
Context g l name (m : gmap string loc) (Hg : store_wf g) (Hm : nbrs (abs g) l name = Some m).

Lemma Len_ok : Len l name g = Returns (Z.of_nat (size m), g).
Proof.
  destruct (nbrs_inv g l name m Hg Hm) as (v & t & Hl & Ht & Hwf & <-).
  unfold Len, load. st. rewrite Hl. st. rewrite Ht. by rewrite Length_ok.
Qed.

Lemma Link_Find_ok key :
  Find l name key g = Returns ((default nil (m !! key), bool_decide (is_Some (m !! key))), g).
Proof.
  destruct (nbrs_inv g l name m Hg Hm) as (v & t & Hl & Ht & Hwf & <-).
  unfold Find, load. st. rewrite Hl. st. rewrite Ht. by rewrite Find_ok.
Qed.

Lemma LinkOneMany_ok key vtx : ∃ g', LinkOneMany l name key vtx g = Returns (tt, g') ∧
  store_wf g' ∧ abs g' = set_nbrs (abs g) l name (<[key := vtx]> m).
Proof.
  destruct (need_edge_ok g l name m Hg Hm) as (t & En & Hwf & <-).
  destruct (Insert_ok t key vtx Hwf) as (t' & Ei & Hwf' & <-).
  unfold LinkOneMany. st. rewrite En. st. rewrite Ei. st. by apply (put_edge_ok g l name _ t' Hg Hm).
Qed.

Lemma UnlinkOneMany_ok key : ∃ g' r,
  UnlinkOneMany l name key g = Returns ((r, bool_decide (is_Some (m !! key))), g') ∧
  store_wf g' ∧ abs g' = set_nbrs (abs g) l name (delete key m).
Proof.
  destruct (need_edge_ok g l name m Hg Hm) as (t & En & Hwf & <-).
  destruct (Pop_ok t key Hwf) as (t' & Ep & Hwf' & <-).
  destruct (put_edge_ok g l name _ t' Hg Hm Hwf') as (g' & Eg & Hwg).
  unfold UnlinkOneMany. st. rewrite En. st. rewrite Ep. st. rewrite Eg. eauto.
Qed.

Lemma UnlinkOneOneByKey_ok key : ∃ g' r,
  UnlinkOneOneByKey l name key g = Returns ((r, bool_decide (is_Some (m !! key))), g') ∧
  store_wf g' ∧ abs g' = set_nbrs (abs g) l name (delete key m).
Proof. exact (UnlinkOneMany_ok key). Qed.

Lemma LinkOneOne_ok key vtx : (∀ k, k ∈ dom m → k = key) → ∃ g',
  LinkOneOne l name key vtx g = Returns (tt, g') ∧
  store_wf g' ∧ abs g' = set_nbrs (abs g) l name {[key := vtx]}.
Proof.
  intros Hkey. destruct (need_edge_ok g l name m Hg Hm) as (t & En & Hwf & <-).
  destruct (Insert_ok t key vtx Hwf) as (t' & Ei & Hwf' & Ht').
  destruct (put_edge_ok g l name _ t' Hg Hm Hwf') as (g' & Eg & Hwg & Hag).
  assert (tree_map t' = {[key := vtx]}) as Hone.
  { rewrite Ht'. apply map_eq. intros i. destruct (decide (i = key)) as [->|Hne].
    - by rewrite lookup_insert_eq, lookup_singleton_eq.
    - rewrite lookup_insert_ne, lookup_singleton_ne by done.
      apply not_elem_of_dom. intros Hi. by apply Hne, Hkey. }
  unfold LinkOneOne. st. rewrite En. st. rewrite Ei. st. rewrite Eg.
  rewrite Length_ok, Hone, map_size_singleton by done. st. exists g'. by rewrite Hag, Hone.
Qed.

(** A second neighbour is a panic. *)
Lemma LinkOneOne_panics key vtx k : k ∈ dom m → k ≠ key →
  LinkOneOne l name key vtx g = Panics one_edge.
Proof.
  intros Hk Hne. destruct (need_edge_ok g l name m Hg Hm) as (t & En & Hwf & <-).
  destruct (Insert_ok t key vtx Hwf) as (t' & Ei & Hwf' & Ht').
  destruct (put_edge_ok g l name _ t' Hg Hm Hwf') as (g' & Eg & Hwg & Hag).
  unfold LinkOneOne. st. rewrite En. st. rewrite Ei. st. rewrite Eg.
  rewrite Length_ok by done. rewrite (proj2 (Z.ltb_lt _ _)); [done|].
  rewrite Ht', <-(insert_delete_eq (tree_map t)), map_size_insert_None by apply lookup_delete_eq.
  apply elem_of_dom in Hk as [x Hx].
  assert (size (delete key (tree_map t)) ≠ 0%nat); [|lia].
  intros Hz%map_size_empty_inv. apply (f_equal (lookup k)) in Hz.
  by rewrite lookup_delete_ne, Hx in Hz.
Qed.

Lemma UnlinkOneOne_ok : ∃ g' r, UnlinkOneOne l name g = Returns (r, g') ∧
  (m = ∅ ∧ r.2 = false ∨ (∃ k, m !! k = Some r.1) ∧ r.2 = true) ∧
  store_wf g' ∧ abs g' = set_nbrs (abs g) l name ∅.
Proof.
  destruct (need_edge_ok g l name m Hg Hm) as (t & En & Hwf & <-).
  pose proof (RootKeyValue_ok t Hwf) as Hr.
  destruct (Clear_ok t) as [Hwfc Hc].
  destruct (put_edge_ok g l name _ (Clear t) Hg Hm Hwfc) as (g' & Eg & Hwg & Hag).
  unfold UnlinkOneOne. st. rewrite En. st. destruct (RootKeyValue t) as [[k x] []].
  - st. rewrite Eg. st. exists g', (x, true). rewrite Hag, Hc. split; [done|]. split; [|done].
    right. split; [by exists k|done].
  - st. exists g, (x, false). split; [done|]. split; [by left|]. split; [done|].
    rewrite <-Hr. unfold set_nbrs. apply map_eq. intros i.
    destruct (decide (i = l)) as [->|Hne]; [|by rewrite lookup_alter_ne].
    rewrite lookup_alter_eq. unfold nbrs in Hm. destruct (abs g !! l) as [[it es]|]; [|done].
    cbn in *. by rewrite insert_id.
Qed.

End operations.

(** *** Vertices *)

Lemma abs_new_edges names :
  abs_edges ((λ name, (name, NewTree)) <$> names) = gset_to_gmap ∅ (list_to_set names).
Proof.
  induction names as [|n names IH]; [done|].
  rewrite fmap_cons, list_to_set_cons, gset_to_gmap_union_singleton. cbn [abs_edges].
  by rewrite IH.
Qed.

Lemma NewNamedVertex_ok g it names : store_wf g → ∃ l g',
  NewNamedVertexWithValue it names g = Returns (l, g') ∧ l ≠ nil ∧ abs g !! l = None ∧
  store_wf g' ∧ abs g' = <[l := AVertex it (gset_to_gmap ∅ (list_to_set names))]> (abs g).
Proof.
  intros [Hnil Hg]. unfold NewNamedVertexWithValue. do 2 eexists. split; [done|].
  pose proof (is_fresh ({[nil]} ∪ dom g : gset loc)) as Hf.
  set (l := fresh _) in *. clearbody l.
  apply not_elem_of_union in Hf as [Hln Hld].
  split; [by intros ->; apply Hln, elem_of_singleton|].
  split; [unfold abs; by rewrite lookup_fmap, (proj1 (not_elem_of_dom _ _) Hld)|].
  split.
  - split; [rewrite lookup_insert_ne; [done|]; intros ->; by apply Hln, elem_of_singleton|].
    apply map_Forall_insert_2; [|done]. apply list.Forall_forall. intros e He.
    apply list_elem_of_fmap in He as (n & -> & _). apply NewTree_wf.
  - unfold abs. rewrite fmap_insert. unfold abs_link at 1. cbn [item edges].
    by rewrite abs_new_edges.
Qed.

Lemma abs_lookup_inv g l av : abs g !! l = Some av →
  ∃ v, g !! l = Some v ∧ av = abs_link v.
Proof.
  unfold abs. rewrite lookup_fmap. destruct (g !! l) as [v|]; [|done]. intros [= <-]. by exists v.
Qed.

Lemma abs_nil g : store_wf g → abs g !! nil = None.
Proof. intros [Hn _]. unfold abs. by rewrite lookup_fmap, Hn. Qed.

Lemma Item_ok g l av : abs g !! l = Some av → Item l g = Returns (aitem av, g).
Proof.
  intros Hl. apply abs_lookup_inv in Hl as (v & Hl & ->).
  unfold Item, load. st. by rewrite Hl.
Qed.

Lemma SetItem_ok g l av it : store_wf g → abs g !! l = Some av → ∃ g',
  SetItem l it g = Returns (tt, g') ∧ store_wf g' ∧
  abs g' = <[l := AVertex it (aedges av)]> (abs g).
Proof.
  intros [Hnil Hg] Hl. apply abs_lookup_inv in Hl as (v & Hl & ->).
  unfold SetItem, load, store_at. st. rewrite Hl. eexists. split; [done|]. split.
  - split; [rewrite lookup_insert_ne; [done|]; congruence|].
    apply map_Forall_insert_2; [|done]. exact (Hg l v Hl).
  - unfold abs. by rewrite fmap_insert.
Qed.

Lemma Len_missing g l av name : abs g !! l = Some av → aedges av !! name = None →
  Len l name g = Returns (0, g).
Proof.
  intros Hl Hn. apply abs_lookup_inv in Hl as (v & Hl & ->). cbn in Hn.
  rewrite abs_edges_named in Hn. apply fmap_None in Hn. unfold Len, load. st.
  rewrite Hl. st. by rewrite Hn.
Qed.

(** Every other use of a name that the vertex does not have is a panic. *)
Lemma edge_missing g l av name : abs g !! l = Some av → aedges av !! name = None →
  Get l name g = Returns (nil, g) ∧ (∀ key, Find l name key g = Returns ((nil, false), g)) ∧
  need_edge l name g = Panics (no_name name).
Proof.
  intros Hl Hn. apply abs_lookup_inv in Hl as (v & Hl & ->). cbn in Hn.
  rewrite abs_edges_named in Hn. apply fmap_None in Hn. unfold Get, Find, need_edge, load.
  split; [|split]; intros; st; rewrite Hl; st; by rewrite Hn.
Qed.
Lemma links_missing g l av name key vtx : abs g !! l = Some av → aedges av !! name = None →
  LinkOneMany l name key vtx g = Panics (no_name name) ∧ UnlinkOneMany l name key g = Panics (no_name name) ∧
  UnlinkAllOneMany l name g = Panics (no_name name) ∧ LinkOneOne l name key vtx g = Panics (no_name name) ∧
  UnlinkOneOneByKey l name key g = Panics (no_name name) ∧ UnlinkOneOne l name g = Panics (no_name name).
Proof.
  intros Hl Hn. destruct (edge_missing g l av name Hl Hn) as (_ & _ & E).
  unfold LinkOneMany, UnlinkOneMany, UnlinkAllOneMany, LinkOneOne, UnlinkOneOneByKey, UnlinkOneOne.
  split_and!; st; by rewrite E.
Qed.

(** *** Counting and iterating *)

Lemma count_loop {V} (l : list (string * V)) c : c ≤ 2 →
  ∃ b, each_list l (λ _ _, count ← st_get; _ ← st_put (count + 1); mret (count + 1 <=? 2)) c =
       Returns (b, Z.min 3 (c + Z.of_nat (length l))).
Proof.
  revert c. induction l as [|[k x] l IH]; intros c Hc; cbn [each_list length].
  - st. exists true. do 2 f_equal. lia.
  - st. destruct (Z.leb_spec (c + 1) 2) as [Hle|Hgt].
    + destruct (IH (c + 1) Hle) as [b Hb]. rewrite Hb. exists b. do 2 f_equal. lia.
    + st. exists false. do 2 f_equal. lia.
Qed.

Lemma count_to_three_ok t : count_to_three t = Returns (Z.min 3 (Z.of_nat (length (tree_list t)))).
Proof.
  unfold count_to_three, Each. st. rewrite each_inorder.
  destruct (count_loop (inorder (root t)) 0 ltac:(done)) as [b Hb]. by rewrite Hb.
Qed.

(** [Get] answers the only neighbour, nil when there is none, and panics
    when there are several. *)
Lemma Get_ok g l name m : store_wf g → nbrs (abs g) l name = Some m →
  (m = ∅ → Get l name g = Returns (nil, g)) ∧
  (∀ k x, m = {[k := x]} → Get l name g = Returns (x, g)) ∧
  ((2 ≤ size m)%nat → Get l name g = Panics one_edge).
Proof.
  intros Hg Hm. destruct (nbrs_inv g l name m Hg Hm) as (v & t & Hl & Ht & Hwf & <-).
  unfold Get, load. st. rewrite Hl. st. rewrite Ht.
  pose proof (RootKeyValue_ok t Hwf) as Hr. pose proof (Empty_ok t) as He.
  assert (Hsize : Z.of_nat (length (tree_list t)) = Z.of_nat (size (tree_map t))).
  { rewrite <-Length_ok by done. unfold Length, tree_list. rewrite <-length_inorder.
    by destruct (root t). }
  assert (Hcase : tree_map t ≠ ∅ → Empty t = false).
  { intros Hne. destruct (Empty t); [|done]. by destruct Hne; apply He. }
  split; [|split].
  - intros Hempty. apply He in Hempty. rewrite Hempty. done.
  - intros k x Hone. rewrite Hcase by (rewrite Hone; apply map_non_empty_singleton).
    cbn [negb]. st. rewrite count_to_three_ok, Hsize, Hone, map_size_singleton. cbn.
    destruct (RootKeyValue t) as [[k' x'] []].
    + rewrite Hone in Hr. apply lookup_singleton_Some in Hr as [_ ->]. done.
    + rewrite Hone in Hr. by apply map_non_empty_singleton in Hr.
  - intros Hsz. rewrite Hcase by (intros Hempty; rewrite Hempty, map_size_empty in Hsz; lia).
    cbn [negb]. st. rewrite count_to_three_ok, Hsize. destruct (RootKeyValue t) as [[k' x'] ok].
    rewrite (proj2 (Z.eqb_neq _ _)) by lia. by rewrite andb_false_r.
Qed.

(** The steps of an iteration, in key order. *)
Fixpoint st_iter {S} (fn : string → loc → ST S unit) (l : list (string * loc)) : ST S unit :=
  match l with
  | [] => mret tt
  | (k, x) :: l => _ ← fn k x; st_iter fn l
  end.

Lemma Each_iter {S} (t : tree string loc) (fn : string → loc → ST S unit) s :
  Avl.Each t (λ k x, _ ← fn k x; mret true) s = st_iter fn (tree_list t) s.
Proof.
  unfold Avl.Each, tree_list. st. rewrite each_inorder.
  revert s. induction (inorder (root t)) as [|[k x] l IH]; intros s; cbn [each_list st_iter]; [done|].
  st. destruct (fn k x s) as [[[] s']|]; [|done]. st. apply IH.
Qed.

Lemma UnlinkAllOneMany_ok g l name m : store_wf g → nbrs (abs g) l name = Some m → ∃ g' es,
  UnlinkAllOneMany l name g = Returns (es.*2, g') ∧ asorted es ∧ amap es = m ∧
  store_wf g' ∧ abs g' = set_nbrs (abs g) l name ∅.
Proof.
  intros Hg Hm. destruct (need_edge_ok g l name m Hg Hm) as (t & En & Hwf & <-).
  destruct (Clear_ok t) as [Hwfc Hc].
  destruct (put_edge_ok g l name _ (Clear t) Hg Hm Hwfc) as (g' & Eg & Hwg & Hag).
  exists g', (tree_list t). unfold UnlinkAllOneMany. st. rewrite En. st.
  assert (Heach : ∀ (es : list (string * loc)) acc, each_list es (λ _ val,
    removed ← st_get; _ ← st_put (removed ++ [val]); mret true) acc = Returns (true, acc ++ es.*2)).
  { induction es as [|[k x] es IH]; intros acc; cbn [each_list]; st.
    - by rewrite app_nil_r.
    - rewrite IH, <-app_assoc. done. }
  unfold Each. st. rewrite each_inorder, Heach. st. rewrite Eg. st.
  split; [done|]. split; [apply Hwf|]. split; [done|]. by rewrite Hag, Hc.
Qed.

End spec.
Arguments avertex : clear implicits.

(** ** Claims *)

Lemma map_size_one {A} (m : gmap string A) : size m = 1%nat → ∃ k x, m = {[k := x]}.
Proof.
  intros Hs. destruct (map_choose m) as (k & x & Hx); [by intros ->|].
  exists k, x. assert (size (delete k m) = 0%nat) as Hz%map_size_empty_inv.
  { rewrite map_size_delete_Some by by exists x. by rewrite Hs. }
  rewrite <-(insert_delete_id m k x) by done. by rewrite Hz.
Qed.

Section claims.
Context {I : Type}.

(** C34: the linker's operations are the operations of a labelled graph, at any
    vertex [l] of it.  A new vertex has its item and, for each name, no
    neighbours; the item is read and replaced.  By a name that the vertex does
    not have, it has no neighbours, and linking or unlinking panics.  By a name
    with the neighbours [m]: reading answers from [m], linking adds to [m],
    unlinking removes from it, and nothing else of the graph changes; where
    one neighbour is meant, [Get] panics with two or more, and [LinkOneOne]
    when one of another key is there. *)
Theorem Linker_refines_graph (g : store I) (l : loc) (av : avertex I) (it : I) (names : list string)
    (name key : string) (vtx : loc) (Hg : store_wf g) (Hl : abs g !! l = Some av) :
  (∃ x g', NewNamedVertexWithValue it names g = Returns (x, g') ∧ x ≠ nil ∧ abs g !! x = None ∧ store_wf g' ∧
     abs g' = <[x := AVertex it (gset_to_gmap ∅ (list_to_set names))]> (abs g)) ∧
  Item l g = Returns (aitem av, g) ∧
  (∃ g', SetItem l it g = Returns (tt, g') ∧ store_wf g' ∧ abs g' = <[l := AVertex it (aedges av)]> (abs g)) ∧
  match aedges av !! name with
  | None =>
    Len l name g = Returns (0, g) ∧ Find l name key g = Returns ((nil, false), g) ∧ Get l name g = Returns (nil, g) ∧
    LinkOneMany l name key vtx g = Panics (no_name name) ∧ UnlinkOneMany l name key g = Panics (no_name name) ∧
    UnlinkAllOneMany l name g = Panics (no_name name) ∧ LinkOneOne l name key vtx g = Panics (no_name name) ∧
    UnlinkOneOneByKey l name key g = Panics (no_name name) ∧ UnlinkOneOne l name g = Panics (no_name name)
  | Some m =>
    Len l name g = Returns (Z.of_nat (size m), g) ∧
    Find l name key g = Returns ((default nil (m !! key), bool_decide (is_Some (m !! key))), g) ∧
    (m = ∅ → Get l name g = Returns (nil, g)) ∧
    (∀ k x, m = {[k := x]} → Get l name g = Returns (x, g)) ∧
    ((2 ≤ size m)%nat → Get l name g = Panics one_edge) ∧
    (∃ g', LinkOneMany l name key vtx g = Returns (tt, g') ∧ store_wf g' ∧
       abs g' = set_nbrs (abs g) l name (<[key := vtx]> m)) ∧
    (∃ g' r, UnlinkOneMany l name key g = Returns ((r, bool_decide (is_Some (m !! key))), g') ∧
       store_wf g' ∧ abs g' = set_nbrs (abs g) l name (delete key m)) ∧
    (∃ g' es, UnlinkAllOneMany l name g = Returns (es.*2, g') ∧ asorted es ∧ amap es = m ∧
       store_wf g' ∧ abs g' = set_nbrs (abs g) l name ∅) ∧
    ((∀ k, k ∈ dom m → k = key) → ∃ g', LinkOneOne l name key vtx g = Returns (tt, g') ∧ store_wf g' ∧
       abs g' = set_nbrs (abs g) l name {[key := vtx]}) ∧
    (∀ k, k ∈ dom m → k ≠ key → LinkOneOne l name key vtx g = Panics one_edge) ∧
    (∃ g' r, UnlinkOneOneByKey l name key g = Returns ((r, bool_decide (is_Some (m !! key))), g') ∧
       store_wf g' ∧ abs g' = set_nbrs (abs g) l name (delete key m)) ∧
    (∃ g' r, UnlinkOneOne l name g = Returns (r, g') ∧
       (m = ∅ ∧ r.2 = false ∨ (∃ k, m !! k = Some r.1) ∧ r.2 = true) ∧
       store_wf g' ∧ abs g' = set_nbrs (abs g) l name ∅)
  end.
Proof.
  split; [by apply NewNamedVertex_ok|]. split; [by apply Item_ok|]. split; [by apply SetItem_ok|].
  destruct (aedges av !! name) as [m|] eqn:Hm.
  - assert (nbrs (abs g) l name = Some m) as Hn by (unfold nbrs; by rewrite Hl).
    destruct (Get_ok g l name m Hg Hn) as (G0 & G1 & G2).
    split; [by apply Len_ok|]. split; [by apply Link_Find_ok|]. do 3 (split; [done|]).
    split; [by apply LinkOneMany_ok|]. split; [by apply UnlinkOneMany_ok|]. split; [by apply UnlinkAllOneMany_ok|].
    split; [by apply LinkOneOne_ok|]. split; [by intros k; apply LinkOneOne_panics|].
    split; [by apply UnlinkOneOneByKey_ok|by apply UnlinkOneOne_ok].
  - destruct (edge_missing g l av name Hl Hm) as (EG & EF & _).
    split; [by apply (Len_missing g l av)|]. split; [apply EF|]. split; [exact EG|]. by apply (links_missing g l av).
Qed.

(** an edge meant for one neighbour: [LinkOneOne] panics exactly when a
    neighbour of another key is there; [Get] answers the only neighbour, nil
    when there is none, and panics when there are two or more. *)
Theorem Linker_one_edge (g : store I) (l : loc) (name key : string) (vtx : loc)
    (m : gmap string loc) (Hg : store_wf g) (Hm : nbrs (abs g) l name = Some m) :
  (LinkOneOne l name key vtx g = Panics one_edge ↔ ∃ k, k ∈ dom m ∧ k ≠ key) ∧
  (Get l name g = Panics one_edge ↔ (2 ≤ size m)%nat) ∧
  (∀ x, Get l name g = Returns (x, g) ↔ (m = ∅ ∧ x = nil) ∨ ∃ k, m = {[k := x]}).
Proof.
  destruct (Get_ok g l name m Hg Hm) as (G0 & G1 & G2).
  assert (Hcases : m = ∅ ∨ (∃ k x, m = {[k := x]}) ∨ (2 ≤ size m)%nat).
  { destruct (size m) as [|[|n]] eqn:Hs; [left; by apply map_size_empty_iff|right; left|right; right; lia].
    by apply map_size_one in Hs. }
  split; [|split].
  - split.
    + intros Hp. destruct (decide (map_Forall (λ k _, k = key) m)) as [Hall|Hnot].
      * destruct (LinkOneOne_ok g l name m Hg Hm key vtx) as (g' & Hr & _); [|by rewrite Hp in Hr].
        intros k [x Hx]%elem_of_dom. by apply (Hall k x).
      * apply map_not_Forall in Hnot as (k & x & Hk & Hne); [|apply _].
        exists k. split; [by apply elem_of_dom; exists x|done].
    + intros (k & Hk & Hne). by apply (LinkOneOne_panics g l name m Hg Hm key vtx k).
  - split; [|done]. intros Hp. destruct Hcases as [H0|[(k & x & H1)|H2]]; [| |done].
    + by rewrite (G0 H0) in Hp.
    + by rewrite (G1 k x H1) in Hp.
  - intros x. split; [|intros [[H0 ->]|[k Hk]]; [by apply G0|by apply (G1 k)]].
    destruct Hcases as [H0|[(k & y & H1)|H2]].
    + rewrite (G0 H0). intros [= <-]. by left.
    + rewrite (G1 k y H1). intros [= <-]. right. by exists k.
    + by rewrite (G2 H2).
Qed.

End claims.

(** A vertex 1 with one route, 2. *)
Definition sample_store : store Z :=
  {[ 1%N := MkLink 10 [("routes", Tree (Node "a" 2%N Nil Nil 1)); ("namespace", NewTree)];
     2%N := MkLink 20 [("service", NewTree)] ]}.

Lemma sample_store_wf : store_wf sample_store.
Proof.
  split; [done|]. unfold sample_store. apply map_Forall_insert_2; [|apply map_Forall_singleton].
  - repeat (constructor || done). 
  - repeat (constructor || done).
Qed.

Definition sample_vertex : avertex Z := AVertex 10 {["routes" := {["a" := 2%N]}; "namespace" := ∅]}.
Lemma Linker_refines_graph_witness :
  store_wf sample_store ∧ Len 1%N "routes" sample_store = Returns (1, sample_store) ∧
  LinkOneOne 1%N "routes" "b" 2%N sample_store = Panics one_edge ∧
  LinkOneMany 1%N "domains" "b" 2%N sample_store = Panics (no_name "domains").
Proof.
  split; [apply sample_store_wf|].
  pose proof (λ name, Linker_refines_graph sample_store 1%N sample_vertex 0 [] name "b" 2%N sample_store_wf eq_refl) as H.
  destruct (H "routes") as (_ & _ & _ & HL & _ & _ & _ & _ & _ & _ & _ & _ & HP & _).
  destruct (H "domains") as (_ & _ & _ & _ & _ & _ & HN & _).
  split; [rewrite HL; reflexivity|]. split; [|exact HN]. apply (HP "a"); [|done]. by vm_compute.
Defined.

Lemma Linker_one_edge_witness :
  LinkOneOne 1%N "routes" "b" 2%N sample_store = Panics one_edge.
Proof.
  apply (Linker_one_edge sample_store 1%N "routes" "b" 2%N {["a" := 2%N]}).
  - apply sample_store_wf.
  - reflexivity.
  - by exists "a".
Defined.
