(* ===== verification/ResourceManager.v ===== *)
(** * pkg/resources: the resource manager

    The state is the code's record: an index (an AVL tree) per kind of
    resource, the cached list of domains, and the store of vertices that the
    indexes and the vertices' edges share.  An operation runs under the lock
    of its namespace, so it is one step here; the lock is not part of the
    state.  [Read] and [Replace] copy records, so records are values. *)
From Stdlib Require Import ZArith Lia Sorting.Permutation Sorting.Sorted.
From stdpp Require Import base gmap strings list fin_maps.
From S2P Require Import Prelude Avl SliceUtil Pattern Base64 Spec Linker.

(** ** The runtime

    What the language leaves open: the order in which [range] visits a map,
    and which sorted order [sort.Slice] picks among equal elements. *)
Class Runtime := {
  range_map : gmap string loc → list (string * loc);
  sort_Slice : ∀ {A : Type}, (A → A → bool) → list A → list A }.

(** [less] orders strictly and weakly. *)
Definition weak_order {A} (less : A → A → bool) : Prop :=
  (∀ a, less a a = false) ∧
  (∀ a b c, less a b = true → less b c = true → less a c = true) ∧
  (∀ a b c, less a b = false → less b c = false → less a c = false).

Class RuntimeLaws (R : Runtime) : Prop := {
  range_map_perm m : range_map m ≡ₚ map_to_list m;
  sort_Slice_perm {A} (less : A → A → bool) l : sort_Slice less l ≡ₚ l;
  sort_Slice_sorted {A} (less : A → A → bool) l : weak_order less →
    StronglySorted (λ a b, less b a = false) (sort_Slice less l) }.

(** ** State *)

Section code.
Context {E : Externals} {R : Runtime}.

(** The type parameter of a vertex, [linker.Link[string, safe.Ref[T]]]. *)
Inductive resource : Type :=
  | RNamespace (r : DGateNamespace.t)
  | RService (r : DGateService.t)
  | RDomain (r : DGateDomain.t)
  | RModule (r : DGateModule.t)
  | RRoute (r : DGateRoute.t)
  | RSecret (r : DGateSecret.t)
  | RCollection (r : DGateCollection.t).

Record ResourceManager : Type := MkManager {
  namespaces : tree string loc;
  services : tree string loc;
  domains : tree string loc;
  modules : tree string loc;
  routes : tree string loc;
  secrets : tree string loc;
  collections : tree string loc;
  priorityDomainCache : slice DGateDomain.t;
  vertices : store resource }.

Inductive kind := KNamespace | KService | KDomain | KModule | KRoute | KSecret | KCollection.

Definition index (k : kind) (rm : ResourceManager) : tree string loc :=
  match k with
  | KNamespace => namespaces rm | KService => services rm | KDomain => domains rm
  | KModule => modules rm | KRoute => routes rm | KSecret => secrets rm
  | KCollection => collections rm
  end.

Definition with_index (k : kind) (t : tree string loc) (rm : ResourceManager) : ResourceManager :=
  let pick k' t' := match k, k' with
    | KNamespace, KNamespace | KService, KService | KDomain, KDomain | KModule, KModule
    | KRoute, KRoute | KSecret, KSecret | KCollection, KCollection => t
    | _, _ => t' end in
  MkManager (pick KNamespace (namespaces rm)) (pick KService (services rm))
    (pick KDomain (domains rm)) (pick KModule (modules rm)) (pick KRoute (routes rm))
    (pick KSecret (secrets rm)) (pick KCollection (collections rm))
    (priorityDomainCache rm) (vertices rm).

Definition with_vertices (g : store resource) (rm : ResourceManager) : ResourceManager :=
  MkManager (namespaces rm) (services rm) (domains rm) (modules rm) (routes rm) (secrets rm)
    (collections rm) (priorityDomainCache rm) g.
Definition with_cache (c : slice DGateDomain.t) (rm : ResourceManager) : ResourceManager :=
  MkManager (namespaces rm) (services rm) (domains rm) (modules rm) (routes rm) (secrets rm)
    (collections rm) c (vertices rm).

Definition NewManager : ResourceManager :=
  MkManager NewTree NewTree NewTree NewTree NewTree NewTree NewTree None ∅.

Abbreviation RM := (ST ResourceManager).

(** *** The indexes *)

Definition FindIn (k : kind) (key : string) : RM (loc * bool) :=
  rm ← st_get; mret (Avl.Find (index k rm) key).
Definition InsertIn (k : kind) (key : string) (lk : loc) : RM unit :=
  rm ← st_get; '(t, _) ← st_lift (Insert (index k rm) key lk); st_put (with_index k t rm).
Definition DeleteIn (k : kind) (key : string) : RM bool :=
  rm ← st_get; '(t, ok) ← st_lift (Avl.Delete (index k rm) key);
  _ ← st_put (with_index k t rm); mret ok.

(** A linker operation on the shared vertices. *)
Definition on {A} (m : ST (store resource) A) : RM A := λ rm,
  match m (vertices rm) with
  | Returns (a, g) => Returns (a, with_vertices g rm)
  | Panics e => Panics e
  end.

Definition set_cache (c : slice DGateDomain.t) : RM unit :=
  rm ← st_get; st_put (with_cache c rm).

(** [append] *)
Definition append {A} (s : slice A) (a : A) : slice A := Some (elems s ++ [a]).

(** [t.Each(func(_, lk) bool { acc = append(acc, f(lk)); return true })] *)
Definition collect_step {A} (f : loc → RM A) (lk : loc) : ST (ResourceManager * slice A) unit :=
  λ '(rm, acc),
  match f lk rm with
  | Returns (a, rm) => Returns (tt, (rm, append acc a))
  | Panics e => Panics e
  end.
Definition collect {A} (t : tree string loc) (init : slice A) (f : loc → RM A) : RM (slice A) :=
  λ rm,
  match Avl.Each t (λ _ lk, _ ← collect_step f lk; mret true) (rm, init) with
  | Returns (_, (rm, acc)) => Returns (acc, rm)
  | Panics e => Panics e
  end.

(** [lk.Item().Read()] at each type; [NamedVertexWithVertex] panics on a
    vertex of another type. *)
Definition conversion : string := "interface conversion".
Definition as_namespace (r : resource) : outcome DGateNamespace.t :=
  match r with RNamespace r => mret r | _ => Panics conversion end.
Definition as_service (r : resource) : outcome DGateService.t :=
  match r with RService r => mret r | _ => Panics conversion end.
Definition as_domain (r : resource) : outcome DGateDomain.t :=
  match r with RDomain r => mret r | _ => Panics conversion end.
Definition as_module (r : resource) : outcome DGateModule.t :=
  match r with RModule r => mret r | _ => Panics conversion end.
Definition as_route (r : resource) : outcome DGateRoute.t :=
  match r with RRoute r => mret r | _ => Panics conversion end.
Definition as_secret (r : resource) : outcome DGateSecret.t :=
  match r with RSecret r => mret r | _ => Panics conversion end.
Definition as_collection (r : resource) : outcome DGateCollection.t :=
  match r with RCollection r => mret r | _ => Panics conversion end.

Definition read {A} (conv : resource → outcome A) (lk : loc) : RM A :=
  r ← on (Item lk); st_lift (conv r).

(** [if lk, ok := index.Find(key); ok { return lk.Item().Read(), true }] *)
Definition get_item {A} (k : kind) (conv : resource → outcome A) (key : string)
    : RM (option A) :=
  '(lk, ok) ← FindIn k key;
  if (ok : bool) then a ← read conv lk; mret (Some a) else mret None.

(** The items of the index [k], and those behind an edge of a namespace. *)
Definition get_all {A} (k : kind) (conv : resource → outcome A) : RM (slice A) :=
  rm ← st_get; collect (index k rm) None (read conv).
Definition get_by_namespace {A} (edge : string) (conv : loc → RM A) (namespace : string)
    : RM (slice A) :=
  '(nsLk, ok) ← FindIn KNamespace namespace;
  if (ok : bool) then t ← on (need_edge nsLk edge); collect t None conv else mret None.

(** The key of a resource in its index. *)
Definition path (name namespace : string) : string := name +:+ "/" +:+ namespace.

(** *** Errors *)

Definition ErrCannotDelete (what name reason : string) : error :=
  "cannot delete " +:+ what +:+ ": " +:+ name +:+ ": " +:+ reason.
Definition ErrCannotDeleteModule : string → string → error := ErrCannotDelete "module".
Definition ErrCannotDeleteService : string → string → error := ErrCannotDelete "service".
Definition ErrCannotDeleteNamespace : string → string → error := ErrCannotDelete "namespace".
Definition ErrCannotDeleteRoute : string → string → error := ErrCannotDelete "route".
Definition ErrCannotDeleteDomain : string → string → error := ErrCannotDelete "domain".
Definition ErrCannotDeleteCollection : string → string → error := ErrCannotDelete "collection".
Definition ErrCannotDeleteSecret : string → string → error := ErrCannotDelete "secret".
Definition ErrCollectionNotFound (name : string) : error := "collection not found: " +:+ name.
Definition ErrDomainNotFound (name : string) : error := "domain not found: " +:+ name.
Definition ErrNamespaceNotFound (name : string) : error := "namespace not found: " +:+ name.
Definition ErrServiceNotFound (name : string) : error := "service not found: " +:+ name.
Definition ErrModuleNotFound (name : string) : error := "module not found: " +:+ name.
Definition ErrRouteNotFound (name : string) : error := "route not found: " +:+ name.
Definition ErrSecretNotFound (name : string) : error := "secret not found: " +:+ name.

(** ** Namespaces *)

Definition getNamespace : string → RM (option DGateNamespace.t) :=
  get_item KNamespace as_namespace.
Definition GetNamespace : string → RM (option DGateNamespace.t) := getNamespace.

(** The loop that counts [target] down over an index. *)
Definition count_equals (k : kind) (target : Z) : RM bool := λ rm,
  if target <? 0 then Panics "target must be greater than or equal to 0" else
  match Avl.Each (index k rm) (λ _ _, target ← st_get; _ ← st_put (target - 1);
                                      mret (0 <? target - 1)) target with
  | Returns (_, target) => Returns (target =? 0, rm)
  | Panics e => Panics e
  end.
Definition NamespaceCountEquals : Z → RM bool := count_equals KNamespace.

Definition GetFirstNamespace : RM (option DGateNamespace.t) :=
  rm ← st_get;
  let '(_, nsLink, ok) := RootKeyValue (namespaces rm) in
  if (ok : bool) then ns ← read as_namespace nsLink; mret (Some ns) else mret None.

Definition GetNamespaces : RM (slice DGateNamespace.t) := get_all KNamespace as_namespace.

Definition transformNamespace (ns : Namespace.t) : DGateNamespace.t :=
  DGateNamespace.mk (Namespace.Name ns) (Namespace.Tags ns).

Definition AddNamespace (ns : Namespace.t) : RM DGateNamespace.t :=
  let namespace := transformNamespace ns in
  '(nsLk, ok) ← FindIn KNamespace (Namespace.Name ns);
  if (ok : bool) then _ ← on (SetItem nsLk (RNamespace namespace)); mret namespace
  else
    lk ← on (NewNamedVertexWithValue (RNamespace namespace)
               ["routes"; "services"; "modules"; "domains"; "collections"; "secrets"]);
    _ ← InsertIn KNamespace (Namespace.Name ns) lk;
    mret namespace.

Definition RemoveNamespace (namespace : string) : RM (option error) :=
  '(nsLk, ok) ← FindIn KNamespace namespace;
  if negb ok then mret (Some (ErrNamespaceNotFound namespace)) else
  n ← on (Len nsLk "routes");
  if 0 <? n then mret (Some (ErrCannotDeleteNamespace namespace "routes still linked")) else
  n ← on (Len nsLk "services");
  if 0 <? n then mret (Some (ErrCannotDeleteNamespace namespace "services still linked")) else
  n ← on (Len nsLk "modules");
  if 0 <? n then mret (Some (ErrCannotDeleteNamespace namespace "modules still linked")) else
  n ← on (Len nsLk "domains");
  if 0 <? n then mret (Some (ErrCannotDeleteNamespace namespace "domains still linked")) else
  n ← on (Len nsLk "collections");
  if 0 <? n then mret (Some (ErrCannotDeleteNamespace namespace "collections still linked")) else
  deleted ← DeleteIn KNamespace namespace;
  if negb deleted then st_panic "failed to delete namespace" else mret None.

(** ** Services *)

Definition getService (name namespace : string) : RM (option DGateService.t) :=
  get_item KService as_service (path name namespace).
Definition GetService : string → string → RM (option DGateService.t) := getService.
Definition GetServicesByNamespace : string → RM (slice DGateService.t) :=
  get_by_namespace "services" (read as_service).
Definition GetServices : RM (slice DGateService.t) := get_all KService as_service.

Definition transformService (service : Service.t) : RM (gores DGateService.t) :=
  ns ← getNamespace (Service.NamespaceName service);
  match ns with
  | None => mret (Err (ErrNamespaceNotFound (Service.NamespaceName service)))
  | Some ns => mret (Ok (TransformService (Some ns) service))
  end.

Definition AddService (service : Service.t) : RM (gores DGateService.t) :=
  svc ← transformService service;
  match svc with
  | Err err => mret (Err err)
  | Ok svc =>
    '(svcLk, ok) ← FindIn KService (path (Service.Name service) (Service.NamespaceName service));
    if (ok : bool) then _ ← on (SetItem svcLk (RService svc)); mret (Ok svc)
    else
      svcLk ← on (NewNamedVertexWithValue (RService svc) ["routes"; "namespaces"]);
      '(nsLk, ok) ← FindIn KNamespace (Service.NamespaceName service);
      if (ok : bool) then
        _ ← on (LinkOneMany svcLk "namespaces" (Service.NamespaceName service) nsLk);
        _ ← on (LinkOneMany nsLk "services" (Service.Name service) svcLk);
        _ ← InsertIn KService (path (Service.Name service) (Service.NamespaceName service)) svcLk;
        mret (Ok svc)
      else mret (Err (ErrNamespaceNotFound (Service.NamespaceName service)))
  end.

Definition RemoveService (name namespace : string) : RM (option error) :=
  '(lk, ok) ← FindIn KService (path name namespace);
  if negb ok then mret (Some (ErrServiceNotFound name)) else
  '(nsLk, ok) ← FindIn KNamespace namespace;
  if negb ok then mret (Some (ErrNamespaceNotFound namespace)) else
  rtsLk ← on (Get lk "routes");
  if negb (N.eqb rtsLk nil) then mret (Some (ErrCannotDeleteService name "routes still linked")) else
  _ ← on (UnlinkOneMany nsLk "services" name);
  _ ← on (UnlinkOneMany lk "namespaces" namespace);
  deleted ← DeleteIn KService (path name namespace);
  if negb deleted then st_panic "failed to delete service" else mret None.

(** ** Domains *)

Definition getDomain (name namespace : string) : RM (option DGateDomain.t) :=
  get_item KDomain as_domain (path name namespace).
Definition GetDomain : string → string → RM (option DGateDomain.t) := getDomain.
Definition GetDomains : RM (slice DGateDomain.t) := get_all KDomain as_domain.
Definition DomainCountEquals : Z → RM bool := count_equals KDomain.

(** The callback of [sort.Slice]; [a] is [domains[i]], [b] [domains[j]]. *)
Definition domain_less (a b : DGateDomain.t) : bool :=
  let d1 := b in let d2 := a in
  if DGateDomain.Priority d1 =? DGateDomain.Priority d2
  then (DGateDomain.Name d1 <? DGateDomain.Name d2)%go
  else DGateDomain.Priority d1 <? DGateDomain.Priority d2.

Definition domainsByPriority : RM (slice DGateDomain.t) :=
  domains ← get_all KDomain as_domain;
  let domains := match domains with
                 | None => None | Some l => Some (sort_Slice domain_less l) end in
  _ ← set_cache domains;
  mret domains.

Definition GetDomainsByPriority : RM (slice DGateDomain.t) :=
  rm ← st_get;
  match priorityDomainCache rm with
  | Some cache => mret (Some cache)
  | None => domainsByPriority
  end.

Definition GetDomainsByNamespace : string → RM (slice DGateDomain.t) :=
  get_by_namespace "domains" (read as_domain).

Definition transformDomain (domain : Domain.t) : RM (gores DGateDomain.t) :=
  ns ← getNamespace (Domain.NamespaceName domain);
  match ns with
  | None => mret (Err (ErrNamespaceNotFound (Domain.NamespaceName domain)))
  | Some ns =>
    mret (Ok (DGateDomain.mk (Domain.Name domain) 0 0 (Some ns) (Domain.Patterns domain)
      (Domain.Priority domain) (Domain.Cert domain) (Domain.Key domain) (Domain.Tags domain)))
  end.

Definition AddDomain (domain : Domain.t) : RM (gores DGateDomain.t) :=
  dm ← transformDomain domain;
  match dm with
  | Err err => mret (Err err)
  | Ok dm =>
    r ← ('(dmLk, ok) ← FindIn KDomain (path (Domain.Name domain) (Domain.NamespaceName domain));
         if (ok : bool) then _ ← on (SetItem dmLk (RDomain dm)); mret (Ok dm)
         else
           dmLk ← on (NewNamedVertexWithValue (RDomain dm) ["namespace"]);
           '(nsLk, ok) ← FindIn KNamespace (Domain.NamespaceName domain);
           if (ok : bool) then
             _ ← on (LinkOneMany nsLk "domains" (Domain.Name domain) dmLk);
             _ ← on (LinkOneOne dmLk "namespace" (Domain.NamespaceName domain) nsLk);
             _ ← InsertIn KDomain (path (Domain.Name domain) (Domain.NamespaceName domain)) dmLk;
             mret (Ok dm)
           else mret (Err (ErrNamespaceNotFound (Domain.NamespaceName domain))));
    (* the deferred reset *)
    _ ← set_cache None;
    mret r
  end.

Definition RemoveDomain (name namespace : string) : RM (option error) :=
  r ← ('(dmLk, ok) ← FindIn KDomain (path name namespace);
       if (ok : bool) then
         '(nsLk, ok) ← FindIn KNamespace namespace;
         if (ok : bool) then
           _ ← on (UnlinkOneMany nsLk "domains" name);
           _ ← on (UnlinkOneOneByKey dmLk "namespace" namespace);
           deleted ← DeleteIn KDomain (path name namespace);
           if negb deleted then st_panic "failed to delete domain" else mret None
         else mret (Some (ErrNamespaceNotFound namespace))
       else mret (Some (ErrDomainNotFound name)));
  _ ← set_cache None;
  mret r.

(** ** Modules *)

Definition getModule (name namespace : string) : RM (option DGateModule.t) :=
  get_item KModule as_module (path name namespace).
Definition GetModule : string → string → RM (option DGateModule.t) := getModule.
Definition GetModules : RM (slice DGateModule.t) := get_all KModule as_module.

Definition getRouteModules (name namespace : string) : RM (option (slice DGateModule.t)) :=
  '(lk, ok) ← FindIn KRoute (path name namespace);
  if negb ok then mret None else
  rt ← read as_route lk;
  ns ← st_lift (deref (DGateRoute.Namespace rt) DGateNamespace.Name);
  '(rtLk, ok) ← FindIn KRoute (path (DGateRoute.Name rt) ns);
  modules ← (if (ok : bool) then
               t ← on (need_edge rtLk "modules"); collect t None (read as_module)
             else mret None);
  mret (Some modules).
Definition GetRouteModules : string → string → RM (option (slice DGateModule.t)) :=
  getRouteModules.

Definition GetModulesByNamespace : string → RM (slice DGateModule.t) :=
  get_by_namespace "modules" (read as_module).

Definition transformModule (module : Module_.t) : RM (gores DGateModule.t) :=
  ns ← getNamespace (Module_.NamespaceName module);
  match ns with
  | None => mret (Err (ErrNamespaceNotFound (Module_.NamespaceName module)))
  | Some ns => mret (TransformModule (Some ns) module)
  end.

Definition AddModule (module : Module_.t) : RM (gores DGateModule.t) :=
  md ← transformModule module;
  match md with
  | Err err => mret (Err err)
  | Ok md =>
    '(modLk, ok) ← FindIn KModule (path (Module_.Name module) (Module_.NamespaceName module));
    if (ok : bool) then _ ← on (SetItem modLk (RModule md)); mret (Ok md)
    else
      modLk ← on (NewNamedVertexWithValue (RModule md) ["namespace"; "routes"]);
      '(nsLk, ok) ← FindIn KNamespace (Module_.NamespaceName module);
      if (ok : bool) then
        _ ← on (LinkOneMany nsLk "modules" (Module_.Name module) modLk);
        _ ← on (LinkOneOne modLk "namespace" (Module_.NamespaceName module) nsLk);
        _ ← InsertIn KModule (path (Module_.Name module) (Module_.NamespaceName module)) modLk;
        mret (Ok md)
      else mret (Err (ErrNamespaceNotFound (Module_.NamespaceName module)))
  end.

Definition RemoveModule (name namespace : string) : RM (option error) :=
  '(modLink, ok) ← FindIn KModule (path name namespace);
  if negb ok then mret (Some (ErrModuleNotFound name)) else
  n ← on (Len modLink "routes");
  if 0 <? n then mret (Some (ErrCannotDeleteModule name "routes still linked")) else
  '(nsLk, ok) ← FindIn KNamespace namespace;
  if negb ok then mret (Some (ErrNamespaceNotFound namespace)) else
  _ ← on (UnlinkOneMany nsLk "modules" name);
  _ ← on (UnlinkOneOne modLink "namespace");
  deleted ← DeleteIn KModule (path name namespace);
  if negb deleted then st_panic "failed to delete module" else mret None.

(** ** Collections *)

Definition getCollection (name namespace : string) : RM (option DGateCollection.t) :=
  get_item KCollection as_collection (path name namespace).
Definition GetCollection : string → string → RM (option DGateCollection.t) := getCollection.
Definition GetCollectionsByNamespace : string → RM (slice DGateCollection.t) :=
  get_by_namespace "collections" (read as_collection).
Definition GetCollections : RM (slice DGateCollection.t) := get_all KCollection as_collection.

Definition transformCollection (collection : Collection.t) : RM (gores DGateCollection.t) :=
  ns ← getNamespace (Collection.NamespaceName collection);
  match ns with
  | None => mret (Err (ErrNamespaceNotFound (Collection.NamespaceName collection)))
  | Some ns => cl ← st_lift (TransformCollection (Some ns) collection); mret (Ok cl)
  end.

Definition AddCollection (collection : Collection.t) : RM (gores DGateCollection.t) :=
  cl ← transformCollection collection;
  match cl with
  | Err err => mret (Err err)
  | Ok cl =>
    '(clLk, ok) ← FindIn KCollection
       (path (Collection.Name collection) (Collection.NamespaceName collection));
    if (ok : bool) then _ ← on (SetItem clLk (RCollection cl)); mret (Ok cl)
    else
      colLk ← on (NewNamedVertexWithValue (RCollection cl) ["namespace"]);
      '(nsLk, ok) ← FindIn KNamespace (Collection.NamespaceName collection);
      if (ok : bool) then
        _ ← on (LinkOneMany nsLk "collections" (Collection.Name collection) colLk);
        _ ← on (LinkOneOne colLk "namespace" (Collection.NamespaceName collection) nsLk);
        _ ← InsertIn KCollection
              (path (Collection.Name collection) (Collection.NamespaceName collection)) colLk;
        mret (Ok cl)
      else mret (Err (ErrNamespaceNotFound (Collection.NamespaceName collection)))
  end.

Definition RemoveCollection (name namespace : string) : RM (option error) :=
  '(colLk, ok) ← FindIn KCollection (path name namespace);
  if negb ok then mret (Some (ErrCollectionNotFound name)) else
  '(nsLk, ok) ← FindIn KNamespace namespace;
  if negb ok then mret (Some (ErrNamespaceNotFound namespace)) else
  _ ← on (UnlinkOneMany nsLk "collections" name);
  _ ← on (UnlinkOneOne colLk "namespace");
  deleted ← DeleteIn KCollection (path name namespace);
  if negb deleted then st_panic "failed to delete collection" else mret None.

(** ** Secrets *)

Definition getSecret (name namespace : string) : RM (option DGateSecret.t) :=
  get_item KSecret as_secret (path name namespace).
Definition GetSecret : string → string → RM (option DGateSecret.t) := getSecret.
Definition GetSecrets : RM (slice DGateSecret.t) := get_all KSecret as_secret.
Definition GetSecretsByNamespace : string → RM (slice DGateSecret.t) :=
  get_by_namespace "secrets" (read as_secret).

Definition transformSecret (secret : Secret.t) : RM (gores DGateSecret.t) :=
  ns ← getNamespace (Secret.NamespaceName secret);
  match ns with
  | None => mret (Err (ErrNamespaceNotFound (Secret.NamespaceName secret)))
  | Some ns => mret (TransformSecret (Some ns) secret)
  end.

Definition AddSecret (secret : Secret.t) : RM (gores DGateSecret.t) :=
  sec ← transformSecret secret;
  match sec with
  | Err err => mret (Err err)
  | Ok sec =>
    '(rw, ok) ← FindIn KSecret (path (Secret.Name secret) (Secret.NamespaceName secret));
    if (ok : bool) then _ ← on (SetItem rw (RSecret sec)); mret (Ok sec)
    else
      scrtLk ← on (NewNamedVertexWithValue (RSecret sec) ["namespace"]);
      '(nsLk, ok) ← FindIn KNamespace (Secret.NamespaceName secret);
      if (ok : bool) then
        _ ← on (LinkOneMany nsLk "secrets" (Secret.Name secret) scrtLk);
        _ ← on (LinkOneOne scrtLk "namespace" (Secret.NamespaceName secret) nsLk);
        _ ← InsertIn KSecret (path (Secret.Name secret) (Secret.NamespaceName secret)) scrtLk;
        mret (Ok sec)
      else mret (Err (ErrNamespaceNotFound (Secret.NamespaceName secret)))
  end.

Definition RemoveSecret (name namespace : string) : RM (option error) :=
  '(scrtLink, ok) ← FindIn KSecret (path name namespace);
  if negb ok then mret (Some (ErrSecretNotFound name)) else
  n ← on (Len scrtLink "routes");
  if 0 <? n then mret (Some (ErrCannotDeleteSecret name "routes still linked")) else
  '(nsLk, ok) ← FindIn KNamespace namespace;
  if negb ok then mret (Some (ErrNamespaceNotFound namespace)) else
  _ ← on (UnlinkOneMany nsLk "secrets" name);
  _ ← on (UnlinkOneOne scrtLink "namespace");
  deleted ← DeleteIn KSecret (path name namespace);
  if negb deleted then st_panic "failed to delete secret" else mret None.

(** ** Routes *)

Definition with_modules (rt : DGateRoute.t) (m : slice (option DGateModule.t)) : DGateRoute.t :=
  DGateRoute.mk _ (DGateRoute.Name rt) (DGateRoute.Paths rt) (DGateRoute.Methods rt)
    (DGateRoute.StripPath rt) (DGateRoute.PreserveHost rt) (DGateRoute.Service rt)
    (DGateRoute.Namespace rt) m (DGateRoute.Tags rt).
Definition with_service (rt : DGateRoute.t) (svc : option DGateService.t) : DGateRoute.t :=
  DGateRoute.mk _ (DGateRoute.Name rt) (DGateRoute.Paths rt) (DGateRoute.Methods rt)
    (DGateRoute.StripPath rt) (DGateRoute.PreserveHost rt) svc
    (DGateRoute.Namespace rt) (DGateRoute.Modules rt) (DGateRoute.Tags rt).

(** Modules as the elements of the field. *)
Definition pointers {A} (s : slice A) : slice (option A) := SliceMapper s Some.

Definition updateRouteRef (lk : loc) : RM DGateRoute.t :=
  rt ← read as_route lk;
  t ← on (need_edge lk "modules");
  mods ← collect t (Some []) (read as_module);
  let rt := with_modules rt (pointers mods) in
  ns ← st_lift (deref (DGateRoute.Namespace rt) DGateNamespace.Name);
  mods ← getRouteModules (DGateRoute.Name rt) ns;
  let rt := match mods with Some mods => with_modules rt (pointers mods) | None => rt end in
  match DGateRoute.Service rt with
  | None => mret rt
  | Some svc =>
    found ← get_item KService as_service (path (DGateService.Name svc) ns);
    match found with
    | Some svc => mret (with_service rt (Some svc))
    | None => mret rt
    end
  end.

Definition getRoute (name namespace : string) : RM (option DGateRoute.t) :=
  '(lk, ok) ← FindIn KRoute (path name namespace);
  if (ok : bool) then rt ← updateRouteRef lk; mret (Some rt) else mret None.
Definition GetRoute : string → string → RM (option DGateRoute.t) := getRoute.

Definition GetRoutes : RM (slice DGateRoute.t) :=
  rm ← st_get; collect (routes rm) None updateRouteRef.
Definition GetRoutesByNamespace : string → RM (slice DGateRoute.t) :=
  get_by_namespace "routes" updateRouteRef.

(** The result map is the accumulator of the iteration. *)
Definition GetRouteNamespaceMap : RM (gmap string (list DGateRoute.t)) := λ rm,
  match Avl.Each (namespaces rm) (λ ns lk, _ ← (λ '(rm, routeMap),
      match (t ← on (need_edge lk "routes"); collect t (Some []) updateRouteRef) rm with
      | Returns (routes, rm) =>
        Returns (tt, (rm, if 0 <? Z.of_nat (length (elems routes))
                          then <[ns := elems routes]> routeMap else routeMap))
      | Panics e => Panics e
      end); mret true) (rm, ∅) with
  | Returns (_, (rm, routeMap)) => Returns (routeMap, rm)
  | Panics e => Panics e
  end.

(** The loop of [transformRoute] over the module names. *)
Fixpoint route_modules (modNames : list string) (namespace : string)
    : RM (gores (list (option DGateModule.t))) :=
  match modNames with
  | [] => mret (Ok [])
  | modName :: modNames =>
    mod_ ← getModule modName namespace;
    match mod_ with
    | None => mret (Err (ErrModuleNotFound modName))
    | Some mod_ =>
      mods ← route_modules modNames namespace;
      match mods with Ok mods => mret (Ok (Some mod_ :: mods)) | Err err => mret (Err err) end
    end
  end.

Definition transformRoute (route : Route.t) : RM (gores DGateRoute.t) :=
  ns ← getNamespace (Route.NamespaceName route);
  match ns with
  | None => mret (Err (ErrNamespaceNotFound (Route.NamespaceName route)))
  | Some ns =>
    svc ← (if String.eqb (Route.ServiceName route) "" then mret (Ok None)
           else
             svc ← getService (Route.ServiceName route) (Route.NamespaceName route);
             match svc with
             | None => mret (Err (ErrServiceNotFound (Route.ServiceName route)))
             | Some svc => mret (Ok (Some svc))
             end);
    match svc with
    | Err err => mret (Err err)
    | Ok svc =>
      mods ← route_modules (elems (Route.Modules route)) (Route.NamespaceName route);
      match mods with
      | Err err => mret (Err err)
      | Ok mods =>
        mret (Ok (DGateRoute.mk _ (Route.Name route) (Route.Paths route) (Route.Methods route)
          (Route.StripPath route) (Route.PreserveHost route) svc (Some ns) (Some mods)
          (Route.Tags route)))
      end
    end
  end.

Definition unlinkRoute (rtLk nsLk : loc) (name namespace : string) : RM unit :=
  _ ← on (UnlinkOneMany nsLk "routes" name);
  _ ← on (UnlinkOneOneByKey rtLk "namespace" namespace);
  svcLk ← on (Get rtLk "service");
  _ ← (if negb (N.eqb svcLk nil) then
         _ ← on (UnlinkOneMany svcLk "routes" name);
         _ ← on (UnlinkOneOne rtLk "service"); mret tt
       else mret tt);
  Each_edge (on (need_edge rtLk "modules")) (λ _ modLk,
    _ ← on (UnlinkOneMany modLk "routes" name); mret tt).

(** The first loop of [relinkRoute], filling the map [modLks]. *)
Fixpoint find_modules (modNames : list string) (namespace : string) (modLks : gmap string loc)
    : RM (gores (gmap string loc)) :=
  match modNames with
  | [] => mret (Ok modLks)
  | modName :: modNames =>
    '(modLk, ok) ← FindIn KModule (path modName namespace);
    if (ok : bool) then find_modules modNames namespace (<[modName := modLk]> modLks)
    else mret (Err (ErrModuleNotFound modName))
  end.

(** The last loop, over the entries in the order the runtime picks. *)
Fixpoint link_modules (rtLk : loc) (name : string) (entries : list (string * loc)) : RM unit :=
  match entries with
  | [] => mret tt
  | (modName, modLk) :: entries =>
    _ ← on (LinkOneMany modLk "routes" name rtLk);
    _ ← on (LinkOneMany rtLk "modules" modName modLk);
    link_modules rtLk name entries
  end.

Definition relinkRoute (rtLk nsLk : loc) (route : Route.t) (name namespace : string)
    (exists_ : bool) : RM (option error) :=
  modLks ← find_modules (elems (Route.Modules route)) (Route.NamespaceName route) ∅;
  match modLks with
  | Err err => mret (Some err)
  | Ok modLks =>
    err ← (if String.eqb (Route.ServiceName route) "" then mret None
           else
             '(svcLk, ok) ← FindIn KService
                (path (Route.ServiceName route) (Route.NamespaceName route));
             if (ok : bool) then
               _ ← (if exists_ then unlinkRoute rtLk nsLk name namespace else mret tt);
               _ ← on (LinkOneOne rtLk "service" (Route.ServiceName route) svcLk);
               _ ← on (LinkOneMany svcLk "routes" (Route.Name route) rtLk);
               mret None
             else mret (Some (ErrServiceNotFound (Route.ServiceName route))));
    match err with
    | Some err => mret (Some err)
    | None =>
      _ ← on (LinkOneOne rtLk "namespace" (Route.NamespaceName route) nsLk);
      _ ← on (LinkOneMany nsLk "routes" (Route.Name route) rtLk);
      _ ← link_modules rtLk (Route.Name route) (range_map modLks);
      mret None
    end
  end.

Definition AddRoute (route : Route.t) : RM (gores DGateRoute.t) :=
  rt ← transformRoute route;
  match rt with
  | Err err => mret (Err err)
  | Ok rt =>
    '(nsLk, ok) ← FindIn KNamespace (Route.NamespaceName route);
    if negb ok then mret (Err (ErrNamespaceNotFound (Route.NamespaceName route))) else
    '(rtLk, ok) ← FindIn KRoute (path (Route.Name route) (Route.NamespaceName route));
    if (ok : bool) then
      _ ← on (SetItem rtLk (RRoute rt));
      err ← relinkRoute rtLk nsLk route (Route.Name route) (Route.NamespaceName route) true;
      match err with Some err => mret (Err err) | None => mret (Ok rt) end
    else
      rtLk ← on (NewNamedVertexWithValue (RRoute rt) ["namespace"; "service"; "modules"]);
      err ← relinkRoute rtLk nsLk route (Route.Name route) (Route.NamespaceName route) false;
      match err with
      | Some err => mret (Err err)
      | None =>
        _ ← InsertIn KRoute (path (Route.Name route) (Route.NamespaceName route)) rtLk;
        mret (Ok rt)
      end
  end.

Definition RemoveRoute (name namespace : string) : RM (option error) :=
  '(nsLk, ok) ← FindIn KNamespace namespace;
  if negb ok then mret (Some (ErrNamespaceNotFound namespace)) else
  '(lk, ok) ← FindIn KRoute (path name namespace);
  if (ok : bool) then
    _ ← unlinkRoute lk nsLk name namespace;
    deleted ← DeleteIn KRoute (path name namespace);
    if negb deleted then st_panic "failed to delete route" else mret None
  else mret (Some (ErrRouteNotFound name)).

(** ** The whole manager *)

Definition Clear : RM unit := λ rm,
  Returns (tt, MkManager (Avl.Clear (namespaces rm)) (Avl.Clear (services rm))
    (Avl.Clear (domains rm)) (Avl.Clear (modules rm)) (Avl.Clear (routes rm))
    (Avl.Clear (secrets rm)) (Avl.Clear (collections rm)) (priorityDomainCache rm)
    (vertices rm)).

Definition Empty : RM bool :=
  rm ← st_get;
  mret (Avl.Empty (namespaces rm) && Avl.Empty (services rm) && Avl.Empty (domains rm) &&
        Avl.Empty (modules rm) && Avl.Empty (routes rm) && Avl.Empty (collections rm)).

End code.
