(* ===== verification/ResourceLogic.v ===== *)
(** * A program logic for the resource manager

    The abstract state of a manager: one dictionary from kind and path to
    vertex, and the labelled graph of the linker.  [wp m Q a] says that [m],
    run in any manager that refines [a], returns without a panic in one that
    refines an [a'] with [Q].  The rules below are all that the proofs about
    the operations use of the trees and the store. *)
From Stdlib Require Import ZArith Lia.
From stdpp Require Import base gmap strings list fin_maps.
From S2P Require Import Prelude Avl SliceUtil Spec Linker ResourceManager.

#[export] Instance kind_eq_dec : EqDecision kind.
Proof. solve_decision. Defined.
Definition kind_code (k : kind) : nat :=
  match k with
  | KNamespace => 0 | KService => 1 | KDomain => 2 | KModule => 3 | KRoute => 4
  | KSecret => 5 | KCollection => 6
  end.
Definition kind_decode (n : nat) : kind :=
  match n with
  | 0 => KNamespace | 1 => KService | 2 => KDomain | 3 => KModule | 4 => KRoute
  | 5 => KSecret | _ => KCollection
  end%nat.
#[export] Instance kind_countable : Countable kind.
Proof. apply (inj_countable' kind_code kind_decode). by intros []. Defined.

Section logic.
Context {E : Externals} {R : Runtime}.

(** ** Abstract states *)

Record astate : Type := AState {
  idx : gmap (kind * string) loc;
  gr : gmap loc (avertex resource);
  cached : slice DGateDomain.t }.

Definition rel (rm : ResourceManager) (a : astate) : Prop :=
  (∀ k, tree_wf (index k rm)) ∧ store_wf (vertices rm) ∧
  (∀ k key, idx a !! (k, key) = tree_map (index k rm) !! key) ∧
  gr a = abs (vertices rm) ∧ cached a = priorityDomainCache rm.

Definition a_insert (k : kind) (key : string) (l : loc) (a : astate) : astate :=
  AState (<[(k, key) := l]> (idx a)) (gr a) (cached a).
Definition a_delete (k : kind) (key : string) (a : astate) : astate :=
  AState (delete (k, key) (idx a)) (gr a) (cached a).
Definition a_set (l : loc) (name : string) (m : gmap string loc) (a : astate) : astate :=
  AState (idx a) (set_nbrs (gr a) l name m) (cached a).
Definition a_item (l : loc) (av : avertex resource) (r : resource) (a : astate) : astate :=
  AState (idx a) (<[l := AVertex r (aedges av)]> (gr a)) (cached a).
Definition a_new (l : loc) (r : resource) (names : list string) (a : astate) : astate :=
  AState (idx a) (<[l := AVertex r (gset_to_gmap ∅ (list_to_set names))]> (gr a)) (cached a).
Definition a_cache (c : slice DGateDomain.t) (a : astate) : astate :=
  AState (idx a) (gr a) c.
Definition a_empty : astate := AState ∅ ∅ None.

Lemma rel_new : rel NewManager a_empty.
Proof.
  split; [by intros []; apply NewTree_wf|]. split; [done|]. split; [|done].
  intros k key. by destruct k.
Qed.

Lemma index_with_index k k' t (rm : ResourceManager) :
  index k' (with_index k t rm) = if decide (k = k') then t else index k' rm.
Proof. by destruct k, k'. Qed.

Lemma index_with_vertices k g (rm : ResourceManager) : index k (with_vertices g rm) = index k rm.
Proof. by destruct k. Qed.
Lemma index_with_cache k c (rm : ResourceManager) : index k (with_cache c rm) = index k rm.
Proof. by destruct k. Qed.

(** ** Total correctness *)

Definition wp {A} (m : ST ResourceManager A) (Q : A → astate → Prop) (a : astate) : Prop :=
  ∀ rm, rel rm a → ∃ r rm' a', m rm = Returns (r, rm') ∧ rel rm' a' ∧ Q r a'.

Lemma wp_ret {A} (x : A) Q a : Q x a → wp (mret x) Q a.
Proof. intros HQ rm Hrm. exists x, rm, a. done. Qed.

Lemma wp_bind {A B} (m : ST ResourceManager A) (f : A → ST ResourceManager B) Q a :
  wp m (λ x a', wp (f x) Q a') a → wp (m ≫= f) Q a.
Proof.
  intros Hm rm Hrm. destruct (Hm rm Hrm) as (x & rm' & a' & Em & Hrm' & Hf).
  destruct (Hf rm' Hrm') as (y & rm'' & a'' & Ef & Hrm'' & HQ).
  exists y, rm'', a''. st. rewrite Em. done.
Qed.

Lemma wp_assoc {A B C} (m : ST ResourceManager A) (f : A → ST ResourceManager B)
    (g : B → ST ResourceManager C) Q a :
  wp ((m ≫= f) ≫= g) Q a → wp (m ≫= λ x, f x ≫= g) Q a.
Proof.
  intros Hm rm Hrm. destruct (Hm rm Hrm) as (x & rm' & a' & Em & Hr). exists x, rm', a'.
  split; [|exact Hr]. rewrite <-Em. st. by destruct (m rm) as [[y rm1]|].
Qed.

Lemma wp_mono {A} (m : ST ResourceManager A) (P Q : A → astate → Prop) a :
  (∀ x a', P x a' → Q x a') → wp m P a → wp m Q a.
Proof.
  intros HPQ Hm rm Hrm. destruct (Hm rm Hrm) as (x & rm' & a' & Em & Hrm' & HP).
  exists x, rm', a'. auto.
Qed.

(** No vertex is at the nil location. *)
Lemma wp_nil {A} (m : ST ResourceManager A) Q a :
  (gr a !! nil = None → wp m Q a) → wp m Q a.
Proof.
  intros Hm rm Hrm. apply Hm; [|done]. destruct Hrm as (_ & Hg & _ & -> & _). by apply abs_nil.
Qed.

Lemma wp_lift {A} (o : outcome A) x Q a : o = Returns x → Q x a → wp (st_lift o) Q a.
Proof. intros -> HQ rm Hrm. exists x, rm, a. done. Qed.

Lemma wp_FindIn k key Q a :
  Q (default nil (idx a !! (k, key)), bool_decide (is_Some (idx a !! (k, key)))) a →
  wp (FindIn k key) Q a.
Proof.
  intros HQ rm Hrm. pose proof Hrm as (Ht & _ & Hidx & _).
  do 3 eexists. split; [|split; [exact Hrm|exact HQ]].
  unfold FindIn. st. rewrite Find_ok by done. by rewrite Hidx.
Qed.

Lemma wp_InsertIn k key l Q a : Q tt (a_insert k key l a) → wp (InsertIn k key l) Q a.
Proof.
  intros HQ rm (Ht & Hg & Hidx & Hgr & Hc).
  destruct (Insert_ok (index k rm) key l (Ht k)) as (t' & Ei & Ht' & Hm).
  unfold InsertIn. st. rewrite Ei. st.
  do 3 eexists. split; [done|]. split; [|exact HQ]. split; [|split; [done|split; [|done]]].
  - intros k'. rewrite index_with_index. by case_decide.
  - intros k' key'. rewrite index_with_index. cbn [a_insert idx]. case_decide as Hk.
    + subst k'. rewrite Hm. destruct (decide (key = key')) as [->|Hne].
      * by rewrite !lookup_insert_eq.
      * rewrite !lookup_insert_ne by congruence. apply Hidx.
    + rewrite lookup_insert_ne by congruence. apply Hidx.
Qed.

Lemma wp_DeleteIn k key Q a :
  Q (bool_decide (is_Some (idx a !! (k, key)))) (a_delete k key a) → wp (DeleteIn k key) Q a.
Proof.
  intros HQ rm (Ht & Hg & Hidx & Hgr & Hc).
  destruct (Delete_ok (index k rm) key (Ht k)) as (t' & Ei & Ht' & Hm).
  unfold DeleteIn. st. rewrite Ei. st. rewrite <-Hidx.
  do 3 eexists. split; [done|]. split; [|exact HQ]. split; [|split; [done|split; [|done]]].
  - intros k'. rewrite index_with_index. by case_decide.
  - intros k' key'. rewrite index_with_index. cbn [a_delete idx]. case_decide as Hk.
    + subst k'. rewrite Hm. destruct (decide (key = key')) as [->|Hne].
      * by rewrite !lookup_delete_eq.
      * rewrite !lookup_delete_ne by congruence. apply Hidx.
    + rewrite lookup_delete_ne by congruence. apply Hidx.
Qed.

Lemma wp_set_cache c Q a : Q tt (a_cache c a) → wp (set_cache c) Q a.
Proof.
  intros HQ rm (Ht & Hg & Hidx & Hgr & Hc). do 3 eexists. split; [done|]. split; [|exact HQ].
  split; [|split; [done|split; [|done]]].
  - intros k. rewrite index_with_cache. apply Ht.
  - intros k key. rewrite index_with_cache. apply Hidx.
Qed.

(** A step of the store. *)
Lemma wp_on {A} (m : ST (store resource) A) (Q : A → astate → Prop) a :
  (∀ g, store_wf g → abs g = gr a → ∃ x g', m g = Returns (x, g') ∧ store_wf g' ∧
     Q x (AState (idx a) (abs g') (cached a))) →
  wp (on m) Q a.
Proof.
  intros Hm rm (Ht & Hg & Hidx & Hgr & Hc). destruct (Hm _ Hg (eq_sym Hgr)) as (x & g' & Em & Hg' & HQ).
  exists x, (with_vertices g' rm), (AState (idx a) (abs g') (cached a)).
  unfold on. rewrite Em. split; [done|]. split; [|done].
  split; [|split; [done|split; [|done]]].
  - intros k. rewrite index_with_vertices. apply Ht.
  - intros k key. rewrite index_with_vertices. apply Hidx.
Qed.

Lemma astate_gr a g : abs g = gr a → AState (idx a) (abs g) (cached a) = a.
Proof. intros ->. by destruct a. Qed.

Lemma wp_New it names Q a :
  (∀ l, l ≠ nil → gr a !! l = None → Q l (a_new l it names a)) →
  wp (on (NewNamedVertexWithValue it names)) Q a.
Proof.
  intros HQ. apply wp_on. intros g Hg Ha.
  destruct (NewNamedVertex_ok g it names Hg) as (l & g' & En & Hl & Hf & Hg' & Ha').
  exists l, g'. split; [done|]. split; [done|]. rewrite Ha', Ha. apply HQ; [done|]. by rewrite <-Ha.
Qed.

Lemma wp_SetItem l it av Q a : gr a !! l = Some av →
  Q tt (a_item l av it a) → wp (on (SetItem l it)) Q a.
Proof.
  intros Hl HQ. apply wp_on. intros g Hg Ha. rewrite <-Ha in Hl.
  destruct (SetItem_ok g l av it Hg Hl) as (g' & En & Hg' & Ha').
  exists tt, g'. split; [done|]. split; [done|]. by rewrite Ha', Ha.
Qed.

Lemma wp_read {A} (conv : resource → outcome A) l av x Q a :
  gr a !! l = Some av → conv (aitem av) = Returns x → Q x a → wp (read conv l) Q a.
Proof.
  intros Hl Hx HQ. unfold read. apply wp_bind, wp_on. intros g Hg Ha. rewrite <-Ha in Hl.
  exists (aitem av), g. split; [by apply Item_ok|]. split; [done|].
  rewrite astate_gr by done. by eapply wp_lift.
Qed.

Section edges.
Context l name (m : gmap string loc) (a : astate) (Hm : nbrs (gr a) l name = Some m).

Lemma wp_LinkOneMany key x (Q : unit → astate → Prop) :
  Q tt (a_set l name (<[key := x]> m) a) → wp (on (LinkOneMany l name key x)) Q a.
Proof.
  intros HQ. apply wp_on. intros g Hg Ha. rewrite <-Ha in Hm.
  destruct (LinkOneMany_ok g l name m Hg Hm key x) as (g' & En & Hg' & Ha').
  exists tt, g'. split; [done|]. split; [done|]. by rewrite Ha', Ha.
Qed.

Lemma wp_LinkOneOne key x (Q : unit → astate → Prop) : (∀ k, k ∈ dom m → k = key) →
  Q tt (a_set l name {[key := x]} a) → wp (on (LinkOneOne l name key x)) Q a.
Proof.
  intros Hk HQ. apply wp_on. intros g Hg Ha. rewrite <-Ha in Hm.
  destruct (LinkOneOne_ok g l name m Hg Hm key x Hk) as (g' & En & Hg' & Ha').
  exists tt, g'. split; [done|]. split; [done|]. by rewrite Ha', Ha.
Qed.

Lemma wp_UnlinkOneMany key (Q : loc * bool → astate → Prop) :
  (∀ r, Q r (a_set l name (delete key m) a)) → wp (on (UnlinkOneMany l name key)) Q a.
Proof.
  intros HQ. apply wp_on. intros g Hg Ha. rewrite <-Ha in Hm.
  destruct (UnlinkOneMany_ok g l name m Hg Hm key) as (g' & r & En & Hg' & Ha').
  eexists _, g'. split; [done|]. split; [done|]. rewrite Ha', Ha. apply HQ.
Qed.

Lemma wp_UnlinkOneOneByKey key (Q : loc * bool → astate → Prop) :
  (∀ r, Q r (a_set l name (delete key m) a)) → wp (on (UnlinkOneOneByKey l name key)) Q a.
Proof. exact (wp_UnlinkOneMany key Q). Qed.

Lemma wp_UnlinkOneOne (Q : loc * bool → astate → Prop) :
  (∀ r, Q r (a_set l name ∅ a)) → wp (on (UnlinkOneOne l name)) Q a.
Proof.
  intros HQ. apply wp_on. intros g Hg Ha. rewrite <-Ha in Hm.
  destruct (UnlinkOneOne_ok g l name m Hg Hm) as (g' & r & En & _ & Hg' & Ha').
  eexists _, g'. split; [done|]. split; [done|]. rewrite Ha', Ha. apply HQ.
Qed.

Lemma wp_Len (Q : Z → astate → Prop) :
  Q (Z.of_nat (size m)) a → wp (on (Len l name)) Q a.
Proof.
  intros HQ. apply wp_on. intros g Hg Ha. rewrite <-Ha in Hm.
  exists (Z.of_nat (size m)), g. split; [by apply Len_ok|]. split; [done|]. by rewrite astate_gr.
Qed.

Lemma wp_Get (Q : loc → astate → Prop) :
  (m = ∅ → Q nil a) → (∀ k x, m = {[k := x]} → Q x a) → (size m ≤ 1)%nat →
  wp (on (Get l name)) Q a.
Proof.
  intros H0 H1 Hsize. apply wp_on. intros g Hg Ha. rewrite <-Ha in Hm.
  destruct (Get_ok g l name m Hg Hm) as (G0 & G1 & _).
  destruct (size m) as [|[|n]] eqn:Hs; [| |lia].
  - apply map_size_empty_inv in Hs. exists nil, g. rewrite astate_gr by done.
    split; [by apply G0|]. split; [done|]. by apply H0.
  - apply map_size_one in Hs as (k & x & Hk). exists x, g. rewrite astate_gr by done.
    split; [by apply (G1 k)|]. split; [done|]. by apply (H1 k).
Qed.

Lemma wp_need_edge (Q : tree string loc → astate → Prop) :
  (∀ t, tree_wf t → tree_map t = m → Q t a) → wp (on (need_edge l name)) Q a.
Proof.
  intros HQ. apply wp_on. intros g Hg Ha. rewrite <-Ha in Hm.
  destruct (need_edge_ok g l name m Hg Hm) as (t & En & Ht & Hmt).
  exists t, g. split; [done|]. split; [done|]. rewrite astate_gr by done. by apply HQ.
Qed.

End edges.

Lemma wp_Len_missing l name av (Q : Z → astate → Prop) a :
  gr a !! l = Some av → aedges av !! name = None → Q 0 a → wp (on (Len l name)) Q a.
Proof.
  intros Hl Hn HQ. apply wp_on. intros g Hg Ha. rewrite <-Ha in Hl.
  exists 0, g. split; [by eapply Len_missing|]. split; [done|]. by rewrite astate_gr.
Qed.

(** *** Iterations *)

Lemma wp_iter (P : list (string * loc) → astate → Prop) (fn : string → loc → ST ResourceManager unit)
    (Q : unit → astate → Prop) t a :
  P (tree_list t) a →
  (∀ k x es a, P ((k, x) :: es) a → wp (fn k x) (λ _ a', P es a') a) →
  (∀ a, P [] a → Q tt a) →
  wp (Avl.Each t (λ k x, _ ← fn k x; mret true)) Q a.
Proof.
  intros HP Hstep HQ. assert (Hall : wp (st_iter fn (tree_list t)) Q a).
  { revert a HP. induction (tree_list t) as [|[k x] es IH]; intros a HP; cbn [st_iter].
    - apply wp_ret. auto.
    - apply wp_bind. eapply wp_mono; [|by apply Hstep]. intros [] a' HP'. by apply IH. }
  intros rm Hrm. rewrite Each_iter. by apply Hall.
Qed.

(** What appending [vals] one by one makes of a slice. *)
Definition collected {A} (init : slice A) (vals : list A) : slice A :=
  match vals with [] => init | _ => Some (elems init ++ vals) end.

Lemma collected_cons {A} (acc : slice A) v vals :
  collected (append acc v) vals = collected acc (v :: vals).
Proof. destruct vals; [done|]. cbn. by rewrite <-app_assoc. Qed.

(** [collect] of a reader that leaves the abstract state alone and answers
    [V] of each vertex. *)
Lemma wp_collect {A} (f : loc → ST ResourceManager A) (V : loc → A → Prop) t init
    (Q : slice A → astate → Prop) a :
  (∀ k x, (k, x) ∈ tree_list t → wp (f x) (λ r a', a' = a ∧ V x r) a) →
  (∀ vals, Forall2 (λ e v, V e.2 v) (tree_list t) vals → Q (collected init vals) a) →
  wp (collect t init f) Q a.
Proof.
  intros Hf HQ rm Hrm.
  assert (Hall : ∀ es acc rm, (∀ k x, (k, x) ∈ es → wp (f x) (λ r a', a' = a ∧ V x r) a) →
    rel rm a → ∃ rm' vals,
    st_iter (λ _ lk, collect_step f lk) es (rm, acc) =
    Returns (tt, (rm', collected acc vals)) ∧ rel rm' a ∧ Forall2 (λ e v, V e.2 v) es vals).
  { clear. induction es as [|[k x] es IH]; intros acc rm Hf Hrm; cbn [st_iter].
    - by exists rm, [].
    - st. unfold collect_step at 1. destruct (Hf k x ltac:(by apply elem_of_cons; left) rm Hrm)
        as (r & rm' & a' & -> & Hrm' & -> & Hv).
      destruct (IH (append acc r) rm') as (rm'' & vals & -> & Hrm'' & Hvals); [|done|].
      + intros k' x' Hin. apply (Hf k'). by apply elem_of_cons; right.
      + exists rm'', (r :: vals). rewrite collected_cons. split; [done|]. split; [done|].
        by constructor. }
  destruct (Hall (tree_list t) init rm Hf Hrm) as (rm' & vals & Eit & Hrm' & Hvals).
  do 2 eexists. exists a. split; [|split; [exact Hrm'|by apply (HQ vals)]].
  unfold collect. rewrite (Each_iter t (λ _ lk, collect_step f lk)). by rewrite Eit.
Qed.

Lemma wp_state {A} (f : ResourceManager → ST ResourceManager A) (Q : A → astate → Prop) a :
  (∀ rm, rel rm a → wp (f rm) Q a) → wp (rm ← st_get; f rm) Q a.
Proof. intros Hf rm Hrm. st. by apply Hf. Qed.

End logic.
