(* ===== verification/ResourceInvariant.v ===== *)
(** * The invariant of the resource manager

    Four parts over the abstract state: the graph is typed ([typed]), the
    dictionary's keys are the paths of the items it leads to and their
    namespaces exist ([indexed]), a namespace's edges are the dictionary
    restricted to it ([owned]), and a route has at most one namespace and
    one service ([routes_ok]).  The lemmas say how each part follows the
    primitive changes of the state. *)
From Stdlib Require Import ZArith Lia.
From stdpp Require Import base gmap strings list fin_maps.
From S2P Require Import Prelude Avl SliceUtil Pattern Spec Linker ResourceManager ResourceLogic.

#[local] Arguments String.append : simpl nomatch.

(** ** Paths *)

Definition no_slash (s : string) : Prop := Pattern.Strings.Contains s "/" = false.

Lemma no_slash_app a b : ¬ no_slash (a +:+ "/" +:+ b).
Proof.
  unfold no_slash. rewrite not_false_iff_true, Contains_true. by exists a, b.
Qed.

Lemma path_inj n1 ns1 n2 ns2 : no_slash ns1 → no_slash ns2 →
  path n1 ns1 = path n2 ns2 → n1 = n2 ∧ ns1 = ns2.
Proof.
  unfold path. intros H1 H2. revert n2. induction n1 as [|c n1 IH]; intros [|c' n2]; simpl.
  - by intros [= ->].
  - intros [= <- ->]. by apply no_slash_app in H1.
  - intros [= -> <-]. by apply no_slash_app in H2.
  - intros [= -> Heq]. by destruct (IH n2 Heq) as [-> ->].
Qed.

Section invariant.
Context {E : Externals} {R : Runtime}.
Implicit Types (a : astate) (g : gmap loc (avertex resource)) (r : resource) (l : loc).

(** ** Items *)

Definition kindof r : kind :=
  match r with
  | RNamespace _ => KNamespace | RService _ => KService | RDomain _ => KDomain
  | RModule _ => KModule | RRoute _ => KRoute | RSecret _ => KSecret
  | RCollection _ => KCollection
  end.
Definition name_of r : string :=
  match r with
  | RNamespace r => DGateNamespace.Name r | RService r => DGateService.Name r
  | RDomain r => DGateDomain.Name r | RModule r => DGateModule.Name r
  | RRoute r => DGateRoute.Name r | RSecret r => DGateSecret.Name r
  | RCollection r => DGateCollection.Name r
  end.
Definition ns_ptr r : option DGateNamespace.t :=
  match r with
  | RNamespace r => Some r | RService r => DGateService.Namespace r
  | RDomain r => DGateDomain.Namespace r | RModule r => DGateModule.Namespace r
  | RRoute r => DGateRoute.Namespace r | RSecret r => DGateSecret.Namespace r
  | RCollection r => DGateCollection.Namespace r
  end.
Definition ns_of r : string :=
  match ns_ptr r with Some ns => DGateNamespace.Name ns | None => "" end.
Definition key_of r : string :=
  match r with RNamespace _ => name_of r | _ => path (name_of r) (ns_of r) end.

Definition items g : gmap loc resource := aitem <$> g.

(** ** Edges *)

(** The edges a vertex is created with, and the kind each leads to. *)
Definition schema (k : kind) : gmap string kind :=
  list_to_map match k with
  | KNamespace => [("routes", KRoute); ("services", KService); ("modules", KModule);
                   ("domains", KDomain); ("collections", KCollection); ("secrets", KSecret)]
  | KService => [("routes", KRoute); ("namespaces", KNamespace)]
  | KModule => [("namespace", KNamespace); ("routes", KRoute)]
  | KRoute => [("namespace", KNamespace); ("service", KService); ("modules", KModule)]
  | KDomain | KSecret | KCollection => [("namespace", KNamespace)]
  end.

(** The edge of a namespace for the kind [k]. *)
Definition ns_edge (k : kind) : option string :=
  match k with
  | KNamespace => None | KRoute => Some "routes" | KService => Some "services"
  | KModule => Some "modules" | KDomain => Some "domains"
  | KCollection => Some "collections" | KSecret => Some "secrets"
  end.

(** ** The parts *)

Definition leads_to g (k : kind) name (m : gmap string loc) : Prop :=
  ∀ key x, m !! key = Some x →
    ∃ r, items g !! x = Some r ∧ schema k !! name = Some (kindof r).

Definition typed g : Prop := ∀ l r, items g !! l = Some r → ∀ name,
  (is_Some (schema (kindof r) !! name) → is_Some (nbrs g l name)) ∧
  (∀ m, nbrs g l name = Some m → leads_to g (kindof r) name m).

Definition indexed (ix : gmap (kind * string) loc) (its : gmap loc resource) : Prop :=
  ∀ k key l, ix !! (k, key) = Some l → ∃ r, its !! l = Some r ∧
    kindof r = k ∧ key_of r = key ∧ no_slash (ns_of r) ∧ is_Some (ns_ptr r) ∧
    (k ≠ KSecret → is_Some (ix !! (KNamespace, ns_of r))).

Definition owned (ix : gmap (kind * string) loc) g : Prop :=
  ∀ ns l, ix !! (KNamespace, ns) = Some l → ∀ k e, ns_edge k = Some e →
    ∃ m, nbrs g l e = Some m ∧ ∀ name x,
      (m !! name = Some x → ix !! (k, path name ns) = Some x) ∧
      (k ≠ KSecret → ix !! (k, path name ns) = Some x → m !! name = Some x).

Definition routes_ok (ix : gmap (kind * string) loc) g : Prop :=
  ∀ key l r, ix !! (KRoute, key) = Some l → items g !! l = Some r →
    ∃ m1 m2, nbrs g l "namespace" = Some m1 ∧ (∀ k, k ∈ dom m1 → k = ns_of r) ∧
      nbrs g l "service" = Some m2 ∧ (size m2 ≤ 1)%nat.

Record inv a : Prop := {
  inv_typed : typed (gr a);
  inv_indexed : indexed (idx a) (items (gr a));
  inv_owned : owned (idx a) (gr a);
  inv_routes : routes_ok (idx a) (gr a) }.

Lemma inv_empty : inv a_empty.
Proof. by split; intros ??. Qed.

(** ** Views of the primitive changes *)

Lemma items_lookup g l : items g !! l = aitem <$> g !! l.
Proof. apply lookup_fmap. Qed.

Lemma items_set g l name m : items (set_nbrs g l name m) = items g.
Proof.
  apply map_eq. intros l'. rewrite !items_lookup. unfold set_nbrs.
  destruct (decide (l = l')) as [->|Hne].
  - rewrite lookup_alter_eq. by destruct (g !! l').
  - by rewrite lookup_alter_ne.
Qed.

Lemma items_insert g l av : items (<[l := av]> g) = <[l := aitem av]> (items g).
Proof. apply fmap_insert. Qed.

Lemma nbrs_insert_eq g l r es name : nbrs (<[l := AVertex r es]> g) l name = es !! name.
Proof. unfold nbrs. by rewrite lookup_insert_eq. Qed.

Lemma nbrs_insert_ne g l l' av name : l ≠ l' → nbrs (<[l := av]> g) l' name = nbrs g l' name.
Proof. intros Hne. unfold nbrs. by rewrite lookup_insert_ne. Qed.

Lemma nbrs_item g l av r l' name : g !! l = Some av →
  nbrs (<[l := AVertex r (aedges av)]> g) l' name = nbrs g l' name.
Proof.
  intros Hl. destruct (decide (l = l')) as [->|Hne]; [|by apply nbrs_insert_ne].
  rewrite nbrs_insert_eq. unfold nbrs. by rewrite Hl.
Qed.

Lemma nbrs_items g l name m : nbrs g l name = Some m → is_Some (items g !! l).
Proof. unfold nbrs. rewrite items_lookup. destruct (g !! l); [by eexists|done]. Qed.

(** ** typed *)

Lemma leads_to_mono g g' k name m :
  (∀ l r, items g !! l = Some r → ∃ r', items g' !! l = Some r' ∧ kindof r' = kindof r) →
  leads_to g k name m → leads_to g' k name m.
Proof.
  intros Hmono Hm key x Hx. destruct (Hm key x Hx) as (r & Hr & Hk).
  destruct (Hmono x r Hr) as (r' & Hr' & Hk'). exists r'. by rewrite Hk'.
Qed.

Lemma typed_new g l r names : typed g → g !! l = None →
  list_to_set names = (dom (schema (kindof r)) : gset string) →
  typed (<[l := AVertex r (gset_to_gmap ∅ (list_to_set names))]> g).
Proof.
  intros Hg Hl Hnames l' r' Hl' name.
  assert (Hmono : ∀ l0 r0, items g !! l0 = Some r0 → ∃ r1,
    items (<[l := AVertex r (gset_to_gmap ∅ (list_to_set names))]> g) !! l0 = Some r1 ∧
    kindof r1 = kindof r0).
  { intros l0 r0 Hl0. exists r0. rewrite items_insert, lookup_insert_ne; [done|].
    intros <-. by rewrite items_lookup, Hl in Hl0. }
  rewrite items_insert in Hl'. destruct (decide (l = l')) as [<-|Hne].
  - rewrite lookup_insert_eq in Hl'. injection Hl' as <-. cbn. rewrite nbrs_insert_eq, Hnames. split.
    + intros Hs%elem_of_dom. exists ∅. by apply lookup_gset_to_gmap_Some.
    + intros m Hm. apply lookup_gset_to_gmap_Some in Hm as [_ <-]. by intros ??.
  - rewrite lookup_insert_ne in Hl' by done. rewrite nbrs_insert_ne by done.
    destruct (Hg l' r' Hl' name) as [H1 H2]. split; [done|]. intros m Hm.
    eapply leads_to_mono; [exact Hmono|]. by apply H2.
Qed.

Lemma typed_item g l av r : typed g → g !! l = Some av → kindof r = kindof (aitem av) →
  typed (<[l := AVertex r (aedges av)]> g).
Proof.
  intros Hg Hl Hk l' r' Hl' name. rewrite nbrs_item by done.
  assert (Hmono : ∀ l0 r0, items g !! l0 = Some r0 → ∃ r1,
    items (<[l := AVertex r (aedges av)]> g) !! l0 = Some r1 ∧ kindof r1 = kindof r0).
  { intros l0 r0 Hl0. rewrite items_insert. destruct (decide (l = l0)) as [<-|Hne].
    - rewrite items_lookup, Hl in Hl0. injection Hl0 as <-. exists r. by rewrite lookup_insert_eq.
    - exists r0. by rewrite lookup_insert_ne. }
  assert (∃ r0, items g !! l' = Some r0 ∧ kindof r' = kindof r0) as (r0 & Hr0 & ->).
  { rewrite items_insert in Hl'. destruct (decide (l = l')) as [<-|Hne].
    - rewrite lookup_insert_eq in Hl'. injection Hl' as <-. exists (aitem av).
      by rewrite items_lookup, Hl.
    - rewrite lookup_insert_ne in Hl' by done. by exists r'. }
  destruct (Hg l' r0 Hr0 name) as [H1 H2]. split; [done|]. intros m Hm.
  eapply leads_to_mono; [exact Hmono|]. by apply H2.
Qed.

Lemma typed_set g l r name m : typed g → items g !! l = Some r → is_Some (nbrs g l name) →
  leads_to g (kindof r) name m → typed (set_nbrs g l name m).
Proof.
  intros Hg Hl [m0 Hm0] Hm l' r' Hl' name'. rewrite items_set in Hl'.
  destruct (Hg l' r' Hl' name') as [H1 H2].
  destruct (decide ((l, name) = (l', name'))) as [[= <- <-]|Hne].
  - erewrite nbrs_set_eq by done. simplify_eq. split; [by eexists|].
    intros m' [= <-] key x Hx. rewrite items_set. by apply (Hm key).
  - rewrite nbrs_set_ne by done. split; [done|]. intros m' Hm' key x Hx. rewrite items_set.
    by apply (H2 m' Hm' key).
Qed.

Lemma leads_to_insert g k name m key x r : leads_to g k name m → items g !! x = Some r →
  schema k !! name = Some (kindof r) → leads_to g k name (<[key := x]> m).
Proof.
  intros Hm Hx Hs key' x'. rewrite lookup_insert_Some. intros [[<- <-]|[_ Hl]]; [by exists r|].
  by apply (Hm key').
Qed.

Lemma leads_to_delete g k name m key : leads_to g k name m → leads_to g k name (delete key m).
Proof. intros Hm key' x'. rewrite lookup_delete_Some. intros [_ Hl]. by apply (Hm key'). Qed.

Lemma leads_to_empty g k name : leads_to g k name ∅.
Proof. by intros ??. Qed.

Lemma leads_to_singleton g k name key x r : items g !! x = Some r →
  schema k !! name = Some (kindof r) → leads_to g k name {[key := x]}.
Proof. intros ??. by eapply (leads_to_insert _ _ _ ∅); [apply leads_to_empty|..]. Qed.

(** ** indexed *)

Lemma indexed_ns ix its ns l : indexed ix its → ix !! (KNamespace, ns) = Some l →
  ∃ n, its !! l = Some (RNamespace n) ∧ DGateNamespace.Name n = ns ∧ no_slash ns.
Proof.
  intros Hix Hl. destruct (Hix _ _ _ Hl) as (r & Hr & Hk & Hkey & Hs & _).
  destruct r as [n| | | | | |]; try done. exists n. by rewrite <-Hkey.
Qed.

Lemma indexed_unique ix its k1 key1 k2 key2 l : indexed ix its →
  ix !! (k1, key1) = Some l → ix !! (k2, key2) = Some l → k1 = k2 ∧ key1 = key2.
Proof.
  intros Hix H1 H2. destruct (Hix _ _ _ H1) as (r1 & Hr1 & Hk1 & Hkey1 & _).
  destruct (Hix _ _ _ H2) as (r2 & Hr2 & Hk2 & Hkey2 & _). by simplify_eq.
Qed.

Lemma indexed_not_ns ix its ns l r l' : indexed ix its → its !! l = Some r →
  kindof r ≠ KNamespace → ix !! (KNamespace, ns) = Some l' → l ≠ l'.
Proof.
  intros Hix Hr Hk Hns ->. destruct (indexed_ns _ _ _ _ Hix Hns) as (n & Hn & _). by simplify_eq.
Qed.

Lemma indexed_insert ix its k key l r : indexed ix its → its !! l = Some r →
  kindof r = k → key_of r = key → no_slash (ns_of r) → is_Some (ns_ptr r) →
  (k = KNamespace ∨ is_Some (ix !! (KNamespace, ns_of r))) →
  indexed (<[(k, key) := l]> ix) its.
Proof.
  intros Hix Hr Hk Hkey Hs Hp Hns k' key' l'. rewrite lookup_insert_Some.
  assert (Hmono : ∀ p, is_Some (ix !! p) → is_Some (<[(k, key) := l]> ix !! p)).
  { intros p Hp'. destruct (decide (p = (k, key))) as [->|Hne].
    - rewrite lookup_insert_eq. by eexists.
    - by rewrite lookup_insert_ne. }
  intros [[[= <- <-] <-]|[_ Hl']].
  - exists r. do 5 (split; [done|]). intros _. destruct Hns as [->|Hns]; [|by apply Hmono].
    destruct r as [n| | | | | |]; try done. cbn in Hkey. subst. cbn. rewrite lookup_insert_eq. by eexists.
  - destruct (Hix _ _ _ Hl') as (r' & H1 & H2 & H3 & H4 & H5 & H6).
    exists r'. do 5 (split; [done|]). auto.
Qed.

Lemma indexed_delete ix its k key : indexed ix its →
  (k = KNamespace → ∀ k' key' l' r', k' ≠ KSecret → k' ≠ KNamespace →
     ix !! (k', key') = Some l' → its !! l' = Some r' → ns_of r' ≠ key) →
  indexed (delete (k, key) ix) its.
Proof.
  intros Hix Hfree k' key' l'. rewrite lookup_delete_Some. intros [Hne Hl'].
  destruct (Hix _ _ _ Hl') as (r' & H1 & H2 & H3 & H4 & H5 & H6).
  exists r'. do 5 (split; [done|]). intros Hk'. rewrite lookup_delete_ne; [by apply H6|].
  intros [= -> Hns]. destruct (decide (k' = KNamespace)) as [->|Hn].
  - apply Hne. f_equal. destruct r'; try done. by cbn in H3, Hns; subst.
  - by apply (Hfree eq_refl k' key' l' r').
Qed.

Lemma indexed_item ix its l r0 r : indexed ix its → its !! l = Some r0 →
  kindof r = kindof r0 → key_of r = key_of r0 → ns_of r = ns_of r0 → is_Some (ns_ptr r) →
  indexed ix (<[l := r]> its).
Proof.
  intros Hix Hr0 Hk Hkey Hns Hp k' key' l' Hl'.
  destruct (Hix _ _ _ Hl') as (r' & H1 & H2 & H3 & H4 & H5 & H6).
  destruct (decide (l = l')) as [<-|Hne].
  - simplify_eq. exists r. rewrite lookup_insert_eq, Hk, Hkey, Hns. done.
  - exists r'. by rewrite lookup_insert_ne.
Qed.

Lemma indexed_fresh ix its l r : indexed ix its → its !! l = None → indexed ix (<[l := r]> its).
Proof.
  intros Hix Hl k' key' l' Hl'. destruct (Hix _ _ _ Hl') as (r' & H1 & Hrest).
  exists r'. rewrite lookup_insert_ne by congruence. done.
Qed.

(** ** owned *)

Lemma owned_frame ix g g' :
  (∀ ns l k e, ix !! (KNamespace, ns) = Some l → ns_edge k = Some e →
     nbrs g' l e = nbrs g l e) → owned ix g → owned ix g'.
Proof. intros Hf Ho ns l Hl k e He. rewrite (Hf ns l k e Hl He). by apply (Ho ns l Hl k e). Qed.

(** Changes at a vertex that is no namespace of the dictionary. *)
Lemma owned_set ix g l name m : (∀ ns, ix !! (KNamespace, ns) ≠ Some l) →
  owned ix g → owned ix (set_nbrs g l name m).
Proof.
  intros Hl. apply owned_frame. intros ns l' k e Hl' He. apply nbrs_set_ne.
  intros [= <- <-]. by apply (Hl ns).
Qed.

Lemma owned_new ix g l av : g !! l = None → (∀ ns l', ix !! (KNamespace, ns) = Some l' → is_Some (g !! l')) →
  owned ix g → owned ix (<[l := av]> g).
Proof.
  intros Hl Hix. apply owned_frame. intros ns l' k e Hl' He. apply nbrs_insert_ne.
  intros <-. destruct (Hix ns l Hl') as [? H]. congruence.
Qed.

Lemma owned_item ix g l av r : g !! l = Some av →
  owned ix g → owned ix (<[l := AVertex r (aedges av)]> g).
Proof. intros Hl. apply owned_frame. intros ns l' k e Hl' He. by apply nbrs_item. Qed.

Lemma ns_edge_inj k1 k2 e : ns_edge k1 = Some e → ns_edge k2 = Some e → k1 = k2.
Proof. by destruct k1, k2; cbn; intros; simplify_eq. Qed.

Section ns_update.
Context ix its g ns lns k e m (Hix : indexed ix its) (Ho : owned ix g)
  (Hns : ix !! (KNamespace, ns) = Some lns) (He : ns_edge k = Some e)
  (Hm : nbrs g lns e = Some m).

Lemma owned_update ix' m' :
  (∀ ns', ix' !! (KNamespace, ns') = ix !! (KNamespace, ns')) →
  (∀ k' name ns', no_slash ns' → (k', ns') ≠ (k, ns) →
     ix' !! (k', path name ns') = ix !! (k', path name ns')) →
  (∀ name x, (m' !! name = Some x → ix' !! (k, path name ns) = Some x) ∧
     (k ≠ KSecret → ix' !! (k, path name ns) = Some x → m' !! name = Some x)) →
  owned ix' (set_nbrs g lns e m').
Proof.
  intros Hixns Hixo Hm' ns' l' Hl' k' e' He'. rewrite Hixns in Hl'.
  destruct (decide ((k', ns') = (k, ns))) as [[= -> ->]|Hne].
  - rewrite Hns in Hl'. injection Hl' as <-. rewrite He in He'. injection He' as <-.
    exists m'. split; [by eapply nbrs_set_eq|done].
  - destruct (Ho ns' l' Hl' k' e' He') as (m1 & Hm1 & Hbi). exists m1.
    rewrite nbrs_set_ne.
    + split; [done|]. destruct (indexed_ns _ _ _ _ Hix Hl') as (_ & _ & _ & Hs).
      intros name x. rewrite Hixo by done. apply Hbi.
    + intros [= <- <-]. apply Hne. f_equal; [by eapply ns_edge_inj|].
      by destruct (indexed_unique _ _ _ _ _ _ _ Hix Hl' Hns).
Qed.

Lemma owned_link name x : owned (<[(k, path name ns) := x]> ix) (set_nbrs g lns e (<[name := x]> m)).
Proof.
  assert (Hk : k ≠ KNamespace) by (by intros ->).
  destruct (indexed_ns _ _ _ _ Hix Hns) as (_ & _ & _ & Hs).
  destruct (Ho ns lns Hns k e He) as (m0 & Hm0 & Hbi). rewrite Hm in Hm0. injection Hm0 as <-.
  apply owned_update.
  - intros ns'. by rewrite lookup_insert_ne by congruence.
  - intros k' name' ns' Hs' Hne. rewrite lookup_insert_ne; [done|]. intros [= -> Hp].
    apply path_inj in Hp as [-> ->]; [|done..]. done.
  - intros name' y. destruct (decide (name' = name)) as [->|Hne].
    + by rewrite !lookup_insert_eq.
    + rewrite !lookup_insert_ne by (try done; intros [= Hp]; by apply path_inj in Hp as [? _]).
      apply Hbi.
Qed.

Lemma owned_unlink name : owned (delete (k, path name ns) ix) (set_nbrs g lns e (delete name m)).
Proof.
  assert (Hk : k ≠ KNamespace) by (by intros ->).
  destruct (indexed_ns _ _ _ _ Hix Hns) as (_ & _ & _ & Hs).
  destruct (Ho ns lns Hns k e He) as (m0 & Hm0 & Hbi). rewrite Hm in Hm0. injection Hm0 as <-.
  apply owned_update.
  - intros ns'. by rewrite lookup_delete_ne by congruence.
  - intros k' name' ns' Hs' Hne. rewrite lookup_delete_ne; [done|]. intros [= -> Hp].
    apply path_inj in Hp as [-> ->]; [|done..]. done.
  - intros name' y. destruct (decide (name' = name)) as [->|Hne].
    + by rewrite !lookup_delete_eq.
    + rewrite !lookup_delete_ne by (try done; intros [= Hp]; by apply path_inj in Hp as [? _]).
      apply Hbi.
Qed.

End ns_update.

Lemma owned_add_ns ix its g ns l : indexed ix its → ix !! (KNamespace, ns) = None → no_slash ns →
  (∀ k e, ns_edge k = Some e → nbrs g l e = Some ∅) → owned ix g →
  owned (<[(KNamespace, ns) := l]> ix) g.
Proof.
  intros Hix Hnone Hs Hnew Ho ns' l' Hl' k e He.
  assert (Hk : k ≠ KNamespace) by (by intros ->).
  rewrite lookup_insert_Some in Hl'. destruct Hl' as [[[= <-] <-]|[Hne Hl']].
  - exists ∅. split; [by eapply Hnew|]. intros name x. split; [done|]. intros Hsec.
    rewrite lookup_insert_ne by congruence. intros Hx. exfalso.
    destruct (Hix _ _ _ Hx) as (r & Hr & Hkr & Hkey & Hsr & Hp & Hex).
    destruct (Hex Hsec) as [y Hy]. assert (ns_of r = ns) as Hnsr; [|by rewrite Hnsr, Hnone in Hy].
    destruct r; cbn in Hkey; try (by subst k; cbn in Hk); by apply path_inj in Hkey as [_ ->].
  - destruct (Ho ns' l' Hl' k e He) as (m & Hm & Hbi). exists m. split; [done|].
    intros name x. rewrite lookup_insert_ne by congruence. apply Hbi.
Qed.

Lemma owned_delete_ns ix g ns : owned ix g → owned (delete (KNamespace, ns) ix) g.
Proof.
  intros Ho ns' l' Hl' k e He. rewrite lookup_delete_Some in Hl'. destruct Hl' as [Hne Hl'].
  destruct (Ho ns' l' Hl' k e He) as (m & Hm & Hbi). exists m. split; [done|].
  intros name x. assert (k ≠ KNamespace) by (by intros ->).
  rewrite lookup_delete_ne by congruence. apply Hbi.
Qed.

(** ** routes_ok *)

Lemma routes_frame ix ix' g g' :
  (∀ key l, ix' !! (KRoute, key) = Some l → ix !! (KRoute, key) = Some l) →
  (∀ key l r', ix !! (KRoute, key) = Some l → items g' !! l = Some r' →
     (∃ r, items g !! l = Some r ∧ ns_of r' = ns_of r) ∧
     nbrs g' l "namespace" = nbrs g l "namespace" ∧ nbrs g' l "service" = nbrs g l "service") →
  routes_ok ix g → routes_ok ix' g'.
Proof.
  intros Hix Hg Hr key l r' Hl Hl'. apply Hix in Hl.
  destruct (Hg key l r' Hl Hl') as ((r & Hr0 & ->) & -> & ->). by apply (Hr key l r).
Qed.

End invariant.
