(* ===== verification/ResourceProofs.v ===== *)
(** * The operations of the resource manager keep the invariant

    Each [_spec] lemma is the total correctness of one operation: from a
    state with the invariant it returns, without a panic, in one with the
    invariant; the [content] of the manager, the dictionary from kind and
    path to record, changes as the operation's answer says. *)
From Stdlib Require Import ZArith Lia.
From stdpp Require Import base gmap strings list fin_maps.
From S2P Require Import Prelude Avl SliceUtil Pattern Spec Linker ResourceManager.
From S2P Require Import ResourceLogic ResourceInvariant.

(** Project the primitive changes. *)
Ltac views := cbn [idx gr cached a_item a_set a_new a_insert a_delete a_cache aitem aedges].

Section proofs.
Context {E : Externals} {R : Runtime}.
Implicit Types (a : astate) (r : resource) (l : loc).

(** ** Content *)

Definition content a (k : kind) (key : string) : option resource :=
  l ← idx a !! (k, key); items (gr a) !! l.

(** [a'] has [v] at [(k, key)] and is [a] elsewhere. *)
Definition updates a a' (k : kind) (key : string) (v : option resource) : Prop :=
  ∀ k' key', content a' k' key' =
    if decide ((k', key') = (k, key)) then v else content a k' key'.
Definition unchanged a a' : Prop := ∀ k key, content a' k key = content a k key.

Lemma content_inv a k key l : inv a → idx a !! (k, key) = Some l →
  ∃ av, gr a !! l = Some av ∧ content a k key = Some (aitem av) ∧
    kindof (aitem av) = k ∧ key_of (aitem av) = key ∧ no_slash (ns_of (aitem av)) ∧
    is_Some (ns_ptr (aitem av)).
Proof.
  intros Ha Hl. destruct (inv_indexed a Ha _ _ _ Hl) as (r & Hr & Hk & Hkey & Hs & Hp & _).
  unfold content. rewrite Hl. cbn. rewrite items_lookup in *.
  destruct (gr a !! l) as [av|] eqn:Hav; [|done]. cbn in *. injection Hr as <-. by exists av.
Qed.

Lemma content_None a k key : idx a !! (k, key) = None → content a k key = None.
Proof. unfold content. by intros ->. Qed.

Lemma content_Some_idx a k key r : content a k key = Some r → is_Some (idx a !! (k, key)).
Proof. unfold content. destruct (idx a !! (k, key)); [by eexists|done]. Qed.

Lemma inv_idx_content a k key : inv a → is_Some (idx a !! (k, key)) ↔ is_Some (content a k key).
Proof.
  intros Ha. split; [|intros [r Hr]; by eapply content_Some_idx].
  intros [l Hl]. destruct (content_inv a k key l Ha Hl) as (av & _ & -> & _). by eexists.
Qed.

(** ** Readers *)

Section readers.
Context a (Ha : inv a).

Lemma wp_get_item {A} k (conv : resource → outcome A) key (Q : option A → astate → Prop) :
  (content a k key = None → Q None a) →
  (∀ r, content a k key = Some r → kindof r = k → key_of r = key → no_slash (ns_of r) →
     is_Some (ns_ptr r) → ∃ x, conv r = Returns x ∧ Q (Some x) a) →
  wp (get_item k conv key) Q a.
Proof.
  intros HN HS. unfold get_item. apply wp_bind, wp_FindIn.
  destruct (idx a !! (k, key)) as [l|] eqn:Hl.
  - rewrite bool_decide_true by by eexists.
    destruct (content_inv a k key l Ha Hl) as (av & Hav & Hc & H1 & H2 & H3 & H4).
    destruct (HS _ Hc H1 H2 H3 H4) as (x & Hx & HQ). apply wp_bind.
    eapply wp_read; [exact Hav|exact Hx|]. by apply wp_ret.
  - rewrite bool_decide_false by by intros []. by apply wp_ret, HN, content_None.
Qed.

Lemma wp_getNamespace ns (Q : option DGateNamespace.t → astate → Prop) :
  (content a KNamespace ns = None → Q None a) →
  (∀ n, content a KNamespace ns = Some (RNamespace n) → DGateNamespace.Name n = ns →
     no_slash ns → Q (Some n) a) →
  wp (getNamespace ns) Q a.
Proof.
  intros HN HS. apply wp_get_item; [done|]. intros [n| | | | | |] Hc Hk Hkey Hs _; try done.
  exists n. split; [done|]. cbn in Hkey, Hs. unfold ns_of in Hs. cbn in Hs. subst. by apply HS.
Qed.

Lemma wp_getService name ns (Q : option DGateService.t → astate → Prop) :
  (content a KService (path name ns) = None → Q None a) →
  (∀ s, content a KService (path name ns) = Some (RService s) → Q (Some s) a) →
  wp (getService name ns) Q a.
Proof.
  intros HN HS. apply wp_get_item; [done|]. intros [|s| | | | |] Hc Hk Hkey Hs _; try done.
  exists s. auto.
Qed.

Lemma wp_getModule name ns (Q : option DGateModule.t → astate → Prop) :
  (content a KModule (path name ns) = None → Q None a) →
  (∀ s, content a KModule (path name ns) = Some (RModule s) → Q (Some s) a) →
  wp (getModule name ns) Q a.
Proof.
  intros HN HS. apply wp_get_item; [done|]. intros [| | |s| | |] Hc Hk Hkey Hs _; try done.
  exists s. auto.
Qed.

(** The vertex of a namespace, with its edge for the kind [k]. *)
Lemma ns_vertex ns n k e : content a KNamespace ns = Some (RNamespace n) → ns_edge k = Some e →
  ∃ lns m, idx a !! (KNamespace, ns) = Some lns ∧ items (gr a) !! lns = Some (RNamespace n) ∧
    nbrs (gr a) lns e = Some m ∧ ∀ name x,
      (m !! name = Some x → idx a !! (k, path name ns) = Some x) ∧
      (k ≠ KSecret → idx a !! (k, path name ns) = Some x → m !! name = Some x).
Proof.
  intros Hc He. unfold content in Hc. destruct (idx a !! (KNamespace, ns)) as [lns|] eqn:Hl; [|done].
  destruct (inv_owned a Ha ns lns Hl k e He) as (m & Hm & Hbi). by exists lns, m.
Qed.

End readers.

(** ** Replacing the item of a vertex *)

Lemma key_ns r1 r2 : kindof r1 = kindof r2 → key_of r1 = key_of r2 →
  no_slash (ns_of r1) → no_slash (ns_of r2) → ns_of r1 = ns_of r2.
Proof.
  intros Hk Hkey H1 H2. destruct r1, r2; try done; cbn in Hkey;
    try by (apply path_inj in Hkey as [_ ?]).
Qed.

Lemma replace_item a k key l av r : inv a → idx a !! (k, key) = Some l → gr a !! l = Some av →
  kindof r = k → key_of r = key → no_slash (ns_of r) → is_Some (ns_ptr r) →
  inv (a_item l av r a) ∧ updates a (a_item l av r a) k key (Some r).
Proof.
  intros Ha Hl Hav Hk Hkey Hs Hp.
  destruct (content_inv a k key l Ha Hl) as (av' & Hav' & _ & Hk' & Hkey' & Hs' & _).
  rewrite Hav in Hav'. injection Hav' as <-.
  assert (Hit : items (gr a) !! l = Some (aitem av)) by by rewrite items_lookup, Hav.
  assert (Hns : ns_of r = ns_of (aitem av)) by (apply key_ns; congruence).
  split; [split|].
  - views. apply typed_item; [apply Ha|done|congruence].
  - views. rewrite items_insert. cbn. apply (indexed_item _ _ l (aitem av)); try done; try congruence.
    apply Ha.
  - views. apply owned_item; [done|]. apply Ha.
  - views. apply (routes_frame (idx a) (idx a) (gr a)); [done| |apply Ha].
    intros key' l' r' Hl' Hr'. rewrite !nbrs_item by done. split; [|done].
    rewrite items_insert in Hr'. cbn in Hr'. destruct (decide (l = l')) as [<-|Hne].
    + rewrite lookup_insert_eq in Hr'. injection Hr' as <-. by exists (aitem av).
    + rewrite lookup_insert_ne in Hr' by done. by exists r'.
  - intros k' key'. unfold content. views. rewrite items_insert. views.
    destruct (idx a !! (k', key')) as [l'|] eqn:Hl'; cbn.
    + case_decide as Hd.
      * injection Hd as -> ->. rewrite Hl in Hl'. injection Hl' as <-. by rewrite lookup_insert_eq.
      * rewrite lookup_insert_ne; [done|]. intros <-. apply Hd.
        destruct (indexed_unique _ _ _ _ _ _ _ (inv_indexed a Ha) Hl Hl') as [-> ->]. done.
    + case_decide as Hd; [|done]. injection Hd as -> ->. congruence.
Qed.

(** ** A new vertex under a namespace *)

Lemma set_nbrs_comm g l1 n1 m1 l2 n2 m2 : l1 ≠ l2 →
  set_nbrs (set_nbrs g l1 n1 m1) l2 n2 m2 = set_nbrs (I := resource) (set_nbrs g l2 n2 m2) l1 n1 m1.
Proof. intros Hne. unfold set_nbrs. by apply alter_alter_ne. Qed.

Section fresh.
Context a (Ha : inv a) l (Hf : gr a !! l = None).

Lemma fresh_not_indexed k key l' : idx a !! (k, key) = Some l' → l ≠ l'.
Proof.
  intros Hl' <-. destruct (content_inv a k key l Ha Hl') as (av & Hav & _). congruence.
Qed.

Lemma fresh_items r names : items (gr a) !! l = None ∧
  items (gr (a_new l r names a)) = <[l := r]> (items (gr a)).
Proof. split; [by rewrite items_lookup, Hf|]. views. by rewrite items_insert. Qed.

Lemma inv_new r names : list_to_set names = (dom (schema (kindof r)) : gset string) →
  inv (a_new l r names a) ∧ unchanged a (a_new l r names a).
Proof.
  intros Hnames. destruct (fresh_items r names) as [Hf0 Hit]. split; [split|].
  - apply typed_new; [apply Ha|done|done].
  - views. rewrite items_insert. apply indexed_fresh; [apply Ha|done].
  - apply owned_new; [done| |apply Ha]. intros ns l' Hl'.
    destruct (content_inv a _ _ _ Ha Hl') as (av & Hav & _). by eexists.
  - apply (routes_frame (idx a) _ (gr a)); [done| |apply Ha]. intros key l' r' Hl' Hr'.
    rewrite Hit in Hr'. assert (Hne := fresh_not_indexed _ _ _ Hl').
    rewrite lookup_insert_ne in Hr' by done. views. rewrite !nbrs_insert_ne by done.
    split; [by exists r'|done].
  - intros k key. unfold content. rewrite Hit. views.
    destruct (idx a !! (k, key)) as [l'|] eqn:Hl'; [|done]. cbn.
    rewrite lookup_insert_ne; [done|]. by eapply fresh_not_indexed.
Qed.

(** Linking it to its namespace both ways and entering it in the index. *)
Lemma inv_link k e back name ns n lns m r names :
  list_to_set names = (dom (schema (kindof r)) : gset string) →
  kindof r = k → k ≠ KNamespace → k ≠ KRoute → ns_edge k = Some e →
  schema KNamespace !! e = Some k → schema k !! back = Some KNamespace →
  name_of r = name → ns_of r = ns → is_Some (ns_ptr r) →
  idx a !! (KNamespace, ns) = Some lns → items (gr a) !! lns = Some (RNamespace n) →
  nbrs (gr a) lns e = Some m → idx a !! (k, path name ns) = None →
  let a' := a_insert k (path name ns) l
              (a_set l back {[ns := lns]} (a_set lns e (<[name := l]> m) (a_new l r names a))) in
  inv a' ∧ updates a a' k (path name ns) (Some r).
Proof.
  intros Hnames Hk Hkn Hkr He Hse Hsb Hname Hns Hp Hlns Hitn Hm Hnone a'.
  destruct (fresh_items r names) as [Hf0 Hit]. destruct (inv_new r names Hnames) as [Hn Hun].
  assert (Hlne : l ≠ lns) by by eapply fresh_not_indexed.
  destruct (indexed_ns _ _ _ _ (inv_indexed a Ha) Hlns) as (_ & _ & _ & Hs).
  set (a0 := a_new l r names a) in *.
  assert (Hm0 : nbrs (gr a0) lns e = Some m) by (unfold a0; views; by rewrite nbrs_insert_ne).
  assert (Hl0 : items (gr a0) !! l = Some r) by (rewrite Hit; by rewrite lookup_insert_eq).
  assert (Hn0 : items (gr a0) !! lns = Some (RNamespace n)) by (rewrite Hit; by rewrite lookup_insert_ne).
  assert (Hkey : key_of r = path name ns) by (destruct r; try done; cbn in *; congruence).
  subst a'. split; [split|].
  - views. apply typed_set with r.
    + apply typed_set with (RNamespace n); [apply Hn|done|by eexists|].
      eapply leads_to_insert; [|exact Hl0|by rewrite Hk].
      by apply (inv_typed _ Hn lns _ Hn0).
    + rewrite items_set. done.
    + rewrite nbrs_set_ne by congruence.
      apply (inv_typed _ Hn l r Hl0 back). rewrite Hk. by eexists.
    + rewrite Hk. eapply leads_to_singleton; [rewrite items_set; exact Hn0|done].
  - views. rewrite !items_set. apply indexed_insert with r; try done; try congruence.
    + apply Hn.
    + right. rewrite Hns. by eexists.
  - views. rewrite set_nbrs_comm by done.
    eapply (owned_link (idx a) (items (gr a0))); [apply Hn| |done|done|].
    + apply owned_set; [|apply Hn]. intros ns' Hl'. by eapply fresh_not_indexed.
    + rewrite nbrs_set_ne by congruence. exact Hm0.
  - views. apply (routes_frame (idx a) _ (gr a0)); [| |apply Hn].
    + intros key l'. rewrite lookup_insert_ne by congruence. done.
    + intros key l' r' Hl' Hr'. rewrite !items_set in Hr'.
      assert (l ≠ l') by by eapply fresh_not_indexed.
      assert (lns ≠ l').
      { intros <-. by destruct (indexed_unique _ _ _ _ _ _ _ (inv_indexed a Ha) Hl' Hlns). }
      rewrite !nbrs_set_ne by congruence. split; [by exists r'|done].
  - intros k' key'. unfold content. views. rewrite !items_set. case_decide as Hd.
    + injection Hd as -> ->. rewrite lookup_insert_eq. cbn. done.
    + rewrite lookup_insert_ne by congruence. apply Hun.
Qed.

End fresh.

(** ** Namespaces *)

Lemma unchanged_refl a : unchanged a a.
Proof. done. Qed.

Lemma inv_cache a c : inv a → inv (a_cache c a).
Proof. intros []. by split. Qed.

Lemma inv_add_ns a l r names : inv a → gr a !! l = None →
  list_to_set names = (dom (schema KNamespace) : gset string) →
  kindof r = KNamespace → no_slash (key_of r) → idx a !! (KNamespace, key_of r) = None →
  let a' := a_insert KNamespace (key_of r) l (a_new l r names a) in
  inv a' ∧ updates a a' KNamespace (key_of r) (Some r).
Proof.
  intros Ha Hf Hnames Hk Hs Hnone a'. rewrite <-Hk in Hnames.
  destruct (inv_new a Ha l Hf r names Hnames) as [Hn Hun].
  destruct (fresh_items a l Hf r names) as [Hf0 Hit].
  assert (Hl0 : items (gr (a_new l r names a)) !! l = Some r) by (rewrite Hit; by rewrite lookup_insert_eq).
  destruct r as [n| | | | | |]; try done. subst a'. split; [split|].
  - apply Hn.
  - views. eapply (indexed_insert (idx a)); [apply Hn|exact Hl0|done|done|done|by eexists|by left].
  - views. eapply (owned_add_ns (idx a)); [apply Hn|done|done| |apply Hn].
    intros k e He. views. rewrite nbrs_insert_eq, Hnames. apply lookup_gset_to_gmap_Some.
    split; [|done]. apply elem_of_dom. by destruct k; cbn in He; simplify_eq.
  - views. apply (routes_frame (idx a) _ (gr (a_new l (RNamespace n) names a))); [| |apply Hn].
    + intros key l'. by rewrite lookup_insert_ne by congruence.
    + intros key l' r' _ Hr'. split; [by exists r'|done].
  - intros k' key'. unfold content. views. case_decide as Hd.
    + injection Hd as -> ->. by rewrite lookup_insert_eq.
    + rewrite lookup_insert_ne by congruence. apply Hun.
Qed.

Lemma AddNamespace_spec a ns : inv a → no_slash (Namespace.Name ns) →
  wp (AddNamespace ns) (λ n a', inv a' ∧ n = transformNamespace ns ∧
    updates a a' KNamespace (Namespace.Name ns) (Some (RNamespace n))) a.
Proof.
  intros Ha Hs. unfold AddNamespace. apply wp_bind, wp_FindIn.
  destruct (idx a !! (KNamespace, Namespace.Name ns)) as [l|] eqn:Hl.
  - rewrite bool_decide_true by by eexists.
    destruct (content_inv a _ _ l Ha Hl) as (av & Hav & _). cbn [default id].
    apply wp_bind. eapply wp_SetItem; [exact Hav|]. apply wp_ret.
    destruct (replace_item a _ _ l av (RNamespace (transformNamespace ns)) Ha Hl Hav); try done.
  - rewrite bool_decide_false by by intros []. apply wp_bind, wp_New. intros l Hl0 Hf.
    apply wp_bind, wp_InsertIn, wp_ret.
    destruct (inv_add_ns a l (RNamespace (transformNamespace ns))
      ["routes"; "services"; "modules"; "domains"; "collections"; "secrets"]); try done.
Qed.

(** The kinds that keep a namespace from being removed. *)
Definition guards (k : kind) : Prop := k ≠ KNamespace ∧ k ≠ KSecret.

Definition removed_or_kept (k : kind) (key : string) (err : option error) a a' : Prop :=
  match err with
  | None => is_Some (content a k key) ∧ updates a a' k key None
  | Some _ => a' = a
  end.

Lemma inv_delete_ns a ns : inv a → (∀ k name, guards k → idx a !! (k, path name ns) = None) →
  inv (a_delete KNamespace ns a) ∧ updates a (a_delete KNamespace ns a) KNamespace ns None.
Proof.
  intros Ha Hfree. split; [split|].
  - apply Ha.
  - views. apply indexed_delete; [apply Ha|]. intros _ k key l r Hk1 Hk2 Hl Hr Hns.
    destruct (inv_indexed a Ha _ _ _ Hl) as (r' & Hr' & Hk' & Hkey & _). rewrite Hr in Hr'.
    injection Hr' as <-. assert (Hp : key = path (name_of r) ns) by (destruct r; cbn in *; congruence).
    rewrite Hp, Hfree in Hl; [done|]. by split.
  - apply owned_delete_ns, Ha.
  - views. apply (routes_frame (idx a) _ (gr a)); [| |apply Ha].
    + intros key l'. by rewrite lookup_delete_ne by congruence.
    + intros key l' r' _ Hr'. split; [by exists r'|done].
  - intros k' key'. unfold content. views. case_decide as Hd.
    + injection Hd as -> ->. by rewrite lookup_delete_eq.
    + by rewrite lookup_delete_ne by congruence.
Qed.

(** One guard of [RemoveNamespace]. *)
Lemma wp_guard a ns n lns k e (rest : ST ResourceManager (option error)) err Q :
  inv a → idx a !! (KNamespace, ns) = Some lns → content a KNamespace ns = Some (RNamespace n) →
  ns_edge k = Some e → guards k →
  ((∃ name, is_Some (idx a !! (k, path name ns))) → Q (Some err) a) →
  ((∀ name, idx a !! (k, path name ns) = None) → wp rest Q a) →
  wp (n ← on (Len lns e); if 0 <? n then mret (Some err) else rest) Q a.
Proof.
  intros Ha Hl Hc He [Hk1 Hk2] Hyes Hno.
  destruct (ns_vertex a Ha ns n k e Hc He) as (lns' & m & Hl' & _ & Hm & Hbi).
  rewrite Hl in Hl'. injection Hl' as <-.
  apply wp_bind. eapply wp_Len; [exact Hm|]. destruct (Z.ltb_spec 0 (Z.of_nat (size m))) as [Hz|Hz].
  - apply wp_ret, Hyes. destruct (map_choose m) as (name & x & Hx).
    { intros ->. by rewrite map_size_empty in Hz. }
    exists name, x. by apply Hbi.
  - apply Hno. intros name. destruct (idx a !! (k, path name ns)) as [x|] eqn:Hx; [|done].
    apply Hbi in Hx; [|done]. assert (size m = 0%nat) as Hs0 by lia.
    apply map_size_empty_inv in Hs0 as ->. done.
Qed.

Lemma RemoveNamespace_spec a ns : inv a →
  wp (RemoveNamespace ns) (λ err a', inv a' ∧ removed_or_kept KNamespace ns err a a' ∧
    (err = None ↔ is_Some (content a KNamespace ns) ∧
       ∀ k name, guards k → content a k (path name ns) = None)) a.
Proof.
  intros Ha. unfold RemoveNamespace. apply wp_bind, wp_FindIn.
  destruct (idx a !! (KNamespace, ns)) as [lns|] eqn:Hl.
  2:{ rewrite bool_decide_false by by intros []. apply wp_ret. split; [done|]. split; [done|].
      split; [done|]. rewrite content_None by done. by intros [[] _]. }
  rewrite bool_decide_true by by eexists. cbn [negb default id].
  destruct (content_inv a _ _ lns Ha Hl) as (av & Hav & Hc & Hk & Hkey & Hs & _).
  destruct (aitem av) as [n| | | | | |] eqn:Hn; try done.
  assert (Hyes : ∀ k err, guards k → (∃ name, is_Some (idx a !! (k, path name ns))) →
    inv a ∧ removed_or_kept KNamespace ns (Some err) a a ∧
    (Some err = None ↔ is_Some (content a KNamespace ns) ∧
       ∀ k name, guards k → content a k (path name ns) = None)).
  { intros k err Hg [name Hname]. split; [done|]. split; [done|]. split; [done|].
    intros [_ Hnone]. rewrite inv_idx_content in Hname by done.
    rewrite Hnone in Hname by done. by destruct Hname. }
  eapply (wp_guard a ns n lns KRoute); try done; [by apply Hyes|intros H1].
  eapply (wp_guard a ns n lns KService); try done; [by apply Hyes|intros H2].
  eapply (wp_guard a ns n lns KModule); try done; [by apply Hyes|intros H3].
  eapply (wp_guard a ns n lns KDomain); try done; [by apply Hyes|intros H4].
  eapply (wp_guard a ns n lns KCollection); try done; [by apply Hyes|intros H5].
  apply wp_bind, wp_DeleteIn. rewrite Hl, bool_decide_true by by eexists. cbn [negb]. apply wp_ret.
  assert (Hfree : ∀ k name, guards k → idx a !! (k, path name ns) = None).
  { intros [] name [? ?]; auto; done. }
  destruct (inv_delete_ns a ns Ha Hfree) as [Hinv Hupd]. split; [done|].
  split; [split; [by rewrite Hc; eexists|done]|]. split; [|done]. intros _.
  split; [by rewrite Hc; eexists|]. intros k name Hg. by apply content_None, Hfree.
Qed.

(** ** Resources linked to a namespace and nothing else *)

(** The static facts of a kind: its edge at the namespace, its edge back. *)
Definition linked_kind (k : kind) (e back : string) (names : list string) : Prop :=
  k ≠ KNamespace ∧ k ≠ KRoute ∧ ns_edge k = Some e ∧ schema KNamespace !! e = Some k ∧
  schema k !! back = Some KNamespace ∧ list_to_set names = (dom (schema k) : gset string).

Definition under r k name ns : Prop :=
  kindof r = k ∧ name_of r = name ∧ ns_of r = ns ∧ is_Some (ns_ptr r).

Lemma under_intro r k name ns n : kindof r = k → name_of r = name → ns_ptr r = Some n →
  DGateNamespace.Name n = ns → under r k name ns.
Proof.
  intros Hk Hn Hp Hns. split; [done|]. split; [done|].
  split; [unfold ns_of; by rewrite Hp|by rewrite Hp; eexists].
Qed.

Lemma under_key r k name ns : under r k name ns → k ≠ KNamespace → key_of r = path name ns.
Proof. intros (<- & <- & <- & _) Hk. by destruct r. Qed.

Lemma wp_add_linked {A} a k e names name ns n r (x : A) (err : error)
    (Q : gores A → astate → Prop) :
  inv a → linked_kind k e "namespace" names → under r k name ns →
  content a KNamespace ns = Some (RNamespace n) →
  (∀ a', inv a' → updates a a' k (path name ns) (Some r) → Q (Ok x) a') →
  wp ('(lk, ok) ← FindIn k (path name ns);
      if (ok : bool) then _ ← on (SetItem lk r); mret (Ok x)
      else
        lk ← on (NewNamedVertexWithValue r names);
        '(nsLk, ok) ← FindIn KNamespace ns;
        if (ok : bool) then
          _ ← on (LinkOneMany nsLk e name lk);
          _ ← on (LinkOneOne lk "namespace" ns nsLk);
          _ ← InsertIn k (path name ns) lk;
          mret (Ok x)
        else mret (Err err)) Q a.
Proof.
  intros Ha (Hkn & Hkr & He & Hse & Hsb & Hnames) Hr Hc HQ.
  pose proof (under_key _ _ _ _ Hr Hkn) as Hkey. destruct Hr as (Hk & Hname & Hns & Hp).
  destruct (ns_vertex a Ha ns n k e Hc He) as (lns & m & Hlns & Hitn & Hm & Hbi).
  destruct (indexed_ns _ _ _ _ (inv_indexed a Ha) Hlns) as (_ & _ & _ & Hs).
  apply wp_bind, wp_FindIn. destruct (idx a !! (k, path name ns)) as [l|] eqn:Hl.
  - rewrite bool_decide_true by by eexists.
    destruct (content_inv a _ _ l Ha Hl) as (av & Hav & _). cbn [default id].
    apply wp_bind. eapply wp_SetItem; [exact Hav|]. apply wp_ret.
    destruct (replace_item a k _ l av r Ha Hl Hav); try done; [by rewrite Hns|by apply HQ].
  - rewrite bool_decide_false by by intros []. apply wp_bind, wp_New. intros l Hl0 Hf.
    assert (Hne : l ≠ lns) by by eapply fresh_not_indexed.
    apply wp_bind, wp_FindIn. views. rewrite Hlns, bool_decide_true by by eexists. cbn [default id].
    apply wp_bind. eapply wp_LinkOneMany; [views; rewrite nbrs_insert_ne by done; exact Hm|].
    apply wp_bind. eapply wp_LinkOneOne.
    { views. rewrite nbrs_set_ne by congruence. rewrite nbrs_insert_eq, Hnames.
      apply lookup_gset_to_gmap_Some. split; [|done]. apply elem_of_dom. by rewrite Hsb. }
    { by intros ? ?%elem_of_dom%is_Some_None. }
    apply wp_bind, wp_InsertIn, wp_ret. subst k.
    destruct (inv_link a Ha l Hf (kindof r) e "namespace" name ns n lns m r names); try done.
    by apply HQ.
Qed.

Lemma inv_unlink a k e back name ns lns l m r mb' :
  inv a → k ≠ KNamespace → k ≠ KRoute → ns_edge k = Some e → schema KNamespace !! e = Some k →
  is_Some (schema k !! back) →
  idx a !! (KNamespace, ns) = Some lns → idx a !! (k, path name ns) = Some l →
  items (gr a) !! l = Some r → kindof r = k →
  nbrs (gr a) lns e = Some m → leads_to (gr a) k back mb' →
  let a' := a_delete k (path name ns) (a_set l back mb' (a_set lns e (delete name m) a)) in
  inv a' ∧ updates a a' k (path name ns) None.
Proof.
  intros Ha Hkn Hkr He Hse Hsb Hlns Hl Hr Hk Hm Hmb a'. subst a'.
  destruct (indexed_ns _ _ _ _ (inv_indexed a Ha) Hlns) as (n & Hn & _ & Hs).
  assert (Hne : l ≠ lns).
  { intros <-. by destruct (indexed_unique _ _ _ _ _ _ _ (inv_indexed a Ha) Hl Hlns). }
  split; [split|].
  - views. apply typed_set with r.
    + apply typed_set with (RNamespace n); [apply Ha|done|by eexists|].
      apply leads_to_delete. by apply (inv_typed _ Ha lns _ Hn).
    + by rewrite items_set.
    + rewrite nbrs_set_ne by congruence. apply (inv_typed _ Ha l r Hr back). by rewrite Hk.
    + intros key x Hx. rewrite items_set, Hk. by apply (Hmb key).
  - views. rewrite !items_set. apply indexed_delete; [apply Ha|]. by intros ->.
  - views. rewrite set_nbrs_comm by done.
    eapply (owned_unlink (idx a) (items (gr a))); [apply Ha| |done|done|].
    + apply owned_set; [|apply Ha]. intros ns' Hl'.
      by destruct (indexed_unique _ _ _ _ _ _ _ (inv_indexed a Ha) Hl Hl').
    + by rewrite nbrs_set_ne by congruence.
  - views. apply (routes_frame (idx a) _ (gr a)); [| |apply Ha].
    + intros key l'. by rewrite lookup_delete_ne by congruence.
    + intros key l' r' Hl' Hr'. rewrite !items_set in Hr'.
      assert (l ≠ l').
      { intros <-. by destruct (indexed_unique _ _ _ _ _ _ _ (inv_indexed a Ha) Hl Hl'). }
      assert (lns ≠ l').
      { intros <-. by destruct (indexed_unique _ _ _ _ _ _ _ (inv_indexed a Ha) Hl' Hlns). }
      rewrite !nbrs_set_ne by congruence. split; [by exists r'|done].
  - intros k' key'. unfold content. views. rewrite !items_set. case_decide as Hd.
    + injection Hd as -> ->. by rewrite lookup_delete_eq.
    + by rewrite lookup_delete_ne by congruence.
Qed.

(** A removal: [None] exactly when the resource and its namespace are there
    and [ok] holds; the content follows the answer. *)
Definition removal k name ns (ok : Prop) (err : option error) a a' : Prop :=
  inv a' ∧
  match err with
  | None => updates a a' k (path name ns) None
  | Some _ => unchanged a a'
  end ∧
  (err = None ↔ is_Some (content a k (path name ns)) ∧ is_Some (content a KNamespace ns) ∧ ok).

Lemma removal_missing k name ns ok e a : inv a → idx a !! (k, path name ns) = None →
  removal k name ns ok (Some e) a a.
Proof.
  intros Ha Hl. split; [done|]. split; [done|]. split; [done|].
  rewrite content_None by done. by intros [[] _].
Qed.

Lemma removal_no_ns k name ns ok e a : inv a → idx a !! (KNamespace, ns) = None →
  removal k name ns ok (Some e) a a.
Proof.
  intros Ha Hl. split; [done|]. split; [done|]. split; [done|].
  rewrite (content_None a KNamespace) by done. by intros (_ & [] & _).
Qed.

Lemma removal_refused k name ns (ok : Prop) e a : inv a → ¬ ok → removal k name ns ok (Some e) a a.
Proof. intros Ha Hok. split; [done|]. split; [done|]. split; [done|]. by intros (_ & _ & ?). Qed.

Lemma removal_done k name ns (ok : Prop) a a' : inv a' → updates a a' k (path name ns) None →
  inv a → is_Some (idx a !! (k, path name ns)) → is_Some (idx a !! (KNamespace, ns)) → ok →
  removal k name ns ok None a a'.
Proof.
  intros Ha' Hu Ha H1 H2 Hok. split; [done|]. split; [done|]. split; [|done]. intros _.
  by rewrite <-!inv_idx_content.
Qed.

(** The unlinking that all removals end with. *)
Lemma wp_remove_linked a k e back names name ns lns l (unlink : ST (store resource) (loc * bool))
    (Q : option error → astate → Prop) msg :
  inv a → linked_kind k e back names → idx a !! (KNamespace, ns) = Some lns →
  idx a !! (k, path name ns) = Some l →
  (∀ a0 mb (P : loc * bool → astate → Prop), nbrs (gr a0) l back = Some mb →
     (∀ mb' (r : loc * bool), (∀ g, leads_to g k back mb → leads_to g k back mb') → P r (a_set l back mb' a0)) →
     wp (on unlink) P a0) →
  (∀ a', inv a' → updates a a' k (path name ns) None → Q None a') →
  wp (_ ← on (UnlinkOneMany lns e name); _ ← on unlink;
      deleted ← DeleteIn k (path name ns);
      if negb deleted then st_panic msg else mret None) Q a.
Proof.
  intros Ha (Hkn & Hkr & He & Hse & Hsb & Hnames) Hlns Hl Hunlink HQ.
  destruct (inv_owned a Ha ns lns Hlns k e He) as (m & Hm & _).
  destruct (inv_indexed a Ha _ _ _ Hl) as (r & Hr & Hk & _).
  destruct (inv_typed a Ha l r Hr back) as [Hmb Hlead]. rewrite Hk in Hmb, Hlead.
  destruct Hmb as [mb Hmb]; [by rewrite Hsb|].
  assert (Hne : l ≠ lns).
  { intros <-. by destruct (indexed_unique _ _ _ _ _ _ _ (inv_indexed a Ha) Hl Hlns). }
  apply wp_bind. eapply wp_UnlinkOneMany; [exact Hm|]. intros r1.
  apply wp_bind. apply (Hunlink _ mb).
  { views. by rewrite nbrs_set_ne by congruence. }
  intros mb' r2 Hlead'. apply wp_bind, wp_DeleteIn. views.
  rewrite Hl, bool_decide_true by by eexists. cbn [negb]. apply wp_ret.
  destruct (inv_unlink a k e back name ns lns l m r mb') as [Hi Hu]; try done.
  - by apply Hlead', Hlead.
  - by apply HQ.
Qed.

Lemma unlink_all k l back a0 mb (P : loc * bool → astate → Prop) :
  nbrs (gr a0) l back = Some mb →
  (∀ mb' (r : loc * bool), (∀ g, leads_to g k back mb → leads_to g k back mb') → P r (a_set l back mb' a0)) →
  wp (on (UnlinkOneOne l back)) P a0.
Proof.
  intros Hmb HP. eapply wp_UnlinkOneOne; [exact Hmb|]. intros r. apply HP.
  intros g _. apply leads_to_empty.
Qed.

Lemma unlink_key k l back key a0 mb (P : loc * bool → astate → Prop) :
  nbrs (gr a0) l back = Some mb →
  (∀ mb' (r : loc * bool), (∀ g, leads_to g k back mb → leads_to g k back mb') → P r (a_set l back mb' a0)) →
  wp (on (UnlinkOneMany l back key)) P a0.
Proof.
  intros Hmb HP. eapply wp_UnlinkOneMany; [exact Hmb|]. intros r. apply HP.
  intros g Hg. by apply leads_to_delete.
Qed.

End proofs.
