(* ===== verification/ResourceOps.v ===== *)
(** * The operations on services, domains, modules, collections and secrets

    Specifications in the style of ResourceProofs.v: what each answers, and
    what it makes of the content. *)
From Stdlib Require Import ZArith Lia.
From stdpp Require Import base gmap strings list fin_maps.
From S2P Require Import Prelude Avl SliceUtil Pattern Base64 Spec Linker ResourceManager.
From S2P Require Import ResourceLogic ResourceInvariant ResourceProofs.

Section ops.
Context {E : Externals} {R : Runtime}.
Implicit Types (a : astate) (l : loc).

(** What an addition answers: the record built over the stored namespace, or
    an error that changes nothing. *)
Definition addition {A} (k : kind) (name ns : string) (wrap : A → resource)
    (build : DGateNamespace.t → gores A) (r : gores A) a a' : Prop :=
  inv a' ∧
  match content a KNamespace ns with
  | Some (RNamespace n) =>
    r = build n ∧
    match r with
    | Ok x => updates a a' k (path name ns) (Some (wrap x))
    | Err _ => unchanged a a'
    end
  | _ => r = Err (ErrNamespaceNotFound ns) ∧ unchanged a a'
  end.

Lemma linked_domain : linked_kind KDomain "domains" "namespace" ["namespace"].
Proof. by repeat split. Qed.
Lemma linked_module : linked_kind KModule "modules" "namespace" ["namespace"; "routes"].
Proof. by repeat split. Qed.
Lemma linked_collection : linked_kind KCollection "collections" "namespace" ["namespace"].
Proof. by repeat split. Qed.
Lemma linked_secret : linked_kind KSecret "secrets" "namespace" ["namespace"].
Proof. by repeat split. Qed.
Lemma linked_service : linked_kind KService "services" "namespaces" ["routes"; "namespaces"].
Proof. by repeat split. Qed.

(** ** Additions *)

Lemma addition_none {A} k name ns (wrap : A → resource) build a :
  inv a → content a KNamespace ns = None →
  addition k name ns wrap build (Err (ErrNamespaceNotFound ns)) a a.
Proof. intros Ha Hc. split; [done|]. by rewrite Hc. Qed.

Lemma addition_ok {A} k name ns n (wrap : A → resource) build x a a' :
  inv a' → content a KNamespace ns = Some (RNamespace n) → build n = Ok x →
  updates a a' k (path name ns) (Some (wrap x)) →
  addition k name ns wrap build (Ok x) a a'.
Proof. intros Ha Hc Hx Hu. split; [done|]. by rewrite Hc, Hx. Qed.

Lemma addition_err {A} k name ns n (wrap : A → resource) build e a :
  inv a → content a KNamespace ns = Some (RNamespace n) → build n = Err e →
  addition k name ns wrap build (Err e) a a.
Proof. intros Ha Hc He. split; [done|]. by rewrite Hc, He. Qed.

Definition build_domain (d : Domain.t) (n : DGateNamespace.t) : gores DGateDomain.t :=
  Ok (DGateDomain.mk (Domain.Name d) 0 0 (Some n) (Domain.Patterns d) (Domain.Priority d)
        (Domain.Cert d) (Domain.Key d) (Domain.Tags d)).

Lemma AddDomain_spec a d : inv a →
  wp (AddDomain d) (λ r a', addition KDomain (Domain.Name d) (Domain.NamespaceName d) RDomain
    (build_domain d) r a a' ∧ cached a' = match r with Ok _ => None | Err _ => cached a end) a.
Proof.
  intros Ha. unfold AddDomain, transformDomain. apply wp_bind, wp_bind, wp_getNamespace; [done| |].
  - intros Hc. apply wp_ret, wp_ret. split; [by apply addition_none|done].
  - intros n Hc Hn Hs. apply wp_ret. cbv beta iota. apply wp_bind.
    eapply (wp_add_linked a KDomain "domains" ["namespace"]);
      [done|apply linked_domain|by eapply under_intro|done|].
    intros a' Ha' Hu. apply wp_bind, wp_set_cache, wp_ret. split; [|done].
    eapply addition_ok; [by apply inv_cache|done|done|exact Hu].
Qed.

Definition build_module (m : Module_.t) (n : DGateNamespace.t) : gores DGateModule.t :=
  TransformModule (Some n) m.

Lemma AddModule_spec a m : inv a →
  wp (AddModule m) (λ r a', addition KModule (Module_.Name m) (Module_.NamespaceName m) RModule
    (build_module m) r a a') a.
Proof.
  intros Ha. unfold AddModule, transformModule. apply wp_bind, wp_bind, wp_getNamespace; [done| |].
  - intros Hc. apply wp_ret, wp_ret. by apply addition_none.
  - intros n Hc Hn Hs. apply wp_ret. cbv beta iota.
    destruct (TransformModule (Some n) m) as [md|err] eqn:Hmd.
    + unfold TransformModule in Hmd. destruct (StdDecodeString _) as [payload|] eqn:Hd; [|done].
      injection Hmd as <-. eapply (wp_add_linked a KModule "modules" ["namespace"; "routes"]);
        [done|apply linked_module|by eapply under_intro|done|].
      intros a' Ha' Hu. eapply addition_ok; [done|done| |exact Hu].
      unfold build_module, TransformModule. by rewrite Hd.
    + apply wp_ret. by eapply addition_err.
Qed.

Definition build_secret (s : Secret.t) (n : DGateNamespace.t) : gores DGateSecret.t :=
  TransformSecret (Some n) s.

Lemma TransformSecret_under ns s sec : TransformSecret (Some ns) s = Ok sec →
  under (RSecret sec) KSecret (Secret.Name s) (DGateNamespace.Name ns).
Proof.
  unfold TransformSecret. destruct (if String.eqb _ _ then _ else _) as [payload|]; [|done].
  intros [= <-]. by eapply under_intro.
Qed.

Lemma AddSecret_spec a s : inv a →
  wp (AddSecret s) (λ r a', addition KSecret (Secret.Name s) (Secret.NamespaceName s) RSecret
    (build_secret s) r a a') a.
Proof.
  intros Ha. unfold AddSecret, transformSecret. apply wp_bind, wp_bind, wp_getNamespace; [done| |].
  - intros Hc. apply wp_ret, wp_ret. by apply addition_none.
  - intros n Hc Hn Hs. apply wp_ret. cbv beta iota.
    destruct (TransformSecret (Some n) s) as [sec|err] eqn:Hsec.
    + apply TransformSecret_under in Hsec as Hu. rewrite Hn in Hu.
      eapply (wp_add_linked a KSecret "secrets" ["namespace"]); [done|apply linked_secret|done..|].
      intros a' Ha' Hup. by eapply addition_ok.
    + apply wp_ret. by eapply addition_err.
Qed.

(** The schema compiler accepts the collection's schema. *)
Definition schema_compiles (c : Collection.t) : Prop :=
  ∀ n, ∃ cl, TransformCollection (Some n) c = Returns cl.
Definition build_collection (c : Collection.t) (n : DGateNamespace.t) : gores DGateCollection.t :=
  match TransformCollection (Some n) c with Returns cl => Ok cl | Panics e => Err e end.

Lemma TransformCollection_under ns c cl : TransformCollection (Some ns) c = Returns cl →
  under (RCollection cl) KCollection (Collection.Name c) (DGateNamespace.Name ns).
Proof.
  unfold TransformCollection. run. intros Hcl.
  destruct (match Collection.Schema c with None => _ | Some _ => _ end) as [[sc sd]|]; [|done].
  injection Hcl as <-. by eapply under_intro.
Qed.

Lemma AddCollection_spec a c : inv a → schema_compiles c →
  wp (AddCollection c) (λ r a', addition KCollection (Collection.Name c)
    (Collection.NamespaceName c) RCollection (build_collection c) r a a') a.
Proof.
  intros Ha Hok. unfold AddCollection, transformCollection.
  apply wp_bind, wp_bind, wp_getNamespace; [done| |].
  - intros Hc. apply wp_ret, wp_ret. by apply addition_none.
  - intros n Hc Hn Hs. destruct (Hok n) as [cl Hcl]. apply wp_bind.
    eapply wp_lift; [exact Hcl|]. apply wp_ret. cbv beta iota.
    apply TransformCollection_under in Hcl as Hu. rewrite Hn in Hu.
    eapply (wp_add_linked a KCollection "collections" ["namespace"]); [done|apply linked_collection|done..|].
    intros a' Ha' Hup. eapply addition_ok; [done|done| |done]. unfold build_collection.
    by rewrite Hcl.
Qed.

Definition build_service (s : Service.t) (n : DGateNamespace.t) : gores DGateService.t :=
  Ok (TransformService (Some n) s).

Lemma AddService_spec a s : inv a →
  wp (AddService s) (λ r a', addition KService (Service.Name s) (Service.NamespaceName s) RService
    (build_service s) r a a') a.
Proof.
  intros Ha. unfold AddService, transformService. apply wp_bind, wp_bind, wp_getNamespace; [done| |].
  - intros Hc. apply wp_ret, wp_ret. by apply addition_none.
  - intros n Hc Hn Hs. apply wp_ret. cbv beta iota.
    set (svc := TransformService (Some n) s). set (name := Service.Name s).
    set (ns := Service.NamespaceName s) in *.
    assert (Hu : under (RService svc) KService name ns) by
      by eapply under_intro.
    destruct linked_service as (Hkn & Hkr & He & Hse & Hsb & Hnames).
    pose proof (under_key _ _ _ _ Hu Hkn) as Hkey.
    destruct (ns_vertex a Ha ns n KService "services" Hc He) as (lns & m & Hlns & Hitn & Hm & Hbi).
    apply wp_bind, wp_FindIn. destruct (idx a !! (KService, path name ns)) as [l|] eqn:Hl.
    + rewrite bool_decide_true by by eexists.
      destruct (content_inv a _ _ l Ha Hl) as (av & Hav & _). cbn [default id].
      apply wp_bind. eapply wp_SetItem; [exact Hav|]. apply wp_ret.
      destruct (replace_item a KService _ l av (RService svc) Ha Hl Hav) as [Hi Hup]; try done.
      * unfold ns_of. cbn. by rewrite Hn.
      * by eapply addition_ok.
    + rewrite bool_decide_false by by intros []. apply wp_bind, wp_New. intros l Hl0 Hf.
      assert (Hne : l ≠ lns) by by eapply fresh_not_indexed.
      apply wp_bind, wp_FindIn. views. rewrite Hlns, bool_decide_true by by eexists.
      cbn [default id]. apply wp_bind. eapply wp_LinkOneMany.
      { views. rewrite nbrs_insert_eq, Hnames.
        apply lookup_gset_to_gmap_Some. split; [|done]. apply elem_of_dom. by rewrite Hsb. }
      apply wp_bind. eapply wp_LinkOneMany.
      { views. rewrite nbrs_set_ne by congruence. by rewrite nbrs_insert_ne. }
      apply wp_bind, wp_InsertIn, wp_ret.
      destruct (inv_link a Ha l Hf KService "services" "namespaces" name ns n lns m (RService svc)
        ["routes"; "namespaces"]) as [Hi Hup]; try done.
      revert Hi Hup. unfold a_insert, a_set. views. rewrite set_nbrs_comm by done.
      intros Hi Hup. by eapply addition_ok.
Qed.

(** ** Removals *)

(** How many routes a vertex of the dictionary has linked. *)
Definition route_links a (k : kind) (key : string) : nat :=
  match (l ← idx a !! (k, key); nbrs (gr a) l "routes") with
  | Some m => size m
  | None => 0%nat
  end.

Lemma removal_cache k name ns ok err a a' c :
  removal k name ns ok err a a' → removal k name ns ok err a (a_cache c a').
Proof. intros (Hi & Hc & Hr). split; [by apply inv_cache|]. split; [|done]. by destruct err. Qed.

Lemma RemoveDomain_spec a name ns : inv a →
  wp (RemoveDomain name ns) (λ err a', removal KDomain name ns True err a a' ∧
    cached a' = None) a.
Proof.
  intros Ha. unfold RemoveDomain. apply wp_bind.
  eapply (wp_mono _ (λ err a', removal KDomain name ns True err a a')).
  { intros err a' Hr. apply wp_bind, wp_set_cache, wp_ret. split; [by apply removal_cache|done]. }
  apply wp_bind, wp_FindIn. destruct (idx a !! (KDomain, path name ns)) as [l|] eqn:Hl.
  2:{ rewrite bool_decide_false by by intros []. apply wp_ret. by apply removal_missing. }
  rewrite bool_decide_true by by eexists. cbn [default id]. apply wp_bind, wp_FindIn.
  destruct (idx a !! (KNamespace, ns)) as [lns|] eqn:Hlns.
  2:{ rewrite bool_decide_false by by intros []. apply wp_ret. by apply removal_no_ns. }
  rewrite bool_decide_true by by eexists. cbn [default id].
  eapply (wp_remove_linked a KDomain "domains" "namespace" ["namespace"] name ns lns l);
    [done|apply linked_domain|done|done| |].
  - intros a0 mb P. by apply (unlink_key KDomain l "namespace" ns a0 mb P).
  - intros a' Ha' Hu. apply removal_done; try done; by eexists.
Qed.

Lemma RemoveCollection_spec a name ns : inv a →
  wp (RemoveCollection name ns) (λ err a', removal KCollection name ns True err a a') a.
Proof.
  intros Ha. unfold RemoveCollection.
  apply wp_bind, wp_FindIn. destruct (idx a !! (KCollection, path name ns)) as [l|] eqn:Hl.
  2:{ rewrite bool_decide_false by by intros []. apply wp_ret. by apply removal_missing. }
  rewrite bool_decide_true by by eexists. cbn [default id negb]. apply wp_bind, wp_FindIn.
  destruct (idx a !! (KNamespace, ns)) as [lns|] eqn:Hlns.
  2:{ rewrite bool_decide_false by by intros []. apply wp_ret. by apply removal_no_ns. }
  rewrite bool_decide_true by by eexists. cbn [default id negb].
  eapply (wp_remove_linked a KCollection "collections" "namespace" ["namespace"] name ns lns l);
    [done|apply linked_collection|done|done| |].
  - intros a0 mb P. by apply (unlink_all KCollection l "namespace" a0 mb P).
  - intros a' Ha' Hu. apply removal_done; try done; by eexists.
Qed.

Lemma RemoveModule_spec a name ns : inv a →
  wp (RemoveModule name ns) (λ err a',
    removal KModule name ns (route_links a KModule (path name ns) = 0%nat) err a a') a.
Proof.
  intros Ha. unfold RemoveModule.
  apply wp_bind, wp_FindIn. destruct (idx a !! (KModule, path name ns)) as [l|] eqn:Hl.
  2:{ rewrite bool_decide_false by by intros []. apply wp_ret. by apply removal_missing. }
  rewrite bool_decide_true by by eexists. cbn [default id negb].
  destruct (inv_indexed a Ha _ _ _ Hl) as (r & Hr & Hk & _).
  destruct (inv_typed a Ha l r Hr "routes") as [[m Hm] _]; [by rewrite Hk; eexists|].
  assert (Hlinks : route_links a KModule (path name ns) = size m) by
    (unfold route_links; rewrite Hl; cbn; by rewrite Hm).
  apply wp_bind. eapply wp_Len; [exact Hm|].
  destruct (Z.ltb_spec 0 (Z.of_nat (size m))) as [Hz|Hz].
  { apply wp_ret, removal_refused; [done|]. rewrite Hlinks. lia. }
  apply wp_bind, wp_FindIn. destruct (idx a !! (KNamespace, ns)) as [lns|] eqn:Hlns.
  2:{ rewrite bool_decide_false by by intros []. apply wp_ret. by apply removal_no_ns. }
  rewrite bool_decide_true by by eexists. cbn [default id negb].
  eapply (wp_remove_linked a KModule "modules" "namespace" ["namespace"; "routes"] name ns lns l);
    [done|apply linked_module|done|done| |].
  - intros a0 mb P. by apply (unlink_all KModule l "namespace" a0 mb P).
  - intros a' Ha' Hu. apply removal_done; try done; try by eexists. rewrite Hlinks. lia.
Qed.

(** No vertex of a secret has a "routes" edge with a target. *)
Lemma secret_routes a l r : inv a → items (gr a) !! l = Some r → kindof r = KSecret →
  ∀ m, nbrs (gr a) l "routes" = Some m → m = ∅.
Proof.
  intros Ha Hr Hk m Hm. apply map_empty. intros key. apply eq_None_not_Some. intros [x Hx].
  destruct (inv_typed a Ha l r Hr "routes") as [_ Hlead].
  destruct (Hlead m Hm key x Hx) as (r' & _ & Hs). by rewrite Hk in Hs.
Qed.

Lemma RemoveSecret_spec a name ns : inv a →
  wp (RemoveSecret name ns) (λ err a', removal KSecret name ns True err a a') a.
Proof.
  intros Ha. unfold RemoveSecret.
  apply wp_bind, wp_FindIn. destruct (idx a !! (KSecret, path name ns)) as [l|] eqn:Hl.
  2:{ rewrite bool_decide_false by by intros []. apply wp_ret. by apply removal_missing. }
  rewrite bool_decide_true by by eexists. cbn [default id negb].
  destruct (inv_indexed a Ha _ _ _ Hl) as (r & Hr & Hk & _).
  pose proof (secret_routes a l r Ha Hr Hk) as Hempty.
  destruct (content_inv a _ _ l Ha Hl) as (av & Hav & _).
  assert (Hlen : ∀ Q : Z → astate → Prop, Q 0 a → wp (on (Len l "routes")) Q a).
  { intros Q HQ. destruct (nbrs (gr a) l "routes") as [m|] eqn:Hm.
    - eapply wp_Len; [exact Hm|]. by rewrite (Hempty m eq_refl).
    - eapply wp_Len_missing; [exact Hav| |exact HQ]. unfold nbrs in Hm. by rewrite Hav in Hm. }
  apply wp_bind, Hlen. cbn. apply wp_bind, wp_FindIn.
  destruct (idx a !! (KNamespace, ns)) as [lns|] eqn:Hlns.
  2:{ rewrite bool_decide_false by by intros []. apply wp_ret. by apply removal_no_ns. }
  rewrite bool_decide_true by by eexists. cbn [default id negb].
  eapply (wp_remove_linked a KSecret "secrets" "namespace" ["namespace"] name ns lns l);
    [done|apply linked_secret|done|done| |].
  - intros a0 mb P. by apply (unlink_all KSecret l "namespace" a0 mb P).
  - intros a' Ha' Hu. apply removal_done; try done; by eexists.
Qed.

(** [Get] answers for no link and for one; with more it panics. *)
Lemma RemoveService_spec a name ns : inv a →
  (is_Some (content a KNamespace ns) → route_links a KService (path name ns) ≤ 1)%nat →
  wp (RemoveService name ns) (λ err a',
    removal KService name ns (route_links a KService (path name ns) = 0%nat) err a a') a.
Proof.
  intros Ha Hle. apply wp_nil. intros Hnil0. unfold RemoveService.
  apply wp_bind, wp_FindIn. destruct (idx a !! (KService, path name ns)) as [l|] eqn:Hl.
  2:{ rewrite bool_decide_false by by intros []. apply wp_ret. by apply removal_missing. }
  rewrite bool_decide_true by by eexists. cbn [default id negb].
  destruct (inv_indexed a Ha _ _ _ Hl) as (r & Hr & Hk & _).
  destruct (inv_typed a Ha l r Hr "routes") as [[m Hm] Hlead]; [by rewrite Hk; eexists|].
  assert (Hlinks : route_links a KService (path name ns) = size m) by
    (unfold route_links; rewrite Hl; cbn; by rewrite Hm).
  rewrite Hlinks in Hle. rewrite <-inv_idx_content in Hle by done.
  apply wp_bind, wp_FindIn. destruct (idx a !! (KNamespace, ns)) as [lns|] eqn:Hlns.
  2:{ rewrite bool_decide_false by by intros []. apply wp_ret. by apply removal_no_ns. }
  rewrite bool_decide_true by by eexists. cbn [default id negb].
  apply wp_bind. eapply wp_Get; [exact Hm| |intros key x Hx|by apply Hle; eexists].
  - intros ->. cbn [N.eqb nil negb].
    eapply (wp_remove_linked a KService "services" "namespaces" ["routes"; "namespaces"] name ns lns l);
      [done|apply linked_service|done|done| |].
    + intros a0 mb P. by apply (unlink_key KService l "namespaces" ns a0 mb P).
    + intros a' Ha' Hu. apply removal_done; try done; by eexists.
  - assert (Hnil : x ≠ nil).
    { destruct (Hlead m Hm key x) as (r' & Hr' & _).
      { by rewrite Hx, lookup_singleton_eq. }
      intros ->. by rewrite items_lookup, Hnil0 in Hr'. }
    apply N.eqb_neq in Hnil. rewrite Hnil. cbn [negb].
    apply wp_ret, removal_refused; [done|]. rewrite Hlinks, Hx, map_size_singleton. done.
Qed.

(** *** The panic of [RemoveService] *)

Lemma FindIn_rel k key rm a : rel rm a →
  FindIn k key rm =
    Returns ((default nil (idx a !! (k, key)), bool_decide (is_Some (idx a !! (k, key)))), rm).
Proof.
  intros (Ht & _ & Hidx & _). unfold FindIn. st. rewrite Find_ok by done. by rewrite Hidx.
Qed.

Lemma RemoveService_two a rm name ns : rel rm a → inv a →
  is_Some (content a KService (path name ns)) → is_Some (content a KNamespace ns) →
  (2 ≤ route_links a KService (path name ns))%nat →
  RemoveService name ns rm = Panics one_edge.
Proof.
  intros Hrm Ha Hs Hn Hlinks. rewrite <-!inv_idx_content in Hs, Hn by done.
  destruct Hs as [l Hl], Hn as [lns Hlns]. unfold RemoveService. st.
  rewrite (FindIn_rel _ _ _ _ Hrm), Hl, bool_decide_true by by eexists. cbn [default id negb].
  st. rewrite (FindIn_rel _ _ _ _ Hrm), Hlns, bool_decide_true by by eexists.
  cbn [default id negb]. st. unfold on.
  unfold route_links in Hlinks. rewrite Hl in Hlinks. cbn in Hlinks.
  destruct (nbrs (gr a) l "routes") as [m|] eqn:Hm; [|lia].
  destruct Hrm as (_ & Hg & _ & Hgr & _). rewrite Hgr in Hm.
  destruct (Get_ok _ l "routes" m Hg Hm) as (_ & _ & G2). by rewrite G2.
Qed.

End ops.
