(* ===== verification/ResourceRoutes.v ===== *)
(** * The operations on routes *)
From Stdlib Require Import ZArith Lia Sorting.Permutation.
From stdpp Require Import base gmap strings list fin_maps.
From S2P Require Import Prelude Avl SliceUtil Pattern Base64 Spec Linker ResourceManager.
From S2P Require Import ResourceLogic ResourceInvariant ResourceProofs ResourceOps.

(** The edges after a change named [x] by [set]. *)
Ltac track x :=
  unfold x; views; first [by eapply nbrs_set_eq | by rewrite nbrs_set_ne by congruence].

Section routes.
Context {E : Externals} {R : Runtime} {RL : RuntimeLaws R}.
Implicit Types (a : astate) (l : loc).

(** ** Changes of edges only *)

(** [a'] has the dictionary and the items of [a], and its edges at [P]. *)
Definition keeps (P : loc → string → Prop) a a' : Prop :=
  idx a' = idx a ∧ cached a' = cached a ∧ items (gr a') = items (gr a) ∧ typed (gr a') ∧
  ∀ l n, P l n → nbrs (gr a') l n = nbrs (gr a) l n.

Lemma keeps_refl P a : typed (gr a) → keeps P a a.
Proof. intros Ht. do 3 (split; [done|]). by split. Qed.

Lemma keeps_trans P a1 a2 a3 : keeps P a1 a2 → keeps P a2 a3 → keeps P a1 a3.
Proof.
  intros (H1 & H2 & H3 & H4 & H5) (K1 & K2 & K3 & K4 & K5). split; [congruence|].
  split; [congruence|]. split; [congruence|]. split; [done|]. intros l n Hp.
  by rewrite K5, H5.
Qed.

Lemma keeps_weaken (P P' : loc → string → Prop) a a' : (∀ l n, P' l n → P l n) →
  keeps P a a' → keeps P' a a'.
Proof. intros HP (H1 & H2 & H3 & H4 & H5). do 4 (split; [done|]). auto. Qed.

Lemma keeps_set (P : loc → string → Prop) a l r name m : typed (gr a) →
  items (gr a) !! l = Some r → is_Some (nbrs (gr a) l name) → leads_to (gr a) (kindof r) name m →
  ¬ P l name → keeps P a (a_set l name m a).
Proof.
  intros Ht Hr Hm Hlead HP. split; [done|]. split; [done|]. split; [apply items_set|].
  split; [by eapply typed_set|]. intros l' n' Hp. views. apply nbrs_set_ne.
  intros [= <- <-]. done.
Qed.

(** The kind of a vertex. *)
Definition is_kind a (k : kind) l : Prop := ∃ r, items (gr a) !! l = Some r ∧ kindof r = k.

Lemma keeps_kind P a a' k l : keeps P a a' → is_kind a k l → is_kind a' k l.
Proof. intros (_ & _ & Hi & _) [r Hr]. exists r. by rewrite Hi. Qed.

Lemma is_kind_ne a k k' l l' : is_kind a k l → is_kind a k' l' → k ≠ k' → l ≠ l'.
Proof. intros [r [Hr Hk]] [r' [Hr' Hk']] Hne ->. congruence. Qed.

Lemma kind_nbrs a k l name : typed (gr a) → is_kind a k l → is_Some (schema k !! name) →
  ∃ m, nbrs (gr a) l name = Some m ∧
    ∀ key x, m !! key = Some x → ∃ k', schema k !! name = Some k' ∧ is_kind a k' x.
Proof.
  intros Ht (r & Hr & <-) Hs. destruct (Ht l r Hr name) as [H1 H2].
  destruct (H1 Hs) as [m Hm]. exists m. split; [done|]. intros key x Hx.
  destruct (H2 m Hm key x Hx) as (r' & Hr' & Hs'). exists (kindof r'). split; [done|by exists r'].
Qed.

Lemma leads_to_kind a k name m : typed (gr a) →
  (∀ key x, m !! key = Some x → ∃ k', schema k !! name = Some k' ∧ is_kind a k' x) →
  leads_to (gr a) k name m.
Proof.
  intros _ Hm key x Hx. destruct (Hm key x Hx) as (k' & Hs & r & Hr & <-). by exists r.
Qed.

(** Every vertex but the modules, respectively but the route and the modules. *)
Definition not_module a l (n : string) : Prop := ¬ is_kind a KModule l.

(** One step on an edge of a vertex of kind [k]. *)
Lemma wp_step_unlink P a k l name key (Q : loc * bool → astate → Prop) :
  typed (gr a) → is_kind a k l → is_Some (schema k !! name) → ¬ P l name →
  (∀ m r, nbrs (gr a) l name = Some m →
     keeps P a (a_set l name (delete key m) a) → Q r (a_set l name (delete key m) a)) →
  wp (on (UnlinkOneMany l name key)) Q a.
Proof.
  intros Ht Hk Hs HP HQ. destruct (kind_nbrs a k l name Ht Hk Hs) as (m & Hm & Hlead).
  destruct Hk as (r0 & Hr0 & Hk0). eapply wp_UnlinkOneMany; [exact Hm|]. intros r.
  apply HQ; [done|]. eapply keeps_set; [done|exact Hr0|by eexists| |done]. rewrite Hk0.
  apply leads_to_delete, leads_to_kind; done.
Qed.

Lemma wp_step_link P a k l name key x k' (Q : unit → astate → Prop) :
  typed (gr a) → is_kind a k l → schema k !! name = Some k' → is_kind a k' x → ¬ P l name →
  (∀ m, nbrs (gr a) l name = Some m →
     keeps P a (a_set l name (<[key := x]> m) a) → Q tt (a_set l name (<[key := x]> m) a)) →
  wp (on (LinkOneMany l name key x)) Q a.
Proof.
  intros Ht Hk Hs Hx HP HQ. destruct (kind_nbrs a k l name Ht Hk) as (m & Hm & Hlead); [by rewrite Hs|].
  destruct Hk as (r0 & Hr0 & Hk0). eapply wp_LinkOneMany; [exact Hm|].
  apply HQ; [done|]. eapply keeps_set; [done|exact Hr0|by eexists| |done]. rewrite Hk0.
  apply leads_to_kind; [done|]. intros key' x'. rewrite lookup_insert_Some.
  intros [[_ <-]|[_ Hl]]; [by exists k'|by eapply Hlead].
Qed.

(** ** unlinkRoute *)

Section unlink.
Context (lr lns : loc) (name ns : string).

(** The loop over the route's modules. *)
Lemma wp_unlink_modules a (t : tree string loc) (Q : unit → astate → Prop) :
  typed (gr a) → (∀ (k : string) (x : loc), (k, x) ∈ tree_list t → is_kind a KModule x) →
  (∀ a', keeps (not_module a) a a' → Q tt a') →
  wp (Avl.Each t (λ k modLk, _ ← (_ ← on (UnlinkOneMany modLk "routes" name); mret tt); mret true))
    Q a.
Proof.
  intros Ht Hmods HQ.
  apply (wp_iter (λ (es : list (string * loc)) a', keeps (not_module a) a a' ∧ ∀ k x, (k, x) ∈ es → is_kind a KModule x)).
  - by split; [apply keeps_refl|].
  - intros k x es a1 [Hk Hes]. assert (Hx : is_kind a KModule x) by
      (apply (Hes k); apply elem_of_cons; by left).
    apply wp_bind. eapply (wp_step_unlink (not_module a) a1 KModule).
    + apply Hk.
    + by eapply keeps_kind.
    + by eexists.
    + intros Hn. by apply Hn.
    + intros m r _ Hk'. apply wp_ret. split; [by eapply keeps_trans|].
      intros k' x' Hin. apply (Hes k'). apply elem_of_cons. by right.
  - intros a1 [Hk _]. by apply HQ.
Qed.

(** Every edge but the route's to its service, and the services'. *)
Definition not_service a l (n : string) : Prop := (l, n) ≠ (lr, "service") ∧ ¬ is_kind a KService l.

Lemma wp_unlink_service a msvc (Q : unit → astate → Prop) :
  gr a !! nil = None → typed (gr a) → is_kind a KRoute lr →
  nbrs (gr a) lr "service" = Some msvc → (size msvc ≤ 1)%nat →
  (∀ a', keeps (not_service a) a a' → nbrs (gr a') lr "service" = Some ∅ → Q tt a') →
  wp (svcLk ← on (Get lr "service");
      if negb (N.eqb svcLk nil) then
        _ ← on (UnlinkOneMany svcLk "routes" name);
        _ ← on (UnlinkOneOne lr "service"); mret tt
      else mret tt) Q a.
Proof.
  intros Hnil Ht Hlr Hm Hsz HQ. apply wp_bind. eapply wp_Get; [exact Hm| |intros key x Hone|done].
  { intros ->. cbn. by apply wp_ret, HQ; [apply keeps_refl|]. }
  assert (Hx : is_kind a KService x).
  { destruct (kind_nbrs a KRoute lr "service") as (m' & Hm' & Hl'); [done|done|by eexists|].
    rewrite Hm in Hm'. injection Hm' as <-.
    destruct (Hl' key x) as (k' & [= <-] & Hx); [by rewrite Hone, lookup_singleton_eq|done]. }
  assert (Hxn : x ≠ nil).
  { intros ->. destruct Hx as (r & Hr & _). by rewrite items_lookup, Hnil in Hr. }
  assert (Hxlr : x ≠ lr) by by eapply is_kind_ne.
  apply N.eqb_neq in Hxn. rewrite Hxn. cbn [negb]. apply wp_bind.
  eapply (wp_step_unlink (not_service a) a KService);
    [done|done|by eexists|intros [_ Hn]; by apply Hn|].
  intros mr r Hmr Hk. apply wp_bind.
  eapply wp_UnlinkOneOne; [views; rewrite nbrs_set_ne by congruence; exact Hm|].
  intros r'. apply wp_ret, HQ.
  - eapply keeps_trans; [exact Hk|]. destruct (keeps_kind _ _ _ _ _ Hk Hlr) as (rr & Hrr & Hkr).
    eapply keeps_set; [apply Hk|exact Hrr| |apply leads_to_empty|intros [Hn _]; by apply Hn].
    views. rewrite nbrs_set_ne by congruence. by eexists.
  - views. eapply nbrs_set_eq. by rewrite nbrs_set_ne by congruence.
Qed.

(** What unlinking may touch. *)
Definition unlink_safe a l (n : string) : Prop :=
  (l, n) ≠ (lns, "routes") ∧ (l, n) ≠ (lr, "namespace") ∧ (l, n) ≠ (lr, "service") ∧
  ¬ is_kind a KModule l ∧ ¬ is_kind a KService l.

Lemma keeps_kind_iff P a a' k l : keeps P a a' → is_kind a' k l ↔ is_kind a k l.
Proof. intros (_ & _ & Hi & _). unfold is_kind. by rewrite Hi. Qed.

Lemma keeps_nil P a a' : keeps P a a' → gr a !! nil = None → gr a' !! nil = None.
Proof.
  intros (_ & _ & Hi & _) Hn. pose proof (f_equal (lookup nil) Hi) as Hl.
  rewrite !items_lookup, Hn in Hl. by destruct (gr a' !! nil).
Qed.

(** The two unlinkings that [unlinkRoute] starts with. *)
Lemma wp_unlink_ns {A} a mns (Q : A → astate → Prop) (rest : ST ResourceManager A) :
  typed (gr a) → is_kind a KRoute lr → is_kind a KNamespace lns →
  nbrs (gr a) lr "namespace" = Some mns → (∀ k, k ∈ dom mns → k = ns) →
  (∀ a' m, keeps (λ l n, (l, n) ≠ (lns, "routes") ∧ (l, n) ≠ (lr, "namespace")) a a' →
     nbrs (gr a) lns "routes" = Some m → nbrs (gr a') lns "routes" = Some (delete name m) →
     nbrs (gr a') lr "namespace" = Some ∅ → wp rest Q a') →
  wp (_ ← on (UnlinkOneMany lns "routes" name); _ ← on (UnlinkOneOneByKey lr "namespace" ns); rest) Q a.
Proof.
  intros Ht Hlr Hlns Hmns Hkeys HQ. assert (Hne : lr ≠ lns) by by eapply is_kind_ne.
  set (P := λ (l : loc) (n : string), (l, n) ≠ (lns, "routes") ∧ (l, n) ≠ (lr, "namespace")).
  apply wp_bind. eapply (wp_step_unlink P a KNamespace);
    [done|done|by eexists|intros [Hn _]; by apply Hn|].
  intros m r Hm Hk1. set (a1 := a_set lns "routes" (delete name m) a) in *.
  assert (N1 : nbrs (gr a1) lns "routes" = Some (delete name m)) by
    track a1.
  assert (N2 : nbrs (gr a1) lr "namespace" = Some mns) by
    track a1.
  clearbody a1. apply wp_bind. eapply (wp_step_unlink P a1 KRoute);
    [apply Hk1|by eapply keeps_kind|by eexists|intros [_ Hn]; by apply Hn|].
  intros mns' r2 Hmns' Hk2. rewrite N2 in Hmns'. injection Hmns' as <-.
  assert (Hdel : delete ns mns = ∅).
  { apply map_empty. intros i. destruct (decide (i = ns)) as [->|Hi]; [by rewrite lookup_delete_eq|].
    rewrite lookup_delete_ne by done. apply not_elem_of_dom. intros Hin. by apply Hi, Hkeys. }
  rewrite Hdel in Hk2 |- *. eapply (HQ _ m); [by eapply keeps_trans|done| |].
  - views. by rewrite nbrs_set_ne by congruence.
  - views. by eapply nbrs_set_eq.
Qed.

Lemma unlinkRoute_spec a mns (Q : unit → astate → Prop) :
  gr a !! nil = None → typed (gr a) → is_kind a KRoute lr → is_kind a KNamespace lns →
  nbrs (gr a) lr "namespace" = Some mns → (∀ k, k ∈ dom mns → k = ns) →
  (∃ msvc, nbrs (gr a) lr "service" = Some msvc ∧ (size msvc ≤ 1)%nat) →
  (∀ a' m, keeps (unlink_safe a) a a' → nbrs (gr a) lns "routes" = Some m →
     nbrs (gr a') lns "routes" = Some (delete name m) →
     nbrs (gr a') lr "namespace" = Some ∅ → nbrs (gr a') lr "service" = Some ∅ → Q tt a') →
  wp (unlinkRoute lr lns name ns) Q a.
Proof.
  intros Hnil Ht Hlr Hlns Hmns Hkeys (msvc & Hmsvc & Hsz) HQ.
  assert (Hne : lr ≠ lns) by by eapply is_kind_ne.
  eapply (wp_unlink_ns a mns); [done..|]. intros a2 m Hk Hm M1 M2.
  pose proof (keeps_kind_iff _ _ _ KRoute lr Hk) as [_ Hlr2]. specialize (Hlr2 Hlr).
  pose proof (keeps_kind_iff _ _ _ KNamespace lns Hk) as [_ Hlns2]. specialize (Hlns2 Hlns).
  apply wp_assoc, wp_bind. eapply wp_unlink_service; [by eapply keeps_nil|apply Hk|done| |exact Hsz|].
  { destruct Hk as (_ & _ & _ & _ & Hn). rewrite Hn; [done|]. split; congruence. }
  intros a3 Hk3 K3. unfold Each_edge.
  pose proof (keeps_kind _ _ _ _ _ Hk3 Hlr2) as Hlr3.
  destruct (kind_nbrs a3 KRoute lr "modules") as (mm & Hmm & Hmods); [apply Hk3|done|by eexists|].
  apply wp_bind. eapply wp_need_edge; [exact Hmm|]. intros t Htw Htm.
  apply wp_unlink_modules; [apply Hk3| |].
  { intros k x Hin. rewrite tree_list_lookup, Htm in Hin by done.
    by destruct (Hmods k x Hin) as (k' & [= <-] & Hx). }
  intros a4 Hk4.
  assert (H34 : ∀ k l n, is_kind a2 k l → k ≠ KModule → nbrs (gr a4) l n = nbrs (gr a3) l n).
  { intros k l n Hl Hkm. apply Hk4. intros Hm'%(keeps_kind_iff _ _ _ _ _ Hk3).
    by apply (is_kind_ne a2 k KModule l l Hl Hm' Hkm). }
  assert (H23 : ∀ k l n, is_kind a2 k l → k ≠ KService → (l, n) ≠ (lr, "service") →
    nbrs (gr a3) l n = nbrs (gr a2) l n).
  { intros k l n Hl Hks Hn. apply Hk3. split; [done|]. intros Hs.
    by apply (is_kind_ne a2 k KService l l Hl Hs Hks). }
  apply (HQ a4 m); [|done| | |].
  - eapply keeps_trans; [|eapply keeps_trans].
    + eapply keeps_weaken; [|exact Hk]. by intros l n (? & ? & _).
    + eapply keeps_weaken; [|exact Hk3]. intros l n (_ & _ & Hn & _ & Hs). split; [done|].
      by rewrite (keeps_kind_iff _ _ _ _ _ Hk).
    + eapply keeps_weaken; [|exact Hk4]. intros l n (_ & _ & _ & Hm' & _). unfold not_module.
      by rewrite (keeps_kind_iff _ _ _ _ _ Hk3), (keeps_kind_iff _ _ _ _ _ Hk).
  - rewrite (H34 KNamespace), (H23 KNamespace) by (done || congruence). done.
  - rewrite (H34 KRoute), (H23 KRoute) by (done || congruence). done.
  - rewrite (H34 KRoute) by done. done.
Qed.

End unlink.

(** ** relinkRoute *)

Section relink.
Context (lr lns : loc) (name ns : string).

(** The map of modules that [relinkRoute] collects. *)
Definition module_links (ix : gmap (kind * string) loc) (names : list string)
    (acc : gmap string loc) : gmap string loc :=
  foldl (λ acc n, match ix !! (KModule, path n ns) with
                  | Some l => <[n := l]> acc | None => acc end) acc names.

Lemma find_modules_spec a names acc (Q : gores (gmap string loc) → astate → Prop) :
  Forall (λ n, is_Some (idx a !! (KModule, path n ns))) names →
  Q (Ok (module_links (idx a) names acc)) a → wp (find_modules names ns acc) Q a.
Proof.
  intros Hn. revert acc. induction Hn as [|n names [l Hl] _ IH]; intros acc HQ; cbn [find_modules].
  - by apply wp_ret.
  - apply wp_bind, wp_FindIn. rewrite Hl, bool_decide_true by by eexists. cbn [default id].
    apply IH. unfold module_links in HQ. cbn in HQ. by rewrite Hl in HQ.
Qed.

Lemma module_links_kind a names acc : indexed (idx a) (items (gr a)) →
  (∀ k x, acc !! k = Some x → is_kind a KModule x) →
  ∀ k x, module_links (idx a) names acc !! k = Some x → is_kind a KModule x.
Proof.
  intros Hix. revert acc. induction names as [|n names IH]; intros acc Hacc; [done|].
  unfold module_links. cbn. apply IH. destruct (idx a !! (KModule, path n ns)) as [l|] eqn:Hl; [|done].
  intros k x. rewrite lookup_insert_Some. intros [[_ <-]|[_ Hk]]; [|by eapply Hacc].
  destruct (Hix _ _ _ Hl) as (r & Hr & Hk & _). by exists r.
Qed.

Definition links_safe a l (n : string) : Prop := (l, n) ≠ (lr, "modules") ∧ ¬ is_kind a KModule l.

Lemma wp_link_modules a es a0 mm (Q : unit → astate → Prop) :
  keeps (links_safe a) a a0 → is_kind a KRoute lr → (∀ k x, (k, x) ∈ es → is_kind a KModule x) →
  nbrs (gr a0) lr "modules" = Some mm → NoDup es.*1 →
  (∀ a', keeps (links_safe a) a a' →
     nbrs (gr a') lr "modules" = Some (list_to_map es ∪ mm) → Q tt a') →
  wp (link_modules lr name es) Q a0.
Proof.
  intros H0 Hlr Hes Hmm Hnd HQ. set (P := links_safe a) in *.
  revert mm a0 H0 Hmm HQ. induction es as [|[k x] es IH]; intros mm a0 H0 Hmm HQ; cbn [link_modules].
  { apply wp_ret, HQ; [done|]. by rewrite Hmm, list_to_map_nil, (left_id_L ∅ (∪)). }
  cbn in Hnd. apply NoDup_cons in Hnd as [Hk Hnd].
  assert (Hx : is_kind a KModule x) by (apply (Hes k); apply elem_of_cons; by left).
  assert (Hxlr : x ≠ lr) by by eapply is_kind_ne.
  apply wp_bind. eapply (wp_step_link P a0 KModule).
  - apply H0.
  - by eapply keeps_kind.
  - done.
  - by eapply keeps_kind.
  - intros [_ Hn]. by apply Hn.
  - intros m Hm Hk1. pose proof (keeps_trans _ _ _ _ H0 Hk1) as H1.
    set (a1 := a_set x "routes" (<[name := lr]> m) a0) in *.
    assert (N1 : nbrs (gr a1) lr "modules" = Some mm) by
      track a1.
    clearbody a1. apply wp_bind. eapply (wp_step_link P a1 KRoute).
    + apply H1.
    + by eapply keeps_kind.
    + done.
    + by eapply keeps_kind.
    + intros [Hn _]. by apply Hn.
    + intros m' Hm' Hk2. rewrite N1 in Hm'. injection Hm' as <-.
      apply (IH ltac:(intros k' x' Hin; apply (Hes k'); apply elem_of_cons; by right) Hnd
               (<[k := x]> mm)).
      * by eapply keeps_trans.
      * views. by eapply nbrs_set_eq.
      * intros a' Ha' Hmm'. apply HQ; [done|]. rewrite Hmm'. f_equal.
        change (list_to_map ((k, x) :: es)) with (<[k := x]> (list_to_map es : gmap string loc)).
        rewrite <-insert_union_l. symmetry. apply insert_union_r.
        by apply not_elem_of_list_to_map.
Qed.

(** What relinking may touch. *)
Definition relink_safe a l (n : string) : Prop :=
  (l, n) ≠ (lns, "routes") ∧ l ≠ lr ∧ ¬ is_kind a KModule l ∧ ¬ is_kind a KService l.

Lemma safe_set a a0 k l n m : keeps (relink_safe a) a a0 → is_kind a k l → is_Some (nbrs (gr a0) l n) →
  leads_to (gr a0) k n m → (l = lr ∨ k = KService ∨ (l, n) = (lns, "routes")) →
  keeps (relink_safe a) a (a_set l n m a0).
Proof.
  intros Hk Hl Hn Hm Hcase. eapply keeps_trans; [exact Hk|].
  destruct (keeps_kind _ _ _ _ _ Hk Hl) as (r & Hr & Hkr).
  eapply keeps_set; [apply Hk|exact Hr|done|by rewrite Hkr|].
  intros (H1 & H2 & H3 & H4). destruct Hcase as [->|[->|Heq]]; auto.
Qed.

Lemma leads_singleton a a0 P k n key x k' : keeps P a a0 → schema k !! n = Some k' → is_kind a k' x →
  leads_to (gr a0) k n {[key := x]}.
Proof.
  intros Hk Hs Hx. destruct (keeps_kind _ _ _ _ _ Hk Hx) as (r & Hr & <-).
  by eapply leads_to_singleton.
Qed.

(** The state between the two halves of [relinkRoute]: the route's service
    edge is as it will stay, its namespace edge as before or empty, the
    namespace's edge lacks at most the route. *)
Definition half_linked a a0 (m mm : gmap string loc) (msvc' : gmap string loc → Prop) : Prop :=
  keeps (relink_safe a) a a0 ∧
  (∃ m0, nbrs (gr a0) lns "routes" = Some m0 ∧ <[name := lr]> m0 = <[name := lr]> m) ∧
  (∃ mns0, nbrs (gr a0) lr "namespace" = Some mns0 ∧ ∀ k, k ∈ dom mns0 → k = ns) ∧
  (∃ ms, nbrs (gr a0) lr "service" = Some ms ∧ msvc' ms) ∧
  nbrs (gr a0) lr "modules" = Some mm.

Lemma wp_link_service a a0 m mm svcName ls (Q : option error → astate → Prop) :
  is_kind a KRoute lr → is_kind a KNamespace lns → is_kind a KService ls →
  half_linked a a0 m mm (λ ms, ms = ∅) →
  (∀ a', half_linked a a' m mm (λ ms, ms = {[svcName := ls]}) → Q None a') →
  wp (_ ← on (LinkOneOne lr "service" svcName ls); _ ← on (LinkOneMany ls "routes" name lr);
      mret None) Q a0.
Proof.
  intros Hlr Hlns Hls (Hk & (m0 & Hm0 & Hm0') & (mns & Hmns & Hkeys) & (ms & Hms & ->) & Hmm) HQ.
  assert (H1 : lr ≠ lns) by by eapply is_kind_ne. assert (H2 : ls ≠ lr) by by eapply is_kind_ne.
  assert (H3 : ls ≠ lns) by by eapply is_kind_ne.
  apply wp_bind. eapply wp_LinkOneOne; [exact Hms|by intros ? ?%elem_of_dom%is_Some_None|].
  assert (Hk1 : keeps (relink_safe a) a (a_set lr "service" {[svcName := ls]} a0)).
  { eapply (safe_set a a0 KRoute); [done|done|by eexists|by eapply leads_singleton|by left]. }
  set (a1 := a_set lr "service" _ a0) in *.
  assert (N1 : nbrs (gr a1) lns "routes" = Some m0) by track a1.
  assert (N2 : nbrs (gr a1) lr "namespace" = Some mns) by track a1.
  assert (N3 : nbrs (gr a1) lr "service" = Some {[svcName := ls]}) by track a1.
  assert (N4 : nbrs (gr a1) lr "modules" = Some mm) by track a1.
  clearbody a1. apply wp_bind. eapply (wp_step_link (relink_safe a) a1 KService);
    [apply Hk1|by eapply keeps_kind|done|by eapply keeps_kind|intros (_ & _ & _ & Hn); by apply Hn|].
  intros mr Hmr Hk2. apply wp_ret, HQ. split; [by eapply keeps_trans|].
  split; [exists m0; split; [|done]; views; by rewrite nbrs_set_ne by congruence|].
  split; [exists mns; split; [|done]; views; by rewrite nbrs_set_ne by congruence|].
  split; [eexists; split; [|done]; views; by rewrite nbrs_set_ne by congruence|].
  views. by rewrite nbrs_set_ne by congruence.
Qed.

Lemma unlink_half a m mm mns msvc (Q : unit → astate → Prop) :
  gr a !! nil = None → typed (gr a) → is_kind a KRoute lr → is_kind a KNamespace lns →
  nbrs (gr a) lr "namespace" = Some mns → (∀ k, k ∈ dom mns → k = ns) →
  nbrs (gr a) lr "service" = Some msvc → (size msvc ≤ 1)%nat →
  nbrs (gr a) lr "modules" = Some mm → nbrs (gr a) lns "routes" = Some m →
  (∀ a', half_linked a a' m mm (λ ms, ms = ∅) → Q tt a') →
  wp (unlinkRoute lr lns name ns) Q a.
Proof.
  intros Hnil Ht Hlr Hlns Hmns Hkeys Hms Hsz Hmm Hm HQ.
  assert (Hne : lr ≠ lns) by by eapply is_kind_ne.
  eapply unlinkRoute_spec; try done; [by exists msvc|].
  intros a' m' Hk Hm' N1 N2 N3. rewrite Hm in Hm'. injection Hm' as <-. apply HQ.
  split.
  { eapply keeps_weaken; [|exact Hk]. intros l n (H1 & H2 & H3 & H4).
    repeat split; try done; congruence. }
  split; [exists (delete name m); split; [done|]; by rewrite insert_delete_eq|].
  split; [exists ∅; split; [done|]; by intros ? ?%elem_of_dom%is_Some_None|].
  split; [by exists ∅|]. rewrite <-Hmm. apply Hk.
  repeat split; try congruence; intros Hkk; by apply (is_kind_ne _ _ _ _ _ Hlr Hkk).
Qed.

(** The route after relinking. *)
Definition relinked a a' (m mm : gmap string loc) (msvc' : gmap string loc → Prop) : Prop :=
  keeps (relink_safe a) a a' ∧
  nbrs (gr a') lns "routes" = Some (<[name := lr]> m) ∧
  nbrs (gr a') lr "namespace" = Some {[ns := lns]} ∧
  (∃ ms, nbrs (gr a') lr "service" = Some ms ∧ msvc' ms) ∧
  nbrs (gr a') lr "modules" = Some mm.

Lemma wp_relink_tail a a0 m mm links P (Q : option error → astate → Prop) :
  is_kind a KRoute lr → is_kind a KNamespace lns →
  (∀ k x, links !! k = Some x → is_kind a KModule x) →
  half_linked a a0 m mm P →
  (∀ a', relinked a a' m (links ∪ mm) P → Q None a') →
  wp (_ ← on (LinkOneOne lr "namespace" ns lns); _ ← on (LinkOneMany lns "routes" name lr);
      _ ← link_modules lr name (range_map links); mret None) Q a0.
Proof.
  intros Hlr Hlns Hlinks (Hk & (m0 & Hm0 & Hm0') & (mns & Hmns & Hkeys) & (ms & Hms & HP) & Hmm) HQ.
  assert (H1 : lr ≠ lns) by by eapply is_kind_ne.
  apply wp_bind. eapply wp_LinkOneOne; [exact Hmns|exact Hkeys|].
  assert (Hk1 : keeps (relink_safe a) a (a_set lr "namespace" {[ns := lns]} a0)).
  { eapply (safe_set a a0 KRoute); [done|done|by eexists|by eapply leads_singleton|by left]. }
  set (a1 := a_set lr "namespace" _ a0) in *.
  assert (N1 : nbrs (gr a1) lns "routes" = Some m0) by track a1.
  assert (N2 : nbrs (gr a1) lr "namespace" = Some {[ns := lns]}) by track a1.
  assert (N3 : nbrs (gr a1) lr "service" = Some ms) by track a1.
  assert (N4 : nbrs (gr a1) lr "modules" = Some mm) by track a1.
  clearbody a1. apply wp_bind. eapply (wp_step_link (relink_safe a) a1 KNamespace);
    [apply Hk1|by eapply keeps_kind|done|by eapply keeps_kind|intros (Hn & _); by apply Hn|].
  intros m' Hm' Hk2. rewrite N1 in Hm'. injection Hm' as <-.
  pose proof (keeps_trans _ _ _ _ Hk1 Hk2) as Hk3.
  set (a2 := a_set lns "routes" _ a1) in *.
  assert (M1 : nbrs (gr a2) lns "routes" = Some (<[name := lr]> m)) by
    (unfold a2; views; rewrite <-Hm0'; by eapply nbrs_set_eq).
  assert (M2 : nbrs (gr a2) lr "namespace" = Some {[ns := lns]}) by track a2.
  assert (M3 : nbrs (gr a2) lr "service" = Some ms) by track a2.
  assert (M4 : nbrs (gr a2) lr "modules" = Some mm) by track a2.
  clearbody a2. apply wp_bind. eapply (wp_link_modules a2); [apply keeps_refl, Hk3| | |exact M4| |].
  - by rewrite (keeps_kind_iff _ _ _ _ _ Hk3).
  - intros k x Hin. rewrite (keeps_kind_iff _ _ _ _ _ Hk3). apply (Hlinks k).
    rewrite range_map_perm in Hin. by apply elem_of_map_to_list.
  - rewrite (range_map_perm links). apply NoDup_fst_map_to_list.
  - intros a3 Hk4 Hmm3.
    assert (Hkeep : ∀ k l n, is_kind a k l → k ≠ KModule → (l, n) ≠ (lr, "modules") →
      nbrs (gr a3) l n = nbrs (gr a2) l n).
    { intros k l n Hl Hkm Hn. apply Hk4. split; [done|]. rewrite (keeps_kind_iff _ _ _ _ _ Hk3).
      intros Hm'. by apply (is_kind_ne a k KModule l l Hl Hm' Hkm). }
    apply wp_ret, HQ. split.
    { eapply keeps_trans; [exact Hk3|]. eapply keeps_weaken; [|exact Hk4].
      intros l n (_ & Hn & Hmod & _). split; [congruence|]. by rewrite (keeps_kind_iff _ _ _ _ _ Hk3). }
    split; [by rewrite (Hkeep KNamespace) by (done || congruence)|].
    split; [by rewrite (Hkeep KRoute) by (done || congruence)|].
    split; [exists ms; by rewrite (Hkeep KRoute) by (done || congruence)|].
    rewrite Hmm3. do 2 f_equal.
    transitivity (list_to_map (map_to_list links) : gmap string loc); [|apply list_to_map_to_list].
    apply list_to_map_proper; [|apply range_map_perm]. rewrite (range_map_perm links).
    apply NoDup_fst_map_to_list.
Qed.

End relink.

Lemma relinkRoute_spec a route lr lns (exists_ : bool) m mm mns msvc
    (Q : option error → astate → Prop) :
  let name := Route.Name route in let ns := Route.NamespaceName route in
  gr a !! nil = None → typed (gr a) → indexed (idx a) (items (gr a)) →
  is_kind a KRoute lr → is_kind a KNamespace lns →
  nbrs (gr a) lr "namespace" = Some mns → (∀ k, k ∈ dom mns → k = ns) →
  nbrs (gr a) lr "service" = Some msvc → (size msvc ≤ 1)%nat → (exists_ = false → msvc = ∅) →
  nbrs (gr a) lr "modules" = Some mm → nbrs (gr a) lns "routes" = Some m →
  Forall (λ n, is_Some (idx a !! (KModule, path n ns))) (elems (Route.Modules route)) →
  (Route.ServiceName route ≠ "" →
     is_Some (idx a !! (KService, path (Route.ServiceName route) ns))) →
  (∀ a', relinked lr lns name ns a a' m
           (module_links ns (idx a) (elems (Route.Modules route)) ∅ ∪ mm)
           (λ ms, (size ms ≤ 1)%nat ∧ (Route.ServiceName route = "" → ms = msvc)) → Q None a') →
  wp (relinkRoute lr lns route name ns exists_) Q a.
Proof.
  intros name ns Hnil Ht Hix Hlr Hlns Hmns Hkeys Hms Hsz Hex Hmm Hm Hmods Hsvc HQ.
  unfold relinkRoute. apply wp_bind, find_modules_spec; [done|].
  assert (Hlinks : ∀ k x, module_links ns (idx a) (elems (Route.Modules route)) ∅ !! k = Some x →
    is_kind a KModule x) by by apply module_links_kind.
  assert (Hhalf : ∀ P : gmap string loc → Prop, P msvc → half_linked lr lns name ns a a m mm P).
  { intros P HP. split; [by apply keeps_refl|]. split; [by exists m|]. split; [by exists mns|].
    split; [by exists msvc|done]. }
  cbv beta iota. apply wp_bind. destruct (String.eqb_spec (Route.ServiceName route) "") as [Hs|Hs].
  - apply wp_ret. cbv beta iota. eapply (wp_relink_tail lr lns name ns a a m mm _
      (λ ms, (size ms ≤ 1)%nat ∧ (Route.ServiceName route = "" → ms = msvc)));
      [done|done|done|by apply Hhalf|exact HQ].
  - destruct (Hsvc Hs) as [ls Hls]. apply wp_bind, wp_FindIn. fold ns.
    rewrite Hls, bool_decide_true by by eexists. cbn [default id].
    assert (Hlsk : is_kind a KService ls).
    { destruct (Hix _ _ _ Hls) as (r & Hr & Hk & _). by exists r. }
    assert (Htail : ∀ a', half_linked lr lns name ns a a' m mm (λ ms, ms = ∅) →
      wp (_ ← on (LinkOneOne lr "service" (Route.ServiceName route) ls);
          _ ← on (LinkOneMany ls "routes" name lr); mret None)
        (λ err a', wp match err with
           | Some err => mret (Some err)
           | None => _ ← on (LinkOneOne lr "namespace" ns lns);
                     _ ← on (LinkOneMany lns "routes" name lr);
                     _ ← link_modules lr name
                       (range_map (module_links ns (idx a) (elems (Route.Modules route)) ∅));
                     mret None end Q a') a').
    { intros a' Ha'. eapply wp_link_service; [done|done|done|exact Ha'|]. intros a'' Ha''.
      eapply wp_relink_tail; [done..|]. intros a3 (H1 & H2 & H3 & (ms & Hms3 & ->) & H5).
      apply HQ. do 3 (split; [done|]). split; [|done]. eexists. split; [exact Hms3|].
      split; [by rewrite map_size_singleton|done]. }
    apply wp_bind. destruct exists_.
    + eapply unlink_half; try done.
    + apply wp_ret. apply Htail, Hhalf. auto.
Qed.

(** ** The invariant after the edges have changed *)

Lemma key_path r k name ns : no_slash (ns_of r) → no_slash ns → kindof r = k → k ≠ KNamespace →
  key_of r = path name ns → name_of r = name ∧ ns_of r = ns.
Proof.
  intros Hs Hs' <- Hk Hkey. destruct r; try done; cbn in Hkey; by apply path_inj in Hkey.
Qed.

Lemma indexed_is_kind a k key l : inv a → idx a !! (k, key) = Some l → is_kind a k l.
Proof. intros Ha Hl. destruct (inv_indexed a Ha _ _ _ Hl) as (r & Hr & Hk & _). by exists r. Qed.

Lemma inv_linked_route a a' lr lns name ns m mm P r :
  inv a → idx a !! (KNamespace, ns) = Some lns →
  items (gr a) !! lr = Some r → kindof r = KRoute → key_of r = path name ns → ns_of r = ns →
  is_Some (ns_ptr r) →
  (∀ key, idx a !! (KRoute, key) = Some lr → key = path name ns) →
  nbrs (gr a) lns "routes" = Some m → (∀ ms, P ms → (size ms ≤ 1)%nat) →
  relinked lr lns name ns a a' m mm P →
  let a2 := a_insert KRoute (path name ns) lr a' in
  inv a2 ∧ updates a a2 KRoute (path name ns) (Some r).
Proof.
  intros Ha Hlns Hr Hk Hkey Hns Hp Huniq Hm HP (Hkeep & N1 & N2 & (ms & N3 & Hms) & N4) a2. subst a2.
  pose proof Hkeep as (Hidx & _ & Hit & Ht & Hn).
  destruct (indexed_ns _ _ _ _ (inv_indexed a Ha) Hlns) as (n & Hitn & _ & Hs).
  assert (Hrk : is_kind a KRoute lr) by by exists r.
  split; [split|].
  - exact Ht.
  - views. rewrite Hidx, Hit. apply indexed_insert with r; try done; [apply Ha|by rewrite Hns|].
    right. rewrite Hns. by eexists.
  - views. rewrite Hidx.
    apply (owned_frame _ (set_nbrs (gr a) lns "routes" (<[name := lr]> m))).
    + intros ns' l k e Hl He. rewrite lookup_insert_ne in Hl by congruence.
      destruct (decide ((lns, "routes") = (l, e))) as [[= <- <-]|Hne].
      * erewrite nbrs_set_eq by done. exact N1.
      * rewrite nbrs_set_ne by done. pose proof (indexed_is_kind a _ _ _ Ha Hl) as Hlk.
        apply Hn. split; [congruence|]. split; [by eapply is_kind_ne|].
        split; intros Hk'; by apply (is_kind_ne _ _ _ _ _ Hlk Hk').
    + eapply (owned_link (idx a) (items (gr a))); try done; apply Ha.
  - views. rewrite Hidx. intros key l r' Hl Hr'. rewrite Hit in Hr'.
    apply lookup_insert_Some in Hl as [[[= <-] <-]|[Hne Hl]].
    + rewrite Hr in Hr'. injection Hr' as <-. rewrite Hns. do 2 eexists. split; [exact N2|].
      split; [|split; [exact N3|by apply HP]].
      intros k0. rewrite dom_singleton_L. apply elem_of_singleton.
    + assert (Hlr : l ≠ lr) by (intros ->; apply Hne; f_equal; symmetry; by apply Huniq).
      pose proof (indexed_is_kind a _ _ _ Ha Hl) as Hlk.
      assert (Hsafe : ∀ e, nbrs (gr a') l e = nbrs (gr a) l e).
      { intros e. apply Hn. split; [|split; [done|]].
        - intros [= -> ->]. by apply (is_kind_ne _ _ _ _ _ Hlk (indexed_is_kind a _ _ _ Ha Hlns)).
        - split; intros Hk'; by apply (is_kind_ne _ _ _ _ _ Hlk Hk'). }
      rewrite !Hsafe. by apply (inv_routes a Ha key).
  - intros k' key'. unfold content. views. rewrite Hidx, Hit. case_decide as Hd.
    + injection Hd as -> ->. rewrite lookup_insert_eq. cbn. done.
    + by rewrite lookup_insert_ne by congruence.
Qed.

Lemma inv_unlinked_route a a' lr lns name ns m :
  inv a → idx a !! (KNamespace, ns) = Some lns → idx a !! (KRoute, path name ns) = Some lr →
  nbrs (gr a) lns "routes" = Some m → keeps (unlink_safe lr lns a) a a' →
  nbrs (gr a') lns "routes" = Some (delete name m) →
  let a2 := a_delete KRoute (path name ns) a' in
  inv a2 ∧ updates a a2 KRoute (path name ns) None.
Proof.
  intros Ha Hlns Hlr Hm Hkeep N1 a2. subst a2.
  pose proof Hkeep as (Hidx & _ & Hit & Ht & Hn).
  pose proof (indexed_is_kind a _ _ _ Ha Hlns) as Hnsk.
  pose proof (indexed_is_kind a _ _ _ Ha Hlr) as Hrk.
  assert (Hne : lr ≠ lns) by by eapply is_kind_ne.
  split; [split|].
  - exact Ht.
  - views. rewrite Hidx, Hit. by apply indexed_delete; [apply Ha|].
  - views. rewrite Hidx.
    apply (owned_frame _ (set_nbrs (gr a) lns "routes" (delete name m))).
    + intros ns' l k e Hl He. rewrite lookup_delete_ne in Hl by congruence.
      destruct (decide ((lns, "routes") = (l, e))) as [[= <- <-]|Hne'].
      * erewrite nbrs_set_eq by done. exact N1.
      * rewrite nbrs_set_ne by done. pose proof (indexed_is_kind a _ _ _ Ha Hl) as Hlk.
        assert (l ≠ lr) by by eapply is_kind_ne.
        apply Hn. split; [congruence|]. split; [congruence|]. split; [congruence|].
        split; intros Hk'; by apply (is_kind_ne _ _ _ _ _ Hlk Hk').
    + eapply (owned_unlink (idx a) (items (gr a))); try done; apply Ha.
  - views. rewrite Hidx. intros key l r' Hl Hr'. rewrite Hit in Hr'.
    apply lookup_delete_Some in Hl as [Hne' Hl].
    assert (Hllr : l ≠ lr).
    { intros ->. apply Hne'. f_equal.
      by destruct (indexed_unique _ _ _ _ _ _ _ (inv_indexed a Ha) Hl Hlr). }
    pose proof (indexed_is_kind a _ _ _ Ha Hl) as Hlk.
    assert (l ≠ lns) by by eapply is_kind_ne.
    assert (Hsafe : ∀ e, nbrs (gr a') l e = nbrs (gr a) l e).
    { intros e. apply Hn. split; [congruence|]. split; [congruence|]. split; [congruence|].
      split; intros Hk'; by apply (is_kind_ne _ _ _ _ _ Hlk Hk'). }
    rewrite !Hsafe. by apply (inv_routes a Ha key).
  - intros k' key'. unfold content. views. rewrite Hidx, Hit. case_decide as Hd.
    + injection Hd as -> ->. by rewrite lookup_delete_eq.
    + by rewrite lookup_delete_ne by congruence.
Qed.

Lemma RemoveRoute_spec a name ns : inv a →
  wp (RemoveRoute name ns) (λ err a', removal KRoute name ns True err a a') a.
Proof.
  intros Ha. apply wp_nil. intros Hnil. unfold RemoveRoute. apply wp_bind, wp_FindIn.
  destruct (idx a !! (KNamespace, ns)) as [lns|] eqn:Hlns.
  2:{ rewrite bool_decide_false by by intros []. apply wp_ret. by apply removal_no_ns. }
  rewrite bool_decide_true by by eexists. cbn [default id negb].
  apply wp_bind, wp_FindIn. destruct (idx a !! (KRoute, path name ns)) as [lr|] eqn:Hlr.
  2:{ rewrite bool_decide_false by by intros []. apply wp_ret. by apply removal_missing. }
  rewrite bool_decide_true by by eexists. cbn [default id].
  destruct (inv_indexed a Ha _ _ _ Hlr) as (r & Hr & Hk & Hkey & Hs & _).
  destruct (indexed_ns _ _ _ _ (inv_indexed a Ha) Hlns) as (n & _ & _ & Hsn).
  destruct (key_path r KRoute name ns) as [_ Hns]; try done.
  destruct (inv_routes a Ha _ _ r Hlr Hr) as (mns & ms & Hmns & Hkeys & Hms & Hsz).
  apply wp_bind. eapply unlinkRoute_spec; try done.
  - apply Ha.
  - by eapply indexed_is_kind.
  - by eapply indexed_is_kind.
  - by rewrite <-Hns.
  - by exists ms.
  - intros a' m Hkeep Hm N1 N2 N3. apply wp_bind, wp_DeleteIn.
    pose proof Hkeep as (Hidx & _). rewrite Hidx, Hlr, bool_decide_true by by eexists.
    cbn [negb]. apply wp_ret.
    destruct (inv_unlinked_route a a' lr lns name ns m) as [Hi Hu]; try done.
    apply removal_done; try done; by eexists.
Qed.

(** ** AddRoute *)

(** The record that a route is turned into, read off a dictionary. *)
Definition find_svc (D : kind → string → option resource) (route : Route.t) : gores (option DGateService.t) :=
  if String.eqb (Route.ServiceName route) "" then Ok None
  else match D KService (path (Route.ServiceName route) (Route.NamespaceName route)) with
       | Some (RService s) => Ok (Some s)
       | _ => Err (ErrServiceNotFound (Route.ServiceName route))
       end.

Fixpoint find_mods (D : kind → string → option resource) (names : list string) (ns : string)
    : gores (list (option DGateModule.t)) :=
  match names with
  | [] => Ok []
  | n :: names =>
    match D KModule (path n ns) with
    | Some (RModule m) =>
      match find_mods D names ns with Ok ms => Ok (Some m :: ms) | Err e => Err e end
    | _ => Err (ErrModuleNotFound n)
    end
  end.

Definition build_route (D : kind → string → option resource) (route : Route.t)
    (n : DGateNamespace.t) : gores DGateRoute.t :=
  match find_svc D route with
  | Err e => Err e
  | Ok svc =>
    match find_mods D (elems (Route.Modules route)) (Route.NamespaceName route) with
    | Err e => Err e
    | Ok mods =>
      Ok (DGateRoute.mk _ (Route.Name route) (Route.Paths route) (Route.Methods route)
        (Route.StripPath route) (Route.PreserveHost route) svc (Some n) (Some mods)
        (Route.Tags route))
    end
  end.

Lemma route_modules_spec a names ns (Q : gores (list (option DGateModule.t)) → astate → Prop) :
  inv a → Q (find_mods (content a) names ns) a → wp (route_modules names ns) Q a.
Proof.
  intros Ha. revert Q. induction names as [|n names IH]; intros Q HQ; cbn [route_modules find_mods] in *.
  { by apply wp_ret. }
  apply wp_bind, wp_getModule; [done| |].
  - intros Hc. rewrite Hc in HQ. by apply wp_ret.
  - intros m Hc. rewrite Hc in HQ. apply wp_bind, IH.
    destruct (find_mods (content a) names ns); by apply wp_ret.
Qed.

Lemma find_mods_there a names ns ms : find_mods (content a) names ns = Ok ms →
  Forall (λ n, is_Some (idx a !! (KModule, path n ns))) names.
Proof.
  revert ms. induction names as [|n names IH]; intros ms; cbn [find_mods]; [by constructor|].
  destruct (content a KModule (path n ns)) as [[| | |m| | |]|] eqn:Hc; try done.
  destruct (find_mods (content a) names ns) as [ms'|]; [|done]. intros _.
  constructor; [by eapply content_Some_idx|by eapply IH].
Qed.

Lemma transformRoute_spec a route (Q : gores DGateRoute.t → astate → Prop) : inv a →
  (content a KNamespace (Route.NamespaceName route) = None →
     Q (Err (ErrNamespaceNotFound (Route.NamespaceName route))) a) →
  (∀ n, content a KNamespace (Route.NamespaceName route) = Some (RNamespace n) →
     DGateNamespace.Name n = Route.NamespaceName route → no_slash (Route.NamespaceName route) →
     Q (build_route (content a) route n) a) →
  wp (transformRoute route) Q a.
Proof.
  intros Ha HN HS. unfold transformRoute. apply wp_bind, wp_getNamespace; [done| |].
  { intros Hc. by apply wp_ret, HN. }
  intros n Hc Hn Hs. specialize (HS n Hc Hn Hs). unfold build_route in HS.
  assert (Hsvc : ∀ P : gores (option DGateService.t) → astate → Prop, P (find_svc (content a) route) a →
    wp (if String.eqb (Route.ServiceName route) "" then mret (Ok None)
        else svc ← getService (Route.ServiceName route) (Route.NamespaceName route);
             match svc with
             | None => mret (Err (ErrServiceNotFound (Route.ServiceName route)))
             | Some svc => mret (Ok (Some svc))
             end) P a).
  { intros P HP. unfold find_svc in HP. destruct (String.eqb _ _); [by apply wp_ret|].
    apply wp_bind, wp_getService; [done| |]; intros *; intros Hcs; rewrite ?Hcs in HP;
      by apply wp_ret. }
  apply wp_bind, Hsvc. destruct (find_svc (content a) route) as [svc|e]; [|by apply wp_ret].
  apply wp_bind, route_modules_spec; [done|]. by destruct (find_mods _ _ _); apply wp_ret.
Qed.

Lemma build_route_there a route n rt : build_route (content a) route n = Ok rt →
  Forall (λ m, is_Some (idx a !! (KModule, path m (Route.NamespaceName route))))
    (elems (Route.Modules route)) ∧
  (Route.ServiceName route ≠ "" →
     is_Some (idx a !! (KService, path (Route.ServiceName route) (Route.NamespaceName route)))) ∧
  DGateRoute.Name rt = Route.Name route ∧ DGateRoute.Namespace rt = Some n.
Proof.
  unfold build_route, find_svc.
  destruct (String.eqb_spec (Route.ServiceName route) "") as [Hs|Hs].
  - destruct (find_mods (content a) _ _) as [ms|] eqn:Hm; [|done]. intros [= <-].
    split; [by eapply find_mods_there|done].
  - destruct (content a KService _) as [[|s| | | | |]|] eqn:Hc; try done.
    destruct (find_mods (content a) _ _) as [ms|] eqn:Hm; [|done]. intros [= <-].
    split; [by eapply find_mods_there|]. split; [intros _; by eapply content_Some_idx|done].
Qed.

(** The modules linked to the route of a key. *)
Definition linked_modules a (key : string) : gmap string loc :=
  match (l ← idx a !! (KRoute, key); nbrs (gr a) l "modules") with Some m => m | None => ∅ end.

(** The module vertices and their index are as before. *)
Definition modules_kept a a' : Prop :=
  (∀ key, idx a' !! (KModule, key) = idx a !! (KModule, key)) ∧
  ∀ l r, items (gr a) !! l = Some r → kindof r = KModule → items (gr a') !! l = Some r.

(** What [AddRoute] leaves: the route's module edges are the new ones over
    the old. *)
Definition route_links_after a a' (route : Route.t) : Prop :=
  let key := path (Route.Name route) (Route.NamespaceName route) in
  linked_modules a' key =
    module_links (Route.NamespaceName route) (idx a) (elems (Route.Modules route)) ∅ ∪
    linked_modules a key ∧
  modules_kept a a'.

(** The facts at the point where the route's vertex is looked up. *)
Record route_ready a route n rt lns (m : gmap string loc) : Prop := {
  rd_inv : inv a;
  rd_nil : gr a !! nil = None;
  rd_ns : content a KNamespace (Route.NamespaceName route) = Some (RNamespace n);
  rd_slash : no_slash (Route.NamespaceName route);
  rd_build : build_route (content a) route n = Ok rt;
  rd_under : under (RRoute rt) KRoute (Route.Name route) (Route.NamespaceName route);
  rd_lns : idx a !! (KNamespace, Route.NamespaceName route) = Some lns;
  rd_edge : nbrs (gr a) lns "routes" = Some m }.

(** After relinking in [a1], which has the dictionary of [a] and the new
    record at the route. *)
Lemma AddRoute_done a a1 a' route n rt lns m lr mm ms : route_ready a route n rt lns m →
  inv a1 → idx a1 = idx a → items (gr a1) !! lr = Some (RRoute rt) →
  nbrs (gr a1) lns "routes" = Some m →
  (∀ key, idx a !! (KRoute, key) = Some lr → key = path (Route.Name route) (Route.NamespaceName route)) →
  linked_modules a (path (Route.Name route) (Route.NamespaceName route)) = mm →
  relinked lr lns (Route.Name route) (Route.NamespaceName route) a1 a' m
    (module_links (Route.NamespaceName route) (idx a1) (elems (Route.Modules route)) ∅ ∪ mm)
    (λ ms', (size ms' ≤ 1)%nat ∧ (Route.ServiceName route = "" → ms' = ms)) →
  let a2 := a_insert KRoute (path (Route.Name route) (Route.NamespaceName route)) lr a' in
  (∀ k key, (k, key) ≠ (KRoute, path (Route.Name route) (Route.NamespaceName route)) →
     content a1 k key = content a k key) →
  modules_kept a a1 →
  inv a2 ∧
  updates a a2 KRoute (path (Route.Name route) (Route.NamespaceName route)) (Some (RRoute rt)) ∧
  route_links_after a a2 route.
Proof.
  intros [Ha Hnil Hc Hs Hb Hu Hlns Hm] Hi Hidx1 Hr1 Hm1 Huniq Hmm Hrel a2 Hrest [_ Hkept].
  pose proof (under_key _ _ _ _ Hu ltac:(done)) as Hkey. destruct Hu as (_ & _ & Hnsr & Hp).
  assert (H2 : inv a2 ∧ updates a1 a2 KRoute
    (path (Route.Name route) (Route.NamespaceName route)) (Some (RRoute rt))).
  { eapply (inv_linked_route a1 a' lr lns _ _ m _ _ (RRoute rt));
      [done|by rewrite Hidx1|done|done|done|done|done|by rewrite Hidx1|done| |exact Hrel].
    by intros ms' [? _]. }
  destruct H2 as [Hi2 Hup2]. split; [done|]. split.
  - intros k' key'. rewrite Hup2. case_decide as Hd; [done|]. by apply Hrest.
  - destruct Hrel as ((Hidx & _ & Hit & _) & _ & _ & _ & Hmm'). split.
    + rewrite Hmm, <-Hidx1. unfold linked_modules at 1, a2. views.
      rewrite lookup_insert_eq. cbn. by rewrite Hmm'.
    + unfold a2. split; views.
      * intros key. by rewrite lookup_insert_ne, Hidx, Hidx1 by congruence.
      * intros l r Hl Hk. rewrite Hit. by apply Hkept.
Qed.

Lemma AddRoute_update a route n rt lns m lr (Q : gores DGateRoute.t → astate → Prop) :
  route_ready a route n rt lns m →
  idx a !! (KRoute, path (Route.Name route) (Route.NamespaceName route)) = Some lr →
  (∀ a2, inv a2 → updates a a2 KRoute (path (Route.Name route) (Route.NamespaceName route))
           (Some (RRoute rt)) → route_links_after a a2 route → Q (Ok rt) a2) →
  wp (_ ← on (SetItem lr (RRoute rt));
      err ← relinkRoute lr lns route (Route.Name route) (Route.NamespaceName route) true;
      match err with Some err => mret (Err err) | None => mret (Ok rt) end) Q a.
Proof.
  intros Hrd Hlr HQ. pose proof Hrd as [Ha Hnil Hc Hs Hb Hu Hlns Hm].
  destruct (build_route_there a route n rt Hb) as (Hmods & Hsvc & _ & _).
  pose proof (under_key _ _ _ _ Hu ltac:(done)) as Hkey. destruct Hu as (_ & _ & Hnsr & Hp).
  destruct (content_inv a _ _ lr Ha Hlr) as (av & Hav & _).
  apply wp_bind. eapply wp_SetItem; [exact Hav|].
  destruct (replace_item a KRoute _ lr av (RRoute rt) Ha Hlr Hav) as [Hi Hup]; try done.
  { by rewrite Hnsr. }
  set (a1 := a_item lr av (RRoute rt) a) in *.
  assert (Hn1 : ∀ l e, nbrs (gr a1) l e = nbrs (gr a) l e) by (intros; by apply nbrs_item).
  assert (Hit1 : items (gr a1) = <[lr := RRoute rt]> (items (gr a))) by
    (unfold a1; views; by rewrite items_insert).
  assert (Hr1 : items (gr a1) !! lr = Some (RRoute rt)) by (rewrite Hit1; by rewrite lookup_insert_eq).
  assert (Hnil1 : gr a1 !! nil = None) by
    (unfold a1; views; rewrite lookup_insert_ne; [done|]; intros ->; congruence).
  assert (Hidx1 : idx a1 = idx a) by done. clearbody a1.
  destruct (inv_routes a1 Hi _ _ _ ltac:(rewrite Hidx1; exact Hlr) Hr1)
    as (mns & ms & Hmns & Hkeys & Hms & Hsz).
  assert (Hrk : is_kind a1 KRoute lr) by by exists (RRoute rt).
  assert (Hnk : is_kind a1 KNamespace lns) by (eapply indexed_is_kind; [done|by rewrite Hidx1]).
  destruct (kind_nbrs a1 KRoute lr "modules") as (mm & Hmm & _); [apply Hi|done|by eexists|].
  apply wp_bind. eapply (relinkRoute_spec a1 route lr lns true m mm mns ms);
    [done|apply Hi|apply Hi|done|done|done| |done|done|done|done|by rewrite Hn1|by rewrite Hidx1
    |by rewrite Hidx1|].
  { intros k Hk. rewrite (Hkeys k Hk). exact Hnsr. }
  intros a' Hrel. apply wp_ret.
  assert (Hins : a_insert KRoute (path (Route.Name route) (Route.NamespaceName route)) lr a' = a').
  { pose proof Hrel as ((Hidx & _) & _). unfold a_insert. rewrite Hidx, Hidx1, insert_id by done.
    destruct a' as [i g c]. cbn in *. congruence. }
  destruct (AddRoute_done a a1 a' route n rt lns m lr mm ms) as (Hi2 & Hu2 & Hl2); try done.
  - by rewrite Hn1.
  - intros key Hkey'. by destruct (indexed_unique _ _ _ _ _ _ _ (inv_indexed a Ha) Hkey' Hlr).
  - unfold linked_modules. rewrite Hlr. cbn. by rewrite <-Hn1, Hmm.
  - intros k key Hne. rewrite Hup. by case_decide.
  - split; [by rewrite Hidx1|]. intros l r Hl Hk. rewrite Hit1, lookup_insert_ne; [done|].
    intros <-. rewrite items_lookup, Hav in Hl. injection Hl as <-.
    destruct (inv_indexed a Ha _ _ _ Hlr) as (r & Hr & Hkr & _).
    rewrite items_lookup, Hav in Hr. injection Hr as <-. congruence.
  - rewrite Hins in Hi2, Hu2, Hl2. by apply HQ.
Qed.

Lemma AddRoute_insert a route n rt lns m (Q : gores DGateRoute.t → astate → Prop) :
  route_ready a route n rt lns m →
  idx a !! (KRoute, path (Route.Name route) (Route.NamespaceName route)) = None →
  (∀ a2, inv a2 → updates a a2 KRoute (path (Route.Name route) (Route.NamespaceName route))
           (Some (RRoute rt)) → route_links_after a a2 route → Q (Ok rt) a2) →
  wp (rtLk ← on (NewNamedVertexWithValue (RRoute rt) ["namespace"; "service"; "modules"]);
      err ← relinkRoute rtLk lns route (Route.Name route) (Route.NamespaceName route) false;
      match err with
      | Some err => mret (Err err)
      | None =>
        _ ← InsertIn KRoute (path (Route.Name route) (Route.NamespaceName route)) rtLk;
        mret (Ok rt)
      end) Q a.
Proof.
  intros Hrd Hlr HQ. pose proof Hrd as [Ha Hnil Hc Hs Hb Hu Hlns Hm].
  destruct (build_route_there a route n rt Hb) as (Hmods & Hsvc & _ & _).
  apply wp_bind, wp_New. intros lr Hlrn Hf.
  destruct (inv_new a Ha lr Hf (RRoute rt) ["namespace"; "service"; "modules"]) as [Hi Hun]; [done|].
  destruct (fresh_items a lr Hf (RRoute rt) ["namespace"; "service"; "modules"]) as [_ Hit].
  assert (Hlne : lr ≠ lns) by exact (fresh_not_indexed a Ha lr Hf _ _ _ Hlns).
  set (a1 := a_new lr _ _ a) in *.
  assert (Hr1 : items (gr a1) !! lr = Some (RRoute rt)) by (rewrite Hit; by rewrite lookup_insert_eq).
  assert (Hnil1 : gr a1 !! nil = None) by (unfold a1; views; by rewrite lookup_insert_ne).
  assert (Hnew : ∀ e, e ∈ ["namespace"; "service"; "modules"] → nbrs (gr a1) lr e = Some ∅).
  { intros e He. unfold a1. views. rewrite nbrs_insert_eq. apply lookup_gset_to_gmap_Some.
    split; [by apply elem_of_list_to_set|done]. }
  assert (Hm1 : nbrs (gr a1) lns "routes" = Some m) by (unfold a1; views; by rewrite nbrs_insert_ne).
  assert (Hidx1 : idx a1 = idx a) by done. clearbody a1.
  assert (Hrk : is_kind a1 KRoute lr) by by exists (RRoute rt).
  assert (Hnk : is_kind a1 KNamespace lns) by (eapply indexed_is_kind; [done|by rewrite Hidx1]).
  apply wp_bind. eapply (relinkRoute_spec a1 route lr lns false m ∅ ∅ ∅);
    [done|apply Hi|apply Hi|done|done|apply Hnew; by repeat constructor| |apply Hnew; by repeat constructor
    |by rewrite map_size_empty; lia|done|apply Hnew; by repeat constructor|done|by rewrite Hidx1
    |by rewrite Hidx1|].
  { by intros ? ?%elem_of_dom%is_Some_None. }
  intros a' Hrel. cbv beta iota. apply wp_bind, wp_InsertIn, wp_ret.
  destruct (AddRoute_done a a1 a' route n rt lns m lr ∅ ∅) as (Hi2 & Hu2 & Hl2); try done.
  - intros key Hkey. by destruct (fresh_not_indexed a Ha lr Hf _ _ _ Hkey).
  - unfold linked_modules. by rewrite Hlr.
  - split; [by rewrite Hidx1|]. intros l r Hl Hk. rewrite Hit, lookup_insert_ne; [done|].
    intros <-. by rewrite items_lookup, Hf in Hl.
  - by apply HQ.
Qed.

Lemma AddRoute_spec a route : inv a →
  wp (AddRoute route) (λ r a',
    addition KRoute (Route.Name route) (Route.NamespaceName route) RRoute (build_route (content a) route) r
      a a' ∧
    ∀ rt, r = Ok rt → route_links_after a a' route) a.
Proof.
  intros Ha. apply wp_nil. intros Hnil. unfold AddRoute. apply wp_bind, transformRoute_spec; [done| |].
  { intros Hc. apply wp_ret. split; [by apply addition_none|done]. }
  intros n Hc Hn Hs. destruct (build_route (content a) route n) as [rt|e] eqn:Hb.
  2:{ apply wp_ret. split; [by eapply addition_err|done]. }
  destruct (build_route_there a route n rt Hb) as (_ & _ & Hname & Hns).
  destruct (ns_vertex a Ha _ n KRoute "routes" Hc eq_refl) as (lns & m & Hlns & _ & Hm & _).
  assert (Hrd : route_ready a route n rt lns m) by (split; try done; by eapply under_intro).
  assert (HQ : ∀ a2, inv a2 → updates a a2 KRoute
    (path (Route.Name route) (Route.NamespaceName route)) (Some (RRoute rt)) →
    route_links_after a a2 route →
    addition KRoute (Route.Name route) (Route.NamespaceName route) RRoute (build_route (content a) route)
      (Ok rt) a a2 ∧ ∀ rt', Ok rt = Ok rt' → route_links_after a a2 route).
  { intros a2 Hi Hu Hl. split; [by eapply addition_ok|done]. }
  apply wp_bind, wp_FindIn. rewrite Hlns, bool_decide_true by by eexists. cbn [default id negb].
  apply wp_bind, wp_FindIn.
  destruct (idx a !! (KRoute, path (Route.Name route) (Route.NamespaceName route))) as [lr|] eqn:Hlr.
  - rewrite bool_decide_true by by eexists. cbn [default id]. by eapply AddRoute_update.
  - rewrite bool_decide_false by by intros []. by eapply AddRoute_insert.
Qed.

(** ** GetRoute *)

(** [vals] are the records behind the entries of [m], in key order. *)
Definition lists {A} a (m : gmap string loc) (wrap : A → resource) (vals : list A) : Prop :=
  ∃ es, asorted es ∧ amap es = m ∧
    Forall2 (λ (e : string * loc) v, items (gr a) !! e.2 = Some (wrap v)) es vals.

Lemma wp_collect_items {A} a t init k (conv : resource → outcome A) (wrap : A → resource)
    (Q : slice A → astate → Prop) :
  tree_wf t → (∀ key x, tree_map t !! key = Some x → is_kind a k x) →
  (∀ r, kindof r = k → ∃ v, r = wrap v ∧ conv r = Returns v) →
  (∀ vals, lists a (tree_map t) wrap vals → Q (collected init vals) a) →
  wp (collect t init (read conv)) Q a.
Proof.
  intros Ht Hk Hconv HQ.
  eapply (wp_collect _ (λ x v, items (gr a) !! x = Some (wrap v))).
  - intros key x Hin. rewrite tree_list_lookup in Hin by done.
    destruct (Hk key x Hin) as (r & Hr & Hkr). destruct (Hconv r Hkr) as (v & -> & Hv).
    rewrite items_lookup in Hr. destruct (gr a !! x) as [av|] eqn:Hav; [|done]. cbn in Hr.
    injection Hr as Hr. eapply wp_read; [exact Hav|by rewrite Hr|]. split; [done|].
    rewrite items_lookup, Hav. cbn. by rewrite Hr.
  - intros vals Hvals. apply HQ. exists (tree_list t). split; [apply Ht|]. by split.
Qed.

Lemma as_module_kind r : kindof r = KModule → ∃ v, r = RModule v ∧ as_module r = Returns v.
Proof. destruct r as [| | |m| | |]; try done. by exists m. Qed.
Lemma as_domain_kind r : kindof r = KDomain → ∃ v, r = RDomain v ∧ as_domain r = Returns v.
Proof. destruct r as [| |d| | | |]; try done. by exists d. Qed.

(** The service that a reader of the route sees: the stored one of that name. *)
Definition current_service (D : kind → string → option resource) (rt : DGateRoute.t)
    (ns : string) : option DGateService.t :=
  match DGateRoute.Service rt with
  | None => None
  | Some svc =>
    match D KService (path (DGateService.Name svc) ns) with
    | Some (RService svc) => Some svc
    | _ => Some svc
    end
  end.

Definition served (D : kind → string → option resource) (rt : DGateRoute.t) (ns : string)
    (mods : list DGateModule.t) : DGateRoute.t :=
  with_service (with_modules rt (pointers (collected None mods))) (current_service D rt ns).

Lemma route_modules_edge a key l : inv a → idx a !! (KRoute, key) = Some l →
  ∃ mm, nbrs (gr a) l "modules" = Some mm ∧ linked_modules a key = mm ∧
    ∀ k x, mm !! k = Some x → is_kind a KModule x.
Proof.
  intros Ha Hl. destruct (kind_nbrs a KRoute l "modules") as (mm & Hmm & Hlead);
    [apply Ha|by eapply indexed_is_kind|by eexists|].
  exists mm. split; [done|]. split; [unfold linked_modules; rewrite Hl; cbn; by rewrite Hmm|].
  intros k x Hx. by destruct (Hlead k x Hx) as (k' & [= <-] & ?).
Qed.

Lemma wp_getRouteModules a name ns l rt (Q : option (slice DGateModule.t) → astate → Prop) :
  inv a → idx a !! (KRoute, path name ns) = Some l → items (gr a) !! l = Some (RRoute rt) →
  (∀ mods, lists a (linked_modules a (path name ns)) RModule mods →
     Q (Some (collected None mods)) a) →
  wp (getRouteModules name ns) Q a.
Proof.
  intros Ha Hl Hr HQ. unfold getRouteModules. apply wp_bind, wp_FindIn.
  rewrite Hl, bool_decide_true by by eexists. cbn [default id negb].
  destruct (content_inv a _ _ l Ha Hl) as (av & Hav & _ & _ & Hkey & _ & [n Hn]).
  rewrite items_lookup, Hav in Hr. cbn in Hr. injection Hr as Hr. rewrite Hr in Hkey, Hn.
  cbn in Hn, Hkey. unfold ns_of in Hkey. cbn in Hkey. rewrite Hn in Hkey.
  apply wp_bind. eapply wp_read; [exact Hav|by rewrite Hr|].
  apply wp_bind. eapply wp_lift; [by rewrite Hn|].
  apply wp_bind, wp_FindIn. rewrite Hkey, Hl, bool_decide_true by by eexists. cbn [default id].
  destruct (route_modules_edge a _ l Ha Hl) as (mm & Hmm & Hlinked & Hk).
  apply wp_bind, wp_bind. eapply wp_need_edge; [exact Hmm|]. intros t Ht Hmt.
  eapply (wp_collect_items a t None KModule as_module RModule); [done|by rewrite Hmt|apply as_module_kind|].
  intros mods Hmods. apply wp_ret, HQ. by rewrite Hlinked, <-Hmt.
Qed.

Lemma getRoute_spec a name ns : inv a →
  wp (getRoute name ns) (λ r a', a' = a ∧
    match content a KRoute (path name ns) with
    | Some (RRoute rt) => ∃ mods, lists a (linked_modules a (path name ns)) RModule mods ∧
        r = Some (served (content a) rt (ns_of (RRoute rt)) mods)
    | _ => r = None
    end) a.
Proof.
  intros Ha. unfold getRoute. apply wp_bind, wp_FindIn.
  destruct (idx a !! (KRoute, path name ns)) as [l|] eqn:Hl.
  2:{ rewrite bool_decide_false by by intros []. apply wp_ret. by rewrite content_None. }
  rewrite bool_decide_true by by eexists. cbn [default id].
  destruct (content_inv a _ _ l Ha Hl) as (av & Hav & Hc & Hk & Hkey & Hs & [n Hn]).
  assert (Hr : items (gr a) !! l = Some (aitem av)) by by rewrite items_lookup, Hav.
  destruct (aitem av) as [| | | |rt| |] eqn:Hrt; try done. rewrite Hc.
  cbn in Hn, Hkey. assert (Hns : ns_of (RRoute rt) = DGateNamespace.Name n) by
    (unfold ns_of; cbn; by rewrite Hn). rewrite Hns in *.
  destruct (route_modules_edge a _ l Ha Hl) as (mm & Hmm & Hlinked & Hmk).
  apply wp_bind. unfold updateRouteRef.
  apply wp_bind. eapply wp_read; [exact Hav|by rewrite Hrt|].
  apply wp_bind. eapply wp_need_edge; [exact Hmm|]. intros t Ht Hmt.
  apply wp_bind. eapply (wp_collect_items a t _ KModule as_module RModule);
    [done|by rewrite Hmt|apply as_module_kind|]. intros mods0 _.
  apply wp_bind. eapply wp_lift; [cbn; by rewrite Hn|].
  apply wp_bind. eapply (wp_getRouteModules a _ _ l rt); [done|cbn; by rewrite Hkey|done|].
  cbn [DGateRoute.Name with_modules]. rewrite Hkey. intros mods Hmods.
  cbn [DGateRoute.Service with_modules].
  assert (Hdone : ∀ rt', rt' = served (content a) rt (DGateNamespace.Name n) mods →
    a = a ∧ ∃ mods, lists a (linked_modules a (path name ns)) RModule mods ∧
      Some rt' = Some (served (content a) rt (DGateNamespace.Name n) mods)).
  { intros rt' ->. split; [done|]. by exists mods. }
  destruct (DGateRoute.Service rt) as [svc|] eqn:Hsvc.
  - apply wp_bind. eapply (wp_getService a Ha (DGateService.Name svc) (DGateNamespace.Name n)).
    + intros Hcs. apply wp_ret, wp_ret, Hdone. unfold served, current_service.
      rewrite Hsvc, Hcs. destruct rt. cbn in *. by subst.
    + intros svc' Hcs. apply wp_ret, wp_ret, Hdone. unfold served, current_service.
      by rewrite Hsvc, Hcs.
  - apply wp_ret, wp_ret, Hdone. unfold served, current_service. rewrite Hsvc.
    destruct rt. cbn in *. by subst.
Qed.

End routes.
