(* ===== verification/ResourceSpec.v ===== *)
(** * The abstract specification of the resource manager

    A dictionary from kind and path to record, the operations as data, and
    the relation [spec_step] between an operation, the dictionary before, the
    answer and the dictionary after.  ResourceTheorems.v proves that every
    reachable manager implements it. *)
From Stdlib Require Import ZArith Lia Sorting.Permutation Sorting.Sorted.
From stdpp Require Import base gmap strings list fin_maps sorting.
From S2P Require Import Prelude Avl SliceUtil Pattern Base64 Spec Linker ResourceManager.
From S2P Require Import ResourceLogic ResourceInvariant ResourceProofs ResourceOps.
From S2P Require Import ResourceRoutes.

Abbreviation dict := (gmap (kind * string) resource).

Section spec.
Context {E : Externals} {R : Runtime}.

(** ** Operations and answers *)

Inductive op : Type :=
  | OpAddNamespace (ns : Namespace.t) | OpRemoveNamespace (ns : string)
  | OpAddService (s : Service.t) | OpRemoveService (name ns : string)
  | OpAddDomain (d : Domain.t) | OpRemoveDomain (name ns : string)
  | OpAddModule (m : Module_.t) | OpRemoveModule (name ns : string)
  | OpAddCollection (c : Collection.t) | OpRemoveCollection (name ns : string)
  | OpAddSecret (s : Secret.t) | OpRemoveSecret (name ns : string)
  | OpAddRoute (r : Route.t) | OpRemoveRoute (name ns : string)
  | OpGetNamespace (name : string) | OpGetService (name ns : string)
  | OpGetDomain (name ns : string) | OpGetModule (name ns : string)
  | OpGetCollection (name ns : string) | OpGetSecret (name ns : string)
  | OpGetRoute (name ns : string) | OpGetDomainsByPriority.

Inductive answer : Type :=
  | ANamespace (n : DGateNamespace.t) | AService (r : gores DGateService.t)
  | ADomain (r : gores DGateDomain.t) | AModule (r : gores DGateModule.t)
  | ACollection (r : gores DGateCollection.t) | ASecret (r : gores DGateSecret.t)
  | ARoute (r : gores DGateRoute.t) | AError (err : option error)
  | AFound (r : option resource) | ADomains (l : slice DGateDomain.t).

Definition answering {A} (f : A → answer) (m : ST ResourceManager A) : ST ResourceManager answer :=
  x ← m; mret (f x).
Definition found {A} (wrap : A → resource) (x : option A) : answer := AFound (wrap <$> x).

Definition exec (o : op) : ST ResourceManager answer :=
  match o with
  | OpAddNamespace ns => answering ANamespace (AddNamespace ns)
  | OpRemoveNamespace ns => answering AError (RemoveNamespace ns)
  | OpAddService s => answering AService (AddService s)
  | OpRemoveService name ns => answering AError (RemoveService name ns)
  | OpAddDomain d => answering ADomain (AddDomain d)
  | OpRemoveDomain name ns => answering AError (RemoveDomain name ns)
  | OpAddModule m => answering AModule (AddModule m)
  | OpRemoveModule name ns => answering AError (RemoveModule name ns)
  | OpAddCollection c => answering ACollection (AddCollection c)
  | OpRemoveCollection name ns => answering AError (RemoveCollection name ns)
  | OpAddSecret s => answering ASecret (AddSecret s)
  | OpRemoveSecret name ns => answering AError (RemoveSecret name ns)
  | OpAddRoute r => answering ARoute (AddRoute r)
  | OpRemoveRoute name ns => answering AError (RemoveRoute name ns)
  | OpGetNamespace name => answering (found RNamespace) (GetNamespace name)
  | OpGetService name ns => answering (found RService) (GetService name ns)
  | OpGetDomain name ns => answering (found RDomain) (GetDomain name ns)
  | OpGetModule name ns => answering (found RModule) (GetModule name ns)
  | OpGetCollection name ns => answering (found RCollection) (GetCollection name ns)
  | OpGetSecret name ns => answering (found RSecret) (GetSecret name ns)
  | OpGetRoute name ns => answering (found RRoute) (GetRoute name ns)
  | OpGetDomainsByPriority => answering ADomains GetDomainsByPriority
  end.

(** Namespaces without a slash, collections whose schema compiles. *)
Definition allowed (o : op) : Prop :=
  match o with
  | OpAddNamespace ns => no_slash (Namespace.Name ns)
  | OpAddCollection c => schema_compiles c
  | _ => True
  end.

Inductive reachable : ResourceManager → Prop :=
  | reach_new : reachable NewManager
  | reach_step rm o ans rm' : reachable rm → allowed o → exec o rm = Returns (ans, rm') →
      reachable rm'.

(** ** The dictionary of a manager *)

Definition at_key (D : dict) (k : kind) (key : string) : option resource := D !! (k, key).

Definition all_kinds : list kind :=
  [KNamespace; KService; KDomain; KModule; KRoute; KSecret; KCollection].

(** The records behind one index. *)
Definition index_dict (k : kind) (rm : ResourceManager) : gmap string resource :=
  omap (λ l, item <$> vertices rm !! l) (tree_map (index k rm)).
Fixpoint dict_of_kinds (rm : ResourceManager) (ks : list kind) : dict :=
  match ks with
  | [] => ∅
  | k :: ks => kmap (pair k) (index_dict k rm) ∪ dict_of_kinds rm ks
  end.
Definition rm_dict (rm : ResourceManager) : dict := dict_of_kinds rm all_kinds.

(** The edge [e] of the resource at a key. *)
Definition rm_edge (rm : ResourceManager) (k : kind) (key e : string) : gmap string loc :=
  match (l ← tree_map (index k rm) !! key; nbrs (abs (vertices rm)) l e) with
  | Some m => m
  | None => ∅
  end.
(** How many routes are linked to it. *)
Definition rm_links (rm : ResourceManager) (k : kind) (key : string) : nat :=
  size (rm_edge rm k key "routes").

(** ** The specification *)

(** An addition: the record built over the stored namespace, in its place. *)
Definition spec_add {A} (k : kind) (name ns : string) (wrap : A → resource)
    (build : DGateNamespace.t → gores A) (D : dict) : gores A * dict :=
  match D !! (KNamespace, ns) with
  | Some (RNamespace n) =>
    match build n with
    | Ok x => (Ok x, <[(k, path name ns) := wrap x]> D)
    | Err e => (Err e, D)
    end
  | _ => (Err (ErrNamespaceNotFound ns), D)
  end.

(** A removal: without an error exactly when the record is there and [ok]. *)
Definition spec_remove (k : kind) (key : string) (ok : Prop) (D : dict) (ans : answer)
    (D' : dict) : Prop :=
  ∃ err, ans = AError err ∧ (err = None ↔ is_Some (D !! (k, key)) ∧ ok) ∧
    D' = match err with None => delete (k, key) D | Some _ => D end.

Definition has_ns (D : dict) (ns : string) : Prop := is_Some (D !! (KNamespace, ns)).

(** Sorted by priority, then name, both descending. *)
Definition by_priority (l : list DGateDomain.t) : Prop :=
  StronglySorted (λ d1 d2, domain_less d2 d1 = false) l.
Definition as_dom (r : resource) : option DGateDomain.t :=
  match r with RDomain d => Some d | _ => None end.

(** All domains, sorted. *)
Definition domains_sorted (D : dict) (l : slice DGateDomain.t) : Prop :=
  ∃ M : gmap string DGateDomain.t, (∀ key, M !! key = D !! (KDomain, key) ≫= as_dom) ∧
    elems l ≡ₚ (map_to_list M).*2 ∧ by_priority (elems l).

Definition spec_step (links : kind → string → nat) (o : op) (D : dict) (ans : answer) (D' : dict)
    : Prop :=
  match o with
  | OpAddNamespace ns => ans = ANamespace (transformNamespace ns) ∧
      D' = <[(KNamespace, Namespace.Name ns) := RNamespace (transformNamespace ns)]> D
  | OpAddService s => ∃ r, ans = AService r ∧ (r, D') =
      spec_add KService (Service.Name s) (Service.NamespaceName s) RService (build_service s) D
  | OpAddDomain d => ∃ r, ans = ADomain r ∧ (r, D') =
      spec_add KDomain (Domain.Name d) (Domain.NamespaceName d) RDomain (build_domain d) D
  | OpAddModule m => ∃ r, ans = AModule r ∧ (r, D') =
      spec_add KModule (Module_.Name m) (Module_.NamespaceName m) RModule (build_module m) D
  | OpAddCollection c => ∃ r, ans = ACollection r ∧ (r, D') =
      spec_add KCollection (Collection.Name c) (Collection.NamespaceName c) RCollection
        (build_collection c) D
  | OpAddSecret s => ∃ r, ans = ASecret r ∧ (r, D') =
      spec_add KSecret (Secret.Name s) (Secret.NamespaceName s) RSecret (build_secret s) D
  | OpAddRoute rt => ∃ r, ans = ARoute r ∧ (r, D') =
      spec_add KRoute (Route.Name rt) (Route.NamespaceName rt) RRoute
        (build_route (at_key D) rt) D
  | OpRemoveNamespace ns => spec_remove KNamespace ns
      (∀ k name, guards k → D !! (k, path name ns) = None) D ans D'
  | OpRemoveService name ns => spec_remove KService (path name ns)
      (has_ns D ns ∧ links KService (path name ns) = 0%nat) D ans D'
  | OpRemoveModule name ns => spec_remove KModule (path name ns)
      (has_ns D ns ∧ links KModule (path name ns) = 0%nat) D ans D'
  | OpRemoveDomain name ns => spec_remove KDomain (path name ns) (has_ns D ns) D ans D'
  | OpRemoveCollection name ns => spec_remove KCollection (path name ns) (has_ns D ns) D ans D'
  | OpRemoveSecret name ns => spec_remove KSecret (path name ns) (has_ns D ns) D ans D'
  | OpRemoveRoute name ns => spec_remove KRoute (path name ns) (has_ns D ns) D ans D'
  | OpGetNamespace name => ans = AFound (D !! (KNamespace, name)) ∧ D' = D
  | OpGetService name ns => ans = AFound (D !! (KService, path name ns)) ∧ D' = D
  | OpGetDomain name ns => ans = AFound (D !! (KDomain, path name ns)) ∧ D' = D
  | OpGetModule name ns => ans = AFound (D !! (KModule, path name ns)) ∧ D' = D
  | OpGetCollection name ns => ans = AFound (D !! (KCollection, path name ns)) ∧ D' = D
  | OpGetSecret name ns => ans = AFound (D !! (KSecret, path name ns)) ∧ D' = D
  | OpGetRoute name ns => D' = D ∧
      match D !! (KRoute, path name ns) with
      | Some (RRoute rt) => ∃ mods,
          ans = AFound (Some (RRoute (served (at_key D) rt (ns_of (RRoute rt)) mods)))
      | _ => ans = AFound None
      end
  | OpGetDomainsByPriority => D' = D ∧ ∃ l, ans = ADomains l ∧ domains_sorted D l
  end.

(** The one operation that is not total: removing a service that two or more
    routes use. *)
Definition answers (rm : ResourceManager) (o : op) : Prop :=
  match o with
  | OpRemoveService name ns =>
      has_ns (rm_dict rm) ns → (rm_links rm KService (path name ns) ≤ 1)%nat
  | _ => True
  end.

End spec.

(** ** A manager to evaluate on *)

Definition not_after {A} (less : A → A → bool) (a b : A) : Prop := less b a = false.
#[export] Instance not_after_dec {A} (less : A → A → bool) : RelDecision (not_after less).
Proof. intros a b. unfold not_after. apply _. Defined.

Definition sample_runtime : Runtime := {|
  range_map := map_to_list;
  sort_Slice A less l := merge_sort (not_after less) l |}.

Lemma sample_runtime_laws : RuntimeLaws sample_runtime.
Proof.
  split; [done|..].
  - intros A less l. apply merge_sort_Permutation.
  - intros A less l (Hirr & Htrans & Hneg). apply StronglySorted_merge_sort.
    + intros a b c Hab Hbc. by eapply Hneg.
    + intros a b. destruct (less b a) eqn:Hba; [|by left]. right.
      destruct (less a b) eqn:Hab; [|done]. by rewrite <-(Hirr a), (Htrans a b a).
Qed.

#[local] Existing Instance text_externals.
#[local] Existing Instance sample_runtime.

Fixpoint exec_all (os : list op) (rm : ResourceManager) : outcome ResourceManager :=
  match os with
  | [] => Returns rm
  | o :: os => match exec o rm with
               | Returns (_, rm) => exec_all os rm
               | Panics e => Panics e
               end
  end.

Lemma exec_all_reachable os rm rm' : reachable rm → Forall allowed os →
  exec_all os rm = Returns rm' → reachable rm'.
Proof.
  intros Hrm Hall. revert rm Hrm. induction Hall as [|o os Ho _ IH]; intros rm Hrm; cbn.
  - by intros [= <-].
  - destruct (exec o rm) as [[ans rm1]|] eqn:Eo; [|done]. apply IH. by eapply reach_step.
Qed.

Definition sample_module (name : string) : Module_.t :=
  Module_.mk name "default" "ZXhwb3J0IHt9" "typescript" None.
Definition sample_route (name mod_ : string) : Route.t :=
  Route.mk name (Some ["/"]) (Some ["GET"]) false false "svc" "default" (Some [mod_]) None.
Definition sample_domain (name : string) (priority : Z) : Domain.t :=
  Domain.mk name "default" (Some ["*"]) priority "" "" None.

(** The route r1 is added with the module m1 and then updated to use m2. *)
Definition sample_ops : list op :=
  [OpAddNamespace DefaultNamespace;
   OpAddModule (sample_module "m1"); OpAddModule (sample_module "m2");
   OpAddService (Service.mk "svc" None "default" None None None None None None None None None);
   OpAddDomain (sample_domain "low" 1); OpAddDomain (sample_domain "high" 2);
   OpAddRoute (sample_route "r1" "m1"); OpAddRoute (sample_route "r2" "m2");
   OpAddRoute (sample_route "r1" "m2")].

Definition sample_manager : ResourceManager :=
  match exec_all sample_ops NewManager with Returns rm => rm | Panics _ => NewManager end.

Lemma sample_reachable : reachable sample_manager.
Proof.
  apply (exec_all_reachable sample_ops NewManager); [apply reach_new| |].
  - by repeat constructor.
  - unfold sample_manager. vm_compute. reflexivity.
Qed.
