(* ===== verification/ResourceTheorems.v ===== *)
(** * Theorems on the resource manager

    The operations as the steps of a transition system, its reachable
    states, and what every reachable manager satisfies. *)
From Stdlib Require Import ZArith Lia Sorting.Permutation Sorting.Sorted.
From stdpp Require Import base gmap strings list fin_maps.
From S2P Require Import Prelude Avl SliceUtil Pattern Base64 Spec Linker ResourceManager.
From S2P Require Import ResourceLogic ResourceInvariant ResourceProofs ResourceOps.
From S2P Require Import ResourceRoutes ResourceSpec.

Section theorems.
Context {E : Externals} {R : Runtime} {RL : RuntimeLaws R}.
Implicit Types (rm : ResourceManager) (a : astate) (D : dict).

(** ** The dictionary a manager denotes *)

(** [D] holds the content of [a]. *)
Definition dict_of a D : Prop := ∀ k key, D !! (k, key) = content a k key.

Lemma dict_exists a : ∃ D, dict_of a D.
Proof.
  exists (omap (λ l, items (gr a) !! l) (idx a)). intros k key. unfold content.
  by rewrite lookup_omap.
Qed.

Lemma lookup_fold rm k key ks : NoDup ks →
  dict_of_kinds rm ks !! (k, key) =
  if decide (k ∈ ks) then index_dict k rm !! key else None.
Proof.
  induction 1 as [|k0 ks Hk0 _ IH]; cbn [dict_of_kinds].
  { by rewrite decide_False by apply not_elem_of_nil. }
  destruct (decide (k = k0)) as [->|Hne].
  - rewrite decide_True by by apply elem_of_cons; left.
    rewrite decide_False in IH by done. rewrite lookup_union_l by done. by rewrite lookup_kmap by apply _.
  - rewrite lookup_union_r, IH.
    + apply decide_ext. rewrite elem_of_cons. naive_solver.
    + apply lookup_kmap_None; [apply _|]. by intros key' [= -> ->].
Qed.

Lemma rel_dict rm a : rel rm a → dict_of a (rm_dict rm).
Proof.
  intros (_ & _ & Hidx & Hgr & _) k key. unfold rm_dict. rewrite lookup_fold.
  - rewrite decide_True by by destruct k; cbn; repeat constructor.
    unfold index_dict, content. rewrite lookup_omap, Hidx, Hgr.
    destruct (tree_map (index k rm) !! key) as [l|]; [|done]. cbn.
    rewrite items_lookup. unfold abs. rewrite lookup_fmap. by destruct (vertices rm !! l).
  - repeat constructor; rewrite ?elem_of_cons, ?elem_of_nil; naive_solver.
Qed.

Lemma rel_edge rm a k key e : rel rm a →
  rm_edge rm k key e = match (l ← idx a !! (k, key); nbrs (gr a) l e) with
                       | Some m => m | None => ∅ end.
Proof. intros (_ & _ & Hidx & Hgr & _). unfold rm_edge. by rewrite Hidx, Hgr. Qed.

Lemma rel_links rm a k key : rel rm a → rm_links rm k key = route_links a k key.
Proof.
  intros Hrm. unfold rm_links, route_links. rewrite (rel_edge rm a) by done.
  by destruct (l ← idx a !! (k, key); nbrs (gr a) l "routes").
Qed.

Section dicts.
Context a a' D D' (HD : dict_of a D) (HD' : dict_of a' D').

Lemma unchanged_dict : unchanged a a' → D' = D.
Proof. intros Hu. apply map_eq. intros [k key]. by rewrite HD, HD', Hu. Qed.

Lemma updates_insert k key r : updates a a' k key (Some r) → D' = <[(k, key) := r]> D.
Proof.
  intros Hu. apply map_eq. intros [k' key']. rewrite HD', Hu. case_decide as Hd.
  - rewrite <-Hd. by rewrite lookup_insert_eq.
  - by rewrite lookup_insert_ne.
Qed.

Lemma updates_delete k key : updates a a' k key None → D' = delete (k, key) D.
Proof.
  intros Hu. apply map_eq. intros [k' key']. rewrite HD', Hu. case_decide as Hd.
  - rewrite <-Hd. by rewrite lookup_delete_eq.
  - by rewrite lookup_delete_ne.
Qed.

Lemma addition_add {A} k name ns (wrap : A → resource) build r :
  addition k name ns wrap build r a a' → (r, D') = spec_add k name ns wrap build D.
Proof.
  intros [_ Hadd]. unfold spec_add. rewrite HD.
  destruct (content a KNamespace ns) as [[n| | | | | |]|];
    try (destruct Hadd as [-> Hu]; by rewrite (unchanged_dict Hu)).
  destruct Hadd as [-> Hu]. destruct (build n) as [x|e].
  - by rewrite (updates_insert _ _ _ Hu).
  - by rewrite (unchanged_dict Hu).
Qed.

Lemma removal_remove k name ns (ok : Prop) err : removal k name ns ok err a a' →
  spec_remove k (path name ns) (has_ns D ns ∧ ok) D (AError err) D'.
Proof.
  intros (_ & Hd & Herr). exists err. split; [done|]. unfold has_ns. rewrite !HD. split; [done|].
  destruct err; [by apply unchanged_dict|by apply updates_delete].
Qed.

End dicts.

(** ** The operations that leave the cache alone *)

Definition cache_kept {A} (m : ST ResourceManager A) : Prop := ∀ rm r rm',
  m rm = Returns (r, rm') → priorityDomainCache rm' = priorityDomainCache rm.

Lemma cache_ret {A} (x : A) : cache_kept (mret x).
Proof. by intros rm r rm' [= _ <-]. Qed.
Lemma cache_panic {A} msg : cache_kept (st_panic msg : ST ResourceManager A).
Proof. done. Qed.
Lemma cache_lift {A} (o : outcome A) : cache_kept (st_lift o).
Proof. intros rm r rm'. st. destruct o; [|done]. by intros [= _ <-]. Qed.
Lemma cache_bind {A B} (m : ST ResourceManager A) (f : A → ST ResourceManager B) :
  cache_kept m → (∀ x, cache_kept (f x)) → cache_kept (m ≫= f).
Proof.
  intros Hm Hf rm r rm'. st. destruct (m rm) as [[x rm1]|] eqn:Em; [|done]. intros Hr.
  rewrite (Hf x rm1 r rm' Hr). by eapply Hm.
Qed.
Lemma cache_on {A} (m : ST (store resource) A) : cache_kept (on m).
Proof.
  intros rm r rm'. unfold on. destruct (m (vertices rm)) as [[x g]|]; [|done]. by intros [= _ <-].
Qed.
Lemma cache_find k key : cache_kept (FindIn k key).
Proof. intros rm r rm'. unfold FindIn. st. by intros [= _ <-]. Qed.
Lemma cache_insert k key l : cache_kept (InsertIn k key l).
Proof.
  intros rm r rm'. unfold InsertIn. st. destruct (Insert _ _ _) as [[t v]|]; [|done]. st.
  by intros [= _ <-].
Qed.
Lemma cache_delete k key : cache_kept (DeleteIn k key).
Proof.
  intros rm r rm'. unfold DeleteIn. st. destruct (Avl.Delete _ _) as [[t v]|]; [|done]. st.
  by intros [= _ <-].
Qed.
Lemma cache_iter (fn : string → loc → ST ResourceManager unit) t :
  (∀ k x, cache_kept (fn k x)) → cache_kept (Avl.Each t (λ k x, _ ← fn k x; mret true)).
Proof.
  intros Hfn rm r rm'. rewrite Each_iter. revert rm.
  induction (tree_list t) as [|[k x] es IH]; intros rm; cbn [st_iter].
  - by intros [= _ <-].
  - st. destruct (fn k x rm) as [[[] rm1]|] eqn:Ef; [|done]. intros Hr. st_in Hr.
    rewrite (IH rm1 Hr). by eapply Hfn.
Qed.

Create HintDb cache.
#[local] Hint Resolve cache_ret cache_panic cache_lift cache_on cache_find cache_insert
  cache_delete : cache.
#[local] Hint Extern 1 (cache_kept (_ ≫= _)) => apply cache_bind; [|intros] : cache.
#[local] Hint Extern 1 (cache_kept (match ?x with _ => _ end)) => destruct x : cache.
#[local] Hint Extern 2 (cache_kept (read _ _)) => unfold read : cache.
#[local] Hint Extern 2 (cache_kept (get_item _ _ _)) => unfold get_item : cache.
#[local] Hint Extern 2 (cache_kept (Avl.Each _ _)) => apply cache_iter; intros : cache.
Ltac keep_cache := auto 40 with cache nocore.

Lemma cache_AddNamespace ns : cache_kept (AddNamespace ns).
Proof. unfold AddNamespace. keep_cache. Qed.
Lemma cache_RemoveNamespace ns : cache_kept (RemoveNamespace ns).
Proof. unfold RemoveNamespace. keep_cache. Qed.
Lemma cache_AddService s : cache_kept (AddService s).
Proof. unfold AddService, transformService, getNamespace. keep_cache. Qed.
Lemma cache_RemoveService name ns : cache_kept (RemoveService name ns).
Proof. unfold RemoveService. keep_cache. Qed.
Lemma cache_AddModule m : cache_kept (AddModule m).
Proof. unfold AddModule, transformModule, getNamespace. keep_cache. Qed.
Lemma cache_RemoveModule name ns : cache_kept (RemoveModule name ns).
Proof. unfold RemoveModule. keep_cache. Qed.
Lemma cache_AddCollection c : cache_kept (AddCollection c).
Proof. unfold AddCollection, transformCollection, getNamespace. keep_cache. Qed.
Lemma cache_RemoveCollection name ns : cache_kept (RemoveCollection name ns).
Proof. unfold RemoveCollection. keep_cache. Qed.
Lemma cache_AddSecret s : cache_kept (AddSecret s).
Proof. unfold AddSecret, transformSecret, getNamespace. keep_cache. Qed.
Lemma cache_RemoveSecret name ns : cache_kept (RemoveSecret name ns).
Proof. unfold RemoveSecret. keep_cache. Qed.

Lemma cache_route_modules names ns : cache_kept (route_modules names ns).
Proof. induction names; cbn [route_modules]; unfold getModule; keep_cache. Qed.
Lemma cache_find_modules names ns acc : cache_kept (find_modules names ns acc).
Proof. revert acc. induction names; intros acc; cbn [find_modules]; keep_cache. Qed.
Lemma cache_link_modules lr name es : cache_kept (link_modules lr name es).
Proof. induction es as [|[k x] es IH]; cbn [link_modules]; keep_cache. Qed.
Lemma cache_unlinkRoute lr lns name ns : cache_kept (unlinkRoute lr lns name ns).
Proof.
  unfold unlinkRoute, Each_edge. keep_cache.
Qed.
#[local] Hint Resolve cache_route_modules cache_find_modules cache_link_modules
  cache_unlinkRoute : cache.

Lemma cache_AddRoute r : cache_kept (AddRoute r).
Proof.
  unfold AddRoute, transformRoute, relinkRoute, getNamespace, getService. keep_cache.
Qed.
Lemma cache_RemoveRoute name ns : cache_kept (RemoveRoute name ns).
Proof. unfold RemoveRoute. keep_cache. Qed.

Lemma wp_cache {A} (m : ST ResourceManager A) (Q : A → astate → Prop) a :
  cache_kept m → wp m Q a → wp m (λ r a', Q r a' ∧ cached a' = cached a) a.
Proof.
  intros Hm Hq rm Hrm. destruct (Hq rm Hrm) as (r & rm' & a' & Er & Hrm' & HQ).
  exists r, rm', a'. split; [done|]. split; [done|]. split; [done|].
  destruct Hrm as (_ & _ & _ & _ & ->), Hrm' as (_ & _ & _ & _ & ->). by eapply Hm.
Qed.

(** ** The cache of domains *)

(** [M] holds the records of all domains by path. *)
Definition all_domains a (M : gmap string DGateDomain.t) : Prop :=
  ∀ key, M !! key = content a KDomain key ≫= as_dom.

Definition cache_ok a : Prop := ∀ l, cached a = Some l →
  ∃ M, all_domains a M ∧ l ≡ₚ (map_to_list M).*2 ∧ by_priority l.

Lemma domain_less_weak : weak_order domain_less.
Proof.
  unfold weak_order, domain_less. split; [|split].
  - intros d. rewrite Z.eqb_refl. apply gltb_irrefl.
  - intros d1 d2 d3. destruct (Z.eqb_spec (DGateDomain.Priority d2) (DGateDomain.Priority d1)) as [H1|H1],
      (Z.eqb_spec (DGateDomain.Priority d3) (DGateDomain.Priority d2)) as [H2|H2],
      (Z.eqb_spec (DGateDomain.Priority d3) (DGateDomain.Priority d1)) as [H3|H3];
      rewrite ?Z.ltb_lt; try lia.
    intros ??. by eapply gltb_trans.
  - intros d1 d2 d3. destruct (Z.eqb_spec (DGateDomain.Priority d2) (DGateDomain.Priority d1)) as [H1|H1],
      (Z.eqb_spec (DGateDomain.Priority d3) (DGateDomain.Priority d2)) as [H2|H2],
      (Z.eqb_spec (DGateDomain.Priority d3) (DGateDomain.Priority d1)) as [H3|H3];
      rewrite ?Z.ltb_ge; try lia.
    intros ??. by eapply gltb_neg_trans.
Qed.

Lemma all_domains_keep a a' M : (∀ key, content a' KDomain key = content a KDomain key) →
  all_domains a M → all_domains a' M.
Proof. intros Hc HM key. by rewrite Hc. Qed.

Lemma cache_ok_keep a a' : (∀ key, content a' KDomain key = content a KDomain key) →
  cached a' = cached a → cache_ok a → cache_ok a'.
Proof.
  intros Hc Hcache Hok l Hl. rewrite Hcache in Hl. destruct (Hok l Hl) as (M & HM & Hperm).
  exists M. split; [by eapply all_domains_keep|done].
Qed.

Lemma updates_other a a' k key v : updates a a' k key v → k ≠ KDomain →
  ∀ key', content a' KDomain key' = content a KDomain key'.
Proof. intros Hu Hk key'. rewrite Hu. case_decide; [congruence|done]. Qed.

(** The records that [collect] lists are those of the dictionary. *)
Lemma lists_domains a m vals : indexed (idx a) (items (gr a)) →
  (∀ key, m !! key = idx a !! (KDomain, key)) → lists a m RDomain vals →
  ∃ M, all_domains a M ∧ vals ≡ₚ (map_to_list M).*2.
Proof.
  intros Hix Hm (es & Hes & Ham & Hvals).
  exists (list_to_map (zip es.*1 vals)). split.
  - intros key. unfold content. rewrite <-Hm, <-Ham. clear Hm Ham Hes.
    induction Hvals as [|[k x] v es vals Hv _ IH]; [done|]. cbn [fmap list_fmap zip fst snd list_to_map].
    change (amap ((k, x) :: es)) with (<[k := x]> (amap es)). cbn.
    destruct (decide (k = key)) as [->|Hne].
    + rewrite !lookup_insert_eq. cbn in *. by rewrite Hv.
    + rewrite !lookup_insert_ne by done. exact IH.
  - assert (Hlen : length es = length vals) by by eapply Forall2_length.
    rewrite map_to_list_to_map.
    + by rewrite snd_zip by (rewrite length_fmap; lia).
    + rewrite fst_zip by (rewrite length_fmap; lia). by apply asorted_nodup.
Qed.

(** What a reader of the domains by priority gets. *)
Definition priority_answer a (r : slice DGateDomain.t) : Prop :=
  ∃ M, all_domains a M ∧ elems r ≡ₚ (map_to_list M).*2 ∧ by_priority (elems r).

Lemma GetDomainsByPriority_spec a : inv a → cache_ok a →
  wp GetDomainsByPriority (λ r a', inv a' ∧ cache_ok a' ∧ unchanged a a' ∧ priority_answer a r) a.
Proof.
  intros Ha Hok. unfold GetDomainsByPriority. apply wp_state. intros rm (Ht & _ & Hidx & _ & Hc).
  rewrite <-Hc. destruct (cached a) as [l|] eqn:Hl.
  { apply wp_ret. do 3 (split; [done|]). by apply Hok. }
  unfold domainsByPriority, get_all. apply wp_bind, wp_state. intros rm' (Ht' & _ & Hidx' & _).
  eapply (wp_collect_items a _ None KDomain as_domain RDomain); [apply Ht'| |apply as_domain_kind|].
  { intros key x Hx. rewrite <-Hidx' in Hx. by eapply indexed_is_kind. }
  intros vals Hvals.
  destruct (lists_domains a _ vals (inv_indexed a Ha) (λ key, eq_sym (Hidx' KDomain key)) Hvals)
    as (M & HM & Hperm).
  apply wp_bind, wp_set_cache, wp_ret. split; [by apply inv_cache|].
  assert (Hsort : by_priority (sort_Slice domain_less vals)) by
    apply sort_Slice_sorted, domain_less_weak.
  pose proof (sort_Slice_perm domain_less vals) as Hp. split; [|split; [done|]].
  - intros l' Hl'. cbn in Hl'. destruct vals as [|v vals]; [done|]. cbn in Hl'. injection Hl' as <-.
    exists M. split; [done|]. split; [|done]. by rewrite Hp, Hperm.
  - exists M. split; [done|]. destruct vals as [|v vals].
    + split; [done|constructor].
    + split; [|done]. cbn. by rewrite Hp, Hperm.
Qed.

(** ** Every operation is a step of the specification *)

(** What a step establishes. *)
Definition stepped a (S : dict → answer → dict → Prop) (ans : answer) a' : Prop :=
  inv a' ∧ cache_ok a' ∧ ∀ D D', dict_of a D → dict_of a' D' → S D ans D'.

Lemma wp_answering {A} (f : A → answer) (m : ST ResourceManager A) Q a :
  wp m (λ x a', Q (f x) a') a → wp (answering f m) Q a.
Proof. intros Hm. apply wp_bind. eapply wp_mono; [|exact Hm]. intros x a' HQ. by apply wp_ret. Qed.

(** Operations that leave the cache and the domains alone. *)
Lemma wp_step {A} (f : A → answer) (m : ST ResourceManager A) (P : A → astate → Prop) S a :
  cache_ok a → cache_kept m → wp m P a →
  (∀ x a', P x a' → inv a' ∧ (∀ key, content a' KDomain key = content a KDomain key) ∧
     ∀ D D', dict_of a D → dict_of a' D' → S D (f x) D') →
  wp (answering f m) (stepped a S) a.
Proof.
  intros Hok Hm Hwp HP. apply wp_answering. eapply wp_mono; [|by apply wp_cache].
  intros x a' [Hx Hc]. destruct (HP x a' Hx) as (Hi & Hd & HS). split; [done|].
  split; [by eapply cache_ok_keep|done].
Qed.

Lemma wp_add_step {A} (f : gores A → answer) (m : ST ResourceManager (gores A)) (k : kind)
    (name ns : string) (wrap : A → resource) (build : dict → DGateNamespace.t → gores A) a
    (P : gores A → astate → Prop) :
  cache_ok a → cache_kept m → k ≠ KDomain →
  wp m P a →
  (∀ r a' D, P r a' → dict_of a D → addition k name ns wrap (build D) r a a') →
  wp (answering f m) (stepped a (λ D ans D', ∃ r, ans = f r ∧
    (r, D') = spec_add k name ns wrap (build D) D)) a.
Proof.
  intros Hok Hm Hk Hwp HP. destruct (dict_exists a) as [D0 HD0]. eapply wp_step; [done..|].
  intros r a' Hr. pose proof (HP r a' D0 Hr HD0) as Hadd. split; [apply Hadd|]. split.
  - destruct Hadd as [_ Hadd]. intros key.
    destruct (content a KNamespace ns) as [[n| | | | | |]|]; try apply Hadd.
    destruct Hadd as [_ Hu]. destruct r; [by eapply updates_other|apply Hu].
  - intros D D' HD HD'. exists r. split; [done|]. by eapply addition_add, HP.
Qed.

Lemma removal_domains (k : kind) (name ns : string) ok err a a' : k ≠ KDomain → removal k name ns ok err a a' →
  ∀ key, content a' KDomain key = content a KDomain key.
Proof. intros Hk (_ & Hu & _) key. destruct err; [apply Hu|by eapply updates_other]. Qed.

Lemma wp_remove_step (m : ST ResourceManager (option error)) (k : kind) (name ns : string) (ok : Prop) a
    (may : dict → Prop) :
  cache_ok a → cache_kept m → k ≠ KDomain →
  wp m (λ err a', removal k name ns ok err a a') a →
  (∀ D, may D ↔ has_ns D ns ∧ ok) →
  wp (answering AError m) (stepped a (λ D ans D', spec_remove k (path name ns) (may D) D ans D')) a.
Proof.
  intros Hok Hm Hk Hwp Hmay. eapply wp_step; [done..|].
  intros err a' Hr. split; [apply Hr|]. split; [exact (removal_domains _ _ _ _ _ _ _ Hk Hr)|].
  intros D D' HD HD'. destruct (removal_remove _ _ _ _ HD HD' _ _ _ _ _ Hr) as (err' & H1 & H2 & H3).
  exists err'. by rewrite Hmay.
Qed.

Lemma wp_get_step {A} (m : ST ResourceManager (option A)) (conv : resource → outcome A)
    (wrap : A → resource) (k : kind) (key : string) a :
  inv a → cache_ok a → m = get_item k conv key →
  (∀ r, kindof r = k → ∃ v, r = wrap v ∧ conv r = Returns v) →
  wp (answering (found wrap) m) (stepped a (λ D ans D', ans = AFound (D !! (k, key)) ∧ D' = D)) a.
Proof.
  intros Ha Hok -> Hconv. apply wp_answering. unfold get_item. apply wp_bind, wp_FindIn.
  assert (Hdone : ∀ x, wrap <$> x = content a k key →
    stepped a (λ D ans D', ans = AFound (D !! (k, key)) ∧ D' = D) (found wrap x) a).
  { intros x Hx. split; [done|]. split; [done|]. intros D D' HD HD'. unfold found.
    rewrite Hx, <-HD. split; [done|]. by eapply unchanged_dict. }
  destruct (idx a !! (k, key)) as [l|] eqn:Hl.
  - rewrite bool_decide_true by by eexists. cbn [default id].
    destruct (content_inv a _ _ l Ha Hl) as (av & Hav & Hc & Hk & _).
    destruct (Hconv _ Hk) as (v & Hv & Hcv). apply wp_bind. eapply wp_read; [done..|].
    apply wp_ret, Hdone. by rewrite Hc, Hv.
  - rewrite bool_decide_false by by intros []. apply wp_ret, Hdone. by rewrite content_None.
Qed.

(** *** The steps *)

Lemma step_AddNamespace a ns : inv a → cache_ok a → no_slash (Namespace.Name ns) →
  wp (exec (OpAddNamespace ns)) (stepped a (spec_step (route_links a) (OpAddNamespace ns))) a.
Proof.
  intros Ha Hok Hs. eapply wp_step; [done|apply cache_AddNamespace|by apply AddNamespace_spec|].
  intros n a' (Hi & -> & Hu). split; [done|]. split; [by eapply updates_other|].
  intros D D' HD HD'. split; [done|]. by eapply updates_insert.
Qed.

Lemma step_RemoveNamespace a ns : inv a → cache_ok a →
  wp (exec (OpRemoveNamespace ns)) (stepped a (spec_step (route_links a) (OpRemoveNamespace ns))) a.
Proof.
  intros Ha Hok. eapply wp_step; [done|apply cache_RemoveNamespace|by apply RemoveNamespace_spec|].
  intros err a' (Hi & Hr & Herr). split; [done|]. split.
  - intros key. destruct err; [by rewrite Hr|]. destruct Hr as [_ Hu]. by eapply updates_other.
  - intros D D' HD HD'. exists err. split; [done|]. split.
    + rewrite HD. setoid_rewrite HD. done.
    + destruct err; [cbn in Hr; subst a'; by eapply unchanged_dict|]. destruct Hr as [_ Hu].
      by eapply updates_delete.
Qed.

Lemma cache_ok_none a : cached a = None → cache_ok a.
Proof. intros Hc l. by rewrite Hc. Qed.

Lemma step_AddDomain a d : inv a → cache_ok a →
  wp (exec (OpAddDomain d)) (stepped a (spec_step (route_links a) (OpAddDomain d))) a.
Proof.
  intros Ha Hok. apply wp_answering. eapply wp_mono; [|by apply AddDomain_spec].
  intros r a' [Hadd Hc]. split; [apply Hadd|]. split.
  - destruct r as [x|e]; [by apply cache_ok_none|]. eapply cache_ok_keep; [|done..].
    destruct Hadd as [_ Hadd]. intros key.
    destruct (content a KNamespace _) as [[n| | | | | |]|]; apply Hadd.
  - intros D D' HD HD'. exists r. split; [done|]. by eapply addition_add.
Qed.

Lemma step_RemoveDomain a name ns : inv a → cache_ok a →
  wp (exec (OpRemoveDomain name ns)) (stepped a (spec_step (route_links a) (OpRemoveDomain name ns))) a.
Proof.
  intros Ha Hok. apply wp_answering. eapply wp_mono; [|by apply RemoveDomain_spec].
  intros err a' [Hr Hc]. split; [apply Hr|]. split; [by apply cache_ok_none|].
  intros D D' HD HD'. destruct (removal_remove _ _ _ _ HD HD' _ _ _ _ _ Hr) as (err' & H1 & H2 & H3).
  exists err'. split; [done|]. split; [|done]. rewrite H2. tauto.
Qed.

Lemma build_route_ext (D1 D2 : kind → string → option resource) route n : (∀ k key, D1 k key = D2 k key) →
  build_route D1 route n = build_route D2 route n.
Proof.
  intros Hext. unfold build_route.
  assert (Hsvc : find_svc D1 route = find_svc D2 route) by (unfold find_svc; by rewrite Hext).
  assert (Hmods : ∀ names ns, find_mods D1 names ns = find_mods D2 names ns).
  { intros names ns. induction names as [|m names IH]; [done|]. cbn [find_mods].
    by rewrite Hext, IH. }
  by rewrite Hsvc, Hmods.
Qed.

Lemma addition_build {A} k name ns (wrap : A → resource) b1 b2 r a a' :
  (∀ n, b1 n = b2 n) → addition k name ns wrap b1 r a a' → addition k name ns wrap b2 r a a'.
Proof.
  intros Hb [Hi Hadd]. split; [done|].
  destruct (content a KNamespace ns) as [[n| | | | | |]|]; try done. by rewrite <-Hb.
Qed.

Lemma step_AddRoute a route : inv a → cache_ok a →
  wp (exec (OpAddRoute route)) (stepped a (spec_step (route_links a) (OpAddRoute route))) a.
Proof.
  intros Ha Hok.
  eapply (wp_add_step ARoute _ KRoute _ _ RRoute (λ D, build_route (at_key D) route));
    [done|apply cache_AddRoute|done|by apply AddRoute_spec|].
  intros r a' D [Hadd _] HD. eapply addition_build; [|exact Hadd]. intros n.
  apply build_route_ext. intros k key. by rewrite <-HD.
Qed.

Lemma served_ext (D1 D2 : kind → string → option resource) rt ns mods : (∀ k key, D1 k key = D2 k key) →
  served D1 rt ns mods = served D2 rt ns mods.
Proof.
  intros Hext. unfold served, current_service. destruct (DGateRoute.Service rt); [|done].
  by rewrite Hext.
Qed.

Lemma step_GetRoute a name ns : inv a → cache_ok a →
  wp (exec (OpGetRoute name ns)) (stepped a (spec_step (route_links a) (OpGetRoute name ns))) a.
Proof.
  intros Ha Hok. apply wp_answering. eapply wp_mono; [|by apply getRoute_spec].
  intros r a' [-> Hr]. split; [done|]. split; [done|]. intros D D' HD HD'.
  split; [by eapply unchanged_dict|]. rewrite HD.
  destruct (content a KRoute (path name ns)) as [[| | | |rt| |]|]; try by rewrite Hr.
  destruct Hr as (mods & _ & ->). exists mods. unfold found. cbn. do 3 f_equal.
  apply served_ext. intros k key. by rewrite <-HD.
Qed.

Lemma step_GetDomainsByPriority a : inv a → cache_ok a →
  wp (exec OpGetDomainsByPriority) (stepped a (spec_step (route_links a) OpGetDomainsByPriority)) a.
Proof.
  intros Ha Hok. apply wp_answering. eapply wp_mono; [|by apply GetDomainsByPriority_spec].
  intros r a' (Hi & Hc & Hu & M & HM & Hp & Hs). split; [done|]. split; [done|].
  intros D D' HD HD'. split; [by eapply unchanged_dict|]. exists r. split; [done|].
  exists M. split; [|done]. intros key. by rewrite HD.
Qed.

(** Removing a service answers as long as at most one route uses it. *)
Definition answers_in a (o : op) : Prop :=
  match o with
  | OpRemoveService name ns =>
      is_Some (content a KNamespace ns) → (route_links a KService (path name ns) ≤ 1)%nat
  | _ => True
  end.

Lemma exec_spec a o : inv a → cache_ok a → allowed o → answers_in a o →
  wp (exec o) (stepped a (spec_step (route_links a) o)) a.
Proof.
  intros Ha Hok Hallow Hans. destruct o.
  - by apply step_AddNamespace.
  - by apply step_RemoveNamespace.
  - eapply (wp_add_step AService _ KService _ _ RService (λ _, build_service s));
      [done|apply cache_AddService|done|by apply AddService_spec|done].
  - eapply wp_remove_step; [done|apply cache_RemoveService|done|by apply RemoveService_spec|done].
  - by apply step_AddDomain.
  - by apply step_RemoveDomain.
  - eapply (wp_add_step AModule _ KModule _ _ RModule (λ _, build_module m));
      [done|apply cache_AddModule|done|by apply AddModule_spec|done].
  - eapply wp_remove_step; [done|apply cache_RemoveModule|done|by apply RemoveModule_spec|done].
  - eapply (wp_add_step ACollection _ KCollection _ _ RCollection (λ _, build_collection c));
      [done|apply cache_AddCollection|done|by apply AddCollection_spec|done].
  - eapply wp_remove_step; [done|apply cache_RemoveCollection|done|by apply RemoveCollection_spec|tauto].
  - eapply (wp_add_step ASecret _ KSecret _ _ RSecret (λ _, build_secret s));
      [done|apply cache_AddSecret|done|by apply AddSecret_spec|done].
  - eapply wp_remove_step; [done|apply cache_RemoveSecret|done|by apply RemoveSecret_spec|tauto].
  - by apply step_AddRoute.
  - eapply wp_remove_step; [done|apply cache_RemoveRoute|done|by apply RemoveRoute_spec|tauto].
  - eapply wp_get_step; [done..|]. intros []; try done. by eexists.
  - eapply wp_get_step; [done..|]. intros []; try done. by eexists.
  - eapply wp_get_step; [done..|]. intros []; try done. by eexists.
  - eapply wp_get_step; [done..|]. intros []; try done. by eexists.
  - eapply wp_get_step; [done..|]. intros []; try done. by eexists.
  - eapply wp_get_step; [done..|]. intros []; try done. by eexists.
  - by apply step_GetRoute.
  - by apply step_GetDomainsByPriority.
Qed.

(** A reachable manager refines an abstract state with the invariant. *)
Definition sound rm : Prop := ∃ a, rel rm a ∧ inv a ∧ cache_ok a.

Lemma sound_step rm o : sound rm → allowed o → answers rm o →
  ∃ ans rm', exec o rm = Returns (ans, rm') ∧ sound rm' ∧
    spec_step (rm_links rm) o (rm_dict rm) ans (rm_dict rm').
Proof.
  intros (a & Hrm & Ha & Hok) Hallow Hans.
  assert (Hans' : answers_in a o).
  { destruct o; try done. cbn in *. rewrite <-(rel_links rm) by done.
    by rewrite <-(rel_dict rm a Hrm). }
  destruct (exec_spec a o Ha Hok Hallow Hans' rm Hrm)
    as (ans & rm' & a' & Eo & Hrm' & Hi & Hc & HS).
  exists ans, rm'. split; [done|]. split; [by exists a'|].
  pose proof (HS _ _ (rel_dict rm a Hrm) (rel_dict rm' a' Hrm')) as Hstep.
  destruct o; try exact Hstep; cbn in *; by rewrite (rel_links rm a).
Qed.

(** With two routes or more, removing a service panics. *)
Lemma RemoveService_stuck rm name ns : sound rm →
  (2 ≤ rm_links rm KService (path name ns))%nat → has_ns (rm_dict rm) ns →
  RemoveService name ns rm = Panics one_edge.
Proof.
  intros (a & Hrm & Ha & _) Hlinks Hns. rewrite (rel_links rm a) in Hlinks by done.
  unfold has_ns in Hns. rewrite (rel_dict rm a Hrm) in Hns.
  eapply RemoveService_two; try done. apply inv_idx_content; [done|].
  unfold route_links in Hlinks. destruct (idx a !! (KService, path name ns)); [by eexists|].
  cbn in Hlinks. lia.
Qed.

Lemma reachable_sound rm : reachable rm → sound rm.
Proof.
  induction 1 as [|rm o ans rm' _ IH Hallow Ho].
  { exists a_empty. split; [apply rel_new|]. split; [apply inv_empty|]. by apply cache_ok_none. }
  assert (Hans : answers rm o).
  { destruct o; try done. intros Hns. destruct (decide (rm_links rm KService (path name ns) ≤ 1)%nat)
      as [|Hgt]; [done|].
    cbn in Ho. unfold answering in Ho. st_in Ho.
    rewrite RemoveService_stuck in Ho; [done|done|lia|done]. }
  destruct (sound_step rm o IH Hallow Hans) as (ans' & rm1 & Ho' & Hsound & _).
  rewrite Ho in Ho'. by injection Ho' as <- <-.
Qed.

(** The route's module edges, by name. *)
Lemma module_links_lookup ix ns names acc n :
  (∀ n', n' ∈ names → is_Some (ix !! (KModule, path n' ns))) →
  module_links ns ix names acc !! n =
    if decide (n ∈ names) then ix !! (KModule, path n ns) else acc !! n.
Proof.
  revert acc. induction names as [|n1 names IH]; intros acc Hall.
  { by rewrite decide_False by apply not_elem_of_nil. }
  destruct (Hall n1 ltac:(by apply elem_of_cons; left)) as [l Hl].
  unfold module_links in *. cbn [foldl]. rewrite Hl, IH.
  2:{ intros n' Hn'. apply Hall. by apply elem_of_cons; right. }
  destruct (decide (n = n1)) as [->|Hne].
  - rewrite (decide_True _ _ (P := n1 ∈ n1 :: names)) by by apply elem_of_cons; left.
    case_decide; [done|]. by rewrite lookup_insert_eq.
  - rewrite lookup_insert_ne by done. apply decide_ext. rewrite elem_of_cons. naive_solver.
Qed.

(** ** The properties *)

(** C11: Every reachable manager is consistent: its trees are balanced search
    trees, each record is stored under the path of its own name and
    namespace, in the index of its kind, and, secrets apart, the namespace it
    belongs to is stored. *)
Theorem reachable_consistent rm : reachable rm →
  (∀ k, tree_wf (index k rm)) ∧
  ∀ k key r, rm_dict rm !! (k, key) = Some r →
    kindof r = k ∧ key_of r = key ∧ no_slash (ns_of r) ∧
    (k ≠ KSecret → has_ns (rm_dict rm) (ns_of r)).
Proof.
  intros Hrm. destruct (reachable_sound rm Hrm) as (a & Hrel & Ha & _). split; [apply Hrel|].
  intros k key r. unfold has_ns. rewrite !(rel_dict rm a Hrel). intros Hc.
  destruct (content_Some_idx a k key r Hc) as [l Hl].
  destruct (inv_indexed a Ha k key l Hl) as (r' & Hr' & Hk & Hkey & Hs & _ & Hns).
  unfold content in Hc. rewrite Hl in Hc. cbn in Hc. rewrite Hr' in Hc. injection Hc as <-.
  do 3 (split; [done|]). intros Hsec. by apply inv_idx_content, Hns.
Qed.

(** C4: The manager implements the dictionary specification: on a reachable
    manager an operation returns, without a panic, with the answer and the new
    dictionary that the specification demands; only the removal of a service
    that two routes use panics instead.  The operations exclude two additions
    that the manager does not refuse: a namespace with a slash in its name,
    whose keys are not its own, and a collection whose schema does not
    compile, which panics. *)
Theorem exec_refines rm o : reachable rm → allowed o →
  (answers rm o → ∃ ans rm', exec o rm = Returns (ans, rm') ∧ reachable rm' ∧
     spec_step (rm_links rm) o (rm_dict rm) ans (rm_dict rm')) ∧
  (¬ answers rm o → exec o rm = Panics one_edge).
Proof.
  intros Hrm Hallow. split.
  - intros Hans.
    destruct (sound_step rm o (reachable_sound rm Hrm) Hallow Hans) as (ans & rm' & Ho & _ & HS).
    exists ans, rm'. split; [done|]. split; [by eapply reach_step|done].
  - intros Hno. destruct o; try (by destruct Hno). cbn in Hno.
    match goal with |- exec (OpRemoveService ?n ?s) _ = _ => rename n into name; rename s into ns end.
    destruct (decide (has_ns (rm_dict rm) ns)) as [Hns|Hns]; [|by destruct Hno].
    destruct (decide (rm_links rm KService (path name ns) ≤ 1)%nat) as [Hl|Hl]; [by destruct Hno|].
    cbn [exec]. unfold answering. st. rewrite RemoveService_stuck; [done|by apply reachable_sound|lia|done].
Qed.

(** Removing a service that two or more routes use panics in the linker
    instead of answering "routes still linked". *)
Theorem RemoveService_panics rm name ns : reachable rm → has_ns (rm_dict rm) ns →
  (2 ≤ rm_links rm KService (path name ns))%nat →
  RemoveService name ns rm = Panics one_edge.
Proof. intros Hrm Hns Hlinks. apply RemoveService_stuck; [by apply reachable_sound|done..]. Qed.

(** [GetRoute] answers the stored record with the service of its name as
    it is stored now, and as modules the records of the vertices behind the
    route's module edges, in the order of the names. *)
Theorem GetRoute_served rm name ns rt : reachable rm →
  rm_dict rm !! (KRoute, path name ns) = Some (RRoute rt) →
  ∃ es mods rm', asorted es ∧ amap es = rm_edge rm KRoute (path name ns) "modules" ∧
    Forall2 (λ (e : string * loc) m, item <$> vertices rm !! e.2 = Some (RModule m)) es mods ∧
    GetRoute name ns rm =
      Returns (Some (served (at_key (rm_dict rm)) rt (ns_of (RRoute rt)) mods), rm') ∧
    rm_dict rm' = rm_dict rm.
Proof.
  intros Hrm Hc. destruct (reachable_sound rm Hrm) as (a & Hrel & Ha & _).
  pose proof (rel_dict rm a Hrel) as HD. rewrite HD in Hc.
  destruct (getRoute_spec a name ns Ha rm Hrel) as (r & rm' & a' & Er & Hrel' & -> & Hr).
  rewrite Hc in Hr. destruct Hr as (mods & (es & Hs & Hm & Hall) & ->).
  exists es, mods, rm'. split; [done|]. split; [by rewrite (rel_edge rm a)|]. split.
  - eapply Forall2_impl; [exact Hall|]. intros [k x] m. rewrite items_lookup.
    destruct Hrel as (_ & _ & _ & -> & _). unfold abs. rewrite lookup_fmap.
    cbn. by destruct (vertices rm !! x).
  - split; [|by eapply unchanged_dict; [exact HD|by apply rel_dict|]]. unfold GetRoute.
    rewrite Er. do 3 f_equal. apply served_ext. intros k key. by rewrite <-HD.
Qed.

(** Adding a route leaves its module edges at the named modules' vertices
    and, where the route was stored before, keeps every old edge: modules
    dropped by an update stay linked. *)
Theorem AddRoute_keeps_modules rm rm' route rt : reachable rm →
  AddRoute route rm = Returns (Ok rt, rm') →
  let key := path (Route.Name route) (Route.NamespaceName route) in
  ∀ n, rm_edge rm' KRoute key "modules" !! n =
    if decide (n ∈ elems (Route.Modules route))
    then tree_map (modules rm) !! path n (Route.NamespaceName route)
    else rm_edge rm KRoute key "modules" !! n.
Proof.
  intros Hrm Eadd key n. destruct (reachable_sound rm Hrm) as (a & Hrel & Ha & _).
  destruct (AddRoute_spec a route Ha rm Hrel) as (r & rm1 & a' & Er & Hrel' & Hadd & Hlinks).
  rewrite Er in Eadd. injection Eadd as -> <-.
  destruct (Hlinks rt eq_refl) as [Hl _]. rewrite (rel_edge rm1 a'), (rel_edge rm a) by done.
  fold (linked_modules a' key). fold (linked_modules a key). fold key in Hl. rewrite Hl.
  destruct Hadd as [_ Hadd].
  destruct (content a KNamespace (Route.NamespaceName route)) as [[n0| | | | | |]|]; try by destruct Hadd.
  destruct Hadd as [Hb _]. destruct (build_route_there _ _ _ _ (eq_sym Hb)) as (Hmods & _).
  rewrite list.Forall_forall in Hmods. destruct Hrel as (_ & _ & Hidx & _).
  change (modules rm) with (index KModule rm). rewrite <-Hidx.
  case_decide as Hin.
  - destruct (Hmods n Hin) as [l Hl']. erewrite lookup_union_Some_l; [done|].
    rewrite module_links_lookup by done. by rewrite decide_True.
  - rewrite lookup_union_r; [done|]. rewrite module_links_lookup by done. by rewrite decide_False.
Qed.

End theorems.

(** ** Witnesses

    On the sample manager of ResourceSpec.v. *)

#[local] Existing Instances text_externals sample_runtime sample_runtime_laws.

Lemma reachable_consistent_witness :
  is_Some (rm_dict sample_manager !! (KRoute, path "r1" "default")) ∧
  has_ns (rm_dict sample_manager) "default".
Proof.
  assert (Hr : is_Some (rm_dict sample_manager !! (KRoute, path "r1" "default"))).
  { vm_compute. by eexists. }
  split; [done|]. destruct Hr as [r Hr].
  destruct (reachable_consistent sample_manager sample_reachable) as [_ Hc].
  destruct (Hc _ _ _ Hr) as (_ & Hkey & _ & Hns). revert Hr Hns. vm_compute. intros [= <-] Hns.
  by apply Hns.
Defined.

Lemma exec_refines_witness : ∃ ans rm',
  exec (OpRemoveRoute "r2" "default") sample_manager = Returns (ans, rm') ∧ reachable rm' ∧
  rm_dict rm' = delete (KRoute, path "r2" "default") (rm_dict sample_manager).
Proof.
  destruct (proj1 (exec_refines sample_manager (OpRemoveRoute "r2" "default") sample_reachable I) I)
    as (ans & rm' & Eo & Hrm & err & -> & Herr & HD).
  exists (AError err), rm'. split; [done|]. split; [done|].
  destruct err as [e|]; [|exact HD]. exfalso. assert (Some e = None) as [=]. apply Herr.
  split; vm_compute; by eexists.
Defined.

Lemma RemoveService_panics_witness :
  rm_links sample_manager KService (path "svc" "default") = 2%nat ∧
  RemoveService "svc" "default" sample_manager = Panics one_edge.
Proof.
  split; [vm_compute; reflexivity|]. apply RemoveService_panics.
  - apply sample_reachable.
  - vm_compute. by eexists.
  - apply Nat.leb_le. vm_compute. reflexivity.
Defined.

(** The names of the modules of a route that is answered. *)
Definition served_names (r : outcome (option DGateRoute.t * ResourceManager))
    : list (option string) :=
  match r with
  | Returns (Some rt, _) => map (option_map DGateModule.Name) (elems (DGateRoute.Modules rt))
  | _ => []
  end.

(** The route r1 was updated from the module m1 to m2; a reader of it is
    served both. *)
Lemma GetRoute_served_witness : ∃ rt rm',
  GetRoute "r1" "default" sample_manager = Returns (Some rt, rm') ∧
  map (option_map DGateModule.Name) (elems (DGateRoute.Modules rt)) = [Some "m1"; Some "m2"].
Proof.
  destruct (rm_dict sample_manager !! (KRoute, path "r1" "default")) as [r|] eqn:Hr;
    [|by vm_compute in Hr].
  destruct r as [| | | |rt| |]; try by vm_compute in Hr.
  destruct (GetRoute_served sample_manager "r1" "default" rt sample_reachable Hr)
    as (es & mods & rm' & _ & _ & _ & Eg & _).
  assert (Hnames : served_names (GetRoute "r1" "default" sample_manager) = [Some "m1"; Some "m2"]) by
    (vm_compute; reflexivity).
  rewrite Eg in *. do 2 eexists. split; [done|exact Hnames].
Defined.

Lemma AddRoute_keeps_modules_witness : ∃ rt rm',
  AddRoute (sample_route "r2" "m1") sample_manager = Returns (Ok rt, rm') ∧
  is_Some (rm_edge rm' KRoute (path "r2" "default") "modules" !! "m2").
Proof.
  destruct (AddRoute (sample_route "r2" "m1") sample_manager) as [[[rt|e] rm']|] eqn:Ea;
    [|by vm_compute in Ea..].
  exists rt, rm'. split; [done|].
  pose proof (AddRoute_keeps_modules sample_manager rm' (sample_route "r2" "m1") rt
    sample_reachable Ea "m2") as Hedge. cbn [Route.Name Route.NamespaceName sample_route] in Hedge.
  rewrite Hedge.
  vm_compute. by eexists.
Defined.

Definition is_error {A} (r : outcome (option error * A)) : bool :=
  match r with Returns (Some _, _) => true | _ => false end.
Definition is_missing {A B} (r : outcome (option A * B)) : bool :=
  match r with Returns (None, _) => true | _ => false end.

(** The module m1, which r1 no longer names, can be removed; r1 still serves
    it. *)
Lemma removed_module_served :
  match exec_all [OpRemoveModule "m1" "default"] sample_manager with
  | Returns rm => (is_missing (GetModule "m1" "default" rm), served_names (GetRoute "r1" "default" rm))
  | Panics _ => (false, [])
  end = (true, [Some "m1"; Some "m2"]).
Proof. vm_compute. reflexivity. Qed.

(** A namespace with a secret can be removed; the secret stays and cannot be
    removed any more. *)
Lemma orphaned_secret :
  match exec_all [OpAddNamespace DefaultNamespace;
                  OpAddSecret (Secret.mk "s" "default" "c2VjcmV0" None);
                  OpRemoveNamespace "default"] NewManager with
  | Returns rm => (is_missing (GetSecret "s" "default" rm), is_error (RemoveSecret "s" "default" rm))
  | Panics _ => (true, false)
  end = (false, true).
Proof. vm_compute. reflexivity. Qed.

(** The counts compare as equal as soon as they are no less. *)
Lemma NamespaceCountEquals_below :
  match exec_all [OpAddNamespace DefaultNamespace; OpAddNamespace (Namespace.mk "other" None)]
          NewManager with
  | Returns rm => match NamespaceCountEquals 1 rm with Returns (b, _) => b | Panics _ => false end
  | Panics _ => false
  end = true.
Proof. vm_compute. reflexivity. Qed.
