(* ===== verification/Storage.v ===== *)
(** * pkg/storage: the key-value stores

    The interface, the memory store over the AVL tree and the file store over
    bbolt's buckets, which are a parameter.  Both are proved to implement
    [StorageLaws], what the proxy store relies on; the theorems at the end
    say where the two differ.

    A stored value is a string of bytes, a read one a [[]byte] that may be
    nil ([None]).  A callback runs on captured variables, the state [T].
    [IterateTxnPrefix], which nothing calls, is left out, as are opening and
    closing the file. *)
From Stdlib Require Import ZArith Lia.
From stdpp Require Import base gmap strings list fin_maps.
From S2P Require Import Prelude Avl Pattern.
Import Pattern.Strings.

#[local] Arguments String.append : simpl nomatch.

(** ** The interface *)

Record KeyValue : Type := MkKeyValue { Key : string; Value : string }.

Class StorageTxn (S : Type) := {
  txn_Get : string → ST S (gores (option string));
  txn_Set : string → string → ST S (option error);
  txn_IterateValuesPrefix : ∀ {T}, string → (string → string → ST T (option error)) →
    S → ST T (option error);
  txn_GetPrefix : string → Z → Z → ST S (gores (list KeyValue));
  txn_Delete : string → ST S (option error) }.

Class Storage (S : Type) := {
  storage_txn :: StorageTxn S;
  storage_Get : string → ST S (gores (option string));
  storage_Set : string → string → ST S (option error);
  storage_IterateValuesPrefix : ∀ {T}, string → (string → string → ST T (option error)) →
    S → ST T (option error);
  storage_GetPrefix : string → Z → Z → ST S (gores (list KeyValue));
  storage_Delete : string → ST S (option error);
  storage_Txn : bool → ST S (option error) → ST S (option error) }.

(** Run [fn] on the pairs until it answers an error. *)
Fixpoint iterate {T} (fn : string → string → ST T (option error)) (es : list (string * string))
    : ST T (option error) :=
  match es with
  | [] => mret None
  | (k, v) :: es => err ← fn k v;
                    match err with Some e => mret (Some e) | None => iterate fn es end
  end.

(** ** mem_storage.go *)

Module Mem.

Definition MemStore : Type := tree string string.
Definition NewMemStore : MemStore := NewTree.

Definition not_found : error := "key not found".

Definition Get (key : string) : ST MemStore (gores (option string)) :=
  m ← st_get;
  let '(b, ok) := Avl.Find m key in
  if (ok : bool) then mret (Ok (Some b)) else mret (Err not_found).

Definition Set_ (key value : string) : ST MemStore (option error) :=
  m ← st_get; '(m, _) ← st_lift (Insert m key value); _ ← st_put m; mret None.

(** The transaction is the store itself. *)
Definition Txn (write : bool) (fn : ST MemStore (option error)) : ST MemStore (option error) :=
  err ← fn; match err with Some err => mret (Some err) | None => mret None end.

(** The variable [check] is part of the captured state. *)
Definition IterateValuesPrefix {T} (prefix : string) (fn : string → string → ST T (option error))
    (m : MemStore) : ST T (option error) := λ t,
  match Avl.Each m (λ k v, λ '(t, check),
      if HasPrefix k prefix then
        match fn k v t with
        | Returns (Some _, t) => Returns (false, (t, true))
        | Returns (None, t) => Returns (true, (t, true))
        | Panics e => Panics e
        end
      else Returns (check, (t, check))) (t, true) with
  | Returns (_, (t, _)) => Returns (None, t)
  | Panics e => Panics e
  end.

(** The captured variables are [kvs] and [offset]. *)
Definition prefix_step (limit : Z) (key value : string)
    : ST (list KeyValue * Z) (option error) := λ '(kvs, offset),
  if offset <=? 0 then
    if limit <=? Z.of_nat (length kvs) then Returns (Some "limit reached", (kvs, offset))
    else Returns (None, (kvs ++ [MkKeyValue key value], offset))
  else Returns (None, (kvs, offset - 1)).
Definition GetPrefix (prefix : string) (offset limit : Z) : ST MemStore (gores (list KeyValue)) :=
  let limit := if limit <=? 0 then 0 else limit in
  m ← st_get;
  '(_, (kvs, _)) ← st_lift (IterateValuesPrefix prefix (prefix_step limit) m ([], offset));
  mret (Ok kvs).

Definition Delete (key : string) : ST MemStore (option error) :=
  m ← st_get; '(m, ok) ← st_lift (Avl.Delete m key); _ ← st_put m;
  if negb ok then mret (Some not_found) else mret None.

End Mem.

#[export] Instance Mem_txn : StorageTxn Mem.MemStore := {|
  txn_Get := Mem.Get; txn_Set := Mem.Set_; txn_IterateValuesPrefix := @Mem.IterateValuesPrefix;
  txn_GetPrefix := Mem.GetPrefix; txn_Delete := Mem.Delete |}.
#[export] Instance Mem_storage : Storage Mem.MemStore := {|
  storage_Get := Mem.Get; storage_Set := Mem.Set_;
  storage_IterateValuesPrefix := @Mem.IterateValuesPrefix;
  storage_GetPrefix := Mem.GetPrefix; storage_Delete := Mem.Delete; storage_Txn := Mem.Txn |}.

(** ** file_storage.go *)

(** What the file store uses of bbolt: reading and writing a bucket, the pairs
    a cursor yields from [Seek] on, and the end of a read-write transaction,
    which may fail.  [Put] and [Delete] fail in a read-only one. *)
Class Bolt := {
  Bucket : Type;
  bucket_Get : Bucket → string → option string;
  bucket_Put : Bucket → string → string → gores Bucket;
  bucket_Delete : Bucket → string → gores Bucket;
  cursor_Seek : Bucket → string → list (string * string);
  ErrTxNotWritable : error;
  tx_Commit : Bucket → option error }.

Module File.
Section file.
Context {B : Bolt}.

(** The bucket of the file, and the transaction it is seen through; [ro] is a
    field that nothing sets. *)
Record FileStore : Type := MkFile { bucket : Bucket; writable : bool; ro : bool }.

Definition ErrTxnReadOnly : error := "transaction is read only".

Definition newTxn (write : bool) (s : FileStore) : FileStore := MkFile (bucket s) write false.

Definition txn_get (key : string) : ST FileStore (gores (option string)) :=
  tx ← st_get; mret (Ok (bucket_Get (bucket tx) key)).

(** The result of a write to the bucket. *)
Definition written (r : gores Bucket) : ST FileStore (option error) :=
  tx ← st_get;
  if negb (writable tx) then mret (Some ErrTxNotWritable) else
  match r with
  | Ok b => _ ← st_put (MkFile b (writable tx) (ro tx)); mret None
  | Err e => mret (Some e)
  end.
Definition txn_set (key value : string) : ST FileStore (option error) :=
  tx ← st_get;
  if ro tx then mret (Some ErrTxnReadOnly) else written (bucket_Put (bucket tx) key value).
Definition txn_delete (key : string) : ST FileStore (option error) :=
  tx ← st_get;
  if ro tx then mret (Some ErrTxnReadOnly) else written (bucket_Delete (bucket tx) key).

(** [for k, v := c.Seek(pre); bytes.HasPrefix(k, pre); k, v = c.Next()] *)
Fixpoint while_prefix (prefix : string) (es : list (string * string)) : list (string * string) :=
  match es with
  | [] => []
  | (k, v) :: es => if HasPrefix k prefix then (k, v) :: while_prefix prefix es else []
  end.

Definition txn_iterate {T} (prefix : string) (fn : string → string → ST T (option error))
    (tx : FileStore) : ST T (option error) :=
  iterate fn (while_prefix prefix (cursor_Seek (bucket tx) prefix)).

Fixpoint prefix_loop (es : list (string * string)) (offset limit : Z) : list KeyValue :=
  match es with
  | [] => []
  | (k, v) :: es =>
    if 0 <? offset then prefix_loop es (offset - 1) limit
    else if limit =? 0 then []
    else MkKeyValue k v :: prefix_loop es offset (limit - 1)
  end.
Definition txn_getPrefix (prefix : string) (offset limit : Z)
    : ST FileStore (gores (list KeyValue)) :=
  tx ← st_get;
  mret (Ok (prefix_loop (while_prefix prefix (cursor_Seek (bucket tx) prefix)) offset limit)).

(** [db.View] runs on a snapshot, [db.Update] commits unless [fn] fails. *)
Definition View {A} (fn : ST FileStore A) : ST FileStore A := λ s,
  match fn (newTxn false s) with
  | Returns (a, _) => Returns (a, s)
  | Panics e => Panics e
  end.
Definition Update (fn : ST FileStore (option error)) : ST FileStore (option error) := λ s,
  match fn (newTxn true s) with
  | Returns (Some err, _) => Returns (Some err, s)
  | Returns (None, tx) =>
    match tx_Commit (bucket tx) with
    | Some err => Returns (Some err, s)
    | None => Returns (None, MkFile (bucket tx) (writable s) (ro s))
    end
  | Panics e => Panics e
  end.

Definition Txn (write : bool) (fn : ST FileStore (option error)) : ST FileStore (option error) :=
  if write then Update fn else View fn.
Definition Get (key : string) : ST FileStore (gores (option string)) := View (txn_get key).
Definition Set_ (key value : string) : ST FileStore (option error) := Update (txn_set key value).
Definition Delete (key : string) : ST FileStore (option error) := Update (txn_delete key).
Definition IterateValuesPrefix {T} (prefix : string) (fn : string → string → ST T (option error))
    (s : FileStore) : ST T (option error) := txn_iterate prefix fn (newTxn false s).
Definition GetPrefix (prefix : string) (offset limit : Z) : ST FileStore (gores (list KeyValue)) :=
  View (r ← txn_getPrefix prefix offset limit;
        match r with
        | Err err => mret (Err ("failed to get prefix: " +:+ err))
        | Ok val => mret (Ok val)
        end).

End file.
End File.

#[export] Instance File_txn {B : Bolt} : StorageTxn File.FileStore := {|
  txn_Get := File.txn_get; txn_Set := File.txn_set;
  txn_IterateValuesPrefix := @File.txn_iterate B;
  txn_GetPrefix := File.txn_getPrefix; txn_Delete := File.txn_delete |}.
#[export] Instance File_storage {B : Bolt} : Storage File.FileStore := {|
  storage_Get := File.Get; storage_Set := File.Set_;
  storage_IterateValuesPrefix := @File.IterateValuesPrefix B;
  storage_GetPrefix := File.GetPrefix; storage_Delete := File.Delete; storage_Txn := File.Txn |}.

(** ** The laws *)

(** The pairs of [m] whose key has the prefix, in key order. *)
Definition lists_prefix (m : gmap string string) (prefix : string)
    (es : list (string * string)) : Prop :=
  asorted es ∧ ∀ k v, (k, v) ∈ es ↔ m !! k = Some v ∧ HasPrefix k prefix = true.

Definition to_kv (e : string * string) : KeyValue := MkKeyValue e.1 e.2.

(** A write of [m'] over [m] that may fail. *)
Definition wrote (err : option error) (m m' m1 : gmap string string) : Prop :=
  m1 = match err with None => m' | Some _ => m end.

Class StorageLaws (S : Type) `{Storage S} := {
  store_ok : S → Prop;
  store_map : S → gmap string string;
  tx_writable : S → Prop;
  Get_law s key : store_ok s → ∃ r, storage_Get key s = Returns (r, s) ∧
    match store_map s !! key with
    | Some v => r = Ok (Some v)
    | None => r = Ok None ∨ ∃ e, r = Err e
    end;
  Set_law s key v : store_ok s → ∃ err s', storage_Set key v s = Returns (err, s') ∧
    store_ok s' ∧ wrote err (store_map s) (<[key := v]> (store_map s)) (store_map s');
  Delete_law s key : store_ok s → ∃ err s', storage_Delete key s = Returns (err, s') ∧
    store_ok s' ∧ wrote err (store_map s) (delete key (store_map s)) (store_map s');
  Iterate_law {T} s prefix fn (t : T) : store_ok s → ∃ es, lists_prefix (store_map s) prefix es ∧
    ∀ err t', iterate fn es t = Returns (err, t') → ∃ err',
      storage_IterateValuesPrefix prefix fn s t = Returns (err', t') ∧ (err = None → err' = None);
  GetPrefix_law s prefix offset limit : store_ok s → 0 ≤ limit → ∃ es,
    lists_prefix (store_map s) prefix es ∧
    storage_GetPrefix prefix offset limit s =
      Returns (Ok (to_kv <$> take (Z.to_nat limit) (drop (Z.to_nat offset) es)), s);
  txn_Set_law s key v : store_ok s → tx_writable s → ∃ err s', txn_Set key v s = Returns (err, s') ∧
    store_ok s' ∧ tx_writable s' ∧
    wrote err (store_map s) (<[key := v]> (store_map s)) (store_map s');
  txn_Delete_law s key : store_ok s → tx_writable s → ∃ err s', txn_Delete key s = Returns (err, s') ∧
    store_ok s' ∧ tx_writable s' ∧
    wrote err (store_map s) (delete key (store_map s)) (store_map s');
  Txn_law s fn (P : option error → gmap string string → Prop) : store_ok s →
    (∀ tx, store_ok tx → tx_writable tx → store_map tx = store_map s → ∃ err tx',
       fn tx = Returns (err, tx') ∧ store_ok tx' ∧ tx_writable tx' ∧ P err (store_map tx')) →
    ∃ err s', storage_Txn true fn s = Returns (err, s') ∧ store_ok s' ∧
      (P err (store_map s') ∨ err ≠ None ∧ store_map s' = store_map s) }.

(** What bbolt documents. *)
Class BoltLaws (B : Bolt) := {
  bucket_map : Bucket → gmap string string;
  bucket_Get_law b k : bucket_Get b k = bucket_map b !! k;
  bucket_Put_law b k v : ∀ b', bucket_Put b k v = Ok b' → bucket_map b' = <[k := v]> (bucket_map b);
  bucket_Put_ok b k v : k ≠ "" → (String.length k ≤ 32768)%nat →
    Z.of_nat (String.length v) ≤ 2 ^ 31 - 2 → ∃ b', bucket_Put b k v = Ok b';
  bucket_Delete_law b k : ∃ b', bucket_Delete b k = Ok b' ∧
    bucket_map b' = delete k (bucket_map b);
  cursor_Seek_law b pre : asorted (cursor_Seek b pre) ∧
    ∀ k v, (k, v) ∈ cursor_Seek b pre ↔ bucket_map b !! k = Some v ∧ (k <? pre)%go = false }.

(** ** The memory store *)

(** Where the callback is skipped, the iteration goes on. *)
Lemma Mem_iterate {T} prefix (fn : string → string → ST T (option error)) m t err t' :
  iterate fn (filter (λ e, HasPrefix e.1 prefix = true) (tree_list m)) t = Returns (err, t') →
  Mem.IterateValuesPrefix prefix fn m t = Returns (None, t').
Proof.
  unfold Mem.IterateValuesPrefix, Avl.Each, tree_list. st. rewrite each_inorder.
  intros Hit. enough (∃ b, each_list (inorder (root m)) (λ k v, λ '(t, check),
      if HasPrefix k prefix then
        match fn k v t with
        | Returns (Some _, t) => Returns (false, (t, true))
        | Returns (None, t) => Returns (true, (t, true))
        | Panics e => Panics e
        end
      else Returns (check, (t, check))) (t, true) = Returns (b, (t', true))) as [b ->].
  { by destruct b. }
  revert t Hit. induction (inorder (root m)) as [|[k v] es IH]; intros t.
  { intros [= <- <-]. by exists true. }
  cbn [each_list]. st. rewrite filter_cons. cbn [fst]. destruct (HasPrefix k prefix).
  - rewrite decide_True by done. cbn [iterate]. st.
    destruct (fn k v t) as [[[e|] t1]|]; [|by apply IH|done]. intros [= <- <-]. by exists false.
  - rewrite decide_False by done. apply IH.
Qed.

Lemma Mem_lists m prefix : tree_wf m →
  lists_prefix (tree_map m) prefix (filter (λ e, HasPrefix e.1 prefix = true) (tree_list m)).
Proof.
  intros Hm. split.
  - destruct Hm as [Hs _]. unfold tree_list, asorted in *.
    induction Hs as [|e es Hs IH Hall]; [constructor|]. rewrite filter_cons.
    case_decide; [|done]. constructor; [done|]. rewrite list.Forall_forall in *.
    intros e' [_ He']%list_elem_of_filter. by apply Hall.
  - intros k v. rewrite list_elem_of_filter. cbn. rewrite tree_list_lookup by done. tauto.
Qed.

(** The collected pairs. *)
Lemma Mem_prefix_steps limit es kvs offset : 0 ≤ limit → Z.of_nat (length kvs) ≤ limit → ∃ err t',
  iterate (Mem.prefix_step limit) es (kvs, offset) = Returns (err, t') ∧
  t'.1 = kvs ++ (to_kv <$> take (Z.to_nat limit - length kvs) (drop (Z.to_nat offset) es)).
Proof.
  intros Hlim. revert kvs offset. induction es as [|[k v] es IH]; intros kvs offset Hlen.
  { exists None, (kvs, offset). split; [done|]. by rewrite drop_nil, take_nil, app_nil_r. }
  cbn [iterate]. st. unfold Mem.prefix_step at 1. destruct (Z.leb_spec offset 0) as [Ho|Ho].
  - rewrite (Z2Nat.nonpos offset) by done. cbn [drop].
    destruct (Z.leb_spec limit (Z.of_nat (length kvs))) as [Hl|Hl].
    + exists (Some "limit reached"), (kvs, offset). split; [done|].
      replace (Z.to_nat limit - length kvs)%nat with 0%nat by lia. by rewrite app_nil_r.
    + destruct (IH (kvs ++ [MkKeyValue k v]) offset) as (err & t' & -> & Ht).
      { rewrite length_app. cbn. lia. }
      exists err, t'. split; [done|]. rewrite Ht, (Z2Nat.nonpos offset) by done. cbn [drop].
      rewrite length_app. cbn [length]. rewrite <-app_assoc. f_equal.
      replace (Z.to_nat limit - length kvs)%nat with (S (Z.to_nat limit - (length kvs + 1)))%nat by lia.
      done.
  - destruct (IH kvs (offset - 1) Hlen) as (err & t' & -> & Ht). exists err, t'. split; [done|]. rewrite Ht.
    replace (Z.to_nat offset) with (S (Z.to_nat (offset - 1))) by lia. done.
Qed.

Lemma Mem_GetPrefix m prefix offset limit : tree_wf m → ∃ es,
  lists_prefix (tree_map m) prefix es ∧
  Mem.GetPrefix prefix offset limit m =
    Returns (Ok (to_kv <$> take (Z.to_nat limit) (drop (Z.to_nat offset) es)), m).
Proof.
  intros Hm. eexists. split; [by apply Mem_lists|]. unfold Mem.GetPrefix. st.
  set (lim := if limit <=? 0 then 0 else limit).
  assert (Hlim : 0 ≤ lim ∧ Z.to_nat lim = Z.to_nat limit) by (unfold lim; destruct (Z.leb_spec limit 0); lia).
  destruct (Mem_prefix_steps lim (filter (λ e, HasPrefix e.1 prefix = true) (tree_list m)) [] offset)
    as (err & [kvs o] & Eit & Ht); [lia|cbn; lia|].
  rewrite (Mem_iterate _ _ _ _ err (kvs, o) Eit). st. cbn in Ht. rewrite Ht. cbn [length].
  by rewrite Nat.sub_0_r, (proj2 Hlim).
Qed.

Lemma Mem_Set_ok m key v : tree_wf m → ∃ err m', Mem.Set_ key v m = Returns (err, m') ∧
  tree_wf m' ∧ wrote err (tree_map m) (<[key := v]> (tree_map m)) (tree_map m').
Proof.
  intros Hm. destruct (Insert_ok m key v Hm) as (m' & Ei & Hm' & Hmap).
  exists None, m'. unfold Mem.Set_. st. by rewrite Ei.
Qed.

Lemma Mem_Delete_ok m key : tree_wf m → ∃ err m', Mem.Delete key m = Returns (err, m') ∧
  tree_wf m' ∧ wrote err (tree_map m) (delete key (tree_map m)) (tree_map m').
Proof.
  intros Hm. destruct (Delete_ok m key Hm) as (m' & Ei & Hm' & Hmap).
  unfold Mem.Delete. st. rewrite Ei. st.
  destruct (tree_map m !! key) as [v|] eqn:Hk; cbn; do 2 eexists; (split; [done|]); (split; [done|]).
  - done.
  - unfold wrote. by rewrite Hmap, delete_id.
Qed.

#[export] Program Instance Mem_laws : StorageLaws Mem.MemStore := {|
  store_ok := tree_wf; store_map := tree_map; tx_writable _ := True |}.
Next Obligation.
  intros m key Hm. cbn. unfold Mem.Get. st. rewrite Find_ok by done.
  destruct (tree_map m !! key) as [v|]; cbn; (eexists; split; [done|]); [done|right; by eexists].
Qed.
Next Obligation. intros m key v. apply Mem_Set_ok. Qed.
Next Obligation. intros m key. apply Mem_Delete_ok. Qed.
Next Obligation.
  intros T m prefix fn t Hm. eexists. split; [by apply Mem_lists|]. intros err t' Hit.
  exists None. split; [|done]. by eapply Mem_iterate.
Qed.
Next Obligation. intros m prefix offset limit Hm _. by apply Mem_GetPrefix. Qed.
Next Obligation.
  intros m key v Hm _. destruct (Mem_Set_ok m key v Hm) as (err & m' & ? & ? & ?). by exists err, m'.
Qed.
Next Obligation.
  intros m key Hm _. destruct (Mem_Delete_ok m key Hm) as (err & m' & ? & ? & ?). by exists err, m'.
Qed.
Next Obligation.
  intros m fn P Hm Hfn. destruct (Hfn m Hm I eq_refl) as (err & m' & Ef & Hm' & _ & HP).
  exists err, m'. cbn. unfold Mem.Txn. st. rewrite Ef. destruct err; (split; [done|]); (split; [done|]); by left.
Qed.

(** ** The file store *)

(** Between a prefix and a longer string there are only strings with it. *)
Lemma prefix_between pre k k' : HasPrefix k' pre = true → (k <? pre)%go = false →
  gcmp k k' = Lt → HasPrefix k pre = true.
Proof.
  unfold HasPrefix, gltb, gcmp, ordered_string. revert k k'.
  induction pre as [|c pre IH]; intros [|d k] [|e k']; cbn; try done.
  destruct (Ascii.ascii_dec c e) as [->|]; [|done].
  destruct (Ascii.compare d e) eqn:Hde; [|done|done].
  apply ascii_compare_eq in Hde as ->. destruct (Ascii.ascii_dec e e); [|done]. apply IH.
Qed.

Section file_proofs.
Context {B : Bolt} {BL : BoltLaws B}.

Lemma while_prefix_sub prefix es e : e ∈ File.while_prefix prefix es → e ∈ es.
Proof.
  induction es as [|[k v] es IH]; cbn; [done|]. destruct (HasPrefix k prefix);
    rewrite ?elem_of_cons, ?elem_of_nil; naive_solver.
Qed.

Lemma while_prefix_lists b prefix :
  lists_prefix (bucket_map b) prefix (File.while_prefix prefix (cursor_Seek b prefix)).
Proof.
  destruct (cursor_Seek_law b prefix) as [Hs Hin]. split.
  - clear Hin. induction Hs as [|[k v] es Hs IH Hall]; cbn; [constructor|].
    destruct (HasPrefix k prefix); [|constructor]. constructor; [done|].
    rewrite list.Forall_forall in *. intros e He. by eapply Hall, while_prefix_sub.
  - intros k v. assert (Hsub : (k, v) ∈ File.while_prefix prefix (cursor_Seek b prefix) ↔
      (k, v) ∈ cursor_Seek b prefix ∧ HasPrefix k prefix = true).
    { assert (Hge : Forall (λ e, (e.1 <? prefix)%go = false) (cursor_Seek b prefix)).
      { rewrite list.Forall_forall. intros [k1 v1] He. by apply Hin in He as []. }
      clear Hin. induction Hs as [|[k1 v1] es Hs IH Hall]; cbn; [by rewrite !elem_of_nil; naive_solver|].
      apply list.Forall_cons in Hge as [Hge1 Hge]. specialize (IH Hge). cbn in Hge1.
      destruct (HasPrefix k1 prefix) eqn:Hp; rewrite !elem_of_cons; [naive_solver|].
      rewrite elem_of_nil. split; [done|]. intros [[[= -> ->]|He] Hk]; [congruence|].
      rewrite list.Forall_forall in Hall. apply Hall in He. unfold akey_lt in He. cbn in He.
      by rewrite (prefix_between prefix k1 k) in Hp. }
    rewrite Hsub, Hin. split; [tauto|]. intros [Hk Hp]. split; [|done]. split; [done|].
    apply HasPrefix_true in Hp as [r ->]. unfold gltb, gcmp, ordered_string.
    clear. induction prefix as [|c p IH]; [by destruct r|]. simpl. by rewrite ascii_compare_refl.
Qed.

Lemma prefix_loop_spec es offset limit : File.prefix_loop es offset limit =
  to_kv <$> (if limit <? 0 then drop (Z.to_nat offset) es
             else take (Z.to_nat limit) (drop (Z.to_nat offset) es)).
Proof.
  revert offset limit. induction es as [|[k v] es IH]; intros offset limit; cbn.
  { rewrite drop_nil, take_nil. by destruct (limit <? 0). }
  destruct (Z.ltb_spec 0 offset) as [Ho|Ho].
  - rewrite IH. replace (Z.to_nat offset) with (S (Z.to_nat (offset - 1))) by lia. done.
  - rewrite (Z2Nat.nonpos offset) by done. cbn [drop]. destruct (Z.eqb_spec limit 0) as [->|Hl]; [done|].
    rewrite IH, (Z2Nat.nonpos offset) by done. cbn [drop].
    destruct (Z.ltb_spec limit 0), (Z.ltb_spec (limit - 1) 0); try lia; [done|].
    replace (Z.to_nat limit) with (S (Z.to_nat (limit - 1))) by lia. done.
Qed.

Lemma File_GetPrefix (s : File.FileStore) prefix offset limit : ∃ es,
  lists_prefix (bucket_map (File.bucket s)) prefix es ∧
  File.GetPrefix prefix offset limit s =
    Returns (Ok (to_kv <$> (if limit <? 0 then drop (Z.to_nat offset) es
                            else take (Z.to_nat limit) (drop (Z.to_nat offset) es))), s).
Proof.
  eexists. split; [apply while_prefix_lists|]. unfold File.GetPrefix, File.View, File.txn_getPrefix.
  st. by rewrite prefix_loop_spec.
Qed.

Definition file_map (s : File.FileStore) : gmap string string := bucket_map (File.bucket s).

(** A transaction that may write. *)
Definition in_update (s : File.FileStore) : Prop := File.writable s = true ∧ File.ro s = false.

Lemma txn_set_ok s key v : in_update s → ∃ err s', File.txn_set key v s = Returns (err, s') ∧
  in_update s' ∧ wrote err (file_map s) (<[key := v]> (file_map s)) (file_map s').
Proof.
  intros [Hw Hro]. unfold File.txn_set, File.written. st. rewrite Hro. st. rewrite Hw. cbn.
  destruct (bucket_Put (File.bucket s) key v) as [b|e] eqn:Hp; st; do 2 eexists; (split; [done|]).
  - split; [done|]. by apply bucket_Put_law.
  - by split.
Qed.

Lemma txn_delete_ok s key : in_update s → ∃ err s', File.txn_delete key s = Returns (err, s') ∧
  in_update s' ∧ wrote err (file_map s) (delete key (file_map s)) (file_map s').
Proof.
  intros [Hw Hro]. unfold File.txn_delete, File.written. st. rewrite Hro. st. rewrite Hw. cbn.
  destruct (bucket_Delete_law (File.bucket s) key) as (b & -> & Hb). st. do 2 eexists.
  split; [done|]. by split.
Qed.

(** What an update leaves: the transaction's map, or, after an error, the old. *)
Lemma Update_ok fn s err tx : fn (File.newTxn true s) = Returns (err, tx) → ∃ err' s',
  File.Update fn s = Returns (err', s') ∧
  (err' = None → err = None ∧ file_map s' = file_map tx) ∧
  (err' ≠ None → file_map s' = file_map s).
Proof.
  intros Hfn. unfold File.Update. rewrite Hfn. destruct err as [e|].
  { by exists (Some e), s. }
  destruct (tx_Commit (File.bucket tx)) as [e|]; do 2 eexists; (split; [done|]); by split.
Qed.

Lemma write_law fn s m' : (∀ tx, in_update tx → file_map tx = file_map s → ∃ err tx',
    fn tx = Returns (err, tx') ∧ in_update tx' ∧ wrote err (file_map tx) m' (file_map tx')) →
  ∃ err s', File.Update fn s = Returns (err, s') ∧ wrote err (file_map s) m' (file_map s').
Proof.
  intros Hfn. destruct (Hfn (File.newTxn true s)) as (err & tx & Ef & _ & Hw); [done..|].
  destruct (Update_ok fn s err tx Ef) as (err' & s' & Eu & H1 & H2). exists err', s'.
  split; [done|]. destruct err' as [e|]; [by apply H2|]. destruct (H1 eq_refl) as [-> Hs'].
  unfold wrote in *. congruence.
Qed.

#[export] Program Instance File_laws : StorageLaws File.FileStore := {|
  store_ok _ := True; store_map := file_map; tx_writable := in_update |}.
Next Obligation.
  intros s key _. cbn. unfold File.Get, File.View, File.txn_get. st. cbn.
  rewrite bucket_Get_law. fold (file_map s). eexists. split; [done|].
  destruct (file_map s !! key); [done|by left].
Qed.
Next Obligation.
  intros s key v _. cbn.
  destruct (write_law (File.txn_set key v) s (<[key := v]> (file_map s))) as (err & s' & ? & ?);
    [|by exists err, s'].
  intros tx Htx <-. by apply txn_set_ok.
Qed.
Next Obligation.
  intros s key _. cbn.
  destruct (write_law (File.txn_delete key) s (delete key (file_map s))) as (err & s' & ? & ?);
    [|by exists err, s'].
  intros tx Htx <-. by apply txn_delete_ok.
Qed.
Next Obligation.
  intros T s prefix fn t _. eexists. split; [apply while_prefix_lists|]. intros err t' Hit.
  by exists err.
Qed.
Next Obligation.
  intros s prefix offset limit _ Hl. destruct (File_GetPrefix s prefix offset limit) as (es & He & Eg).
  exists es. split; [done|]. cbn. rewrite Eg. by destruct (Z.ltb_spec limit 0); [lia|].
Qed.
Next Obligation.
  intros s key v _ Hs. destruct (txn_set_ok s key v Hs) as (err & s' & ? & ? & ?). by exists err, s'.
Qed.
Next Obligation.
  intros s key _ Hs. destruct (txn_delete_ok s key Hs) as (err & s' & ? & ? & ?). by exists err, s'.
Qed.
Next Obligation.
  intros s fn P _ Hfn. destruct (Hfn (File.newTxn true s)) as (err & tx & Ef & _ & _ & HP); [done..|].
  destruct (Update_ok fn s err tx Ef) as (err' & s' & Eu & H1 & H2). exists err', s'.
  split; [done|]. split; [done|]. destruct err' as [e|].
  - right. split; [done|]. by apply H2.
  - left. destruct (H1 eq_refl) as [-> Hs']. cbn in *. by rewrite Hs'.
Qed.

End file_proofs.

(** ** The two stores against each other *)

Lemma asorted_unique (l1 l2 : list (string * string)) : asorted l1 → asorted l2 →
  (∀ e, e ∈ l1 ↔ e ∈ l2) → l1 = l2.
Proof.
  revert l2. induction l1 as [|[k1 v1] l1 IH]; intros [|[k2 v2] l2] H1 H2 Hin.
  - done.
  - exfalso. apply (not_elem_of_nil (k2, v2)), Hin. by apply elem_of_cons; left.
  - exfalso. apply (not_elem_of_nil (k1, v1)), Hin. by apply elem_of_cons; left.
  - apply asorted_cons in H1 as [H1 Hg1], H2 as [H2 Hg2].
    unfold all_gt in *. rewrite list.Forall_forall in *.
    assert (Hlt : ∀ v, (k1, v) ∉ l1 ∧ (k2, v) ∉ l2).
    { intros v. split; intros Hl; [apply Hg1 in Hl|apply Hg2 in Hl]; by apply gcmp_lt_irrefl in Hl. }
    assert (Heq : (k1, v1) = (k2, v2)).
    { pose proof (proj1 (Hin (k1, v1)) ltac:(by apply elem_of_cons; left)) as Ha.
      pose proof (proj2 (Hin (k2, v2)) ltac:(by apply elem_of_cons; left)) as Hb.
      apply elem_of_cons in Ha as [?|Ha]; [done|]. apply elem_of_cons in Hb as [?|Hb]; [done|].
      apply Hg2 in Ha. apply Hg1 in Hb. cbn in *. exfalso.
      by apply (gcmp_lt_irrefl k1), (gcmp_lt_trans _ k2). }
    injection Heq as <- <-. f_equal. apply IH; [done..|]. intros [k v].
    pose proof (Hin (k, v)) as Hkv. rewrite !elem_of_cons in Hkv. split; intros Hl.
    + destruct (proj1 Hkv (or_intror Hl)) as [[= -> ->]|]; [|done]. by apply Hlt in Hl.
    + destruct (proj2 Hkv (or_intror Hl)) as [[= -> ->]|]; [|done]. by apply Hlt in Hl.
Qed.

Lemma lists_prefix_unique m prefix l1 l2 :
  lists_prefix m prefix l1 → lists_prefix m prefix l2 → l1 = l2.
Proof.
  intros [H1 E1] [H2 E2]. apply asorted_unique; [done..|]. intros [k v]. by rewrite E1, E2.
Qed.

Section agree.
Context {B : Bolt} {BL : BoltLaws B}.
Context (m : Mem.MemStore) (s : File.FileStore) (Hm : tree_wf m) (Hms : file_map s = tree_map m).

Lemma Iterate_file_mem {T} prefix (fn : string → string → ST T (option error)) t err t' :
  File.IterateValuesPrefix prefix fn s t = Returns (err, t') →
  Mem.IterateValuesPrefix prefix fn m t = Returns (None, t').
Proof.
  intros Hit. eapply Mem_iterate. unfold File.IterateValuesPrefix, File.txn_iterate in Hit.
  erewrite (lists_prefix_unique _ _ _ _ (Mem_lists m prefix Hm)); [exact Hit|].
  rewrite <-Hms. apply while_prefix_lists.
Qed.

(** The memory store and the file store, holding the same pairs, answer the
    same to reads of stored keys, to bounded prefix reads and to iterations
    that succeed, and a write that the file store accepts leaves them holding
    the same pairs again. *)
Theorem stores_agree :
  (∀ key v, tree_map m !! key = Some v →
     Mem.Get key m = Returns (Ok (Some v), m) ∧ File.Get key s = Returns (Ok (Some v), s)) ∧
  (∀ prefix offset limit, 0 ≤ limit → ∃ l,
     Mem.GetPrefix prefix offset limit m = Returns (Ok l, m) ∧
     File.GetPrefix prefix offset limit s = Returns (Ok l, s)) ∧
  (∀ T prefix (fn : string → string → ST T (option error)) t t',
     File.IterateValuesPrefix prefix fn s t = Returns (None, t') →
     Mem.IterateValuesPrefix prefix fn m t = Returns (None, t')) ∧
  (∀ key v, ∃ m' err s', Mem.Set_ key v m = Returns (None, m') ∧
     File.Set_ key v s = Returns (err, s') ∧ tree_wf m' ∧
     file_map s' = match err with None => tree_map m' | Some _ => tree_map m end).
Proof.
  split; [|split; [|split]].
  - intros key v Hk. destruct (@Get_law _ _ Mem_laws m key Hm) as (r & Er & Hr),
      (@Get_law _ _ File_laws s key I) as (r' & Er' & Hr').
    cbn in *. rewrite Hms in Hr'. rewrite Hk in Hr, Hr'. by subst.
  - intros prefix offset limit Hl.
    destruct (@GetPrefix_law _ _ Mem_laws m prefix offset limit Hm Hl) as (es & He & Eg).
    destruct (@GetPrefix_law _ _ File_laws s prefix offset limit I Hl) as (es' & He' & Eg'). cbn in *.
    rewrite Hms in He'. rewrite (lists_prefix_unique _ _ _ _ He' He) in Eg'. by eexists.
  - intros T prefix fn t t'. apply Iterate_file_mem.
  - intros key v. destruct (Insert_ok m key v Hm) as (m' & Ei & Hm' & Hmap).
    destruct (@Set_law _ _ File_laws s key v I) as (err & s' & Es & _ & Hw). cbn in *.
    exists m', err, s'. unfold Mem.Set_. st. rewrite Ei. do 3 (split; [done|]).
    unfold wrote in Hw. rewrite Hw, Hmap, Hms. by destruct err.
Qed.

(** Holding the same pairs, the two stores differ in three ways: a missing
    key is an error of the memory store and no error of the file store, a
    negative limit means no pair in the memory store and all pairs in the
    file store, and a callback's error is swallowed by the memory store. *)
Theorem stores_differ :
  (∀ key, tree_map m !! key = None →
     Mem.Get key m = Returns (Err Mem.not_found, m) ∧ File.Get key s = Returns (Ok None, s)) ∧
  (∀ prefix offset limit, limit < 0 → ∃ es, lists_prefix (tree_map m) prefix es ∧
     Mem.GetPrefix prefix offset limit m = Returns (Ok [], m) ∧
     File.GetPrefix prefix offset limit s =
       Returns (Ok (to_kv <$> drop (Z.to_nat offset) es), s)) ∧
  (∀ T prefix (fn : string → string → ST T (option error)) t e t',
     File.IterateValuesPrefix prefix fn s t = Returns (Some e, t') →
     Mem.IterateValuesPrefix prefix fn m t = Returns (None, t')).
Proof.
  split; [|split].
  - intros key Hk. unfold Mem.Get, File.Get, File.View, File.txn_get. st. cbn.
    rewrite bucket_Get_law, Find_ok, Hk by done. fold (file_map s). rewrite Hms, Hk. done.
  - intros prefix offset limit Hl.
    destruct (Mem_GetPrefix m prefix offset limit Hm) as (es & He & Eg).
    destruct (File_GetPrefix s prefix offset limit) as (es' & He' & Eg').
    fold (file_map s) in He'. rewrite Hms in He'. rewrite (lists_prefix_unique _ _ _ _ He' He) in Eg'.
    exists es. split; [done|]. rewrite Eg, Eg'. rewrite (Z2Nat.nonpos limit) by lia.
    by rewrite (proj2 (Z.ltb_lt limit 0)).
  - intros T prefix fn t e t'. apply Iterate_file_mem.
Qed.

End agree.

(** ** Witnesses *)

(** Buckets as finite maps, whose commits succeed. *)
Definition sorted_pairs (m : gmap string string) : list (string * string) :=
  foldr (λ e acc, ainsert e.1 e.2 acc) [] (map_to_list m).

Lemma sorted_pairs_ok m : asorted (sorted_pairs m) ∧ amap (sorted_pairs m) = m.
Proof.
  assert (H : ∀ l : list (string * string),
    asorted (foldr (λ e acc, ainsert e.1 e.2 acc) [] l) ∧
    amap (foldr (λ e acc, ainsert e.1 e.2 acc) [] l) = list_to_map l).
  { induction l as [|[k v] l [IH1 IH2]]; [by split; [constructor|]|]. cbn. split.
    - by apply ainsert_sorted.
    - change (amap (ainsert k v (foldr (λ e acc, ainsert e.1 e.2 acc) [] l)) = <[k := v]> (list_to_map l)).
      by rewrite amap_ainsert, IH2. }
  destruct (H (map_to_list m)) as [H1 H2]. split; [done|]. unfold sorted_pairs.
  by rewrite H2, list_to_map_to_list.
Qed.

Definition map_bolt : Bolt := {|
  Bucket := gmap string string;
  bucket_Get b k := b !! k;
  bucket_Put b k v := Ok (<[k := v]> b);
  bucket_Delete b k := Ok (delete k b);
  cursor_Seek b pre := filter (λ e, (e.1 <? pre)%go = false) (sorted_pairs b);
  ErrTxNotWritable := "tx not writable";
  tx_Commit _ := None |}.

#[export] Program Instance map_bolt_laws : BoltLaws map_bolt := {| bucket_map b := b |}.
Next Obligation. done. Qed.
Next Obligation. by intros b k v b' [= <-]. Qed.
Next Obligation. intros b k v _ _ _. by eexists. Qed.
Next Obligation. intros b k. by eexists. Qed.
Next Obligation.
  intros b pre. destruct (sorted_pairs_ok b) as [Hs Hm]. split.
  - cbn. clear Hm. induction Hs as [|e es Hs IH Hall]; [constructor|]. rewrite filter_cons.
    case_decide; [|done]. constructor; [done|]. rewrite list.Forall_forall in *.
    intros e' [_ He']%list_elem_of_filter. by apply Hall.
  - intros k v. cbn. rewrite list_elem_of_filter, elem_of_amap, Hm by done. cbn. tauto.
Qed.

(** Two pairs, under one prefix. *)
Definition sample_mem : Mem.MemStore :=
  match (_ ← Mem.Set_ "doc/b" "2"; Mem.Set_ "doc/a" "1") Mem.NewMemStore with
  | Returns (_, m) => m
  | Panics _ => NewTree
  end.
Definition sample_file : @File.FileStore map_bolt :=
  @File.MkFile map_bolt {["doc/a" := "1"; "doc/b" := "2"]} false false.

Lemma sample_stores : tree_wf sample_mem ∧ @file_map map_bolt _ sample_file = tree_map sample_mem.
Proof.
  split; [|reflexivity].
  unfold sample_mem, Mem.Set_, Mem.NewMemStore. st. pose proof (NewTree_wf (K := string) (V := string)) as H0.
  destruct (Insert_ok NewTree "doc/b" "2" H0) as (m1 & E1 & H1 & _).
  rewrite E1. st. destruct (Insert_ok m1 "doc/a" "1" H1) as (m2 & E2 & H2 & _). by rewrite E2.
Qed.

Lemma stores_agree_witness : ∃ l,
  Mem.GetPrefix "doc/" 0 1 sample_mem = Returns (Ok l, sample_mem) ∧
  File.GetPrefix "doc/" 0 1 sample_file = Returns (Ok l, sample_file) ∧
  l = [MkKeyValue "doc/a" "1"].
Proof.
  destruct sample_stores as [Hm Hms].
  destruct (stores_agree sample_mem sample_file Hm Hms) as (_ & HP & _).
  destruct (HP "doc/" 0 1) as (l & E1 & E2); [lia|]. exists l. split; [done|]. split; [done|].
  vm_compute in E1. by injection E1.
Defined.

Lemma stores_differ_witness :
  Mem.GetPrefix "doc/" 0 (-1) sample_mem = Returns (Ok [], sample_mem) ∧
  Mem.Get "doc/c" sample_mem = Returns (Err Mem.not_found, sample_mem) ∧
  File.Get "doc/c" sample_file = Returns (Ok None, sample_file) ∧
  ∃ l, File.GetPrefix "doc/" 0 (-1) sample_file = Returns (Ok l, sample_file) ∧ length l = 2%nat.
Proof.
  destruct sample_stores as [Hm Hms].
  destruct (stores_differ sample_mem sample_file Hm Hms) as (HG & HP & _).
  destruct (HP "doc/" 0 (-1)) as (es & _ & E1 & E2); [lia|].
  destruct (HG "doc/c") as [G1 G2]; [reflexivity|].
  do 3 (split; [done|]). eexists. split; [exact E2|]. vm_compute in E2.
  injection E2 as E2. apply (f_equal length) in E2. symmetry. exact E2.
Defined.
