(* ===== verification/ProxyStore.v ===== *)
(** * internal/proxy/proxystore: change logs and documents in a store

    The operations over any [Storage]; encoding/json's treatment of the two
    records is a parameter.  The logger is left out. *)
From Stdlib Require Import ZArith Lia Ascii.
From stdpp Require Import base gmap strings list fin_maps.
From S2P Require Import Prelude Avl SliceUtil Pattern Spec Storage.
Import Pattern.Strings.

#[local] Arguments String.append : simpl nomatch.

(** ** The encodings *)

(** [Any] is the type of a log's item; a decoded item need not be the value
    that was encoded, since its Go type is lost. *)
Class Encoding (E : Externals) (Any : Type) := {
  marshal_log : ChangeLog Any → gores string;
  unmarshal_log : string → gores (ChangeLog Any);
  marshal_doc : Document.t → gores string;
  unmarshal_doc : string → gores Document.t;
  (** badger's error, which the code compares with *)
  ErrKeyNotFound : error }.

(** Up to the item. *)
Definition same_log {Any} (cl cl' : ChangeLog Any) : Prop :=
  ID cl' = ID cl ∧ Cmd cl' = Cmd cl ∧ Name cl' = Name cl ∧ Namespace cl' = Namespace cl ∧
  Version cl' = Version cl.

Class EncodingLaws {E Any} (C : Encoding E Any) : Prop := {
  log_law cl b : marshal_log cl = Ok b → ∃ cl', unmarshal_log b = Ok cl' ∧ same_log cl cl';
  doc_law doc b : marshal_doc doc = Ok b → unmarshal_doc b = Ok doc }.

Section code.
Context {E : Externals} {Any : Type} {C : Encoding E Any} {S : Type} {St : Storage S}.

(** ** Change logs *)

(** The decoding loop. *)
Fixpoint unmarshal_logs (clBytes : list KeyValue) : gores (list (ChangeLog Any)) :=
  match clBytes with
  | [] => Ok []
  | clKv :: clBytes =>
    match unmarshal_log (Value clKv) with
    | Err err => Err ("failed to unmarshal changelog entry: " +:+ err)
    | Ok clObj => match unmarshal_logs clBytes with
                  | Ok logs => Ok (clObj :: logs)
                  | Err err => Err err
                  end
    end
  end.

Definition FetchChangeLogs : ST S (gores (slice (ChangeLog Any))) :=
  r ← storage_GetPrefix "changelog/" 0 (-1);
  match r with
  | Err err =>
    if String.eqb err ErrKeyNotFound then mret (Ok None)
    else mret (Err ("failed to fetch changelog" +:+ err))
  | Ok clBytes =>
    if Nat.eqb (length clBytes) 0 then mret (Ok None) else
    match unmarshal_logs clBytes with
    | Err err => mret (Err err)
    | Ok logs => mret (Ok (Some logs))
    end
  end.

(** The first attempt and the retries. *)
Fixpoint store_retry (retries : nat) (key value : string) : ST S (option error) :=
  err ← storage_Set key value;
  match err, retries with
  | None, _ => mret None
  | Some _, Datatypes.S retries => store_retry retries key value
  | Some err, O => mret (Some err)
  end.

Definition StoreChangeLog (cl : ChangeLog Any) : ST S (option error) :=
  match marshal_log cl with
  | Err err => mret (Some err)
  | Ok clBytes => store_retry 30 ("changelog/" +:+ ID cl) clBytes
  end.

Fixpoint delete_logs (logs : list (ChangeLog Any)) : ST S (option error) :=
  match logs with
  | [] => mret None
  | cl :: logs =>
    err ← txn_Delete ("changelog/" +:+ ID cl);
    match err with Some err => mret (Some err) | None => delete_logs logs end
  end.
Definition DeleteChangeLogs (logs : list (ChangeLog Any)) : ST S (option error) :=
  err ← storage_Txn true (delete_logs logs);
  match err with Some err => mret (Some err) | None => mret None end.

(** ** Documents *)

Definition docKey (docId colName nsName : string) : string :=
  "doc/" +:+ nsName +:+ "/" +:+ colName +:+ "/" +:+ docId.

Definition FetchDocument (docId colName nsName : string) : ST S (gores (option Document.t)) :=
  r ← storage_Get (docKey docId colName nsName);
  match r with
  | Err err => mret (Err ("failed to fetch document: " +:+ err))
  | Ok None => mret (Ok None)
  | Ok (Some docBytes) =>
    match unmarshal_doc docBytes with
    | Err err => mret (Err ("failed to unmarshal document entry: " +:+ err))
    | Ok doc => mret (Ok (Some doc))
    end
  end.

(** The callback; it captures [docs], [limit] and [offset]. *)
Definition fetch_step (key val : string) : ST (list Document.t * Z * Z) (option error) :=
  λ '(docs, limit, offset),
  if 0 <? offset then Returns (None, (docs, limit, offset - 1)) else
  let limit := limit - 1 in
  if negb (limit =? 0) then
    match unmarshal_doc val with
    | Err err => Returns (Some err, (docs, limit, offset))
    | Ok newDoc => Returns (None, (docs ++ [newDoc], limit, offset))
    end
  else Returns (None, (docs, limit, offset)).

Definition FetchDocuments (collectionName namespaceName : string) (limit offset : Z)
    : ST S (gores (slice Document.t)) :=
  if limit =? 0 then mret (Ok None) else
  let docPrefix := docKey "" collectionName namespaceName in
  s ← st_get;
  '(err, (docs, _, _)) ←
    st_lift (storage_IterateValuesPrefix docPrefix fetch_step s ([], limit, offset));
  match err with
  | Some err => mret (Err ("failed to fetch documents: " +:+ err))
  | None => mret (Ok (Some docs))
  end.

Definition StoreDocument (doc : Document.t) : ST S (option error) :=
  match marshal_doc doc with
  | Err err => mret (Some err)
  | Ok docBytes =>
    err ← storage_Set (docKey (Document.ID doc) (Document.CollectionName doc)
                         (Document.NamespaceName doc)) docBytes;
    match err with Some err => mret (Some err) | None => mret None end
  end.

(** One transaction per document. *)
Fixpoint StoreDocuments (docs : list Document.t) : ST S (option error) :=
  match docs with
  | [] => mret None
  | doc :: docs =>
    match marshal_doc doc with
    | Err err => mret (Some err)
    | Ok docBytes =>
      let key := docKey (Document.ID doc) (Document.CollectionName doc)
                   (Document.NamespaceName doc) in
      err ← storage_Txn true (txn_Set key docBytes);
      match err with Some err => mret (Some err) | None => StoreDocuments docs end
    end
  end.

Definition DeleteDocument (id colName nsName : string) : ST S (option error) :=
  storage_Delete (docKey id colName nsName).

End code.

(** ** What is read back *)

Section proofs.
Context {E : Externals} {Any : Type} {C : Encoding E Any} {CL : EncodingLaws C}.
Context {S : Type} {St : Storage S} {SL : StorageLaws S}.
Implicit Types (s : S) (doc : Document.t).

Definition doc_key doc : string :=
  docKey (Document.ID doc) (Document.CollectionName doc) (Document.NamespaceName doc).

Lemma StoreDocument_ok s doc err s' : store_ok s → StoreDocument doc s = Returns (err, s') →
  store_ok s' ∧
  match err with
  | None => ∃ b, marshal_doc doc = Ok b ∧ store_map s' = <[doc_key doc := b]> (store_map s)
  | Some _ => store_map s' = store_map s
  end.
Proof.
  intros Hs. unfold StoreDocument. destruct (marshal_doc doc) as [b|e] eqn:Hb.
  2:{ intros [= <- <-]. done. }
  st. destruct (Set_law s (doc_key doc) b Hs) as (err1 & s1 & Es & Hs1 & Hw).
  unfold doc_key in Es. rewrite Es. destruct err1; st; intros [= <- <-]; (split; [done|]); [done|].
  by exists b.
Qed.

Lemma FetchDocument_hit s doc b : store_ok s → marshal_doc doc = Ok b →
  store_map s !! doc_key doc = Some b →
  FetchDocument (Document.ID doc) (Document.CollectionName doc) (Document.NamespaceName doc) s =
    Returns (Ok (Some doc), s).
Proof.
  intros Hs Hb Hl. unfold FetchDocument. st. destruct (Get_law s (doc_key doc) Hs) as (r & Eg & Hr).
  unfold doc_key in Eg, Hr, Hl. rewrite Eg. rewrite Hl in Hr. subst r.
  by rewrite (doc_law doc b Hb).
Qed.

Lemma FetchDocument_miss s id col ns : store_ok s → store_map s !! docKey id col ns = None →
  ∃ r, FetchDocument id col ns s = Returns (r, s) ∧ ∀ doc, r ≠ Ok (Some doc).
Proof.
  intros Hs Hl. unfold FetchDocument. st. destruct (Get_law s (docKey id col ns) Hs) as (r & Eg & Hr).
  rewrite Eg. rewrite Hl in Hr. destruct Hr as [->|[e ->]]; eexists; (split; [reflexivity|done]).
Qed.

(** A document that was stored is fetched as it was, also after another
    document was stored elsewhere, and is not fetched any more after it was
    deleted. *)
Theorem Document_store_fetch s s1 doc : store_ok s → StoreDocument doc s = Returns (None, s1) →
  let fetch := FetchDocument (Document.ID doc) (Document.CollectionName doc)
                 (Document.NamespaceName doc) in
  fetch s1 = Returns (Ok (Some doc), s1) ∧
  (∀ doc' err s2, StoreDocument doc' s1 = Returns (err, s2) → doc_key doc' ≠ doc_key doc →
     fetch s2 = Returns (Ok (Some doc), s2)) ∧
  (∀ s2, DeleteDocument (Document.ID doc) (Document.CollectionName doc)
           (Document.NamespaceName doc) s1 = Returns (None, s2) →
     ∃ r, fetch s2 = Returns (r, s2) ∧ ∀ doc', r ≠ Ok (Some doc')).
Proof.
  intros Hs Hst fetch. destruct (StoreDocument_ok s doc None s1 Hs Hst) as (Hs1 & b & Hb & Hm).
  split; [|split].
  - eapply FetchDocument_hit; [done..|]. by rewrite Hm, lookup_insert_eq.
  - intros doc' err s2 Hst' Hne. destruct (StoreDocument_ok s1 doc' err s2 Hs1 Hst') as [Hs2 Hm2].
    eapply FetchDocument_hit; [done..|]. destruct err as [e|].
    + by rewrite Hm2, Hm, lookup_insert_eq.
    + destruct Hm2 as (b' & _ & ->). by rewrite lookup_insert_ne, Hm, lookup_insert_eq by done.
  - intros s2 Hdel. unfold DeleteDocument in Hdel. fold (doc_key doc) in Hdel.
    destruct (Delete_law s1 (doc_key doc) Hs1) as (err & s2' & Ed & Hs2 & Hw).
    rewrite Hdel in Ed. injection Ed as <- <-.
    apply FetchDocument_miss; [done|]. rewrite Hw. apply lookup_delete_eq.
Qed.

(** ** FetchDocuments *)

(** What the countdown of [limit] leaves: all but the [limit]-th. *)
Definition all_but_nth {A} (limit : Z) (l : list A) : list A :=
  if limit <=? 0 then l else take (Z.to_nat (limit - 1)) l ++ drop (Z.to_nat limit) l.

Lemma all_but_nth_cons {A} limit (x : A) l : 1 < limit →
  all_but_nth limit (x :: l) = x :: all_but_nth (limit - 1) l.
Proof.
  intros Hl. unfold all_but_nth. rewrite !(proj2 (Z.leb_gt _ _)) by lia.
  replace (Z.to_nat limit) with (Datatypes.S (Z.to_nat (limit - 1))) by lia.
  replace (Z.to_nat (limit - 1)) with (Datatypes.S (Z.to_nat (limit - 1 - 1))) at 1 by lia. done.
Qed.

Lemma fetch_steps es ds docs limit offset :
  Forall2 (λ (e : string * string) d, unmarshal_doc e.2 = Ok d) es ds → ∃ t',
  iterate fetch_step es (docs, limit, offset) = Returns (None, t') ∧
  t'.1.1 = docs ++ all_but_nth limit (drop (Z.to_nat offset) ds).
Proof.
  intros Hdec. revert docs limit offset.
  induction Hdec as [|[k v] d es ds Hd _ IH]; intros docs limit offset.
  { eexists. split; [done|]. rewrite drop_nil. unfold all_but_nth. rewrite take_nil, drop_nil.
    destruct (limit <=? 0); by rewrite app_nil_r. }
  cbn [iterate]. st. unfold fetch_step at 1. destruct (Z.ltb_spec 0 offset) as [Ho|Ho].
  { destruct (IH docs limit (offset - 1)) as (t' & -> & Ht). exists t'. split; [done|].
    rewrite Ht. by replace (Z.to_nat offset) with (Datatypes.S (Z.to_nat (offset - 1))) by lia. }
  rewrite (Z2Nat.nonpos offset) by done. cbn [drop].
  destruct (Z.eqb_spec (limit - 1) 0) as [Hl|Hl]; cbn [negb].
  - destruct (IH docs (limit - 1) offset) as (t' & -> & Ht). exists t'. split; [done|].
    rewrite Ht, (Z2Nat.nonpos offset) by done. replace limit with 1 by lia. done.
  - cbn in Hd. rewrite Hd. destruct (IH (docs ++ [d]) (limit - 1) offset) as (t' & -> & Ht).
    exists t'. split; [done|]. rewrite Ht, (Z2Nat.nonpos offset), <-app_assoc by done. f_equal.
    cbn [drop]. destruct (Z.leb_spec limit 1) as [Hle|Hgt].
    + unfold all_but_nth. by rewrite !(proj2 (Z.leb_le _ _)) by lia.
    + by rewrite all_but_nth_cons.
Qed.

Lemma FetchDocuments_ok s col ns limit offset es ds : store_ok s → limit ≠ 0 →
  lists_prefix (store_map s) (docKey "" col ns) es →
  Forall2 (λ (e : string * string) d, unmarshal_doc e.2 = Ok d) es ds →
  FetchDocuments col ns limit offset s =
    Returns (Ok (Some (all_but_nth limit (drop (Z.to_nat offset) ds))), s).
Proof.
  intros Hs Hl Hes Hdec. unfold FetchDocuments. rewrite (proj2 (Z.eqb_neq _ _)) by done.
  destruct (Iterate_law s (docKey "" col ns) fetch_step ([], limit, offset) Hs)
    as (es' & Hes' & Hit). rewrite (lists_prefix_unique _ _ _ _ Hes' Hes) in Hit.
  destruct (fetch_steps es ds [] limit offset Hdec) as ([[docs l] o] & Ei & Ht).
  destruct (Hit _ _ Ei) as (err & Es & Herr). rewrite (Herr eq_refl) in Es. st. rewrite Es. st.
  cbn in Ht. by rewrite Ht.
Qed.

(** [FetchDocuments] answers, in key order, the documents of the collection
    from [offset] on but the [limit]-th of them: the limit bounds nothing and
    drops one document; with a negative limit none is dropped. *)
Theorem FetchDocuments_window s col ns limit offset es ds : store_ok s → limit ≠ 0 →
  lists_prefix (store_map s) (docKey "" col ns) es →
  Forall2 (λ (e : string * string) d, unmarshal_doc e.2 = Ok d) es ds →
  FetchDocuments col ns limit offset s =
    Returns (Ok (Some (all_but_nth limit (drop (Z.to_nat offset) ds))), s).
Proof. apply FetchDocuments_ok. Qed.

(** ** Batches *)

(** The map after storing [docs], later ones winning. *)
Fixpoint with_docs (m : gmap string string) (docs : list Document.t) : gmap string string :=
  match docs with
  | [] => m
  | doc :: docs =>
    with_docs (match marshal_doc doc with Ok b => <[doc_key doc := b]> m | Err _ => m end) docs
  end.

(** Every document of a batch is stored, or the batch stops at an error with
    the documents before it stored. *)
Lemma StoreDocuments_prefix docs s : store_ok s → ∃ err s' n,
  StoreDocuments docs s = Returns (err, s') ∧ store_ok s' ∧
  store_map s' = with_docs (store_map s) (take n docs) ∧ (err = None → n = length docs).
Proof.
  revert s. induction docs as [|doc docs IH]; intros s Hs.
  { by exists None, s, 0%nat. }
  cbn [StoreDocuments]. destruct (marshal_doc doc) as [b|e] eqn:Hb.
  2:{ by exists (Some e), s, 0%nat. }
  destruct (Txn_law s (txn_Set (doc_key doc) b)
    (λ err m, wrote err (store_map s) (<[doc_key doc := b]> (store_map s)) m) Hs)
    as (err & s1 & Et & Hs1 & Hw).
  { intros tx Htx Hwr Hm. destruct (txn_Set_law tx (doc_key doc) b Htx Hwr) as (err & tx' & H).
    exists err, tx'. rewrite <-Hm. tauto. }
  unfold doc_key in Et. st. rewrite Et. destruct err as [e|].
  - exists (Some e), s1, 0%nat. split; [done|]. split; [done|]. split; [|done].
    cbn. by destruct Hw as [Hw|[_ Hw]].
  - destruct Hw as [Hw|[? _]]; [|done]. destruct (IH s1 Hs1) as (err & s' & n & Es & Hs' & Hm & Hn).
    exists err, s', (Datatypes.S n). split; [done|]. split; [done|]. split.
    + cbn. by rewrite Hm, Hw, Hb.
    + intros He. cbn. by rewrite Hn.
Qed.

End proofs.

(** ** Change logs *)

Section logs.
Context {E : Externals} {Any : Type} {C : Encoding E Any} {CL : EncodingLaws C}.

Lemma unmarshal_logs_ok es logs :
  Forall2 (λ (e : string * string) cl, unmarshal_log e.2 = Ok cl) es logs →
  unmarshal_logs (to_kv <$> es) = Ok logs.
Proof.
  induction 1 as [|[k v] cl es logs Hcl _ IH]; [done|]. cbn in *. by rewrite Hcl, IH.
Qed.

Lemma store_retry_ok {S} {St : Storage S} {SL : StorageLaws S} n key b (s : S) : store_ok s →
  ∃ err s', store_retry n key b s = Returns (err, s') ∧ store_ok s' ∧
    wrote err (store_map s) (<[key := b]> (store_map s)) (store_map s').
Proof.
  revert s. induction n as [|n IH]; intros s Hs; cbn [store_retry]; st;
    destruct (Set_law s key b Hs) as (err & s1 & Es & Hs1 & Hw); rewrite Es; destruct err as [e|]; st.
  - by exists (Some e), s1.
  - by exists None, s1.
  - cbn in Hw. destruct (IH s1 Hs1) as (err & s' & Er & Hs' & Hw'). exists err, s'.
    by rewrite <-Hw.
  - by exists None, s1.
Qed.

Lemma StoreChangeLog_ok {S} {St : Storage S} {SL : StorageLaws S} (s s' : S) cl : store_ok s →
  StoreChangeLog cl s = Returns (None, s') → store_ok s' ∧ ∃ b cl', marshal_log cl = Ok b ∧
  store_map s' = <["changelog/" +:+ ID cl := b]> (store_map s) ∧
  unmarshal_log b = Ok cl' ∧ same_log cl cl'.
Proof.
  intros Hs. unfold StoreChangeLog. destruct (marshal_log cl) as [b|e] eqn:Hb; [|done].
  destruct (store_retry_ok 30 ("changelog/" +:+ ID cl) b s Hs) as (err & s1 & Er & Hs1 & Hw).
  rewrite Er. intros [= -> <-]. destruct (log_law cl b Hb) as (cl' & Hcl' & Hsame).
  split; [done|]. by exists b, cl'.
Qed.

Lemma FetchChangeLogs_file {B : Bolt} {BL : BoltLaws B} (f : File.FileStore) es logs :
  lists_prefix (file_map f) "changelog/" es →
  Forall2 (λ (e : string * string) cl, unmarshal_log e.2 = Ok cl) es logs →
  FetchChangeLogs f = Returns (Ok (if Nat.eqb (length logs) 0 then None else Some logs), f).
Proof.
  intros Hes Hdec. unfold FetchChangeLogs. st. cbn [storage_GetPrefix File_storage].
  destruct (File_GetPrefix f "changelog/" 0 (-1)) as (es' & Hes' & Eg). rewrite Eg. st.
  fold (file_map f) in Hes'. rewrite (lists_prefix_unique _ _ _ _ Hes' Hes). cbn [Z.ltb Z.compare].
  change (drop (Z.to_nat 0) es) with es. rewrite length_fmap, (Forall2_length _ _ _ Hdec).
  rewrite (unmarshal_logs_ok es logs Hdec). by destruct logs.
Qed.

(** A stored change log is in the store under its identifier and decodes to
    itself up to the item; reading the logs back answers all of them in the
    order of their identifiers from a file store, and none from a memory
    store. *)
Theorem ChangeLogs_read_back {B : Bolt} {BL : BoltLaws B} :
  (∀ S (St : Storage S) (SL : StorageLaws S) (s s' : S) cl, store_ok s →
     StoreChangeLog cl s = Returns (None, s') → ∃ b cl',
     store_map s' = <["changelog/" +:+ ID cl := b]> (store_map s) ∧
     unmarshal_log b = Ok cl' ∧ same_log cl cl') ∧
  (∀ (f : File.FileStore) es logs, lists_prefix (file_map f) "changelog/" es →
     Forall2 (λ (e : string * string) cl, unmarshal_log e.2 = Ok cl) es logs →
     FetchChangeLogs f = Returns (Ok (if Nat.eqb (length logs) 0 then None else Some logs), f)) ∧
  (∀ m : Mem.MemStore, tree_wf m → FetchChangeLogs m = Returns (Ok None, m)).
Proof.
  split; [|split].
  - intros S St SL s s' cl Hs Hst. destruct (StoreChangeLog_ok s s' cl Hs Hst) as (_ & b & cl' & _ & H).
    by exists b, cl'.
  - apply FetchChangeLogs_file.
  - intros m Hm. unfold FetchChangeLogs. st. cbn [storage_GetPrefix Mem_storage].
    destruct (Mem_GetPrefix m "changelog/" 0 (-1) Hm) as (es & _ & ->). done.
Qed.

End logs.

(** ** Witnesses

    An encoding of both records that can be read back, through bit strings. *)

Fixpoint bits_of (p : positive) : string :=
  match p with
  | xH => ""
  | xO p => String "0"%char (bits_of p)
  | xI p => String "1"%char (bits_of p)
  end.
Fixpoint of_bits (s : string) : positive :=
  match s with
  | EmptyString => xH
  | String c s => if Ascii.eqb c "1"%char then xI (of_bits s) else xO (of_bits s)
  end.
Lemma of_bits_bits p : of_bits (bits_of p) = p.
Proof. induction p as [p IH|p IH|]; cbn; by rewrite ?IH. Qed.

Definition doc_parts (doc : @Document.t text_externals) :=
  (Document.ID doc, Document.CreatedAt doc, Document.UpdatedAt doc, Document.NamespaceName doc,
   Document.CollectionName doc, (Document.Data doc : option string)).
Definition log_parts (cl : ChangeLog string) :=
  (ID cl, Cmd cl, Name cl, Namespace cl, cl_Item cl, Version cl).

Definition text_encoding : Encoding text_externals string := {|
  marshal_log cl := Ok (bits_of (encode (log_parts cl)));
  unmarshal_log b :=
    match decode (of_bits b) : option (string * string * string * string * option string * Z) with
    | Some (id, cmd, name, ns, item, v) => Ok (MkChangeLog id cmd name ns item v)
    | None => Err "unexpected end of JSON input"
    end;
  marshal_doc doc := Ok (bits_of (encode (doc_parts doc)));
  unmarshal_doc b :=
    match decode (of_bits b) : option (string * Z * Z * string * string * option string) with
    | Some (id, c, u, ns, col, data) => Ok (Document.mk text_externals id c u ns col data)
    | None => Err "unexpected end of JSON input"
    end;
  ErrKeyNotFound := "Key not found" |}.

Lemma text_encoding_laws : EncodingLaws text_encoding.
Proof.
  split; cbn.
  - intros cl b [= <-]. rewrite of_bits_bits. unfold log_parts. rewrite decode_encode.
    by exists cl; destruct cl.
  - intros doc b [= <-]. rewrite of_bits_bits. unfold doc_parts. rewrite decode_encode.
    by destruct doc.
Qed.

#[local] Existing Instances text_externals text_encoding text_encoding_laws.

Definition sample_doc (id : string) : Document.t :=
  Document.mk text_externals id 0 0 "default" "c" (Some "{}").

(** The store after one more document. *)
Definition and_doc (m : Mem.MemStore) (id : string) : Mem.MemStore :=
  match StoreDocument (sample_doc id) m with Returns (_, m) => m | Panics _ => m end.
Definition store1 : Mem.MemStore := and_doc Mem.NewMemStore "1".
Definition store2 : Mem.MemStore := and_doc store1 "2".
Definition store3 : Mem.MemStore := and_doc store2 "3".

Lemma Document_store_fetch_witness :
  FetchDocument "1" "c" "default" store1 = Returns (Ok (Some (sample_doc "1")), store1) ∧
  FetchDocument "1" "c" "default" store2 = Returns (Ok (Some (sample_doc "1")), store2).
Proof.
  assert (E1 : StoreDocument (sample_doc "1") Mem.NewMemStore = Returns (None, store1)) by
    (vm_compute; reflexivity).
  assert (E2 : StoreDocument (sample_doc "2") store1 = Returns (None, store2)) by
    (vm_compute; reflexivity).
  destruct (Document_store_fetch (SL := Mem_laws) Mem.NewMemStore store1 (sample_doc "1")
    NewTree_wf E1) as (F1 & F2 & _).
  split; [exact F1|]. by apply (F2 (sample_doc "2") None store2 E2).
Defined.

Lemma store3_wf : tree_wf store3.
Proof.
  unfold store3, store2, store1, and_doc.
  repeat match goal with
  | |- tree_wf (match StoreDocument ?d ?m with _ => _ end) =>
    let H := fresh in assert (H : tree_wf m); [|
      destruct (StoreDocument d m) as [[err m']|] eqn:E; [|exact H];
      by destruct (StoreDocument_ok (SL := Mem_laws) m d err m' H E)]
  end. apply NewTree_wf.
Qed.

(** A limit of two answers the first and the third document. *)
Lemma FetchDocuments_window_witness :
  FetchDocuments "c" "default" 2 0 store3 =
    Returns (Ok (Some [sample_doc "1"; sample_doc "3"]), store3).
Proof.
  rewrite (FetchDocuments_window (SL := Mem_laws) store3 "c" "default" 2 0
    (filter (λ e, HasPrefix e.1 (docKey "" "c" "default") = true) (tree_list store3))
    [sample_doc "1"; sample_doc "2"; sample_doc "3"]); [done|apply store3_wf|done| |].
  - apply Mem_lists, store3_wf.
  - vm_compute. by repeat constructor.
Defined.

Definition sample_log : ChangeLog string :=
  MkChangeLog "1" "add_namespace" "default" "default" (Some "ns") 1.

Definition no_file : @File.FileStore map_bolt := @File.MkFile map_bolt ∅ false false.
Definition log_file : @File.FileStore map_bolt :=
  match StoreChangeLog sample_log no_file with Returns (_, f) => f | Panics _ => no_file end.

Lemma ChangeLogs_read_back_witness :
  StoreChangeLog sample_log no_file = Returns (None, log_file) ∧
  FetchChangeLogs log_file = Returns (Ok (Some [sample_log]), log_file).
Proof.
  destruct (ChangeLogs_read_back (B := map_bolt)) as (_ & HF & _).
  assert (E1 : StoreChangeLog sample_log no_file = Returns (None, log_file)) by
    (vm_compute; reflexivity).
  split; [exact E1|]. rewrite (HF log_file (sorted_pairs (file_map log_file)) [sample_log]); [done| |].
  - split; [apply sorted_pairs_ok|]. intros k v. rewrite elem_of_amap by apply sorted_pairs_ok.
    rewrite (proj2 (sorted_pairs_ok _)). split; [|tauto]. intros Hk. split; [done|].
    change (file_map log_file) with (<["changelog/1" := bits_of (encode (log_parts sample_log))]>
      (∅ : gmap string string)) in Hk.
    apply lookup_insert_Some in Hk as [[<- _]|[_ Hk]]; [done|]. by rewrite lookup_empty in Hk.
  - vm_compute. by repeat constructor.
Defined.
