(* ===== verification/Scheduler.v ===== *)
(** * pkg/scheduler: periodic and one-shot tasks

    A task definition is shared by the map of tasks and the queue of jobs, so
    definitions live in a store.  A context is the boolean that says whether
    it was cancelled; a context made from a cancelled one is cancelled.  The
    scheduler's goroutine is live exactly while [running] is set; one round
    of its loop, after a tick, is the operation [tick], which runs under the
    mutex like every other one.  A task function only reports that it ran.

    Times are nanoseconds; a job's key is in microseconds.  Where both cases
    of the [select] are ready, Go picks one: [coin] decides. *)
From Stdlib Require Import ZArith Lia Sorting.Sorted.
From stdpp Require Import base gmap strings list fin_maps.
From S2P Require Import Prelude Heap Linker.

Definition ErrTaskAlreadyExists : error := "task already exists".
Definition ErrTaskNotFound : error := "task not found".
Definition ErrIntervalTimeoutBothSet : error := "only one of Interval or Timeout must be set".
Definition ErrIntervalTimeoutNoneSet : error := "either Interval or Timeout must be set".
Definition ErrTaskFuncNotSet : error := "TaskFunc must be set".
Definition ErrIntervalDurationTooShort : error :=
  "interval duration must be greater than 1 second".
Definition ErrTimeoutDurationTooShort : error :=
  "timeout duration must be greater than 1 second".
Definition ErrSchedulerRunning : error := "scheduler is already running".
Definition ErrSchedulerNotRunning : error := "scheduler is not running".

Definition Second : Z := 1000000000.

(** ** Data *)

Section code.
Context {Func : Type}.

Record TaskOptions : Type := MkTaskOptions {
  to_Interval : Z; to_Timeout : Z; to_Overwrite : bool; to_TaskFunc : option Func }.

Record TaskDefinition : Type := MkTask {
  td_Name : string; td_Func : Func; td_interval : Z; td_done : bool }.

Record Options : Type := MkOptions { o_Interval : Z; o_AutoRun : bool }.

Record scheduler : Type := MkScheduler {
  opts : Options;
  ctx_done : bool;
  tasks : gmap string loc;
  defs : gmap loc TaskDefinition;
  pendingJobs : Heap Z loc;
  running : bool }.

Abbreviation SC := (ST scheduler).

Definition with_running (s : scheduler) (b : bool) : scheduler :=
  MkScheduler (opts s) (ctx_done s) (tasks s) (defs s) (pendingJobs s) b.
Definition with_ctx (s : scheduler) (b : bool) : scheduler :=
  MkScheduler (opts s) b (tasks s) (defs s) (pendingJobs s) (running s).
Definition with_tasks (s : scheduler) (m : gmap string loc) : scheduler :=
  MkScheduler (opts s) (ctx_done s) m (defs s) (pendingJobs s) (running s).
Definition with_defs (s : scheduler) (m : gmap loc TaskDefinition) : scheduler :=
  MkScheduler (opts s) (ctx_done s) (tasks s) m (pendingJobs s) (running s).
Definition with_jobs (s : scheduler) (h : Heap Z loc) : scheduler :=
  MkScheduler (opts s) (ctx_done s) (tasks s) (defs s) h (running s).

Definition modify (f : scheduler → scheduler) : SC unit := s ← st_get; st_put (f s).

(** A dereference of a [*TaskDefinition]. *)
Definition task_at (l : loc) : SC TaskDefinition :=
  s ← st_get;
  match defs s !! l with Some td => mret td | None => st_panic nil_deref end.

(** [taskDef.cancel()] *)
Definition cancel_task (l : loc) : SC unit :=
  td ← task_at l;
  modify (λ s, with_defs s
    (<[l := MkTask (td_Name td) (td_Func td) (td_interval td) true]> (defs s))).
Definition delete_task (name : string) : SC unit :=
  modify (λ s, with_tasks s (delete name (tasks s))).
Definition push_job (µs : Z) (l : loc) : SC unit :=
  s ← st_get; h ← st_lift (Push (pendingJobs s) µs l); st_put (with_jobs s h).
Definition pop_job : SC unit :=
  s ← st_get; '(h, _) ← st_lift (Pop (pendingJobs s)); st_put (with_jobs s h).

(** ** The code *)

Definition New (o : Options) : scheduler :=
  let o := if o_Interval o <=? 0 then MkOptions Second (o_AutoRun o) else o in
  MkScheduler o false ∅ ∅ (MkHeap MinHeapType []) false.

(** [context.WithCancel(s.ctx)]: cancelled if its parent is. *)
Definition start : SC unit := modify (λ s, with_running s true).

Definition Start : SC (option error) :=
  s ← st_get;
  if running s then mret (Some ErrSchedulerRunning) else _ ← start; mret None.

Definition Running : SC bool := s ← st_get; mret (running s).

Definition Stop : SC unit :=
  s ← st_get; if negb (running s) then mret tt else modify (λ s, with_ctx s true).

(** [*td, ok]: a missing task is a nil pointer. *)
Definition GetTask (taskId : string) : SC (TaskDefinition * bool) :=
  s ← st_get;
  let td := default nil (tasks s !! taskId) in
  let ok := bool_decide (is_Some (tasks s !! taskId)) in
  td ← task_at td; mret (td, ok).

Definition stopTask (name : string) : SC (option error) :=
  s ← st_get;
  match tasks s !! name with
  | None => mret (Some ErrTaskNotFound)
  | Some taskDef => _ ← cancel_task taskDef; _ ← delete_task name; mret None
  end.
Definition StopTask : string → SC (option error) := stopTask.

Definition TotalTasks : SC Z := s ← st_get; mret (Z.of_nat (size (tasks s))).

(** [Time.UnixMicro] *)
Definition UnixMicro (ns : Z) : Z := ns / 1000.

Definition ScheduleTask (now : Z) (name : string) (o : TaskOptions) : SC (option error) :=
  s ← st_get;
  ready ← (if negb (running s) then
             if negb (o_AutoRun (opts s)) then mret (Some ErrSchedulerNotRunning)
             else _ ← start; mret None
           else mret None);
  match ready with
  | Some err => mret (Some err)
  | None =>
    exists_ ← (if bool_decide (is_Some (tasks s !! name)) then
                 if negb (to_Overwrite o) then mret (Some ErrTaskAlreadyExists)
                 else _ ← stopTask name; mret None
               else mret None);
    match exists_ with
    | Some err => mret (Some err)
    | None =>
      if (to_Interval o =? 0) && (to_Timeout o =? 0) then mret (Some ErrIntervalTimeoutNoneSet)
      else if negb (to_Interval o =? 0) && negb (to_Timeout o =? 0) then
        mret (Some ErrIntervalTimeoutBothSet)
      else if (0 <? to_Interval o) && (to_Interval o <? o_Interval (opts s)) then
        mret (Some ErrIntervalDurationTooShort)
      else if (0 <? to_Timeout o) && (to_Timeout o <? o_Interval (opts s)) then
        mret (Some ErrTimeoutDurationTooShort)
      else
      match to_TaskFunc o with
      | None => mret (Some ErrTaskFuncNotSet)
      | Some fn =>
        s ← st_get;
        let l := fresh ({[nil]} ∪ dom (defs s) : gset loc) in
        _ ← modify (λ s, with_defs s (<[l := MkTask name fn (to_Interval o) false]> (defs s)));
        _ ← modify (λ s, with_tasks s (<[name := l]> (tasks s)));
        let µs := UnixMicro (now + to_Interval o) in
        let µs := if 0 <? to_Timeout o then UnixMicro (now + to_Timeout o) else µs in
        _ ← push_job µs l;
        mret None
      end
    end
  end.

(** The task runs, then the deferred function; a panic of the task is
    recovered. *)
Definition executeTask (tdt : Z) (l : loc) : SC unit :=
  taskDef ← task_at l;
  if td_interval taskDef <=? 0 then
    _ ← cancel_task l; delete_task (td_Name taskDef)
  else push_job (UnixMicro (tdt + td_interval taskDef)) l.

(** One round of the goroutine's loop: the names of the tasks run with their
    due times, and whether the goroutine ends. *)
Fixpoint tick_loop (fuel : nat) (coin : nat → bool) (now : Z) : SC (list (string * Z) * bool) :=
  match fuel with
  | O => st_panic "out of fuel"
  | S fuel =>
    s ← st_get;
    let '(taskDefTime, l, ok) := Peak (pendingJobs s) in
    if negb ok then mret ([], false) else
    taskDef ← task_at l;
    if ctx_done s && (negb (td_done taskDef) || coin fuel) then
      _ ← modify (λ s, with_running s false); mret ([], true)
    else if td_done taskDef then
      _ ← delete_task (td_Name taskDef); _ ← pop_job; tick_loop fuel coin now
    else
      let tdt := taskDefTime * 1000 in
      if tdt <=? now then
        _ ← pop_job; _ ← executeTask tdt l;
        '(ran, done_) ← tick_loop fuel coin now;
        mret ((td_Name taskDef, taskDefTime) :: ran, done_)
      else mret ([], false)
  end.

(** Fuel for the jobs that are due: each round removes a job or moves it at
    least a microsecond on. *)
Definition job_fuel (now : Z) (p : pair Z loc) : nat :=
  (1 + Z.to_nat (UnixMicro now - key p + 1))%nat.
Definition rounds (now : Z) (jobs : list (pair Z loc)) : nat :=
  S (foldr (λ p n, job_fuel now p + n) 0 jobs)%nat.

Definition tick (coin : nat → bool) (now : Z) : SC (list (string * Z) * bool) :=
  s ← st_get;
  if running s then tick_loop (rounds now (data (pendingJobs s))) coin now
  else mret ([], false).

End code.

(** ** The invariant *)

Section proofs.
Context {Func : Type}.
Implicit Types (s : @scheduler Func) (l : loc) (td : @TaskDefinition Func).

(** Jobs refer to distinct definitions, and a task of the map is live and has
    its name. *)
Record sched_wf s : Prop := {
  sw_opts : 1000 ≤ o_Interval (opts s);
  sw_heap : heap_wf (pendingJobs s);
  sw_type : heapType (pendingJobs s) = MinHeapType;
  sw_nil : defs s !! nil = None;
  sw_jobs : ∀ p, p ∈ data (pendingJobs s) → ∃ td, defs s !! val p = Some td ∧
    (td_interval td ≤ 0 ∨ 1000 ≤ td_interval td);
  sw_nodup : NoDup (val <$> data (pendingJobs s));
  sw_tasks : ∀ name l, tasks s !! name = Some l → ∃ td, defs s !! l = Some td ∧
    td_Name td = name ∧ td_done td = false }.

Lemma New_wf o : o_Interval o ≤ 0 ∨ 1000 ≤ o_Interval o → sched_wf (@New Func o).
Proof.
  intros Ho. unfold New. destruct (Z.leb_spec (o_Interval o) 0) as [H0|H0]; split; cbn; try done.
  all: try (by intros ? ?%elem_of_nil). all: try constructor; try lia.
  all: by destruct (NewHeap_wf MinHeapType (MkHeap MinHeapType ([] : list (pair Z loc))) eq_refl).
Qed.

Lemma cancel_wf s l td : sched_wf s → defs s !! l = Some td →
  (∀ name, tasks s !! name ≠ Some l) →
  sched_wf (with_defs s (<[l := MkTask (td_Name td) (td_Func td) (td_interval td) true]> (defs s))).
Proof.
  intros [] Hl Hno. split; cbn; try done.
  - rewrite lookup_insert_ne; [done|]. intros ->. congruence.
  - intros p Hp. destruct (sw_jobs0 p Hp) as (td' & Hd & Hi).
    destruct (decide (l = val p)) as [->|Hne].
    + rewrite Hl in Hd. injection Hd as <-. eexists. by rewrite lookup_insert_eq.
    + exists td'. by rewrite lookup_insert_ne.
  - intros name l' Hl'. destruct (sw_tasks0 name l' Hl') as (td' & Hd & Hrest).
    exists td'. rewrite lookup_insert_ne; [done|]. intros <-. by apply (Hno name).
Qed.

Lemma delete_wf s name : sched_wf s → sched_wf (with_tasks s (delete name (tasks s))).
Proof.
  intros []. split; cbn; try done. intros name' l' Hl'. rewrite lookup_delete_Some in Hl'.
  destruct Hl' as [_ Hl']. by apply sw_tasks0.
Qed.

(** A task of the map is cancelled and removed at once. *)
Lemma drop_wf s l td : sched_wf s → defs s !! l = Some td →
  sched_wf (with_tasks (with_defs s
    (<[l := MkTask (td_Name td) (td_Func td) (td_interval td) true]> (defs s)))
    (delete (td_Name td) (tasks s))).
Proof.
  intros Hs Hl. refine (cancel_wf _ l td (delete_wf s (td_Name td) Hs) Hl _).
  intros name. cbn. rewrite lookup_delete_Some. intros [Hne Hn].
  destruct (sw_tasks s Hs name l Hn) as (td' & Hd & Hname & _). rewrite Hl in Hd. congruence.
Qed.

Lemma push_job_ok µs l td s : sched_wf s → defs s !! l = Some td →
  (td_interval td ≤ 0 ∨ 1000 ≤ td_interval td) → l ∉ val <$> data (pendingJobs s) →
  ∃ h, push_job µs l s = Returns (tt, with_jobs s h) ∧ sched_wf (with_jobs s h) ∧
    data h ≡ₚ Pair µs l :: data (pendingJobs s).
Proof.
  intros [] Hl Hi Hnin. destruct (heap_Push_ok (pendingJobs s) µs l sw_heap0) as (h & E & Hh & Ht & Hp).
  exists h. unfold push_job. st. rewrite E. split; [done|]. split; [|done]. split; cbn; try done.
  - by rewrite Ht.
  - intros p. rewrite Hp, elem_of_cons. intros [->|Hin]; [by exists td|by apply sw_jobs0].
  - rewrite Hp. by constructor.
Qed.

(** Taking the first job away. *)
Lemma pop_job_ok s k l : sched_wf s → Peak (pendingJobs s) = (k, l, true) →
  ∃ h, pop_job s = Returns (tt, with_jobs s h) ∧ sched_wf (with_jobs s h) ∧
    Pair k l :: data h ≡ₚ data (pendingJobs s) ∧
    ∀ p, p ∈ data (pendingJobs s) → k ≤ key p.
Proof.
  intros [] Hpk. destruct (heap_Pop_ok (pendingJobs s) sw_heap0) as (h & q & E & Hq & Hh & Ht & Hp).
  { intros Hnil. unfold Peak in Hpk. by rewrite Hnil in Hpk. }
  assert (q = Pair k l) as ->.
  { unfold Peak in Hpk. destruct (data (pendingJobs s)) as [|q' d]; [done|]. cbn in Hq.
    injection Hq as ->. destruct q. by injection Hpk as -> ->. }
  exists h. unfold pop_job. st. rewrite E. split; [done|]. cbn in Hp.
  assert (Hin : ∀ p, p ∈ data h → p ∈ data (pendingJobs s)).
  { intros p Hp'. rewrite <-Hp. apply elem_of_cons. by right. }
  split; [|split; [done|]].
  - split; cbn; try done.
    + by rewrite Ht.
    + intros p Hp'. by apply sw_jobs0, Hin.
    + rewrite <-Hp in sw_nodup0. by apply NoDup_cons in sw_nodup0 as [_ ?].
  - intros p Hp'. pose proof (root_above (pendingJobs s) (Pair k l) p sw_heap0 Hq Hp') as Hw.
    unfold above, wins in Hw. rewrite sw_type0 in Hw. cbn in Hw. unfold gltb, gcmp, ordered_Z in Hw.
    destruct (Z.compare_spec (key p) k); try done; lia.
Qed.

(** ** One round of the loop *)

Lemma rounds_perm now (l1 l2 : list (pair Z loc)) : l1 ≡ₚ l2 → rounds now l1 = rounds now l2.
Proof.
  intros Hp. unfold rounds. apply (f_equal S). induction Hp as [|p l l1 _ IH|p q l|l l1 l2 _ IH1 _ IH2]; cbn [foldr]; [done|..].
  - by rewrite IH.
  - lia.
  - congruence.
Qed.

Lemma task_at_ok s l td : defs s !! l = Some td → task_at l s = Returns (td, s).
Proof. intros Hl. unfold task_at. st. by rewrite Hl. Qed.

(** Executing the task of a job that was just popped. *)
Lemma executeTask_ok s t l td : sched_wf s → defs s !! l = Some td → td_done td = false →
  (td_interval td ≤ 0 ∨ 1000 ≤ td_interval td) → l ∉ val <$> data (pendingJobs s) →
  ∃ s', executeTask (t * 1000) l s = Returns (tt, s') ∧ sched_wf s' ∧
    ctx_done s' = ctx_done s ∧ running s' = running s ∧ opts s' = opts s ∧
    (∀ name, tasks s !! name = None → tasks s' !! name = None) ∧
    (∀ l', l' ≠ l → defs s' !! l' = defs s !! l') ∧
    (data (pendingJobs s') = data (pendingJobs s) ∨
     ∃ t', t < t' ∧ data (pendingJobs s') ≡ₚ Pair t' l :: data (pendingJobs s)).
Proof.
  intros Hs Hl Hlive Hi Hnin. unfold executeTask. st. rewrite (task_at_ok s l td) by done.
  destruct (Z.leb_spec (td_interval td) 0) as [H0|H0].
  - unfold cancel_task, delete_task, modify. st. rewrite (task_at_ok s l td) by done. st.
    eexists. split; [done|]. split; [by apply (drop_wf s l td)|]. do 3 (split; [done|]).
    split; [|split; [|by left]].
    + intros name Hn. cbn. by rewrite lookup_delete_None; right.
    + intros l' Hne. cbn. by rewrite lookup_insert_ne.
  - destruct (push_job_ok (UnixMicro (t * 1000 + td_interval td)) l td s) as (h & E & Hwf & Hp); try done.
    exists (with_jobs s h). split; [done|]. split; [done|]. do 3 (split; [done|]).
    split; [done|]. split; [done|]. right. eexists. split; [|exact Hp].
    unfold UnixMicro. apply Z.lt_le_trans with (t + 1); [lia|].
    apply Z.div_le_lower_bound; lia.
Qed.

(** What a round of the loop leaves of the state it started in. *)
Definition ticked now s (ran : list (string * Z)) s' : Prop :=
  sched_wf s' ∧ ctx_done s' = false ∧ running s' = running s ∧ opts s' = opts s ∧
  (∀ p, p ∈ data (pendingJobs s') → now < key p * 1000) ∧
  StronglySorted Z.le ran.*2 ∧ Forall (λ e, e.2 * 1000 ≤ now) ran ∧
  (∀ b, (∀ p, p ∈ data (pendingJobs s) → b ≤ key p) → Forall (λ e, b ≤ e.2) ran) ∧
  (∀ p td, p ∈ data (pendingJobs s) → defs s !! val p = Some td → td_done td = false →
     key p * 1000 ≤ now → (td_Name td, key p) ∈ ran) ∧
  (∀ name, tasks s !! name = None → tasks s' !! name = None).

Lemma ticked_nothing now s : sched_wf s → ctx_done s = false →
  (∀ p, p ∈ data (pendingJobs s) → now < key p * 1000) → ticked now s [] s.
Proof.
  intros Hs Hc Hno. do 4 (split; [done|]). split; [done|]. split; [constructor|].
  split; [constructor|]. split; [constructor|]. split; [|done].
  intros p td Hp _ _ Hdue. apply Hno in Hp. lia.
Qed.

(** A dropped job was not live. *)
Lemma ticked_drop now s s1 ran s' k l td : ticked now s1 ran s' →
  ctx_done s1 = ctx_done s → running s1 = running s → opts s1 = opts s → defs s1 = defs s →
  defs s !! l = Some td → td_done td = true →
  Pair k l :: data (pendingJobs s1) ≡ₚ data (pendingJobs s) →
  (∀ name, tasks s !! name = None → tasks s1 !! name = None) → ticked now s ran s'.
Proof.
  intros (H1 & H2 & H3 & H4 & H5 & H6 & H7 & H8 & H9 & H10) Hc Hr Ho Hd Hl Hdead Hp Ht.
  split; [done|]. split; [done|]. split; [congruence|]. split; [congruence|]. do 3 (split; [done|]).
  split; [|split].
  - intros b Hb. apply H8. intros p Hp'. apply Hb. rewrite <-Hp. apply elem_of_cons. by right.
  - intros p td' Hp' Hd' Hlive Hdue. rewrite <-Hp in Hp'. apply elem_of_cons in Hp' as [->|Hp'].
    + cbn in Hd'. congruence.
    + eapply H9; [done|by rewrite Hd|done|done].
  - intros name Hn. by apply H10, Ht.
Qed.

(** The task of the first job ran. *)
Lemma ticked_run now s s1 ran s' k l td : ticked now s1 ran s' → sched_wf s →
  ctx_done s1 = ctx_done s → running s1 = running s → opts s1 = opts s →
  defs s !! l = Some td → k * 1000 ≤ now →
  (∀ p, p ∈ data (pendingJobs s) → k ≤ key p) →
  (∀ l', l' ≠ l → defs s1 !! l' = defs s !! l') →
  (∀ name, tasks s !! name = None → tasks s1 !! name = None) →
  (∃ rest, Pair k l :: rest ≡ₚ data (pendingJobs s) ∧
     (data (pendingJobs s1) ≡ₚ rest ∨
      ∃ t', k < t' ∧ data (pendingJobs s1) ≡ₚ Pair t' l :: rest)) →
  ticked now s ((td_Name td, k) :: ran) s'.
Proof.
  intros (H1 & H2 & H3 & H4 & H5 & H6 & H7 & H8 & H9 & H10) Hs Hc Hr Ho Hl Hk Hmin Hd Ht
    (rest & Hp & Hrest).
  assert (Hin : ∀ p, p ∈ data (pendingJobs s1) → k ≤ key p).
  { intros p Hp'. destruct Hrest as [Hrest|(t' & Hlt & Hrest)]; rewrite Hrest in Hp'.
    - apply Hmin. rewrite <-Hp. apply elem_of_cons. by right.
    - apply elem_of_cons in Hp' as [->|Hp']; [cbn; lia|].
      apply Hmin. rewrite <-Hp. apply elem_of_cons. by right. }
  split; [done|]. split; [done|]. split; [congruence|]. split; [congruence|]. split; [done|].
  split; [|split; [by constructor|split; [|split]]].
  - cbn. constructor; [done|]. apply list.Forall_fmap. by apply H8.
  - intros b Hb. assert (b ≤ k) by (apply (Hb (Pair k l)); rewrite <-Hp; apply elem_of_cons; by left).
    constructor; [done|]. apply H8. intros p Hp'. apply Hin in Hp'. lia.
  - intros p td' Hp' Hd' Hlive Hdue. apply elem_of_cons. rewrite <-Hp in Hp'.
    apply elem_of_cons in Hp' as [->|Hp']; [left; cbn in *; congruence|]. right.
    pose proof (sw_nodup s Hs) as Hnd. rewrite <-Hp in Hnd. cbn in Hnd.
    apply NoDup_cons in Hnd as [Hnin _].
    assert (Hne : val p ≠ l) by (intros <-; apply Hnin; by apply list_elem_of_fmap_2).
    apply H9; [|by rewrite Hd|done|done].
    destruct Hrest as [Hrest|(t' & _ & Hrest)]; rewrite Hrest; [done|]. apply elem_of_cons. by right.
  - intros name Hn. by apply H10, Ht.
Qed.

Lemma Peak_none s k l : Peak (pendingJobs s) = (k, l, false) → data (pendingJobs s) = [].
Proof. unfold Peak. by destruct (data (pendingJobs s)) as [|[]]. Qed.

Lemma tick_loop_ok fuel coin now s : sched_wf s → ctx_done s = false →
  (rounds now (data (pendingJobs s)) ≤ fuel)%nat →
  ∃ ran s', tick_loop fuel coin now s = Returns ((ran, false), s') ∧ ticked now s ran s'.
Proof.
  revert s. induction fuel as [|fuel IH]; intros s Hs Hc Hfuel; [unfold rounds in Hfuel; lia|].
  cbn [tick_loop]. st. destruct (Peak (pendingJobs s)) as [[k l] ok] eqn:Hpk.
  destruct ok; cbn [negb].
  2:{ st. exists [], s. split; [done|]. apply ticked_nothing; [done..|].
      rewrite (Peak_none s k l Hpk). by intros p ?%elem_of_nil. }
  destruct (pop_job_ok s k l Hs Hpk) as (h & Epop & Hwf & Hp & Hmin).
  assert (Hin : Pair k l ∈ data (pendingJobs s)) by (rewrite <-Hp; apply elem_of_cons; by left).
  destruct (sw_jobs s Hs _ Hin) as (td & Hl & Hi). cbn in Hl.
  rewrite (rounds_perm now _ _ (symmetry Hp)) in Hfuel. unfold rounds in Hfuel. cbn [foldr] in Hfuel.
  unfold job_fuel at 1 in Hfuel. cbn [key] in Hfuel.
  st. rewrite (task_at_ok s l td) by done. rewrite Hc. cbn [andb].
  destruct (td_done td) eqn:Hdead.
  - pose proof (delete_wf s (td_Name td) Hs) as Hdel. unfold delete_task, modify. st.
    set (s0 := with_tasks s (delete (td_Name td) (tasks s))) in *.
    destruct (pop_job_ok s0 k l Hdel Hpk) as (h0 & Epop0 & Hwf0 & Hp0 & _). rewrite Epop0.
    destruct (IH (with_jobs s0 h0)) as (ran & s' & -> & Ht); [done|done| |].
    { cbn. rewrite (rounds_perm now (data h0) (data h)); [unfold rounds; lia|].
      apply (Permutation.Permutation_cons_inv (a := Pair k l)). etrans; [exact Hp0|done]. }
    exists ran, s'. split; [done|]. apply (ticked_drop now s _ ran s' k l td Ht); try done.
    intros name Hn. cbn. rewrite lookup_delete_None. by right.
  - destruct (Z.leb_spec (k * 1000) now) as [Hdue|Hdue].
    2:{ st. exists [], s. split; [done|]. apply ticked_nothing; [done..|].
        intros p Hp'. apply Hmin in Hp'. lia. }
    st. rewrite Epop.
    assert (Hnin : l ∉ val <$> data h).
    { pose proof (sw_nodup s Hs) as Hnd. rewrite <-Hp in Hnd. by apply NoDup_cons in Hnd as [? _]. }
    destruct (executeTask_ok (with_jobs s h) k l td) as (s1 & Ex & Hs1 & Hc1 & Hr1 & Ho1 & Ht1 & Hd1 & Hj1);
      [done..|].
    st. rewrite Ex. st. assert (Hk : k ≤ UnixMicro now) by (apply Z.div_le_lower_bound; lia).
    destruct (IH s1) as (ran & s' & -> & Ht); [done|by rewrite Hc1| |].
    { cbn in Hj1. destruct Hj1 as [->|(t' & Hlt & Hj)]; [unfold rounds; lia|].
      rewrite (rounds_perm now _ _ Hj). unfold rounds. cbn [foldr]. unfold job_fuel at 1.
      cbn [key]. lia. }
    do 2 eexists. split; [done|]. apply (ticked_run now s s1 ran s' k l td); try done.
    exists (data h). split; [done|]. destruct Hj1 as [->|Hj]; [by left|by right].
Qed.

(** ** Reachable schedulers *)

Inductive sched_step : @scheduler Func → @scheduler Func → Prop :=
  | step_Start s r s' : Start s = Returns (r, s') → sched_step s s'
  | step_Stop s r s' : Stop s = Returns (r, s') → sched_step s s'
  | step_ScheduleTask s now name o r s' :
      ScheduleTask now name o s = Returns (r, s') → sched_step s s'
  | step_StopTask s name r s' : StopTask name s = Returns (r, s') → sched_step s s'
  | step_tick s coin now r s' : tick coin now s = Returns (r, s') → sched_step s s'.

Inductive sched_reachable (o : Options) : @scheduler Func → Prop :=
  | sched_new : sched_reachable o (New o)
  | sched_next s s' : sched_reachable o s → sched_step s s' → sched_reachable o s'.

Lemma running_wf s b : sched_wf s → sched_wf (with_running s b).
Proof. by intros []; split. Qed.
Lemma ctx_wf s b : sched_wf s → sched_wf (with_ctx s b).
Proof. by intros []; split. Qed.

Lemma stopTask_wf name r s s' : sched_wf s → stopTask name s = Returns (r, s') →
  sched_wf s' ∧ ctx_done s' = ctx_done s ∧ opts s' = opts s.
Proof.
  intros Hs. unfold stopTask. st. destruct (tasks s !! name) as [l|] eqn:Hn.
  2:{ by intros [= <- <-]. }
  destruct (sw_tasks s Hs name l Hn) as (td & Hl & Hname & _).
  unfold cancel_task, delete_task, modify. st. rewrite (task_at_ok s l td) by done. st.
  intros [= <- <-]. split; [|done]. rewrite <-Hname. by apply drop_wf.
Qed.

(** The definition and the job of a new task. *)
Lemma new_task_wf µs name (fn : Func) i s : sched_wf s → (i ≤ 0 ∨ 1000 ≤ i) →
  let l := fresh ({[nil]} ∪ dom (defs s) : gset loc) in
  let s1 := with_tasks (with_defs s (<[l := MkTask name fn i false]> (defs s))) (<[name := l]> (tasks s)) in
  ∃ h, push_job µs l s1 = Returns (tt, with_jobs s1 h) ∧ sched_wf (with_jobs s1 h).
Proof.
  intros Hs Hi l s1. pose proof (is_fresh ({[nil]} ∪ dom (defs s) : gset loc)) as Hf. fold l in Hf.
  rewrite elem_of_union, elem_of_singleton, elem_of_dom in Hf.
  assert (Hnew : defs s !! l = None) by (apply eq_None_not_Some; tauto).
  assert (Hwf : sched_wf s1).
  { destruct Hs. split; cbn; try done.
    - rewrite lookup_insert_ne; [done|]. tauto.
    - intros p Hp. destruct (sw_jobs0 p Hp) as (td & Hd & Hi'). exists td.
      rewrite lookup_insert_ne; [done|]. intros Heq. by rewrite <-Heq, Hnew in Hd.
    - intros name' l'. rewrite lookup_insert_Some. intros [[<- <-]|[Hne Hl']].
      + eexists. by rewrite lookup_insert_eq.
      + destruct (sw_tasks0 name' l' Hl') as (td & Hd & Hrest). exists td.
        rewrite lookup_insert_ne; [done|]. intros Heq. by rewrite <-Heq, Hnew in Hd. }
  destruct (push_job_ok µs l (MkTask name fn i false) s1 Hwf) as (h & E & Hh & _).
  - cbn. by rewrite lookup_insert_eq.
  - done.
  - cbn. intros (p & Hv & Hp)%list_elem_of_fmap. destruct (sw_jobs s Hs p Hp) as (td & Hd & _).
    by rewrite <-Hv, Hnew in Hd.
  - by exists h.
Qed.

Lemma ScheduleTask_wf now name o r s s' : sched_wf s → ScheduleTask now name o s = Returns (r, s') →
  sched_wf s' ∧ ctx_done s' = ctx_done s.
Proof.
  intros Hs. unfold ScheduleTask. st.
  assert (H1 : ∀ s0, sched_wf s0 → ∀ r1 s1,
    (if bool_decide (is_Some (tasks s !! name)) then
       if negb (to_Overwrite o) then mret (Some ErrTaskAlreadyExists)
       else _ ← stopTask name; mret None
     else mret None : ST scheduler (option error)) s0 = Returns (r1, s1) →
    sched_wf s1 ∧ ctx_done s1 = ctx_done s0 ∧ opts s1 = opts s0).
  { intros s0 Hs0 r1 s1. case_bool_decide; [|by intros [= <- <-]].
    destruct (to_Overwrite o); cbn [negb]; [|by intros [= <- <-]]. st.
    destruct (stopTask name s0) as [[x s2]|] eqn:Est; [|done]. st. intros [= <- <-].
    by eapply stopTask_wf. }
  assert (H2 : ∀ s0 err s1, (if negb (running s) then
      if negb (o_AutoRun (opts s)) then mret (Some ErrSchedulerNotRunning) else _ ← start; mret None
      else mret None : ST scheduler (option error)) s0 = Returns (err, s1) → sched_wf s0 →
      sched_wf s1 ∧ ctx_done s1 = ctx_done s0 ∧ opts s1 = opts s0).
  { intros s0 err s1. destruct (running s); cbn [negb]; [by intros [= <- <-]|].
    destruct (o_AutoRun (opts s)); cbn [negb]; [|by intros [= <- <-]].
    unfold start, modify. st. intros [= <- <-] Hs0. by split; [apply running_wf|]. }
  destruct ((if negb (running s) then _ else _ : ST scheduler (option error)) s) as [[err s1]|] eqn:E2;
    [|done]. destruct (H2 s err s1 E2 Hs) as (Hs1 & Hc1 & Ho1).
  destruct err as [err|]; [by intros [= <- <-]|]. st.
  destruct ((if bool_decide _ then _ else _ : ST scheduler (option error)) s1) as [[err s2]|] eqn:E1;
    [|done]. destruct (H1 s1 Hs1 err s2 E1) as (Hs2 & Hc2 & Ho2).
  destruct err as [err|]; [intros [= <- <-]; split; [done|congruence]|].
  assert (Hint : 1000 ≤ o_Interval (opts s)) by apply Hs.
  assert (Hdone : ∀ e, Returns (Some e, s2) = Returns (r, s') → sched_wf s' ∧ ctx_done s' = ctx_done s).
  { intros e [= <- <-]. split; [done|congruence]. }
  destruct ((to_Interval o =? 0) && (to_Timeout o =? 0)); [by apply Hdone|].
  destruct (negb (to_Interval o =? 0) && negb (to_Timeout o =? 0)); [by apply Hdone|].
  destruct ((0 <? to_Interval o) && (to_Interval o <? o_Interval (opts s))) eqn:Hi; [by apply Hdone|].
  destruct ((0 <? to_Timeout o) && (to_Timeout o <? o_Interval (opts s))); [by apply Hdone|].
  destruct (to_TaskFunc o) as [fn|]; [|by apply Hdone].
  st. unfold modify. st. set (µs := if 0 <? to_Timeout o then _ else _).
  destruct (new_task_wf µs name fn (to_Interval o) s2 Hs2) as (h & Ep & Hwf).
  { rewrite andb_false_iff, !Z.ltb_ge in Hi. lia. }
  cbn [tasks with_defs]. rewrite Ep. st. intros [= <- <-]. split; [exact Hwf|]. cbn. congruence.
Qed.

Lemma Start_wf s r s' : sched_wf s → Start s = Returns (r, s') →
  sched_wf s' ∧ ctx_done s' = ctx_done s.
Proof.
  intros Hs. unfold Start, start, modify. st. destruct (running s); st; intros [= <- <-]; [done|].
  split; [by apply running_wf|done].
Qed.

Lemma Stop_wf s r s' : sched_wf s → Stop s = Returns (r, s') →
  sched_wf s' ∧ (ctx_done s = true → ctx_done s' = true).
Proof.
  intros Hs. unfold Stop, modify. st. destruct (running s); cbn [negb]; st; intros [= <- <-];
    [split; [by apply ctx_wf|done]|done].
Qed.

(** Once the context is cancelled, a round of the loop runs nothing. *)
Lemma tick_loop_cancelled fuel coin now s : sched_wf s → ctx_done s = true →
  (length (data (pendingJobs s)) < fuel)%nat → ∃ d s',
  tick_loop fuel coin now s = Returns (([], d), s') ∧ sched_wf s' ∧ ctx_done s' = true.
Proof.
  revert s. induction fuel as [|fuel IH]; intros s Hs Hc Hfuel; [lia|].
  cbn [tick_loop]. st. destruct (Peak (pendingJobs s)) as [[k l] ok] eqn:Hpk.
  destruct ok; cbn [negb]; [|by exists false, s]. st.
  destruct (pop_job_ok s k l Hs Hpk) as (h0 & _ & _ & Hp & _).
  assert (Hin : Pair k l ∈ data (pendingJobs s)) by (rewrite <-Hp; apply elem_of_cons; by left).
  destruct (sw_jobs s Hs _ Hin) as (td & Hl & _). cbn in Hl. rewrite (task_at_ok s l td) by done.
  rewrite Hc. cbn [andb]. destruct (negb (td_done td) || coin fuel) eqn:Hcoin.
  { unfold modify. st. do 2 eexists. split; [done|]. split; [by apply running_wf|done]. }
  apply orb_false_iff in Hcoin as [Hdead _]. apply negb_false_iff in Hdead. rewrite Hdead.
  pose proof (delete_wf s (td_Name td) Hs) as Hdel. unfold delete_task, modify. st.
  destruct (pop_job_ok _ k l Hdel Hpk) as (h & -> & Hwf & Hp' & _).
  apply IH; [done|done|]. cbn. apply Permutation_length in Hp'. cbn in Hp'. lia.
Qed.

Lemma rounds_length now jobs : (length jobs < rounds now jobs)%nat.
Proof.
  unfold rounds. induction jobs as [|p jobs IH]; cbn [foldr length]; [lia|].
  unfold job_fuel at 1. lia.
Qed.

(** A tick returns, whatever the context. *)
Lemma tick_ok coin now s : sched_wf s → ∃ ran d s', tick coin now s = Returns ((ran, d), s') ∧
  sched_wf s' ∧ ctx_done s' = ctx_done s.
Proof.
  intros Hs. unfold tick. st. destruct (running s); [|by exists [], false, s].
  destruct (ctx_done s) eqn:Hc.
  - destruct (tick_loop_cancelled (rounds now (data (pendingJobs s))) coin now s)
      as (d & s' & E & ?); [done..|apply rounds_length|]. by exists [], d, s'.
  - destruct (tick_loop_ok (rounds now (data (pendingJobs s))) coin now s)
      as (ran & s' & E & Ht); [done..|]. exists ran, false, s'. split; [done|].
    by destruct Ht as (? & ? & _).
Qed.

Lemma sched_step_wf s s' : sched_wf s → sched_step s s' →
  sched_wf s' ∧ (ctx_done s = true → ctx_done s' = true).
Proof.
  intros Hs Hstep. destruct Hstep as [s r s' E|s r s' E|s now name o r s' E|s name r s' E|s coin now r s' E].
  - destruct (Start_wf s r s' Hs E) as [? ->]. done.
  - by eapply Stop_wf.
  - destruct (ScheduleTask_wf now name o r s s' Hs E) as [? ->]. done.
  - destruct (stopTask_wf name r s s' Hs E) as (? & -> & _). done.
  - destruct (tick_ok coin now s Hs) as (ran & d & s1 & E1 & Hs1 & Hc1). rewrite E in E1.
    injection E1 as _ ->. by rewrite Hc1.
Qed.

Lemma sched_reachable_wf o s : o_Interval o ≤ 0 ∨ 1000 ≤ o_Interval o →
  sched_reachable o s → sched_wf s.
Proof.
  intros Ho. induction 1 as [|s s' _ IH Hstep]; [by apply New_wf|]. by destruct (sched_step_wf s s' IH Hstep).
Qed.

(** ** The properties *)

(** In every reachable scheduler whose interval is at least a microsecond,
    a tick returns; while the context is live it runs the live tasks whose
    time has come, every one of them, in the order of their times, and leaves
    no job that is due. *)
Theorem tick_runs_due o s coin now : o_Interval o ≤ 0 ∨ 1000 ≤ o_Interval o →
  sched_reachable o s → running s = true → ctx_done s = false →
  ∃ ran s', tick coin now s = Returns ((ran, false), s') ∧
    StronglySorted Z.le ran.*2 ∧ Forall (λ e, e.2 * 1000 ≤ now) ran ∧
    (∀ p td, p ∈ data (pendingJobs s) → defs s !! val p = Some td → td_done td = false →
       key p * 1000 ≤ now → (td_Name td, key p) ∈ ran) ∧
    (∀ p, p ∈ data (pendingJobs s') → now < key p * 1000).
Proof.
  intros Ho Hs Hr Hc. pose proof (sched_reachable_wf o s Ho Hs) as Hwf.
  destruct (tick_loop_ok (rounds now (data (pendingJobs s))) coin now s) as (ran & s' & E & Ht); [done..|].
  exists ran, s'. unfold tick. st. rewrite Hr. split; [done|].
  by destruct Ht as (_ & _ & _ & _ & ? & ? & ? & _ & ? & _).
Qed.

(** Further steps. *)
Inductive sched_steps : @scheduler Func → @scheduler Func → Prop :=
  | steps_refl s : sched_steps s s
  | steps_next s s1 s2 : sched_steps s s1 → sched_step s1 s2 → sched_steps s s2.

(** A scheduler that was stopped never runs a task again, whatever is
    done with it: [Start] derives the new context from the cancelled one, so
    the next tick ends the goroutine. *)
Theorem stopped_stays_stopped o s s1 coin now : o_Interval o ≤ 0 ∨ 1000 ≤ o_Interval o →
  sched_reachable o s → ctx_done s = true → sched_steps s s1 →
  ∃ d s2, tick coin now s1 = Returns (([], d), s2).
Proof.
  intros Ho Hs Hc Hsteps. pose proof (sched_reachable_wf o s Ho Hs) as Hwf.
  assert (H1 : sched_wf s1 ∧ ctx_done s1 = true).
  { clear Hs. induction Hsteps as [|s s1 s2 _ IH Hstep]; [done|]. destruct IH as [Hw Hc']; [done..|].
    destruct (sched_step_wf s1 s2 Hw Hstep) as [? Hk]. auto. }
  destruct H1 as [Hw1 Hc1]. unfold tick. st. destruct (running s1); [|by exists false, s1].
  destruct (tick_loop_cancelled (rounds now (data (pendingJobs s1))) coin now s1)
    as (d & s2 & E & _); [done..|apply rounds_length|]. by exists d, s2.
Qed.

(** When the first job belongs to a cancelled definition, as it does after
    its task was overwritten or stopped, the next tick removes the task of
    that name from the map, be it another, live definition: that task keeps
    running and can no longer be stopped. *)
Theorem stale_job_drops_task o s coin now k l td : o_Interval o ≤ 0 ∨ 1000 ≤ o_Interval o →
  sched_reachable o s → running s = true → ctx_done s = false →
  Peak (pendingJobs s) = (k, l, true) → defs s !! l = Some td → td_done td = true →
  ∃ ran s', tick coin now s = Returns ((ran, false), s') ∧ tasks s' !! td_Name td = None ∧
    StopTask (td_Name td) s' = Returns (Some ErrTaskNotFound, s').
Proof.
  intros Ho Hs Hr Hc Hpk Hl Hdead. pose proof (sched_reachable_wf o s Ho Hs) as Hwf.
  assert (Hgone : ∃ ran s', tick coin now s = Returns ((ran, false), s') ∧ tasks s' !! td_Name td = None).
  { unfold tick. st. rewrite Hr. unfold rounds. cbn [tick_loop]. st. rewrite Hpk. cbn [negb]. st.
    rewrite (task_at_ok s l td), Hc, Hdead by done. cbn [andb].
    pose proof (delete_wf s (td_Name td) Hwf) as Hdel. unfold delete_task, modify. st.
    destruct (pop_job_ok _ k l Hdel Hpk) as (h & -> & Hw & Hp & _).
    match goal with |- context [tick_loop ?n coin now ?s0] =>
      destruct (tick_loop_ok n coin now s0) as (ran & s' & -> & Ht) end; [done|done| |].
    - pose proof (rounds_perm now _ _ Hp) as Hrounds. unfold rounds in *. cbn [foldr] in Hrounds.
      unfold job_fuel at 1 in Hrounds. cbn [pendingJobs with_jobs with_tasks] in *. lia.
    - exists ran, s'. split; [done|]. destruct Ht as (_ & _ & _ & _ & _ & _ & _ & _ & _ & Ht).
      apply Ht. cbn. apply lookup_delete_eq. }
  destruct Hgone as (ran & s' & E & Hnone). exists ran, s'. split; [done|]. split; [done|].
  unfold StopTask, stopTask. st. by rewrite Hnone.
Qed.

End proofs.

(** ** Witnesses *)

Definition state_after {S A} (m : ST S A) (s : S) : S :=
  match m s with Returns (_, s') => s' | Panics _ => s end.

Definition second_options : Options := MkOptions Second true.
Definition once (timeout : Z) : @TaskOptions unit := MkTaskOptions 0 timeout true (Some tt).

(** A task in two seconds, which is then overwritten by one in five. *)
Definition sched1 : @scheduler unit := state_after (ScheduleTask 0 "t" (once (2 * Second))) (New second_options).
Definition sched2 : @scheduler unit := state_after (ScheduleTask 0 "t" (once (5 * Second))) sched1.

Lemma sched1_reachable : sched_reachable second_options sched1.
Proof.
  eapply sched_next; [apply sched_new|].
  apply (step_ScheduleTask _ 0 "t" (once (2 * Second)) None). vm_compute. reflexivity.
Qed.
Lemma sched2_reachable : sched_reachable second_options sched2.
Proof.
  eapply sched_next; [apply sched1_reachable|].
  apply (step_ScheduleTask _ 0 "t" (once (5 * Second)) None). vm_compute. reflexivity.
Qed.

Lemma tick_runs_due_witness : ∃ s',
  tick (λ _, true) (3 * Second) sched1 = Returns (([("t", 2000000)], false), s').
Proof.
  destruct (tick_runs_due second_options sched1 (λ _, true) (3 * Second)) as (ran & s' & E & _);
    [by right|apply sched1_reachable|reflexivity|reflexivity|].
  exists s'. vm_compute in E. injection E as <- <-. vm_compute. reflexivity.
Defined.

(** Started again after a stop, the scheduler does not run its task. *)
Definition sched_stopped : @scheduler unit := state_after Stop sched1.

Lemma stopped_stays_stopped_witness :
  running sched_stopped = true ∧
  ∃ d s', tick (λ _, true) (3 * Second) sched_stopped = Returns (([], d), s').
Proof.
  split; [reflexivity|].
  apply (stopped_stays_stopped second_options sched_stopped sched_stopped);
    [by right| |reflexivity|apply steps_refl].
  eapply sched_next; [apply sched1_reachable|]. apply (step_Stop _ tt). vm_compute. reflexivity.
Defined.

(** The overwriting task is lost by the first tick, and runs all the same. *)
Lemma stale_job_drops_task_witness : ∃ s1 s2,
  tick (λ _, true) Second sched2 = Returns (([], false), s1) ∧
  StopTask "t" s1 = Returns (Some ErrTaskNotFound, s1) ∧
  tick (λ _, true) (6 * Second) s1 = Returns (([("t", 5000000)], false), s2).
Proof.
  destruct (stale_job_drops_task second_options sched2 (λ _, true) Second 2000000 1%N
    (MkTask "t" tt 0 true)) as (ran & s1 & E & _ & Est);
    [by right|apply sched2_reachable|reflexivity..|].
  exists s1. vm_compute in E. injection E as <- <-. eexists. split; [vm_compute; reflexivity|].
  split; [exact Est|]. vm_compute. reflexivity.
Defined.

(** Asking for a task that is not there dereferences a nil pointer. *)
Lemma GetTask_missing : GetTask "u" sched1 = Panics nil_deref.
Proof. vm_compute. reflexivity. Qed.
