(* ===== verification/Cache.v ===== *)
(** * pkg/cache: buckets of entries with expirations

    An entry is shared by the map of items and the queues, so entries live in
    a store.  A time is a count of nanoseconds, the zero time [None]; an
    operation reads the clock once, [now].  A bucket's operations run under
    its mutex.  The cache's scheduler runs [sweep] on each bucket. *)
From Stdlib Require Import ZArith Lia.
From stdpp Require Import base gmap strings list fin_maps.
From S2P Require Import Prelude Heap Linker Scheduler.

(** ** Data *)

Record BucketOptions : Type := MkBucketOptions { DefaultTTL : Z; MaxItems : Z }.

Section code.
Context {V : Type}.

Record cacheEntry : Type := MkEntry { ce_key : string; ce_value : V; ce_exp : option Z }.

Record bucketImpl : Type := MkBucket {
  b_name : string;
  b_opts : BucketOptions;
  b_items : gmap string loc;
  b_entries : gmap loc cacheEntry;
  ttlQueue : Heap Z loc;
  limitQueue : Heap Z loc }.

Abbreviation BK := (ST bucketImpl).

Definition with_items (b : bucketImpl) (m : gmap string loc) : bucketImpl :=
  MkBucket (b_name b) (b_opts b) m (b_entries b) (ttlQueue b) (limitQueue b).
Definition with_entries (b : bucketImpl) (m : gmap loc cacheEntry) : bucketImpl :=
  MkBucket (b_name b) (b_opts b) (b_items b) m (ttlQueue b) (limitQueue b).
Definition with_ttl (b : bucketImpl) (h : Heap Z loc) : bucketImpl :=
  MkBucket (b_name b) (b_opts b) (b_items b) (b_entries b) h (limitQueue b).
Definition with_limit (b : bucketImpl) (h : Heap Z loc) : bucketImpl :=
  MkBucket (b_name b) (b_opts b) (b_items b) (b_entries b) (ttlQueue b) h.

Definition change (f : bucketImpl → bucketImpl) : BK unit := b ← st_get; st_put (f b).

(** A dereference of a [*cacheEntry]. *)
Definition entry_at (l : loc) : BK cacheEntry :=
  b ← st_get;
  match b_entries b !! l with Some e => mret e | None => st_panic nil_deref end.
Definition set_entry (l : loc) (e : cacheEntry) : BK unit :=
  change (λ b, with_entries b (<[l := e]> (b_entries b))).
Definition drop_item (key : string) : BK unit :=
  change (λ b, with_items b (delete key (b_items b))).

Definition push_ttl (t : Z) (l : loc) : BK unit :=
  b ← st_get; h ← st_lift (Push (ttlQueue b) t l); st_put (with_ttl b h).
Definition push_limit (t : Z) (l : loc) : BK unit :=
  b ← st_get; h ← st_lift (Push (limitQueue b) t l); st_put (with_limit b h).
Definition pop_ttl : BK (Z * loc * bool) :=
  b ← st_get; '(h, r) ← st_lift (Pop (ttlQueue b)); _ ← st_put (with_ttl b h); mret r.
Definition pop_limit : BK (Z * loc * bool) :=
  b ← st_get; '(h, r) ← st_lift (Pop (limitQueue b)); _ ← st_put (with_limit b h); mret r.

(** [Time.UnixMilli]; of the zero time too. *)
Definition UnixMilli (t : option Z) : Z :=
  match t with Some ns => ns / 1000000 | None => -62135596800000 end.
(** [t.After(now)] *)
Definition After (t : option Z) (now : Z) : bool :=
  match t with Some ns => now <? ns | None => false end.

(** ** The code *)

Definition newBucket (name : string) (o : BucketOptions) : bucketImpl :=
  MkBucket name o ∅ ∅ (MkHeap MinHeapType []) (MkHeap MinHeapType []).

Definition inconsistent : string := "inconsistent state: no items in limit or ttl queue".

Definition Get (now : Z) (key : string) : BK (option V) :=
  b ← st_get;
  match b_items b !! key with
  | Some l =>
    v ← entry_at l;
    if bool_decide (ce_exp v ≠ None) && negb (After (ce_exp v) now) then mret None
    else mret (Some (ce_value v))
  | None => mret None
  end.

Definition Len : BK Z := b ← st_get; mret (Z.of_nat (size (b_items b))).

Definition SetWithTTL (now : Z) (key : string) (value : V) (ttl : Z) : BK unit :=
  b ← st_get;
  match b_items b !! key with
  | Some l =>
    v ← entry_at l;
    if 0 <? ttl then
      let exp := now + ttl in
      _ ← set_entry l (MkEntry (ce_key v) value (Some exp));
      push_ttl (UnixMilli (Some exp)) l
    else
      _ ← set_entry l (MkEntry (ce_key v) value None);
      push_limit (UnixMilli (Some now)) l
  | None =>
    _ ← (if (0 <? MaxItems (b_opts b)) && (MaxItems (b_opts b) <=? Z.of_nat (size (b_items b)))
         then
           '(_, ce, ok) ← pop_ttl;
           if (ok : bool) then ce ← entry_at ce; drop_item (ce_key ce)
           else
             '(_, ce, ok) ← pop_limit;
             if (ok : bool) then ce ← entry_at ce; drop_item (ce_key ce)
             else st_panic inconsistent
         else mret tt);
    b ← st_get;
    let l := fresh ({[nil]} ∪ dom (b_entries b) : gset loc) in
    let exp := if 0 <? ttl then Some (now + ttl) else None in
    _ ← set_entry l (MkEntry key value exp);
    _ ← (if 0 <? ttl then push_ttl (UnixMilli exp) l
         else if 0 <? MaxItems (b_opts b) then push_limit (UnixMilli (Some now)) l
         else mret tt);
    change (λ b, with_items b (<[key := l]> (b_items b)))
  end.

Definition Set_ (now : Z) (key : string) (value : V) : BK unit :=
  b ← st_get; SetWithTTL now key value (DefaultTTL (b_opts b)).

Definition Delete (key : string) : BK bool :=
  b ← st_get;
  if bool_decide (is_Some (b_items b !! key)) then _ ← drop_item key; mret true else mret false.

(** The bucket's task: [for { ... ttlQueue.Peak() ... }]. *)
Fixpoint sweep_loop (fuel : nat) (now : Z) : BK unit :=
  match fuel with
  | O => st_panic "out of fuel"
  | S fuel =>
    b ← st_get;
    let '(t, l, ok) := Peak (ttlQueue b) in
    if negb ok then mret tt else
    v ← entry_at l;
    if negb (t =? UnixMilli (ce_exp v)) then _ ← pop_ttl; sweep_loop fuel now
    else if After (ce_exp v) now then mret tt
    else _ ← pop_ttl; _ ← drop_item (ce_key v); sweep_loop fuel now
  end.
(** Every round but the last pops a job. *)
Definition sweep (now : Z) : BK unit :=
  b ← st_get; sweep_loop (S (length (data (ttlQueue b)))) now.

(** What [Clear] does to a bucket. *)
Definition clear_bucket (b : bucketImpl) : bucketImpl :=
  MkBucket (b_name b) (b_opts b) ∅ (b_entries b) (MkHeap MinHeapType []) (MkHeap MinHeapType []).

(** *** The cache: buckets by name, and the scheduler of their tasks *)

Record cacheImpl : Type := MkCache {
  buckets : gmap string bucketImpl;
  sch : @scheduler string;
  c_interval : Z }.

Definition NewWithOpts (CheckInterval : Z) : cacheImpl :=
  MkCache ∅ (New (MkOptions CheckInterval true))
    (if CheckInterval =? 0 then Second * 5 else CheckInterval).
Definition NewCache : cacheImpl := NewWithOpts 0.

(** The result of [ScheduleTask] is dropped. *)
Definition BucketWithOpts (now : Z) (name : string) (o : BucketOptions) : ST cacheImpl bucketImpl :=
  c ← st_get;
  match buckets c !! name with
  | Some b => mret b
  | None =>
    '(_, s) ← st_lift (ScheduleTask now name (MkTaskOptions (c_interval c) 0 false (Some name)) (sch c));
    let b := newBucket name o in
    _ ← st_put (MkCache (<[name := b]> (buckets c)) s (c_interval c));
    mret b
  end.
Definition Bucket (now : Z) (name : string) : ST cacheImpl bucketImpl :=
  BucketWithOpts now name (MkBucketOptions 0 0).

Definition ClearCache : ST cacheImpl unit :=
  c ← st_get; st_put (MkCache (clear_bucket <$> buckets c) (sch c) (c_interval c)).

(** An operation on the bucket of a name. *)
Definition in_bucket {A} (name : string) (m : BK A) : ST cacheImpl A := λ c,
  match buckets c !! name with
  | None => Panics nil_deref
  | Some b =>
    match m b with
    | Returns (a, b) => Returns (a, MkCache (<[name := b]> (buckets c)) (sch c) (c_interval c))
    | Panics e => Panics e
    end
  end.

(** A tick of the scheduler and the sweeps it runs. *)
Fixpoint sweep_all (now : Z) (names : list string) : ST cacheImpl unit :=
  match names with
  | [] => mret tt
  | name :: names => _ ← in_bucket name (sweep now); sweep_all now names
  end.
Definition cache_tick (coin : nat → bool) (now : Z) : ST cacheImpl unit :=
  c ← st_get;
  '((ran, _), s) ← st_lift (tick coin now (sch c));
  _ ← st_put (MkCache (buckets c) s (c_interval c));
  sweep_all now ran.*1.

End code.

(** ** The invariant of a bucket *)

Section proofs.
Context {V : Type}.
Implicit Types (b : @bucketImpl V) (l : loc) (e : @cacheEntry V).

Definition queue_ok (m : gmap loc (@cacheEntry V)) (h : Heap Z loc) : Prop :=
  heap_wf h ∧ heapType h = MinHeapType ∧ ∀ p, p ∈ data h → is_Some (m !! val p).

(** Where an item's entry must be queued: with its time if it expires, and
    in a limited bucket always. *)
Definition queued b l e : Prop :=
  match ce_exp e with
  | Some x => Pair (UnixMilli (Some x)) l ∈ data (ttlQueue b)
  | None => 0 < MaxItems (b_opts b) → ∃ t, Pair t l ∈ data (limitQueue b)
  end.

Record bucket_inv b : Prop := {
  bi_ttl : queue_ok (b_entries b) (ttlQueue b);
  bi_limit : queue_ok (b_entries b) (limitQueue b);
  bi_items : ∀ k l, b_items b !! k = Some l → ∃ e, b_entries b !! l = Some e ∧ ce_key e = k ∧
    queued b l e }.

Lemma empty_queue m : queue_ok m (MkHeap MinHeapType []).
Proof.
  destruct (NewHeap_wf MinHeapType (MkHeap MinHeapType ([] : list (pair Z loc))) eq_refl) as [H _].
  split; [exact H|]. split; [done|]. by intros p ?%elem_of_nil.
Qed.

Lemma newBucket_inv name o : bucket_inv (newBucket name o).
Proof. split; [apply empty_queue..|done]. Qed.

Lemma clear_inv b : bucket_inv (clear_bucket b).
Proof. split; [apply empty_queue..|done]. Qed.

Lemma queue_mono m m' h : (∀ l, is_Some (m !! l) → is_Some (m' !! l)) → queue_ok m h → queue_ok m' h.
Proof. intros Hm (H1 & H2 & H3). split; [done|]. split; [done|]. auto. Qed.

Lemma queue_push m h t l : queue_ok m h → is_Some (m !! l) →
  ∃ h', Push h t l = Returns h' ∧ queue_ok m h' ∧ data h' ≡ₚ Pair t l :: data h.
Proof.
  intros (H1 & H2 & H3) Hl. destruct (heap_Push_ok h t l H1) as (h' & E & Hw & Ht & Hp).
  exists h'. split; [done|]. split; [|done]. split; [done|]. split; [congruence|].
  intros p. rewrite Hp, elem_of_cons. intros [->|Hin]; [done|by apply H3].
Qed.

Lemma queue_pop m h : queue_ok m h →
  (data h = [] ∧ Pop h = Returns (h, (0, nil, false)) ∧ Peak h = (0, nil, false)) ∨
  ∃ t l h', Pop h = Returns (h', (t, l, true)) ∧ Peak h = (t, l, true) ∧ queue_ok m h' ∧
    Pair t l :: data h' ≡ₚ data h ∧ is_Some (m !! l) ∧ ∀ p, p ∈ data h → t ≤ key p.
Proof.
  intros (H1 & H2 & H3). destruct (decide (data h = [])) as [Hn|Hne]; [left|right].
  { unfold Pop, Peak. by rewrite Hn. }
  destruct (heap_Pop_ok h H1 Hne) as (h' & [t l] & E & Hhd & Hw & Ht & Hp). exists t, l, h'.
  assert (Hin : ∀ p, p ∈ Pair t l :: data h' → is_Some (m !! val p)) by
    (intros p; rewrite Hp; apply H3).
  split; [exact E|]. split.
  { unfold Peak. destruct (data h); [done|]. by injection Hhd as ->. }
  split.
  { split; [done|]. split; [congruence|]. intros p Hp'. apply Hin, elem_of_cons. by right. }
  split; [done|]. split; [apply (Hin (Pair t l)), elem_of_cons; by left|].
  intros p Hp'. pose proof (root_above h (Pair t l) p H1 Hhd Hp') as Hab.
  unfold above, wins in Hab. rewrite H2 in Hab. cbn in Hab. unfold gltb, gcmp, ordered_Z in Hab.
  destruct (Z.compare_spec (key p) t); try done; lia.
Qed.

(** Dropping an item. *)
Lemma drop_inv b k : bucket_inv b → bucket_inv (with_items b (delete k (b_items b))).
Proof.
  intros []. split; [done..|]. intros k' l'. cbn. rewrite lookup_delete_Some. intros [_ Hk'].
  by apply bi_items0.
Qed.

(** A queue without a job of the entry [l], where every item's job that is not
    of [l] is left. *)
Lemma pop_ttl_inv b t l h : bucket_inv b → queue_ok (b_entries b) h →
  Pair t l :: data h ≡ₚ data (ttlQueue b) →
  (∀ k e, b_items b !! k = Some l → b_entries b !! l = Some e →
     ce_exp e = None ∨ t ≠ UnixMilli (ce_exp e)) →
  bucket_inv (with_ttl b h).
Proof.
  intros [] Hh Hp Hl. split; [done..|]. intros k l' Hk. destruct (bi_items0 k l' Hk) as (e & He & Hkey & Hq).
  exists e. split; [done|]. split; [done|]. unfold queued in *. cbn.
  destruct (ce_exp e) as [x|] eqn:Hx; [|done]. rewrite <-Hp in Hq.
  apply elem_of_cons in Hq as [[= <- ->]|Hq]; [|done].
  destruct (Hl k e Hk He) as [?|Hne]; [congruence|]. by rewrite Hx in Hne.
Qed.

Lemma pop_limit_inv b t l h : bucket_inv b → queue_ok (b_entries b) h →
  Pair t l :: data h ≡ₚ data (limitQueue b) → (∀ k, b_items b !! k ≠ Some l) →
  bucket_inv (with_limit b h).
Proof.
  intros [] Hh Hp Hl. split; [done..|]. intros k l' Hk. destruct (bi_items0 k l' Hk) as (e & He & Hkey & Hq).
  exists e. split; [done|]. split; [done|]. unfold queued in *. cbn.
  destruct (ce_exp e); [done|]. intros Hmax. destruct (Hq Hmax) as (t' & Ht'). exists t'.
  rewrite <-Hp in Ht'. apply elem_of_cons in Ht' as [[= -> ->]|?]; [by destruct (Hl k)|done].
Qed.

(** The fields of an updated bucket. *)
Ltac proj := cbn [ttlQueue limitQueue b_entries b_items b_opts with_ttl with_limit with_entries with_items].

Lemma entry_at_ok b l e : b_entries b !! l = Some e → entry_at l b = Returns (e, b).
Proof. intros Hl. unfold entry_at. st. by rewrite Hl. Qed.

(** After dropping the item of [l]'s key, no item is [l]. *)
Lemma drop_no_item b l e k : bucket_inv b → b_entries b !! l = Some e →
  delete (ce_key e) (b_items b) !! k ≠ Some l.
Proof.
  intros Hb He. rewrite lookup_delete_Some. intros [Hne Hk].
  destruct (bi_items b Hb k l Hk) as (e' & He' & Hkey & _). rewrite He in He'. congruence.
Qed.

(** *** Eviction *)

Definition evict : ST (@bucketImpl V) unit :=
  '(_, ce, ok) ← pop_ttl;
  if (ok : bool) then ce ← entry_at ce; drop_item (ce_key ce)
  else
    '(_, ce, ok) ← pop_limit;
    if (ok : bool) then ce ← entry_at ce; drop_item (ce_key ce)
    else st_panic inconsistent.

(** An item to evict is always queued. *)
Lemma evict_ok b : bucket_inv b → 0 < MaxItems (b_opts b) → b_items b ≠ ∅ →
  ∃ k b', evict b = Returns (tt, b') ∧ bucket_inv b' ∧ b_items b' = delete k (b_items b) ∧
    b_entries b' = b_entries b ∧ b_opts b' = b_opts b.
Proof.
  intros Hb Hmax Hne. unfold evict, pop_ttl. st.
  destruct (queue_pop _ _ (bi_ttl b Hb)) as [(Hn & -> & _)|(t & l & h & -> & _ & Hh & Hp & [e He] & _)].
  - st. replace (with_ttl b (ttlQueue b)) with b by by destruct b.
    unfold pop_limit. st.
    destruct (queue_pop _ _ (bi_limit b Hb)) as [(Hn' & -> & _)|(t & l & h & -> & _ & Hh & Hp & [e He] & _)].
    + exfalso. destruct (map_choose _ Hne) as (k & l & Hk).
      destruct (bi_items b Hb k l Hk) as (e & He & _ & Hq). unfold queued in Hq.
      destruct (ce_exp e); [by rewrite Hn in Hq; apply elem_of_nil in Hq|].
      destruct (Hq Hmax) as [t Ht]. rewrite Hn' in Ht. by apply elem_of_nil in Ht.
    + st. rewrite (entry_at_ok _ l e) by done. unfold drop_item, change. st.
      exists (ce_key e). eexists. split; [done|]. split; [|done].
      change (bucket_inv (with_limit (with_items b (delete (ce_key e) (b_items b))) h)).
      apply (pop_limit_inv _ t l h); try done.
      * by apply drop_inv.
      * intros k. by apply drop_no_item.
  - st. rewrite (entry_at_ok _ l e) by done. unfold drop_item, change. st.
    exists (ce_key e). eexists. split; [done|]. split; [|done].
    change (bucket_inv (with_ttl (with_items b (delete (ce_key e) (b_items b))) h)).
      apply (pop_ttl_inv _ t l h); try done.
    + by apply drop_inv.
    + intros k e' Hk. cbn in Hk. by apply drop_no_item in Hk.
Qed.

(** *** What a bucket answers *)

Definition view b (k : string) : option (@cacheEntry V) := b_items b !! k ≫= (b_entries b !!.).

(** An entry that has not expired. *)
Definition live (now : Z) (e : @cacheEntry V) : bool :=
  match ce_exp e with Some x => now <? x | None => true end.

Lemma Get_view now k b : bucket_inv b →
  Get now k b = Returns (e ← view b k; if live now e then Some (ce_value e) else None, b).
Proof.
  intros Hb. unfold Get, view. st. destruct (b_items b !! k) as [l|] eqn:Hk; [|done]. cbn.
  destruct (bi_items b Hb k l Hk) as (e & He & _). rewrite He. st.
  rewrite (entry_at_ok _ l e) by done. unfold live, After. cbn.
  destruct (ce_exp e) as [x|]; [|done]. cbn. by destruct (Z.ltb_spec now x).
Qed.

(** A write of the entry [l], whose job is queued. *)
Lemma put_inv b items l e ttl limit : bucket_inv b →
  queue_ok (<[l := e]> (b_entries b)) ttl → queue_ok (<[l := e]> (b_entries b)) limit →
  data (ttlQueue b) ⊆ data ttl → data (limitQueue b) ⊆ data limit →
  (∀ k l', items !! k = Some l' →
     (l' = l ∧ k = ce_key e) ∨ (l' ≠ l ∧ b_items b !! k = Some l')) →
  let b' := MkBucket (b_name b) (b_opts b) items (<[l := e]> (b_entries b)) ttl limit in
  queued b' l e → bucket_inv b'.
Proof.
  intros [] Ht Hlim Hst Hsl Hitems b' Hq. split; [done..|]. intros k l' Hk. cbn in Hk |- *.
  destruct (Hitems k l' Hk) as [[-> ->]|[Hne Hk']].
  - exists e. by rewrite lookup_insert_eq.
  - destruct (bi_items0 k l' Hk') as (e' & He' & Hkey & Hq'). exists e'.
    rewrite lookup_insert_ne by done. split; [done|]. split; [done|].
    unfold queued in *. cbn. destruct (ce_exp e'); [by apply Hst|].
    intros Hm. destruct (Hq' Hm) as [t Htl]. exists t. by apply Hsl.
Qed.

Lemma queue_insert m h l e : queue_ok m h → queue_ok (<[l := e]> m) h.
Proof.
  apply queue_mono. intros l' Hl'. destruct (decide (l = l')) as [->|];
    [by rewrite lookup_insert_eq|by rewrite lookup_insert_ne].
Qed.

Lemma push_cons (h h' : Heap Z loc) p : data h' ≡ₚ p :: data h → p ∈ data h' ∧ data h ⊆ data h'.
Proof. intros Hp. split; [|intros q Hq]; rewrite Hp, elem_of_cons; auto. Qed.

(** A job of the expiration [x] of the entry [e]. *)
Definition job_of b (p : pair Z loc) e (x : option Z) : Prop :=
  p ∈ data (ttlQueue b) ∧ b_entries b !! val p = Some e ∧ ce_exp e = x ∧ key p = UnixMilli x.

(** The keys and jobs that a write leaves, and the one it sets. *)
Definition set_effect b b' (k : string) (e : cacheEntry) (evicted : option string) : Prop :=
  bucket_inv b' ∧ b_opts b' = b_opts b ∧ view b' k = Some e ∧
  (∀ k', k' ≠ k → view b' k' = if decide (evicted = Some k') then None else view b k') ∧
  (evicted = None → ∀ p e' x, job_of b p e' x → b_items b !! k ≠ Some (val p) → job_of b' p e' x).

Definition expiry (now ttl : Z) : option Z := if 0 <? ttl then Some (now + ttl) else None.

(** Items of different keys have different entries. *)
Lemma items_inj b k k' l : bucket_inv b → b_items b !! k = Some l → b_items b !! k' = Some l → k = k'.
Proof.
  intros Hb Hk Hk'. destruct (bi_items b Hb _ _ Hk) as (e & He & <- & _).
  destruct (bi_items b Hb _ _ Hk') as (e' & He' & <- & _). congruence.
Qed.

Lemma put_effect b items l e ttl limit evicted : bucket_inv b →
  queue_ok (<[l := e]> (b_entries b)) ttl → queue_ok (<[l := e]> (b_entries b)) limit →
  data (ttlQueue b) ⊆ data ttl → data (limitQueue b) ⊆ data limit →
  let b' := MkBucket (b_name b) (b_opts b) items (<[l := e]> (b_entries b)) ttl limit in
  queued b' l e → items !! ce_key e = Some l →
  b_entries b !! l = None ∨ b_items b !! ce_key e = Some l → (∀ k, k ≠ ce_key e → b_items b !! k ≠ Some l) →
  (∀ k, k ≠ ce_key e → items !! k = if decide (evicted = Some k) then None else b_items b !! k) →
  set_effect b b' (ce_key e) e evicted.
Proof.
  intros Hb Ht Hlim Hst Hsl b' Hq Hk Hl Hfree Hothers.
  assert (Hcases : ∀ k l', items !! k = Some l' → (l' = l ∧ k = ce_key e) ∨ (l' ≠ l ∧ b_items b !! k = Some l')).
  { intros k l' Hk'. destruct (decide (k = ce_key e)) as [->|Hne]; [left; split; congruence|right].
    rewrite Hothers in Hk' by done. destruct (decide _); [done|].
    split; [|done]. intros ->. by destruct (Hfree k Hne). }
  split; [by apply put_inv|]. split; [done|]. unfold view. cbn. split.
  { rewrite Hk. cbn. by rewrite lookup_insert_eq. }
  split.
  - intros k Hne. rewrite (Hothers k Hne). destruct (decide _); [done|].
    destruct (b_items b !! k) as [l'|] eqn:Hk'; [|done]. cbn.
    rewrite lookup_insert_ne; [done|]. intros <-. by destruct (Hfree k Hne).
  - intros _ p e' x (Hin & Hp & ?) Hne. split; [by apply Hst|]. split; [|done]. cbn.
    rewrite lookup_insert_ne; [done|]. intros El. destruct Hl; congruence.
Qed.

Lemma update_ok b now k v ttl l : bucket_inv b → b_items b !! k = Some l →
  ∃ b', SetWithTTL now k v ttl b = Returns (tt, b') ∧
    set_effect b b' k (MkEntry k v (expiry now ttl)) None.
Proof.
  intros Hb Hk. destruct (bi_items b Hb k l Hk) as (e & He & Hkey & _).
  unfold SetWithTTL. st. rewrite Hk. st. rewrite (entry_at_ok b l e) by done. st. rewrite Hkey.
  set (e' := MkEntry k v (expiry now ttl)).
  assert (Hl : is_Some (<[l := e']> (b_entries b) !! l)) by by rewrite lookup_insert_eq.
  pose proof (queue_insert _ _ l e' (bi_ttl b Hb)) as Ht.
  pose proof (queue_insert _ _ l e' (bi_limit b Hb)) as Hlim.
  assert (Hfree : ∀ k', k' ≠ k → b_items b !! k' ≠ Some l).
  { intros k' Hne Hk'. destruct Hne. by apply (items_inj b k' k l). }
  unfold set_entry, change, push_ttl, push_limit. subst e'. unfold expiry in *.
  destruct (0 <? ttl) eqn:Httl; st; proj.
  - destruct (queue_push _ _ (UnixMilli (Some (now + ttl))) l Ht Hl) as (h & -> & Hh & Hp).
    apply push_cons in Hp as [Hin Hsub]. st. eexists. split; [done|].
    apply (put_effect b (b_items b) l (MkEntry k v (Some (now + ttl))) h (limitQueue b) None);
      try done. by right.
  - destruct (queue_push _ _ (UnixMilli (Some now)) l Hlim Hl) as (h & -> & Hh & Hp).
    apply push_cons in Hp as [Hin Hsub]. st. eexists. split; [done|].
    apply (put_effect b (b_items b) l (MkEntry k v None) (ttlQueue b) h None); try done; [|by right].
    intros _. by eexists.
Qed.

Lemma fresh_entry b : let l := fresh ({[nil]} ∪ dom (b_entries b) : gset loc) in
  b_entries b !! l = None.
Proof.
  cbv zeta. apply not_elem_of_dom. pose proof (is_fresh ({[nil]} ∪ dom (b_entries b) : gset loc)). set_solver.
Qed.

(** A new item, once there is room for it: the end of [SetWithTTL]. *)
Definition put_new (now : Z) (k : string) (v : V) (ttl : Z) : ST (@bucketImpl V) unit :=
  b ← st_get;
  let l := fresh ({[nil]} ∪ dom (b_entries b) : gset loc) in
  let exp := if 0 <? ttl then Some (now + ttl) else None in
  _ ← set_entry l (MkEntry k v exp);
  _ ← (if 0 <? ttl then push_ttl (UnixMilli exp) l
       else if 0 <? MaxItems (b_opts b) then push_limit (UnixMilli (Some now)) l
       else mret tt);
  change (λ b, with_items b (<[k := l]> (b_items b))).

Lemma put_new_ok b now k v ttl : bucket_inv b → b_items b !! k = None →
  ∃ b', put_new now k v ttl b = Returns (tt, b') ∧
    set_effect b b' k (MkEntry k v (expiry now ttl)) None.
Proof.
  intros Hb Hk. unfold put_new. pose proof (fresh_entry b) as Hfr. st. cbv zeta in Hfr |- *.
  set (l := fresh _) in *. clearbody l. fold (expiry now ttl).
  set (e' := MkEntry k v (expiry now ttl)).
  assert (Hl : is_Some (<[l := e']> (b_entries b) !! l)) by by rewrite lookup_insert_eq.
  pose proof (queue_insert _ _ l e' (bi_ttl b Hb)) as Ht.
  pose proof (queue_insert _ _ l e' (bi_limit b Hb)) as Hlim.
  assert (Hfree : ∀ k', b_items b !! k' ≠ Some l).
  { intros k' Hk'. destruct (bi_items b Hb k' l Hk') as (e & He & _). congruence. }
  unfold set_entry, change, push_ttl, push_limit. subst e'. unfold expiry in *.
  destruct (0 <? ttl) eqn:Httl; st; proj.
  - destruct (queue_push _ _ (UnixMilli (Some (now + ttl))) l Ht Hl) as (h & -> & Hh & Hp).
    apply push_cons in Hp as [Hin Hsub]. st. eexists. split; [done|].
    apply (put_effect b (<[k := l]> (b_items b)) l (MkEntry k v (Some (now + ttl))) h (limitQueue b) None);
      [done..|by rewrite lookup_insert_eq|by left|done|].
    intros k' Hne. by rewrite lookup_insert_ne.
  - destruct (0 <? MaxItems (b_opts b)) eqn:Hmax; st; proj.
    + destruct (queue_push _ _ (UnixMilli (Some now)) l Hlim Hl) as (h & -> & Hh & Hp).
      apply push_cons in Hp as [Hin Hsub]. st. eexists. split; [done|].
      apply (put_effect b (<[k := l]> (b_items b)) l (MkEntry k v None) (ttlQueue b) h None);
        [done..| |by rewrite lookup_insert_eq|by left|done|].
      { intros _. by eexists. } intros k' Hne. by rewrite lookup_insert_ne.
    + eexists. split; [done|].
      apply (put_effect b (<[k := l]> (b_items b)) l (MkEntry k v None) (ttlQueue b) (limitQueue b) None);
        [done..| |by rewrite lookup_insert_eq|by left|done|].
      { cbn. lia. } intros k' Hne. by rewrite lookup_insert_ne.
Qed.

(** Making room for the new item. *)
Lemma set_effect_evicted b0 b b' k e evicted : set_effect b b' k e None →
  evicted ≠ None → b_opts b = b_opts b0 → b_entries b = b_entries b0 →
  (∀ k', k' ≠ k → b_items b !! k' = if decide (evicted = Some k') then None else b_items b0 !! k') →
  set_effect b0 b' k e evicted.
Proof.
  intros (Hb' & Ho' & Hk' & Hview & Hjobs) Hev Ho Hent Hothers. split; [done|]. split; [congruence|].
  split; [done|]. split; [|done]. intros k' Hne. rewrite Hview by done. cbn. unfold view.
  rewrite Hothers, Hent by done. by destruct (decide (evicted = Some k')).
Qed.

(** The bucket is limited and full. *)
Definition full b : bool :=
  (0 <? MaxItems (b_opts b)) && (MaxItems (b_opts b) <=? Z.of_nat (size (b_items b))).

Lemma SetWithTTL_ok b now k v ttl : bucket_inv b →
  ∃ b' evicted, SetWithTTL now k v ttl b = Returns (tt, b') ∧
    set_effect b b' k (MkEntry k v (expiry now ttl)) evicted ∧
    (is_Some evicted → full b = true ∧ b_items b !! k = None).
Proof.
  intros Hb. destruct (b_items b !! k) as [l|] eqn:Hk.
  { destruct (update_ok b now k v ttl l Hb Hk) as (b' & E & H). exists b', None.
    split; [done|]. split; [done|]. by intros [? [=]]. }
  assert (E : SetWithTTL now k v ttl b =
    (_ ← (if full b then evict else mret tt); put_new now k v ttl) b).
  { unfold SetWithTTL. st. rewrite Hk. done. }
  rewrite E. clear E. destruct (full b) eqn:Hfull.
  - pose proof Hfull as Hfull'. apply andb_prop in Hfull' as [Hm Hlen].
    destruct (evict_ok b Hb) as (k' & b1 & Ev & Hb1 & Hit & Hent & Ho); [lia| |].
    { intros Hemp. rewrite Hemp, map_size_empty in Hlen. apply Z.leb_le in Hlen. lia. }
    destruct (put_new_ok b1 now k v ttl) as (b' & E & H); [done| |].
    { rewrite Hit. by rewrite lookup_delete_None; right. }
    exists b', (Some k'). st. rewrite Ev. st. split; [exact E|]. split; [|done].
    apply (set_effect_evicted b b1); [done..|]. intros k1 _. rewrite Hit.
    destruct (decide (Some k' = Some k1)) as [[= ->]|Hne];
      [by rewrite lookup_delete_eq|by rewrite lookup_delete_ne by congruence].
  - destruct (put_new_ok b now k v ttl) as (b' & E & H); [done..|].
    exists b', None. st. split; [exact E|]. split; [done|]. by intros [? [=]].
Qed.

(** *** The sweep *)

(** What a sweep does: it drops the items of keys whose entry, current or
    not, has a job, and has expired. *)
Definition swept (now : Z) b b' : Prop :=
  bucket_inv b' ∧ b_entries b' = b_entries b ∧ b_opts b' = b_opts b ∧
  (∀ k, b_items b' !! k = b_items b !! k ∨
    b_items b' !! k = None ∧ ∃ p e, job_of b p e (ce_exp e) ∧ ce_key e = k ∧ After (ce_exp e) now = false) ∧
  (∀ p e x, job_of b p e (Some x) → x / 1000000 < now / 1000000 → b_items b' !! ce_key e = None).

Lemma pop_ttl_ok b t l h : Pop (ttlQueue b) = Returns (h, (t, l, true)) →
  pop_ttl b = Returns ((t, l, true), with_ttl b h).
Proof. intros E. unfold pop_ttl. st. by rewrite E. Qed.

(** One job less. *)
Lemma swept_pop now b h b' t l : Pair t l :: data h ≡ₚ data (ttlQueue b) →
  (∀ e x, job_of b (Pair t l) e (Some x) → ¬ x / 1000000 < now / 1000000) →
  swept now (with_ttl b h) b' → swept now b b'.
Proof.
  intros Hp Hno (H1 & H2 & H3 & H4 & H5). split; [done|]. split; [done|]. split; [done|]. split.
  - intros k. destruct (H4 k) as [?|(? & p & e & Hj & ?)]; [by left|right]. split; [done|].
    exists p, e. split; [|done]. destruct Hj as (Hin & ?). split; [|done].
    rewrite <-Hp. apply elem_of_cons. by right.
  - intros p e x Hj Hx. destruct Hj as (Hin & Hl & He & Hk). rewrite <-Hp in Hin.
    apply elem_of_cons in Hin as [->|Hin].
    + destruct (Hno e x); [|done]. split; [|done]. rewrite <-Hp. apply elem_of_cons. by left.
    + by apply (H5 p e x).
Qed.

(** A job done. *)
Lemma swept_drop now b h b' t l e : Pair t l :: data h ≡ₚ data (ttlQueue b) →
  job_of b (Pair t l) e (ce_exp e) → After (ce_exp e) now = false →
  swept now (with_items (with_ttl b h) (delete (ce_key e) (b_items b))) b' → swept now b b'.
Proof.
  intros Hp Hjob Hexp (H1 & H2 & H3 & H4 & H5). split; [done|]. split; [done|]. split; [done|].
  assert (Hgone : b_items b' !! ce_key e = None).
  { destruct (H4 (ce_key e)) as [->|[? _]]; [|done]. cbn. apply lookup_delete_eq. }
  split.
  - intros k. destruct (decide (k = ce_key e)) as [->|Hne]; [right; split; [done|]; by exists (Pair t l), e|].
    destruct (H4 k) as [Hk|(? & p & e' & Hj & ?)]; [left|right].
    + rewrite Hk. cbn. by rewrite lookup_delete_ne.
    + split; [done|]. exists p, e'. split; [|done]. destruct Hj as (Hin & ?). split; [|done].
      rewrite <-Hp. apply elem_of_cons. by right.
  - intros p e' x Hj Hx. destruct Hj as (Hin & Hl & He & Hk). rewrite <-Hp in Hin.
    apply elem_of_cons in Hin as [->|Hin]; [|by apply (H5 p e' x)].
    destruct Hjob as (_ & Hl' & _). cbn in Hl, Hl'. congruence.
Qed.

Lemma sweep_loop_ok fuel now b : bucket_inv b → (length (data (ttlQueue b)) < fuel)%nat →
  ∃ b', sweep_loop fuel now b = Returns (tt, b') ∧ swept now b b'.
Proof.
  revert b. induction fuel as [|fuel IH]; intros b Hb Hfuel; [lia|]. cbn [sweep_loop]. st.
  assert (Hstop : (∀ p e x, job_of b p e (Some x) → ¬ x / 1000000 < now / 1000000) → swept now b b).
  { intros Hno. split; [done|]. split; [done|]. split; [done|]. split; [by left|].
    intros p e x Hj Hx. by destruct (Hno p e x Hj). }
  destruct (queue_pop _ _ (bi_ttl b Hb)) as [(Hn & _ & ->)|(t & l & h & Epop & -> & Hh & Hp & [e He] & Hmin)].
  { st. cbn [negb]. exists b. split; [done|]. apply Hstop. intros p e x [Hin _].
    rewrite Hn in Hin. by apply elem_of_nil in Hin. }
  cbn [negb]. st. rewrite (entry_at_ok b l e) by done. st.
  assert (Hlen : S (length (data h)) = length (data (ttlQueue b))).
  { apply Permutation.Permutation_length in Hp. exact Hp. }
  destruct (Z.eqb_spec t (UnixMilli (ce_exp e))) as [Ht|Ht]; cbn [negb].
  - assert (Hjob : job_of b (Pair t l) e (ce_exp e)).
    { split; [|done]. rewrite <-Hp. apply elem_of_cons. by left. }
    destruct (After (ce_exp e) now) eqn:Hexp; st.
    + exists b. split; [done|]. apply Hstop. intros p e' x (Hin & _ & _ & Hk).
      apply Hmin in Hin. unfold After in Hexp. destruct (ce_exp e) as [y|]; [|done].
      cbn in Ht, Hk. pose proof (Z.div_le_mono now y 1000000). lia.
    + rewrite (pop_ttl_ok b t l h) by done. st. unfold drop_item, change. st. proj.
      destruct (IH (with_items (with_ttl b h) (delete (ce_key e) (b_items b)))) as (b' & E & Hs); [|cbn; lia|].
      * change (bucket_inv (with_ttl (with_items b (delete (ce_key e) (b_items b))) h)).
        apply (pop_ttl_inv _ t l h); try done; [by apply drop_inv|].
        intros k e' Hk. cbn in Hk. by apply drop_no_item in Hk.
      * exists b'. split; [exact E|]. by apply (swept_drop now b h b' t l e).
  - st. rewrite (pop_ttl_ok b t l h) by done. st.
    destruct (IH (with_ttl b h)) as (b' & E & Hs); [|cbn; lia|].
    + apply (pop_ttl_inv _ t l h); try done. intros k e' _ He'. rewrite He in He'. right. congruence.
    + exists b'. split; [exact E|]. apply (swept_pop now b h b' t l); try done.
      intros e' x (_ & Hl & Hx & Hk). cbn in Hl, Hk. destruct Ht.
      rewrite He in Hl. injection Hl as <-. by rewrite Hk, Hx.
Qed.

Lemma sweep_ok now b : bucket_inv b → ∃ b', sweep now b = Returns (tt, b') ∧ swept now b b'.
Proof. intros Hb. unfold sweep. st. apply sweep_loop_ok; [done|lia]. Qed.

Lemma drop_ok k b : bucket_inv b → ∃ r b', Delete k b = Returns (r, b') ∧ bucket_inv b' ∧
  b' = with_items b (delete k (b_items b)).
Proof.
  intros Hb. unfold Delete, drop_item, change. st. case_bool_decide as Hk; st.
  - do 2 eexists. split; [done|]. split; [by apply drop_inv|done].
  - apply eq_None_not_Some in Hk. exists false, b. split; [done|]. split; [done|].
    rewrite delete_id by done. by destruct b.
Qed.

(** *** Reachable buckets *)

Inductive bucket_reachable (name : string) (o : BucketOptions) : @bucketImpl V → Prop :=
  | br_new : bucket_reachable name o (newBucket name o)
  | br_Set now k v ttl u b b' : bucket_reachable name o b →
      SetWithTTL now k v ttl b = Returns (u, b') → bucket_reachable name o b'
  | br_Delete k r b b' : bucket_reachable name o b → Delete k b = Returns (r, b') →
      bucket_reachable name o b'
  | br_sweep now u b b' : bucket_reachable name o b → sweep now b = Returns (u, b') →
      bucket_reachable name o b'
  | br_clear b : bucket_reachable name o b → bucket_reachable name o (clear_bucket b).

Lemma bucket_reachable_inv name o b : bucket_reachable name o b → bucket_inv b.
Proof.
  induction 1 as [|now k v ttl u b b' _ IH E|k r b b' _ IH E|now u b b' _ IH E|b _ IH].
  - apply newBucket_inv.
  - destruct (SetWithTTL_ok b now k v ttl IH) as (b1 & ev & E1 & H & _).
    rewrite E1 in E. injection E as <- <-. apply H.
  - destruct (drop_ok k b IH) as (r1 & b1 & E1 & H & _). rewrite E1 in E. by injection E as <- <-.
  - destruct (sweep_ok now b IH) as (b1 & E1 & H). rewrite E1 in E. injection E as <- <-. apply H.
  - apply clear_inv.
Qed.

(** On a bucket reached from a new one, a write returns: an item to evict
    is always found.  The value is then answered until it expires, if it
    does.  Every other key is answered as before, but for the one evicted,
    and there is one only if the bucket was full and the key was new. *)
Theorem SetWithTTL_then_Get name o b now k v ttl : bucket_reachable name o b →
  ∃ b' evicted, SetWithTTL now k v ttl b = Returns (tt, b') ∧
    (∀ t, Get t k b' = Returns (if (ttl <=? 0) || (t <? now + ttl) then Some v else None, b')) ∧
    (∀ t k', k' ≠ k → ∃ r, Get t k' b = Returns (r, b) ∧
       Get t k' b' = Returns (if decide (evicted = Some k') then None else r, b')) ∧
    (is_Some evicted → 0 < MaxItems (b_opts b) ≤ Z.of_nat (size (b_items b)) ∧ b_items b !! k = None).
Proof.
  intros Hr. pose proof (bucket_reachable_inv name o b Hr) as Hb.
  destruct (SetWithTTL_ok b now k v ttl Hb) as (b' & ev & E & (Hb' & _ & Hk & Hv & _) & Hev).
  exists b', ev. split; [exact E|]. split; [|split].
  - intros t. rewrite Get_view by done. rewrite Hk. cbn. unfold live, expiry. cbn.
    destruct (Z.ltb_spec 0 ttl); destruct (Z.leb_spec ttl 0); by try lia.
  - intros t k' Hne. eexists. rewrite !Get_view by done. split; [done|]. rewrite Hv by done.
    by destruct (decide (ev = Some k')).
  - intros Hs. destruct (Hev Hs) as [Hfull Hk0]. split; [|done]. unfold full in Hfull. lia.
Qed.

(** The sweep of a bucket reached from a new one ends, and afterwards no
    item is left that expired in an earlier millisecond.  A key that is not
    dropped is answered as before, and no key is dropped unless an entry of
    it, the current one or an older one, was queued and has expired. *)
Theorem sweep_drops_expired name o b now : bucket_reachable name o b →
  ∃ b', sweep now b = Returns (tt, b') ∧
    (∀ k e x, view b' k = Some e → ce_exp e = Some x → now / 1000000 ≤ x / 1000000) ∧
    (∀ k, view b' k = view b k ∨ view b' k = None ∧
       ∃ p e, job_of b p e (ce_exp e) ∧ ce_key e = k ∧ After (ce_exp e) now = false).
Proof.
  intros Hr. pose proof (bucket_reachable_inv name o b Hr) as Hb.
  destruct (sweep_ok now b Hb) as (b' & E & Hb' & Hent & Ho & Hcases & Hexp).
  exists b'. split; [exact E|]. unfold view. rewrite Hent. split.
  - intros k e x Hv Hx. destruct (b_items b' !! k) as [l|] eqn:Hk; [|done]. cbn in Hv.
    destruct (Z.le_gt_cases (now / 1000000) (x / 1000000)); [done|exfalso].
    destruct (Hcases k) as [Hkb|[? _]]; [|congruence]. rewrite Hk in Hkb. symmetry in Hkb.
    destruct (bi_items b Hb k l Hkb) as (e' & He' & Hkey & Hq). simplify_eq.
    unfold queued in Hq. rewrite Hx in Hq.
    rewrite (Hexp (Pair (UnixMilli (Some x)) l) e x) in Hk; [done|by split|lia].
  - intros k. destruct (Hcases k) as [->|[-> H]]; [by left|right]. done.
Qed.

(** A job stays queued when its item is deleted.  In a bucket without a
    limit, a key that is set with an expiration, deleted, and set again
    without one is dropped by the first sweep after the old expiration: the
    new value, which never expires, is lost. *)
Theorem stale_job_expires_early name o b t0 t1 t2 k v v' ttl : bucket_reachable name o b →
  MaxItems (b_opts b) ≤ 0 → 0 < ttl → (t0 + ttl) / 1000000 < t2 / 1000000 →
  ∃ b1 r b2 b3 b4, SetWithTTL t0 k v ttl b = Returns (tt, b1) ∧ Delete k b1 = Returns (r, b2) ∧
    SetWithTTL t1 k v' 0 b2 = Returns (tt, b3) ∧ (∀ t, Get t k b3 = Returns (Some v', b3)) ∧
    sweep t2 b3 = Returns (tt, b4) ∧ Get t2 k b4 = Returns (None, b4).
Proof.
  intros Hr Hmax Httl Ht2. pose proof (bucket_reachable_inv name o b Hr) as Hb.
  assert (Hnoev : ∀ b' ev (P : Prop), b_opts b' = b_opts b →
    (is_Some ev → full b' = true ∧ P) → ev = (None : option string)).
  { intros b' [k'|] P Ho Hev; [|done]. destruct Hev as [Hf _]; [done|].
    unfold full in Hf. rewrite Ho in Hf. lia. }
  destruct (SetWithTTL_ok b t0 k v ttl Hb) as (b1 & ev & E1 & (Hb1 & Ho1 & Hk1 & _) & Hev).
  destruct (drop_ok k b1 Hb1) as (r & b2 & E2 & Hb2 & Hd).
  destruct (SetWithTTL_ok b2 t1 k v' 0 Hb2) as (b3 & ev' & E3 & (Hb3 & Ho3 & Hk3 & _ & Hj) & Hev').
  destruct (sweep_ok t2 b3 Hb3) as (b4 & E4 & Hb4 & Hent & _ & _ & Hexp).
  exists b1, r, b2, b3, b4. split; [exact E1|]. split; [exact E2|]. split; [exact E3|].
  split; [intros t; rewrite Get_view by done; by rewrite Hk3|]. split; [exact E4|].
  rewrite Get_view by done. unfold view at 1 in Hk1.
  destruct (b_items b1 !! k) as [l|] eqn:Hl; [|done]. cbn in Hk1.
  assert (Hjob : job_of b1 (Pair (UnixMilli (Some (t0 + ttl))) l) (MkEntry k v (Some (t0 + ttl))) (Some (t0 + ttl))).
  { destruct (bi_items b1 Hb1 k l Hl) as (e & He & _ & Hq). rewrite Hk1 in He. injection He as <-.
    unfold expiry, queued in *. rewrite (proj2 (Z.ltb_lt 0 ttl)) in * by lia. cbn in Hq. by split. }
  assert (Hjob3 : job_of b3 (Pair (UnixMilli (Some (t0 + ttl))) l) (MkEntry k v (Some (t0 + ttl))) (Some (t0 + ttl))).
  { apply Hj; [|by rewrite Hd|rewrite Hd; cbn; by rewrite lookup_delete_eq].
    apply (Hnoev b2 _ (b_items b2 !! k = None)); [by rewrite Hd|done]. }
  pose proof (Hexp _ _ _ Hjob3 Ht2) as Hn. cbn [ce_key] in Hn. unfold view. by rewrite Hn.
Qed.

End proofs.

(** ** Witnesses *)

(** A bucket for one item, with an item that expires after a second. *)
Definition one_item : BucketOptions := MkBucketOptions 0 1.
Definition bucket1 : @bucketImpl Z :=
  state_after (SetWithTTL 0 "a" 1 Second) (newBucket "b" one_item).

Lemma bucket1_reachable : bucket_reachable "b" one_item bucket1.
Proof.
  eapply (br_Set "b" one_item 0 "a" 1 Second tt); [apply br_new|]. vm_compute. reflexivity.
Qed.

(** A second key evicts the first. *)
Lemma SetWithTTL_then_Get_witness : ∃ b',
  SetWithTTL 5 "b" 2 0 bucket1 = Returns (tt, b') ∧ Get 6 "b" b' = Returns (Some 2, b') ∧
  Get 6 "a" bucket1 = Returns (Some 1, bucket1) ∧ Get 6 "a" b' = Returns (None, b').
Proof.
  destruct (SetWithTTL_then_Get "b" one_item bucket1 5 "b" 2 0 bucket1_reachable)
    as (b' & ev & E & Hg & _). exists b'. split; [exact E|]. split; [exact (Hg 6)|].
  split; [vm_compute; reflexivity|]. vm_compute in E. injection E as <-. vm_compute. reflexivity.
Defined.

(** The sweep after two seconds drops the item. *)
Lemma sweep_drops_expired_witness : ∃ b',
  sweep (2 * Second) bucket1 = Returns (tt, b') ∧ view b' "a" = None.
Proof.
  destruct (sweep_drops_expired "b" one_item bucket1 (2 * Second) bucket1_reachable) as (b' & E & _).
  exists b'. split; [exact E|]. vm_compute in E. injection E as <-. vm_compute. reflexivity.
Defined.

Lemma stale_job_expires_early_witness : ∃ b3 b4 : @bucketImpl Z,
  Get 10 "k" b3 = Returns (Some 8, b3) ∧ sweep (2 * Second) b3 = Returns (tt, b4) ∧
  Get (2 * Second) "k" b4 = Returns (None, b4).
Proof.
  destruct (stale_job_expires_early "b" (MkBucketOptions 0 0) (newBucket "b" (MkBucketOptions 0 0))
    0 1 (2 * Second) "k" 7 8 Second) as (b1 & r & b2 & b3 & b4 & _ & _ & _ & Hg & E & Hn);
    [apply br_new|reflexivity..|].
  by exists b3, b4.
Defined.

(** A deleted item's job is evicted in place of an item: the limit of one
    item is exceeded. *)
Example limit_exceeded :
  match (_ ← SetWithTTL 0 "a" 1 0; _ ← Delete "a"; _ ← SetWithTTL 1 "b" 2 0;
         _ ← SetWithTTL 2 "c" 3 0; Len) (newBucket "b" one_item) with
  | Returns (n, _) => n = 2 | Panics _ => False end.
Proof. vm_compute. reflexivity. Qed.

(** Two caches' worth of calls: a bucket is created once, its sweep runs on a
    tick of the scheduler. *)
Example cache_sweeps :
  match (_ ← Bucket 0 "b"; _ ← in_bucket "b" (SetWithTTL 0 "a" 1 Second);
         _ ← cache_tick (λ _, true) (6 * Second); in_bucket "b" Len) (@NewCache Z) with
  | Returns (n, c) => n = 0 ∧ size (buckets c) = 1%nat | Panics _ => False end.
Proof. vm_compute. done. Qed.
