(* ===== verification/Compact.v ===== *)
(** * internal/proxy/change_log.go: compaction of change logs

    [compactChangeLogsRemoveList] drops change logs that a later one makes
    redundant.  A round scans the logs from the start; a redundant pair
    removes one or two logs and restarts the scan ([goto START]).  The loop
    is given one round per log and one more: [compact_ok] proves that enough.
    A replay of the logs over a map from keys to items is the reference. *)
From Stdlib Require Import ZArith Lia.
From stdpp Require Import base gmap strings list fin_maps sets.
From S2P Require Import Prelude SliceUtil Pattern Spec.

(** ** The code *)

Section code.
Context {Item : Type}.
Implicit Types (cl : ChangeLog Item) (logs : list (ChangeLog Item)).

Definition same_key (prevLog curLog : ChangeLog Item) : bool :=
  String.eqb (Name prevLog) (Name curLog) && String.eqb (Namespace prevLog) (Namespace curLog).

(** What the loop's body does with the previous log and the current one:
    nothing ([Keep]), or a restart without the first or without both. *)
Inductive verdict := Keep | DropPrev | DropBoth.

Definition check_pair (prevLog curLog : ChangeLog Item) : outcome verdict :=
  if IsNoop (Cmd prevLog) then mret DropPrev else
  r1 ← Command_Resource (Cmd prevLog); r2 ← Command_Resource (Cmd curLog);
  let commonResource := String.eqb r1 r2 in
  a1 ← Command_Action (Cmd prevLog);
  rule1 ← (if String.eqb a1 Add then
             a2 ← Command_Action (Cmd curLog);
             mret (String.eqb a2 Delete && commonResource && same_key prevLog curLog)
           else mret false);
  if (rule1 : bool) then mret DropBoth else
  a2 ← Command_Action (Cmd curLog);
  let commonAction := String.eqb a1 a2 in
  if String.eqb a1 Add && commonAction && commonResource && same_key prevLog curLog
  then mret DropPrev else mret Keep.

(** The [for] loop over [logs = before ++ prevLog ++ rest]; [None] at its
    end, and at a restart the logs to remove and the logs that are left. *)
Fixpoint scan (before : list (ChangeLog Item)) (prevLog : option (ChangeLog Item))
    (rest : list (ChangeLog Item))
    : outcome (option (list (ChangeLog Item) * list (ChangeLog Item))) :=
  match rest with
  | [] => mret None
  | curLog :: rest =>
    match prevLog with
    | None => scan before (Some curLog) rest
    | Some prev =>
      v ← check_pair prev curLog;
      match v with
      | DropPrev => mret (Some ([prev], before ++ curLog :: rest))
      | DropBoth => mret (Some ([prev; curLog], before ++ rest))
      | Keep => scan (before ++ [prev]) (Some curLog) rest
      end
    end
  end.

(** The rounds; the list of the removed logs and the logs left. *)
Fixpoint compact_loop (fuel : nat) (removeList logs : list (ChangeLog Item))
    : outcome (list (ChangeLog Item) * list (ChangeLog Item)) :=
  match fuel with
  | O => Panics "out of fuel"
  | S fuel =>
    r ← scan [] None logs;
    match r with
    | None => mret (removeList, logs)
    | Some (removed, logs) => compact_loop fuel (removeList ++ removed) logs
    end
  end.

Definition compact (logs : list (ChangeLog Item))
    : outcome (list (ChangeLog Item) * list (ChangeLog Item)) :=
  compact_loop (S (length logs)) [] logs.

Definition compactChangeLogsRemoveList (logs : list (ChangeLog Item))
    : outcome (list (ChangeLog Item)) :=
  '(removeList, _) ← compact logs; mret (SliceUnique removeList ID).

End code.

(** ** Commands *)

(** What a well-formed log does to the key of its resource. *)
Inductive effect := EAdd | EDelete.
#[export] Instance effect_dec : EqDecision effect.
Proof. solve_decision. Defined.

Section proofs.
Context {Item : Type}.
Implicit Types (cl p c : ChangeLog Item) (logs : list (ChangeLog Item)).

Definition log_key : Type := string * string * string.
Definition key_of cl (r : Resource) : log_key := (r, Namespace cl, Name cl).

(** The command is one that the code makes. *)
Definition command_ok cl : Prop :=
  Cmd cl = NoopCommand ∨ ∃ a r, (a = Add ∨ a = Delete) ∧
    r ∈ [Routes; Services; Namespaces; Modules; Domains; Collections; Documents; Secrets] ∧
    Cmd cl = newCommand a r.

(** The key and the effect of a log. *)
Definition meaning cl : option (log_key * effect) :=
  if IsNoop (Cmd cl) then None else
  match Command_Resource (Cmd cl), Command_Action (Cmd cl) with
  | Returns r, Returns a => Some (key_of cl r, if String.eqb a Add then EAdd else EDelete)
  | _, _ => None
  end.

(** Applying a log to the items present. *)
Definition apply_log (m : gmap log_key (option Item)) cl : gmap log_key (option Item) :=
  match meaning cl with
  | Some (k, EAdd) => <[k := cl_Item cl]> m
  | Some (k, EDelete) => delete k m
  | None => m
  end.
Definition replay (m : gmap log_key (option Item)) logs : gmap log_key (option Item) :=
  foldl apply_log m logs.

Lemma command_cases cl : command_ok cl →
  (Cmd cl = NoopCommand ∧ meaning cl = None) ∨
  IsNoop (Cmd cl) = false ∧ ∃ a r, Command_Resource (Cmd cl) = Returns r ∧
    Command_Action (Cmd cl) = Returns a ∧ (a = Add ∨ a = Delete) ∧
    meaning cl = Some (key_of cl r, if String.eqb a Add then EAdd else EDelete).
Proof.
  intros [Hn|(a & r & Ha & Hr & Hc)].
  - left. split; [done|]. unfold meaning. by rewrite Hn.
  - right. unfold meaning. rewrite Hc. clear Hc.
    destruct Ha as [-> | ->]; repeat (apply elem_of_cons in Hr as [->|Hr];
      [split; [reflexivity|]; do 2 eexists; split; [reflexivity|];
       split; [reflexivity|]; split; [auto|reflexivity]|]);
    by apply elem_of_nil in Hr.
Qed.

(** The verdict on two logs with valid commands. *)
Definition verdict_ok p c (v : verdict) : Prop :=
  match v with
  | DropPrev => meaning p = None ∨
      ∃ k, meaning p = Some (k, EAdd) ∧ meaning c = Some (k, EAdd)
  | DropBoth => ∃ k, meaning p = Some (k, EAdd) ∧ meaning c = Some (k, EDelete)
  | Keep => meaning p ≠ None ∧ ∀ k, meaning p = Some (k, EAdd) →
      meaning c ≠ Some (k, EAdd) ∧ meaning c ≠ Some (k, EDelete)
  end.

Lemma same_key_true p c r r' : same_key p c = true → String.eqb r r' = true →
  key_of p r = key_of c r'.
Proof.
  unfold same_key, key_of. intros [H1%String.eqb_eq H2%String.eqb_eq]%andb_prop H3%String.eqb_eq.
  congruence.
Qed.

Lemma same_key_false p c r r' : key_of p r = key_of c r' → same_key p c = true ∧ String.eqb r r' = true.
Proof. unfold same_key, key_of. intros [= -> -> ->]. by rewrite !String.eqb_refl. Qed.

Lemma check_pair_ok p c : command_ok p → command_ok c →
  ∃ v, check_pair p c = Returns v ∧ verdict_ok p c v.
Proof.
  intros Hp Hc. unfold check_pair.
  destruct (command_cases p Hp) as [[Hcmd Hm]|(Hn & a1 & r1 & Hr1 & Ha1 & Hadd1 & Hm1)].
  { rewrite Hcmd. cbn. exists DropPrev. by split; [|left]. }
  rewrite Hn, Hr1, Ha1. run.
  destruct (command_cases c Hc) as [[Hcmd Hm]|(Hn2 & a2 & r2 & Hr2 & Ha2 & Hadd2 & Hm2)].
  { rewrite Hcmd. cbn. exists Keep. split.
    - destruct Hadd1 as [-> | ->]; cbn; done.
    - split; [by rewrite Hm1|]. intros k _. by rewrite Hm. }
  rewrite Hr2, Ha2. cbn.
  destruct (same_key p c && String.eqb r1 r2) eqn:Hs.
  - apply andb_prop in Hs as [Hs Hr]. rewrite Hs, Hr.
    pose proof (same_key_true p c r1 r2 Hs Hr) as Hk.
    destruct Hadd1 as [-> | ->], Hadd2 as [-> | ->]; cbn in *; eexists; (split; [reflexivity|]); cbn.
    + right. exists (key_of p r1). by rewrite Hm1, Hm2, Hk.
    + exists (key_of p r1). by rewrite Hm1, Hm2, Hk.
    + split; [by rewrite Hm1|]. intros k. rewrite Hm1. done.
    + split; [by rewrite Hm1|]. intros k. rewrite Hm1. done.
  - exists Keep. split.
    + destruct Hadd1 as [-> | ->], Hadd2 as [-> | ->]; cbn;
        destruct (same_key p c), (String.eqb r1 r2); try done.
    + split; [by rewrite Hm1|]. intros k Hk.
      split; intros Hk'; rewrite Hm1 in Hk; rewrite Hm2 in Hk'; injection Hk as Hk _;
        injection Hk' as Hk' _; rewrite <-Hk in Hk'; symmetry in Hk';
        apply same_key_false in Hk' as [H1 H2]; by rewrite H1, H2 in Hs.
Qed.

(** *** One round *)

(** No two neighbours are redundant. *)
Definition irreducible logs : Prop :=
  ∀ l1 p c l2, logs = l1 ++ p :: c :: l2 → verdict_ok p c Keep.

(** A round's restart: [removed] is taken out of [logs]. *)
Inductive reduction : list (ChangeLog Item) → list (ChangeLog Item) → list (ChangeLog Item) → Prop :=
  | red_prev l1 p c l2 : verdict_ok p c DropPrev → reduction (l1 ++ p :: c :: l2) [p] (l1 ++ c :: l2)
  | red_both l1 p c l2 : verdict_ok p c DropBoth → reduction (l1 ++ p :: c :: l2) [p; c] (l1 ++ l2).

Lemma irreducible_snoc before p c :
  irreducible (before ++ [p]) → verdict_ok p c Keep → irreducible ((before ++ [p]) ++ [c]).
Proof.
  intros Hirr Hv l1 p' c' l2 E. destruct (decide (l2 = [])) as [->|Hne].
  - change (p' :: [c']) with ([p'] ++ [c']) in E. rewrite app_assoc in E.
    apply app_inj_tail in E as [E <-]. apply app_inj_tail in E as [_ <-]. done.
  - destruct (exists_last Hne) as (l3 & x & ->). apply (Hirr l1 p' c' l3).
    change (p' :: c' :: l3 ++ [x]) with ((p' :: c' :: l3) ++ [x]) in E.
    rewrite app_assoc in E. by apply app_inj_tail in E as [E _].
Qed.

Lemma scan_ok before prev rest : Forall command_ok (before ++ option_list prev ++ rest) →
  irreducible (before ++ option_list prev) → (prev = None → before = []) →
  ∃ r, scan before prev rest = Returns r ∧
    match r with
    | None => irreducible (before ++ option_list prev ++ rest)
    | Some (removed, logs) => reduction (before ++ option_list prev ++ rest) removed logs
    end.
Proof.
  revert before prev. induction rest as [|c rest IH]; intros before prev Hok Hirr Hprev; cbn [scan].
  { exists None. split; [done|]. by rewrite app_nil_r. }
  destruct prev as [p|]; cbn [option_list] in *.
  - assert (command_ok p ∧ command_ok c) as [Hp Hc].
    { rewrite Forall_app in Hok. destruct Hok as [_ Hok]. apply Forall_cons in Hok as [? Hok].
      by apply Forall_cons in Hok as [? _]. }
    destruct (check_pair_ok p c Hp Hc) as (v & -> & Hv). run. destruct v.
    + destruct (IH (before ++ [p]) (Some c)) as (r & Er & Hr); cbn [option_list] in *;
        rewrite <-?app_assoc in *; [done| |done|].
      { rewrite app_assoc. by apply irreducible_snoc. }
      exists r. split; [exact Er|]. destruct r as [[? ?]|]; exact Hr.
    + eexists. split; [reflexivity|]. cbn. by apply red_prev.
    + eexists. split; [reflexivity|]. cbn. by apply red_both.
  - rewrite (Hprev eq_refl) in *. cbn in *. apply (IH [] (Some c)); [done| |done].
    intros l1 p' c' l2 E. destruct l1 as [|? [|? l1]]; discriminate.
Qed.

Lemma reduction_shrinks logs removed kept : reduction logs removed kept →
  removed ++ kept ≡ₚ logs ∧ kept `sublist_of` logs ∧ (length kept < length logs)%nat.
Proof.
  intros [l1 p c l2 _|l1 p c l2 _]; cbn.
  - split; [by rewrite Permutation_middle|]. split.
    + apply sublist_app; [done|]. by apply sublist_cons.
    + rewrite !length_app. cbn. lia.
  - split; [by rewrite !Permutation_middle|]. split.
    + apply sublist_app; [done|]. by do 2 apply sublist_cons.
    + rewrite !length_app. cbn. lia.
Qed.

(** *** All rounds *)

(** Reflexive and transitive closure of [reduction]. *)
Inductive reductions : list (ChangeLog Item) → list (ChangeLog Item) → list (ChangeLog Item) → Prop :=
  | reds_nil logs : reductions logs [] logs
  | reds_step logs removed logs' removed' kept : reduction logs removed logs' →
      reductions logs' removed' kept → reductions logs (removed ++ removed') kept.

Lemma compact_loop_ok fuel removeList logs : Forall command_ok logs → (length logs < fuel)%nat →
  ∃ removed kept, compact_loop fuel removeList logs = Returns (removeList ++ removed, kept) ∧
    reductions logs removed kept ∧ irreducible kept.
Proof.
  revert removeList logs. induction fuel as [|fuel IH]; intros removeList logs Hok Hlen; [lia|].
  cbn [compact_loop]. destruct (scan_ok [] None logs) as (r & -> & Hr); [done| |done|].
  { intros l1 p c l2 E. destruct l1; discriminate. }
  run. destruct r as [[removed logs']|]; cbn in Hr.
  - destruct (reduction_shrinks _ _ _ Hr) as (_ & Hsub & Hlt).
    destruct (IH (removeList ++ removed) logs') as (removed' & kept & E & Hreds & Hirr); [|lia|].
    { apply list.Forall_forall. intros cl Hcl. apply (proj1 (list.Forall_forall _ _) Hok).
      by apply (elem_of_sublist logs' logs). }
    exists (removed ++ removed'), kept. rewrite app_assoc. split; [done|]. split; [|done].
    by apply (reds_step logs removed logs').
  - exists [], logs. rewrite app_nil_r. split; [done|]. split; [constructor|done].
Qed.

Lemma reductions_part logs removed kept : reductions logs removed kept →
  removed ++ kept ≡ₚ logs ∧ kept `sublist_of` logs.
Proof.
  induction 1 as [logs|logs removed logs' removed' kept Hred _ [IHp IHs]]; [done|].
  destruct (reduction_shrinks _ _ _ Hred) as (Hp & Hs & _). split.
  - by rewrite <-app_assoc, IHp.
  - by etrans.
Qed.

(** *** The replay *)

(** A key that is added while it is there is not deleted later. *)
Fixpoint tidy (m : gmap log_key (option Item)) logs : Prop :=
  match logs with
  | [] => True
  | cl :: rest =>
    (∀ k, meaning cl = Some (k, EAdd) → is_Some (m !! k) →
       ∀ d, d ∈ rest → meaning d ≠ Some (k, EDelete)) ∧ tidy (apply_log m cl) rest
  end.

Fixpoint tidyb (m : gmap log_key (option Item)) logs : bool :=
  match logs with
  | [] => true
  | cl :: rest =>
    match meaning cl with
    | Some (k, EAdd) => bool_decide (m !! k = None) ||
        forallb (λ d, bool_decide (meaning d ≠ Some (k, EDelete))) rest
    | _ => true
    end && tidyb (apply_log m cl) rest
  end.

Lemma tidyb_tidy m logs : tidyb m logs = true → tidy m logs.
Proof.
  revert m. induction logs as [|cl rest IH]; intros m; [done|]. cbn.
  intros [H1 H2]%andb_prop. split; [|by apply IH]. intros k Hk [x Hm] d Hd. rewrite Hk in H1.
  apply orb_prop in H1 as [H1%bool_decide_eq_true|H1]; [congruence|].
  rewrite forallb_forall in H1. apply list_elem_of_In, H1 in Hd. by apply bool_decide_eq_true in Hd.
Qed.

Lemma tidy_replace l1 t t' m : (∀ d, d ∈ t' → d ∈ t) →
  (∀ m, tidy m t → tidy m t' ∧ replay m t' = replay m t) →
  tidy m (l1 ++ t) → tidy m (l1 ++ t') ∧ replay m (l1 ++ t') = replay m (l1 ++ t).
Proof.
  intros Hsub Hrep. revert m. induction l1 as [|cl l1 IH]; intros m; [by apply Hrep|].
  cbn. intros [Hcl Ht]. destruct (IH _ Ht) as [Ht' Hr]. split; [|exact Hr]. split; [|done].
  intros k Hk Hm d Hd. apply (Hcl k Hk Hm). rewrite elem_of_app in *. naive_solver.
Qed.

Lemma apply_add m cl k : meaning cl = Some (k, EAdd) → apply_log m cl = <[k := cl_Item cl]> m.
Proof. unfold apply_log. by intros ->. Qed.
Lemma apply_delete m cl k : meaning cl = Some (k, EDelete) → apply_log m cl = delete k m.
Proof. unfold apply_log. by intros ->. Qed.
Lemma apply_none m cl : meaning cl = None → apply_log m cl = m.
Proof. unfold apply_log. by intros ->. Qed.

Lemma reduction_replay logs removed kept m : reduction logs removed kept → tidy m logs →
  tidy m kept ∧ replay m kept = replay m logs.
Proof.
  intros [l1 p c l2 Hv|l1 p c l2 Hv]; apply tidy_replace; clear m.
  - intros d. rewrite !elem_of_cons. tauto.
  - intros m [Hp Ht]. cbn in Hv. destruct Hv as [Hn|(k & Hpk & Hck)].
    + rewrite (apply_none m p Hn) in Ht. split; [done|]. cbn. by rewrite (apply_none m p Hn).
    + unfold replay. cbn [tidy foldl] in Ht |- *. destruct Ht as [_ Ht].
      assert (apply_log (apply_log m p) c = apply_log m c) as Ec.
      { by rewrite (apply_add m p k), !(apply_add _ c k), insert_insert_eq by done. }
      rewrite Ec in *. split; [|done]. split; [|done].
      intros k' Hk' Hm d Hd. assert (k' = k) as -> by congruence.
      apply (Hp k Hpk Hm d). apply elem_of_cons. by right.
  - intros d Hd. do 2 (apply elem_of_cons; right). done.
  - intros m [Hp Ht]. cbn in Hv. destruct Hv as (k & Hpk & Hck).
    unfold replay. cbn [tidy foldl] in Ht |- *. destruct Ht as [_ Ht].
    assert (Hnone : m !! k = None).
    { destruct (m !! k) eqn:Hm; [|done]. destruct (Hp k Hpk) with (d := c); [done|..|done].
      apply elem_of_cons. by left. }
    assert (apply_log (apply_log m p) c = m) as Ec.
    { by rewrite (apply_add m p k), (apply_delete _ c k), delete_insert_id by done. }
    by rewrite Ec in *.
Qed.

Lemma reductions_replay logs removed kept m : reductions logs removed kept → tidy m logs →
  replay m kept = replay m logs.
Proof.
  induction 1 as [logs|logs removed logs' removed' kept Hred _ IH]; [done|]. intros Ht.
  destruct (reduction_replay _ _ _ m Hred Ht) as [Ht' <-]. by apply IH.
Qed.

(** *** The remove list *)

(** Deleting the logs of the remove list by their identifiers. *)
Definition without (removeList logs : list (ChangeLog Item)) : list (ChangeLog Item) :=
  filter (λ cl, ID cl ∉ ID <$> removeList) logs.

Lemma sublist_filter_length {A} (P : A → Prop) `{!∀ x, Decision (P x)} (k l : list A) :
  k `sublist_of` l → Forall P k → (length k ≤ length (filter P l))%nat.
Proof.
  induction 1 as [|x k l _ IH|x k l _ IH]; intros Hk; [done|..].
  - apply Forall_cons in Hk as [Hx Hk]. rewrite filter_cons_True by done. cbn. apply IH in Hk. lia.
  - apply IH in Hk. rewrite filter_cons. case_decide; cbn; lia.
Qed.

Lemma sublist_filter_eq {A} (P : A → Prop) `{!∀ x, Decision (P x)} (k l : list A) :
  k `sublist_of` l → Forall P k → (length (filter P l) ≤ length k)%nat → k = filter P l.
Proof.
  induction 1 as [|x k l Hs IH|x k l Hs IH]; intros Hk Hlen; [done|..].
  - apply Forall_cons in Hk as [Hx Hk]. rewrite filter_cons_True in * by done. cbn in Hlen.
    f_equal. apply IH; [done|lia].
  - pose proof (sublist_filter_length P k l Hs Hk). rewrite filter_cons in *.
    case_decide; cbn in Hlen; [lia|]. by apply IH.
Qed.

Lemma filter_none {A} (P : A → Prop) `{!∀ x, Decision (P x)} (l : list A) :
  (∀ x, x ∈ l → ¬ P x) → filter P l = [].
Proof.
  induction l as [|x l IH]; intros Hno; [done|]. rewrite filter_cons_False.
  - apply IH. intros y Hy. apply Hno. by right.
  - apply Hno. by left.
Qed.

Lemma kept_without logs removed kept : NoDup (ID <$> logs) → removed ++ kept ≡ₚ logs →
  kept `sublist_of` logs → kept = without removed logs.
Proof.
  intros Hnd Hp Hs. rewrite <-Hp, fmap_app in Hnd. apply NoDup_app in Hnd as (_ & Hdis & _).
  apply sublist_filter_eq; [done| |].
  - apply list.Forall_forall. intros cl Hcl Hin. apply (Hdis _ Hin). by apply list_elem_of_fmap_2.
  - transitivity (length (filter (λ cl, ID cl ∉ ID <$> removed) (removed ++ kept))).
    { apply Nat.eq_le_incl, Permutation.Permutation_length, filter_Permutation. by symmetry. }
    rewrite filter_app, length_app.
    rewrite (filter_none _ removed); [cbn; apply length_filter|].
    intros cl Hcl Hin. apply Hin. by apply list_elem_of_fmap_2.
Qed.

Lemma compact_ok logs : Forall command_ok logs → NoDup (ID <$> logs) →
  ∃ removeList, compactChangeLogsRemoveList logs = Returns removeList ∧
    reductions logs removeList (without removeList logs) ∧ irreducible (without removeList logs).
Proof.
  intros Hok Hnd. unfold compactChangeLogsRemoveList, compact.
  destruct (compact_loop_ok (S (length logs)) [] logs) as (removed & kept & -> & Hreds & Hirr);
    [done|lia|]. run. destruct (reductions_part _ _ _ Hreds) as [Hp Hs].
  exists removed. assert (Hun : SliceUnique removed ID = removed).
  { apply SliceUnique_id. rewrite <-Hp, fmap_app in Hnd. by apply NoDup_app in Hnd as (? & _). }
  cbn [app]. rewrite Hun. split; [done|]. by rewrite <-(kept_without logs removed kept).
Qed.

(** C38: On logs with the commands that the code makes and distinct
    identifiers, the compaction ends, whatever their number.  Deleting the
    logs of its list by their identifiers leaves logs of which no two
    neighbours are redundant: no no-op is followed by a log, and no addition
    by an addition or a deletion of the same key. *)
Theorem compaction_ends logs : Forall command_ok logs → NoDup (ID <$> logs) →
  ∃ removeList, compactChangeLogsRemoveList logs = Returns removeList ∧
    removeList ++ without removeList logs ≡ₚ logs ∧
    ∀ l1 p c l2, without removeList logs = l1 ++ p :: c :: l2 →
      meaning p ≠ None ∧ ∀ k, meaning p = Some (k, EAdd) →
        meaning c ≠ Some (k, EAdd) ∧ meaning c ≠ Some (k, EDelete).
Proof.
  intros Hok Hnd. destruct (compact_ok logs Hok Hnd) as (removeList & E & Hreds & Hirr).
  exists removeList. split; [done|]. split; [|exact Hirr].
  by destruct (reductions_part _ _ _ Hreds).
Qed.

(** C37: The compaction keeps the replay: when no key that is added while it
    is there is deleted later, the logs that are left build the same items
    as all of them. *)
Theorem compaction_replays logs : Forall command_ok logs → NoDup (ID <$> logs) → tidy ∅ logs →
  ∃ removeList, compactChangeLogsRemoveList logs = Returns removeList ∧
    replay ∅ (without removeList logs) = replay ∅ logs.
Proof.
  intros Hok Hnd Ht. destruct (compact_ok logs Hok Hnd) as (removeList & E & Hreds & _).
  exists removeList. split; [done|]. by apply (reductions_replay logs removeList).
Qed.

End proofs.

(** ** Witnesses *)

Definition log (id : string) (cmd : Command) (name : string) : ChangeLog Z :=
  MkChangeLog id cmd name "default" (Some 0) 1.

Definition tidy_logs : list (ChangeLog Z) :=
  [log "1" AddModuleCommand "a"; log "2" AddModuleCommand "b"; log "3" DeleteModuleCommand "b";
   log "4" AddModuleCommand "a"; log "5" NoopCommand ""; log "6" AddServiceCommand "a"].

(** The commands of Command.go's variables. *)
Definition resources : list Resource :=
  [Routes; Services; Namespaces; Modules; Domains; Collections; Documents; Secrets].
Definition commands : list Command :=
  NoopCommand :: (newCommand Add <$> resources) ++ (newCommand Delete <$> resources).

Lemma commands_ok {Item} (logs : list (ChangeLog Item)) :
  bool_decide (Forall (λ cl, Cmd cl ∈ commands) logs) = true → Forall command_ok logs.
Proof.
  intros H%bool_decide_eq_true. eapply Forall_impl; [exact H|]. cbv beta. intros cl Hc.
  unfold commands in Hc. apply elem_of_cons in Hc as [Hc|Hc]; [by left|right].
  apply elem_of_app in Hc as [Hc|Hc]; apply list_elem_of_fmap in Hc as (r & Hr & Hin);
    do 2 eexists; (split; [|split; [exact Hin|exact Hr]]); auto.
Qed.

Lemma tidy_logs_ok : Forall command_ok tidy_logs ∧ NoDup (ID <$> tidy_logs).
Proof.
  split; [apply commands_ok; vm_compute; reflexivity|].
  apply (bool_decide_unpack _). vm_compute. exact I.
Qed.

Lemma compaction_ends_witness : ∃ removeList,
  compactChangeLogsRemoveList tidy_logs = Returns removeList ∧ ID <$> removeList = ["2"; "3"; "1"; "5"] ∧
  removeList ++ without removeList tidy_logs ≡ₚ tidy_logs.
Proof.
  destruct (compaction_ends tidy_logs) as (removeList & E & Hp & _); [apply tidy_logs_ok..|].
  exists removeList. split; [exact E|]. split; [|exact Hp].
  vm_compute in E. injection E as <-. reflexivity.
Defined.

Lemma compaction_replays_witness : ∃ removeList,
  compactChangeLogsRemoveList tidy_logs = Returns removeList ∧
  ID <$> without removeList tidy_logs = ["4"; "6"] ∧
  replay ∅ (without removeList tidy_logs) = replay ∅ tidy_logs.
Proof.
  destruct (compaction_replays tidy_logs) as (removeList & E & Hr);
    [apply tidy_logs_ok..|apply tidyb_tidy; vm_compute; reflexivity|].
  exists removeList. split; [exact E|]. split; [|exact Hr].
  vm_compute in E. injection E as <-. reflexivity.
Defined.

(** A key added twice and then deleted: the first addition is left. *)
Example compaction_resurrects :
  let logs := [log "1" AddModuleCommand "a"; log "2" AddModuleCommand "b";
               log "3" AddModuleCommand "a"; log "4" DeleteModuleCommand "a"] in
  match compactChangeLogsRemoveList logs with
  | Returns removeList =>
    ID <$> removeList = ["3"; "4"] ∧ size (replay ∅ logs) = 1%nat ∧
    size (replay ∅ (without removeList logs)) = 2%nat
  | Panics _ => False
  end.
Proof. vm_compute. done. Qed.
