(* ===== verification/Util.v ===== *)
(** * internal/proxy/util.go: hashes, sorted search, method names

    The change hash of the proxy is a CRC-64 (hash/crc64 with the ECMA
    table), here over 64-bit integers in [Z].  encoding/json is a parameter:
    [encode] answers what an encoder writes for an object. *)
From Stdlib Require Import ZArith Lia Ascii Sorting.Sorted.
From stdpp Require Import base gmap strings list.
From S2P Require Import Prelude SliceUtil Pattern.

(** ** hash/crc64 *)

Definition ECMA : Z := 0xC96C5795D7870F42.
Definition mask64 : Z := 2 ^ 64 - 1.

Fixpoint table_bits (n : nat) (crc : Z) : Z :=
  match n with
  | O => crc
  | S n => table_bits n (if Z.land crc 1 =? 1 then Z.lxor (Z.shiftr crc 1) ECMA else Z.shiftr crc 1)
  end.
(** The entry [i] of [MakeTable(ECMA)]. *)
Definition table_entry (i : Z) : Z := table_bits 8 i.

Definition crc_byte (crc : Z) (v : Z) : Z :=
  Z.lxor (table_entry (Z.land (Z.lxor crc v) 255)) (Z.shiftr crc 8).
(** [update]: the sum is inverted before and after. *)
Definition crc_write (crc : Z) (p : list Z) : Z :=
  Z.lxor (foldl crc_byte (Z.lxor crc mask64) p) mask64.

(** The bytes of a string. *)
Fixpoint bytes_of (s : string) : list Z :=
  match s with
  | EmptyString => []
  | String c s => Z.of_N (N_of_ascii c) :: bytes_of s
  end.

(** ** The code *)

Section hash.
Context {T : Type} (encode : T → gores string).

(** [byte(salt >> 24)], ... *)
Definition salt_bytes (salt : Z) : list Z :=
  [Z.shiftr salt 24 mod 256; Z.shiftr salt 16 mod 256; Z.shiftr salt 8 mod 256; salt mod 256].

Fixpoint hash_objs (hash : Z) (objs : list T) : gores Z :=
  match objs with
  | [] => Ok hash
  | r :: objs =>
    match encode r with
    | Err err => Err err
    | Ok b => hash_objs (crc_write hash (bytes_of b)) objs
    end
  end.

Definition saltHash (salt : Z) (objs : list T) : gores Z :=
  let hash := if negb (salt =? 0) then crc_write 0 (salt_bytes salt) else 0 in
  if Nat.eqb (length objs) 0 then Err "no objects provided" else hash_objs hash objs.

Definition HashAny (salt : Z) (objs : list T) : gores Z :=
  match saltHash salt objs with Err err => Err err | Ok h => Ok h end.

(** [h.Sum(nil)]: big-endian. *)
Definition Sum (h : Z) : list Z :=
  (λ i, Z.shiftr h (8 * i) mod 256) <$> [7; 6; 5; 4; 3; 2; 1; 0].
Definition hex_digit (n : Z) : ascii :=
  ascii_of_N (Z.to_N (if n <? 10 then n + 48 else n + 87)).
Fixpoint EncodeToString (p : list Z) : string :=
  match p with
  | [] => ""
  | b :: p => String (hex_digit (b / 16)) (String (hex_digit (b mod 16)) (EncodeToString p))
  end.
Definition HashString (salt : Z) (objs : list T) : gores string :=
  match saltHash salt objs with Err err => Err err | Ok h => Ok (EncodeToString (Sum h)) end.

End hash.

(** *** Sorted search *)

(** [sort.Search]: the loop over [i <= h < j]; [f] may panic. *)
Fixpoint Search_loop (fuel : nat) (f : Z → outcome bool) (i j : Z) : outcome Z :=
  match fuel with
  | O => Panics "out of fuel"
  | S fuel =>
    if i <? j then
      let h := (i + j) / 2 in
      b ← f h;
      if (b : bool) then Search_loop fuel f i h else Search_loop fuel f (h + 1) j
    else mret i
  end.
(** Each round leaves fewer indices. *)
Definition Search (n : Z) (f : Z → outcome bool) : outcome Z := Search_loop (S (Z.to_nat n)) f 0 n.

Section find.
Context {T K : Type} `{GoOrdered K} `{!EqDecision K}.

Definition findInSortedWith (arr : list T) (k : K) (f : T → K) : outcome (option T) :=
  i ← Search (Z.of_nat (length arr)) (λ i, t ← index_slice arr i; mret (negb (gltb (f t) k)));
  if i <? Z.of_nat (length arr) then
    t ← index_slice arr i;
    if bool_decide (f t = k) then mret (Some t) else mret None
  else mret None.

End find.

(** *** Methods *)

Definition validMethods : list string :=
  ["GET"; "POST"; "PUT"; "PATCH"; "DELETE"; "OPTIONS"; "HEAD"; "CONNECT"; "TRACE"].

Fixpoint count_methods (methods : list string) (methodCount : Z) : gores Z :=
  match methods with
  | [] => Ok methodCount
  | m :: methods =>
    if String.eqb m "" then count_methods methods methodCount
    else if existsb (λ v, String.eqb v m) validMethods then count_methods methods (methodCount + 1)
    else Err ("unsupported method: " +:+ m)
  end.

Definition ValidateMethods (methods : list string) : option error :=
  match count_methods methods 0 with
  | Err err => Some err
  | Ok methodCount => if methodCount =? 0 then Some "no valid methods provided" else None
  end.

(** ** Hashes *)

(** The check value of this CRC. *)
Example crc_check : crc_write 0 (bytes_of "123456789") = 0x995DC9BBDF1939FA.
Proof. vm_compute. reflexivity. Qed.

Lemma bits_bound n a : 0 ≤ n → 0 ≤ a → (∀ i, n ≤ i → Z.testbit a i = false) → a < 2 ^ n.
Proof.
  intros Hn Ha Hb. destruct (Z.lt_ge_cases a (2 ^ n)) as [|Hge]; [done|exfalso].
  assert (Hpos : 0 < a) by (pose proof (Z.pow_pos_nonneg 2 n); lia).
  pose proof (Z.bit_log2 a Hpos) as Hl. rewrite Hb in Hl; [done|]. by apply Z.log2_le_pow2.
Qed.

Lemma testbit_high n a i : 0 ≤ a < 2 ^ n → n ≤ i → Z.testbit a i = false.
Proof.
  intros [Ha Hlt] Hi. destruct (decide (a = 0)) as [->|]; [apply Z.testbit_0_l|].
  apply Z.bits_above_log2; [done|]. assert (Z.log2 a < n); [|lia]. apply Z.log2_lt_pow2; lia.
Qed.

Lemma lxor_bound n a b : 0 ≤ n → 0 ≤ a < 2 ^ n → 0 ≤ b < 2 ^ n → 0 ≤ Z.lxor a b < 2 ^ n.
Proof.
  intros Hn Ha Hb. assert (H0 : 0 ≤ Z.lxor a b) by (apply Z.lxor_nonneg; lia).
  split; [done|]. apply bits_bound; [done..|]. intros i Hi.
  by rewrite Z.lxor_spec, (testbit_high n a), (testbit_high n b).
Qed.

Lemma shiftr_bound n a k : 0 ≤ k → 0 ≤ a < 2 ^ n → 0 ≤ Z.shiftr a k < 2 ^ n.
Proof.
  intros Hk Ha. rewrite Z.shiftr_div_pow2 by done. assert (0 < 2 ^ k) by (apply Z.pow_pos_nonneg; lia).
  split; [apply Z.div_pos; lia|]. apply Z.le_lt_trans with a; [|lia].
  apply Z.div_le_upper_bound; [done|]. nia.
Qed.

Lemma table_bits_bound n crc : 0 ≤ crc < 2 ^ 64 → 0 ≤ table_bits n crc < 2 ^ 64.
Proof.
  revert crc. induction n as [|n IH]; intros crc Hc; [done|]. cbn [table_bits]. apply IH.
  pose proof (shiftr_bound 64 crc 1 ltac:(lia) Hc). case_match; [|done].
  apply lxor_bound; [done..|]. unfold ECMA. lia.
Qed.

Lemma crc_byte_bound crc v : 0 ≤ crc < 2 ^ 64 → 0 ≤ crc_byte crc v < 2 ^ 64.
Proof.
  intros Hc. unfold crc_byte. apply lxor_bound; [done| |by apply shiftr_bound].
  apply table_bits_bound. change 255 with (Z.ones 8). rewrite Z.land_ones by done.
  pose proof (Z.mod_pos_bound (Z.lxor crc v) (2 ^ 8)). lia.
Qed.

Lemma crc_write_bound crc p : 0 ≤ crc < 2 ^ 64 → 0 ≤ crc_write crc p < 2 ^ 64.
Proof.
  assert (Hm : 0 ≤ mask64 < 2 ^ 64) by (unfold mask64; lia).
  intros Hc. apply lxor_bound; [done| |done].
  assert (H : 0 ≤ Z.lxor crc mask64 < 2 ^ 64) by by apply lxor_bound.
  revert H. generalize (Z.lxor crc mask64). induction p as [|v p IH]; intros c Hc'; [done|].
  cbn. by apply IH, crc_byte_bound.
Qed.

Lemma hash_objs_bound {T} (encode : T → gores string) objs h r :
  0 ≤ h < 2 ^ 64 → hash_objs encode h objs = Ok r → 0 ≤ r < 2 ^ 64.
Proof.
  revert h. induction objs as [|o objs IH]; intros h Hh; cbn; [by intros [= <-]|].
  destruct (encode o); [|done]. by apply IH, crc_write_bound.
Qed.

(** Only the low 32 bits of the salt are written. *)
Lemma salt_bytes_low salt : salt_bytes (salt mod 2 ^ 32) = salt_bytes salt.
Proof.
  unfold salt_bytes.
  assert (H : ∀ k, 0 ≤ k ≤ 24 → Z.shiftr (salt mod 2 ^ 32) k mod 256 = Z.shiftr salt k mod 256).
  { intros k Hk. change 256 with (2 ^ 8). apply Z.bits_inj'. intros i Hi.
    destruct (Z.lt_ge_cases i 8).
    - rewrite !Z.mod_pow2_bits_low, !Z.shiftr_spec, Z.mod_pow2_bits_low by lia. done.
    - rewrite !Z.mod_pow2_bits_high by lia. done. }
  rewrite !H by lia. specialize (H 0 ltac:(lia)). rewrite !Z.shiftr_0_r in H. by rewrite H.
Qed.

(** The hash of at least one object is a 64-bit integer, and fails only
    when an encoding does; without objects it fails.  Of a non-zero salt only
    the low 32 bits count: the previous change hash, which is 64 bits wide,
    is cut to half when the next one is computed from it. *)
Theorem HashAny_salt {T} (encode : T → gores string) salt objs :
  (∀ h, HashAny encode salt objs = Ok h → 0 ≤ h < 2 ^ 64) ∧
  (is_Some (head objs) → (∀ o, o ∈ objs → ∃ b, encode o = Ok b) → ∃ h, HashAny encode salt objs = Ok h) ∧
  HashAny encode salt [] = Err "no objects provided" ∧
  (∀ salt', salt ≠ 0 → salt' ≠ 0 → salt mod 2 ^ 32 = salt' mod 2 ^ 32 →
     HashAny encode salt objs = HashAny encode salt' objs).
Proof.
  unfold HashAny, saltHash. split; [|split; [|split; [done|]]].
  - intros h. destruct objs as [|o objs]; [done|]. cbn [length Nat.eqb].
    destruct (hash_objs _ _ _) as [h'|] eqn:E; [|done]. intros [= <-].
    apply hash_objs_bound in E; [done|]. case_match; [|lia]. apply crc_write_bound. lia.
  - intros [o Ho] Henc. destruct objs as [|o' objs]; [done|]. cbn [length Nat.eqb].
    generalize (if negb (salt =? 0) then crc_write 0 (salt_bytes salt) else 0). intros h.
    enough (∃ r, hash_objs encode h (o' :: objs) = Ok r) as [r ->] by by exists r.
    clear Ho. revert h Henc. generalize (o' :: objs). intros l.
    induction l as [|x l IH]; intros h Henc; [by exists h|]. cbn.
    destruct (Henc x) as [b ->]; [by left|]. apply IH. intros y Hy. apply Henc. by right.
  - intros salt' Hs Hs' Hmod. rewrite (proj2 (Z.eqb_neq salt 0)), (proj2 (Z.eqb_neq salt' 0)) by done.
    cbn [negb]. by rewrite <-(salt_bytes_low salt), <-(salt_bytes_low salt'), Hmod.
Qed.

(** ** Sorted search *)

Lemma Search_loop_ok fuel n (p : Z → bool) (f : Z → outcome bool) i j :
  (∀ h, 0 ≤ h < n → f h = Returns (p h)) → 0 ≤ i ≤ j → j ≤ n → (Z.to_nat (j - i) < fuel)%nat →
  (0 < i → p (i - 1) = false) → (j < n → p j = true) →
  ∃ r, Search_loop fuel f i j = Returns r ∧ 0 ≤ r ≤ n ∧
    (0 < r → p (r - 1) = false) ∧ (r < n → p r = true).
Proof.
  intros Hf. revert i j. induction fuel as [|fuel IH]; intros i j Hi Hj Hfuel Hlo Hhi; [lia|].
  cbn [Search_loop]. destruct (Z.ltb_spec i j) as [Hlt|Hge].
  - assert (Hh : i ≤ (i + j) / 2 < j) by
      (split; [apply Z.div_le_lower_bound|apply Z.div_lt_upper_bound]; lia).
    rewrite Hf by lia. run. destruct (p ((i + j) / 2)) eqn:Hp.
    + apply IH; [lia..|done|done].
    + apply IH; [lia..| |done]. intros _. by replace ((i + j) / 2 + 1 - 1) with ((i + j) / 2) by lia.
  - exists i. assert (i = j) as -> by lia. split; [done|]. split; [lia|done].
Qed.

Lemma Search_ok n (p : Z → bool) (f : Z → outcome bool) : 0 ≤ n →
  (∀ h, 0 ≤ h < n → f h = Returns (p h)) →
  ∃ r, Search n f = Returns r ∧ 0 ≤ r ≤ n ∧ (0 < r → p (r - 1) = false) ∧ (r < n → p r = true).
Proof. intros Hn Hf. apply Search_loop_ok; [done|lia..]. Qed.

Lemma index_slice_lookup {A} (s : list A) i a : s !! i = Some a → index_slice s (Z.of_nat i) = Returns a.
Proof.
  intros Hi. unfold index_slice. rewrite (proj2 (Z.leb_le 0 (Z.of_nat i))) by lia.
  by rewrite Nat2Z.id, Hi.
Qed.

Section find_correct.
Context {T K : Type} `{GoOrderedLaws K} `{!EqDecision K}.
Implicit Types (arr : list T) (k : K) (f : T → K).

(** Ascending by [f]; equal keys may repeat. *)
Definition ascending arr f : Prop :=
  ∀ i j a b, (i < j)%nat → arr !! i = Some a → arr !! j = Some b → gltb (f b) (f a) = false.

(** The position below which keys are too small. *)
Lemma find_position arr k f : ∃ i : nat, (i ≤ length arr)%nat ∧
  findInSortedWith arr k f =
    match arr !! i with
    | Some t => if bool_decide (f t = k) then Returns (Some t) else Returns None
    | None => Returns None
    end ∧
  (∀ t, (0 < i)%nat → arr !! (i - 1)%nat = Some t → gltb (f t) k = true) ∧
  (∀ t, arr !! i = Some t → gltb (f t) k = false).
Proof.
  unfold findInSortedWith.
  set (p := λ h, match arr !! Z.to_nat h with Some t => negb (gltb (f t) k) | None => false end).
  destruct (Search_ok (Z.of_nat (length arr)) p
    (λ i, t ← index_slice arr i; mret (negb (gltb (f t) k)))) as (r & -> & Hr & Hlo & Hhi); [lia| |].
  { intros h Hh. destruct (lookup_lt_is_Some_2 arr (Z.to_nat h)) as [t Ht]; [lia|].
    replace h with (Z.of_nat (Z.to_nat h)) at 1 by lia.
    rewrite (index_slice_lookup arr _ t Ht). unfold p. by rewrite Ht. }
  exists (Z.to_nat r). split; [lia|]. run. split; [|split].
  - destruct (Z.ltb_spec r (Z.of_nat (length arr))) as [Hlt|Hge].
    + destruct (lookup_lt_is_Some_2 arr (Z.to_nat r)) as [t Ht]; [lia|].
      replace r with (Z.of_nat (Z.to_nat r)) at 1 by lia. by rewrite (index_slice_lookup arr _ t Ht), Ht.
    + by rewrite lookup_ge_None_2 by lia.
  - intros t Hpos Ht. specialize (Hlo ltac:(lia)). unfold p in Hlo.
    replace (Z.to_nat (r - 1)) with (Z.to_nat r - 1)%nat in Hlo by lia. rewrite Ht in Hlo.
    by destruct (gltb (f t) k).
  - intros t Ht. assert (Hlt : r < Z.of_nat (length arr)) by (apply lookup_lt_Some in Ht; lia).
    specialize (Hhi Hlt). unfold p in Hhi. rewrite Ht in Hhi. by destruct (gltb (f t) k).
Qed.

(** The search always returns, on any slice: it never indexes out of
    range.  What it answers is an element with the key.  On an ascending
    slice it finds one whenever there is one. *)
Theorem findInSortedWith_correct arr k f : ∃ r, findInSortedWith arr k f = Returns r ∧
  (∀ t, r = Some t → t ∈ arr ∧ f t = k) ∧
  (ascending arr f → r = None → ∀ t, t ∈ arr → f t ≠ k).
Proof.
  destruct (find_position arr k f) as (i & Hi & -> & Hlo & Hhi).
  assert (Hbelow : ascending arr f → ∀ j x, (j < i)%nat → arr !! j = Some x → f x ≠ k).
  { intros Hasc j x Hj Hx Hk. destruct (lookup_lt_is_Some_2 arr (i - 1)) as [y Hy]; [lia|].
    specialize (Hlo y ltac:(lia) Hy). destruct (decide (j = i - 1)%nat) as [->|Hne].
    - assert (y = x) as -> by congruence. rewrite Hk in Hlo. by apply gltb_lt, gcmp_lt_irrefl in Hlo.
    - rewrite <-Hk in Hlo. rewrite (Hasc j (i - 1)%nat x y) in Hlo; [done|lia|done..]. }
  destruct (arr !! i) as [t|] eqn:Ht.
  - case_bool_decide as Hk.
    + exists (Some t). split; [done|]. split; [|done]. intros t' [= <-].
      split; [by apply list_elem_of_lookup_2 in Ht|done].
    + exists None. split; [done|]. split; [done|]. intros Hasc _ x Hx.
      apply list_elem_of_lookup in Hx as [j Hj]. destruct (Nat.lt_trichotomy j i) as [Hji|[->|Hji]].
      * by apply (Hbelow Hasc j).
      * congruence.
      * intros Hxk. specialize (Hasc i j t x Hji Ht Hj). rewrite Hxk in Hasc.
        specialize (Hhi t eq_refl). unfold gltb in *. rewrite (gcmp_antisym (f t) k) in Hasc.
        destruct (gcmp (f t) k) eqn:Hc; try done. by apply gcmp_eq_iff in Hc.
  - exists None. split; [done|]. split; [done|]. intros Hasc _ x Hx.
    apply list_elem_of_lookup in Hx as [j Hj]. apply (Hbelow Hasc j); [|done].
    apply lookup_lt_Some in Hj. apply lookup_ge_None in Ht. lia.
Qed.

End find_correct.

(** ** Methods *)

Definition valid_method (m : string) : bool := existsb (λ v, String.eqb v m) validMethods.

Lemma count_methods_ok methods n : 0 ≤ n →
  (∃ c, count_methods methods n = Ok c ∧ n ≤ c ∧ (c = n ↔ Forall (λ m, m = "") methods) ∧
     Forall (λ m, m = "" ∨ valid_method m = true) methods) ∨
  ∃ m, m ∈ methods ∧ m ≠ "" ∧ valid_method m = false ∧
    count_methods methods n = Err ("unsupported method: " +:+ m).
Proof.
  revert n. induction methods as [|m methods IH]; intros n Hn; cbn [count_methods].
  { left. exists n. split; [done|]. split; [done|]. by split. }
  destruct (String.eqb_spec m "") as [->|Hm].
  - destruct (IH n Hn) as [(c & -> & Hc & Hi & Hf)|(m' & Hin & H)]; [left|right].
    + exists c. split; [done|]. split; [done|]. rewrite !Forall_cons. split; [naive_solver|]. by split; [left|].
    + exists m'. split; [by right|done].
  - fold (valid_method m). destruct (valid_method m) eqn:Hv.
    + destruct (IH (n + 1)) as [(c & -> & Hc & Hi & Hf)|(m' & Hin & H)]; [lia|left|right].
      * exists c. split; [done|]. split; [lia|]. rewrite !Forall_cons.
        split; [split; [lia|by intros [? _]]|]. by split; [right|].
      * exists m'. split; [by right|done].
    + right. exists m. split; [by left|done].
Qed.

(** Methods are accepted exactly when every one that is not empty is one
    of the nine of HTTP and one at least is not empty. *)
Theorem ValidateMethods_correct methods :
  ValidateMethods methods = None ↔
  Forall (λ m, m = "" ∨ m ∈ validMethods) methods ∧ ∃ m, m ∈ methods ∧ m ≠ "".
Proof.
  assert (Hvalid : ∀ m, valid_method m = true ↔ m ∈ validMethods).
  { intros m. unfold valid_method. rewrite existsb_exists. setoid_rewrite <-list_elem_of_In.
    setoid_rewrite String.eqb_eq. naive_solver. }
  unfold ValidateMethods.
  destruct (count_methods_ok methods 0) as [(c & -> & Hc & Hi & Hf)|(m & Hin & Hm & Hv & ->)]; [done| |].
  - assert (Hf' : Forall (λ m, m = "" ∨ m ∈ validMethods) methods).
    { eapply Forall_impl; [exact Hf|]. cbv beta. intros m. by rewrite Hvalid. }
    destruct (Z.eqb_spec c 0) as [->|Hne].
    + split; [done|]. intros [_ (m & Hin & Hm)]. destruct Hi as [Hi _]. specialize (Hi eq_refl).
      rewrite list.Forall_forall in Hi. by apply Hi in Hin.
    + split; [|done]. intros _. split; [done|].
      destruct (decide (Exists (λ m, m ≠ "") methods)) as [He|He]; [by apply Exists_exists in He|].
      apply not_Exists_Forall in He; [|apply _]. destruct Hne. apply Hi.
      eapply Forall_impl; [exact He|]. cbv beta. intros m. by destruct (decide (m = "")).
  - split; [done|]. intros [Hf _]. rewrite list.Forall_forall in Hf.
    destruct (Hf m Hin) as [?|Hin']; [done|]. apply Hvalid in Hin'. congruence.
Qed.

(** ** Witnesses *)

(** A string without characters to escape, as encoding/json writes it. *)
Definition encode_plain (s : string) : gores string :=
  Ok (String (ascii_of_N 34) (s +:+ String (ascii_of_N 34) (String (ascii_of_N 10) ""))).

(** The salts 5 and 5 + 2^32 give one hash. *)
Lemma HashAny_salt_witness : ∃ h, HashAny encode_plain 5 ["a"] = Ok h ∧
  HashAny encode_plain (5 + 2 ^ 32) ["a"] = Ok h ∧ 0 ≤ h < 2 ^ 64.
Proof.
  destruct (HashAny_salt encode_plain 5 ["a"]) as (Hb & Hok & _ & Hlow).
  destruct Hok as [h Hh]; [by exists "a"|by intros o _; eexists|].
  exists h. split; [exact Hh|]. split; [|exact (Hb h Hh)].
  rewrite <-(Hlow (5 + 2 ^ 32)); [exact Hh|done..].
Defined.

Lemma findInSortedWith_correct_witness :
  findInSortedWith [1; 3; 3; 7] 3 id = Returns (Some 3) ∧
  findInSortedWith [3; 1] 1 id = Returns (None : option Z).
Proof.
  destruct (findInSortedWith_correct [1; 3; 3; 7] 3 (id : Z → Z)) as (r & E & Hsome & _).
  split; [|vm_compute; reflexivity]. rewrite E. vm_compute in E. injection E as <-. reflexivity.
Defined.
