(* ===== verification/Utilities.v ===== *)
(** * pkg/util: hashes of values, JSON responses, shared references, log adapters

    hash.go, http_response.go and default.go, safe/ref.go and logadapter.
    The encoders (encoding/json, encoding/gob) and the loggers behind the
    adapters are parameters; hash/crc32 is written out over 32-bit integers. *)
From Stdlib Require Import ZArith Lia Ascii.
From stdpp Require Import base gmap strings list fin_maps.
From S2P Require Import Prelude Util Linker.

(** ** hash/crc32, with the IEEE table *)

Module Crc32.
Definition IEEE : Z := 0xEDB88320.
Definition mask32 : Z := 2 ^ 32 - 1.
Fixpoint table_bits (n : nat) (crc : Z) : Z :=
  match n with
  | O => crc
  | S n => table_bits n (if Z.land crc 1 =? 1 then Z.lxor (Z.shiftr crc 1) IEEE else Z.shiftr crc 1)
  end.
Definition write_byte (crc v : Z) : Z :=
  Z.lxor (table_bits 8 (Z.land (Z.lxor crc v) 255)) (Z.shiftr crc 8).
Definition write (crc : Z) (p : list Z) : Z :=
  Z.lxor (foldl write_byte (Z.lxor crc mask32) p) mask32.
(** [Sum(nil)] *)
Definition Sum (h : Z) : list Z := (λ i, Z.shiftr h (8 * i) mod 256) <$> [3; 2; 1; 0].
End Crc32.

Section hash.
(** What the encoders answer for a value. *)
Context {Any : Type} (json_Marshal gob_Encode : Any → gores string).

(** The encoder's errors end here: a value that has no encoding is no bytes. *)
Definition or_nothing (encode : Any → gores string) (a : Any) : list Z :=
  match encode a with Ok b => bytes_of b | Err _ => [] end.

Definition crc32Hash (encoder : Any → list Z) (objs : list Any) : gores Z :=
  match objs with
  | [] => Err "no values provided"
  | _ => Ok (foldl (λ hash r, Crc32.write hash (encoder r)) 0 objs)
  end.

Definition jsonHash (objs : list Any) : gores Z :=
  match crc32Hash (or_nothing json_Marshal) objs with Err err => Err err | Ok hash => Ok hash end.
Definition JsonHash (objs : list Any) : gores Z :=
  match jsonHash objs with Err err => Err err | Ok hash => Ok hash end.
Definition JsonHashBytes (objs : list Any) : gores (list Z) :=
  match jsonHash objs with Err err => Err err | Ok hash => Ok (Crc32.Sum hash) end.
Definition GobHash (objs : list Any) : gores Z :=
  match crc32Hash (or_nothing gob_Encode) objs with Err err => Err err | Ok hash => Ok hash end.
Definition GobHashBytes (objs : list Any) : gores Z :=
  match crc32Hash (or_nothing gob_Encode) objs with Err err => Err err | Ok hash => Ok hash end.
End hash.

(** ** default.go *)

Definition Default {T} (value defaultValue : option T) : option T :=
  match value with None => defaultValue | Some _ => value end.
Definition DefaultString (value defaultValue : string) : string :=
  if String.eqb value "" then defaultValue else value.

(** ** JSON responses *)

Module Response.
(** A response: the headers to send, what was sent with the status, the body. *)
Record t : Type := mk { Header : gmap string string; Sent : option (Z * gmap string string); Body : string }.
Definition new : t := mk ∅ None "".

Definition Header_Set (k v : string) (w : t) : t := mk (<[k := v]> (Header w)) (Sent w) (Body w).
(** Only the first call counts. *)
Definition WriteHeader (code : Z) (w : t) : t :=
  match Sent w with None => mk (Header w) (Some (code, Header w)) (Body w) | Some _ => w end.
Definition Write (b : string) (w : t) : t :=
  let w := WriteHeader 200 w in mk (Header w) (Sent w) (Body w +:+ b).
End Response.

Section responses.
Context {Any : Type} (slice_len : Any → option Z).

(** The values in the objects that are written. *)
Inductive json_field : Type := FInt (n : Z) | FText (s : string) | FAny (a : Any) | FList (l : list Any).
Context (Marshal : gmap string json_field → gores string).

(** [json.NewEncoder(w).Encode]: a line, or nothing when it fails. *)
Definition Encode (v : gmap string json_field) (w : Response.t) : Response.t :=
  match Marshal v with Ok b => Response.Write (b +:+ String "010" "") w | Err _ => w end.

Definition JsonError (statusCode : Z) (message : json_field) (w : Response.t) : Response.t :=
  Encode {[ "error" := message; "status" := FInt statusCode ]}
    (Response.WriteHeader statusCode (Response.Header_Set "Content-Type" "application/json" w)).
Definition JsonErrors (statusCode : Z) (message : list Any) (w : Response.t) : Response.t :=
  Encode {[ "errors" := FList message; "status" := FInt statusCode ]}
    (Response.WriteHeader statusCode (Response.Header_Set "Content-Type" "application/json" w)).

(** [None] is the nil interface; [slice_len] is what [isSlice] and [sliceLen]
    find by reflection. *)
Definition JsonResponse (statusCode : Z) (data : option Any) (w : Response.t) : Response.t :=
  let w := Response.WriteHeader statusCode (Response.Header_Set "Content-Type" "application/json" w) in
  match data with
  | None => Response.Write "{}" w
  | Some data =>
      let responseData := {[ "status_code" := FInt statusCode; "data" := FAny data ]} : gmap string json_field in
      let responseData := match slice_len data with
                          | Some n => <["count" := FInt n]> responseData | None => responseData end in
      match Marshal responseData with
      | Err _ => JsonError 500 (FText "Error marshalling response data") w
      | Ok value => Response.Write value w
      end
  end.
End responses.
Arguments json_field : clear implicits.

(** ** safe/ref.go *)

Module Ref.
(** Objects in a heap; a reference holds the location of one, or nil. *)
Abbreviation heap T := (gmap loc T).
Record t : Type := mk { v : loc }.
Section code.
Context {T : Type}.
Abbreviation M := (ST (heap T)).

Definition alloc (x : T) : M loc := λ h, let l := fresh ({[nil]} ∪ dom h : gset loc) in Returns (l, <[l := x]> h).
Definition deref (l : loc) : M T := λ h, match h !! l with Some x => Returns (x, h) | None => Panics nil_deref end.

Definition assign (l : loc) (x : T) : M unit := λ h, Returns (tt, <[l := x]> h).

Definition shallowCopy (src : loc) : M loc := x ← deref src; alloc x.

Definition NewRef (t : loc) : M Ref.t :=
  if bool_decide (t = nil) then mret (mk nil) else l ← shallowCopy t; mret (mk l).
Definition Read (rw : Ref.t) : M loc := shallowCopy (v rw).
Definition Load (rw : Ref.t) : M loc := mret (v rw).
(** The reference afterwards, and the old object. *)
Definition Replace (rw : Ref.t) (new : loc) : M (Ref.t * loc) :=
  old ← Load rw; newCopy ← shallowCopy new; mret (mk newCopy, old).

Context (marshal : T → gores string) (unmarshal : string → T → gores T).
Definition MarshalJSON (rw : Ref.t) : M (gores string) := l ← Read rw; x ← deref l; mret (marshal x).
(** It decodes into the object that [Read] answers. *)
Definition UnmarshalJSON (rw : Ref.t) (data : string) : M (option error) :=
  l ← Read rw; x ← deref l;
  match unmarshal data x with
  | Ok x => _ ← assign l x; mret None
  | Err e => mret (Some e)
  end.
End code.
End Ref.

(** ** logadapter/zap2hc.go *)

Module LogAdapter.
(** [hclog.Level], with the numbers that have no name. *)
Inductive hc_level : Type := NoLevel | Trace | Debug | Info | Warn | Error | Off | OtherHc (n : Z).
#[export] Instance hc_level_eq_dec : EqDecision hc_level.
Proof. solve_decision. Defined.
(** [zapcore.Level] *)
Inductive zap_level : Type :=
  | DebugLevel | InfoLevel | WarnLevel | ErrorLevel | DPanicLevel | PanicLevel | FatalLevel | OtherZap (n : Z).

(** [DefaultLevel] of hclog is [Info]. *)
Definition hc2zapLevel (lvl : hc_level) : zap_level :=
  match lvl with
  | Debug | Trace | NoLevel => DebugLevel
  | Info => InfoLevel
  | Warn => WarnLevel
  | Error | Off => ErrorLevel
  | OtherHc _ => InfoLevel
  end.
Definition zap2hcLogLevel (lvl : zap_level) : hc_level :=
  match lvl with
  | DebugLevel => Debug
  | InfoLevel => Info
  | WarnLevel => Warn
  | ErrorLevel | PanicLevel | DPanicLevel | FatalLevel => Error
  | OtherZap _ => NoLevel
  end.

(** An argument of a log line: a text, an [hclog.Format], or another value. *)
Inductive arg (Any : Type) : Type :=
  | Text (s : string)
  | Format (t : list (arg Any))
  | Value (a : Any).
Arguments Text {Any} s.
Arguments Format {Any} t.
Arguments Value {Any} a.

Definition not_a_string : string := "interface conversion: interface {} is not string".

Section code.
Context {Any : Type} (Sprintf : string → list (arg Any) → string).
Abbreviation Field := (string * arg Any)%type.
Abbreviation entry := (zap_level * string * list Field)%type.

Definition field (key val : arg Any) : outcome Field :=
  match key with
  | Text key =>
      match val with
      | Format [] => Panics index_range
      | Format (Text f :: t) => mret (key, Text (Sprintf f t))
      | Format _ => Panics not_a_string
      | _ => mret (key, val)
      end
  | _ => Panics not_a_string
  end.
(** In pairs; a last key without a value gets one. *)
Fixpoint prepArgs (args : list (arg Any)) : outcome (list Field) :=
  match args with
  | [] => mret []
  | [key] => f ← field key (Text "MISSING"); mret [f]
  | key :: val :: args => f ← field key val; fields ← prepArgs args; mret (f :: fields)
  end.

(** What is logged, in order. *)
Definition Log (level : hc_level) (format : string) (args : list (arg Any)) : ST (list entry) unit := λ log,
  let at_level z := match prepArgs args with
                    | Returns fields => Returns (tt, log ++ [(z, format, fields)])
                    | Panics e => Panics e end in
  match level with
  | Debug => at_level DebugLevel
  | Info => at_level InfoLevel
  | Warn => at_level WarnLevel
  | Error => at_level ErrorLevel
  | _ => Returns (tt, log)
  end.
Definition Trace_ (format : string) (args : list (arg Any)) : ST (list entry) unit := mret tt.
Definition Debug_ := Log Debug.
Definition Info_ := Log Info.
Definition Warn_ := Log Warn.
Definition Error_ := Log Error.

(** The logger's core, as far as it is asked. *)
Context (Enabled : zap_level → bool) (Level : zap_level).
Definition IsTrace : bool := Enabled (hc2zapLevel Trace).
Definition IsDebug : bool := Enabled (hc2zapLevel Debug).
Definition IsInfo : bool := Enabled (hc2zapLevel Info).
Definition IsWarn : bool := Enabled (hc2zapLevel Warn).
Definition IsError : bool := Enabled (hc2zapLevel Error).
Definition GetLevel : hc_level := zap2hcLogLevel Level.
End code.
End LogAdapter.

(** ** Properties of the hashes *)

Section hash_proofs.
Context {Any : Type} (json_Marshal : Any → gores string).

Lemma table_bits32_bound n crc : 0 ≤ crc < 2 ^ 32 → 0 ≤ Crc32.table_bits n crc < 2 ^ 32.
Proof.
  revert crc. induction n as [|n IH]; intros crc Hc; [done|]. cbn [Crc32.table_bits]. apply IH.
  pose proof (shiftr_bound 32 crc 1 ltac:(lia) Hc). case_match; [|done].
  apply lxor_bound; [done..|]. unfold Crc32.IEEE. lia.
Qed.
Lemma write_byte32_bound crc b : 0 ≤ crc < 2 ^ 32 → 0 ≤ Crc32.write_byte crc b < 2 ^ 32.
Proof.
  intros Hc. unfold Crc32.write_byte. apply lxor_bound; [done| |by apply shiftr_bound].
  apply table_bits32_bound. change 255 with (Z.ones 8). rewrite Z.land_ones by done.
  pose proof (Z.mod_pos_bound (Z.lxor crc b) (2 ^ 8)). lia.
Qed.
Lemma write32_bound crc p : 0 ≤ crc < 2 ^ 32 → 0 ≤ Crc32.write crc p < 2 ^ 32.
Proof.
  assert (Hm : 0 ≤ Crc32.mask32 < 2 ^ 32) by (unfold Crc32.mask32; lia).
  intros Hc. apply lxor_bound; [done| |done].
  assert (H : 0 ≤ Z.lxor crc Crc32.mask32 < 2 ^ 32) by by apply lxor_bound.
  revert H. generalize (Z.lxor crc Crc32.mask32). induction p as [|b p IH]; intros c Hc'; [done|].
  cbn. by apply IH, write_byte32_bound.
Qed.
Lemma write32_app crc p q : Crc32.write (Crc32.write crc p) q = Crc32.write crc (p ++ q).
Proof.
  unfold Crc32.write. rewrite foldl_app. f_equal. f_equal.
  by rewrite Z.lxor_assoc, Z.lxor_nilpotent, Z.lxor_0_r.
Qed.
Lemma write32_fold (encoder : Any → list Z) objs crc :
  foldl (λ hash r, Crc32.write hash (encoder r)) crc objs = Crc32.write crc (mjoin (encoder <$> objs)).
Proof.
  revert crc. induction objs as [|o objs IH]; intros crc; cbn.
  - unfold Crc32.write. cbn. by rewrite Z.lxor_assoc, Z.lxor_nilpotent, Z.lxor_0_r.
  - by rewrite IH, write32_app.
Qed.

(** The hash of values is that of their encodings one after the other, as 32
    bits: it fails only without values, and does not see where one value
    ends, nor a value that has no encoding. *)
Theorem JsonHash_concat objs :
  match JsonHash json_Marshal objs with
  | Err err => objs = [] ∧ err = "no values provided"
  | Ok h => objs ≠ [] ∧ 0 ≤ h < 2 ^ 32 ∧ h = Crc32.write 0 (mjoin (or_nothing json_Marshal <$> objs))
  end.
Proof.
  unfold JsonHash, jsonHash, crc32Hash. destruct objs as [|o objs]; [done|]. split; [done|].
  rewrite write32_fold. split; [|done]. by apply write32_bound.
Qed.
End hash_proofs.

Example crc32_check : Crc32.write 0 (bytes_of "123456789") = 0xCBF43926.
Proof. vm_compute. reflexivity. Qed.

(** ** Properties of the responses *)

Section response_proofs.
Context {Any : Type} (slice_len : Any → option Z) (Marshal : gmap string (json_field Any) → gores string).

(** What a client gets: the status that the handler gave, also when its data
    has no encoding and the text is that of the error 500. *)
Theorem JsonResponse_status code data w : Response.Sent w = None →
  ∃ h, Response.Sent (JsonResponse slice_len Marshal code data w) = Some (code, h) ∧
    h !! "Content-Type" = Some "application/json".
Proof.
  intros Hw. exists (<["Content-Type" := "application/json"]> (Response.Header w)). split; [|apply lookup_insert_eq].
  unfold JsonResponse, Response.WriteHeader, Response.Header_Set. cbn. rewrite Hw.
  destruct data as [data|]; [|done].
  destruct (Marshal (match slice_len data with Some _ => _ | None => _ end)); [done|].
  unfold JsonError, Encode. by destruct (Marshal _).
Qed.
Theorem JsonError_status code message w : Response.Sent w = None →
  ∃ h, Response.Sent (JsonError Marshal code message w) = Some (code, h) ∧
    h !! "Content-Type" = Some "application/json".
Proof.
  intros Hw. exists (<["Content-Type" := "application/json"]> (Response.Header w)). split; [|apply lookup_insert_eq].
  unfold JsonError, Encode, Response.WriteHeader, Response.Header_Set. cbn. rewrite Hw. by destruct (Marshal _).
Qed.
End response_proofs.

(** ** Properties of shared references *)

Section ref_proofs.
Context {T : Type}.
Implicit Types h : Ref.heap T.

Lemma alloc_fresh (x : T) h : ∃ l, Ref.alloc x h = Returns (l, <[l := x]> h) ∧ h !! l = None ∧ l ≠ nil.
Proof.
  exists (fresh ({[nil]} ∪ dom h : gset loc)). split; [done|].
  pose proof (is_fresh ({[nil]} ∪ dom h : gset loc)) as H. rewrite not_elem_of_union, not_elem_of_singleton, not_elem_of_dom in H. tauto.
Qed.
Lemma Read_copies r x h : h !! Ref.v r = Some x →
  ∃ l, Ref.Read r h = Returns (l, <[l := x]> h) ∧ h !! l = None.
Proof.
  intros Hr. destruct (alloc_fresh x h) as (l & E & Hl & _). exists l. split; [|done].
  unfold Ref.Read, Ref.shallowCopy, Ref.deref. st. by rewrite Hr.
Qed.

(** What is written to an object that [Read] answered is not seen through the
    reference; what is written to the one that [Load] answers is.  An object
    that was given to [Replace] may be changed afterwards, and the object
    that [Replace] answers is the one before. *)
Theorem Ref_isolates r x y h : h !! Ref.v r = Some x →
  (∃ l h', Ref.Read r h = Returns (l, h') ∧ h' !! l = Some x ∧ <[l := y]> h' !! Ref.v r = Some x) ∧
  (∃ l, Ref.Load r h = Returns (l, h) ∧ <[l := y]> h !! Ref.v r = Some y) ∧
  (∀ new z, h !! new = Some z → ∃ r' old h', Ref.Replace r new h = Returns ((r', old), h') ∧
     h' !! old = Some x ∧ <[new := y]> h' !! Ref.v r' = Some z).
Proof.
  intros Hr. split_and!.
  - destruct (Read_copies r x h Hr) as (l & E & Hl). exists l, (<[l := x]> h). split; [done|].
    assert (l ≠ Ref.v r) by congruence. rewrite lookup_insert_eq, !lookup_insert_ne by done. done.
  - exists (Ref.v r). split; [done|]. apply lookup_insert_eq.
  - intros new z Hnew. destruct (alloc_fresh z h) as (l & E & Hl & _).
    exists (Ref.mk l), (Ref.v r), (<[l := z]> h).
    split; [unfold Ref.Replace, Ref.Load, Ref.shallowCopy, Ref.deref; st; rewrite Hnew; st; by rewrite E|].
    cbn [Ref.v]. rewrite lookup_insert_ne, lookup_insert_ne, lookup_insert_eq by congruence. done.
Qed.

(** Decoding into a reference changes nothing that was there: what was
    decoded is in an object of its own. *)
Theorem UnmarshalJSON_lost unmarshal r data x h : h !! Ref.v r = Some x →
  ∃ err h', Ref.UnmarshalJSON unmarshal r data h = Returns (err, h') ∧
    (∀ l y, h !! l = Some y → h' !! l = Some y) ∧
    (err = None ↔ ∃ x', unmarshal data x = Ok x').
Proof.
  intros Hr. destruct (Read_copies r x h Hr) as (l & E & Hl). unfold Ref.UnmarshalJSON. st. rewrite E.
  unfold Ref.deref. st. rewrite lookup_insert_eq. st.
  destruct (unmarshal data x) as [x'|e]; st; eexists _, _; (split; [reflexivity|]); (split; [|naive_solver]);
    intros l' y Hl'; rewrite ?lookup_insert_ne by congruence; done.
Qed.

(** A reference without an object cannot be read. *)
Theorem nil_Ref_panics h : h !! nil = None →
  ∃ r, Ref.NewRef nil h = Returns (r, h) ∧ Ref.Read r h = Panics nil_deref ∧ Ref.Load r h = Returns (nil, h).
Proof.
  intros Hn. exists (Ref.mk nil). split; [done|]. split; [|done].
  unfold Ref.Read, Ref.shallowCopy, Ref.deref. st. cbn [Ref.v]. by rewrite Hn.
Qed.
End ref_proofs.

(** ** Properties of the log adapter *)

Section log_proofs.
Import LogAdapter.
Context {Any : Type} (Sprintf : string → list (arg Any) → string).

(** A line of raft is logged at the level that its level stands for, which
    stands for it again; lines without one of the four levels are dropped. *)
Theorem Log_levels level format args fields log : prepArgs Sprintf args = Returns fields →
  Log Sprintf level format args log =
  Returns (tt, if bool_decide (zap2hcLogLevel (hc2zapLevel level) = level)
               then log ++ [(hc2zapLevel level, format, fields)] else log).
Proof. intros H. destruct level; cbn; rewrite ?H; (rewrite bool_decide_eq_true_2 + rewrite bool_decide_eq_false_2); done. Qed.

Definition pairs (kvs : list (string * Any)) : list (arg Any) := kvs ≫= λ '(k, v), [Text k; Value v].
Lemma prepArgs_pairs kvs rest fields : prepArgs Sprintf rest = Returns fields →
  prepArgs Sprintf (pairs kvs ++ rest) = Returns (((λ '(k, v), (k, Value v)) <$> kvs) ++ fields).
Proof.
  intros Hr. induction kvs as [|[k v] kvs IH]; [done|]. cbn in *. unfold pairs in IH. by rewrite IH.
Qed.
(** Names and values become the fields; a name without a value gets the text
    [MISSING]; and a name that is no text ends the process, at any level. *)
Theorem prepArgs_fields kvs k : 
  prepArgs Sprintf (pairs kvs) = Returns ((λ '(k, v), (k, Value v)) <$> kvs) ∧
  prepArgs Sprintf (pairs kvs ++ [Text k]) = Returns (((λ '(k, v), (k, Value v)) <$> kvs) ++ [(k, Text "MISSING")]) ∧
  ∀ level format v rest log, level ∈ [Debug; Info; Warn; Error] →
    Log Sprintf level format (pairs kvs ++ Value v :: rest) log = Panics not_a_string.
Proof.
  split_and!.
  - pose proof (prepArgs_pairs kvs [] [] eq_refl) as H. by rewrite !app_nil_r in H.
  - by apply prepArgs_pairs.
  - intros level format v rest log Hl.
    assert (prepArgs Sprintf (pairs kvs ++ Value v :: rest) = Panics not_a_string) as E.
    { induction kvs as [|[k' v'] kvs IH]; [by destruct rest|]. cbn in *. unfold pairs in IH. by rewrite IH. }
    repeat (apply elem_of_cons in Hl as [->|Hl]; [cbn; by rewrite E|]). by apply elem_of_nil in Hl.
Qed.
End log_proofs.
