(* ===== verification/ConfigResources.v ===== *)
(** * internal/config: the resources of the configuration

    [Validate] checks the resources that a configuration file lists before
    the proxy creates them.  Its maps are only tested for a key and counted,
    so they are sets of keys here. *)
From Stdlib Require Import ZArith Lia.
From stdpp Require Import base gmap strings list sets.
From S2P Require Import Prelude SliceUtil Spec.

(** ** The code *)

Section code.
Context {E : Externals}.

Record ModuleSpec : Type := MkModuleSpec { ms_Module : Module_.t; PayloadFile : string }.
Record DomainSpec : Type := MkDomainSpec { ds_Domain : Domain.t; CertFile : string; KeyFile : string }.

Record DGateResources : Type := MkResources {
  SkipValidation : bool;
  Namespaces : list Namespace.t;
  Services : list Service.t;
  Routes : list Route.t;
  Modules : list ModuleSpec;
  Domains : list DomainSpec;
  Collections : list Collection.t;
  Documents : list Document.t;
  Secrets : list Secret.t }.

(** One of the loops: an item is refused if its key is taken or by the rest
    of the loop's body, [rule]. *)
Fixpoint check_all {A} (key : A → string) (dup : A → error) (rule : A → option error)
    (seen : gset string) (items : list A) : gores (gset string) :=
  match items with
  | [] => Ok seen
  | a :: items =>
    if decide (key a ∈ seen) then Err (dup a) else
    match rule a with
    | Some err => Err err
    | None => check_all key dup rule ({[key a]} ∪ seen) items
    end
  end.

Definition join (name namespace : string) : string := name +:+ "-" +:+ namespace.

(** The namespace of an item. *)
Definition check_ns (what name ns : string) (namespaces : gset string) : option error :=
  if negb (String.eqb ns "") then
    if decide (ns ∈ namespaces) then None
    else Some (what +:+ " (" +:+ name +:+ ") references non-existent namespace (" +:+ ns +:+ ")")
  else Some (what +:+ " (" +:+ name +:+ ") must specify namespace").

(** The next check, if the one before found nothing. *)
Definition or_else (err next : option error) : option error :=
  match err with Some e => Some e | None => next end.
Definition must (ok : bool) (e : error) : option error := if ok then None else Some e.

Definition ns_rule (ns : Namespace.t) : option error :=
  must (negb (String.eqb (Namespace.Name ns) "")) "namespace name must be specified".

Definition mod_key (m : ModuleSpec) : string :=
  join (Module_.Name (ms_Module m)) (Module_.NamespaceName (ms_Module m)).
Definition mod_rule (namespaces : gset string) (m : ModuleSpec) : option error :=
  let md := ms_Module m in
  or_else (must (negb (String.eqb (Module_.Name md) "")) "module name must be specified")
  (or_else (check_ns "module" (Module_.Name md) (Module_.NamespaceName md) namespaces)
  (or_else (must (negb (String.eqb (Module_.Payload md) "" && String.eqb (PayloadFile m) ""))
              "module payload or payload file must be specified")
  (must (negb (negb (String.eqb (Module_.Payload md) "") && negb (String.eqb (PayloadFile m) "")))
     "module payload and payload file cannot both be specified"))).

Definition svc_key (s : Service.t) : string := join (Service.Name s) (Service.NamespaceName s).
Definition svc_rule (namespaces : gset string) (s : Service.t) : option error :=
  or_else (must (negb (String.eqb (Service.Name s) "")) "service name must be specified")
  (check_ns "service" (Service.Name s) (Service.NamespaceName s) namespaces).

Definition route_key (r : Route.t) : string := join (Route.Name r) (Route.NamespaceName r).
(** The loop over the module names of a route. *)
Fixpoint check_modules (name ns : string) (modules : gset string) (modNames : list string)
    : option error :=
  match modNames with
  | [] => None
  | modName :: modNames =>
    if decide (join modName ns ∈ modules) then check_modules name ns modules modNames
    else Some ("route (" +:+ name +:+ ") references non-existent module (" +:+ modName +:+ ")")
  end.
Definition route_rule (namespaces services modules : gset string) (r : Route.t) : option error :=
  let name := Route.Name r in let ns := Route.NamespaceName r in
  or_else (must (negb (String.eqb name "")) "route name must be specified")
  (or_else (if negb (String.eqb (Route.ServiceName r) "") then
              if decide (join (Route.ServiceName r) ns ∈ services) then None
              else Some ("route (" +:+ name +:+ ") references non-existent service (" +:+
                         Route.ServiceName r +:+ ")")
            else None)
  (or_else (check_ns "route" name ns namespaces)
  (check_modules name ns modules (elems (Route.Modules r))))).

Definition dom_key (d : DomainSpec) : string :=
  join (Domain.Name (ds_Domain d)) (Domain.NamespaceName (ds_Domain d)).
Definition dom_rule (namespaces : gset string) (d : DomainSpec) : option error :=
  let dom := ds_Domain d in
  let cert := String.eqb (Domain.Cert dom) "" in let key := String.eqb (Domain.Key dom) "" in
  or_else (must (negb (String.eqb (Domain.Name dom) "")) "domain name must be specified")
  (or_else (check_ns "domain" (Domain.Name dom) (Domain.NamespaceName dom) namespaces)
  (or_else (must (negb (negb cert && negb (String.eqb (CertFile d) "")))
              "domain cert and cert file cannot both be specified")
  (or_else (must (negb (negb key && negb (String.eqb (KeyFile d) "")))
              "domain key and key file cannot both be specified")
  (must (Bool.eqb cert key)
     "domain cert (file) and key (file) must both be specified, or neither")))).

Definition col_key (c : Collection.t) : string :=
  join (Collection.Name c) (Collection.NamespaceName c).
Definition col_rule (namespaces : gset string) (c : Collection.t) : option error :=
  let name := Collection.Name c in
  or_else (must (negb (String.eqb name "")) "collection name must be specified")
  (or_else (check_ns "collection" name (Collection.NamespaceName c) namespaces)
  (or_else (must (match Collection.Schema c with Some _ => true | None => false end)
              ("collection (" +:+ name +:+ ") must specify schema"))
  (or_else (must (String.eqb (Collection.Visibility c) CollectionVisibilityPublic ||
                  String.eqb (Collection.Visibility c) CollectionVisibilityPrivate)
              ("collection (" +:+ name +:+ ") must specify visibility"))
  (must (String.eqb (Collection.Type_ c) CollectionTypeDocument ||
         String.eqb (Collection.Type_ c) CollectionTypeFetcher)
     ("collection (" +:+ name +:+ ") must specify type"))))).

Definition doc_key (d : Document.t) : string := join (Document.ID d) (Document.NamespaceName d).
Definition doc_rule (namespaces collections : gset string) (d : Document.t) : option error :=
  let id := Document.ID d in let ns := Document.NamespaceName d in
  or_else (must (negb (String.eqb id "")) "document ID must be specified")
  (or_else (check_ns "document" id ns namespaces)
  (if negb (String.eqb (Document.CollectionName d) "") then
     if decide (join (Document.CollectionName d) ns ∈ collections) then None
     else Some ("document (" +:+ id +:+ ") references non-existent collection (" +:+
                Document.CollectionName d +:+ ")")
   else None)).

Definition sec_key (s : Secret.t) : string := join (Secret.Name s) (Secret.NamespaceName s).
Definition sec_rule (namespaces : gset string) (s : Secret.t) : option error :=
  or_else (must (negb (String.eqb (Secret.Name s) "")) "secret name must be specified")
  (check_ns "secret" (Secret.Name s) (Secret.NamespaceName s) namespaces).

Definition gores_bind {A B} (m : gores A) (f : A → gores B) : gores B :=
  match m with Ok a => f a | Err e => Err e end.
Definition len (m : gset string) : Z := Z.of_nat (size m).

Definition Validate (resources : option DGateResources) : gores Z :=
  match resources with
  | None => Ok 0
  | Some r =>
    if SkipValidation r then Ok 0 else
    gores_bind (check_all Namespace.Name (λ ns, "duplicate namespace: " +:+ Namespace.Name ns)
                  ns_rule ∅ (Namespaces r)) (λ namespaces,
    gores_bind (check_all mod_key (λ m, "duplicate module: " +:+ Module_.Name (ms_Module m))
                  (mod_rule namespaces) ∅ (Modules r)) (λ modules,
    gores_bind (check_all svc_key (λ s, "duplicate service: " +:+ Service.Name s)
                  (svc_rule namespaces) ∅ (Services r)) (λ services,
    gores_bind (check_all route_key (λ rt, "duplicate route: " +:+ Route.Name rt)
                  (route_rule namespaces services modules) ∅ (Routes r)) (λ routes,
    gores_bind (check_all dom_key (λ d, "duplicate domain: " +:+ Domain.Name (ds_Domain d))
                  (dom_rule namespaces) ∅ (Domains r)) (λ domains,
    gores_bind (check_all col_key (λ c, "duplicate collection: " +:+ Collection.Name c)
                  (col_rule namespaces) ∅ (Collections r)) (λ collections,
    gores_bind (check_all doc_key (λ d, "duplicate document: " +:+ Document.ID d)
                  (doc_rule namespaces collections) ∅ (Documents r)) (λ documents,
    gores_bind (check_all sec_key (λ s, "duplicate secret: " +:+ Secret.Name s)
                  (sec_rule namespaces) ∅ (Secrets r)) (λ secrets,
    Ok (len namespaces + len modules + len services + len routes + len domains +
        len collections + len documents + len secrets)))))))))
  end.

End code.

(** ** What is accepted *)

Section proofs.
Context {E : Externals}.

Lemma check_all_ok {A} (key : A → string) dup rule seen items s :
  check_all key dup rule seen items = Ok s ↔
  NoDup (key <$> items) ∧ (∀ a, a ∈ items → key a ∉ seen ∧ rule a = None) ∧
  s = list_to_set (reverse (key <$> items)) ∪ seen.
Proof.
  revert seen. induction items as [|a items IH]; intros seen; cbn [check_all fmap list_fmap].
  { rewrite reverse_nil. cbn. split.
    - intros [= <-]. split; [constructor|]. split; [by intros a ?%elem_of_nil|]. by rewrite (left_id_L ∅ (∪)).
    - intros (_ & _ & ->). by rewrite (left_id_L ∅ (∪)). }
  rewrite reverse_cons, list_to_set_app_L, NoDup_cons. cbn. rewrite (right_id_L ∅ (∪)).
  destruct (decide (key a ∈ seen)) as [Hs|Hs].
  { split; [done|]. intros (_ & H & _). by destruct (H a) as [? _]; [left|]. }
  destruct (rule a) as [e|] eqn:Hr.
  { split; [done|]. intros (_ & H & _). destruct (H a) as [_ ?]; [by left|congruence]. }
  rewrite IH. assert (Hu : list_to_set (reverse (key <$> items)) ∪ ({[key a]} ∪ seen) =
    list_to_set (reverse (key <$> items)) ∪ {[key a]} ∪ seen) by by rewrite (assoc_L (∪)).
  rewrite Hu. split.
  - intros (Hnd & H & ->). split; [|split; [|done]].
    + split; [|done]. intros Hin. apply list_elem_of_fmap in Hin as (b & Hb & Hin).
      destruct (H b Hin) as [Hn _]. rewrite elem_of_union, elem_of_singleton, Hb in Hn. tauto.
    + intros b. rewrite elem_of_cons. intros [->|Hb]; [done|]. destruct (H b Hb) as [Hn ?].
      split; [|done]. rewrite elem_of_union in Hn. tauto.
  - intros ([Ha Hnd] & H & ->). split; [done|]. split; [|done]. intros b Hb.
    destruct (H b) as [Hn ?]; [by right|]. split; [|done].
    rewrite elem_of_union, elem_of_singleton. intros [Hk|?]; [|done].
    apply Ha. rewrite <-Hk. by apply list_elem_of_fmap_2.
Qed.

(** From no keys: the keys found are those of the items, once each. *)
Lemma check_all_empty {A} (key : A → string) dup rule items s :
  check_all key dup rule ∅ items = Ok s ↔
  NoDup (key <$> items) ∧ Forall (λ a, rule a = None) items ∧ s = list_to_set (key <$> items).
Proof.
  rewrite check_all_ok, list.Forall_forall.
  assert (list_to_set (reverse (key <$> items)) ∪ ∅ = (list_to_set (key <$> items) : gset string)) as ->.
  { rewrite (right_id_L ∅ (∪)). apply list_to_set_perm_L. apply reverse_Permutation. }
  split; intros (H1 & H2 & H3); (split; [done|]; split; [|done]).
  - intros a Ha. by apply H2.
  - intros a Ha. split; [apply not_elem_of_empty|by apply H2].
Qed.

Lemma size_keys {A} (key : A → string) (items : list A) : NoDup (key <$> items) →
  len (list_to_set (key <$> items)) = Z.of_nat (length items).
Proof. intros Hnd. unfold len. by rewrite size_list_to_set, length_fmap. Qed.

Lemma or_else_none e e' : or_else e e' = None ↔ e = None ∧ e' = None.
Proof. destruct e; cbn; naive_solver. Qed.
Lemma must_none ok e : must ok e = None ↔ ok = true.
Proof. destruct ok; cbn; naive_solver. Qed.
Lemma nonempty_true s : negb (String.eqb s "") = true ↔ s ≠ "".
Proof. destruct (String.eqb_spec s ""); cbn; naive_solver. Qed.
Lemma check_ns_none what name ns (names : list string) :
  check_ns what name ns (list_to_set names) = None ↔ ns ≠ "" ∧ ns ∈ names.
Proof.
  unfold check_ns. destruct (String.eqb_spec ns "") as [->|Hne]; cbn; [naive_solver|].
  case_decide as Hin; rewrite elem_of_list_to_set in Hin; naive_solver.
Qed.
Lemma check_modules_none name ns (keys modNames : list string) :
  check_modules name ns (list_to_set keys) modNames = None ↔ Forall (λ m, join m ns ∈ keys) modNames.
Proof.
  induction modNames as [|m modNames IH]; cbn; [split; [constructor|done]|].
  rewrite Forall_cons. case_decide as Hin; rewrite elem_of_list_to_set in Hin; [naive_solver|].
  split; [done|naive_solver].
Qed.

(** A name, and the name of a listed namespace. *)
Definition named (names : list string) (name ns : string) : Prop :=
  name ≠ "" ∧ ns ≠ "" ∧ ns ∈ names.
Definition given (s : string) : Prop := s ≠ "".

(** Resources as the file must list them: keys are not repeated, and what an
    item refers to is listed, under a joined key. *)
Definition listed (r : DGateResources) : Prop :=
  let names := Namespace.Name <$> Namespaces r in
  (NoDup names ∧ Forall (λ ns, Namespace.Name ns ≠ "") (Namespaces r)) ∧
  (NoDup (mod_key <$> Modules r) ∧ Forall (λ m,
     named names (Module_.Name (ms_Module m)) (Module_.NamespaceName (ms_Module m)) ∧
     (given (Module_.Payload (ms_Module m)) ↔ ¬ given (PayloadFile m))) (Modules r)) ∧
  (NoDup (svc_key <$> Services r) ∧
   Forall (λ s, named names (Service.Name s) (Service.NamespaceName s)) (Services r)) ∧
  (NoDup (route_key <$> Routes r) ∧ Forall (λ rt,
     named names (Route.Name rt) (Route.NamespaceName rt) ∧
     (given (Route.ServiceName rt) →
        join (Route.ServiceName rt) (Route.NamespaceName rt) ∈ svc_key <$> Services r) ∧
     Forall (λ m, join m (Route.NamespaceName rt) ∈ mod_key <$> Modules r) (elems (Route.Modules rt)))
     (Routes r)) ∧
  (NoDup (dom_key <$> Domains r) ∧ Forall (λ d,
     named names (Domain.Name (ds_Domain d)) (Domain.NamespaceName (ds_Domain d)) ∧
     ¬ (given (Domain.Cert (ds_Domain d)) ∧ given (CertFile d)) ∧
     ¬ (given (Domain.Key (ds_Domain d)) ∧ given (KeyFile d)) ∧
     (given (Domain.Cert (ds_Domain d)) ↔ given (Domain.Key (ds_Domain d)))) (Domains r)) ∧
  (NoDup (col_key <$> Collections r) ∧ Forall (λ c,
     named names (Collection.Name c) (Collection.NamespaceName c) ∧ is_Some (Collection.Schema c) ∧
     (Collection.Visibility c = CollectionVisibilityPublic ∨
      Collection.Visibility c = CollectionVisibilityPrivate) ∧
     (Collection.Type_ c = CollectionTypeDocument ∨ Collection.Type_ c = CollectionTypeFetcher))
     (Collections r)) ∧
  (NoDup (doc_key <$> Documents r) ∧ Forall (λ d,
     named names (Document.ID d) (Document.NamespaceName d) ∧
     (given (Document.CollectionName d) →
        join (Document.CollectionName d) (Document.NamespaceName d) ∈ col_key <$> Collections r))
     (Documents r)) ∧
  (NoDup (sec_key <$> Secrets r) ∧
   Forall (λ s, named names (Secret.Name s) (Secret.NamespaceName s)) (Secrets r)).

(** The number of items. *)
Definition count (r : DGateResources) : Z := Z.of_nat (
  length (Namespaces r) + length (Modules r) + length (Services r) + length (Routes r) +
  length (Domains r) + length (Collections r) + length (Documents r) + length (Secrets r))%nat.

Lemma bind_check {A B} (key : A → string) dup rule (P : A → Prop) items (f : gset string → gores B) x :
  (∀ a, rule a = None ↔ P a) →
  gores_bind (check_all key dup rule ∅ items) f = Ok x ↔
  (NoDup (key <$> items) ∧ Forall P items) ∧ f (list_to_set (key <$> items)) = Ok x.
Proof.
  intros Hrule.
  assert (Forall (λ a, rule a = None) items ↔ Forall P items) as <-.
  { rewrite !list.Forall_forall. naive_solver. }
  split.
  - destruct (check_all key dup rule ∅ items) as [s|] eqn:Hc; [|done]. cbn. intros Hf.
    apply check_all_empty in Hc as (? & ? & ->). done.
  - intros [[Hnd Hall] Hf]. rewrite (proj2 (check_all_empty key dup rule items (list_to_set (key <$> items)))); [exact Hf|done].
Qed.

Ltac rules := rewrite ?or_else_none, ?must_none, ?check_ns_none, ?nonempty_true;
  unfold named, given.

Lemma ns_rule_none ns : ns_rule ns = None ↔ Namespace.Name ns ≠ "".
Proof. unfold ns_rule. rules. done. Qed.

Lemma mod_rule_none names m : mod_rule (list_to_set names) m = None ↔
  named names (Module_.Name (ms_Module m)) (Module_.NamespaceName (ms_Module m)) ∧
  (given (Module_.Payload (ms_Module m)) ↔ ¬ given (PayloadFile m)).
Proof.
  unfold mod_rule. rules. destruct (String.eqb_spec (Module_.Payload (ms_Module m)) "");
    destruct (String.eqb_spec (PayloadFile m) ""); cbn; naive_solver.
Qed.

Lemma svc_rule_none names s : svc_rule (list_to_set names) s = None ↔
  named names (Service.Name s) (Service.NamespaceName s).
Proof. unfold svc_rule. by rules. Qed.

Lemma reference_none (name : string) key (keys : list string) err :
  (if negb (String.eqb name "") then
     if decide (key ∈ (list_to_set keys : gset string)) then None else Some err
   else (None : option error)) = None ↔ (given name → key ∈ keys).
Proof.
  unfold given. destruct (String.eqb_spec name ""); cbn; [naive_solver|].
  case_decide as Hin; rewrite elem_of_list_to_set in Hin; naive_solver.
Qed.

Lemma route_rule_none names services modules rt :
  route_rule (list_to_set names) (list_to_set services) (list_to_set modules) rt = None ↔
  named names (Route.Name rt) (Route.NamespaceName rt) ∧
  (given (Route.ServiceName rt) → join (Route.ServiceName rt) (Route.NamespaceName rt) ∈ services) ∧
  Forall (λ m, join m (Route.NamespaceName rt) ∈ modules) (elems (Route.Modules rt)).
Proof.
  unfold route_rule. cbv zeta. rewrite !or_else_none, reference_none, check_modules_none.
  rules. naive_solver.
Qed.

Lemma dom_rule_none names d : dom_rule (list_to_set names) d = None ↔
  named names (Domain.Name (ds_Domain d)) (Domain.NamespaceName (ds_Domain d)) ∧
  ¬ (given (Domain.Cert (ds_Domain d)) ∧ given (CertFile d)) ∧
  ¬ (given (Domain.Key (ds_Domain d)) ∧ given (KeyFile d)) ∧
  (given (Domain.Cert (ds_Domain d)) ↔ given (Domain.Key (ds_Domain d))).
Proof.
  unfold dom_rule. cbv zeta. rules.
  destruct (String.eqb_spec (Domain.Cert (ds_Domain d)) ""), (String.eqb_spec (Domain.Key (ds_Domain d)) ""),
    (String.eqb_spec (CertFile d) ""), (String.eqb_spec (KeyFile d) ""); cbn; naive_solver.
Qed.

Lemma col_rule_none names c : col_rule (list_to_set names) c = None ↔
  named names (Collection.Name c) (Collection.NamespaceName c) ∧ is_Some (Collection.Schema c) ∧
  (Collection.Visibility c = CollectionVisibilityPublic ∨
   Collection.Visibility c = CollectionVisibilityPrivate) ∧
  (Collection.Type_ c = CollectionTypeDocument ∨ Collection.Type_ c = CollectionTypeFetcher).
Proof.
  unfold col_rule. cbv zeta. rules. rewrite !orb_true_iff, !String.eqb_eq.
  assert ((match Collection.Schema c with Some _ => true | None => false end = true) ↔
    is_Some (Collection.Schema c)) as -> by (destruct (Collection.Schema c); naive_solver).
  naive_solver.
Qed.

Lemma doc_rule_none names collections d :
  doc_rule (list_to_set names) (list_to_set collections) d = None ↔
  named names (Document.ID d) (Document.NamespaceName d) ∧
  (given (Document.CollectionName d) →
     join (Document.CollectionName d) (Document.NamespaceName d) ∈ collections).
Proof.
  unfold doc_rule. cbv zeta. rewrite !or_else_none, reference_none. rules. naive_solver.
Qed.

Lemma sec_rule_none names s : sec_rule (list_to_set names) s = None ↔
  named names (Secret.Name s) (Secret.NamespaceName s).
Proof. unfold sec_rule. by rules. Qed.

(** Resources are accepted exactly when they are listed as they must be,
    and their number is answered. *)
Theorem Validate_correct r n : SkipValidation r = false →
  Validate (Some r) = Ok n ↔ listed r ∧ n = count r.
Proof.
  intros Hskip. unfold Validate, listed. rewrite Hskip. cbv zeta.
  rewrite (bind_check _ _ _ _ _ _ _ ns_rule_none), (bind_check _ _ _ _ _ _ _ (mod_rule_none _)),
    (bind_check _ _ _ _ _ _ _ (svc_rule_none _)), (bind_check _ _ _ _ _ _ _ (route_rule_none _ _ _)),
    (bind_check _ _ _ _ _ _ _ (dom_rule_none _)), (bind_check _ _ _ _ _ _ _ (col_rule_none _)),
    (bind_check _ _ _ _ _ _ _ (doc_rule_none _ _)), (bind_check _ _ _ _ _ _ _ (sec_rule_none _)).
  unfold count. split.
  - intros ((? & ?) & (? & ?) & (? & ?) & (? & ?) & (? & ?) & (? & ?) & (? & ?) & (? & ?) & [= <-]).
    split; [tauto|]. rewrite !size_keys by done. lia.
  - intros (((? & ?) & (? & ?) & (? & ?) & (? & ?) & (? & ?) & (? & ?) & (? & ?) & (? & ?)) & ->).
    rewrite !size_keys by done. do 8 (split; [done|]). f_equal. lia.
Qed.

End proofs.

(** ** Witnesses *)

Section witnesses.
#[local] Existing Instance text_externals.

Definition route_of (name service ns : string) : Route.t :=
  Route.mk name (Some ["/"]) (Some ["GET"]) false false service ns None None.
Definition service_of (name ns : string) : Service.t :=
  Service.mk name None ns None None None None None None None None None.

Definition good_resources : DGateResources :=
  MkResources false [Namespace.mk "n" None] [service_of "s" "n"] [route_of "r" "s" "n"] [] [] [] [] [].

Lemma Validate_correct_witness : Validate (Some good_resources) = Ok 3 ∧ listed good_resources.
Proof.
  assert (E : Validate (Some good_resources) = Ok 3) by (vm_compute; reflexivity).
  split; [exact E|]. exact (proj1 (proj1 (Validate_correct good_resources 3 eq_refl) E)).
Defined.

(** Joined keys are ambiguous: the route's service ["a-b"] of the namespace
    ["c"] is taken to be the service ["a"] of the namespace ["b-c"]. *)
Example reference_confused : Validate (Some (MkResources false
  [Namespace.mk "c" None; Namespace.mk "b-c" None] [service_of "a" "b-c"] [route_of "r" "a-b" "c"]
  [] [] [] [] [])) = Ok 4.
Proof. vm_compute. reflexivity. Qed.

(** A certificate file without a key file is accepted, and a certificate with
    a key file is not. *)
Example cert_file_alone :
  let dom cert certFile keyFile := Validate (Some (MkResources false [Namespace.mk "n" None] [] [] []
    [MkDomainSpec (Domain.mk "d" "n" None 0 cert "" None) certFile keyFile] [] [] [])) in
  dom "" "cert.pem" "" = Ok 2 ∧
  dom "cert" "" "key.pem" = Err "domain cert (file) and key (file) must both be specified, or neither".
Proof. vm_compute. done. Qed.

End witnesses.
