(* ===== verification/ProxyTransport.v ===== *)
(** * internal/proxy/proxy_transport: the retrying transport

    The builder and the round tripper that it builds.  The transport below is
    a computation on a state of its own; contexts, timeouts and the sleep
    between attempts are left out. *)
From Stdlib Require Import ZArith Lia.
From stdpp Require Import base strings list.
From S2P Require Import Prelude Util.

(** An error that is a [*proxyerrors.ProxyError], or another one. *)
Inductive go_error : Type :=
  | ProxyError (DisableRetry : bool) (text : string)
  | PlainError (text : string).

(** [GetProxyError]: the type assertion. *)
Definition GetProxyError (err : option go_error) : option bool :=
  match err with Some (ProxyError DisableRetry _) => Some DisableRetry | _ => None end.

Section code.
Context {T : Type}.

(** ** The builder; [T] is the type of transports *)

Record proxyTransportBuilder : Type := MkBuilder {
  transport : option T; requestTimeout : Z; retries : Z; retryTimeout : Z }.

Definition NewBuilder : proxyTransportBuilder := MkBuilder None 0 0 0.
Definition Transport (t : T) (b : proxyTransportBuilder) : proxyTransportBuilder :=
  MkBuilder (Some t) (requestTimeout b) (retries b) (retryTimeout b).
Definition RequestTimeout (d : Z) (b : proxyTransportBuilder) : proxyTransportBuilder :=
  MkBuilder (transport b) d (retries b) (retryTimeout b).
Definition Retries (n : Z) (b : proxyTransportBuilder) : proxyTransportBuilder :=
  MkBuilder (transport b) (requestTimeout b) n (retryTimeout b).
Definition RetryTimeout (d : Z) (b : proxyTransportBuilder) : proxyTransportBuilder :=
  MkBuilder (transport b) (requestTimeout b) (retries b) d.
(** The clone's retry timeout is the request timeout. *)
Definition Clone (b : proxyTransportBuilder) : proxyTransportBuilder :=
  MkBuilder (transport b) (requestTimeout b) (retries b) (requestTimeout b).

(** What is built: the transport itself, or one that retries. *)
Inductive round_tripper : Type :=
  | Direct (t : option T)
  | Retry (t : option T) (retries retryTimeout requestTimeout : Z).

(** [None] is [http.DefaultTransport]. *)
Definition create (transport : option T) (requestTimeout retries retryTimeout : Z)
    : gores round_tripper :=
  if retries <? 0 then Err "retries must be greater than or equal to 0"
  else if retryTimeout <? 0 then Err "retryTimeout must be greater than or equal to 0"
  else if requestTimeout <? 0 then Err "requestTimeout must be greater than or equal to 0"
  else if (requestTimeout =? 0) && (retries =? 0) then Ok (Direct transport)
  else Ok (Retry transport retries retryTimeout requestTimeout).
Definition Build (b : proxyTransportBuilder) : gores round_tripper :=
  create (transport b) (requestTimeout b) (retries b) (retryTimeout b).

End code.
Arguments proxyTransportBuilder : clear implicits.
Arguments round_tripper : clear implicits.

(** ** The round trip *)

Section trip.
Context {S Resp : Type} (RoundTrip_below : ST S (option Resp * option go_error)).

(** The loop is over after this attempt. *)
Definition last_attempt (method : string) (err : option go_error) : bool :=
  match err with
  | None => true
  | Some _ =>
    if String.eqb method "PUT" || String.eqb method "POST" then true
    else match GetProxyError err with Some DisableRetry => negb DisableRetry | None => false end
  end.

(** [n] attempts are left after this one. *)
Fixpoint round_trips (n : nat) (method : string) : ST S (option Resp * option go_error) :=
  '(resp, err) ← RoundTrip_below;
  if last_attempt method err then mret (resp, err)
  else match n with O => mret (resp, err) | Datatypes.S n => round_trips n method end.

Definition RoundTrip (retries : Z) (method : string) : ST S (option Resp * option go_error) :=
  if retries <? 0 then mret (None, None) else round_trips (Z.to_nat retries) method.

End trip.

(** ** Properties *)

Section proofs.
Context {Resp : Type}.

(** A transport that answers the next of the given answers, and counts. *)
Definition scripted (answers : list (option Resp * option go_error))
    : ST nat (option Resp * option go_error) := λ i,
  match answers !! i with Some a => Returns (a, S i) | None => Panics "no answer" end.

Lemma round_trips_ok answers n method i : (i + n < length answers)%nat →
  ∃ j a, (j ≤ n)%nat ∧ answers !! (i + j)%nat = Some a ∧
    round_trips (scripted answers) n method i = Returns (a, S (i + j)) ∧
    (∀ j' a', (j' < j)%nat → answers !! (i + j')%nat = Some a' → last_attempt method a'.2 = false) ∧
    (last_attempt method a.2 = true ∨ j = n).
Proof.
  revert i. induction n as [|n IH]; intros i Hlen; cbn [round_trips]; st; unfold scripted at 1;
    destruct (lookup_lt_is_Some_2 answers i) as [[resp err] Ha]; try lia; rewrite Ha; st.
  - exists 0%nat, (resp, err). rewrite Nat.add_0_r. destruct (last_attempt method err); naive_solver lia.
  - destruct (last_attempt method err) eqn:Hl.
    + exists 0%nat, (resp, err). rewrite Nat.add_0_r. naive_solver lia.
    + destruct (IH (S i)) as (j & a & Hj & Haj & E & Hbefore & Hlast); [lia|].
      exists (S j), a. replace (i + S j)%nat with (S i + j)%nat by lia.
      split; [lia|]. split; [done|]. split; [exact E|]. split.
      * intros [|j'] a' Hj' Ha'; [rewrite Nat.add_0_r in Ha'; naive_solver|].
        apply (Hbefore j'); [lia|]. by replace (S i + j')%nat with (i + S j')%nat by lia.
      * destruct Hlast as [?| ->]; [by left|by right].
Qed.

(** A request is sent at most once more than the number of retries.  The
    answer is that of the first attempt after which the loop stops, or of the
    last one allowed; it stops after a success, after any attempt of a [PUT]
    or [POST], and after an error that does not disable the retry. *)
Theorem RoundTrip_attempts answers retries method : 0 ≤ retries → retries < Z.of_nat (length answers) →
  ∃ (j : nat) a, Z.of_nat j ≤ retries ∧ answers !! j = Some a ∧
    RoundTrip (scripted answers) retries method 0%nat = Returns (a, S j) ∧
    (∀ j' a', (j' < j)%nat → answers !! j' = Some a' →
       a'.2 ≠ None ∧ method ≠ "PUT" ∧ method ≠ "POST" ∧ GetProxyError a'.2 ≠ Some false) ∧
    (a.2 = None ∨ method = "PUT" ∨ method = "POST" ∨ GetProxyError a.2 = Some false ∨
     Z.of_nat j = retries).
Proof.
  intros Hr Hlen. unfold RoundTrip. rewrite (proj2 (Z.ltb_ge retries 0)) by done.
  destruct (round_trips_ok answers (Z.to_nat retries) method 0) as (j & a & Hj & Ha & E & Hb & Hl); [lia|].
  exists j, a. split; [lia|]. split; [done|]. split; [done|].
  assert (Hlast : ∀ err, last_attempt method err = true ↔
    err = None ∨ method = "PUT" ∨ method = "POST" ∨ GetProxyError err = Some false).
  { intros err. unfold last_attempt. destruct err as [[d t|t]|]; cbn;
      destruct (String.eqb_spec method "PUT"), (String.eqb_spec method "POST"); cbn;
      try destruct d; naive_solver. }
  split.
  - intros j' a' Hj' Ha'. specialize (Hb j' a' Hj' Ha'). apply not_true_iff_false in Hb.
    rewrite Hlast in Hb. tauto.
  - destruct Hl as [Hl| ->]; [apply Hlast in Hl; tauto|]. do 4 right. lia.
Qed.

End proofs.

(** ** Witnesses *)

(** An error that disables the retry is retried; one that allows it is not. *)
Definition refused (DisableRetry : bool) : option string * option go_error :=
  (None, Some (ProxyError DisableRetry "refused")).

Lemma RoundTrip_attempts_witness :
  RoundTrip (scripted [refused true; (Some "ok", None)]) 1 "GET" 0%nat = Returns ((Some "ok", None), 2%nat) ∧
  RoundTrip (scripted [refused false; (Some "ok", None)]) 1 "GET" 0%nat = Returns (refused false, 1%nat).
Proof.
  destruct (RoundTrip_attempts [refused true; (Some "ok", None)] 1 "GET") as (j & a & _ & _ & E & _);
    [done|cbn; lia|].
  split; [|vm_compute; reflexivity]. rewrite E. vm_compute in E. by injection E as <- <-.
Defined.
