(* ===== verification/Proxy.v ===== *)
(** * internal/proxy: the state of the proxy

    The record [ProxyState] and the computations on it.  A Go call returns,
    panics, or waits for a lock that is never released ([Block]); the state
    is kept in all three cases, because deferred functions run on it after a
    panic and other goroutines see it after a block.  When an operation of
    the resource manager or of a store panics, that part of the state is the
    one before the operation: what it had changed is not modelled.

    The lock [proxyLock] is held or not; a call that locks it while it is
    held blocks, since the holder here is the caller itself or a goroutine
    that is blocked in turn.  A goroutine that a call starts is recorded in
    [started], and runs as a call of its own afterwards.

    Parameters: mapstructure's decoding, goja and esbuild behind
    pkg/modules/extractors and pkg/typescript, the chi router, and crypto/tls. *)
From Stdlib Require Import ZArith Lia.
From stdpp Require Import base gmap strings list fin_maps.
From S2P Require Import Prelude Avl SliceUtil Pattern Spec Linker ResourceManager.
From S2P Require Import Storage ProxyStore Scheduler Cache ConfigResources.

(** ** Computations *)

Inductive exit (A : Type) : Type :=
  | Return (a : A)
  | Panic (msg : string)
  | Block.
Arguments Return {A} a.
Arguments Panic {A} msg.
Arguments Block {A}.

Definition Run (P A : Type) : Type := P → exit A * P.
#[export] Instance run_ret {P} : MRet (Run P) := λ A a p, (Return a, p).
#[export] Instance run_bind {P} : MBind (Run P) := λ A B f m p,
  match m p with
  | (Return a, p) => f a p
  | (Panic e, p) => (Panic e, p)
  | (Block, p) => (Block, p)
  end.

Definition run_get {P} : Run P P := λ p, (Return p, p).
Definition run_modify {P} (f : P → P) : Run P unit := λ p, (Return tt, f p).
Definition run_panic {P A} (msg : string) : Run P A := λ p, (Panic msg, p).

(** A part of the state, changed by a computation of its own. *)
Definition zoom {P S A} (get : P → S) (set : S → P → P) (m : ST S A) : Run P A := λ p,
  match m (get p) with
  | Returns (a, s) => (Return a, set s p)
  | Panics e => (Panic e, p)
  end.
Definition lift_outcome {P A} (o : outcome A) : Run P A := λ p,
  match o with Returns a => (Return a, p) | Panics e => (Panic e, p) end.

(** The equations of these computations, to rewrite with. *)
Lemma run_bind_unfold {P A B} (m : Run P A) (f : A → Run P B) p :
  (m ≫= f) p = match m p with
               | (Return a, p) => f a p
               | (Panic e, p) => (Panic e, p)
               | (Block, p) => (Block, p)
               end.
Proof. reflexivity. Qed.
Lemma run_ret_unfold {P A} (a : A) (p : P) : (mret a : Run P A) p = (Return a, p).
Proof. reflexivity. Qed.
Lemma run_get_unfold {P} (p : P) : run_get p = (Return p, p).
Proof. reflexivity. Qed.
Lemma run_modify_unfold {P} (f : P → P) p : run_modify f p = (Return tt, f p).
Proof. reflexivity. Qed.
Lemma run_panic_unfold {P A} msg (p : P) : (run_panic msg : Run P A) p = (Panic msg, p).
Proof. reflexivity. Qed.
Lemma zoom_unfold {P S A} (get : P → S) (set : S → P → P) (m : ST S A) p :
  zoom get set m p = match m (get p) with
                     | Returns (a, s) => (Return a, set s p)
                     | Panics e => (Panic e, p)
                     end.
Proof. reflexivity. Qed.
Lemma lift_outcome_unfold {P A} (o : outcome A) (p : P) :
  lift_outcome o p = match o with Returns a => (Return a, p) | Panics e => (Panic e, p) end.
Proof. reflexivity. Qed.
(** A sequence that returns, step by step. *)
Lemma run_bind_return {P A B} (m : Run P A) (f : A → Run P B) p b p' :
  (m ≫= f) p = (Return b, p') ↔ ∃ a p1, m p = (Return a, p1) ∧ f a p1 = (Return b, p').
Proof.
  rewrite run_bind_unfold. destruct (m p) as [[a|e|] p1]; split; try done.
  - by exists a, p1.
  - by intros (? & ? & [= <- <-] & ?).
  - by intros (? & ? & ? & ?).
  - by intros (? & ? & ? & ?).
Qed.
Lemma lift_outcome_return {P A} (o : outcome A) (p : P) a p' :
  lift_outcome o p = (Return a, p') ↔ o = Returns a ∧ p' = p.
Proof. unfold lift_outcome. destruct o; naive_solver. Qed.
Create HintDb run.
#[export] Hint Rewrite @run_bind_unfold @run_ret_unfold @run_get_unfold @run_modify_unfold
  @run_panic_unfold @zoom_unfold @lift_outcome_unfold : run.
Ltac go := autorewrite with run; cbv beta iota.

(** [defer func() { ... }()] in a function with the named result [err]: the
    deferred function runs after a return, and after a panic, when [err] is
    still nil; the panic then goes on. *)
Definition deferred {P} (d : option error → Run P (option error)) (m : Run P (option error))
    : Run P (option error) := λ p,
  match m p with
  | (Return err, p) => d err p
  | (Panic e, p) =>
    match d None p with
    | (Return _, p) => (Panic e, p)
    | (Panic e', p) => (Panic e', p)
    | (Block, p) => (Block, p)
    end
  | (Block, p) => (Block, p)
  end.

(** [if r := recover(); r != nil { err = fmt.Errorf(...) }] *)
Definition recovering {P} (m : Run P (option error)) : Run P (option error) := λ p,
  match m p with (Panic e, p) => (Return (Some e), p) | r => r end.

(** A sequence of calls, up to the first error. *)
Fixpoint each_ok {P A} (f : A → Run P (option error)) (l : list A) : Run P (option error) :=
  match l with
  | [] => mret None
  | a :: l => err ← f a; match err with Some e => mret (Some e) | None => each_ok f l end
  end.

(** A sequence of calls that all run; the first error ([errgroup.Wait]). *)
Fixpoint group {P A} (f : A → Run P (option error)) (l : list A) : Run P (option error) :=
  match l with
  | [] => mret None
  | a :: l => err ← f a; rest ← group f l;
              mret (match err with Some e => Some e | None => rest end)
  end.

(** ** The environment *)

(** What a module's program exports. *)
Inductive export := FetchUpstream | RequestModifier | ResponseModifier | ErrorHandler | RequestHandler.

(** A handler of a router: a provider and the pattern it is registered for. *)
Record handler : Type := MkHandler { h_provider : loc; h_pattern : string }.

Class ProxyEnv (E : Externals) (Any : Type) := {
  (** mapstructure, into each record *)
  decode_namespace : Any → gores Namespace.t;
  decode_service : Any → gores Service.t;
  decode_route : Any → gores Route.t;
  decode_module : Any → gores Module_.t;
  decode_domain : Any → gores Domain.t;
  decode_collection : Any → gores Collection.t;
  decode_document : Any → gores Document.t;
  decode_secret : Any → gores Secret.t;
  (** a record as the item of a change log *)
  item_namespace : Namespace.t → Any;
  item_service : Service.t → Any;
  item_route : Route.t → Any;
  item_module : Module_.t → Any;
  item_domain : Domain.t → Any;
  item_collection : Collection.t → Any;
  item_document : Document.t → Any;
  (** encoding/json on a string *)
  encode_string : string → gores string;
  (** goja and esbuild *)
  program : Type;
  module_loop : Type;
  module_fn : Type;
  Transpile : string → gores string;
  Compile : string → string → gores program;
  SetupModuleEventLoop : DGateRoute.t → list (option DGateModule.t) → option program → gores module_loop;
  extract : export → module_loop → gores (option module_fn);
  (** chi *)
  Mux : Type;
  NewMux : Mux;
  mux_Handle : Mux → string → handler → outcome Mux;
  mux_Method : Mux → string → string → handler → outcome Mux;
  (** the order in which [range] visits a map of routes *)
  range_routes : gmap string (list DGateRoute.t) → list (string * list DGateRoute.t);
  (** crypto/tls, net and os *)
  certificate : Type;
  X509KeyPair : string → string → gores certificate;
  SplitHostPort : string → gores (string * string);
  ReadFile : string → gores string }.

Class ProxyEnvLaws {E : Externals} {Any : Type} (X : ProxyEnv E Any) : Prop := {
  range_routes_perm m : range_routes m ≡ₚ map_to_list m }.

(** ** The state *)

Section state.
Context {E : Externals} {R : Runtime} {Any : Type} {C : Encoding E Any} {S : Type}.
Context {St : Storage S} {X : ProxyEnv E Any}.

Record ProxyConfig : Type := MkProxyConfig {
  AllowedDomains : slice string;
  RedirectHttpsDomains : slice string;
  StrictMode : bool;
  InitResources : option DGateResources }.
Record DGateConfig : Type := MkConfig {
  Debug : bool;
  DisableDefaultNamespace : bool;
  ProxyConfig_ : ProxyConfig }.

(** The values of the shared cache. *)
Inductive cached : Type :=
  | CachedString (s : string)
  | CachedBytes (s : string)
  | CachedCert (c : certificate).

(** A module extractor: the loop with the exported functions. *)
Record ModuleExtractor : Type := MkExtractor {
  me_loop : module_loop;
  me_fns : list (export * option module_fn) }.

(** A pool's context is a child of its provider's: [mp_done] says whether its
    own [cancel] was called. *)
Record ModulePool : Type := MkPool {
  mp_provider : loc;
  mp_min : Z; mp_max : Z; mp_done : bool; mp_closed : bool; modExtChan : list ModuleExtractor }.

Record RequestContextProvider : Type := MkProvider {
  rcp_route : DGateRoute.t;
  rcp_done : bool;
  modBuf : option loc }.

Inductive goroutine : Type :=
  | GoRestartState
  | GoCallback (err : option error).

Record ProxyState : Type := MkProxy {
  debugMode : bool;
  changeHash : Z;
  config : DGateConfig;
  store : S;
  sharedCache : @cacheImpl cached;
  proxyLock : bool;
  ready : bool;
  pendingChanges : bool;
  rm : ResourceManager;
  skdr : @scheduler unit;
  changeLogs : list (ChangeLog Any);
  providers : tree string loc;
  provider_objs : gmap loc RequestContextProvider;
  pool_objs : gmap loc ModulePool;
  modPrograms : tree string (option program);
  routers : tree string (option Mux);
  raft : option bool;
  raftEnabled : bool;
  docCache : list Document.t;
  started : list goroutine }.

Definition set_changeHash (x : Z) (p : ProxyState) : ProxyState :=
  MkProxy (debugMode p) x (config p) (store p) (sharedCache p) (proxyLock p) (ready p)
    (pendingChanges p) (rm p) (skdr p) (changeLogs p) (providers p) (provider_objs p) (pool_objs p)
    (modPrograms p) (routers p) (raft p) (raftEnabled p) (docCache p) (started p).
Definition set_store (x : S) (p : ProxyState) : ProxyState :=
  MkProxy (debugMode p) (changeHash p) (config p) x (sharedCache p) (proxyLock p) (ready p)
    (pendingChanges p) (rm p) (skdr p) (changeLogs p) (providers p) (provider_objs p) (pool_objs p)
    (modPrograms p) (routers p) (raft p) (raftEnabled p) (docCache p) (started p).
Definition set_sharedCache (x : @cacheImpl cached) (p : ProxyState) : ProxyState :=
  MkProxy (debugMode p) (changeHash p) (config p) (store p) x (proxyLock p) (ready p)
    (pendingChanges p) (rm p) (skdr p) (changeLogs p) (providers p) (provider_objs p) (pool_objs p)
    (modPrograms p) (routers p) (raft p) (raftEnabled p) (docCache p) (started p).
Definition set_proxyLock (x : bool) (p : ProxyState) : ProxyState :=
  MkProxy (debugMode p) (changeHash p) (config p) (store p) (sharedCache p) x (ready p)
    (pendingChanges p) (rm p) (skdr p) (changeLogs p) (providers p) (provider_objs p) (pool_objs p)
    (modPrograms p) (routers p) (raft p) (raftEnabled p) (docCache p) (started p).
Definition set_ready (x : bool) (p : ProxyState) : ProxyState :=
  MkProxy (debugMode p) (changeHash p) (config p) (store p) (sharedCache p) (proxyLock p) x
    (pendingChanges p) (rm p) (skdr p) (changeLogs p) (providers p) (provider_objs p) (pool_objs p)
    (modPrograms p) (routers p) (raft p) (raftEnabled p) (docCache p) (started p).
Definition set_pendingChanges (x : bool) (p : ProxyState) : ProxyState :=
  MkProxy (debugMode p) (changeHash p) (config p) (store p) (sharedCache p) (proxyLock p) (ready
    p) x (rm p) (skdr p) (changeLogs p) (providers p) (provider_objs p) (pool_objs p) (modPrograms p) (routers
    p) (raft p) (raftEnabled p) (docCache p) (started p).
Definition set_rm (x : ResourceManager) (p : ProxyState) : ProxyState :=
  MkProxy (debugMode p) (changeHash p) (config p) (store p) (sharedCache p) (proxyLock p) (ready
    p) (pendingChanges p) x (skdr p) (changeLogs p) (providers p) (provider_objs p) (pool_objs p) (modPrograms
    p) (routers p) (raft p) (raftEnabled p) (docCache p) (started p).
Definition set_skdr (x : @scheduler unit) (p : ProxyState) : ProxyState :=
  MkProxy (debugMode p) (changeHash p) (config p) (store p) (sharedCache p) (proxyLock p) (ready
    p) (pendingChanges p) (rm p) x (changeLogs p) (providers p) (provider_objs p) (pool_objs p) (modPrograms
    p) (routers p) (raft p) (raftEnabled p) (docCache p) (started p).
Definition set_changeLogs (x : list (ChangeLog Any)) (p : ProxyState) : ProxyState :=
  MkProxy (debugMode p) (changeHash p) (config p) (store p) (sharedCache p) (proxyLock p) (ready
    p) (pendingChanges p) (rm p) (skdr p) x (providers p) (provider_objs p) (pool_objs p) (modPrograms p)
    (routers p) (raft p) (raftEnabled p) (docCache p) (started p).
Definition set_providers (x : tree string loc) (p : ProxyState) : ProxyState :=
  MkProxy (debugMode p) (changeHash p) (config p) (store p) (sharedCache p) (proxyLock p) (ready
    p) (pendingChanges p) (rm p) (skdr p) (changeLogs p) x (provider_objs p) (pool_objs p) (modPrograms p)
    (routers p) (raft p) (raftEnabled p) (docCache p) (started p).
Definition set_provider_objs (x : gmap loc RequestContextProvider) (p : ProxyState) : ProxyState :=
  MkProxy (debugMode p) (changeHash p) (config p) (store p) (sharedCache p) (proxyLock p) (ready
    p) (pendingChanges p) (rm p) (skdr p) (changeLogs p) (providers p) x (pool_objs p) (modPrograms p)
    (routers p) (raft p) (raftEnabled p) (docCache p) (started p).
Definition set_pool_objs (x : gmap loc ModulePool) (p : ProxyState) : ProxyState :=
  MkProxy (debugMode p) (changeHash p) (config p) (store p) (sharedCache p) (proxyLock p) (ready
    p) (pendingChanges p) (rm p) (skdr p) (changeLogs p) (providers p) (provider_objs p) x (modPrograms p)
    (routers p) (raft p) (raftEnabled p) (docCache p) (started p).
Definition set_modPrograms (x : tree string (option program)) (p : ProxyState) : ProxyState :=
  MkProxy (debugMode p) (changeHash p) (config p) (store p) (sharedCache p) (proxyLock p) (ready
    p) (pendingChanges p) (rm p) (skdr p) (changeLogs p) (providers p) (provider_objs p) (pool_objs p) x
    (routers p) (raft p) (raftEnabled p) (docCache p) (started p).
Definition set_routers (x : tree string (option Mux)) (p : ProxyState) : ProxyState :=
  MkProxy (debugMode p) (changeHash p) (config p) (store p) (sharedCache p) (proxyLock p) (ready
    p) (pendingChanges p) (rm p) (skdr p) (changeLogs p) (providers p) (provider_objs p) (pool_objs p)
    (modPrograms p) x (raft p) (raftEnabled p) (docCache p) (started p).
Definition set_raft (x : option bool) (p : ProxyState) : ProxyState :=
  MkProxy (debugMode p) (changeHash p) (config p) (store p) (sharedCache p) (proxyLock p) (ready
    p) (pendingChanges p) (rm p) (skdr p) (changeLogs p) (providers p) (provider_objs p) (pool_objs p)
    (modPrograms p) (routers p) x (raftEnabled p) (docCache p) (started p).
Definition set_docCache (x : list Document.t) (p : ProxyState) : ProxyState :=
  MkProxy (debugMode p) (changeHash p) (config p) (store p) (sharedCache p) (proxyLock p) (ready
    p) (pendingChanges p) (rm p) (skdr p) (changeLogs p) (providers p) (provider_objs p) (pool_objs p)
    (modPrograms p) (routers p) (raft p) (raftEnabled p) x (started p).
Definition set_started (x : list goroutine) (p : ProxyState) : ProxyState :=
  MkProxy (debugMode p) (changeHash p) (config p) (store p) (sharedCache p) (proxyLock p) (ready
    p) (pendingChanges p) (rm p) (skdr p) (changeLogs p) (providers p) (provider_objs p) (pool_objs p)
    (modPrograms p) (routers p) (raft p) (raftEnabled p) (docCache p) x.

Abbreviation PS := (Run ProxyState).

Definition on_rm {A} : ST ResourceManager A → PS A := zoom rm set_rm.
Definition on_store {A} : ST S A → PS A := zoom store set_store.
Definition on_cache {A} : ST (@cacheImpl cached) A → PS A := zoom sharedCache set_sharedCache.

(** [ps.proxyLock.Lock()] and [Unlock()] *)
Definition Lock : PS unit := λ p,
  if proxyLock p then (Block, p) else (Return tt, set_proxyLock true p).
Definition Unlock : PS unit := run_modify (set_proxyLock false).

(** [go f()] *)
Definition go_ (g : goroutine) : PS unit := run_modify (λ p, set_started (started p ++ [g]) p).

(** [resources.NewManager] with the option [WithDefaultNamespace]. *)
Definition NewManagerWith (ns : option Namespace.t) : outcome ResourceManager :=
  match ns with
  | None => mret NewManager
  | Some ns => '(_, m) ← AddNamespace ns NewManager; mret m
  end.

(** The state that [NewProxyState] builds on a store. *)
Definition initial_state (dataStore : S) (conf : DGateConfig) (raftEnabled : bool)
    : outcome ProxyState :=
  m ← NewManagerWith (if DisableDefaultNamespace conf then None else Some DefaultNamespace);
  mret (MkProxy (Debug conf) 0 conf dataStore NewCache false false false m
    (New (MkOptions 0 false)) [] NewTree ∅ ∅ NewTree NewTree None raftEnabled [] []).

End state.

(** ** A concrete environment, for the witnesses

    Items are names; a decoded record has the item's name, and stands in the
    default namespace.  A router is the list of its registrations. *)
Section sample.
#[local] Existing Instance text_externals.

Definition named_route (name : string) : Route.t :=
  Route.mk name (Some ["/" +:+ name]) (Some ["GET"]) false false "svc" "default" None None.
Definition named_service (name : string) : Service.t :=
  Service.mk name (Some ["http://localhost:8080"]) "default" None None None None None None None None None.

Definition sample_env : ProxyEnv text_externals string := {|
  decode_namespace i := Ok (Namespace.mk i None);
  decode_service i := Ok (named_service i);
  decode_route i := Ok (named_route i);
  decode_module i := Ok (Module_.mk i "default" "" "javascript" None);
  decode_domain i := Ok (Domain.mk i "default" (Some [i]) 0 "" "" None);
  decode_collection i := Ok (Collection.mk text_externals i "default" (Some "{}")
    CollectionVisibilityPublic CollectionTypeDocument None);
  decode_document i := Ok (Document.mk text_externals i 0 0 "default" "c" (Some "{}"));
  decode_secret i := Ok (Secret.mk i "default" "" None);
  item_namespace := Namespace.Name; item_service := Service.Name; item_route := Route.Name;
  item_module := Module_.Name; item_domain := Domain.Name; item_collection := Collection.Name;
  item_document := Document.ID;
  encode_string := Ok;
  program := string; module_loop := unit; module_fn := unit;
  Transpile := Ok; Compile _ payload := Ok payload;
  SetupModuleEventLoop _ _ _ := Ok tt; extract _ _ := Ok None;
  Mux := list (string * string * handler); NewMux := [];
  mux_Handle m path h := Returns (m ++ [("*", path, h)]);
  mux_Method m method path h :=
    if String.eqb method "" then Panics "unsupported http method" else Returns (m ++ [(method, path, h)]);
  range_routes := map_to_list;
  certificate := string; X509KeyPair cert _ := Ok cert;
  SplitHostPort _ := Err "missing port in address"; 
  ReadFile name := if String.eqb name "m.js" then Ok "f()" else Err "no such file" |}.

Lemma sample_env_laws : ProxyEnvLaws sample_env.
Proof. by split. Qed.

Definition sample_config : @DGateConfig text_externals :=
  MkConfig false false (MkProxyConfig None None false None).

End sample.
