(* ===== verification/RequestContext.v ===== *)
(** * internal/proxy: request context providers and module pools

    request_context.go and module_executor.go.  Providers and pools are shared
    objects, a request keeps the pool it borrowed from: they live in the
    proxy's stores [provider_objs] and [pool_objs].  A context is the boolean
    that says whether it was cancelled, and a pool's context is a child of its
    provider's.  The channel of a pool is the list of the extractors it holds.
    The reverse proxy's builder is left out. *)
From Stdlib Require Import ZArith Lia.
From stdpp Require Import base gmap strings list fin_maps.
From S2P Require Import Prelude Avl SliceUtil Pattern Spec Linker ResourceManager.
From S2P Require Import Storage ProxyStore Scheduler Cache ConfigResources ProxyTransport Proxy.

Section code.
Context {E : Externals} {R : Runtime} {Any : Type} {C : Encoding E Any} {S : Type}.
Context {St : Storage S} {X : ProxyEnv E Any}.

Abbreviation PS := (Run (@ProxyState E Any S X)).

(** ** Providers *)

Definition provider_at (l : loc) : PS RequestContextProvider :=
  p ← run_get;
  match provider_objs p !! l with Some o => mret o | None => run_panic nil_deref end.
Definition set_provider (l : loc) (o : RequestContextProvider) : PS unit :=
  run_modify (λ p, set_provider_objs (<[l := o]> (provider_objs p)) p).

(** The transport that the provider's reverse proxy is built with. *)
Definition service_transport (svc : DGateService.t) : gores (round_tripper unit) :=
  Build (RequestTimeout (DGateService.RequestTimeout svc)
    (RetryTimeout (DGateService.RetryTimeout svc)
    (Retries (DGateService.Retries svc)
    (Transport tt (Clone NewBuilder))))).

Definition NewRequestContextProvider (route : DGateRoute.t) : PS loc :=
  match DGateRoute.Namespace route with
  | None => run_panic nil_deref
  | Some _ =>
    _ ← match DGateRoute.Service route with
        | Some svc => match service_transport svc with
                      | Err err => run_panic err | Ok _ => mret tt end
        | None => mret tt
        end;
    p ← run_get;
    let l := fresh ({[nil]} ∪ dom (provider_objs p) : gset loc) in
    _ ← set_provider l (MkProvider route false None);
    mret l
  end.

(** ** Module pools *)

Definition close_of_closed : string := "close of closed channel".
Definition send_on_closed : string := "send on closed channel".

Definition pool_at (l : loc) : PS ModulePool :=
  p ← run_get;
  match pool_objs p !! l with Some mb => mret mb | None => run_panic nil_deref end.
Definition set_pool (l : loc) (mb : ModulePool) : PS unit :=
  run_modify (λ p, set_pool_objs (<[l := mb]> (pool_objs p)) p).
Definition with_chan (chan : list ModuleExtractor) (mb : ModulePool) : ModulePool :=
  MkPool (mp_provider mb) (mp_min mb) (mp_max mb) (mp_done mb) (mp_closed mb) chan.

(** [mb.ctx.Err() != nil]: the pool's context or the provider's is cancelled. *)
Definition stale (mb : ModulePool) : PS bool :=
  if mp_done mb then mret true else o ← provider_at (mp_provider mb); mret (rcp_done o).

(** The pool's [Close]: [close] panics on a closed channel. *)
Definition pool_Close (l : loc) : PS unit :=
  mb ← pool_at l;
  _ ← set_pool l (MkPool (mp_provider mb) (mp_min mb) (mp_max mb) true (mp_closed mb) (modExtChan mb));
  if mp_closed mb then run_panic close_of_closed
  else set_pool l (MkPool (mp_provider mb) (mp_min mb) (mp_max mb) true true (modExtChan mb)).

Definition UpdateModulePool (l mb : loc) : PS unit :=
  o ← provider_at l;
  _ ← match modBuf o with Some old => pool_Close old | None => mret tt end;
  set_provider l (MkProvider (rcp_route o) (rcp_done o) (Some mb)).

Definition provider_Close (l : loc) : PS unit :=
  o ← provider_at l;
  _ ← match modBuf o with Some old => pool_Close old | None => mret tt end;
  set_provider l (MkProvider (rcp_route o) true None).

(** [NewModulePool]; the deferred loop adds [minBuffers] extractors, those
    that can be made. *)
Fixpoint fill_pool (n : nat) (createModExts : PS (gores ModuleExtractor)) (mb : loc) : PS unit :=
  match n with
  | O => mret tt
  | Datatypes.S n =>
    me ← createModExts;
    _ ← match me with
        | Ok me => o ← pool_at mb; set_pool mb (with_chan (modExtChan o ++ [me]) o)
        | Err _ => mret tt
        end;
    fill_pool n createModExts mb
  end.
Definition NewModulePool (minBuffers maxBuffers : Z) (reqCtxProvider : loc) (createModExts : PS (gores ModuleExtractor))
    : PS (gores loc) :=
  if maxBuffers <? minBuffers then run_panic "maxBuffers must be greater than minBuffers" else
  me ← createModExts;
  match me with
  | Err err => mret (Err err)
  | Ok _ =>
    if maxBuffers <? 0 then run_panic "makechan: size out of range" else
    p ← run_get;
    let mb := fresh ({[nil]} ∪ dom (pool_objs p) : gset loc) in
    _ ← set_pool mb (MkPool reqCtxProvider minBuffers maxBuffers false false []);
    _ ← fill_pool (Z.to_nat minBuffers) createModExts mb;
    mret (Ok mb)
  end.

(** [ModulePool]: the pool of a provider now. *)
Definition pool_of (l : loc) : PS (option loc) := o ← provider_at l; mret (modBuf o).

(** [Borrow]: nil if the pool is stale or no extractor can be made, or what a
    closed channel gives. *)
Definition Borrow (mb : loc) (createModExt : PS (gores ModuleExtractor)) : PS (option ModuleExtractor) :=
  o ← pool_at mb;
  s ← stale o;
  if s : bool then mret None else
  match modExtChan o with
  | me :: chan => _ ← set_pool mb (with_chan chan o); mret (Some me)
  | [] =>
    if mp_closed o then mret None
    else r ← createModExt; mret match r with Ok me => Some me | Err _ => None end
  end.

(** [Return]: the check of the context, and then the [select].  What does not
    fit, or comes back to a stale pool, is stopped; the answer says whether
    the extractor was kept. *)
Definition Return_check (mb : loc) : PS bool := o ← pool_at mb; s ← stale o; mret (negb s).
Definition Return_select (mb : loc) (me : ModuleExtractor) : PS bool :=
  o ← pool_at mb;
  if mp_closed o then run_panic send_on_closed
  else if Z.of_nat (length (modExtChan o)) <? mp_max o
       then _ ← set_pool mb (with_chan (modExtChan o ++ [me]) o); mret true
       else mret false.
Definition Return_ (mb : loc) (me : ModuleExtractor) : PS bool :=
  ok ← Return_check mb;
  if ok : bool then Return_select mb me else mret false.

End code.

(** ** The discipline of the pools *)

Section proofs.
Context {E : Externals} {R : Runtime} {Any : Type} {C : Encoding E Any} {S : Type}.
Context {St : Storage S} {X : ProxyEnv E Any}.
Implicit Types (p : @ProxyState E Any S X) (mb : ModulePool) (o : RequestContextProvider) (l pl : loc).

Abbreviation PS := (Run (@ProxyState E Any S X)).

(** A making of extractors does not change the proxy. *)
Definition reads (create : PS (gores ModuleExtractor)) : Prop := ∀ p r p', create p = (Return r, p') → p' = p.

(** A pool is made for a provider and becomes its pool. *)
Definition give_pool min max l (create : PS (gores ModuleExtractor)) : PS unit :=
  r ← NewModulePool min max l create;
  match r with Ok mb => UpdateModulePool l mb | Err _ => mret tt end.

(** What happens to providers and pools, at the hands of the configuration
    and of the requests, in any order. *)
Inductive pool_step : @ProxyState E Any S X → @ProxyState E Any S X → Prop :=
  | step_provider route l p p' : NewRequestContextProvider route p = (Return l, p') → pool_step p p'
  | step_pool min max l create p p' : reads create → is_Some (provider_objs p !! l) →
      give_pool min max l create p = (Return tt, p') → pool_step p p'
  | step_close l p p' : provider_Close l p = (Return tt, p') → pool_step p p'
  | step_borrow pl create p r p' : reads create → Borrow pl create p = (Return r, p') → pool_step p p'
  | step_return pl me p r p' : Return_ pl me p = (Return r, p') → pool_step p p'
  | step_other p p' : provider_objs p' = provider_objs p → pool_objs p' = pool_objs p → pool_step p p'.

Definition started_empty p : Prop := provider_objs p = ∅ ∧ pool_objs p = ∅.

(** At most [max] extractors; a channel is closed exactly when its pool's
    context is cancelled by its own [cancel]; the pool of a provider is one
    that was made for it, and is open. *)
Record pools_ok p : Prop := MkPoolsOk {
  po_pool : ∀ pl mb, pool_objs p !! pl = Some mb → Z.of_nat (length (modExtChan mb)) ≤ mp_max mb ∧
    mp_closed mb = mp_done mb ∧ is_Some (provider_objs p !! mp_provider mb);
  po_provider : ∀ l o pl, provider_objs p !! l = Some o → modBuf o = Some pl →
    ∃ mb, pool_objs p !! pl = Some mb ∧ mp_done mb = false ∧ mp_provider mb = l }.

Definition is_stale p mb : bool :=
  mp_done mb || match provider_objs p !! mp_provider mb with Some o => rcp_done o | None => false end.
Definition stale_pool p pl : Prop := ∃ mb, pool_objs p !! pl = Some mb ∧ is_stale p mb = true.

Lemma provider_at_ok p l o : provider_objs p !! l = Some o → provider_at l p = (Return o, p).
Proof. intros Hl. unfold provider_at. go. by rewrite Hl. Qed.
Lemma pool_at_ok p pl mb : pool_objs p !! pl = Some mb → pool_at pl p = (Return mb, p).
Proof. intros Hl. unfold pool_at. go. by rewrite Hl. Qed.
Lemma stale_ok p pl mb : pools_ok p → pool_objs p !! pl = Some mb → stale mb p = (Return (is_stale p mb), p).
Proof.
  intros Hp Hpl. destruct (po_pool p Hp pl mb Hpl) as (_ & _ & [o Ho]). unfold stale, is_stale. rewrite Ho.
  destruct (mp_done mb); [done|]. go. by rewrite (provider_at_ok p _ o Ho).
Qed.

(** *** What the operations do *)

Lemma Borrow_ok p pl mb create : pools_ok p → pool_objs p !! pl = Some mb →
  Borrow pl create p =
  if is_stale p mb then (Return None, p) else
  match modExtChan mb with
  | me :: chan => (Return (Some me), set_pool_objs (<[pl := with_chan chan mb]> (pool_objs p)) p)
  | [] => (r ← create; mret match r with Ok me => Some me | Err _ => None end) p
  end.
Proof.
  intros Hp Hpl. unfold Borrow. go. rewrite (pool_at_ok p pl mb Hpl). go. rewrite (stale_ok p pl mb Hp Hpl). go.
  destruct (is_stale p mb) eqn:Hs; [done|]. destruct (modExtChan mb) as [|me chan]; [|done].
  destruct (po_pool p Hp pl mb Hpl) as (_ & Hc & _). rewrite Hc. unfold is_stale in Hs. by destruct (mp_done mb).
Qed.
Lemma Return_ok p pl mb me : pools_ok p → pool_objs p !! pl = Some mb →
  Return_ pl me p =
  if is_stale p mb then (Return false, p) else
  if Z.of_nat (length (modExtChan mb)) <? mp_max mb
  then (Return true, set_pool_objs (<[pl := with_chan (modExtChan mb ++ [me]) mb]> (pool_objs p)) p)
  else (Return false, p).
Proof.
  intros Hp Hpl. unfold Return_, Return_check. go. rewrite (pool_at_ok p pl mb Hpl). go.
  rewrite (stale_ok p pl mb Hp Hpl). go. destruct (is_stale p mb) eqn:Hs; [done|]. cbn [negb]. unfold Return_select.
  go. rewrite (pool_at_ok p pl mb Hpl). go. destruct (po_pool p Hp pl mb Hpl) as (_ & Hc & _). rewrite Hc.
  unfold is_stale in Hs. destruct (mp_done mb); [done|]. by destruct (Z.ltb _ _).
Qed.

(** The state with a pool closed. *)
Definition shut mb : ModulePool := MkPool (mp_provider mb) (mp_min mb) (mp_max mb) true true (modExtChan mb).
Lemma pool_Close_ok p pl mb : pools_ok p → pool_objs p !! pl = Some mb → mp_done mb = false →
  pool_Close pl p = (Return tt, set_pool_objs (<[pl := shut mb]> (pool_objs p)) p).
Proof.
  intros Hp Hpl Hd. destruct (po_pool p Hp pl mb Hpl) as (_ & Hc & _). rewrite Hd in Hc.
  unfold pool_Close, set_pool. go. rewrite (pool_at_ok p pl mb Hpl). go. rewrite Hc. go.
  unfold set_pool_objs. cbn. by rewrite insert_insert_eq.
Qed.

(** The pools after the one of a provider is closed, if it has one. *)
Definition retired p o : gmap loc ModulePool :=
  match modBuf o with
  | Some pl => match pool_objs p !! pl with Some mb => <[pl := shut mb]> (pool_objs p) | None => pool_objs p end
  | None => pool_objs p
  end.
Lemma set_pool_objs_id p : set_pool_objs (pool_objs p) p = p.
Proof. by destruct p. Qed.
Lemma close_old_ok p l o : pools_ok p → provider_objs p !! l = Some o →
  match modBuf o with Some old => pool_Close old | None => mret tt end p =
  (Return tt, set_pool_objs (retired p o) p).
Proof.
  intros Hp Hl. unfold retired. destruct (modBuf o) as [pl|] eqn:Hb; [|by rewrite set_pool_objs_id].
  destruct (po_provider p Hp l o pl Hl Hb) as (mb & Hpl & Hd & _). rewrite Hpl. by apply pool_Close_ok.
Qed.
Lemma provider_Close_ok p l o : pools_ok p → provider_objs p !! l = Some o →
  provider_Close l p = (Return tt,
    set_provider_objs (<[l := MkProvider (rcp_route o) true None]> (provider_objs p)) (set_pool_objs (retired p o) p)).
Proof.
  intros Hp Hl. unfold provider_Close, set_provider. go. rewrite (provider_at_ok p l o Hl). go.
  by rewrite (close_old_ok p l o Hp Hl).
Qed.
Lemma UpdateModulePool_ok p l o new : pools_ok p → provider_objs p !! l = Some o →
  UpdateModulePool l new p = (Return tt,
    set_provider_objs (<[l := MkProvider (rcp_route o) (rcp_done o) (Some new)]> (provider_objs p))
      (set_pool_objs (retired p o) p)).
Proof.
  intros Hp Hl. unfold UpdateModulePool, set_provider. go. rewrite (provider_at_ok p l o Hl). go.
  by rewrite (close_old_ok p l o Hp Hl).
Qed.

Lemma fill_pool_ok n create p pl mb p' : reads create → pool_objs p !! pl = Some mb →
  fill_pool n create pl p = (Return tt, p') → ∃ chan, (length chan ≤ n)%nat ∧
  p' = set_pool_objs (<[pl := with_chan (modExtChan mb ++ chan) mb]> (pool_objs p)) p.
Proof.
  intros Hc. revert p mb. induction n as [|n IH]; intros p mb Hpl; cbn [fill_pool].
  { intros [= <-]. exists []. split; [done|]. rewrite app_nil_r.
    assert (with_chan (modExtChan mb) mb = mb) as -> by by destruct mb. by rewrite insert_id, set_pool_objs_id. }
  rewrite run_bind_return. intros (r & p1 & H1 & H2). apply Hc in H1 as ->.
  rewrite run_bind_return in H2. destruct H2 as ([] & p2 & H2 & H3). destruct r as [me|e].
  - revert H2. go. rewrite (pool_at_ok p pl mb Hpl). unfold set_pool. go. intros [= <-].
    apply (IH _ (with_chan (modExtChan mb ++ [me]) mb)) in H3 as (chan & Hlen & ->); [|cbn; apply lookup_insert_eq].
    exists (me :: chan). split; [cbn; lia|]. unfold set_pool_objs. cbn. rewrite insert_insert_eq, <-app_assoc. done.
  - injection H2 as <-. destruct (IH p mb Hpl H3) as (chan & Hlen & ->). exists chan. split; [lia|done].
Qed.
Lemma NewModulePool_ok min max l create p r p' : reads create → NewModulePool min max l create p = (Return r, p') →
  match r with
  | Err _ => p' = p
  | Ok pl => pool_objs p !! pl = None ∧ pl ≠ nil ∧ ∃ chan, Z.of_nat (length chan) ≤ max ∧
      p' = set_pool_objs (<[pl := MkPool l min max false false chan]> (pool_objs p)) p
  end.
Proof.
  intros Hc. unfold NewModulePool. destruct (Z.ltb_spec max min) as [|Hmm]; [done|].
  rewrite run_bind_return. intros (me & p1 & H1 & H2). apply Hc in H1 as ->.
  destruct me as [me|e]; [|by injection H2 as <- <-]. destruct (Z.ltb_spec max 0) as [|Hm0]; [done|]. revert H2. go.
  pose proof (is_fresh ({[nil]} ∪ dom (pool_objs p) : gset loc)) as Hf.
  rewrite not_elem_of_union, not_elem_of_singleton, not_elem_of_dom in Hf.
  set (pl := fresh _) in *. unfold set_pool. go.
  match goal with |- context [fill_pool _ _ _ ?q] => destruct (fill_pool (Z.to_nat min) create pl q) as [[[]|e|] p2] eqn:E1 end;
    [|done..]. intros [= <- <-]. split; [tauto|]. split; [tauto|].
  apply (fill_pool_ok _ _ _ _ (MkPool l min max false false [])) in E1 as (chan & Hlen & ->); [|done|cbn; apply lookup_insert_eq].
  exists chan. split; [lia|]. unfold set_pool_objs, with_chan. cbn. by rewrite insert_insert_eq.
Qed.

(** *** What the operations keep *)

Definition keeps_stale p p' : Prop := ∀ pl, stale_pool p pl → stale_pool p' pl.

Lemma keep_chan p pl mb chan : pools_ok p → pool_objs p !! pl = Some mb → Z.of_nat (length chan) ≤ mp_max mb →
  let p' := set_pool_objs (<[pl := with_chan chan mb]> (pool_objs p)) p in pools_ok p' ∧ keeps_stale p p'.
Proof.
  intros [Hpool Hprov] Hpl Hlen. cbn zeta. split; [split; cbn|].
  - intros pl' mb'. rewrite lookup_insert. case_decide as Heq; [|by apply Hpool]. intros [= <-].
    destruct (Hpool pl mb Hpl) as (_ & Hc & Ho). done.
  - intros l o pl' Hl Hb. destruct (Hprov l o pl' Hl Hb) as (mb' & Hpl' & Hd & Hm). rewrite lookup_insert.
    case_decide as Heq; [|by exists mb']. subst pl'. rewrite Hpl in Hpl'. injection Hpl' as <-. by eexists.
  - intros pl' (mb' & Hpl' & Hs). unfold stale_pool. cbn. rewrite lookup_insert. case_decide as Heq; [|by exists mb'].
    subst pl'. rewrite Hpl in Hpl'. injection Hpl' as <-. by eexists.
Qed.

Lemma keep_new_provider p l rt : pools_ok p → provider_objs p !! l = None →
  let p' := set_provider_objs (<[l := MkProvider rt false None]> (provider_objs p)) p in pools_ok p' ∧ keeps_stale p p'.
Proof.
  intros [Hpool Hprov] Hl. cbn zeta. split; [split; cbn|].
  - intros pl mb Hpl. destruct (Hpool pl mb Hpl) as (? & ? & Ho). split; [done|]. split; [done|].
    rewrite lookup_insert. by case_decide.
  - intros l' o pl. rewrite lookup_insert. case_decide as Heq; [by intros [= <-]|]. by apply Hprov.
  - intros pl (mb & Hpl & Hs). exists mb. split; [done|]. destruct (Hpool pl mb Hpl) as (_ & _ & [o Ho]).
    unfold is_stale in *. cbn. rewrite lookup_insert_ne by congruence. done.
Qed.

Lemma keep_new_pool p l pl min max chan : pools_ok p → pool_objs p !! pl = None → is_Some (provider_objs p !! l) →
  Z.of_nat (length chan) ≤ max →
  let p' := set_pool_objs (<[pl := MkPool l min max false false chan]> (pool_objs p)) p in pools_ok p' ∧ keeps_stale p p'.
Proof.
  intros [Hpool Hprov] Hpl Hl Hlen. cbn zeta. split; [split; cbn|].
  - intros pl' mb. rewrite lookup_insert. case_decide as Heq; [|by apply Hpool]. by intros [= <-].
  - intros l' o pl' Hl' Hb. destruct (Hprov l' o pl' Hl' Hb) as (mb & Hpl' & ?). exists mb.
    rewrite lookup_insert_ne by congruence. done.
  - intros pl' (mb & Hpl' & Hs). exists mb. split; [|done]. cbn. by rewrite lookup_insert_ne by congruence.
Qed.

Lemma retired_lookup p o pl :
  retired p o !! pl = if decide (modBuf o = Some pl) then shut <$> pool_objs p !! pl else pool_objs p !! pl.
Proof.
  unfold retired. destruct (modBuf o) as [pl0|]; [|by case_decide].
  destruct (decide (pl0 = pl)) as [->|Hne].
  - rewrite decide_True by done. destruct (pool_objs p !! pl) as [mb|] eqn:Hpl; [by rewrite lookup_insert_eq|done].
  - rewrite decide_False by congruence. by destruct (pool_objs p !! pl0); rewrite ?lookup_insert_ne by done.
Qed.

(** A provider gives up its pool, for none or for a new one. *)
Lemma keep_retired p l o (d : bool) new : pools_ok p → provider_objs p !! l = Some o → (rcp_done o = true → d = true) →
  (∀ pl, new = Some pl → modBuf o ≠ Some pl ∧
     ∃ mb, pool_objs p !! pl = Some mb ∧ mp_done mb = false ∧ mp_provider mb = l) →
  let p' := set_provider_objs (<[l := MkProvider (rcp_route o) d new]> (provider_objs p)) (set_pool_objs (retired p o) p) in
  pools_ok p' ∧ keeps_stale p p' ∧ (∀ pl, modBuf o = Some pl → stale_pool p' pl) ∧
  (d = true → ∀ pl mb, pool_objs p !! pl = Some mb → mp_provider mb = l → stale_pool p' pl).
Proof.
  intros [Hpool Hprov] Hl Hd Hnew. cbn zeta.
  assert (∀ pl, modBuf o = Some pl → ∃ mb, pool_objs p !! pl = Some mb) as Hold.
  { intros pl Hb. destruct (Hprov l o pl Hl Hb) as (mb & ? & _). by exists mb. }
  assert (∀ l', is_Some (provider_objs p !! l') → is_Some (<[l := MkProvider (rcp_route o) d new]> (provider_objs p) !! l')) as Hin.
  { intros l' ?. rewrite lookup_insert. by case_decide. }
  split; [split; cbn|split; [|split]].
  - intros pl mb. rewrite retired_lookup. intros Hpl.
    case_decide; [|destruct (Hpool pl mb Hpl) as (? & ? & ?); auto].
    apply fmap_Some in Hpl as (mb0 & Hpl & ->). destruct (Hpool pl mb0 Hpl) as (? & ? & ?). cbn. auto.
  - intros l' o' pl. rewrite lookup_insert. case_decide as Heq.
    + intros [= <-] Hb. subst l'. destruct (Hnew pl Hb) as (Hne & mb & Hpl & ?). exists mb.
      by rewrite retired_lookup, decide_False.
    + intros Hl' Hb. destruct (Hprov l' o' pl Hl' Hb) as (mb & Hpl & Hdn & Hm). exists mb.
      rewrite retired_lookup, decide_False; [done|]. intros Hb'.
      destruct (Hprov l o pl Hl Hb') as (mb' & Hpl' & _ & Hm'). congruence.
  - intros pl (mb & Hpl & Hs). unfold stale_pool, is_stale in *. cbn. rewrite retired_lookup, Hpl.
    case_decide; [by exists (shut mb)|]. exists mb. split; [done|].
    destruct (mp_done mb); [done|]. cbn in *. rewrite lookup_insert. case_decide as Heq; [|done].
    subst l. rewrite Hl in Hs. cbn. auto.
  - intros pl Hb. destruct (Hold pl Hb) as [mb Hpl]. exists (shut mb). cbn. by rewrite retired_lookup, decide_True, Hpl.
  - intros -> pl mb Hpl <-. unfold stale_pool, is_stale. cbn. rewrite retired_lookup, Hpl.
    case_decide; [by exists (shut mb)|]. exists mb. split; [done|]. rewrite lookup_insert_eq. cbn. apply orb_true_r.
Qed.

(** A pool that is given to a provider, and the one before. *)
Lemma give_pool_ok min max l create p o p' : pools_ok p → reads create → provider_objs p !! l = Some o →
  give_pool min max l create p = (Return tt, p') →
  pools_ok p' ∧ keeps_stale p p' ∧
  (p' = p ∨ ∃ new mb, pool_objs p !! new = None ∧ pool_objs p' !! new = Some mb ∧ mp_max mb = max ∧
     provider_objs p' !! l = Some (MkProvider (rcp_route o) (rcp_done o) (Some new)) ∧
     is_stale p' mb = rcp_done o ∧ ∀ pl, modBuf o = Some pl → stale_pool p' pl).
Proof.
  intros Hp Hc Hl. unfold give_pool. rewrite run_bind_return. intros (r & p1 & H1 & H2).
  apply NewModulePool_ok in H1; [|done]. destruct r as [new|e].
  2:{ subst p1. injection H2 as <-. split; [done|]. split; [by intros pl|]. by left. }
  destruct H1 as (Hfree & _ & chan & Hlen & ->).
  destruct (keep_new_pool p l new min max chan Hp Hfree ltac:(by eexists) Hlen) as [Hp1 Hs1].
  set (p1 := set_pool_objs _ p) in *. rewrite (UpdateModulePool_ok p1 l o new Hp1 Hl) in H2. injection H2 as <-.
  assert (modBuf o ≠ Some new) as Hne.
  { intros Hb. destruct (po_provider p Hp l o new Hl Hb) as (? & ? & _). congruence. }
  destruct (keep_retired p1 l o (rcp_done o) (Some new) Hp1 Hl (λ H, H)) as (Hp2 & Hs2 & Hold & _).
  { intros pl [= <-]. split; [done|]. eexists. split; [cbn; apply lookup_insert_eq|done]. }
  split; [done|]. split; [intros pl ?; auto|]. right. exists new, (MkPool l min max false false chan).
  split; [done|]. cbn. split; [|split; [done|split; [apply lookup_insert_eq|split; [|done]]]].
  - rewrite retired_lookup, decide_False by done. cbn. apply lookup_insert_eq.
  - unfold is_stale. cbn. by rewrite lookup_insert_eq.
Qed.

Lemma same_keeps p : pools_ok p → pools_ok p ∧ keeps_stale p p.
Proof. intros Hp. split; [done|]. by intros pl. Qed.
Lemma pool_step_keeps p p' : pools_ok p → pool_step p p' → pools_ok p' ∧ keeps_stale p p'.
Proof.
  intros Hp Hstep. destruct Hstep as [route l p p' H|min max l create p p' Hc [o Hl] H|l p p' H|pl create p r p' Hc H|
    pl me p r p' H|p p' Ho Hpo].
  - unfold NewRequestContextProvider in H. destruct (DGateRoute.Namespace route); [|done]. revert H.
    rewrite run_bind_return. intros ([] & p1 & H1 & H2).
    assert (p1 = p) as ->.
    { destruct (DGateRoute.Service route); [destruct (service_transport _); [|done]|]; by injection H1. }
    revert H2. unfold set_provider. go. intros [= <- <-].
    pose proof (is_fresh ({[nil]} ∪ dom (provider_objs p) : gset loc)) as Hf.
    rewrite not_elem_of_union, not_elem_of_dom in Hf. apply keep_new_provider; tauto.
  - destruct (give_pool_ok min max l create p o p' Hp Hc Hl H) as (Hq & Hk & _). by split.
  - destruct (provider_objs p !! l) as [o|] eqn:Hl.
    2:{ unfold provider_Close, provider_at in H. revert H. go. by rewrite Hl. }
    rewrite (provider_Close_ok p l o Hp Hl) in H. injection H as <-.
    destruct (keep_retired p l o true None Hp Hl) as (Hq & Hk & _); [done|done|by split].
  - destruct (pool_objs p !! pl) as [mb|] eqn:Hpl.
    2:{ unfold Borrow, pool_at in H. revert H. go. by rewrite Hpl. }
    rewrite (Borrow_ok p pl mb create Hp Hpl) in H. destruct (is_stale p mb); [injection H as _ <-; by apply same_keeps|].
    destruct (modExtChan mb) as [|me chan] eqn:Hch.
    + rewrite run_bind_return in H. destruct H as (x & p1 & H1 & H2). apply Hc in H1 as ->. injection H2 as _ <-. by apply same_keeps.
    + injection H as _ <-. apply (keep_chan p pl mb chan Hp Hpl).
      destruct (po_pool p Hp pl mb Hpl) as (Hlen & _). rewrite Hch in Hlen. cbn in Hlen. lia.
  - destruct (pool_objs p !! pl) as [mb|] eqn:Hpl.
    2:{ unfold Return_, Return_check, pool_at in H. revert H. go. by rewrite Hpl. }
    rewrite (Return_ok p pl mb me Hp Hpl) in H. destruct (is_stale p mb); [injection H as _ <-; by apply same_keeps|].
    destruct (Z.ltb_spec (Z.of_nat (length (modExtChan mb))) (mp_max mb)) as [Hlt|]; injection H as _ <-; [|by apply same_keeps].
    apply (keep_chan p pl mb _ Hp Hpl). rewrite length_app. cbn. lia.
  - split; [split; rewrite ?Ho, ?Hpo; apply Hp|]. intros pl (mb & Hpl & Hs). exists mb. unfold is_stale. by rewrite Ho, Hpo.
Qed.
Lemma pool_steps_keep p p' : rtc pool_step p p' → pools_ok p → pools_ok p' ∧ keeps_stale p p'.
Proof.
  induction 1 as [p|p p1 p' Hstep _ IH]; intros Hp; [by apply same_keeps|].
  destruct (pool_step_keeps p p1 Hp Hstep) as [Hp1 Hs1]. destruct (IH Hp1) as [Hp' Hs']. split; [done|].
  intros pl Hpl. auto.
Qed.
Lemma started_empty_ok p : started_empty p → pools_ok p.
Proof. intros [Ho Hp]. split; rewrite ?Ho, ?Hp; intros *; by rewrite lookup_empty. Qed.

(** From [p] on, whatever happens, a pool lends nothing, and what is returned
    to it is stopped; neither panics. *)
Definition abandoned pl p : Prop := ∀ p', rtc pool_step p p' →
  (∀ create, Borrow pl create p' = (Return None, p')) ∧ (∀ me, Return_ pl me p' = (Return false, p')).

Lemma stale_abandoned p pl : pools_ok p → stale_pool p pl → abandoned pl p.
Proof.
  intros Hp Hs p' Hsteps. destruct (pool_steps_keep p p' Hsteps Hp) as [Hp' Hk].
  destruct (Hk pl Hs) as (mb & Hpl & Hst).
  split; [intros create; rewrite (Borrow_ok p' pl mb)|intros me; rewrite (Return_ok p' pl mb)]; try done; by rewrite Hst.
Qed.

(** C39: From a proxy without providers, whatever the configuration and the
    requests did to providers and pools since.  A pool holds no more than its
    bound.  Closing a provider returns: the pools made for it are abandoned,
    also by the requests that hold one of them, which then borrow nothing and
    stop what they return, for ever and without a panic.  A new pool becomes
    the provider's, and the one before is abandoned likewise.  A pool that is
    not stale keeps what is returned as long as there is room, and lends what
    was returned first, or a new extractor when it holds none.
    [Borrow] and [Return] are one step each; a [Close] between the two halves
    of [Return] makes it panic ([return_race]). *)
Theorem pool_discipline p0 p : started_empty p0 → rtc pool_step p0 p →
  (∀ pl mb, pool_objs p !! pl = Some mb → Z.of_nat (length (modExtChan mb)) ≤ mp_max mb) ∧
  (∀ l, is_Some (provider_objs p !! l) → ∃ p', provider_Close l p = (Return tt, p') ∧
     ∀ pl mb, pool_objs p !! pl = Some mb → mp_provider mb = l → abandoned pl p') ∧
  (∀ min max l create o p', reads create → provider_objs p !! l = Some o →
     give_pool min max l create p = (Return tt, p') → p' = p ∨
     (∃ new mb, provider_objs p' !! l = Some (MkProvider (rcp_route o) (rcp_done o) (Some new)) ∧
        pool_objs p' !! new = Some mb ∧ mp_max mb = max ∧ is_stale p' mb = rcp_done o) ∧
     ∀ pl, modBuf o = Some pl → abandoned pl p') ∧
  (∀ pl mb, pool_objs p !! pl = Some mb → is_stale p mb = false →
     (∀ me, Return_ pl me p =
        if Z.of_nat (length (modExtChan mb)) <? mp_max mb
        then (Return true, set_pool_objs (<[pl := with_chan (modExtChan mb ++ [me]) mb]> (pool_objs p)) p)
        else (Return false, p)) ∧
     (∀ create, Borrow pl create p =
        match modExtChan mb with
        | me :: chan => (Return (Some me), set_pool_objs (<[pl := with_chan chan mb]> (pool_objs p)) p)
        | [] => (r ← create; mret match r with Ok me => Some me | Err _ => None end) p
        end)).
Proof.
  intros H0 Hsteps. destruct (pool_steps_keep p0 p Hsteps (started_empty_ok p0 H0)) as [Hp _].
  split; [intros pl mb Hpl; by apply (po_pool p Hp pl)|]. split; [|split].
  - intros l [o Hl]. eexists. split; [by apply provider_Close_ok|].
    destruct (keep_retired p l o true None Hp Hl) as (Hp' & _ & _ & Hst); [done..|].
    intros pl mb Hpl Hm. apply stale_abandoned; [done|]. by apply (Hst eq_refl pl mb).
  - intros min max l create o p' Hc Hl H.
    destruct (give_pool_ok min max l create p o p' Hp Hc Hl H) as (Hp' & _ & [->|Hnew]); [by left|right].
    destruct Hnew as (new & mb & _ & Hnew & Hmax & Hl' & Hst & Hold). split; [by exists new, mb|].
    intros pl Hb. apply stale_abandoned; auto.
  - intros pl mb Hpl Hst. split.
    + intros me. by rewrite (Return_ok p pl mb me Hp Hpl), Hst.
    + intros create. by rewrite (Borrow_ok p pl mb create Hp Hpl), Hst.
Qed.

(** [Return] is not one step: a provider that is closed between the check of
    the context and the [select] makes it panic. *)
Theorem return_race p l o pl mb me : pools_ok p → provider_objs p !! l = Some o → modBuf o = Some pl →
  pool_objs p !! pl = Some mb → is_stale p mb = false → ∃ p' p'',
  Return_check pl p = (Return true, p) ∧ provider_Close l p = (Return tt, p') ∧
  Return_select pl me p' = (Panic send_on_closed, p'').
Proof.
  intros Hp Hl Hb Hpl Hst. do 2 eexists. split; [|split; [by apply provider_Close_ok|]].
  - unfold Return_check. go. rewrite (pool_at_ok p pl mb Hpl). go. rewrite (stale_ok p pl mb Hp Hpl). go. by rewrite Hst.
  - unfold Return_select. go. erewrite (pool_at_ok _ pl (shut mb)); [reflexivity|]. cbn.
    by rewrite retired_lookup, decide_True, Hpl.
Qed.

End proofs.

(** ** Witness *)

Section witness.
#[local] Existing Instances text_externals sample_env.

Abbreviation sample_proxy := (@ProxyState text_externals string Mem.MemStore sample_env).
Definition lone_route : @DGateRoute.t text_externals :=
  DGateRoute.mk text_externals "r" (Some ["/"]) (Some ["GET"]) false false None (Some sample_ns) None None.
Definition an_extractor : ModuleExtractor := MkExtractor tt [].
Definition one_extractor : Run sample_proxy (gores ModuleExtractor) := mret (Ok an_extractor).

Definition empty_proxy : sample_proxy :=
  MkProxy false 0 sample_config Mem.NewMemStore NewCache false false false NewManager
    (New (MkOptions 0 false)) [] NewTree ∅ ∅ NewTree NewTree None false [] [].
(** A provider, its pool of one extractor and room for two, and a request that
    borrowed the extractor. *)
Definition with_provider : sample_proxy := (NewRequestContextProvider lone_route empty_proxy).2.
Definition with_pool : sample_proxy := (give_pool 1 2 1%N one_extractor with_provider).2.
Definition lent : sample_proxy := (Borrow 1%N one_extractor with_pool).2.

Lemma ends_in {A} (m : Run sample_proxy A) p x : (m p).1 = x → m p = (x, (m p).2).
Proof. intros <-. apply surjective_pairing. Qed.
Lemma one_reads : reads one_extractor.
Proof. intros p r p'. unfold one_extractor. by intros [= _ <-]. Qed.
Lemma lent_steps : rtc pool_step empty_proxy lent.
Proof.
  apply (rtc_l _ _ with_provider).
  { eapply (step_provider lone_route 1%N), ends_in. vm_compute. reflexivity. }
  apply (rtc_l _ _ with_pool).
  { eapply (step_pool 1 2 1%N one_extractor); [apply one_reads|vm_compute; by eexists|]. apply ends_in. vm_compute. reflexivity. }
  apply rtc_once. eapply (step_borrow 1%N one_extractor _ (Some an_extractor)); [apply one_reads|].
  apply ends_in. vm_compute. reflexivity.
Qed.

Lemma pool_discipline_witness :
  (Borrow 1%N one_extractor with_pool).1 = Return (Some an_extractor) ∧
  ∃ p', provider_Close 1%N lent = (Return tt, p') ∧ Return_ 1%N an_extractor p' = (Return false, p').
Proof.
  split; [vm_compute; reflexivity|].
  destruct (pool_discipline empty_proxy lent (conj eq_refl eq_refl) lent_steps) as (_ & Hclose & _).
  destruct (Hclose 1%N) as (p' & Ec & Hab); [vm_compute; by eexists|]. exists p'. split; [exact Ec|].
  destruct (pool_objs lent !! 1%N) as [mb|] eqn:Hmb; [|by vm_compute in Hmb].
  apply (Hab 1%N mb Hmb); [|reflexivity]. vm_compute in Hmb. by injection Hmb as <-.
Defined.
End witness.
