(* ===== verification/DynamicProxy.v ===== *)
(** * internal/proxy/dynamic_proxy.go: modules, providers and routers

    [reconfigureState] compiles the modules of the routes, makes a provider
    per route and a router per namespace.  [customErrGroup] limits its group
    to one goroutine ([group_limit]), so the group's functions run one after
    the other, all of them.  The servers, [Start]'s listening and [Stop]'s
    exit are left out; logging and metrics too. *)
From Stdlib Require Import ZArith Lia.
From stdpp Require Import base gmap strings list fin_maps.
From S2P Require Import Prelude Avl SliceUtil Pattern Spec Linker ResourceManager.
From S2P Require Import Storage ProxyStore Scheduler Cache Util ConfigResources ProxyTransport.
From S2P Require Import Proxy RequestContext.

(** [min(1, max(16, log2 count))] *)
Definition customErrGroup (count : Z) : Z := Z.min 1 (Z.max 16 (Z.log2 count)).
Lemma group_limit count : customErrGroup count = 1.
Proof. unfold customErrGroup. lia. Qed.

(** ** The code *)

Section code.
Context {E : Externals} {R : Runtime} {Any : Type} {C : Encoding E Any} {S : Type}.
Context {St : Storage S} {X : ProxyEnv E Any}.

Abbreviation PS := (Run (@ProxyState E Any S X)).
Abbreviation programs := (tree string (option program)).

Definition Minute : Z := 60 * Second.

(** *** setupModules *)

(** The JavaScript of a module; TypeScript is transpiled through the cache. *)
Definition transpile (now : Z) (tsHash modPayload : string) : PS (gores string) :=
  match Transpile modPayload with
  | Err err => mret (Err err)
  | Ok modPayload =>
    _ ← on_cache (in_bucket "typescript" (SetWithTTL now tsHash (CachedString modPayload) (5 * Minute)));
    mret (Ok modPayload)
  end.
Definition module_payload (now : Z) (md : DGateModule.t) : PS (gores string) :=
  let modPayload := DGateModule.Payload md in
  if String.eqb (DGateModule.Type_ md) ModuleTypeTypescript then
    _ ← on_cache (Cache.Bucket now "typescript");
    match HashString encode_string 1337 [modPayload] with
    | Err _ => transpile now "" modPayload
    | Ok tsHash =>
      cacheData ← on_cache (in_bucket "typescript" (Cache.Get now tsHash));
      match cacheData with
      | Some (CachedString modPayload) => mret (Ok modPayload)
      | Some _ => transpile now tsHash ""
      | None => transpile now tsHash modPayload
      end
    end
  else mret (Ok modPayload).

Definition namespace_name (rt : DGateRoute.t) : outcome string :=
  deref (DGateRoute.Namespace rt) DGateNamespace.Name.

(** [NewRuntimeContext]: the records it copies; the loop is made later. *)
Definition NewRuntimeContext (rt : DGateRoute.t) (mods : list (option DGateModule.t)) : PS unit :=
  _ ← lift_outcome (foldr (λ m rest, match m with
        | Some m => _ ← TransformDGateModule m; rest
        | None => Panics nil_deref end) (Returns tt) mods);
  _ ← lift_outcome (TransformDGateRoute rt); mret tt.

(** The goroutine of a route with modules: the first one is compiled, into
    the local tree [programs]. *)
Definition on_proxy {T A} (m : PS A) : Run (@ProxyState E Any S X * T) A := λ '(p, t),
  match m p with (r, p) => (r, (p, t)) end.
Definition compile_module (now : Z) (route : DGateRoute.t)
    : Run (@ProxyState E Any S X * programs) (option error) :=
  match elems (DGateRoute.Modules route) with
  | [] | None :: _ => run_panic nil_deref
  | Some md :: _ =>
    modPayload ← on_proxy (module_payload now md);
    match modPayload with
    | Err err => mret (Some err)
    | Ok modPayload =>
      if ModuleType_Valid (DGateModule.Type_ md) then
        match Compile (DGateModule.Name md) modPayload with
        | Err err => mret (Some err)
        | Ok prog =>
          _ ← on_proxy (NewRuntimeContext route [Some md]);
          match SetupModuleEventLoop route [Some md] None with
          | Err err => mret (Some err)
          | Ok _ =>
            ns ← lift_outcome (namespace_name route);
            '(_, t) ← run_get;
            '(t, _) ← lift_outcome (Insert t (DGateModule.Name md +:+ "/" +:+ ns) (Some prog));
            _ ← run_modify (λ '(p, _), (p, t)); mret None
          end
        end
      else mret (Some ("invalid module type: " +:+ DGateModule.Type_ md))
    end
  end.

Definition has_modules (rt : DGateRoute.t) : bool :=
  match elems (DGateRoute.Modules rt) with [] => false | _ => true end.

(** The whole state is configured again. *)
Definition full_reload (p : @ProxyState E Any S X) (log : ChangeLog Any) : bool :=
  String.eqb (Spec.Namespace log) "" || pendingChanges p.

(** [programs.Each(func(s, p) { ps.modPrograms.Insert(s, p) })] *)
Definition merge_programs (t : programs) : PS unit := λ p,
  match Avl.Each t (λ s prog, m ← st_get; '(m, _) ← st_lift (Insert m s prog); _ ← st_put m; mret true)
          (modPrograms p) with
  | Returns (_, m) => (Return tt, set_modPrograms m p)
  | Panics e => (Panic e, p)
  end.

Definition setupModules (now : Z) (log : ChangeLog Any) : PS (option error) :=
  p ← run_get;
  routes ← on_rm (if full_reload p log then GetRoutes else GetRoutesByNamespace (Spec.Namespace log));
  '(err, t) ← (λ p, match group (compile_module now) (filter has_modules (elems routes)) (p, NewTree) with
                    | (Return err, (p, t)) => (Return (err, t), p)
                    | (Panic e, (p, _)) => (Panic e, p)
                    | (Block, (p, _)) => (Block, p)
                    end);
  match err with
  | Some err => mret (Some err)
  | None => _ ← merge_programs t; mret None
  end.

(** *** setupRoutes *)

Definition createModuleExtractorFunc (rt : DGateRoute.t) : PS (gores ModuleExtractor) :=
  match elems (DGateRoute.Modules rt) with
  | [] =>
    ns ← lift_outcome (namespace_name rt);
    mret (Err ("no modules found for route: " +:+ DGateRoute.Name rt +:+ "/" +:+ ns))
  | None :: _ => run_panic nil_deref
  | Some m :: _ =>
    ns ← lift_outcome (namespace_name rt);
    p ← run_get;
    let '(prog, ok) := Avl.Find (modPrograms p) (DGateModule.Name m +:+ "/" +:+ ns) in
    if negb ok then mret (Err ("cannot find module program: " +:+ DGateModule.Name m +:+ "/" +:+ ns)) else
    _ ← NewRuntimeContext rt (elems (DGateRoute.Modules rt));
    match SetupModuleEventLoop rt (elems (DGateRoute.Modules rt)) prog with
    | Err err => mret (Err err)
    | Ok loop =>
      mret (foldr (λ f fns, match extract f loop with
                            | Err err => Err err
                            | Ok fn => match fns with
                                       | Ok me => Ok (MkExtractor loop ((f, fn) :: me_fns me))
                                       | Err err => Err err
                                       end
                            end)
              (Ok (MkExtractor loop []))
              [ErrorHandler; FetchUpstream; RequestModifier; ResponseModifier; RequestHandler])
    end
  end.

(** The registrations of one path. *)
Fixpoint handle_methods (mux : Mux) (l : loc) (path : string) (methods : list string) : outcome Mux :=
  match methods with
  | [] => mret mux
  | method :: methods =>
    mux ← mux_Method mux method path (MkHandler l path); handle_methods mux l path methods
  end.
Definition handle_path (mux : Mux) (l : loc) (methods : list string) (path : string)
    : outcome (gores Mux) :=
  if (0 <? Z.of_nat (length methods)) && match methods with m :: _ => String.eqb m "*" | [] => false end
  then
    if 1 <? Z.of_nat (length methods) then mret (Err "route methods cannot have other methods with *")
    else mux ← mux_Handle mux path (MkHandler l path); mret (Ok mux)
  else if Z.of_nat (length methods) =? 0 then mret (Err "route must have at least one method")
  else match ValidateMethods methods with
       | Some err => mret (Err err)
       | None => mux ← handle_methods mux l path methods; mret (Ok mux)
       end.
Fixpoint handle_paths (mux : Mux) (l : loc) (methods paths : list string) : outcome (gores Mux) :=
  match paths with
  | [] => mret (Ok mux)
  | path :: paths =>
    r ← handle_path mux l methods path;
    match r with Err err => mret (Err err) | Ok mux => handle_paths mux l methods paths end
  end.

(** The provider of a route, in place of the one before. *)
Definition provide (rt : DGateRoute.t) : PS (gores loc) :=
  l ← NewRequestContextProvider rt;
  err ← (if has_modules rt then
           modPool ← NewModulePool 0 1024 l (createModuleExtractorFunc rt);
           match modPool with
           | Err err => mret (Some err)
           | Ok modPool => _ ← UpdateModulePool l modPool; mret None
           end
         else mret None);
  match err with
  | Some err => mret (Err err)
  | None =>
    ns ← lift_outcome (namespace_name rt);
    p ← run_get;
    '(t, old) ← lift_outcome (Insert (providers p) (ns +:+ "/" +:+ DGateRoute.Name rt) l);
    _ ← run_modify (set_providers t);
    _ ← (if bool_decide (old ≠ nil) then provider_Close old else mret tt);
    mret (Ok l)
  end.

Fixpoint build_mux (mux : Mux) (routes : list DGateRoute.t) : PS (gores Mux) :=
  match routes with
  | [] => mret (Ok mux)
  | rt :: routes =>
    r ← provide rt;
    match r with
    | Err err => mret (Err err)
    | Ok l =>
      mux ← lift_outcome (handle_paths mux l (elems (DGateRoute.Methods rt)) (elems (DGateRoute.Paths rt)));
      match mux with Err err => mret (Err err) | Ok mux => build_mux mux routes end
    end
  end.

(** The goroutine of a namespace; a panic becomes its error.  A router's
    [ReplaceMux] is the insertion at its key. *)
Definition setup_namespace (e : string * list DGateRoute.t) : PS (option error) :=
  recovering (
    mux ← build_mux NewMux e.2;
    match mux with
    | Err err => mret (Some err)
    | Ok mux =>
      p ← run_get;
      '(t, _) ← lift_outcome (Insert (routers p) e.1 (Some mux));
      _ ← run_modify (set_routers t); mret None
    end).

Definition setupRoutes (log : ChangeLog Any) : PS (option error) :=
  p ← run_get;
  rtMap ← (if full_reload p log then
             rtMap ← on_rm GetRouteNamespaceMap;
             _ ← run_modify (set_providers (Avl.Clear (providers p))); mret rtMap
           else
             routes ← on_rm (GetRoutesByNamespace (Spec.Namespace log));
             if 0 <? Z.of_nat (length (elems routes))
             then mret {[Spec.Namespace log := elems routes]}
             else
               p ← run_get;
               '(t, _) ← lift_outcome (Avl.Delete (routers p) (Spec.Namespace log));
               _ ← run_modify (set_routers t); mret ∅);
  group setup_namespace (range_routes rtMap).

Definition reconfigureState (now : Z) (log : ChangeLog Any) : PS (option error) :=
  deferred (λ err, match err with Some err => _ ← go_ GoRestartState; mret (Some err) | None => mret None end) (
    err ← setupModules now log;
    match err with
    | Some err => mret (Some err)
    | None => setupRoutes log
    end).

End code.
