(* ===== verification/Routing.v ===== *)
(** * What the routers serve

    Properties of DynamicProxy.v: after [setupRoutes] succeeds, the router of
    each namespace that it configured has the registrations of the
    namespace's routes, each with a live provider of its route. *)
From Stdlib Require Import ZArith Lia.
From stdpp Require Import base gmap strings list fin_maps.
From S2P Require Import Prelude Avl SliceUtil Pattern Spec Linker ResourceManager.
From S2P Require Import Storage ProxyStore Scheduler Cache Util ConfigResources ProxyTransport.
From S2P Require Import ResourceSpec Proxy RequestContext DynamicProxy.

Section proofs.
Context {E : Externals} {R : Runtime} {Any : Type} {C : Encoding E Any} {S : Type}.
Context {St : Storage S} {X : ProxyEnv E Any}.
Implicit Types (p : @ProxyState E Any S X) (rt : DGateRoute.t) (l : loc) (k : string).

Definition route_ns rt : string :=
  match DGateRoute.Namespace rt with Some ns => DGateNamespace.Name ns | None => "" end.
(** The key of a route's provider. *)
Definition provider_key rt : string := route_ns rt +:+ "/" +:+ DGateRoute.Name rt.

(** Indexed providers are objects, of one key each. *)
Record routing_wf p : Prop := {
  rw_providers : tree_wf (providers p);
  rw_routers : tree_wf (routers p);
  rw_objs : ∀ k l, tree_map (providers p) !! k = Some l → l ≠ nil ∧ is_Some (provider_objs p !! l);
  rw_inj : ∀ k1 k2 l, tree_map (providers p) !! k1 = Some l →
    tree_map (providers p) !! k2 = Some l → k1 = k2 }.

Lemma no_routing_wf p : providers p = NewTree → routers p = NewTree → routing_wf p.
Proof.
  intros Hp Hr. split; rewrite ?Hp, ?Hr; try apply NewTree_wf; rewrite NewTree_map; intros *; by rewrite lookup_empty.
Qed.

(** [l] is the live provider of the route [rt]. *)
Definition live p rt l : Prop :=
  tree_map (providers p) !! provider_key rt = Some l ∧
  ∃ o, provider_objs p !! l = Some o ∧ rcp_route o = rt ∧ rcp_done o = false.

(** What the step of a route leaves: the providers of other keys. *)
Definition keeps_live (keys : list string) p p' : Prop :=
  routing_wf p' ∧ rm p' = rm p ∧ routers p' = routers p ∧
  ∀ rt l, provider_key rt ∉ keys → live p rt l → live p' rt l.

Lemma createModuleExtractorFunc_reads rt : reads (S := S) (X := X) (createModuleExtractorFunc rt).
Proof.
  intros p r p'. unfold createModuleExtractorFunc. destruct (elems (DGateRoute.Modules rt)) as [|[m|] ms]; [| |done].
  - rewrite run_bind_return. intros (ns & p1 & [_ ->]%lift_outcome_return & [= _ <-]). done.
  - rewrite run_bind_return. intros (ns & p1 & [_ ->]%lift_outcome_return & Hr). revert Hr. go.
    destruct (Avl.Find _ _) as [prog ok]. destruct ok; cbn [negb]; [|by intros [= _ <-]].
    rewrite run_bind_return. unfold NewRuntimeContext. intros ([] & p1 & Hc & Hr).
    rewrite run_bind_return in Hc. destruct Hc as (? & ? & [_ ->]%lift_outcome_return & Hc).
    rewrite run_bind_return in Hc. destruct Hc as (? & ? & [_ ->]%lift_outcome_return & [= ->]).
    destruct (SetupModuleEventLoop _ _ _); by injection Hr as _ <-.
Qed.

Lemma NewRequestContextProvider_ok rt p l p' : NewRequestContextProvider rt p = (Return l, p') →
  is_Some (DGateRoute.Namespace rt) ∧ l ≠ nil ∧ provider_objs p !! l = None ∧
  p' = set_provider_objs (<[l := MkProvider rt false None]> (provider_objs p)) p.
Proof.
  unfold NewRequestContextProvider. destruct (DGateRoute.Namespace rt) as [ns|]; [|done].
  rewrite run_bind_return. intros (u & p1 & H1 & H2).
  assert (p1 = p) as ->.
  { destruct (DGateRoute.Service rt); [|by injection H1 as _ <-].
    destruct (service_transport _); [by injection H1 as _ <-|done]. }
  revert H2. unfold set_provider. go. intros [= <- <-].
  pose proof (is_fresh ({[nil]} ∪ dom (provider_objs p) : gset loc)) as Hf.
  rewrite not_elem_of_union, not_elem_of_singleton, not_elem_of_dom in Hf. naive_solver.
Qed.

(** The provider and its pool, before it is indexed. *)
Definition made rt l p p' : Prop :=
  is_Some (DGateRoute.Namespace rt) ∧ l ≠ nil ∧ provider_objs p !! l = None ∧
  ∃ pool pools, p' = set_pool_objs pools (set_provider_objs (<[l := MkProvider rt false pool]> (provider_objs p)) p).

Lemma make_pool_ok rt l p p' :
  (if has_modules rt then
     modPool ← NewModulePool 0 1024 l (createModuleExtractorFunc rt);
     match modPool with
     | Err err => mret (Some err)
     | Ok modPool => _ ← UpdateModulePool l modPool; mret None
     end
   else mret None) (set_provider_objs (<[l := MkProvider rt false None]> (provider_objs p)) p)
    = (Return (None : option error), p') →
  ∃ pool pools, p' = set_pool_objs pools (set_provider_objs (<[l := MkProvider rt false pool]> (provider_objs p)) p).
Proof.
  set (p0 := set_provider_objs _ p). destruct (has_modules rt).
  2:{ intros [= <-]. exists None, (pool_objs p). by destruct p. }
  rewrite run_bind_return. intros (r & p1 & H1 & H2).
  assert (∃ pools, p1 = set_pool_objs pools p0) as [pools ->].
  { pose proof (NewModulePool_ok 0 1024 l _ _ _ _ (createModuleExtractorFunc_reads rt) H1) as H.
    destruct r as [pl|e]; [|subst p1; exists (pool_objs p0); by rewrite set_pool_objs_id].
    destruct H as (_ & _ & chan & _ & ->). by eexists. }
  destruct r as [mb|]; [|done]. rewrite run_bind_return in H2. destruct H2 as ([] & p3 & Hu & [= <-]).
  revert Hu. unfold UpdateModulePool, set_provider. go.
  rewrite (provider_at_ok (set_pool_objs pools p0) l (MkProvider rt false None)) by (cbn; apply lookup_insert_eq).
  go. cbn [modBuf]. go. intros [= <-]. exists (Some mb), pools. subst p0. unfold set_provider_objs, set_pool_objs. cbn.
  by rewrite insert_insert_eq.
Qed.

(** Indexing a new provider in place of an old one. *)
Lemma index_ok rt l p p' : routing_wf p → made rt l p p' →
  ∃ t old, Insert (providers p') (provider_key rt) l = Returns (t, old) ∧
    let p1 := set_providers t p' in
    (old ≠ nil → ∀ k, tree_map (providers p1) !! k ≠ Some old) ∧
    live p1 rt l ∧ keeps_live [provider_key rt] p p1.
Proof.
  intros [Hwt Hwr Hobjs Hinj] (Hns & Hl & Hfree & pool & pools & ->). cbn.
  destruct (Insert_ok (providers p) (provider_key rt) l Hwt) as (t & -> & Hwf & Hmap).
  exists t. eexists. split; [reflexivity|]. cbn.
  assert (Hne : ∀ k l', tree_map (providers p) !! k = Some l' → l' ≠ l).
  { intros k l' Hk ->. destruct (Hobjs k l Hk) as [_ [? ?]]. congruence. }
  split; [|split].
  - destruct (tree_map (providers p) !! provider_key rt) as [old|] eqn:Hold; cbn; [|done].
    intros _ k. rewrite Hmap, lookup_insert. case_decide as Hk.
    + intros [= ->]. by destruct (Hne _ _ Hold).
    + intros Hk'. by destruct (Hk (Hinj _ _ _ Hold Hk')).
  - split; cbn; [by rewrite Hmap, lookup_insert_eq|]. rewrite lookup_insert_eq. by eexists.
  - split; [|split; [done|split; [done|]]].
    + split; cbn; [done|done| |].
      * intros k l'. rewrite Hmap. destruct (decide (provider_key rt = k)) as [<-|Hk].
        { rewrite lookup_insert_eq. intros [= <-]. by rewrite lookup_insert_eq. }
        rewrite lookup_insert_ne by done. intros Hl'. destruct (Hobjs k l' Hl') as [? ?].
        rewrite lookup_insert_ne; [done|]. symmetry. by apply (Hne k).
      * intros k1 k2 l'. rewrite Hmap, !lookup_insert. repeat case_decide; subst; try done.
        -- intros [= <-] Hl'. by destruct (Hne k2 l Hl').
        -- intros Hl' [= <-]. by destruct (Hne k1 l Hl').
        -- by apply Hinj.
    + intros rt' l' Hk (Ht & o & Ho & Hrt & Hd). rewrite list_elem_of_singleton in Hk.
      split; cbn; [by rewrite Hmap, lookup_insert_ne by done|]. exists o. split; [|done].
      rewrite lookup_insert_ne; [done|]. symmetry. by apply (Hne (provider_key rt')).
Qed.

(** Closing the provider that was replaced. *)
Lemma pool_Close_frame pl p r p' : pool_Close pl p = (r, p') → ∃ pools, p' = set_pool_objs pools p.
Proof.
  unfold pool_Close, pool_at, set_pool. go. destruct (pool_objs p !! pl) as [mb|]; go.
  - destruct (mp_closed mb); go; intros [= _ <-]; by eexists.
  - intros [= _ <-]. exists (pool_objs p). by rewrite set_pool_objs_id.
Qed.
Lemma close_ok p p' old : provider_Close old p = (Return tt, p') → is_Some (provider_objs p !! old) ∧
  ∃ o pools, p' = set_provider_objs (<[old := o]> (provider_objs p)) (set_pool_objs pools p).
Proof.
  unfold provider_Close. rewrite run_bind_return. intros (o & p1 & H1 & H2).
  unfold provider_at in H1. revert H1. go. destruct (provider_objs p !! old) as [o'|]; [|done].
  go. intros [= -> <-]. split; [done|]. rewrite run_bind_return in H2. destruct H2 as ([] & p2 & H2 & H3).
  assert (∃ pools, p2 = set_pool_objs pools p) as [pools ->].
  { destruct (modBuf o); [by apply pool_Close_frame in H2|].
    injection H2 as <-. exists (pool_objs p). by rewrite set_pool_objs_id. }
  injection H3 as <-. by do 2 eexists.
Qed.

Lemma close_keeps p p' old keys : (∀ rt l, live p rt l → provider_key rt ∉ keys → l ≠ old) →
  provider_Close old p = (Return tt, p') → routing_wf p → keeps_live keys p p'.
Proof.
  intros Hold Hc [Hwt Hwr Hobjs Hinj]. apply close_ok in Hc as (Hin & o & pools & ->).
  split; [|split; [done|split; [done|]]].
  - split; cbn; [done|done| |done]. intros k l Hk. destruct (Hobjs k l Hk) as [? ?]. split; [done|].
    rewrite lookup_insert. by case_decide.
  - intros rt l Hk Hlive. pose proof (Hold rt l Hlive Hk). destruct Hlive as (Ht & o' & Ho & ?).
    split; [done|]. exists o'. cbn. by rewrite lookup_insert_ne.
Qed.

Lemma keeps_live_trans keys p p1 p2 : keeps_live keys p p1 → keeps_live keys p1 p2 → keeps_live keys p p2.
Proof.
  intros (_ & Hm1 & Hr1 & Hl1) (Hw2 & Hm2 & Hr2 & Hl2). split; [done|]. split; [congruence|].
  split; [congruence|]. auto.
Qed.

Lemma provide_ok rt p l p' : routing_wf p → provide rt p = (Return (Ok l), p') →
  live p' rt l ∧ keeps_live [provider_key rt] p p'.
Proof.
  intros Hwf. unfold provide. rewrite run_bind_return. intros (l1 & p1 & H1 & H2).
  apply NewRequestContextProvider_ok in H1 as (Hns & Hl & Hfree & ->).
  rewrite run_bind_return in H2. destruct H2 as (err & p2 & H2 & H3). destruct err as [e|]; [done|].
  apply make_pool_ok in H2 as (pool & pools & ->).
  rewrite run_bind_return in H3. destruct H3 as (ns & p3 & [Hn ->]%lift_outcome_return & H3).
  assert (ns +:+ "/" +:+ DGateRoute.Name rt = provider_key rt) as Hkey.
  { unfold namespace_name, deref in Hn. unfold provider_key, route_ns.
    destruct (DGateRoute.Namespace rt); [|done]. by injection Hn as <-. }
  revert H3. go. rewrite Hkey. set (p3 := set_pool_objs pools _).
  assert (Hmade : made rt l1 p p3) by (split; [done|]; split; [done|]; split; [done|]; by exists pool, pools).
  destruct (index_ok rt l1 p p3 Hwf Hmade) as (t & old & -> & Hold & Hlive & Hkeep). cbn zeta in *.
  go. set (p4 := set_providers t p3) in *. intros H4.
  assert (Hkeep4 : routing_wf p4) by apply Hkeep.
  case_bool_decide as Hnil.
  - specialize (Hold Hnil). revert H4.
    destruct (provider_Close old p4) as [[[]|e|] p5] eqn:Hc; try done. go. intros [= -> <-].
    assert (Hk5 : ∀ keys, keeps_live keys p4 p5).
    { intros keys. apply (close_keeps p4 p5 old); [|done|done].
      intros rt' l' [Hl' _] _ ->. by destruct (Hold (provider_key rt')). }
    split.
    + destruct (Hk5 []) as (_ & _ & _ & Hl5). by apply Hl5; [apply not_elem_of_nil|].
    + by apply (keeps_live_trans _ p p4 p5).
  - revert H4. go. intros [= -> <-]. done.
Qed.

(** *** The routers *)

(** The registrations of a route: each path with each method, or once for any
    method; and a router with registrations added in their order. *)
Definition any_method (methods : list string) : bool := bool_decide (methods = ["*"]).
Definition registrations (methods paths : list string) : list (option string * string) :=
  paths ≫= λ path, if any_method methods then [(None, path)] else (λ m, (Some m, path)) <$> methods.
Fixpoint register (mux : Mux) (l : loc) (rs : list (option string * string)) : outcome Mux :=
  match rs with
  | [] => mret mux
  | (m, path) :: rs =>
    mux ← match m with
          | None => mux_Handle mux path (MkHandler l path)
          | Some m => mux_Method mux m path (MkHandler l path)
          end;
    register mux l rs
  end.
Fixpoint registered (mux : Mux) (rls : list (DGateRoute.t * loc)) : outcome Mux :=
  match rls with
  | [] => mret mux
  | (rt, l) :: rls =>
    mux ← register mux l (registrations (elems (DGateRoute.Methods rt)) (elems (DGateRoute.Paths rt)));
    registered mux rls
  end.

Lemma register_app mux l rs1 rs2 : register mux l (rs1 ++ rs2) = mux ← register mux l rs1; register mux l rs2.
Proof.
  revert mux. induction rs1 as [|[[m|] path] rs1 IH]; intros mux; [done|..]; cbn.
  - destruct (mux_Method mux m path (MkHandler l path)) as [mux1|]; [apply IH|done].
  - destruct (mux_Handle mux path (MkHandler l path)) as [mux1|]; [apply IH|done].
Qed.
Lemma handle_methods_ok mux l path methods mux' : handle_methods mux l path methods = Returns mux' →
  register mux l ((λ m, (Some m, path)) <$> methods) = Returns mux'.
Proof.
  revert mux. induction methods as [|m methods IH]; intros mux; [done|]. cbn.
  destruct (mux_Method mux m path (MkHandler l path)) as [mux1|]; [apply IH|done].
Qed.
Lemma handle_path_ok mux l methods path mux' : handle_path mux l methods path = Returns (Ok mux') →
  register mux l (if any_method methods then [(None, path)] else (λ m, (Some m, path)) <$> methods) = Returns mux'.
Proof.
  unfold handle_path, any_method. destruct methods as [|m methods]; [done|].
  assert (H0 : Z.of_nat (length (m :: methods)) =? 0 = false) by done. rewrite H0.
  destruct (String.eqb_spec m "*") as [->|Hm]; rewrite ?andb_true_r, ?andb_false_r; cbn [Z.ltb].
  - destruct methods as [|m2 methods].
    + rewrite bool_decide_true by done. cbn. destruct (mux_Handle mux path _); run; [|done]. by intros [= <-].
    + rewrite (proj2 (Z.ltb_lt 1 _)) by (cbn [length]; lia). by case_match.
  - rewrite bool_decide_false by congruence. destruct (ValidateMethods _); [done|].
    destruct (handle_methods mux l path (m :: methods)) as [mux1|] eqn:E'; run; [|done].
    intros [= <-]. by apply handle_methods_ok.
Qed.
Lemma handle_paths_ok mux l methods paths mux' : handle_paths mux l methods paths = Returns (Ok mux') →
  register mux l (registrations methods paths) = Returns mux'.
Proof.
  revert mux. induction paths as [|path paths IH]; intros mux; cbn [handle_paths]; [by intros [= <-]|].
  unfold registrations. cbn [mbind list_bind]. rewrite register_app.
  destruct (handle_path mux l methods path) as [[mux1|]|] eqn:Hp; run; [|done..].
  rewrite (handle_path_ok _ _ _ _ _ Hp). apply IH.
Qed.

(** All routes have live providers. *)
Definition all_live p (routes : list DGateRoute.t) (ls : list loc) : Prop :=
  Forall2 (live p) routes ls.

Lemma all_live_mono p p' routes ls :
  (∀ rt l, rt ∈ routes → live p rt l → live p' rt l) → all_live p routes ls → all_live p' routes ls.
Proof.
  intros Hmono Hall. unfold all_live in *.
  induction Hall as [|rt l routes ls Hl Hall IH]; constructor.
  - apply Hmono; [by left|done].
  - apply IH. intros rt' l' Hrt'. apply Hmono. by right.
Qed.

Lemma keeps_live_weaken keys keys' p p' : (∀ k, k ∈ keys → k ∈ keys') →
  keeps_live keys p p' → keeps_live keys' p p'.
Proof. intros Hsub (? & ? & ? & Hl). do 3 (split; [done|]). intros rt l Hk. apply Hl. naive_solver. Qed.

Lemma build_mux_ok mux routes p mux' p' : routing_wf p → NoDup (provider_key <$> routes) →
  build_mux mux routes p = (Return (Ok mux'), p') →
  ∃ ls, all_live p' routes ls ∧ registered mux (zip routes ls) = Returns mux' ∧
    keeps_live (provider_key <$> routes) p p'.
Proof.
  revert mux p. induction routes as [|rt routes IH]; intros mux p Hwf Hnd; cbn [build_mux].
  - intros [= <- <-]. exists []. split; [constructor|]. split; [done|]. by split.
  - cbn in Hnd. apply NoDup_cons in Hnd as [Hrt Hnd].
    rewrite run_bind_return. intros (r & p1 & Hp & Hr). destruct r as [l|]; [|done].
    apply provide_ok in Hp as [Hlive Hkeep]; [|done].
    rewrite run_bind_return in Hr. destruct Hr as (m & p2 & [Hm ->]%lift_outcome_return & Hr).
    destruct m as [mux1|]; [|done].
    destruct (IH mux1 p1) as (ls & Hall & Hreg & Hkeep'); [apply Hkeep|done|done|].
    exists (l :: ls). split; [|split].
    + constructor; [|done]. destruct Hkeep' as (_ & _ & _ & Hl). by apply Hl.
    + cbn. by rewrite (handle_paths_ok _ _ _ _ _ Hm).
    + apply (keeps_live_trans _ p p1).
      * eapply keeps_live_weaken; [|exact Hkeep]. intros k ->%list_elem_of_singleton. by left.
      * eapply keeps_live_weaken; [|exact Hkeep']. intros k Hk. by right.
Qed.

(** The router of a namespace serves its routes. *)
Definition serves p (ns : string) (routes : list DGateRoute.t) : Prop :=
  ∃ mux ls, tree_map (routers p) !! ns = Some (Some mux) ∧ all_live p routes ls ∧
    registered NewMux (zip routes ls) = Returns mux.

(** The keys of several namespaces' routes. *)
Definition keys_of (es : list (string * list DGateRoute.t)) : list string :=
  concat (map (λ e, map provider_key e.2) es).

Lemma setup_namespace_ok e p p' : routing_wf p → NoDup (provider_key <$> e.2) →
  setup_namespace e p = (Return None, p') →
  serves p' e.1 e.2 ∧ routing_wf p' ∧
  (∀ ns, ns ≠ e.1 → tree_map (routers p') !! ns = tree_map (routers p) !! ns) ∧
  (∀ rt l, provider_key rt ∉ provider_key <$> e.2 → live p rt l → live p' rt l).
Proof.
  intros Hwf Hnd. unfold setup_namespace, recovering.
  match goal with |- context [match ?m p with _ => _ end] =>
    destruct (m p) as [[[err|]|msg|] p1] eqn:Hm end; try done. intros [= <-].
  rewrite run_bind_return in Hm. destruct Hm as (r & p2 & Hb & Hr). destruct r as [mux|]; [|done].
  destruct (build_mux_ok NewMux e.2 p mux p2 Hwf Hnd Hb) as (ls & Hall & Hreg & (Hwf2 & _ & Hrs & Hkeep)).
  revert Hr. go. destruct (Insert_ok (routers p2) e.1 (Some mux) (rw_routers p2 Hwf2)) as (t & -> & Hwt & Hmap).
  go. intros [= <-]. split; [|split; [|split]].
  - exists mux, ls. split; [cbn; by rewrite Hmap, lookup_insert_eq|]. done.
  - destruct Hwf2. by split.
  - intros ns Hne. cbn. by rewrite Hmap, lookup_insert_ne, Hrs by done.
  - intros rt l Hk Hl. by apply (Hkeep rt l).
Qed.

Lemma group_ok es p p' : routing_wf p → NoDup (es.*1) → NoDup (keys_of es) →
  group setup_namespace es p = (Return None, p') →
  (∀ ns routes, (ns, routes) ∈ es → serves p' ns routes) ∧
  (∀ ns, ns ∉ es.*1 → tree_map (routers p') !! ns = tree_map (routers p) !! ns) ∧
  routing_wf p' ∧ (∀ rt l, provider_key rt ∉ keys_of es → live p rt l → live p' rt l).
Proof.
  revert p. induction es as [|e es IH]; intros p Hwf Hns Hkeys; cbn [group].
  - intros [= <-]. split; [by intros ns routes ?%elem_of_nil|]. done.
  - rewrite run_bind_return. intros (err & p1 & He & Hrest).
    rewrite run_bind_return in Hrest. destruct Hrest as (rest & p2 & Hg & [= Herr ->]).
    destruct err as [|]; [done|]. subst rest. cbn in Hns. apply NoDup_cons in Hns as [Hn Hns].
    unfold keys_of in Hkeys. cbn in Hkeys. apply NoDup_app in Hkeys as (Hk1 & Hdis & Hk2).
    destruct (setup_namespace_ok e p p1 Hwf Hk1 He) as (Hserve & Hwf1 & Hro & Hkeep).
    destruct (IH p1 Hwf1 Hns Hk2 Hg) as (Hall & Hro' & Hwf' & Hkeep').
    split; [|split; [|split]].
    + intros ns routes. rewrite elem_of_cons. intros [<-|Hin]; [|by apply Hall]. cbn in *.
      destruct Hserve as (mux & ls & Hmux & Hl & Hreg). exists mux, ls.
      rewrite Hro' by done. split; [done|]. split; [|done].
      apply (all_live_mono p1); [|done]. intros rt l Hrt. apply Hkeep', Hdis.
      by apply list_elem_of_fmap_2.
    + intros ns. cbn. rewrite not_elem_of_cons. intros [Hne Hnin]. by rewrite Hro', Hro.
    + done.
    + intros rt l. unfold keys_of. cbn. rewrite not_elem_of_app. intros [Ha Hb] Hl. by apply Hkeep', Hkeep.
Qed.

Lemma keys_of_perm es es' : es ≡ₚ es' → keys_of es ≡ₚ keys_of es'.
Proof.
  unfold keys_of. induction 1 as [|e es es' _ IH|e1 e2 es|es1 es2 es3 _ IH1 _ IH2]; cbn; [done|..].
  - by rewrite IH.
  - by rewrite !app_assoc, (Permutation.Permutation_app_comm (map _ e2.2)).
  - by etrans.
Qed.

(** The namespaces that a change log configures, with their routes. *)
Definition scope p (log : ChangeLog Any) : outcome (gmap string (list DGateRoute.t) * ResourceManager) :=
  if full_reload p log then GetRouteNamespaceMap (rm p)
  else '(routes, m) ← GetRoutesByNamespace (Spec.Namespace log) (rm p);
       mret (if 0 <? Z.of_nat (length (elems routes))
             then {[Spec.Namespace log := elems routes]} else ∅, m).

(** C5: When the configuration of the routes succeeds, and their names are
    distinct, every namespace in its scope has a router whose registrations
    are exactly those of the paths and methods of its routes, in their order,
    each handled by a live provider of its route.  The other routers are as
    before, but for the namespace of the log, whose router is removed when it
    has no routes and the log is reloaded on its own: a full reload never
    removes the router of a namespace that has lost its routes. *)
Theorem setupRoutes_serves {XL : ProxyEnvLaws X} p log p' rtMap m :
  routing_wf p → scope p log = Returns (rtMap, m) → NoDup (keys_of (map_to_list rtMap)) →
  setupRoutes log p = (Return None, p') →
  (∀ ns routes, rtMap !! ns = Some routes → serves p' ns routes) ∧
  (∀ ns, rtMap !! ns = None → tree_map (routers p') !! ns =
     if bool_decide (ns = Spec.Namespace log) && negb (full_reload p log) then None
     else tree_map (routers p) !! ns) ∧
  routing_wf p'.
Proof.
  intros Hwf Hscope Hkeys. unfold setupRoutes.
  assert (Hperm : range_routes rtMap ≡ₚ map_to_list rtMap) by apply range_routes_perm.
  assert (Hin : ∀ ns routes, (ns, routes) ∈ range_routes rtMap ↔ rtMap !! ns = Some routes).
  { intros ns routes. by rewrite Hperm, elem_of_map_to_list. }
  assert (Hfst : NoDup (range_routes rtMap).*1) by (rewrite Hperm; apply NoDup_fst_map_to_list).
  assert (Hkeys' : NoDup (keys_of (range_routes rtMap))) by by rewrite (keys_of_perm _ _ Hperm).
  assert (Hnone : ∀ ns, rtMap !! ns = None → ns ∉ (range_routes rtMap).*1).
  { intros ns Hns Hel. apply list_elem_of_fmap in Hel as ([ns' routes] & -> & Hel). apply Hin in Hel.
    cbn in Hns. congruence. }
  assert (Hgroup : ∀ p1, routing_wf p1 → group setup_namespace (range_routes rtMap) p1 = (Return None, p') →
    (∀ ns routes, rtMap !! ns = Some routes → serves p' ns routes) ∧
    (∀ ns, rtMap !! ns = None → tree_map (routers p') !! ns = tree_map (routers p1) !! ns) ∧
    routing_wf p').
  { intros p1 Hwf1 Hg. destruct (group_ok _ p1 p' Hwf1 Hfst Hkeys' Hg) as (Hs & Hr & Hw & _).
    split; [|split; [|done]].
    - intros ns routes Hns. by apply Hs, Hin.
    - intros ns Hns. by apply Hr, Hnone. }
  clear Hin Hfst Hnone Hkeys Hkeys' Hperm. destruct Hwf as [Hwt Hwr Hobjs Hinj].
  unfold scope in Hscope. rewrite run_bind_return. intros (p0 & p1 & [= <- <-] & H).
  rewrite run_bind_return in H. destruct H as (rtm & p2 & H1 & H2).
  revert H1. unfold on_rm. destruct (full_reload p log) eqn:Hfull; cbn [negb]; go.
  - rewrite Hscope. go. intros [= <- <-]. destruct (Clear_ok (providers p)) as [Hcw Hcm].
    destruct (Hgroup (set_providers (Avl.Clear (providers p)) (set_rm m p))) as (Hs & Hr & Hw); [|done|].
    { split; cbn [providers set_providers routers set_rm provider_objs]; rewrite ?Hcm; done. }
    split; [done|]. split; [|done]. intros ns Hns. rewrite andb_false_r. by rewrite Hr.
  - destruct (GetRoutesByNamespace (Spec.Namespace log) (rm p)) as [[routes m']|] eqn:Hget; [|done].
    run. injection Hscope as <- <-. go.
    destruct (0 <? Z.of_nat (length (elems routes))) eqn:Hlen; go.
    + intros [= <- <-]. destruct (Hgroup (set_rm m' p)) as (Hs & Hr & Hw); [by split|done|].
      split; [done|]. split; [|done]. intros ns Hns. rewrite Hr by done.
      apply lookup_singleton_None in Hns. by rewrite bool_decide_false by congruence.
    + cbn [routers set_rm].
      destruct (Avl.Delete_ok (routers p) (Spec.Namespace log) Hwr) as (t & -> & Hwt' & Hmap). go.
      intros [= <- <-]. destruct (Hgroup (set_routers t (set_rm m' p))) as (Hs & Hr & Hw); [by split|done|].
      split; [done|]. split; [|done]. intros ns Hns. rewrite Hr by done. cbn. rewrite Hmap.
      case_bool_decide as Heq; cbn; [by rewrite Heq, lookup_delete_eq|by rewrite lookup_delete_ne by congruence].
Qed.

End proofs.

(** ** Witness *)

Section witness.
#[local] Existing Instances text_externals sample_runtime sample_env.

Abbreviation sample_proxy := (@ProxyState text_externals string Mem.MemStore sample_env).

Definition run_after {A} (m : Run sample_proxy A) (p : sample_proxy) : sample_proxy := (m p).2.

(** A service, and two routes to it. *)
Definition with_routes (p : sample_proxy) : sample_proxy :=
  run_after (_ ← on_rm (AddService (named_service "svc")); _ ← on_rm (AddRoute (named_route "a"));
             on_rm (AddRoute (named_route "b"))) p.

Definition start_proxy : sample_proxy :=
  match initial_state Mem.NewMemStore sample_config false with
  | Returns p => with_routes p
  | Panics _ => MkProxy false 0 sample_config Mem.NewMemStore NewCache false false false NewManager
      (New (MkOptions 0 false)) [] NewTree ∅ ∅ NewTree NewTree None false [] []
  end.

Definition noop_log : ChangeLog string := NewNoopChangeLog 0.

Lemma start_proxy_wf : routing_wf start_proxy.
Proof. apply no_routing_wf; vm_compute; reflexivity. Qed.

Definition start_scope : gmap string (list DGateRoute.t) :=
  match scope start_proxy noop_log with Returns (m, _) => m | Panics _ => ∅ end.

Lemma setupRoutes_serves_witness : ∃ p' mux,
  setupRoutes noop_log start_proxy = (Return None, p') ∧
  tree_map (routers p') !! "default" = Some (Some mux) ∧
  (λ r : string * string * handler, r.1) <$> mux = [("GET", "/a"); ("GET", "/b")].
Proof.
  destruct (scope start_proxy noop_log) as [[rtMap m]|] eqn:Es; [|by vm_compute in Es].
  destruct (setupRoutes noop_log start_proxy) as [r p'] eqn:Er.
  assert (Hr : r = Return None) by (vm_compute in Er; by injection Er as <- _). subst r.
  assert (Hm : rtMap = start_scope) by (unfold start_scope; by rewrite Es).
  assert (Hnd : NoDup (keys_of (map_to_list rtMap))).
  { subst rtMap. apply (bool_decide_unpack _). vm_compute. exact I. }
  destruct (setupRoutes_serves (XL := sample_env_laws) start_proxy noop_log p' rtMap m
    start_proxy_wf Es Hnd Er) as (Hs & _).
  exists p'. destruct (rtMap !! "default") as [routes|] eqn:Hroutes.
  2:{ subst rtMap. by vm_compute in Hroutes. }
  destruct (Hs _ _ Hroutes) as (mux & ls & Hmux & _). exists mux. split; [done|]. split; [exact Hmux|].
  clear Hs Hroutes Hnd Es. assert (Hmux' : Some (Some mux) = tree_map (routers p') !! "default") by done.
  replace p' with (setupRoutes noop_log start_proxy).2 in Hmux' by by rewrite Er.
  vm_compute in Hmux'. injection Hmux' as ->. reflexivity.
Defined.

End witness.
