(* ===== verification/ChangeLogs.v ===== *)
(** * internal/proxy/change_log.go: change logs applied to the proxy

    [processChangeLog] applies a change log to the resource manager or to the
    documents, and with [store] keeps the log; its deferred functions are
    [deferred] computations, the last one declared innermost.  The clock is
    read once per call.  An item that is nil decodes to the zero record
    (mapstructure leaves the result as it is), for documents to a nil
    pointer.  The compaction is in Compact.v. *)
From Stdlib Require Import ZArith Lia.
From stdpp Require Import base gmap strings list fin_maps.
From S2P Require Import Prelude Avl SliceUtil Pattern Spec Linker ResourceManager.
From S2P Require Import Storage ProxyStore Scheduler Cache Util Compact ConfigResources.
From S2P Require Import ProxyTransport Proxy RequestContext DynamicProxy.

(** ** The code *)

Section code.
Context {E : Externals} {R : Runtime} {Any : Type} {C : Encoding E Any} {S : Type}.
Context {St : Storage S} {X : ProxyEnv E Any}.

Abbreviation PS := (Run (@ProxyState E Any S X)).

Definition unknown_command (cl : ChangeLog Any) : error := "unknown command: " +:+ Cmd cl.

(** [decode]: mapstructure on the item. *)
Definition decode {T} (dec : Any → gores T) (zero : T) (item : option Any) : gores T :=
  match item with Some i => dec i | None => Ok zero end.

(** The namespace of an item, or the change log's. *)
Definition or_ns (ns : string) (cl : ChangeLog Any) : string :=
  if String.eqb ns "" then Spec.Namespace cl else ns.

Definition service_in (ns : string) (s : Service.t) : Service.t :=
  Service.mk (Service.Name s) (Service.URLs s) ns (Service.Retries s) (Service.RetryTimeout s)
    (Service.ConnectTimeout s) (Service.RequestTimeout s) (Service.TLSSkipVerify s)
    (Service.HTTP2Only s) (Service.HideDGateHeaders s) (Service.DisableQueryParams s) (Service.Tags s).
Definition route_in (ns : string) (r : Route.t) : Route.t :=
  Route.mk (Route.Name r) (Route.Paths r) (Route.Methods r) (Route.PreserveHost r)
    (Route.StripPath r) (Route.ServiceName r) ns (Route.Modules r) (Route.Tags r).
Definition module_in (ns : string) (m : Module_.t) : Module_.t :=
  Module_.mk (Module_.Name m) ns (Module_.Payload m) (Module_.Type_ m) (Module_.Tags m).
Definition domain_in (ns : string) (d : Domain.t) : Domain.t :=
  Domain.mk (Domain.Name d) ns (Domain.Patterns d) (Domain.Priority d) (Domain.Cert d) (Domain.Key d)
    (Domain.Tags d).
Definition collection_in (ns : string) (c : Collection.t) : Collection.t :=
  Collection.mk E (Collection.Name c) ns (Collection.Schema c) (Collection.Visibility c)
    (Collection.Type_ c) (Collection.Tags c).
Definition document_in (ns : string) (d : Document.t) : Document.t :=
  Document.mk E (Document.ID d) (Document.CreatedAt d) (Document.UpdatedAt d) ns
    (Document.CollectionName d) (Document.Data d).
Definition secret_in (ns : string) (s : Secret.t) : Secret.t :=
  Secret.mk (Secret.Name s) ns (Secret.Data s) (Secret.Tags s).

Definition zero_service : Service.t := Service.mk "" None "" None None None None None None None None None.
Definition zero_route : Route.t := Route.mk "" None None false false "" "" None None.
Definition zero_module : Module_.t := Module_.mk "" "" "" "" None.
Definition zero_domain : Domain.t := Domain.mk "" "" None 0 "" "" None.
Definition zero_collection : Collection.t := Collection.mk E "" "" None "" "" None.
Definition zero_secret : Secret.t := Secret.mk "" "" "" None.

(** [_, err = ...] *)
Definition error_of {A} (r : gores A) : option error :=
  match r with Ok _ => None | Err err => Some err end.

(** The switch over the action. *)
Definition on_action (cl : ChangeLog Any) (add delete : PS (option error)) : PS (option error) :=
  a ← lift_outcome (Command_Action (Cmd cl));
  if String.eqb a Add then add
  else if String.eqb a Spec.Delete then delete
  else mret (Some (unknown_command cl)).

Definition processNamespace (ns : Namespace.t) (cl : ChangeLog Any) : PS (option error) :=
  on_action cl (_ ← on_rm (AddNamespace ns); mret None)
    (on_rm (RemoveNamespace (Namespace.Name ns))).

Definition processService (svc : Service.t) (cl : ChangeLog Any) : PS (option error) :=
  let svc := service_in (or_ns (Service.NamespaceName svc) cl) svc in
  on_action cl (r ← on_rm (AddService svc); mret (error_of r))
    (on_rm (RemoveService (Service.Name svc) (Service.NamespaceName svc))).

Definition processRoute (rt : Route.t) (cl : ChangeLog Any) : PS (option error) :=
  let rt := route_in (or_ns (Route.NamespaceName rt) cl) rt in
  on_action cl (r ← on_rm (AddRoute rt); mret (error_of r))
    (on_rm (RemoveRoute (Route.Name rt) (Route.NamespaceName rt))).

Definition processModule (md : Module_.t) (cl : ChangeLog Any) : PS (option error) :=
  let md := module_in (or_ns (Module_.NamespaceName md) cl) md in
  on_action cl (r ← on_rm (AddModule md); mret (error_of r))
    (on_rm (RemoveModule (Module_.Name md) (Module_.NamespaceName md))).

Definition processDomain (dom : Domain.t) (cl : ChangeLog Any) : PS (option error) :=
  let dom := domain_in (or_ns (Domain.NamespaceName dom) cl) dom in
  on_action cl (r ← on_rm (AddDomain dom); mret (error_of r))
    (on_rm (RemoveDomain (Domain.Name dom) (Domain.NamespaceName dom))).

Definition processCollection (col : Collection.t) (cl : ChangeLog Any) : PS (option error) :=
  let col := collection_in (or_ns (Collection.NamespaceName col) cl) col in
  on_action cl (r ← on_rm (AddCollection col); mret (error_of r))
    (on_rm (RemoveCollection (Collection.Name col) (Collection.NamespaceName col))).

Definition processSecret (scrt : Secret.t) (cl : ChangeLog Any) : PS (option error) :=
  let scrt := secret_in (or_ns (Secret.NamespaceName scrt) cl) scrt in
  on_action cl (r ← on_rm (AddSecret scrt); mret (error_of r))
    (on_rm (RemoveSecret (Secret.Name scrt) (Secret.NamespaceName scrt))).

(** [if item, err = decode[T](cl.Item); err == nil { err = process(&item, cl) }] *)
Definition decoded {T} (dec : Any → gores T) (zero : T)
    (process : T → ChangeLog Any → PS (option error)) (cl : ChangeLog Any) : PS (option error) :=
  match decode dec zero (cl_Item cl) with
  | Err err => mret (Some err)
  | Ok item => process item cl
  end.

Definition processResource (cl : ChangeLog Any) : PS (option error) :=
  r ← lift_outcome (Command_Resource (Cmd cl));
  if String.eqb r Spec.Namespaces then decoded decode_namespace (Namespace.mk "" None) processNamespace cl
  else if String.eqb r Spec.Services then decoded decode_service zero_service processService cl
  else if String.eqb r Spec.Routes then decoded decode_route zero_route processRoute cl
  else if String.eqb r Spec.Modules then decoded decode_module zero_module processModule cl
  else if String.eqb r Spec.Domains then decoded decode_domain zero_domain processDomain cl
  else if String.eqb r Spec.Collections then decoded decode_collection zero_collection processCollection cl
  else if String.eqb r Spec.Secrets then decoded decode_secret zero_secret processSecret cl
  else mret (Some (unknown_command cl)).

(** *** Documents *)

Definition storeCachedDocuments : PS (option error) :=
  p ← run_get;
  if Nat.eqb (length (docCache p)) 0 then mret None else
  err ← on_store (StoreDocuments (docCache p));
  match err with
  | Some err => mret (Some err)
  | None => _ ← run_modify (set_docCache []); mret None
  end.

Definition compare_ids (doc1 doc2 : Document.t) : Z :=
  if String.eqb (Document.ID doc1) (Document.ID doc2) then 0
  else if gltb (Document.ID doc1) (Document.ID doc2) then -1 else 1.

(** [doc] may be nil. *)
Definition processDocument (doc : option Document.t) (cl : ChangeLog Any) (store : bool)
    : PS (option error) :=
  match doc with
  | None => run_panic nil_deref
  | Some doc =>
    let doc := document_in (or_ns (Document.NamespaceName doc) cl) doc in
    if store then
      on_action cl (on_store (StoreDocument doc))
        (on_store (DeleteDocument (Document.ID doc) (Document.CollectionName doc)
           (Document.NamespaceName doc)))
    else
      on_action cl (_ ← run_modify (λ p, set_docCache (docCache p ++ [doc]) p); mret None)
        (p ← run_get;
         deletedIndex ← lift_outcome (BinarySearch (docCache p) doc compare_ids);
         _ ← (if 0 <=? deletedIndex then
                let i := Z.to_nat deletedIndex in
                run_modify (set_docCache (take i (docCache p) ++ drop (Datatypes.S i) (docCache p)))
              else mret tt);
         mret None)
  end.

(** *** One change log *)

(** The deferred function that keeps the log. *)
Definition keep_log (now : Z) (cl : ChangeLog Any) (err : option error) : PS (option error) :=
  match err with
  | Some err => mret (Some err)
  | None =>
    p ← run_get;
    err ← (if negb (raftEnabled p) then on_store (StoreChangeLog (RenewID now cl)) else mret None);
    match err with
    | Some err => mret (Some err)
    | None =>
      if match last (changeLogs p) with Some xcl => String.eqb (ID xcl) (ID cl) | None => false end
      then mret None
      else _ ← run_modify (λ p, set_changeLogs (changeLogs p ++ [cl]) p); mret None
    end
  end.

(** The deferred function that hashes the log, or starts the restart. *)
Definition hash_log (cl : ChangeLog Any) (err : option error) : PS (option error) :=
  match err with
  | None =>
    p ← run_get;
    match HashAny encode_string (changeHash p) [ID cl] with
    | Err _ => mret None
    | Ok newHash => _ ← run_modify (set_changeHash newHash); mret None
    end
  | Some err => _ ← go_ GoRestartState; mret (Some err)
  end.

Definition apply_change (cl : ChangeLog Any) (store : bool) : PS (option error) :=
  r ← lift_outcome (Command_Resource (Cmd cl));
  if String.eqb r Spec.Documents then
    match cl_Item cl with
    | None => processDocument None cl store
    | Some i => match decode_document i with
                | Err err => mret (Some err)
                | Ok item => processDocument (Some item) cl store
                end
    end
  else processResource cl.

Definition reload_proxy (now : Z) (cl : ChangeLog Any) (reload : bool) : PS (option error) :=
  if reload then
    p ← run_get;
    let overrideReload := IsNoop (Cmd cl) || pendingChanges p in
    related ← (if overrideReload then mret true
               else r ← lift_outcome (Command_Resource (Cmd cl)); mret (IsRelatedTo r Spec.Routes));
    if related : bool then
      err ← storeCachedDocuments;
      match err with
      | Some err => mret (Some err)
      | None =>
        err ← reconfigureState now cl;
        match err with
        | Some err => mret (Some err)
        | None => _ ← run_modify (set_pendingChanges false); mret None
        end
      end
    else mret None
  else if negb (IsNoop (Cmd cl)) then _ ← run_modify (set_pendingChanges true); mret None
  else mret None.

(** The body under the lock. *)
Definition process_locked (now : Z) (cl : ChangeLog Any) (reload store : bool) : PS (option error) :=
  let noop := IsNoop (Cmd cl) in
  let body :=
    if noop then reload_proxy now cl reload
    else deferred (hash_log cl) (
      err ← apply_change cl store;
      match err with Some err => mret (Some err) | None => reload_proxy now cl reload end) in
  if store && negb noop then deferred (keep_log now cl) body else body.

(** [cl] may be nil. *)
Definition processChangeLog (now : Z) (cl : option (ChangeLog Any)) (reload store : bool)
    : PS (option error) :=
  _ ← Lock;
  deferred (λ err, _ ← Unlock; mret err)
    match cl with
    | None => run_panic nil_deref
    | Some cl => process_locked now cl reload store
    end.

(** *** Restoring *)

Definition compactChangeLogs (logs : list (ChangeLog Any)) : PS (gores Z) :=
  removeList ← lift_outcome (compactChangeLogsRemoveList logs);
  err ← on_store (DeleteChangeLogs removeList);
  match err with Some err => mret (Err err) | None => mret (Ok (Z.of_nat (length logs))) end.

Fixpoint restore_logs (now : Z) (logs : list (ChangeLog Any)) : PS (option error) :=
  match logs with
  | [] => mret None
  | cl :: logs =>
    r ← lift_outcome (Command_Resource (Cmd cl));
    if String.eqb r Spec.Documents then restore_logs now logs else
    err ← processChangeLog now (Some cl) false false;
    match err with
    | Some err => p ← run_get; if debugMode p then restore_logs now logs else mret (Some err)
    | None => _ ← run_modify (λ p, set_changeLogs (changeLogs p ++ [cl]) p); restore_logs now logs
    end
  end.

Definition restoreFromChangeLogs (now : Z) (directApply : bool) : PS (option error) :=
  p ← run_get;
  logs ← (if raftEnabled p then mret (Ok (changeLogs p))
          else r ← on_store FetchChangeLogs;
               mret match r with
                    | Ok logs => Ok (elems logs)
                    | Err err => Err ("failed to get state change logs from storage: " +:+ err)
                    end);
  match logs with
  | Err err => mret (Some err)
  | Ok logs =>
    if raftEnabled p && Nat.eqb (length logs) 0 then mret None else
    err ← restore_logs now logs;
    match err with
    | Some err => mret (Some err)
    | None =>
      let cl := NewNoopChangeLog now in
      err ← (if negb directApply then reconfigureState now cl
             else processChangeLog now (Some cl) true false);
      match err with
      | Some err => mret (Some err)
      | None =>
        if Z.of_nat (length logs) <? 0 then
          r ← compactChangeLogs logs; mret (error_of r)
        else mret None
      end
    end
  end.

End code.
