(* ===== verification/ProxyLogic.v ===== *)
(** * Reasoning about the computations of the proxy

    [st_keeps]: an operation that leaves what a projection reads of its
    state; [rm_frame]: a computation that depends on the resource manager
    alone and changes nothing else; [keeps]: one that does not wait and
    leaves what a projection reads of the proxy.  A reconfiguration is
    [quiet]: it leaves the resources, the stores, the change logs and the
    lock. *)
From Stdlib Require Import ZArith Lia.
From stdpp Require Import base gmap strings list fin_maps.
From S2P Require Import Prelude Avl SliceUtil Pattern Spec Linker ResourceManager.
From S2P Require Import Storage ProxyStore Scheduler Cache Util Compact ConfigResources.
From S2P Require Import ProxyTransport ResourceSpec Proxy RequestContext DynamicProxy Routing.
From S2P Require Import ChangeLogs.

(** ** Operations that only read *)

(** [m] returns the state as it was, as far as [π] reads it. *)
Definition st_keeps {P T A} (π : P → T) (m : ST P A) : Prop :=
  ∀ s, match m s with Returns (_, s') => π s' = π s | Panics _ => True end.
Abbreviation reads := (st_keeps id).

Section reads.
Context {P T : Type} (π : P → T).
Lemma st_keeps_ret {A} (a : A) : st_keeps π (mret a).
Proof. by intros s. Qed.
Lemma st_keeps_get : st_keeps π st_get.
Proof. by intros s. Qed.
Lemma st_keeps_lift {A} (o : outcome A) : st_keeps π (st_lift o).
Proof. intros s. by destruct o. Qed.
Lemma st_keeps_bind {A B} (m : ST P A) (f : A → ST P B) :
  st_keeps π m → (∀ a, st_keeps π (f a)) → st_keeps π (m ≫= f).
Proof.
  intros Hm Hf s. specialize (Hm s). rewrite st_bind_unfold. destruct (m s) as [[a s1]|]; [|done].
  specialize (Hf a s1). destruct (f a s1) as [[b s2]|]; congruence.
Qed.
Lemma Each_keeps (t : tree string loc) (f : string → loc → ST P bool) :
  (∀ k v, st_keeps π (f k v)) → st_keeps π (Avl.Each t f).
Proof.
  intros Hf. apply st_keeps_bind; [|intros _; apply st_keeps_ret].
  induction (Avl.root t) as [|k v l IHl r IHr h]; cbn [Avl.each]; [apply st_keeps_ret|].
  apply st_keeps_bind; [done|]. intros [|]; [|apply st_keeps_ret].
  apply st_keeps_bind; [done|]. intros [|]; [done|apply st_keeps_ret].
Qed.
End reads.

Section manager.
Context {E : Externals} {R : Runtime}.

Lemma FindIn_reads k key : reads (FindIn k key).
Proof. by intros s. Qed.
Lemma with_vertices_id (m : ResourceManager) : with_vertices (vertices m) m = m.
Proof. by destruct m. Qed.
Lemma on_reads {A} (m : ST (Linker.store resource) A) : reads m → reads (ResourceManager.on m).
Proof.
  intros Hm s. specialize (Hm (vertices s)). unfold ResourceManager.on.
  destruct (m (vertices s)) as [[a g]|]; [|done]. cbn in *. rewrite Hm. apply with_vertices_id.
Qed.
Lemma load_reads l : reads (load l : ST (Linker.store resource) _).
Proof. intros s. unfold load. by destruct (s !! l). Qed.
Lemma need_edge_reads l e : reads (need_edge l e : ST (Linker.store resource) _).
Proof. apply st_keeps_bind; [apply load_reads|]. intros v. case_match; [apply st_keeps_ret|by intros ?]. Qed.
Lemma Item_reads l : reads (Item l : ST (Linker.store resource) _).
Proof. apply st_keeps_bind; [apply load_reads|]. intros v. apply st_keeps_ret. Qed.
Lemma read_reads {A} (conv : resource → outcome A) l : reads (ResourceManager.read conv l).
Proof. apply st_keeps_bind; [apply on_reads, Item_reads|]. intros r. apply st_keeps_lift. Qed.

Lemma collect_reads {A} t init (f : loc → ST ResourceManager A) : (∀ l, reads (f l)) → reads (collect t init f).
Proof.
  intros Hf s. unfold collect.
  pose proof (Each_keeps fst t (λ _ lk, _ ← collect_step f lk; mret true)) as H.
  specialize (H ltac:(intros k l; apply st_keeps_bind; [intros [m acc]; unfold collect_step; specialize (Hf l m);
    by destruct (f l m) as [[? ?]|]|intros _; apply st_keeps_ret]) (s, init)).
  by destruct (Avl.Each _ _ _) as [[_ [m acc]]|].
Qed.

Create HintDb reads.
Hint Resolve FindIn_reads on_reads need_edge_reads read_reads collect_reads
  @st_keeps_ret @st_keeps_get @st_keeps_lift @st_keeps_bind : reads.
Ltac reads := repeat first [ progress auto with reads | apply st_keeps_bind; [|intros ?]
  | apply collect_reads; intros ? | case_match ].

Lemma get_item_reads {A} k (conv : resource → outcome A) key : reads (get_item k conv key).
Proof. unfold get_item. reads. Qed.
Lemma getRouteModules_reads name ns : reads (getRouteModules name ns).
Proof. unfold getRouteModules. reads. Qed.
Hint Resolve get_item_reads getRouteModules_reads : reads.
Lemma updateRouteRef_reads l : reads (updateRouteRef l).
Proof. unfold updateRouteRef. reads. Qed.
Hint Resolve updateRouteRef_reads : reads.

Lemma GetRoutes_reads : reads GetRoutes.
Proof. unfold GetRoutes. reads. Qed.
Lemma GetRoutesByNamespace_reads ns : reads (GetRoutesByNamespace ns).
Proof. unfold GetRoutesByNamespace, get_by_namespace. reads. Qed.
Lemma edge_routes_reads l :
  reads (t ← ResourceManager.on (need_edge l "routes"); collect t (Some []) updateRouteRef).
Proof. reads. Qed.
Lemma GetRouteNamespaceMap_reads : reads GetRouteNamespaceMap.
Proof.
  intros s. unfold GetRouteNamespaceMap. match goal with |- context [Avl.Each ?t ?f ?s] =>
    pose proof (Each_keeps fst t f) as H; specialize (λ Hf, H Hf s) end.
  cbv beta in H. match goal with H : ?P → _ |- _ => assert (Hf : P); [clear H|specialize (H Hf)] end.
  { intros ns l. apply st_keeps_bind; [|intros _; apply st_keeps_ret]. intros [m map_].
    pose proof (edge_routes_reads l m) as H. unfold id in H.
    match goal with |- context [match ?o with _ => _ end] => by destruct o as [[? ?]|] end. }
  by destruct (Avl.Each _ _ _) as [[_ [m map_]]|].
Qed.
End manager.

Section proofs.
Context {E : Externals} {R : Runtime} {Any : Type} {C : Encoding E Any} {S : Type}.
Context {St : Storage S} {X : ProxyEnv E Any}.
Implicit Types (p q : @ProxyState E Any S X) (cl : ChangeLog Any).

Abbreviation PS := (Run (@ProxyState E Any S X)).

(** ** Computations on the resource manager *)

Definition rm_frame {A} (m : PS A) : Prop := ∀ p, ∃ x r,
  x ≠ Block ∧ ∀ q, rm q = rm p → m q = (x, set_rm r q).

Lemma set_store_id p : set_store (store p) p = p.
Proof. by destruct p. Qed.
Lemma set_rm_id p : set_rm (rm p) p = p.
Proof. by destruct p. Qed.
Lemma set_rm_twice r r' p : set_rm r (set_rm r' p) = set_rm r p.
Proof. done. Qed.

Lemma rm_frame_ret {A} (a : A) : rm_frame (mret a).
Proof.
  intros p. exists (Return a), (rm p). split; [done|]. intros q <-. by rewrite set_rm_id.
Qed.
Lemma rm_frame_outcome {A} (o : outcome A) : rm_frame (lift_outcome o).
Proof.
  intros p. destruct o as [a|e].
  - exists (Return a), (rm p). split; [done|]. intros q <-. by rewrite set_rm_id.
  - exists (Panic e), (rm p). split; [done|]. intros q <-. by rewrite set_rm_id.
Qed.
Lemma rm_frame_rm {A} (m : ST ResourceManager A) : rm_frame (on_rm m).
Proof.
  intros p. destruct (m (rm p)) as [[a r]|e] eqn:Hm.
  - exists (Return a), r. split; [done|]. intros q Hq. unfold on_rm, zoom. by rewrite Hq, Hm.
  - exists (Panic e), (rm p). split; [done|]. intros q Hq. unfold on_rm, zoom. rewrite Hq, Hm.
    by rewrite <-Hq, set_rm_id.
Qed.
Lemma rm_frame_bind {A B} (m : PS A) (f : A → PS B) :
  rm_frame m → (∀ a, rm_frame (f a)) → rm_frame (m ≫= f).
Proof.
  intros Hm Hf p. destruct (Hm p) as (x & r & Hx & Hq). destruct x as [a|e|]; [|..|done].
  - destruct (Hf a (set_rm r p)) as (y & r' & Hy & Hq'). exists y, r'. split; [done|].
    intros q Heq. rewrite run_bind_unfold, Hq by done. rewrite Hq' by done. by rewrite set_rm_twice.
  - exists (Panic e), r. split; [done|]. intros q Heq. by rewrite run_bind_unfold, Hq.
Qed.
Lemma rm_frame_action cl (m1 m2 : PS (option error)) :
  rm_frame m1 → rm_frame m2 → rm_frame (on_action cl m1 m2).
Proof.
  intros H1 H2. apply rm_frame_bind; [apply rm_frame_outcome|]. intros a.
  repeat case_match; auto using rm_frame_ret.
Qed.
Lemma rm_frame_decoded {T} (dec : Any → gores T) zero (f : T → ChangeLog Any → PS (option error)) cl :
  (∀ t, rm_frame (f t cl)) → rm_frame (decoded dec zero f cl).
Proof. intros Hf. unfold decoded. case_match; [apply Hf|apply rm_frame_ret]. Qed.

Create HintDb frame.
Hint Resolve @rm_frame_ret @rm_frame_outcome @rm_frame_rm @rm_frame_action @rm_frame_decoded
  @rm_frame_bind : frame.

Lemma processResource_frame cl : rm_frame (processResource cl).
Proof.
  apply rm_frame_bind; [apply rm_frame_outcome|]. intros r.
  repeat case_match; try apply rm_frame_ret; apply rm_frame_decoded; intros t; apply rm_frame_action;
    auto with frame.
Qed.

(** ** Computations that keep a part of the state *)

(** [m] does not wait, and what [π] reads of the state is as before. *)
Definition keeps {T} (π : @ProxyState E Any S X → T) {A} (m : PS A) : Prop :=
  ∀ p, (m p).1 ≠ Block ∧ π (m p).2 = π p.

Section keeps.
Context {T : Type} (π : @ProxyState E Any S X → T).

Lemma keeps_ret {A} (a : A) : keeps π (mret a).
Proof. by intros p. Qed.
Lemma keeps_get : keeps π run_get.
Proof. by intros p. Qed.
Lemma keeps_panic {A} e : keeps π (run_panic e : PS A).
Proof. by intros p. Qed.
Lemma keeps_outcome {A} (o : outcome A) : keeps π (lift_outcome o).
Proof. intros p. by destruct o. Qed.
Lemma keeps_modify f : (∀ p, π (f p) = π p) → keeps π (run_modify f).
Proof. intros Hf p. by split; [|apply Hf]. Qed.
Lemma keeps_bind {A B} (m : PS A) (f : A → PS B) : keeps π m → (∀ a, keeps π (f a)) → keeps π (m ≫= f).
Proof.
  intros Hm Hf p. rewrite run_bind_unfold. destruct (Hm p) as [H1 H2].
  destruct (m p) as [[a|e|] p1]; cbn in *; [|done..]. destruct (Hf a p1) as [H3 H4]. by rewrite H4.
Qed.
Lemma keeps_zoom {U A} (get : @ProxyState E Any S X → U) set (m : ST U A) :
  (∀ t p, π (set t p) = π p) → keeps π (zoom get set m).
Proof. intros Hs p. unfold zoom. destruct (m (get p)) as [[a t]|e]; cbn; by rewrite ?Hs. Qed.
Lemma keeps_reads {A} (m : ST ResourceManager A) : reads m → keeps π (on_rm m).
Proof.
  intros Hm p. unfold on_rm, zoom. specialize (Hm (rm p)). destruct (m (rm p)) as [[a r]|e]; [|done].
  cbn in *. by rewrite Hm, set_rm_id.
Qed.
Lemma keeps_deferred d (m : PS (option error)) : (∀ err, keeps π (d err)) → keeps π m → keeps π (deferred d m).
Proof.
  intros Hd Hm p. unfold deferred. destruct (Hm p) as [H1 H2].
  destruct (m p) as [[err|e|] p1]; cbn in *; [..|done].
  - destruct (Hd err p1) as [H3 H4]. by rewrite H4.
  - destruct (Hd None p1) as [H3 H4]. destruct (d None p1) as [[?|?|] p2]; cbn in *; naive_solver congruence.
Qed.
Lemma keeps_recovering (m : PS (option error)) : keeps π m → keeps π (recovering m).
Proof.
  intros Hm p. unfold recovering. destruct (Hm p) as [H1 H2]. by destruct (m p) as [[err|e|] p1].
Qed.
Lemma keeps_group {A} (f : A → PS (option error)) l : (∀ a, keeps π (f a)) → keeps π (group f l).
Proof.
  intros Hf. induction l as [|a l IH]; [apply keeps_ret|]. cbn. apply keeps_bind; [done|]. intros err.
  apply keeps_bind; [done|]. intros rest. apply keeps_ret.
Qed.
Lemma keeps_fill n (m : PS (gores ModuleExtractor)) mb : (∀ pools p, π (set_pool_objs pools p) = π p) →
  keeps π m → keeps π (fill_pool n m mb).
Proof.
  intros Hπ Hm. induction n as [|n IH]; cbn [fill_pool]; [apply keeps_ret|].
  apply keeps_bind; [done|]. intros me. apply keeps_bind; [|intros _; apply IH].
  destruct me as [me|e]; [|apply keeps_ret]. unfold pool_at, set_pool.
  apply keeps_bind; [|intros o; apply keeps_modify; intros p; apply Hπ].
  apply keeps_bind; [apply keeps_get|]. intros p. destruct (pool_objs p !! mb); [apply keeps_ret|apply keeps_panic].
Qed.

(** The same of a computation on the proxy and a local tree. *)
Definition keeps2 {U A} (m : Run (@ProxyState E Any S X * U) A) : Prop :=
  ∀ p t, (m (p, t)).1 ≠ Block ∧ π (m (p, t)).2.1 = π p.
Lemma keeps2_ret {U A} (a : A) : keeps2 (mret a : Run (_ * U) A).
Proof. by intros p t. Qed.
Lemma keeps2_panic {U A} e : keeps2 (run_panic e : Run (_ * U) A).
Proof. by intros p t. Qed.
Lemma keeps2_outcome {U A} (o : outcome A) : keeps2 (lift_outcome o : Run (_ * U) A).
Proof. intros p t. by destruct o. Qed.
Lemma keeps2_get {U} : keeps2 (run_get : Run (_ * U) _).
Proof. by intros p t. Qed.
Lemma keeps2_set {U} (t' : U) : keeps2 (run_modify (λ '(p, _), (p, t'))).
Proof. by intros p t. Qed.
Lemma keeps2_bind {U A B} (m : Run (_ * U) A) (f : A → Run (_ * U) B) :
  keeps2 m → (∀ a, keeps2 (f a)) → keeps2 (m ≫= f).
Proof.
  intros Hm Hf p t. rewrite run_bind_unfold. destruct (Hm p t) as [H1 H2].
  destruct (m (p, t)) as [[a|e|] [p1 t1]]; cbn in *; [|done..]. destruct (Hf a p1 t1) as [H3 H4]. by rewrite H4.
Qed.
Lemma keeps2_on {U A} (m : PS A) : keeps π m → keeps2 (on_proxy m : Run (_ * U) A).
Proof. intros Hm p t. destruct (Hm p) as [H1 H2]. unfold on_proxy. by destruct (m p) as [x p']. Qed.
Lemma keeps2_group {U A} (f : A → Run (_ * U) (option error)) l : (∀ a, keeps2 (f a)) → keeps2 (group f l).
Proof.
  intros Hf. induction l as [|a l IH]; [apply keeps2_ret|]. cbn. apply keeps2_bind; [done|]. intros err.
  apply keeps2_bind; [done|]. intros rest. apply keeps2_ret.
Qed.
End keeps.

End proofs.

Create HintDb keeps.
#[export] Hint Resolve keeps_ret keeps_get keeps_panic keeps_outcome keeps_reads
  GetRoutes_reads GetRoutesByNamespace_reads GetRouteNamespaceMap_reads : keeps.

(** Follow the structure of a computation. *)
Ltac keeps_step := first
  [ progress auto with keeps
  | apply keeps_bind; [|intros ?]
  | apply keeps_modify; by intros ?
  | apply keeps_zoom; by intros ?
  | apply keeps_deferred; [intros ?|]
  | apply keeps_recovering
  | apply keeps_group; intros ?
  | apply keeps_fill; [by intros ? ?|]
  | case_match ].
Ltac keeps := repeat keeps_step.

(** ** The lock, and a reconfiguration *)

Section reconfiguration.
Context {E : Externals} {R : Runtime} {Any : Type} {C : Encoding E Any} {S : Type}.
Context {St : Storage S} {X : ProxyEnv E Any}.
Implicit Types (p q : @ProxyState E Any S X) (cl : ChangeLog Any).

Abbreviation PS := (Run (@ProxyState E Any S X)).
Abbreviation calm := (keeps proxyLock).

(** Everything but the cache of modules, the programs, providers and routers,
    the pending changes and the goroutines that are started. *)
Definition core p := (proxyLock p, rm p, Proxy.store p, changeLogs p, changeHash p, raftEnabled p, docCache p,
  (debugMode p, config p, ready p, raft p, skdr p)).
Abbreviation quiet := (keeps core).

Lemma quiet_calm {A} (m : PS A) : quiet m → calm m.
Proof. intros Hm p. destruct (Hm p) as [H1 H2]. split; [done|]. unfold core in H2. congruence. Qed.
Lemma calm_frame {A} (m : PS A) : rm_frame m → calm m.
Proof. intros Hm p. destruct (Hm p) as (x & r & Hx & Hq). by rewrite Hq. Qed.

Lemma extractor_quiet rt : quiet (createModuleExtractorFunc rt).
Proof. unfold createModuleExtractorFunc, NewRuntimeContext. keeps. Qed.
Hint Resolve extractor_quiet : keeps.

Lemma provide_quiet rt : quiet (provide rt).
Proof.
  unfold provide, NewRequestContextProvider, NewModulePool, UpdateModulePool, provider_Close, pool_Close,
    provider_at, set_provider, pool_at, set_pool. keeps.
Qed.
Lemma build_mux_quiet mux routes : quiet (build_mux mux routes).
Proof.
  revert mux. induction routes as [|rt routes IH]; intros mux; cbn [build_mux]; [apply keeps_ret|].
  apply keeps_bind; [apply provide_quiet|]. intros r. keeps.
Qed.
Hint Resolve build_mux_quiet : keeps.
Lemma setupRoutes_quiet log : quiet (setupRoutes log).
Proof. unfold setupRoutes, setup_namespace. keeps. Qed.

Lemma module_payload_quiet now md : quiet (module_payload now md).
Proof. unfold module_payload, transpile, on_cache. keeps. Qed.
Lemma runtime_quiet rt ms : quiet (NewRuntimeContext rt ms).
Proof. unfold NewRuntimeContext. keeps. Qed.

Lemma compile_module_quiet now rt : keeps2 core (compile_module now rt).
Proof.
  unfold compile_module. repeat first
    [ apply keeps2_bind; [|intros ?] | apply keeps2_ret | apply keeps2_panic | apply keeps2_outcome
    | apply keeps2_get | apply keeps2_set | apply keeps2_on, module_payload_quiet
    | apply keeps2_on, runtime_quiet | case_match ].
Qed.

Lemma setupModules_quiet now log : quiet (setupModules now log).
Proof.
  unfold setupModules. apply keeps_bind; [apply keeps_get|]. intros p. apply keeps_bind; [keeps|].
  intros routes. apply keeps_bind.
  - intros q. destruct (keeps2_group core (compile_module now) (filter has_modules (elems routes))
      (compile_module_quiet now) q NewTree) as [H1 H2].
    by destruct (group _ _ _) as [[err|e|] [q' t]].
  - intros [err t]. keeps. intros q. unfold merge_programs. by destruct (Each _ _ _) as [[]|].
Qed.
Hint Resolve setupModules_quiet setupRoutes_quiet : keeps.
Lemma reconfigureState_quiet now log : quiet (reconfigureState now log).
Proof. unfold reconfigureState, go_. keeps. Qed.

Lemma store_docs_calm : calm storeCachedDocuments.
Proof. unfold storeCachedDocuments, on_store. keeps. Qed.
Lemma processDocument_calm doc cl store : calm (processDocument doc cl store).
Proof. unfold processDocument, on_action, on_store. keeps. Qed.
Hint Resolve quiet_calm reconfigureState_quiet store_docs_calm processDocument_calm : keeps.

Lemma process_locked_calm now cl reload store : calm (process_locked now cl reload store).
Proof.
  assert (Hr : calm (processResource cl)) by apply calm_frame, processResource_frame.
  assert (calm (apply_change cl store)) by (unfold apply_change; keeps).
  assert (calm (reload_proxy now cl reload)) by (unfold reload_proxy; keeps).
  unfold process_locked, keep_log, hash_log, go_, on_store. keeps.
Qed.

End reconfiguration.
