(* ===== verification/Replay.v ===== *)
(** * Change logs: what they leave, and what a restart restores

    Properties of ChangeLogs.v: the lock, a change that is refused or makes
    the manager panic, and a process that is started on the store that
    another one left: it restores the same resources. *)
From Stdlib Require Import ZArith Lia.
From stdpp Require Import base gmap strings list fin_maps.
From S2P Require Import Prelude Avl SliceUtil Pattern Spec Linker ResourceManager.
From S2P Require Import Storage ProxyStore Scheduler Cache Util Compact ConfigResources.
From S2P Require Import ProxyTransport ResourceSpec Proxy RequestContext DynamicProxy Routing.
From S2P Require Import ChangeLogs.
From S2P Require Import ProxyLogic.

Section proofs.
Context {E : Externals} {R : Runtime} {Any : Type} {C : Encoding E Any} {S : Type}.
Context {St : Storage S} {X : ProxyEnv E Any}.
Implicit Types (p q : @ProxyState E Any S X) (cl : ChangeLog Any).

Abbreviation PS := (Run (@ProxyState E Any S X)).
Abbreviation calm := (keeps (X := X) proxyLock).

Lemma processChangeLog_free now (ocl : option (ChangeLog Any)) reload store p :
  (proxyLock p = false → (processChangeLog now ocl reload store p).1 ≠ Block ∧
     proxyLock (processChangeLog now ocl reload store p).2 = false) ∧
  (proxyLock p = true → processChangeLog now ocl reload store p = (Block, p)).
Proof.
  unfold processChangeLog. go. unfold Lock. split; intros Hp; rewrite Hp; [|done].
  assert (Hbody : calm match ocl with
    | None => run_panic nil_deref
    | Some cl => process_locked now cl reload store
    end) by (destruct ocl; [apply process_locked_calm|apply keeps_panic]).
  unfold deferred. destruct (Hbody (set_proxyLock true p)) as [H1 _].
  match goal with H : fst (?m ?q) ≠ Block |- _ => destruct (m q) as [[err|e|] p1] end; [..|done]; cbn; by go.
Qed.

(** C14: A change log takes the lock and gives it back, whether it is applied,
    refused or makes the proxy panic; it never waits once it has the lock.
    While the lock is held it waits for ever. *)
Theorem processChangeLog_lock now (ocl : option (ChangeLog Any)) reload store p :
  (proxyLock p = false → (processChangeLog now ocl reload store p).1 ≠ Block ∧
     proxyLock (processChangeLog now ocl reload store p).2 = false) ∧
  (proxyLock p = true → processChangeLog now ocl reload store p = (Block, p)).
Proof. apply processChangeLog_free. Qed.

(** ** One change log *)

(** On a manager [m], the change log exits with [x] and leaves [m']. *)
Definition applied cl (m : ResourceManager) (x : exit (option error)) (m' : ResourceManager) : Prop :=
  ∀ q, rm q = m → processResource cl q = (x, set_rm m' q).

Lemma applied_total cl p : ∃ x m', x ≠ Block ∧ applied cl (rm p) x m'.
Proof. destruct (processResource_frame cl p) as (x & m' & Hx & Hq). by exists x, m'. Qed.

(** A log of a resource other than documents. *)
Definition resource_log cl : Prop :=
  IsNoop (Cmd cl) = false ∧ ∃ r, Command_Resource (Cmd cl) = Returns r ∧ r ≠ Spec.Documents.

Lemma apply_change_resource cl store p : resource_log cl → apply_change cl store p = processResource cl p.
Proof.
  intros (_ & r & Hr & Hd). unfold apply_change. rewrite Hr. go.
  by rewrite (proj2 (String.eqb_neq r Spec.Documents)).
Qed.

(** The state of a call under the lock, and after it. *)
Definition locked p : @ProxyState E Any S X := set_proxyLock true p.

Lemma deferred_eq {P} (d : option error → Run P (option error)) m1 m2 (p : P) :
  m1 p = m2 p → deferred d m1 p = deferred d m2 p.
Proof. intros Heq. unfold deferred. by rewrite Heq. Qed.

Lemma deferred_panics {P} (d : option error → Run P (option error)) m (p p1 p2 : P) e r :
  m p = (Panic e, p1) → d None p1 = (Return r, p2) → deferred d m p = (Panic e, p2).
Proof. intros Hm Hd. unfold deferred. by rewrite Hm, Hd. Qed.
Lemma deferred_returns {P} (d : option error → Run P (option error)) m (p p1 : P) err :
  m p = (Return err, p1) → deferred d m p = d err p1.
Proof. intros Hm. unfold deferred. by rewrite Hm. Qed.

Lemma process_resource now cl reload store p x m' : proxyLock p = false → resource_log cl →
  applied cl (rm p) x m' →
  processChangeLog now (Some cl) reload store p =
    deferred (λ err, _ ← Unlock; mret err)
      (let body := deferred (hash_log cl) (λ q,
         match x with
         | Return None => reload_proxy now cl reload (set_rm m' q)
         | Return (Some err) => (Return (Some err), set_rm m' q)
         | Panic e => (Panic e, set_rm m' q)
         | Block => (Block, set_rm m' q)
         end) in
       if store then deferred (keep_log now cl) body else body) (locked p).
Proof.
  intros Hp Hcl Hx. unfold processChangeLog. go. unfold Lock. rewrite Hp.
  apply deferred_eq. unfold process_locked. destruct Hcl as [Hn Hr]. rewrite Hn. cbn [negb]. rewrite andb_true_r.
  assert (Hbody : (err ← apply_change cl store;
    match err with Some err => mret (Some err) | None => reload_proxy now cl reload end) (locked p) =
    match x with
    | Return None => reload_proxy now cl reload (set_rm m' (locked p))
    | Return (Some err) => (Return (Some err), set_rm m' (locked p))
    | Panic e => (Panic e, set_rm m' (locked p))
    | Block => (Block, set_rm m' (locked p))
    end).
  { go. rewrite apply_change_resource, (Hx (locked p)) by done. by destruct x as [[err|]|e|]. }
  cbv zeta. destruct store; [apply deferred_eq|]; by apply deferred_eq.
Qed.

(** C31: A change that the resource manager refuses leaves no trace but in the
    manager: the store, the change logs, the hash and the routers are as
    before, the lock is free, and a restart of the state is started. *)
Theorem refused_change_not_kept now cl reload store p m' err : proxyLock p = false → resource_log cl →
  applied cl (rm p) (Return (Some err)) m' →
  processChangeLog now (Some cl) reload store p =
    (Return (Some err), set_started (started p ++ [GoRestartState]) (set_rm m' p)).
Proof.
  intros Hp Hcl Hx. rewrite (process_resource now cl reload store p _ m' Hp Hcl Hx).
  destruct store; destruct p; cbn in *; by subst.
Qed.

(** The change log is not the last one kept. *)
Definition new_log p cl : Prop := ∀ xcl, last (changeLogs p) = Some xcl → ID xcl ≠ ID cl.

(** The state with the log kept. *)
Definition kept cl (s : S) (h : Z) (m' : ResourceManager) p : @ProxyState E Any S X :=
  set_changeLogs (changeLogs p ++ [cl]) (set_store s (set_changeHash h (set_rm m' p))).

Lemma keep_log_ok now cl p s : raftEnabled p = false → new_log p cl →
  StoreChangeLog (RenewID now cl) (store p) = Returns (None, s) →
  keep_log now cl None p = (Return None, set_changeLogs (changeLogs p ++ [cl]) (set_store s p)).
Proof.
  intros Hr Hnew Hs. unfold keep_log. go. rewrite Hr. cbn [negb]. unfold on_store. go. rewrite Hs.
  cbn [changeLogs set_store]. destruct (last (changeLogs p)) as [xcl|] eqn:Hl; [|done].
  by rewrite (proj2 (String.eqb_neq _ _) (Hnew xcl Hl)).
Qed.

Lemma hash_log_ok cl p h : HashAny encode_string (changeHash p) [ID cl] = Ok h →
  hash_log cl None p = (Return None, set_changeHash h p).
Proof. intros Hh. unfold hash_log. go. by rewrite Hh. Qed.

(** A change on which the resource manager panics is kept like one that
    succeeded: it is written to the store, appended to the change logs and
    hashed, and no restart is started, because the deferred functions find no
    error. *)
Theorem panicking_change_kept now cl reload p m' e s h : proxyLock p = false → resource_log cl →
  raftEnabled p = false → new_log p cl → applied cl (rm p) (Panic e) m' →
  HashAny encode_string (changeHash p) [ID cl] = Ok h →
  StoreChangeLog (RenewID now cl) (store p) = Returns (None, s) →
  processChangeLog now (Some cl) reload true p = (Panic e, kept cl s h m' p).
Proof.
  intros Hp Hcl Hr Hnew Hx Hh Hs. rewrite (process_resource now cl reload true p _ m' Hp Hcl Hx).
  cbv zeta. eapply deferred_panics.
  - eapply deferred_panics; [eapply deferred_panics; [done|by apply hash_log_ok]|by apply keep_log_ok].
  - destruct p; cbn in *; by subst.
Qed.

(** ** A run of a process, and its restart *)

(** The state of a process without replication, between two calls. *)
Definition idle p : Prop := proxyLock p = false ∧ raftEnabled p = false ∧ docCache p = [].

(** Changes that succeed, one after the other, each at its time. *)
Inductive live : @ProxyState E Any S X → list (Z * ChangeLog Any) → @ProxyState E Any S X → Prop :=
  | live_nil p : live p [] p
  | live_cons p now cl p1 h p2 :
      processChangeLog now (Some cl) true true p = (Return None, p1) → live p1 h p2 →
      live p ((now, cl) :: h) p2.

(** A log of a document. *)
Definition document_log cl : Prop :=
  IsNoop (Cmd cl) = false ∧ Command_Resource (Cmd cl) = Returns Spec.Documents.

Lemma deferred_returned {P} (d : option error → Run P (option error)) m (s s' : P) err :
  deferred d m s = (Return err, s') → ∃ e1 (s1 : P), m s = (Return e1, s1) ∧ d e1 s1 = (Return err, s').
Proof.
  unfold deferred. destruct (m s) as [[e1|e|] s1]; [by exists e1, s1| |done].
  destruct (d None s1) as [[?|?|] ?]; by intros [=].
Qed.

Lemma keep_log_ends now cl e p p' : keep_log now cl e p = (Return None, p') →
  e = None ∧ (raftEnabled p = false → ∃ s, StoreChangeLog (RenewID now cl) (Proxy.store p) = Returns (None, s) ∧
  ∃ logs, p' = set_changeLogs logs (set_store s p)).
Proof.
  unfold keep_log. destruct e as [e|]; [done|]. intros H. split; [done|]. intros Hr. revert H.
  go. rewrite Hr. cbn [negb]. unfold on_store. go.
  destruct (StoreChangeLog (RenewID now cl) (Proxy.store p)) as [[[err|] s]|]; [done| |done].
  intros H. exists s. split; [done|]. revert H.
  match goal with |- context [if ?b then _ else _] => destruct b end; go; intros [= <-];
    [exists (changeLogs p); by destruct p|by eexists].
Qed.

Lemma hash_log_kept cl e p p' : hash_log cl e p = (Return None, p') →
  e = None ∧ ∃ h, p' = set_changeHash h p.
Proof.
  unfold hash_log. destruct e as [e|]; [done|]. go. destruct (HashAny _ _ _) as [h|]; go; intros [= <-];
    (split; [done|]); [by exists h|exists (changeHash p); by destruct p].
Qed.

Lemma reload_kept now cl reload p p' : docCache p = [] → reload_proxy now cl reload p = (Return None, p') →
  core p' = core p.
Proof.
  intros Hd. assert (Hq : ∀ q err q', reconfigureState now cl q = (Return err, q') → core q' = core q).
  { intros q err q' Hrc. destruct (reconfigureState_quiet now cl q) as [_ H]. by rewrite Hrc in H. }
  unfold reload_proxy. destruct reload; go; [|destruct (negb _); go; by intros [= <-]].
  match goal with |- context [match ?m with (_, _) => _ end = _] => destruct m as [[related|e|] p1] eqn:Er end;
    [|done..].
  assert (p1 = p) as ->.
  { revert Er. destruct (_ || _); go; [by intros [= _ <-]|]. destruct (Command_Resource _); [by intros [= _ <-]|done]. }
  destruct related; go; [|by intros [= <-]]. unfold storeCachedDocuments. go. rewrite Hd. cbn [length Nat.eqb]. go.
  destruct (reconfigureState now cl p) as [[[err|]|e|] p2] eqn:Hrc; go; [done| |done..]. intros [= <-].
  by rewrite <-(Hq _ _ _ Hrc).
Qed.

(** What is left of a proxy by a change that succeeds, apart from what the
    change itself does: [p3] is the proxy after that. *)
Definition settles now cl (p3 p' : @ProxyState E Any S X) : Prop :=
  docCache p3 = [] → raftEnabled p3 = false →
  idle p' ∧ rm p' = rm p3 ∧ debugMode p' = debugMode p3 ∧
  StoreChangeLog (RenewID now cl) (Proxy.store p3) = Returns (None, Proxy.store p').

Lemma change_success now cl p p' : proxyLock p = false → IsNoop (Cmd cl) = false →
  processChangeLog now (Some cl) true true p = (Return None, p') →
  ∃ p3, apply_change cl true (locked p) = (Return None, p3) ∧ settles now cl p3 p'.
Proof.
  intros Hl Hn H. unfold processChangeLog in H. revert H. go. unfold Lock. rewrite Hl. fold (locked p).
  unfold process_locked. rewrite Hn. cbn [negb andb]. intros H.
  apply deferred_returned in H as (e1 & p1 & H & Hun). revert Hun. go. intros [= -> <-].
  apply deferred_returned in H as (e2 & p2 & H & Hkeep).
  apply deferred_returned in H as (e3 & p4 & H & Hhash).
  destruct (keep_log_ends now cl e2 p2 p1) as (-> & Hkept); [done|].
  apply hash_log_kept in Hhash as (-> & h & ->). revert H. go.
  destruct (apply_change cl true (locked p)) as [[[err|]|e|] p3]; [done| |done..]. intros H.
  exists p3. split; [done|]. intros Hd Hr.
  apply reload_kept in H; [|done]. unfold core in H. injection H as Hl3 Hm3 Hs3 _ _ Hr3 Hd3 Hdb _ _ _ _.
  destruct Hkept as (s & Hs & logs & ->); [cbn; congruence|]. cbn in Hs.
  unfold idle. cbn. rewrite Hm3, Hr3, Hd3, Hdb, <-Hs3. done.
Qed.

(** A change of a resource was applied; a document is in the store, and the
    logs of both; a noop leaves everything as it was. *)
Lemma resource_step now cl p p' : idle p → resource_log cl →
  processChangeLog now (Some cl) true true p = (Return None, p') →
  applied cl (rm p) (Return None) (rm p') ∧ idle p' ∧
  StoreChangeLog (RenewID now cl) (Proxy.store p) = Returns (None, Proxy.store p').
Proof.
  intros (Hl & Hr & Hd) Hcl H. destruct (change_success now cl p p' Hl (proj1 Hcl) H) as (p3 & H3 & Hs).
  destruct (applied_total cl p) as (x & m' & Hx & Ha).
  rewrite apply_change_resource, (Ha (locked p)) in H3 by done. injection H3 as -> <-.
  destruct Hs as (Hidle & Hm & _ & Hst); [done..|]. cbn in Hm, Hst. by rewrite Hm.
Qed.
Lemma noop_step now cl p p' : idle p → IsNoop (Cmd cl) = true →
  processChangeLog now (Some cl) true true p = (Return None, p') →
  rm p' = rm p ∧ idle p' ∧ Proxy.store p' = Proxy.store p.
Proof.
  intros (Hl & Hr & Hd) Hn H. unfold processChangeLog in H. revert H. go. unfold Lock. rewrite Hl. fold (locked p).
  unfold process_locked. rewrite Hn. cbn [negb andb]. intros H.
  apply deferred_returned in H as (e1 & p1 & H & Hun). revert Hun. go. intros [= -> <-].
  apply reload_kept in H; [|done]. unfold core in H. injection H as Hl3 Hm3 Hs3 _ _ Hr3 Hd3 Hdb _ _ _ _.
  unfold idle. cbn in *. split; [done|]. split; [|done]. split_and!; congruence.
Qed.
Lemma log_kinds now cl p p' : processChangeLog now (Some cl) true true p = (Return None, p') →
  proxyLock p = false → IsNoop (Cmd cl) = true ∨ document_log cl ∨ resource_log cl.
Proof.
  intros H Hl. destruct (IsNoop (Cmd cl)) eqn:Hn; [by left|right].
  destruct (change_success now cl p p' Hl Hn H) as (p3 & H3 & _). unfold apply_change in H3.
  destruct (Command_Resource (Cmd cl)) as [r|e] eqn:Hr; [|by revert H3; go].
  destruct (decide (r = Spec.Documents)) as [->|Hne]; [by left|right]. split; [done|]. by exists r.
Qed.

(** Changes that a restart applies, which neither reloads nor stores. *)
Lemma hash_log_id cl p : ∃ h, hash_log cl None p = (Return None, set_changeHash h p).
Proof.
  unfold hash_log. go. destruct (HashAny _ _ _) as [h|]; go; [by exists h|].
  exists (changeHash p). by destruct p.
Qed.

Lemma restore_step now cl m' p : idle p → resource_log cl → applied cl (rm p) (Return None) m' → ∃ h,
  processChangeLog now (Some cl) false false p =
    (Return None, set_pendingChanges true (set_changeHash h (set_rm m' p))).
Proof.
  intros (Hp & _) Hcl Hx. rewrite (process_resource now cl false false p _ m' Hp Hcl Hx).
  cbv zeta. destruct Hcl as [Hn _].
  destruct (hash_log_id cl (set_pendingChanges true (set_rm m' (locked p)))) as [h Hh]. exists h.
  erewrite deferred_returns; [|erewrite deferred_returns; [exact Hh|]].
  - destruct p; cbn in *; by subst.
  - unfold reload_proxy. rewrite Hn. cbn [negb]. by go.
Qed.

(** The changes of resources, one after the other, on a manager; the logs of
    documents are passed over.  [kept] are those that were applied. *)
Inductive applied_all : ResourceManager → list (ChangeLog Any) → list (ChangeLog Any) → ResourceManager → Prop :=
  | applied_nil m : applied_all m [] [] m
  | applied_cons m cl m1 logs kept m2 : resource_log cl → applied cl m (Return None) m1 →
      applied_all m1 logs kept m2 → applied_all m (cl :: logs) (cl :: kept) m2
  | applied_skip m cl logs kept m2 : document_log cl →
      applied_all m logs kept m2 → applied_all m (cl :: logs) kept m2.

Lemma restore_logs_ok now m logs kept m' p : applied_all m logs kept m' → rm p = m → idle p → ∃ p',
  restore_logs now logs p = (Return None, p') ∧ rm p' = m' ∧ idle p' ∧
  changeLogs p' = changeLogs p ++ kept ∧ Proxy.store p' = Proxy.store p.
Proof.
  intros Hall. revert p. induction Hall as [m|m cl m1 logs kept m2 Hcl Ha Hall IH|m cl logs kept m2 Hcl Hall IH];
    intros p <- Hidle.
  { exists p. cbn. rewrite app_nil_r. by split_and!. }
  - cbn [restore_logs]. destruct Hcl as (Hn & r & Hr & Hd). rewrite Hr. go.
    rewrite (proj2 (String.eqb_neq r Spec.Documents)) by done. go.
    destruct (restore_step now cl m1 p Hidle) as [h Hh]; [by split; [|eexists]|done|]. rewrite Hh. go.
    match goal with |- context [restore_logs now logs ?q] => destruct (IH q) as (p' & Hp' & Hm & Hi & Hc & Hs) end;
      [by destruct p|by destruct p|].
    exists p'. rewrite Hp'. split; [done|]. split; [done|]. split; [done|]. rewrite Hc, Hs.
    destruct p; cbn. by rewrite <-app_assoc.
  - cbn [restore_logs]. destruct Hcl as (Hn & Hr). rewrite Hr. go. rewrite String.eqb_refl. by apply IH.
Qed.

End proofs.

(** ** Witnesses *)

Section witness.
#[local] Existing Instances text_externals sample_runtime sample_env text_encoding.

Definition service_log (cmd name : string) : ChangeLog string := MkChangeLog "1" cmd name "default" (Some name) 1.

Lemma start_idle : idle start_proxy.
Proof. by split_and!; vm_compute. Qed.

Lemma service_log_resource cmd name : IsNoop cmd = false → Command_Resource cmd = Returns Spec.Services →
  resource_log (service_log cmd name).
Proof. intros Hn Hr. split; [done|]. exists Spec.Services. by split. Qed.

(** What a log does to the manager of a proxy, by evaluation. *)
Lemma applied_by (p : @ProxyState text_externals string Mem.MemStore sample_env) cl x : (processResource cl p).1 = x → ∃ m',
  applied (S := Mem.MemStore) (X := sample_env) cl (rm p) x m'.
Proof.
  intros Hx. destruct (applied_total cl p) as (y & m' & _ & Ha). exists m'.
  by rewrite (Ha p eq_refl) in Hx; cbn in Hx; subst y.
Qed.

Lemma processChangeLog_lock_witness :
  proxyLock (processChangeLog 0 (Some (service_log "delete_service" "svc")) true true start_proxy).2 = false.
Proof. apply (processChangeLog_lock 0 _ true true start_proxy). vm_compute. reflexivity. Defined.

(** A service that is not there is deleted. *)
Lemma refused_change_not_kept_witness : ∃ err p',
  processChangeLog 0 (Some (service_log "delete_service" "other")) true true start_proxy = (Return (Some err), p') ∧
  changeLogs p' = [] ∧ started p' = [GoRestartState].
Proof.
  destruct (processResource (service_log "delete_service" "other") start_proxy).1 as [[err|]|e|] eqn:Ep;
    [|by vm_compute in Ep..].
  destruct (applied_by start_proxy (service_log "delete_service" "other") (Return (Some err))) as [m' Ha]; [exact Ep|].
  exists err. eexists. split; [|split].
  - apply (refused_change_not_kept 0 _ true true start_proxy m' err); [vm_compute; reflexivity| |exact Ha].
    by apply service_log_resource; vm_compute.
  - vm_compute. reflexivity.
  - vm_compute. reflexivity.
Defined.

(** A service that two routes use is deleted. *)
Lemma panicking_change_kept_witness : ∃ e p',
  processChangeLog 0 (Some (service_log "delete_service" "svc")) true true start_proxy = (Panic e, p') ∧
  changeLogs p' = [service_log "delete_service" "svc"] ∧ started p' = [].
Proof.
  destruct (processResource (service_log "delete_service" "svc") start_proxy).1 as [[err|]|e|] eqn:Ep;
    [by vm_compute in Ep..| |by vm_compute in Ep].
  destruct (applied_by start_proxy (service_log "delete_service" "svc") (Panic e)) as [m' Ha]; [exact Ep|].
  destruct (HashAny encode_string (changeHash start_proxy) [ID (service_log "delete_service" "svc")])
    as [h|err] eqn:Eh; [|by vm_compute in Eh].
  destruct (StoreChangeLog (RenewID 0 (service_log "delete_service" "svc")) (store start_proxy))
    as [[[err|] s]|err] eqn:Es; [by vm_compute in Es| |by vm_compute in Es].
  exists e. eexists. split; [|split].
  - apply (panicking_change_kept 0 _ true start_proxy m' e s h); [vm_compute; reflexivity| | | |exact Ha|done|done].
    + by apply service_log_resource; vm_compute.
    + vm_compute. reflexivity.
    + intros xcl Hx. by vm_compute in Hx.
  - vm_compute. reflexivity.
  - vm_compute. reflexivity.
Defined.

End witness.
