(* ===== verification/Recovery.v ===== *)
(** * A process restarted on the store that another one left

    A proxy on a file store, without replication, processes changes; a proxy
    that starts later on the same file, with the same initial resources,
    restores the resources that the first one had. *)
From Stdlib Require Import ZArith Lia Sorting.Sorted.
From stdpp Require Import base gmap strings list fin_maps.
From S2P Require Import Prelude Avl SliceUtil Pattern Spec Linker ResourceManager.
From S2P Require Import Storage ProxyStore Scheduler Cache Util Compact ConfigResources.
From S2P Require Import ProxyTransport ResourceSpec Proxy RequestContext DynamicProxy Routing.
From S2P Require Import ChangeLogs.
From S2P Require Import ProxyLogic.
From S2P Require Import Replay.

Import Pattern.Strings.

#[local] Arguments String.append : simpl nomatch.

(** ** Items that decode alike *)

Section items.
Context {E : Externals} {R : Runtime} {Any : Type} {C : Encoding E Any} {S : Type}.
Context {St : Storage S} {X : ProxyEnv E Any}.

(** The Go type of an item is lost in the store: what is read back decodes
    into the same records. *)
Definition same_item (i i' : option Any) : Prop :=
  (∀ z, decode decode_namespace z i' = decode decode_namespace z i) ∧
  (∀ z, decode decode_service z i' = decode decode_service z i) ∧
  (∀ z, decode decode_route z i' = decode decode_route z i) ∧
  (∀ z, decode decode_module z i' = decode decode_module z i) ∧
  (∀ z, decode decode_domain z i' = decode decode_domain z i) ∧
  (∀ z, decode decode_collection z i' = decode decode_collection z i) ∧
  (∀ z, decode decode_secret z i' = decode decode_secret z i).

Lemma processResource_same (cl cl' : ChangeLog Any) : Cmd cl' = Cmd cl →
  Spec.Namespace cl' = Spec.Namespace cl → same_item (cl_Item cl) (cl_Item cl') →
  processResource (S := S) (X := X) cl' = processResource cl.
Proof.
  intros Hc Hn (I1 & I2 & I3 & I4 & I5 & I6 & I7). unfold processResource, decoded.
  rewrite Hc, I1, I2, I3, I4, I5, I6, I7.
  unfold processNamespace, processService, processRoute, processModule, processDomain, processCollection,
    processSecret, on_action, unknown_command, or_ns. by rewrite Hc, Hn.
Qed.

End items.

(** ** Keys *)

Lemma gcmp_prefixed (pre a b : string) : gcmp (pre +:+ a) (pre +:+ b) = gcmp a b.
Proof.
  unfold gcmp, ordered_string. induction pre as [|c pre IH]; [done|]. cbn. by rewrite ascii_compare_refl.
Qed.

Lemma lists_prefix_snoc m pre es k v : lists_prefix m pre es → HasPrefix k pre = true → all_lt k es →
  lists_prefix (<[k := v]> m) pre (es ++ [(k, v)]).
Proof.
  intros [Hs Hin] Hk Hlt. split.
  - apply asorted_app. split; [done|]. split; [by apply asorted_cons; split; [constructor|constructor]|].
    intros e q He ->%list_elem_of_singleton. unfold all_lt in Hlt. rewrite list.Forall_forall in Hlt. by apply Hlt.
  - intros k' v'. rewrite elem_of_app, list_elem_of_singleton, Hin.
    assert (Hk' : m !! k = None).
    { destruct (m !! k) as [v0|] eqn:Hm; [|done]. unfold all_lt in Hlt. rewrite list.Forall_forall in Hlt.
      specialize (Hlt (k, v0) (proj2 (Hin k v0) (conj Hm Hk))). cbn in Hlt. by rewrite gcmp_refl in Hlt. }
    destruct (decide (k' = k)) as [->|Hne].
    + rewrite lookup_insert_eq, Hk'. naive_solver.
    + rewrite lookup_insert_ne by done. naive_solver.
Qed.

(** ** The theorem *)


Section recovery.
Context {E : Externals} {R : Runtime} {Any : Type} {C : Encoding E Any} {CL : EncodingLaws C}.
Context {B : Bolt} {BL : BoltLaws B} {X : ProxyEnv E Any}.
Hypothesis items_decode : ∀ (cl : ChangeLog Any) b cl', marshal_log cl = Ok b → unmarshal_log b = Ok cl' →
  same_item (cl_Item cl) (cl_Item cl').

Abbreviation proxy := (@ProxyState E Any File.FileStore X).
Implicit Types (p q : proxy) (cl : ChangeLog Any).

(** The identifiers that the logs are stored under. *)
Definition stored_ids (h : list (Z * ChangeLog Any)) : list string := (λ e, FormatInt36 e.1) <$> h.
Definition ascending : list string → Prop := StronglySorted (λ a b, gcmp a b = Lt).

(** A log that was read back. *)
Definition kept_as (e : Z * ChangeLog Any) cl' : Prop :=
  Cmd cl' = Cmd e.2 ∧ Name cl' = Name e.2 ∧ Spec.Namespace cl' = Spec.Namespace e.2 ∧
  ID cl' = FormatInt36 e.1.

(** Every entry is below every identifier. *)
Definition below (es : list (string * string)) (ids : list string) : Prop :=
  Forall (λ id, all_lt ("changelog/" +:+ id) es) ids.

Lemma applied_same cl cl' m r m' : Cmd cl' = Cmd cl → Spec.Namespace cl' = Spec.Namespace cl →
  same_item (cl_Item cl) (cl_Item cl') →
  applied (S := File.FileStore) (X := X) cl m r m' → applied (S := File.FileStore) (X := X) cl' m r m'.
Proof. intros H1 H2 H3 Ha q Hq. rewrite (processResource_same cl cl') by done. by apply Ha. Qed.

(** The logs of a history that are stored, and those of resources. *)
Definition stored (h : list (Z * ChangeLog Any)) : list (Z * ChangeLog Any) :=
  filter (λ e, IsNoop (Cmd e.2) = false) h.
Definition is_document cl : bool :=
  match Command_Resource (Cmd cl) with Returns r => String.eqb r Spec.Documents | Panics _ => false end.
Definition of_resources (h : list (Z * ChangeLog Any)) : list (Z * ChangeLog Any) :=
  filter (λ e, is_document e.2 = false) (stored h).

Lemma is_document_true cl : document_log cl → is_document cl = true.
Proof. intros [_ Hr]. unfold is_document. rewrite Hr. apply String.eqb_refl. Qed.
Lemma is_document_false cl : resource_log cl → is_document cl = false.
Proof. intros (_ & r & Hr & Hd). unfold is_document. rewrite Hr. by apply String.eqb_neq. Qed.

(** A document is written beside the change logs. *)
Definition same_logs (m m' : gmap string string) : Prop :=
  ∀ k, HasPrefix k "changelog/" = true → m' !! k = m !! k.
Lemma same_logs_lists m m' es : same_logs m m' → lists_prefix m "changelog/" es → lists_prefix m' "changelog/" es.
Proof. intros Hm [Hs Hin]. split; [done|]. intros k v. rewrite Hin. split; intros [H1 H2]; (split; [|done]); [by rewrite Hm|by rewrite <-Hm]. Qed.
Lemma document_key_apart id col ns k : HasPrefix k "changelog/" = true → docKey id col ns ≠ k.
Proof. intros Hk <-. unfold docKey in Hk. by cbn in Hk. Qed.

Lemma document_applied cl p p3 : document_log cl → apply_change cl true (locked p) = (Return None, p3) →
  ∃ f, p3 = set_store f (locked p) ∧ same_logs (file_map (Proxy.store p)) (file_map f).
Proof.
  intros [_ Hr]. unfold apply_change. rewrite Hr. go. rewrite String.eqb_refl.
  destruct (cl_Item cl) as [i|]; [|done]. destruct (decode_document i) as [doc|]; [|done].
  unfold processDocument. set (d := document_in _ doc). unfold on_action, on_store, zoom.
  destruct (Command_Action (Cmd cl)) as [act|]; go; [|done].
  destruct (String.eqb act Spec.Add); [|destruct (String.eqb act Spec.Delete); [|done]].
  - destruct (StoreDocument d (Proxy.store (locked p))) as [[err f]|] eqn:Ef; intros H; [|done].
    injection H as -> <-. exists f. split; [done|].
    destruct (StoreDocument_ok (SL := File_laws) _ _ _ _ I Ef) as (_ & Hm). destruct Hm as (b & _ & Hm). cbn in Hm.
    intros k Hk. rewrite Hm. by apply lookup_insert_ne, document_key_apart.
  - unfold DeleteDocument.
    destruct (Delete_law (StorageLaws := File_laws) (Proxy.store (locked p))
      (docKey (Document.ID d) (Document.CollectionName d) (Document.NamespaceName d)) I) as (err & f & Ef & _ & Hm).
    rewrite Ef. intros H. injection H as -> <-. exists f. split; [done|]. cbn in Hm. unfold wrote in Hm.
    intros k Hk. rewrite Hm. by apply lookup_delete_ne, document_key_apart.
Qed.

Lemma live_entries p h p' es : live p h p' → idle p → ascending (stored_ids (stored h)) →
  lists_prefix (file_map (Proxy.store p)) "changelog/" es → below es (stored_ids (stored h)) →
  ∃ es' logs kept, lists_prefix (file_map (Proxy.store p')) "changelog/" (es ++ es') ∧
    Forall2 (λ (e : string * string) cl, unmarshal_log e.2 = Ok cl) es' logs ∧
    applied_all (S := File.FileStore) (X := X) (rm p) logs kept (rm p') ∧ Forall2 kept_as (of_resources h) kept.
Proof.
  intros Hlive. revert es. induction Hlive as [p|p now cl p1 h p2 Hstep Hlive IH]; intros es Hidle Hasc Hes Hlt.
  { exists [], [], []. rewrite app_nil_r. split; [done|]. repeat constructor. }
  destruct (log_kinds now cl p p1 Hstep (proj1 Hidle)) as [Hn|Hkind].
  { destruct (noop_step now cl p p1 Hidle Hn Hstep) as (Hm & Hidle1 & Hst).
    unfold of_resources, stored in *. rewrite filter_cons_False in * by (cbn; congruence).
    rewrite <-Hm. apply (IH es); [done..|by rewrite Hst|done]. }
  assert (IsNoop (Cmd cl) = false) as Hn by (destruct Hkind as [[? _]|[? _]]; done).
  unfold of_resources, stored in *. rewrite filter_cons_True in * by done.
  assert (∃ f, same_logs (file_map (Proxy.store p)) (file_map f) ∧ idle p1 ∧
    StoreChangeLog (RenewID now cl) f = Returns (None, Proxy.store p1) ∧
    (document_log cl ∧ rm p1 = rm p ∨
     resource_log cl ∧ applied (S := File.FileStore) (X := X) cl (rm p) (Return None) (rm p1)))
    as (f & Hf & Hidle1 & Hst & Happ).
  { destruct Hkind as [Hd|Hcl].
    - destruct (change_success now cl p p1 (proj1 Hidle) Hn Hstep) as (p3 & H3 & Hset).
      destruct (document_applied cl p p3 Hd H3) as (f & -> & Hf). destruct Hidle as (_ & Hr & Hdc).
      destruct Hset as (Hidle1 & Hm & _ & Hst); [done..|]. exists f.
      split; [done|]. split; [done|]. split; [exact Hst|]. left. by split.
    - destruct (resource_step now cl p p1 Hidle Hcl Hstep) as (Ha & Hidle1 & Hst).
      exists (Proxy.store p). split; [done|]. auto. }
  apply (same_logs_lists _ _ _ Hf) in Hes.
  destruct (StoreChangeLog_ok (SL := File_laws) _ _ _ I Hst) as (_ & b & cl' & Hb & Hm & Hcl' & Hsame).
  cbn [store_map File_laws] in Hm. cbn [ID RenewID] in Hm.
  cbn [stored_ids fmap list_fmap] in Hasc, Hlt. apply StronglySorted_inv in Hasc as [Hasc Hfst].
  apply Forall_cons in Hlt as [Hlt Hrest]. cbn [fst] in *.
  destruct (IH (es ++ [("changelog/" +:+ FormatInt36 now, b)]) Hidle1 Hasc) as (es' & logs & kept & Hes' & Hdec & Hall & Hkept).
  - rewrite Hm. apply lists_prefix_snoc; [done| |done]. apply HasPrefix_true. by eexists.
  - unfold below in *. rewrite !list.Forall_forall in *. intros id Hid. unfold all_lt. apply Forall_app.
    split; [by apply Hrest|]. constructor; [|constructor]. cbn [fst]. rewrite gcmp_prefixed. by apply Hfst.
  - pose proof (items_decode _ _ _ Hb Hcl') as Hitem.
    destruct Hsame as (Hid & Hcmd & Hname & Hns & _). cbn in Hid, Hcmd, Hname, Hns, Hitem.
    assert (lists_prefix (file_map (Proxy.store p2)) "changelog/"
      (es ++ ("changelog/" +:+ FormatInt36 now, b) :: es')) as Hes2 by by rewrite <-app_assoc in Hes'.
    destruct Happ as [[Hd Hrm]|[Hcl Ha]].
    + exists (("changelog/" +:+ FormatInt36 now, b) :: es'), (cl' :: logs), kept. rewrite <-Hrm.
      rewrite filter_cons_False by (cbn; rewrite is_document_true; done).
      split; [done|]. split; [by constructor|]. split; [|done]. apply applied_skip; [|done].
      unfold document_log in *. by rewrite Hcmd.
    + exists (("changelog/" +:+ FormatInt36 now, b) :: es'), (cl' :: logs), (cl' :: kept).
      rewrite filter_cons_True by (cbn; by apply is_document_false).
      split; [done|]. split; [by constructor|]. split; [|by constructor]. apply (applied_cons _ _ (rm p1)); [| |done].
      * unfold resource_log. by rewrite Hcmd.
      * by apply (applied_same cl cl').
Qed.

(** C1: A process without replication starts on a file store that holds no
    change log, and changes that succeed are processed, of resources and of
    documents, and noops, at times whose identifiers ascend.  A process that
    is started on what it left, with the same resources at its start,
    restores all of them: from the stored logs it reaches the resources of
    the first process, and it keeps the logs of resources, in their order;
    the logs of documents are passed over, since the documents are in the
    store, which stays as it is.  Then it configures the proxy once, and its
    answer is that of the configuration. *)
Theorem restart_restores p h p' q now : live p h p' → idle p → ascending (stored_ids (stored h)) →
  lists_prefix (file_map (Proxy.store p)) "changelog/" [] →
  idle q → Proxy.store q = Proxy.store p' → rm q = rm p →
  ∃ q' logs, rm q' = rm p' ∧ idle q' ∧ changeLogs q' = changeLogs q ++ logs ∧ Forall2 kept_as (of_resources h) logs ∧
    restoreFromChangeLogs now false q = reconfigureState now (NewNoopChangeLog now) q' ∧
    rm (restoreFromChangeLogs now false q).2 = rm p' ∧
    Proxy.store (restoreFromChangeLogs now false q).2 = Proxy.store p'.
Proof.
  intros Hlive Hp Hasc Hes Hq Hst Hrm.
  destruct (live_entries p h p' [] Hlive Hp Hasc Hes) as (es & logs & kept & Hes' & Hdec & Hall & Hkept).
  { unfold below. apply Forall_true. intros id. constructor. }
  cbn [app] in Hes'. rewrite <-Hrm in Hall.
  destruct (restore_logs_ok now _ logs _ _ q Hall eq_refl Hq) as (q' & Hres & Hrm' & Hq' & Hlogs & Hst').
  assert (H : restoreFromChangeLogs now false q = reconfigureState now (NewNoopChangeLog now) q').
  { unfold restoreFromChangeLogs. go. destruct Hq as (_ & Hraft & _). rewrite Hraft. unfold on_store. go.
    rewrite Hst, (FetchChangeLogs_file _ es logs) by done. go. rewrite <-Hst, set_store_id. cbv beta iota.
    assert (He : elems (if Nat.eqb (length logs) 0 then None else Some logs) = logs) by by destruct logs.
    rewrite He. cbn [andb]. go. rewrite Hres. go. cbn [negb].
    destruct (reconfigureState now _ q') as [[[err|]|e|] q2]; go; [done| |done..].
    by rewrite (proj2 (Z.ltb_ge _ _)) by lia. }
  exists q', kept. rewrite H. do 5 (split; [done|]).
  destruct (reconfigureState_quiet now (NewNoopChangeLog now) q') as [_ Hc]. unfold core in Hc.
  injection Hc as _ Hm Hs. split; congruence.
Qed.

End recovery.

(** ** Witness

    A process adds a service, a document and a route, with a noop between them,
    and a second one starts on its file. *)

Section witness.
#[local] Existing Instances text_externals sample_runtime sample_env text_encoding text_encoding_laws.
#[local] Existing Instances map_bolt map_bolt_laws.

Abbreviation file_proxy := (@ProxyState text_externals string (@File.FileStore map_bolt) sample_env).

Definition start_on (f : @File.FileStore map_bolt) : file_proxy :=
  match initial_state f sample_config false with
  | Returns p => p
  | Panics _ => MkProxy false 0 sample_config f NewCache false false false NewManager
      (New (MkOptions 0 false)) [] NewTree ∅ ∅ NewTree NewTree None false [] []
  end.

Definition add_service_log : ChangeLog string := MkChangeLog "x" "add_service" "svc" "default" (Some "svc") 1.
Definition add_route_log : ChangeLog string := MkChangeLog "y" "add_route" "a" "default" (Some "a") 1.
Definition add_document_log : ChangeLog string := MkChangeLog "z" "add_document" "1" "default" (Some "1") 1.
Definition noop_log : ChangeLog string := MkChangeLog "n" "noop" "" "" None 1.
Definition process (now : Z) (cl : ChangeLog string) (p : file_proxy) : file_proxy :=
  (processChangeLog now (Some cl) true true p).2.
Definition proxy1 : file_proxy := process 1 add_service_log (start_on no_file).
Definition proxy2 : file_proxy := process 2 add_document_log proxy1.
Definition proxy3 : file_proxy := process 3 noop_log proxy2.
Definition proxy4 : file_proxy := process 4 add_route_log proxy3.
Definition history : list (Z * ChangeLog string) :=
  [(1, add_service_log); (2, add_document_log); (3, noop_log); (4, add_route_log)].

Lemma items_same (cl : ChangeLog string) b cl' : marshal_log cl = Ok b → unmarshal_log b = Ok cl' →
  same_item (cl_Item cl) (cl_Item cl').
Proof.
  cbn. intros [= <-]. rewrite of_bits_bits. unfold log_parts. rewrite decode_encode. intros [= <-]. done.
Qed.

(** A change that succeeds, by evaluation. *)
Lemma live_by (p : file_proxy) now cl h p2 : (processChangeLog now (Some cl) true true p).1 = Return None →
  live (process now cl p) h p2 → live p ((now, cl) :: h) p2.
Proof. intros H. apply live_cons. unfold process. by destruct (processChangeLog _ _ _ _ _); cbn in *; subst. Qed.

Lemma history_live : live (start_on no_file) history proxy4.
Proof. repeat (apply live_by; [vm_compute; reflexivity|]). apply live_nil. Qed.

Lemma restart_restores_witness :
  let q := start_on (store proxy4) in
  rm (restoreFromChangeLogs 5 false q).2 = rm proxy4 ∧
  is_Some (rm_dict (rm proxy4) !! (KRoute, path "a" "default")).
Proof.
  split; [|vm_compute; by eexists].
  assert (Hidle : ∀ f, idle (start_on f)) by (intros f; by split_and!; vm_compute).
  destruct (restart_restores (BL := map_bolt_laws) items_same (start_on no_file) history proxy4
    (start_on (store proxy4)) 5 history_live (Hidle no_file)) as (q' & logs & _ & _ & _ & _ & _ & H & _).
  - by repeat constructor.
  - split; [constructor|]. intros k v. split; [by intros ?%elem_of_nil|]. by intros [? _].
  - apply Hidle.
  - by unfold start_on; vm_compute (initial_state _ _ _).
  - reflexivity.
  - exact H.
Defined.

End witness.
