(* ===== verification/ProxyState.v ===== *)
(** * internal/proxy/proxy_state.go: the proxy's own operations

    Starting and restarting, applying changes with or without replication,
    the resources of the configuration, and the decisions that a request or a
    TLS handshake leads to.  Left out: logging, metrics and the servers.  A
    request is what the decisions read of it; a router's answer is the router
    itself.  The raft library and its client are parameters; the change logs
    do not change while [WaitForChanges] waits.  A call reads the clock once. *)
From Stdlib Require Import ZArith Lia.
From stdpp Require Import base gmap strings list fin_maps pretty.
From S2P Require Import Prelude Avl SliceUtil Pattern Base64 Spec Linker ResourceManager.
From S2P Require Import Storage ProxyStore Scheduler Cache Util Compact ConfigResources.
From S2P Require Import ProxyTransport Proxy RequestContext DynamicProxy ChangeLogs.

(** ** Replication and requests *)

(** hashicorp/raft on this node, the raft-admin client, and regexp. *)
Class NodeEnv := {
  MatchString : string → string → gores bool;
  raft_Barrier : option error;
  raft_Leader : string;
  (** the error in the answer of the [n]-th call *)
  client_Barrier : nat → string → gores string;
  raft_ApplyLog : string → option error;
  ErrNotLeader : error }.

Inductive observation := PeerObservation (removed : bool) | LeaderObservation.

(** What is read of an [http.Request]. *)
Record request : Type := MkRequest {
  req_Host : string;
  req_RemoteAddr : string;
  req_XForwardedFor : list string;
  req_TLS : bool;
  req_Scheme : string;
  req_URL : string }.

Section code.
Context {E : Externals} {R : Runtime} {Any : Type} {C : Encoding E Any} {S : Type}.
Context {St : Storage S} {X : ProxyEnv E Any} {N : NodeEnv}.

Abbreviation PS := (Run (@ProxyState E Any S X)).

(** What a request is answered with. *)
Inductive reply : Type :=
  | Routed (router : option Mux)
  | StatusError (code : Z) (body : string)
  | Redirected (scheme url : string)
  | Closed.

(** *** Accessors *)

Definition RLock : PS unit := λ p, if proxyLock p then (Block, p) else (Return tt, p).

Definition Store (p : @ProxyState E Any S X) : S := store p.
Definition ChangeHash (p : @ProxyState E Any S X) : Z := changeHash p.
Definition ChangeLogs : PS (list (ChangeLog Any)) := _ ← RLock; p ← run_get; mret (changeLogs p).
Definition Ready (p : @ProxyState E Any S X) : bool := ready p.
Definition SetReady (r : bool) : PS unit := run_modify (set_ready r).
Definition Raft (p : @ProxyState E Any S X) : option bool := if raftEnabled p then raft p else None.

(** *** Replication *)

(** The node, which leads or not, and the observer's handler. *)
Definition SetupRaft (leads : bool) : PS unit := _ ← Lock; _ ← run_modify (set_raft (Some leads)); Unlock.
Definition observe (o : observation) : PS unit :=
  match o with PeerObservation _ => mret tt | LeaderObservation => SetReady true end.

(** [RETRY:] with [retries] left; [n] is the number of the call. *)
Fixpoint wait_retry (retries n : nat) (log : option (ChangeLog Any)) : PS (option error) :=
  let err := match client_Barrier n raft_Leader with
             | Err err => Some err
             | Ok err => if String.eqb err "" then None else Some err
             end in
  p ← run_get;
  match last (changeLogs p), retries with
  | Some lastLog, Datatypes.S retries =>
    match log with
    | None => run_panic nil_deref
    | Some log => if gltb (ID log) (ID lastLog) then wait_retry retries (Datatypes.S n) (Some log) else mret None
    end
  | _, _ => mret err
  end.
Definition WaitForChanges (log : option (ChangeLog Any)) : PS (option error) :=
  p ← run_get;
  match Raft p with
  | None => mret None
  | Some true => mret raft_Barrier
  | Some false => if String.eqb raft_Leader "" then mret (Some "no leader found") else wait_retry 5 0 log
  end.

Definition ApplyChangeLog (now : Z) (log : option (ChangeLog Any)) : PS (option error) :=
  p ← run_get;
  if negb (Ready p) then mret (Some "proxy state not ready") else
  match Raft p with
  | Some leads =>
    if negb leads then mret (Some ErrNotLeader) else
    err ← processChangeLog now log true false;
    match err with
    | Some err => mret (Some err)
    | None =>
      match log with
      | None => mret (raft_ApplyLog "null")
      | Some log =>
        match marshal_log log with
        | Err err => mret (Some err)
        | Ok encodedCL => mret (raft_ApplyLog encodedCL)
        end
      end
    end
  | None => processChangeLog now log true true
  end.

Definition ProcessChangeLog (now : Z) (log : option (ChangeLog Any)) (reload : bool) : PS (option error) :=
  processChangeLog now log reload true.

Fixpoint any_related (logs : list (option (ChangeLog Any))) : outcome bool :=
  match logs with
  | [] => mret false
  | None :: _ => Panics nil_deref
  | Some log :: logs =>
    r ← Command_Resource (Cmd log);
    rest ← any_related logs;
    mret (IsRelatedTo r Spec.Routes || rest)
  end.
Definition ReloadState (now : Z) (check : bool) (logs : list (option (ChangeLog Any))) : PS (option error) :=
  related ← (if check then lift_outcome (any_related logs) else mret false);
  if negb check || related then processChangeLog now None true false else mret None.

(** *** The resources of the configuration *)

(** [processCL(spec.NewChangeLog(item, ns, cmd))] *)
Definition processCL (now : Z) (item : Any) (name ns : string) (cmd : Command) : PS (option error) :=
  cl ← lift_outcome (NewChangeLog now (λ _, name) (Some item) ns cmd);
  processChangeLog now (Some cl) false false.

(** The module of the change, with the payload of its file. *)
Definition init_module (ms : ModuleSpec) : gores Module_.t :=
  let md := ms_Module ms in
  let with_payload s := Module_.mk (Module_.Name md) (Module_.NamespaceName md) s (Module_.Type_ md) (Module_.Tags md) in
  let encoded payload := Ok (with_payload (if String.eqb payload "" then payload else Base64.EncodeToString payload)) in
  if String.eqb (PayloadFile ms) "" then encoded (Module_.Payload md)
  else match ReadFile (PayloadFile ms) with
       | Err err => Err err
       | Ok payload => encoded (Base64.EncodeToString payload)
       end.

(** The contents of a file that is named. *)
Definition file_or (file text : string) : gores string :=
  if String.eqb file "" then Ok text else ReadFile file.
Definition init_domain (d : DomainSpec) : gores Domain.t :=
  let dom := ds_Domain d in
  match file_or (CertFile d) (Domain.Cert dom) with
  | Err err => Err err
  | Ok cert =>
    match file_or (KeyFile d) (Domain.Key dom) with
    | Err err => Err err
    | Ok key => Ok (Domain.mk (Domain.Name dom) (Domain.NamespaceName dom) (Domain.Patterns dom)
                      (Domain.Priority dom) cert key (Domain.Tags dom))
    end
  end.

(** The loops, each up to the first error.  The deferred call on an error
    reads an [err] that is nil by then. *)
Definition init_loops (now : Z) (r : DGateResources) : list (PS (option error)) :=
  [ each_ok (λ ns, processCL now (item_namespace ns) (Namespace.Name ns) (Namespace.Name ns) AddNamespaceCommand)
      (Namespaces r);
    each_ok (λ ms, match init_module ms with
                   | Err err => mret (Some err)
                   | Ok md => processCL now (item_module md) (Module_.Name md) (Module_.NamespaceName md) AddModuleCommand
                   end) (Modules r);
    each_ok (λ svc, processCL now (item_service svc) (Service.Name svc) (Service.NamespaceName svc) AddServiceCommand)
      (Services r);
    each_ok (λ rt, processCL now (item_route rt) (Route.Name rt) (Route.NamespaceName rt) AddRouteCommand)
      (Routes r);
    each_ok (λ d, match init_domain d with
                  | Err err => mret (Some err)
                  | Ok dom => processCL now (item_domain dom) (Domain.Name dom) (Domain.NamespaceName dom) AddDomainCommand
                  end) (Domains r);
    each_ok (λ col, processCL now (item_collection col) (Collection.Name col) (Collection.NamespaceName col)
                      AddCollectionCommand) (Collections r);
    each_ok (λ doc, processCL now (item_document doc) (Document.ID doc) (Document.NamespaceName doc)
                      AddDocumentCommand) (Documents r) ].
Definition initConfigResources (now : Z) (resources : option DGateResources) : PS (option error) :=
  match resources with
  | None => mret None
  | Some r =>
    match Validate resources with
    | Err err => mret (Some err)
    | Ok _ => each_ok id (init_loops now r)
    end
  end.

(** *** Starting and restarting *)

Definition NewProxyState (now : Z) (dataStore : S) (conf : DGateConfig) (raftEnabled : bool)
    : exit (@ProxyState E Any S X) :=
  match initial_state dataStore conf raftEnabled with
  | Panics e => Panic e
  | Returns p =>
    if Debug conf then
      match initConfigResources now (InitResources (ProxyConfig_ conf)) p with
      | (Return None, p) => Return p
      | (Return (Some err), _) => Panic ("error initializing resources: " +:+ err)
      | (Panic e, _) => Panic e
      | (Block, _) => Block
      end
    else Return p
  end.

Definition on_skdr {A} : ST (@scheduler unit) A → PS A := zoom skdr set_skdr.

(** The part of [restartState] that clears the state; [rm.Empty] only asks. *)
Definition clear_state : PS unit :=
  _ ← run_modify (set_changeHash 0);
  _ ← run_modify (set_pendingChanges false);
  _ ← on_rm Empty;
  _ ← run_modify (λ p, set_modPrograms (Avl.Clear (modPrograms p)) p);
  _ ← run_modify (λ p, set_providers (Avl.Clear (providers p)) p);
  _ ← run_modify (λ p, set_routers (Avl.Clear (routers p)) p);
  _ ← on_cache ClearCache;
  on_skdr Stop.

(** [fn], the callback, stops the process on an error. *)
Definition restartState (now : Z) : PS (option error) :=
  _ ← Lock;
  deferred (λ err, _ ← Unlock; mret err) (
    _ ← clear_state;
    p ← run_get;
    err ← initConfigResources now (InitResources (ProxyConfig_ (config p)));
    match err with
    | Some err => _ ← go_ (GoCallback (Some err)); mret (Some err)
    | None =>
      err ← restoreFromChangeLogs now true;
      _ ← go_ (GoCallback err); mret err
    end).

(** [connected] is the error of opening the store. *)
Definition Start (now : Z) (connected : option error) : PS (option error) :=
  match connected with
  | Some err => mret (Some err)
  | None =>
    p ← run_get;
    if negb (raftEnabled p) then
      err ← restoreFromChangeLogs now false;
      match err with
      | Some err => mret (Some err)
      | None => _ ← SetReady true; mret None
      end
    else mret None
  end.

(** *** Certificates *)

(** [UpdatedAt.Unix()] *)
Definition Unix (t : Time) : Z := -62135596800 + t / Second.
Definition cert_key (ns : string) (d : DGateDomain.t) : string :=
  "cert:" +:+ ns +:+ ":" +:+ DGateDomain.Name d +:+ ":" +:+ pretty (Unix (DGateDomain.UpdatedAt d)).

(** The certificate of a domain that matches. *)
Definition domain_cert (now : Z) (d : DGateDomain.t) : PS (gores (option certificate)) :=
  _ ← on_cache (Cache.Bucket now "certs");
  ns ← lift_outcome (deref (DGateDomain.Namespace d) DGateNamespace.Name);
  hit ← on_cache (in_bucket "certs" (Cache.Get now (cert_key ns d)));
  match hit with
  | Some (CachedCert cert) => mret (Ok (Some cert))
  | Some _ => run_panic "interface conversion"
  | None =>
    match X509KeyPair (DGateDomain.Cert d) (DGateDomain.Key d) with
    | Err err => mret (Err err)
    | Ok serverCert =>
      _ ← on_cache (in_bucket "certs" (Set_ now (cert_key ns d) (CachedCert serverCert)));
      mret (Ok (Some serverCert))
    end
  end.
Fixpoint search_domains (now : Z) (domain : string) (ds : list DGateDomain.t)
    : PS (gores (option certificate)) :=
  match ds with
  | [] => mret (Ok None)
  | d :: ds =>
    '(_, match_, err) ← lift_outcome (MatchAnyPattern MatchString domain (elems (DGateDomain.Patterns d)));
    match err with
    | Some err => mret (Err err)
    | None =>
      if (match_ : bool) && negb (String.eqb (DGateDomain.Cert d) "") && negb (String.eqb (DGateDomain.Key d) "")
      then domain_cert now d
      else search_domains now domain ds
    end
  end.

(** The certificate, if one is found. *)
Definition getDomainCertificate (now : Z) (domain : string) : PS (gores (option certificate)) :=
  p ← run_get;
  let allowedDomains := elems (AllowedDomains (ProxyConfig_ (config p))) in
  '(_, domainMatch, err) ← (if Nat.eqb (length allowedDomains) 0 then mret ("", true, None)
                            else lift_outcome (MatchAnyPattern MatchString domain allowedDomains));
  match err with
  | Some err => mret (Err err)
  | None =>
    if (domainMatch : bool) then
      domains ← on_rm GetDomainsByPriority;
      search_domains now domain (elems domains)
    else mret (Ok None)
  end.

(** [tls.LoadX509KeyPair] *)
Definition loadCertFromFile (certFile keyFile : string) : gores certificate :=
  match ReadFile certFile with
  | Err err => Err err
  | Ok cert => match ReadFile keyFile with Err err => Err err | Ok key => X509KeyPair cert key end
  end.
Definition fallback_cert (certFile keyFile : string) : outcome (option certificate) :=
  if negb (String.eqb certFile "") && negb (String.eqb keyFile "") then
    match loadCertFromFile certFile keyFile with
    | Err err => Panics ("error loading cert: " +:+ err)
    | Ok cert => mret (Some cert)
    end
  else mret None.

(** The callback that [DynamicTLSConfig] returns. *)
Definition GetCertificate (now : Z) (fallbackCert : option certificate) (ServerName : string)
    : PS (gores certificate) :=
  r ← getDomainCertificate now ServerName;
  mret match r with
       | Err err => Err err
       | Ok (Some cert) => Ok cert
       | Ok None => match fallbackCert with Some cert => Ok cert | None => Err "no cert found" end
       end.
Definition DynamicTLSConfig (certFile keyFile : string) : outcome (Z → string → PS (gores certificate)) :=
  fallbackCert ← fallback_cert certFile keyFile; mret (λ now, GetCertificate now fallbackCert).

(** *** Requests *)

Definition hostname (r : request) : string :=
  match SplitHostPort (req_Host r) with Ok (host, _) => host | Err _ => req_Host r end.

(** The loop over the domains, with [defaultNsHasDomain]: a pattern that does
    not compile matches nothing. *)
Fixpoint find_domain (useDefault : bool) (host : string) (ds : list DGateDomain.t) (hasDomain : bool)
    : outcome (option (option DGateNamespace.t) * bool) :=
  match ds with
  | [] => mret (None, hasDomain)
  | d :: ds =>
    hasDomain ← (if useDefault then ns ← deref (DGateDomain.Namespace d) DGateNamespace.Name;
                                    mret (hasDomain || String.eqb ns "default")
                 else mret hasDomain);
    '(_, match_, err) ← MatchAnyPattern MatchString host (elems (DGateDomain.Patterns d));
    if bool_decide (err = None) && (match_ : bool) then mret (Some (DGateDomain.Namespace d), hasDomain)
    else find_domain useDefault host ds hasDomain
  end.
Definition FindNamespaceByRequest (r : request) : PS (option DGateNamespace.t) :=
  p ← run_get;
  let host := hostname r in
  let useDefault := negb (DisableDefaultNamespace (config p)) in
  none ← on_rm (DomainCountEquals 0);
  one ← (if none : bool then on_rm (NamespaceCountEquals 1) else mret false);
  if one : bool then on_rm GetFirstNamespace else
  domains ← on_rm GetDomainsByPriority;
  '(found, defaultNsHasDomain) ← lift_outcome (find_domain useDefault host (elems domains) false);
  match found with
  | Some ns => mret ns
  | None =>
    if useDefault && negb defaultNsHasDomain then on_rm (ResourceManager.GetNamespace "default") else mret None
  end.

(** A list of patterns that is checked if there are any. *)
Definition host_matches (host : string) (patterns : list string) (otherwise : bool) : PS (gores bool) :=
  if Nat.eqb (length patterns) 0 then mret (Ok otherwise) else
  '(_, ok, err) ← lift_outcome (MatchAnyPattern MatchString host patterns);
  mret match err with Some err => Err err | None => Ok ok end.

Definition ServeHTTP (r : request) : PS reply :=
  ns ← FindNamespaceByRequest r;
  p ← run_get;
  let conf := ProxyConfig_ (config p) in
  match ns with
  | Some ns =>
    let host := hostname r in
    allowed ← host_matches host (elems (AllowedDomains conf)) true;
    match allowed with
    | Err _ => mret (StatusError 500 "")
    | Ok false => mret (StatusError 403 (if debugMode p then "domain not allowed" else ""))
    | Ok true =>
      redirect ← (if req_TLS r then mret (Ok false)
                  else host_matches host (elems (RedirectHttpsDomains conf)) false);
      match redirect with
      | Err _ => mret (StatusError 500 "")
      | Ok true => mret (Redirected "https" (req_URL r))
      | Ok false =>
        let '(router, ok) := Avl.Find (routers p) (DGateNamespace.Name ns) in
        mret (if ok : bool then Routed router else StatusError 404 "")
      end
    end
  | None => if StrictMode conf then mret Closed else mret (StatusError 404 "")
  end.

(** [util.GetTrustedIP] *)
Definition GetTrustedIP (r : request) (depth : Z) : outcome string :=
  let ips := req_XForwardedFor r in
  let depth := Z.min depth (Z.of_nat (length ips)) in
  if depth <=? 0 then
    mret match SplitHostPort (req_RemoteAddr r) with Ok (remoteHost, _) => remoteHost | Err _ => req_RemoteAddr r end
  else match ips !! Z.to_nat (Z.of_nat (length ips) - depth) with
       | Some ip => mret ip
       | None => Panics index_range
       end.

(** *** proxy_documents.go *)

Definition checked {A} (collection namespace : string) (m : PS (gores A)) : PS (gores A) :=
  ns ← on_rm (ResourceManager.GetNamespace namespace);
  match ns with
  | None => mret (Err (ErrNamespaceNotFound namespace))
  | Some _ =>
    col ← on_rm (GetCollection collection namespace);
    match col with
    | None => mret (Err (ErrCollectionNotFound collection))
    | Some _ => m
    end
  end.
Definition GetDocuments (collection namespace : string) (limit offset : Z) : PS (gores (slice Document.t)) :=
  checked collection namespace (on_store (FetchDocuments collection namespace limit offset)).
Definition GetDocumentByID (docId collection namespace : string) : PS (gores (option Document.t)) :=
  checked collection namespace (on_store (FetchDocument docId collection namespace)).

End code.
