(* ===== verification/ProxyStateTheorems.v ===== *)
(** * What the proxy's operations do

    Properties of ProxyState.v: a restart of the state never ends, the
    namespace that a request goes to, its answer, the certificate of a
    domain, and the payload of a configured module. *)
From Stdlib Require Import ZArith Lia.
From stdpp Require Import base gmap strings list fin_maps.
From S2P Require Import Prelude Avl SliceUtil Pattern Base64 Spec Linker ResourceManager.
From S2P Require Import ResourceLogic ResourceInvariant ResourceProofs ResourceSpec ResourceTheorems.
From S2P Require Import Storage ProxyStore Scheduler Cache Util Compact ConfigResources.
From S2P Require Import ProxyTransport Proxy RequestContext DynamicProxy Routing ChangeLogs.
From S2P Require Import ProxyLogic.
From S2P Require Import Replay.
From S2P Require Import ProxyState.

(** ** Restarting *)

Section restart.
Context {E : Externals} {R : Runtime} {Any : Type} {C : Encoding E Any} {S : Type}.
Context {St : Storage S} {X : ProxyEnv E Any}.
Implicit Types (p q : @ProxyState E Any S X) (cl : ChangeLog Any).

Lemma processChangeLog_waits now ocl reload store p : proxyLock p = true →
  processChangeLog now ocl reload store p = (Block, p).
Proof. intros Hp. unfold processChangeLog. go. unfold Lock. by rewrite Hp. Qed.

(** The logs whose command has a resource. *)
Definition well_formed (logs : list (ChangeLog Any)) : Prop :=
  Forall (λ cl, ∃ r, Command_Resource (Cmd cl) = Returns r) logs.

Lemma restore_logs_waits now logs p : proxyLock p = true → well_formed logs →
  restore_logs now logs p = (Block, p) ∨ restore_logs now logs p = (Return None, p).
Proof.
  intros Hp Hlogs. induction Hlogs as [|cl logs [r Hr] _ IH]; [by right|]. cbn [restore_logs]. rewrite Hr. go.
  destruct (String.eqb r Spec.Documents); [done|]. left. go. by rewrite processChangeLog_waits.
Qed.

Lemma restore_waits now p logs s : proxyLock p = true → raftEnabled p = false →
  FetchChangeLogs (store p) = Returns (Ok logs, s) → well_formed (elems logs) →
  restoreFromChangeLogs now true p = (Block, set_store s p).
Proof.
  intros Hp Hr Hf Hw. unfold restoreFromChangeLogs. go. rewrite Hr. unfold on_store. go. rewrite Hf. go.
  cbn [andb]. destruct (restore_logs_waits now (elems logs) (set_store s p) Hp Hw) as [H|H]; go; rewrite H; [done|].
  go. cbn [negb]. by rewrite processChangeLog_waits.
Qed.

Lemma Stop_ok (s : @scheduler unit) : ∃ s', Scheduler.Stop s = Returns (tt, s').
Proof. unfold Scheduler.Stop, modify. st. destruct (running s); cbn [negb]; st; by eexists. Qed.

Lemma clear_state_ok p : ∃ p1, clear_state p = (Return tt, p1) ∧ proxyLock p1 = proxyLock p ∧
  store p1 = store p ∧ raftEnabled p1 = raftEnabled p ∧ config p1 = config p ∧ started p1 = started p ∧
  changeLogs p1 = changeLogs p.
Proof.
  unfold clear_state, on_rm, on_cache, on_skdr. repeat (progress go || unfold Empty, ClearCache; st).
  destruct (Stop_ok (skdr p)) as [s Hs]. cbn [skdr set_sharedCache set_routers set_providers set_modPrograms set_rm
    set_pendingChanges set_changeHash]. rewrite Hs. eexists. split; [reflexivity|]. by destruct p.
Qed.

(** On a proxy without replication and without configured resources, the
    restart of the state, which follows every change that is refused, waits
    for the lock that it holds itself: it never returns, its callback never
    runs, and from then on every change waits for ever. *)
Theorem restartState_deadlocks now p logs s : proxyLock p = false → raftEnabled p = false →
  InitResources (ProxyConfig_ (config p)) = None →
  FetchChangeLogs (store p) = Returns (Ok logs, s) → well_formed (elems logs) → ∃ p',
  restartState now p = (Block, p') ∧ started p' = started p ∧
  ∀ now' ocl reload store, processChangeLog now' ocl reload store p' = (Block, p').
Proof.
  intros Hp Hr Hi Hf Hw. unfold restartState. go. unfold Lock. rewrite Hp. unfold deferred. go.
  destruct (clear_state_ok (set_proxyLock true p)) as (p1 & -> & Hlk & Hs & Hraft & Hc & Hst & _).
  cbn in *. go. rewrite Hc, Hi. cbn [initConfigResources]. go.
  rewrite (restore_waits now p1 logs s); [|congruence..|done].
  eexists. split; [reflexivity|]. split; [done|]. intros. by apply processChangeLog_waits.
Qed.
End restart.

(** ** The namespace of a request *)

Section namespace.
Context {E : Externals} {R : Runtime} {RL : RuntimeLaws R}.

(** The two counts that a request asks for. *)
Lemma Empty_inorder {K V} (t : tree K V) : Avl.Empty t = match inorder (root t) with [] => true | _ => false end.
Proof.
  unfold Avl.Empty. destruct (root t) as [|k v l r h]; [done|]. cbn. by destruct (inorder l).
Qed.
Lemma count_zero k m : count_equals k 0 m = Returns (Avl.Empty (index k m), m).
Proof.
  unfold count_equals, Avl.Each. st. rewrite each_inorder, Empty_inorder.
  by destruct (inorder (root (index k m))) as [|[key l] es].
Qed.
Lemma count_one k m : count_equals k 1 m = Returns (negb (Avl.Empty (index k m)), m).
Proof.
  unfold count_equals, Avl.Each. st. rewrite each_inorder, Empty_inorder.
  by destruct (inorder (root (index k m))) as [|[key l] es].
Qed.

Lemma Empty_content k a m : rel m a → inv a → Avl.Empty (index k m) = true ↔ ∀ key, content a k key = None.
Proof.
  intros (_ & _ & Hidx & _) Ha. rewrite Empty_ok, map_empty. apply forall_proper. intros key.
  rewrite <-Hidx, !eq_None_not_Some, inv_idx_content by done. done.
Qed.

Lemma wp_first a : inv a → wp GetFirstNamespace (λ r a', a' = a ∧
  match r with
  | Some n => content a KNamespace (DGateNamespace.Name n) = Some (RNamespace n)
  | None => ∀ key, content a KNamespace key = None
  end) a.
Proof.
  intros Ha. unfold GetFirstNamespace. apply wp_state. intros m Hm. pose proof Hm as (Ht & _ & Hidx & _).
  pose proof (RootKeyValue_ok (namespaces m) (Ht KNamespace)) as Hroot.
  destruct (RootKeyValue (namespaces m)) as [[k l] [|]].
  - specialize (Hidx KNamespace k). cbn in Hidx. rewrite Hroot in Hidx.
    destruct (content_inv a KNamespace k l Ha Hidx) as (av & Hav & Hc & Hk & Hkey & _).
    destruct (aitem av) as [n| | | | | |] eqn:Hit; try done. apply wp_bind.
    eapply wp_read; [exact Hav|by rewrite Hit|]. apply wp_ret. split; [done|]. cbn in Hkey. by subst.
  - apply wp_ret. split; [done|]. intros key. apply content_None. rewrite Hidx. cbn. by rewrite Hroot.
Qed.

Context {Any : Type} {C : Encoding E Any} {S : Type} {St : Storage S} {X : ProxyEnv E Any} {N : NodeEnv}.
Implicit Types (p q : @ProxyState E Any S X).

Lemma on_rm_wp {A} (m : ST ResourceManager A) Q a p : rel (rm p) a → wp m Q a →
  ∃ x r a', on_rm m p = (Return x, set_rm r p) ∧ rel r a' ∧ Q x a'.
Proof.
  intros Hp Hm. destruct (Hm (rm p) Hp) as (x & r & a' & Em & Hr & HQ). exists x, r, a'.
  unfold on_rm, zoom. by rewrite Em.
Qed.

(** A host matches a domain; a pattern that does not compile ends its list. *)
Definition domain_matches (host : string) (d : DGateDomain.t) : bool :=
  match MatchAnyPattern MatchString host (elems (DGateDomain.Patterns d)) with
  | Returns (_, match_, None) => match_
  | _ => false
  end.
Definition in_default (d : DGateDomain.t) : bool :=
  match DGateDomain.Namespace d with Some n => String.eqb (DGateNamespace.Name n) "default" | None => false end.

(** The namespace of the first domain that matches; without one, the default
    namespace, unless it is disabled or has a domain of its own. *)
Definition chosen (useDefault : bool) (D : dict) (host : string) (ds : list DGateDomain.t)
    : option DGateNamespace.t :=
  match List.find (domain_matches host) ds with
  | Some d => DGateDomain.Namespace d
  | None =>
    if useDefault && negb (existsb in_default ds) then
      match D !! (KNamespace, "default") with Some (RNamespace n) => Some n | _ => None end
    else None
  end.

(** The patterns of the stored domains can be matched with the host. *)
Definition matchable (D : dict) (host : string) : Prop := ∀ key d, D !! (KDomain, key) = Some (RDomain d) →
  ∃ x, MatchAnyPattern MatchString host (elems (DGateDomain.Patterns d)) = Returns x.

Lemma find_domain_ok useDefault host ds h :
  Forall (λ d, is_Some (DGateDomain.Namespace d) ∧
    ∃ x, MatchAnyPattern MatchString host (elems (DGateDomain.Patterns d)) = Returns x) ds → ∃ h',
  find_domain useDefault host ds h = Returns (DGateDomain.Namespace <$> List.find (domain_matches host) ds, h') ∧
  (List.find (domain_matches host) ds = None → h' = h || useDefault && existsb in_default ds).
Proof.
  intros Hds. revert h. induction Hds as [|d ds [[n Hn] [[[pat m] err] Hm]] _ IH]; intros h.
  { exists h. by rewrite andb_false_r, orb_false_r. }
  cbn [find_domain List.find existsb]. unfold domain_matches at 1 3. unfold in_default at 1. rewrite Hm, Hn.
  set (h1 := if useDefault then h || String.eqb (DGateNamespace.Name n) "default" else h).
  assert (H1 : (if useDefault then ns ← deref (Some n) DGateNamespace.Name; mret (h || String.eqb ns "default")
    else mret h : outcome bool) = Returns h1) by by destruct useDefault.
  rewrite H1. run. destruct err as [err|]; [|destruct m].
  - rewrite bool_decide_false by done. cbn. destruct (IH h1) as (h' & -> & Hh). exists h'. split; [done|].
    intros Hnone. rewrite (Hh Hnone). subst h1. destruct useDefault, h; done.
  - rewrite bool_decide_true by done. cbn. exists h1. split; [by rewrite Hn|done].
  - rewrite bool_decide_true by done. cbn. destruct (IH h1) as (h' & -> & Hh). exists h'. split; [done|].
    intros Hnone. rewrite (Hh Hnone). subst h1. destruct useDefault, h; done.
Qed.
(** What the proxy reads of a manager that is sound. *)
Lemma priority_domains a m D l : rel m a → inv a → D = rm_dict m → priority_answer a l →
  domains_sorted D l ∧ ∀ d, d ∈ elems l → ∃ key, D !! (KDomain, key) = Some (RDomain d) ∧
    is_Some (DGateDomain.Namespace d).
Proof.
  intros Hm Ha -> (M & HM & Hperm & Hsort). split.
  - exists M. split; [|done]. intros key. by rewrite (HM key), (rel_dict m a Hm).
  - intros d. rewrite Hperm. intros Hd. apply list_elem_of_fmap in Hd as ([key d'] & -> & Hd).
    apply elem_of_map_to_list in Hd. rewrite (HM key) in Hd. exists key. cbn.
    destruct (content a KDomain key) as [[| |d0| | | |]|] eqn:Hc; try done. cbn in Hd. injection Hd as ->.
    rewrite (rel_dict m a Hm). split; [done|]. destruct (content_Some_idx a _ _ _ Hc) as [l0 Hl0].
    destruct (content_inv a _ _ _ Ha Hl0) as (av & _ & Hc' & _ & _ & _ & Hp). rewrite Hc in Hc'.
    injection Hc' as Hav. by rewrite <-Hav in Hp.
Qed.

Lemma no_domains a m l : rel m a → inv a → domains_sorted (rm_dict m) l →
  Avl.Empty (index KDomain m) = bool_decide (elems l = []).
Proof.
  intros Hm Ha (M & HM & Hperm & _). apply eq_true_iff_eq. rewrite (Empty_content KDomain a) by done.
  rewrite bool_decide_eq_true. split.
  - intros Hnone. destruct (elems l) as [|d ds]; [done|]. exfalso.
    assert (Hd : d ∈ (map_to_list M).*2) by (rewrite <-Hperm; by left).
    apply list_elem_of_fmap in Hd as ([key d'] & -> & Hd). apply elem_of_map_to_list in Hd.
    rewrite HM, (rel_dict m a Hm), Hnone in Hd. done.
  - intros Hl key. destruct (content a KDomain key) as [x|] eqn:Hc; [|done]. exfalso.
    assert (∃ d, x = RDomain d) as [d ->].
    { destruct (content_Some_idx a _ _ _ Hc) as [l0 Hl0].
      destruct (content_inv a _ _ _ Ha Hl0) as (av & _ & Hc' & Hk & _). rewrite Hc in Hc'. injection Hc' as ->.
      destruct (aitem av); try done. by eexists. }
    assert (Hd : (key, d) ∈ map_to_list M) by (apply elem_of_map_to_list; by rewrite HM, (rel_dict m a Hm), Hc).
    assert (Hd2 : d ∈ elems l) by (rewrite Hperm; apply list_elem_of_fmap; by exists (key, d)).
    rewrite Hl in Hd2. by apply elem_of_nil in Hd2.
Qed.
Lemma dict_unchanged a a' m m' : rel m a → rel m' a' → unchanged a a' → rm_dict m' = rm_dict m.
Proof. intros Hm Hm' Hu. apply map_eq. intros [k key]. by rewrite (rel_dict m a Hm), (rel_dict m' a' Hm'). Qed.

(** The default namespace, as it is stored. *)
Lemma get_default a p : rel (rm p) a → inv a → ∃ m,
  on_rm (ResourceManager.GetNamespace "default") p =
    (Return match rm_dict (rm p) !! (KNamespace, "default") with Some (RNamespace n) => Some n | _ => None end,
     set_rm m p) ∧ rm_dict m = rm_dict (rm p).
Proof.
  intros Hp Ha. destruct (on_rm_wp (ResourceManager.GetNamespace "default")
    (λ x a', a' = a ∧ x = match content a KNamespace "default" with Some (RNamespace n) => Some n | _ => None end)
    a p Hp) as (x & m & a' & -> & Hm & -> & ->).
  - apply wp_getNamespace; [done| |].
    + intros Hc. by rewrite Hc.
    + intros n Hc _ _. by rewrite Hc.
  - exists m. rewrite (rel_dict (rm p) a Hp). split; [done|]. by apply (dict_unchanged a a).
Qed.

(** The domains, and then the default namespace. *)
Lemma by_domains a p host (useDefault : bool) : rel (rm p) a → inv a → cache_ok a → matchable (rm_dict (rm p)) host →
  ∃ ds p', (domains ← on_rm GetDomainsByPriority;
    '(found, defaultNsHasDomain) ← lift_outcome (find_domain useDefault host (elems domains) false);
    match found with
    | Some ns => mret ns
    | None =>
      if useDefault && negb defaultNsHasDomain then on_rm (ResourceManager.GetNamespace "default") else mret None
    end) p = (Return (chosen useDefault (rm_dict (rm p)) host (elems ds)), p') ∧
  rm_dict (rm p') = rm_dict (rm p) ∧ domains_sorted (rm_dict (rm p)) ds.
Proof.
  intros Hp Ha Hok Hmatch.
  destruct (on_rm_wp _ _ _ _ Hp (GetDomainsByPriority_spec a Ha Hok)) as (ds & m & a1 & Eg & Hm & Ha1 & _ & Hu & Hds).
  destruct (priority_domains a (rm p) _ ds Hp Ha eq_refl Hds) as [Hsorted Hin].
  pose proof (dict_unchanged a a1 _ _ Hp Hm Hu) as Hdict.
  destruct (find_domain_ok useDefault host (elems ds) false) as (h & Hf & Hh).
  { apply list.Forall_forall. intros d Hd. destruct (Hin d Hd) as (key & Hkey & Hn). split; [done|]. by apply (Hmatch key). }
  exists ds. go. rewrite Eg. go. rewrite Hf. go. unfold chosen.
  destruct (List.find (domain_matches host) (elems ds)) as [d|]; cbn [fmap option_fmap option_map]; go.
  { eexists. split; [reflexivity|]. by split. }
  rewrite Hh by done. cbn [orb].
  destruct useDefault; cbn [andb]; [|eexists; split; [reflexivity|]; by split].
  destruct (existsb in_default (elems ds)); cbn [negb]; [eexists; split; [reflexivity|]; by split|].
  destruct (get_default a1 (set_rm m p) Hm Ha1) as (m' & -> & Hm'). cbn [rm set_rm] in *. rewrite Hdict.
  eexists. split; [reflexivity|]. split; [|done]. by etrans.
Qed.

(** C12: The namespace of a request.  If no domain is stored, a request goes to
    a stored namespace if there is one; not to the default one, and not only
    if it is the only one, as the code's comment has it.  Otherwise it goes
    to the namespace of the first domain, in the order of the priorities,
    that the host matches; if none matches, to the default namespace, unless
    that is disabled or has a domain.  The stored resources are as before. *)
Theorem FindNamespaceByRequest_correct p r : reachable (rm p) → matchable (rm_dict (rm p)) (hostname r) →
  let D := rm_dict (rm p) in
  ∃ ns p' ds, FindNamespaceByRequest r p = (Return ns, p') ∧ rm_dict (rm p') = D ∧ domains_sorted D ds ∧
    (elems ds = [] → (∃ name, has_ns D name) →
       ∃ n, ns = Some n ∧ D !! (KNamespace, DGateNamespace.Name n) = Some (RNamespace n)) ∧
    (elems ds ≠ [] ∨ (∀ name, ¬ has_ns D name) →
       ns = chosen (negb (DisableDefaultNamespace (config p))) D (hostname r) (elems ds)).
Proof.
  intros Hreach Hmatch D. destruct (reachable_sound _ Hreach) as (a & Hp & Ha & Hok).
  destruct (by_domains a p (hostname r) (negb (DisableDefaultNamespace (config p))) Hp Ha Hok Hmatch)
    as (ds & p' & Hrun & Hdict & Hds).
  unfold FindNamespaceByRequest. go. unfold on_rm at 1. unfold DomainCountEquals. go. rewrite count_zero. go.
  rewrite set_rm_id, (no_domains a (rm p) ds) by done.
  destruct (bool_decide (elems ds = [])) eqn:Hb.
  2:{ apply bool_decide_eq_false in Hb. go. exists (chosen (negb (DisableDefaultNamespace (config p))) D (hostname r)
        (elems ds)), p', ds. split; [unfold D; rewrite <-Hrun; by go|done]. }
  apply bool_decide_eq_true in Hb. unfold NamespaceCountEquals, on_rm at 1. go. rewrite count_one. go. rewrite set_rm_id.
  destruct (Avl.Empty (index KNamespace (rm p))) eqn:He; cbn [negb].
  - assert (Hno : ∀ name, ¬ has_ns D name).
    { intros name [x Hx]. unfold D in Hx. rewrite (rel_dict _ a Hp) in Hx.
      by rewrite (proj1 (Empty_content _ _ _ Hp Ha) He) in Hx. }
    exists (chosen (negb (DisableDefaultNamespace (config p))) D (hostname r) (elems ds)), p', ds.
    split; [unfold D; rewrite <-Hrun; by go|]. do 2 (split; [done|]). split; [|done].
    intros _ [name Hn]. by destruct (Hno name).
  - destruct (on_rm_wp _ _ _ _ Hp (wp_first a Ha)) as (ns & m & a' & -> & Hm & -> & Hns).
    assert (Hex : ¬ ∀ key, content a KNamespace key = None).
    { intros Hnone. apply (Empty_content _ _ _ Hp Ha) in Hnone. congruence. }
    destruct ns as [n|]; [|done]. exists (Some n), (set_rm m p), ds. split; [done|].
    split; [by apply (dict_unchanged a a)|]. split; [done|]. split.
    + intros _ _. exists n. split; [done|]. unfold D. by rewrite (rel_dict _ a Hp).
    + intros [Hne|Hno]; [done|]. exfalso. apply (Hno (DGateNamespace.Name n)). unfold has_ns, D.
      rewrite (rel_dict _ a Hp), Hns. by eexists.
Qed.

End namespace.

(** ** Certificates *)

Section certificates.
Context {E : Externals} {R : Runtime} {Any : Type} {C : Encoding E Any} {S : Type}.
Context {St : Storage S} {X : ProxyEnv E Any} {N : NodeEnv}.
Implicit Types (p q : @ProxyState E Any S X).

(** The cache holds a certificate at a key, and does not expire it. *)
Definition remembered (key : string) (cert : certificate) (c : @cacheImpl (@cached E Any X)) : Prop :=
  ∃ b l k, buckets c !! "certs" = Some b ∧ b_items b !! key = Some l ∧
    b_entries b !! l = Some (MkEntry k (CachedCert cert) None).

Lemma deref_some {A B} (f : A → B) x a : x = Some a → deref x f = Returns (f a).
Proof. by intros ->. Qed.

Lemma certs_bucket now p b : buckets (sharedCache p) !! "certs" = Some b →
  on_cache (Cache.Bucket now "certs") p = (Return b, p).
Proof.
  intros Hb. unfold on_cache, zoom, Cache.Bucket, BucketWithOpts. st. rewrite Hb. st. by destruct p.
Qed.

(** An operation on the bucket. *)
Definition put_certs (b : @bucketImpl (@cached E Any X)) p : @ProxyState E Any S X :=
  set_sharedCache (MkCache (<["certs" := b]> (buckets (sharedCache p))) (sch (sharedCache p)) (c_interval (sharedCache p))) p.
Lemma in_certs {A} (m : ST bucketImpl A) p b a b' : buckets (sharedCache p) !! "certs" = Some b →
  m b = Returns (a, b') → on_cache (in_bucket "certs" m) p = (Return a, put_certs b' p).
Proof. intros Hb Hm. unfold on_cache, zoom, in_bucket. by rewrite Hb, Hm. Qed.
Lemma put_certs_bucket b p : buckets (sharedCache (put_certs b p)) !! "certs" = Some b.
Proof. apply lookup_insert_eq. Qed.

Lemma domain_cert_hit now d n cert q : DGateDomain.Namespace d = Some n →
  remembered (cert_key (DGateNamespace.Name n) d) cert (sharedCache q) → ∃ q',
  domain_cert now d q = (Return (Ok (Some cert)), q').
Proof.
  intros Hn (b & l & k & Hb & Hi & He). unfold domain_cert. go. rewrite (certs_bucket now q b) by done.
  go. rewrite (deref_some _ _ n) by done. go.
  rewrite (in_certs _ q b (Some (CachedCert cert)) b); [go; by eexists|done|].
  unfold Cache.Get, entry_at. st. rewrite Hi. st. rewrite He. by st.
Qed.

(** The first certificate: the bucket is made, without a limit or a duration. *)
Lemma domain_cert_first now d n cert p p1 : DGateDomain.Namespace d = Some n →
  buckets (sharedCache p) !! "certs" = None → domain_cert now d p = (Return (Ok (Some cert)), p1) →
  X509KeyPair (DGateDomain.Cert d) (DGateDomain.Key d) = Ok cert ∧
  remembered (cert_key (DGateNamespace.Name n) d) cert (sharedCache p1).
Proof.
  intros Hn Hnone. set (b0 := newBucket "certs" (MkBucketOptions 0 0) : @bucketImpl (@cached E Any X)).
  unfold domain_cert. go. destruct (on_cache (Cache.Bucket now "certs") p) as [[b|e|] p0] eqn:Hbucket; [|done..].
  assert (Hp0 : buckets (sharedCache p0) !! "certs" = Some b0).
  { revert Hbucket. unfold on_cache, zoom, Cache.Bucket, BucketWithOpts. st. rewrite Hnone. st.
    destruct (ScheduleTask now "certs" _ _) as [[err s]|e]; [|done]. st. intros [= <- <-]. apply lookup_insert_eq. }
  go. rewrite (deref_some _ _ n) by done. go. set (key := cert_key (DGateNamespace.Name n) d).
  rewrite (in_certs _ p0 b0 None b0) by done. go.
  destruct (X509KeyPair _ _) as [cert'|err']; go; [|done].
  set (l := fresh ({[nil]} ∪ dom (b_entries b0) : gset loc)).
  rewrite (in_certs _ _ b0 tt (with_items (with_entries b0 (<[l := MkEntry key (CachedCert cert') None]> (b_entries b0)))
    (<[key := l]> (b_items b0)))); [|apply put_certs_bucket|reflexivity].
  go. intros [= <- <-]. split; [done|]. do 3 eexists. split; [apply put_certs_bucket|].
  split; apply lookup_insert_eq.
Qed.
(** The certificate of a domain is remembered under its names and the time
    of its update, which no domain that is stored has: after the domain was
    given another certificate, the handshakes get the one that was served
    first, whatever the time. *)
Theorem stale_certificate now now' dom dom' m m1 m' m1' d d' p p1 q cert :
  transformDomain dom m = Returns (Ok d, m1) → transformDomain dom' m' = Returns (Ok d', m1') →
  Domain.Name dom' = Domain.Name dom →
  DGateNamespace.Name <$> DGateDomain.Namespace d' = DGateNamespace.Name <$> DGateDomain.Namespace d →
  buckets (sharedCache p) !! "certs" = None → domain_cert now d p = (Return (Ok (Some cert)), p1) →
  sharedCache q = sharedCache p1 →
  X509KeyPair (Domain.Cert dom) (Domain.Key dom) = Ok cert ∧
  ∃ q', domain_cert now' d' q = (Return (Ok (Some cert)), q').
Proof.
  intros Hd Hd' Hname Hns Hnone Hfirst Hq.
  assert (Htrans : ∀ dom m d m1, transformDomain dom m = Returns (Ok d, m1) → ∃ n,
    d = DGateDomain.mk (Domain.Name dom) 0 0 (Some n) (Domain.Patterns dom) (Domain.Priority dom)
          (Domain.Cert dom) (Domain.Key dom) (Domain.Tags dom)).
  { clear. intros dom m d m1. unfold transformDomain. st. destruct (getNamespace _ m) as [[[n|] m2]|]; st; [|done..].
    intros [= <- _]. by exists n. }
  destruct (Htrans _ _ _ _ Hd) as [n ->], (Htrans _ _ _ _ Hd') as [n' ->]. cbn in Hns. injection Hns as Hns.
  unshelve epose proof (domain_cert_first now _ n cert p p1 _ Hnone Hfirst) as [Hcert Hkept]; [done|].
  split; [done|].
  apply (domain_cert_hit now' _ n' cert q); [done|]. rewrite Hq, Hns. unfold cert_key in *.
  cbn [DGateDomain.Name DGateDomain.UpdatedAt] in *. by rewrite Hname.
Qed.

(** ** Answers *)

Lemma host_matches_true host patterns otherwise_ b p p' :
  host_matches host patterns otherwise_ p = (Return (Ok b), p') → p' = p ∧
  ((patterns = [] ∧ b = otherwise_) ∨
   (patterns ≠ [] ∧ ∃ pat, MatchAnyPattern MatchString host patterns = Returns (pat, b, None))).
Proof.
  unfold host_matches. destruct patterns as [|x patterns]; cbn [length Nat.eqb].
  { go. intros [= <- <-]. auto. }
  go. destruct (MatchAnyPattern MatchString host (x :: patterns)) as [[[pat ok] [err|]]|e]; go; [done| |done].
  intros [= <- <-]. split; [done|]. right. split; [done|]. by exists pat.
Qed.

(** C13: A request reaches a router only if it may: its host is one of the
    allowed domains when there are any, it is encrypted when its host is to
    be redirected, and the router is the one of the namespace that the
    request goes to. *)
Theorem ServeHTTP_routed r p router p' : ServeHTTP r p = (Return (Routed router), p') →
  let conf := ProxyConfig_ (config p') in
  ∃ ns, FindNamespaceByRequest r p = (Return (Some ns), p') ∧
    Avl.Find (routers p') (DGateNamespace.Name ns) = (router, true) ∧
    (elems (AllowedDomains conf) ≠ [] → ∃ pat,
       MatchAnyPattern MatchString (hostname r) (elems (AllowedDomains conf)) = Returns (pat, true, None)) ∧
    (req_TLS r = false → elems (RedirectHttpsDomains conf) ≠ [] → ∃ pat,
       MatchAnyPattern MatchString (hostname r) (elems (RedirectHttpsDomains conf)) = Returns (pat, false, None)).
Proof.
  unfold ServeHTTP. rewrite run_bind_return. intros (ns & p1 & Hns & H). revert H. go.
  destruct ns as [ns|]; [|destruct (StrictMode _); by go]. cbv zeta. rewrite run_bind_return.
  intros (allowed & p2 & Ha & H). destruct allowed as [[|]|err]; [|by revert H; go..].
  apply host_matches_true in Ha as [-> Ha]. rewrite run_bind_return in H. destruct H as (redirect & p3 & Hr & H).
  destruct redirect as [[|]|err]; [by revert H; go| |by revert H; go].
  assert (p3 = p1) as ->.
  { destruct (req_TLS r); [by injection Hr|]. by apply host_matches_true in Hr as [-> _]. }
  revert H. destruct (Avl.Find _ _) as [mux [|]] eqn:Hf; go; intros [= <- <-].
  exists ns. split; [done|]. split; [done|]. split.
  - intros Hne. by destruct Ha as [[? _]|[_ ?]].
  - intros Htls Hne. rewrite Htls in Hr. apply host_matches_true in Hr as [_ [[? _]|[_ ?]]]; done.
Qed.

(** ** Configured modules *)

(** The program of a configured module: text that the configuration holds
    becomes the program as it is, but the contents of a file become the
    program in base64, because they are encoded twice and decoded once. *)
Theorem init_module_payload ms md n dm : init_module ms = Ok md → TransformModule (Some n) md = Ok dm →
  (PayloadFile ms = "" → DGateModule.Payload dm = Module_.Payload (ms_Module ms)) ∧
  (∀ content, PayloadFile ms ≠ "" → ReadFile (PayloadFile ms) = Ok content →
     DGateModule.Payload dm = Base64.EncodeToString content).
Proof.
  assert (Htr : ∀ text md, TransformModule (Some n) md = Ok dm →
    Module_.Payload md = (if String.eqb text "" then text else Base64.EncodeToString text) →
    DGateModule.Payload dm = text).
  { intros text md' Hdm Hp. unfold TransformModule in Hdm. rewrite Hp in Hdm.
    destruct (String.eqb_spec text "") as [->|Hne].
    - change (StdDecodeString "") with (@Ok string "") in Hdm. by injection Hdm as <-.
    - rewrite StdDecode_encode in Hdm. by injection Hdm as <-. }
  unfold init_module. intros Hmd Hdm. split.
  - intros Hf. rewrite Hf in Hmd. cbn in Hmd. injection Hmd as <-. eapply Htr; [exact Hdm|done].
  - intros content Hf Hread. rewrite (proj2 (String.eqb_neq _ _) Hf), Hread in Hmd. injection Hmd as <-.
    eapply Htr; [exact Hdm|done].
Qed.

End certificates.

(** ** Witnesses *)

Section witness.
#[local] Existing Instances text_externals sample_runtime sample_runtime_laws sample_env text_encoding.

Definition sample_node : NodeEnv := {|
  MatchString _ _ := Ok false; raft_Barrier := None; raft_Leader := ""; client_Barrier _ _ := Ok "";
  raft_ApplyLog _ := None; ErrNotLeader := "node is not the leader" |}.
#[local] Existing Instance sample_node.

Definition request_to (host : string) : request := MkRequest host "127.0.0.1:1" [] false "http" "/a".

Lemma restartState_deadlocks_witness : ∃ p', restartState 0 start_proxy = (Block, p').
Proof.
  destruct (restartState_deadlocks 0 start_proxy None (store start_proxy)) as (p' & H & _).
  - vm_compute. reflexivity.
  - vm_compute. reflexivity.
  - vm_compute. reflexivity.
  - vm_compute. reflexivity.
  - constructor.
  - by exists p'.
Defined.

(** The default namespace and two others, and no domain. *)
Definition three_ops : list op :=
  [OpAddNamespace (Spec.Namespace.mk "default" None); OpAddNamespace (Spec.Namespace.mk "x" None);
   OpAddNamespace (Spec.Namespace.mk "y" None)].
Definition three_namespaces : @ProxyState text_externals string Mem.MemStore sample_env :=
  set_rm match exec_all three_ops NewManager with Returns m => m | Panics _ => NewManager end start_proxy.

Lemma three_reachable : reachable (rm three_namespaces).
Proof.
  apply (exec_all_reachable three_ops NewManager); [apply reach_new|by repeat constructor|vm_compute; reflexivity].
Qed.

(** A request without a domain goes to the namespace at the tree's root. *)
Lemma FindNamespaceByRequest_correct_witness : ∃ p' n,
  FindNamespaceByRequest (request_to "localhost") three_namespaces = (Return (Some n), p') ∧
  DGateNamespace.Name n = "x" ∧ rm_dict (rm p') = rm_dict (rm three_namespaces).
Proof.
  destruct (FindNamespaceByRequest_correct three_namespaces (request_to "localhost") three_reachable)
    as (ns & p' & ds & Hrun & Hdict & _).
  { intros key d Hd.
    assert (Hall : map_Forall (λ (k : kind * string) (_ : resource), k.1 ≠ KDomain) (rm_dict (rm three_namespaces))) by
      (apply (bool_decide_unpack _); vm_compute; exact I).
    by destruct (Hall _ _ Hd). }
  destruct ns as [n|].
  - exists p', n. split; [exact Hrun|]. split; [|exact Hdict].
    assert (Hn : (λ r, match r with Return (Some n) => DGateNamespace.Name n | _ => "" end)
      (FindNamespaceByRequest (request_to "localhost") three_namespaces).1 = "x") by (vm_compute; reflexivity).
    rewrite Hrun in Hn. exact Hn.
  - exfalso. assert (Hn : (λ r : exit (option DGateNamespace.t), match r with Return (Some n) => true | _ => false end)
      (FindNamespaceByRequest (request_to "localhost") three_namespaces).1 = true) by (vm_compute; reflexivity).
    by rewrite Hrun in Hn.
Defined.

Definition cert_domain (cert : string) : Domain.t := Domain.mk "d" "default" (Some ["d.com"]) 1 cert "key" None.
Definition transformed (cert : string) : outcome (gores DGateDomain.t * ResourceManager) :=
  transformDomain (cert_domain cert) (rm start_proxy).

(** The domain's certificate is "old", then "new"; a day later "old" is served. *)
Lemma stale_certificate_witness : ∃ d' (q q' : @ProxyState text_externals string Mem.MemStore sample_env),
  domain_cert (86400 * Second) d' q = (Return (Ok (Some "old")), q') ∧ DGateDomain.Cert d' = "new".
Proof.
  destruct (transformed "old") as [[[d|err] m1]|e] eqn:Hd; [|by vm_compute in Hd..].
  destruct (transformed "new") as [[[d'|err] m1']|e] eqn:Hd'; [|by vm_compute in Hd'..].
  assert (Hns : DGateNamespace.Name <$> DGateDomain.Namespace d' = DGateNamespace.Name <$> DGateDomain.Namespace d) by
    (vm_compute in Hd; injection Hd as <- _; vm_compute in Hd'; injection Hd' as <- _; reflexivity).
  assert (Hc : DGateDomain.Cert d' = "new") by (vm_compute in Hd'; by injection Hd' as <- _).
  assert (Hr : (domain_cert 0 d start_proxy).1 = Return (Ok (Some "old"))) by
    (vm_compute in Hd; injection Hd as <- _; vm_compute; reflexivity).
  destruct (domain_cert 0 d start_proxy) as [x p1] eqn:Hcert. cbn [fst] in Hr. subst x.
  destruct (stale_certificate 0 (86400 * Second) (cert_domain "old") (cert_domain "new") (rm start_proxy) m1
    (rm start_proxy) m1' d d' start_proxy p1 p1 "old" Hd Hd' eq_refl Hns eq_refl Hcert eq_refl) as (_ & q' & Hq).
  exists d', p1, q'. split; [exact Hq|exact Hc].
Defined.

(** The proxy with its routes configured. *)
Definition configured : @ProxyState text_externals string Mem.MemStore sample_env :=
  (reconfigureState 0 (NewNoopChangeLog 0) start_proxy).2.

Lemma ServeHTTP_routed_witness : ∃ router p' ns,
  ServeHTTP (request_to "localhost") configured = (Return (Routed router), p') ∧
  Avl.Find (routers p') (DGateNamespace.Name ns) = (router, true).
Proof.
  destruct (ServeHTTP (request_to "localhost") configured) as [x p'] eqn:Hs.
  assert (Hx : match x with Return (Routed _) => True | _ => False end).
  { replace x with (ServeHTTP (request_to "localhost") configured).1 by by rewrite Hs. vm_compute. exact I. }
  destruct x as [[router| | |]|e|]; [|destruct Hx..].
  destruct (ServeHTTP_routed (request_to "localhost") configured router p' Hs) as (ns & _ & Hf & _).
  exists router, p', ns. split; [reflexivity|exact Hf].
Defined.

Definition file_module : ModuleSpec := MkModuleSpec (Module_.mk "m" "default" "" "javascript" None) "m.js".

(** The program of the file "m.js", which holds f(). *)
Lemma init_module_payload_witness : ∃ md dm,
  init_module file_module = Ok md ∧ TransformModule (Some (DGateNamespace.mk "default" None)) md = Ok dm ∧
  DGateModule.Payload dm = "Zigp".
Proof.
  destruct (init_module file_module) as [md|] eqn:Hmd; [|by vm_compute in Hmd].
  destruct (TransformModule (Some (DGateNamespace.mk "default" None)) md) as [dm|] eqn:Hdm;
    [|vm_compute in Hmd; injection Hmd as <-; by vm_compute in Hdm].
  exists md, dm. do 2 (split; [done|]).
  destruct (init_module_payload file_module md _ dm Hmd Hdm) as [_ H]. rewrite (H "f()"); [|done..]. by vm_compute.
Defined.

End witness.
