(* ===== verification/KeyLock.v ===== *)
(** * pkg/util/keylock: a read-write lock per key

    The locks interleave, so a state holds every mutex and every call, and a
    step runs one call up to its next access to shared memory.  A call is one
    use of the lock: from [RLock], [Lock], [RLockMain] or [LockMain] to the
    end of the [UnlockFunc] that it returned.  A goroutine that uses the lock
    several times makes several calls; here they may run in any order, so
    every execution of the goroutines is one of the executions below.

    The mutexes are values of sync.RWMutex: a writer first keeps new readers
    out, then waits for the readers inside. *)
From Stdlib Require Import Lia.
From stdpp Require Import base gmap strings list fin_maps finite.
From S2P Require Import Prelude.

(** ** sync.RWMutex *)

Definition cid : Type := nat.
Definition mid : Type := nat.

Record RWMutex : Type := MkRWMutex { writer : option cid; readers : list cid }.

Definition idle : RWMutex := MkRWMutex None [].

Definition rw_RLock (c : cid) (m : RWMutex) : option RWMutex :=
  match writer m with
  | None => Some (MkRWMutex None (c :: readers m))
  | Some _ => None
  end.

Definition rw_RUnlock (c : cid) (m : RWMutex) : RWMutex :=
  MkRWMutex (writer m) (list_difference (readers m) [c]).

(** The first half of [Lock]: other writers and new readers stay out. *)
Definition rw_announce (c : cid) (m : RWMutex) : option RWMutex :=
  match writer m with
  | None => Some (MkRWMutex (Some c) (readers m))
  | Some _ => None
  end.

(** The second half: the readers have left. *)
Definition rw_drained (m : RWMutex) : bool := bool_decide (readers m = []).

Definition rw_Unlock (m : RWMutex) : RWMutex := MkRWMutex None (readers m).

(** ** Calls and states *)

Inductive mode : Type := Read | Write.

Inductive op : Type :=
  | OnKey (key : string) (md : mode)
  | OnMain (md : mode).

(** Where a call is.  [Finding] is inside [findLock], [Creating] inside the
    critical section of [getLockBy]; [Got m] has the mutex it will lock, and
    [Waiting m] waits for the readers of [m]. *)
Inductive pc : Type :=
  | Called
  | Finding
  | Missed
  | MapWaiting
  | Creating
  | Got (m : mid)
  | Waiting (m : mid)
  | Holding (m : mid)
  | Unlocked.

#[global] Instance mode_eq_dec : EqDecision mode.
Proof. solve_decision. Defined.
#[global] Instance op_eq_dec : EqDecision op.
Proof. solve_decision. Defined.
#[global] Instance pc_eq_dec : EqDecision pc.
Proof. solve_decision. Defined.

(** The mutex of the map is number 0; a mutex that no one has used is idle. *)
Definition mapLock : mid := 0%nat.

Record KeyLock : Type := MkKeyLock {
  locks : gmap string mid;
  mutexes : gmap mid RWMutex;
  next : mid;
  calls : gmap cid (op * pc) }.

Definition NewKeyLock (ops : gmap cid op) : KeyLock :=
  MkKeyLock ∅ ∅ 1%nat ((λ o, (o, Called)) <$> ops).

Definition mutex (m : mid) (s : KeyLock) : RWMutex := default idle (mutexes s !! m).

Definition set_mutex (m : mid) (rw : RWMutex) (s : KeyLock) : KeyLock :=
  MkKeyLock (locks s) (<[m := rw]> (mutexes s)) (next s) (calls s).

Definition goto (c : cid) (o : op) (p : pc) (s : KeyLock) : KeyLock :=
  MkKeyLock (locks s) (mutexes s) (next s) (<[c := (o, p)]> (calls s)).

(** ** The code *)

Section steps.
Variables (c : cid) (o : op) (s : KeyLock).

(** [m.RLock()], then on to [p]; [None] when the call has to wait. *)
Definition do_rlock (m : mid) (p : pc) : option KeyLock :=
  rw ← rw_RLock c (mutex m s); Some (goto c o p (set_mutex m rw s)).

Definition do_runlock (m : mid) (p : pc) : option KeyLock :=
  Some (goto c o p (set_mutex m (rw_RUnlock c (mutex m s)) s)).

Definition do_announce (m : mid) (p : pc) : option KeyLock :=
  rw ← rw_announce c (mutex m s); Some (goto c o p (set_mutex m rw s)).

Definition do_enter (m : mid) (p : pc) : option KeyLock :=
  if rw_drained (mutex m s) then Some (goto c o p s) else None.

Definition do_unlock (m : mid) (p : pc) : option KeyLock :=
  Some (goto c o p (set_mutex m (rw_Unlock (mutex m s)) s)).

(** [findLock] looks the key up under the read lock of the map. *)
Definition findLock (key : string) (p : pc) : option KeyLock :=
  match p with
  | Called => do_rlock mapLock Finding
  | Finding =>
      match locks s !! key with
      | Some m => do_runlock mapLock (Got m)
      | None => do_runlock mapLock Missed
      end
  | _ => None
  end.

(** [getLockBy] makes a new mutex when [findLock] found none; it does not
    look again. *)
Definition getLockBy (key : string) (p : pc) : option KeyLock :=
  match p with
  | Called | Finding => findLock key p
  | Missed => do_announce mapLock MapWaiting
  | MapWaiting => do_enter mapLock Creating
  | Creating =>
      let ret := next s in
      Some (goto c o (Got ret) (set_mutex mapLock (rw_Unlock (mutex mapLock s))
        (MkKeyLock (<[key := ret]> (locks s)) (mutexes s) (S ret) (calls s))))
  | _ => None
  end.

Definition RLock (key : string) (p : pc) : option KeyLock :=
  match p with
  | Got m => do_rlock m (Holding m)
  | Holding m => do_runlock m Unlocked
  | Waiting _ | Unlocked => None
  | _ => getLockBy key p
  end.

Definition Lock (key : string) (p : pc) : option KeyLock :=
  match p with
  | Got m => do_announce m (Waiting m)
  | Waiting m => do_enter m (Holding m)
  | Holding m => do_unlock m Unlocked
  | Unlocked => None
  | _ => getLockBy key p
  end.

Definition RLockMain (p : pc) : option KeyLock :=
  match p with
  | Called => do_rlock mapLock (Holding mapLock)
  | Holding m => do_runlock m Unlocked
  | _ => None
  end.

Definition LockMain (p : pc) : option KeyLock :=
  match p with
  | Called => do_announce mapLock (Waiting mapLock)
  | Waiting m => do_enter m (Holding m)
  | Holding m => do_unlock m Unlocked
  | _ => None
  end.
End steps.

Arguments do_rlock : simpl never.
Arguments do_runlock : simpl never.
Arguments do_announce : simpl never.
Arguments do_enter : simpl never.
Arguments do_unlock : simpl never.

(** One step of the call [c]; [None] when it waits or is over. *)
Definition step (c : cid) (s : KeyLock) : option KeyLock :=
  '(o, p) ← calls s !! c;
  match o with
  | OnKey key Read => RLock c o s key p
  | OnKey key Write => Lock c o s key p
  | OnMain Read => RLockMain c o s p
  | OnMain Write => LockMain c o s p
  end.

Fixpoint run (cs : list cid) (s : KeyLock) : option KeyLock :=
  match cs with
  | [] => Some s
  | c :: cs => step c s ≫= run cs
  end.

Inductive steps : KeyLock → KeyLock → Prop :=
  | steps_refl s : steps s s
  | steps_step c s s' s'' : steps s s' → step c s' = Some s'' → steps s s''.

(** ** What a call holds *)

Definition op_mode (o : op) : mode := match o with OnKey _ md | OnMain md => md end.
Definition op_key (o : op) : option string :=
  match o with OnKey key _ => Some key | OnMain _ => None end.

(** The mutex that the call has announced itself on, or entered. *)
Definition writes (q : op * pc) : option mid :=
  match q.2, op_mode q.1 with
  | (MapWaiting | Creating), _ => Some mapLock
  | (Waiting m | Holding m), Write => Some m
  | _, _ => None
  end.

(** The mutex that the call is a reader of. *)
Definition reads (q : op * pc) : option mid :=
  match q.2, op_mode q.1 with
  | Finding, _ => Some mapLock
  | Holding m, Read => Some m
  | _, _ => None
  end.

(** The mutex that the call is inside of, as its writer. *)
Definition owns (q : op * pc) : option mid :=
  match q.2, op_mode q.1 with
  | Creating, _ => Some mapLock
  | Holding m, Write => Some m
  | _, _ => None
  end.

(** Between the return of [Lock] or [RLock] and the end of the unlock. *)
Definition holds (c : cid) (o : op) (s : KeyLock) : Prop :=
  ∃ m, calls s !! c = Some (o, Holding m).

Definition finished (s : KeyLock) : Prop :=
  ∀ c q, calls s !! c = Some q → q.2 = Unlocked.

(** ** The invariant *)

(** A call is at a place of its own operation. *)
Definition well_placed (q : op * pc) : bool :=
  match q.1, q.2 with
  | OnKey _ Read, Waiting _ => false
  | OnMain _, (Finding | Missed | MapWaiting | Creating | Got _) => false
  | OnMain Read, Waiting _ => false
  | _, _ => true
  end.

(** The mutexes record the calls that use them; one that has an owner has no
    readers. *)
Record consistent (s : KeyLock) : Prop := MkConsistent {
  c_writer m c : writer (mutex m s) = Some c ↔ ∃ q, calls s !! c = Some q ∧ writes q = Some m;
  c_readers m c : c ∈ readers (mutex m s) ↔ ∃ q, calls s !! c = Some q ∧ reads q = Some m;
  c_owner m c q : calls s !! c = Some q → owns q = Some m → readers (mutex m s) = [];
  c_placed c q : calls s !! c = Some q → well_placed q }.

Lemma owns_writes q m : owns q = Some m → writes q = Some m.
Proof. destruct q as [[k []|[]] []]; cbn; naive_solver. Qed.

Lemma mutex_set m m' rw s :
  mutex m' (set_mutex m rw s) = if decide (m' = m) then rw else mutex m' s.
Proof.
  unfold mutex, set_mutex; cbn. case_decide as H; [by subst; simplify_map_eq|].
  by rewrite lookup_insert_ne by congruence.
Qed.

Lemma mutex_goto_set c o p m m' rw s :
  mutex m' (goto c o p (set_mutex m rw s)) = if decide (m' = m) then rw else mutex m' s.
Proof. apply mutex_set. Qed.

Lemma consistent_init ops : consistent (NewKeyLock ops).
Proof.
  assert (Hm : ∀ m, mutex m (NewKeyLock ops) = idle).
  { intros m. unfold mutex, NewKeyLock; cbn. by rewrite lookup_empty. }
  assert (Hc : ∀ c q, calls (NewKeyLock ops) !! c = Some q → q.2 = Called).
  { cbn. intros c q. rewrite lookup_fmap_Some. intros (o & <- & _). done. }
  split.
  - intros m c. rewrite Hm; cbn. split; [done|]. intros ([o p] & Hq & Hw).
    apply Hc in Hq as Hp. cbn in Hp. subst. by destruct o as [? []|[]].
  - intros m c. rewrite Hm; cbn. split; [by rewrite elem_of_nil|]. intros ([o p] & Hq & Hw).
    apply Hc in Hq as Hp. cbn in Hp. subst. by destruct o as [? []|[]].
  - intros m c q _ _. by rewrite Hm.
  - intros c [o p] Hq. apply Hc in Hq. cbn in Hq. subst. by destruct o as [? []|[]].
Qed.

(** A step moves one call and changes one mutex, the only one that the call
    uses before or after. *)
Lemma consistent_move c q q' m rw s s' :
  consistent s → calls s !! c = Some q → calls s' = <[c := q']> (calls s) →
  (∀ m', mutex m' s' = if decide (m' = m) then rw else mutex m' s) →
  (∀ m', writes q = Some m' ∨ reads q = Some m' ∨ writes q' = Some m' ∨ reads q' = Some m' → m' = m) →
  (∀ c', writer rw = Some c' ↔
    (c' = c ∧ writes q' = Some m) ∨ (c' ≠ c ∧ writer (mutex m s) = Some c')) →
  (∀ c', c' ∈ readers rw ↔
    (c' = c ∧ reads q' = Some m) ∨ (c' ≠ c ∧ c' ∈ readers (mutex m s))) →
  (owns q' = Some m → readers rw = []) →
  (is_Some (reads q') → writer rw = None) →
  well_placed q' → consistent s'.
Proof.
  intros [Hw Hr Ho Hp] Hq Hcalls Hm Hfoot Hw' Hr' Ho' Hx Hp'.
  assert (Hlook : ∀ c' q0, calls s' !! c' = Some q0 ↔
    (c' = c ∧ q0 = q') ∨ (c' ≠ c ∧ calls s !! c' = Some q0)).
  { intros c' q0. rewrite Hcalls, lookup_insert_Some. naive_solver. }
  split.
  - intros m' c'. rewrite Hm. setoid_rewrite Hlook. case_decide as E.
    + subst m'. rewrite Hw', Hw. naive_solver.
    + rewrite Hw. destruct (decide (c' = c)) as [->|]; [|naive_solver].
      split; [intros (q0 & ? & ?); simplify_eq; naive_solver|].
      intros (q0 & [[_ ->]|[? _]] & ?); naive_solver.
  - intros m' c'. rewrite Hm. setoid_rewrite Hlook. case_decide as E.
    + subst m'. rewrite Hr', Hr. naive_solver.
    + rewrite Hr. destruct (decide (c' = c)) as [->|]; [|naive_solver].
      split; [intros (q0 & ? & ?); simplify_eq; naive_solver|].
      intros (q0 & [[_ ->]|[? _]] & ?); naive_solver.
  - intros m' c' q0. rewrite Hlook, Hm. intros [[-> ->]|[Hne Hq0]] Hown.
    + assert (m' = m) as -> by (apply Hfoot; right; right; left; by apply owns_writes).
      rewrite decide_True by done. auto.
    + case_decide as E; [subst m'|by eapply Ho].
      apply elem_of_nil_inv. intros x Hx'. apply Hr' in Hx'.
      rewrite (Ho _ _ _ Hq0 Hown), elem_of_nil in Hx'. destruct Hx' as [[-> Hrq]|[_ []]].
      assert (writer rw = Some c') as E.
      { apply Hw'. right. split; [done|]. apply Hw. eauto using owns_writes. }
      rewrite Hx in E; eauto; done.
  - intros c' q0. rewrite Hlook. intros [[_ ->]|[_ ?]]; [done|by eapply Hp].
Qed.

Section moves.
Variables (c : cid) (o : op) (p : pc) (s : KeyLock).
Hypotheses (Hs : consistent s) (Hq : calls s !! c = Some (o, p)).

Lemma not_writer m c' : writes (o, p) = None → writer (mutex m s) = Some c' → c' ≠ c.
Proof. intros H Hw ->. apply (c_writer s Hs) in Hw as (q & ? & ?). simplify_eq. Qed.

Lemma not_reader m c' : reads (o, p) = None → c' ∈ readers (mutex m s) → c' ≠ c.
Proof. intros H Hw ->. apply (c_readers s Hs) in Hw as (q & ? & ?). simplify_eq. Qed.

Lemma consistent_rlock m p' s' :
  do_rlock c o s m p' = Some s' → writes (o, p) = None → reads (o, p) = None →
  writes (o, p') = None → reads (o, p') = Some m → well_placed (o, p') → consistent s'.
Proof.
  unfold do_rlock, rw_RLock. intros E W R W' R' P.
  destruct (writer (mutex m s)) eqn:Hw; cbn in E; [done|]. injection E as <-.
  eapply (consistent_move c (o, p) (o, p') m _ s);
    [done|exact Hq|reflexivity|intros m'; rewrite mutex_goto_set; reflexivity|..]; cbn; try done.
  - naive_solver.
  - intros c'. rewrite Hw, W'. naive_solver.
  - intros c'. rewrite elem_of_cons. pose proof (not_reader m c' R). naive_solver.
  - intros Ho. apply owns_writes in Ho. congruence.
Qed.

Lemma consistent_runlock m p' s' :
  do_runlock c o s m p' = Some s' → writes (o, p) = None → reads (o, p) = Some m →
  writes (o, p') = None → reads (o, p') = None → well_placed (o, p') → consistent s'.
Proof.
  unfold do_runlock, rw_RUnlock. intros [= <-] W R W' R' P.
  eapply (consistent_move c (o, p) (o, p') m _ s);
    [done|exact Hq|reflexivity|intros m'; rewrite mutex_goto_set; reflexivity|..]; cbn; try done.
  - naive_solver.
  - intros c'. pose proof (not_writer m c' W). naive_solver.
  - intros c'. rewrite list_elem_of_difference, list_elem_of_singleton. naive_solver.
  - intros Ho. apply owns_writes in Ho. congruence.
  - rewrite R'. by intros [].
Qed.

Lemma consistent_announce m p' s' :
  do_announce c o s m p' = Some s' → writes (o, p) = None → reads (o, p) = None →
  writes (o, p') = Some m → reads (o, p') = None → owns (o, p') = None →
  well_placed (o, p') → consistent s'.
Proof.
  unfold do_announce, rw_announce. intros E W R W' R' O' P.
  destruct (writer (mutex m s)) eqn:Hw; cbn in E; [done|]. injection E as <-.
  eapply (consistent_move c (o, p) (o, p') m _ s);
    [done|exact Hq|reflexivity|intros m'; rewrite mutex_goto_set; reflexivity|..]; cbn; try done.
  - naive_solver.
  - intros c'. rewrite Hw. naive_solver.
  - intros c'. pose proof (not_reader m c' R). naive_solver.
  - congruence.
  - rewrite R'. by intros [].
Qed.

Lemma consistent_enter m p' s' :
  do_enter c o s m p' = Some s' → writes (o, p) = Some m → reads (o, p) = None →
  writes (o, p') = Some m → reads (o, p') = None → well_placed (o, p') → consistent s'.
Proof.
  unfold do_enter, rw_drained. intros E W R W' R' P.
  case_bool_decide as Hd; [|done]. injection E as <-.
  eapply (consistent_move c (o, p) (o, p') m (mutex m s) s); eauto; cbn.
  - intros m'. case_decide; by subst.
  - naive_solver.
  - intros c'. rewrite (c_writer s Hs m c'), W'. destruct (decide (c' = c)); naive_solver.
  - intros c'. pose proof (not_reader m c' R). naive_solver.
  - rewrite R'. by intros [].
Qed.

Lemma consistent_unlock m p' s0 s' :
  (∀ m', mutex m' s0 = mutex m' s) → calls s0 = calls s →
  s' = goto c o p' (set_mutex m (rw_Unlock (mutex m s0)) s0) →
  owns (o, p) = Some m → reads (o, p) = None →
  writes (o, p') = None → reads (o, p') = None → well_placed (o, p') → consistent s'.
Proof.
  intros Hm Hc -> O R W' R' P. pose proof (owns_writes _ _ O) as W.
  pose proof (c_owner s Hs _ _ _ Hq O) as Hd.
  assert (Hw : writer (mutex m s) = Some c) by (apply (c_writer s Hs); eauto).
  eapply (consistent_move c (o, p) (o, p') m (rw_Unlock (mutex m s)) s); eauto; cbn.
  - by rewrite Hc.
  - intros m'. by rewrite mutex_goto_set, !Hm.
  - naive_solver.
  - intros c'. rewrite Hw, W'. naive_solver.
  - intros c'. rewrite Hd, R', elem_of_nil. naive_solver.
Qed.
End moves.

Lemma step_consistent c s s' : consistent s → step c s = Some s' → consistent s'.
Proof.
  intros Hs. unfold step. destruct (calls s !! c) as [[o p]|] eqn:Hq; cbn; [|done].
  pose proof (c_placed s Hs _ _ Hq) as Hp.
  destruct o as [key []|[]], p; cbn; try done;
    try (case_match; cbn); try done; intros E;
    first [ by eapply consistent_rlock | by eapply consistent_runlock
          | by eapply consistent_announce | by eapply consistent_enter
          | eapply (consistent_unlock _ _ _ s Hs Hq);
            [|reflexivity|by injection E as <-|..]; done
          | eapply (consistent_unlock _ _ _ s Hs Hq _ _
              (MkKeyLock (<[key := next s]> (locks s)) (mutexes s) (S (next s)) (calls s)));
            [|reflexivity|by injection E as <-|..]; done ].
Qed.

Lemma steps_consistent s s' : consistent s → steps s s' → consistent s'.
Proof. intros Hs. induction 1; eauto using step_consistent. Qed.

(** ** Exclusion *)

(** The mutex of the key is in the map, and every call of the key has not yet
    looked for it, or uses this mutex, or is over: none is about to make
    another one, and none has, waits for or holds another one. *)
Definition settled (key : string) (m : mid) (s : KeyLock) : Prop :=
  locks s !! key = Some m ∧
  ∀ c o p, calls s !! c = Some (o, p) → op_key o = Some key →
    p ∈ [Called; Finding; Got m; Waiting m; Holding m; Unlocked].

(** How far a call is from its end. *)
Definition rank (p : pc) : nat :=
  match p with
  | Called => 8 | Finding => 7 | Missed => 6 | MapWaiting => 5 | Creating => 4
  | Got _ => 3 | Waiting _ => 2 | Holding _ => 1 | Unlocked => 0
  end.

(** How a step changes the map and the place of its call. *)
Lemma step_inv c s s' : step c s = Some s' →
  ∃ o p p', calls s !! c = Some (o, p) ∧ calls s' = <[c := (o, p')]> (calls s) ∧
    (p ≠ Creating ∧ locks s' = locks s ∨
     ∃ key, op_key o = Some key ∧ p = Creating ∧ locks s' = <[key := next s]> (locks s)) ∧
    (∀ key, op_key o = Some key →
      match p with
      | Called => p' = Finding
      | Finding => p' = from_option Got Missed (locks s !! key)
      | Missed => p' = MapWaiting
      | MapWaiting => p' = Creating
      | Creating => p' = Got (next s)
      | Got m => p' = Holding m ∨ p' = Waiting m
      | Waiting m => p' = Holding m
      | Holding m => p' = Unlocked
      | Unlocked => False
      end) ∧ (rank p' < rank p)%nat.
Proof.
  unfold step. destruct (calls s !! c) as [[o p]|] eqn:Hq; cbn; [|done].
  destruct o as [key []|[]], p; cbn; try done; try (destruct (locks s !! key) eqn:?; cbn);
    unfold do_rlock, do_runlock, do_announce, do_enter, do_unlock; intros E;
    repeat (case_match || (apply bind_Some in E as (? & _ & E))); try done;
    injection E as <-; cbn; eexists _, _, _; split_and!; try done;
    try (by left); try (right; by eauto); try (cbn; lia);
    intros k [= <-]; simplify_option_eq; eauto.
Qed.

Lemma step_settled key m c s s' : settled key m s → step c s = Some s' → settled key m s'.
Proof.
  intros [Hl Hc] (o & p & p' & Hq & Hcalls & Hlocks & Hnext & _)%step_inv. split.
  - destruct Hlocks as [[_ ->]|(k & Hk & -> & ->)]; [done|].
    rewrite lookup_insert_ne; [done|]. intros ->.
    specialize (Hc _ _ _ Hq Hk). set_solver.
  - intros c' o' q'. rewrite Hcalls, lookup_insert_Some. intros [[-> [= -> ->]]|[_ H]] Hk.
    + specialize (Hc _ _ _ Hq Hk). specialize (Hnext _ Hk). rewrite Hl in Hnext.
      destruct p; try (destruct Hnext as [->| ->]); subst; cbn in *; set_solver.
    + eauto.
Qed.

Lemma steps_settled key m s s' : settled key m s → steps s s' → settled key m s'.
Proof. intros Hs. induction 1; eauto using step_settled. Qed.

Lemma holding_uses o m :
  match op_mode o with
  | Read => reads (o, Holding m) = Some m
  | Write => writes (o, Holding m) = Some m ∧ owns (o, Holding m) = Some m
  end.
Proof. by destruct o as [? []|[]]. Qed.

Lemma holding_exclusive s c1 c2 o1 o2 m :
  consistent s → c1 ≠ c2 → calls s !! c1 = Some (o1, Holding m) →
  calls s !! c2 = Some (o2, Holding m) → op_mode o1 = Read.
Proof.
  intros Hs Hne H1 H2. destruct (op_mode o1) eqn:E1; [done|exfalso].
  pose proof (holding_uses o1 m) as U1. pose proof (holding_uses o2 m) as U2. rewrite E1 in U1.
  assert (Hr : readers (mutex m s) = []) by (by eapply (c_owner _ Hs _ _ _ H1), U1).
  assert (Hw : writer (mutex m s) = Some c1) by (apply c_writer; [done|]; naive_solver).
  destruct (op_mode o2).
  - assert (c2 ∈ readers (mutex m s)) as Hc; [apply c_readers; eauto|].
    by rewrite Hr, elem_of_nil in Hc.
  - assert (writer (mutex m s) = Some c2); [|congruence]. apply c_writer; naive_solver.
Qed.

(** ** Progress *)

Definition work (m : gmap cid (op * pc)) : nat :=
  map_fold (λ _ q n, (rank q.2 + n)%nat) 0%nat m.

Lemma work_split m c q : m !! c = Some q → work m = (rank q.2 + work (delete c m))%nat.
Proof.
  intros H. unfold work. apply (map_fold_delete_L (λ _ q n, (rank q.2 + n)%nat)); [|done]. intros. lia.
Qed.

Lemma work_insert m c q : work (<[c := q]> m) = (rank q.2 + work (delete c m))%nat.
Proof.
  rewrite (work_split (<[c := q]> m) c q) by apply lookup_insert_eq.
  by rewrite delete_insert_eq.
Qed.

Lemma work_init ops : work (calls (NewKeyLock ops)) = (8 * size ops)%nat.
Proof.
  cbn. induction ops as [|c o ops Hc IH] using map_ind; [by rewrite fmap_empty|].
  rewrite fmap_insert, work_insert, delete_id by (by rewrite lookup_fmap, Hc).
  rewrite map_size_insert_None by done. cbn [rank snd]. lia.
Qed.

Lemma step_works c s s' : step c s = Some s' → (work (calls s') < work (calls s))%nat.
Proof.
  intros (o & p & p' & Hq & -> & _ & _ & Hlt)%step_inv.
  rewrite (work_split _ _ _ Hq), work_insert. cbn [snd]. lia.
Qed.

Lemma run_works cs s s' : run cs s = Some s' → (length cs + work (calls s') ≤ work (calls s))%nat.
Proof.
  revert s. induction cs as [|c cs IH]; intros s; cbn; [intros [= ->]; lia|].
  intros (s1 & H1 & H2)%bind_Some. apply step_works in H1. apply IH in H2. lia.
Qed.

Lemma run_steps cs s0 s s' : steps s0 s → run cs s = Some s' → steps s0 s'.
Proof.
  revert s. induction cs as [|c cs IH]; intros s Hs; cbn; [by intros [= <-]|].
  intros (s1 & H1 & H2)%bind_Some. eauto using steps.
Qed.

(** A call that is inside of a mutex can leave it. *)
Lemma inside_steps s c q m : calls s !! c = Some q → well_placed q →
  reads q = Some m ∨ owns q = Some m → step c s ≠ None.
Proof.
  unfold step. intros ->. destruct q as [[key []|[]] []]; cbn; try (by naive_solver);
    destruct (locks s !! key); done.
Qed.

(** A call that is not over and cannot run waits, for a writer or for
    readers. *)
Lemma stuck_waits s c o p : calls s !! c = Some (o, p) → well_placed (o, p) →
  step c s = None → p ≠ Unlocked →
  ∃ m, writes (o, p) = None ∧ is_Some (writer (mutex m s)) ∨
       writes (o, p) = Some m ∧ readers (mutex m s) ≠ [].
Proof.
  unfold step. intros -> Hp. destruct o as [key []|[]], p; try done; cbn;
    unfold do_rlock, do_runlock, do_announce, do_enter, do_unlock, rw_RLock, rw_announce,
      rw_drained; try (destruct (locks s !! key); done);
    match goal with |- context [mutex ?m s] => intros E _; exists m end;
    first [ left; split; [done|]; by destruct (writer _)
          | right; split; [done|]; by case_bool_decide ].
Qed.

Lemma no_readers_left s m : consistent s → (∀ c, step c s = None) → readers (mutex m s) = [].
Proof.
  intros Hs Hstuck. apply elem_of_nil_inv. intros c (q & Hq & Hr)%(c_readers s Hs).
  eapply (inside_steps s c q m); eauto using c_placed.
Qed.

Lemma stuck_finished s : consistent s → (∀ c, step c s = None) → finished s.
Proof.
  intros Hs Hstuck c [o p] Hq. cbn. destruct (decide (p = Unlocked)) as [|Hp]; [done|exfalso].
  destruct (stuck_waits s c o p) as (m & [[_ [c' Hw]]|[_ Hr]]); eauto using c_placed.
  2: by eauto using no_readers_left.
  apply (c_writer s Hs) in Hw as ([o' p'] & Hq' & Hw').
  destruct (stuck_waits s c' o' p') as (m' & [[Hn _]|[_ Hr]]); eauto using c_placed.
  - intros ->. done.
  - congruence.
  - by eauto using no_readers_left.
Qed.

(** ** Theorems *)

(** C29: from a moment when the mutex of a key is in the map, no call is about
    to make another one, and no call has, waits for or holds another one of
    the key, a call that has the key's lock for writing is the only one that
    has it: of two calls between their lock and their unlock, from then on and
    for ever, both are readers.  Such a moment is the end of the first call's
    [getLockBy] when no other call of the key began before; after two first
    users who both found no mutex it comes only when those who have the mutex
    that was replaced are over: until then two writers may hold the key
    ([new_key_race]). *)
Theorem known_key_excludes ops s0 s key m c1 c2 o1 o2
  (Hreach : steps (NewKeyLock ops) s0) (Hkey : settled key m s0) (Hlater : steps s0 s)
  (Hne : c1 ≠ c2) (H1 : holds c1 o1 s) (H2 : holds c2 o2 s)
  (Hk1 : op_key o1 = Some key) (Hk2 : op_key o2 = Some key) :
  op_mode o1 = Read ∧ op_mode o2 = Read.
Proof.
  assert (Hs : consistent s) by eauto using steps_consistent, consistent_init.
  destruct (steps_settled _ _ _ _ Hkey Hlater) as [_ Hset].
  assert (Hm : ∀ c o, holds c o s → op_key o = Some key → calls s !! c = Some (o, Holding m)).
  { intros c o [m' Hc] Hk. specialize (Hset _ _ _ Hc Hk). set_solver. }
  split; [eapply (holding_exclusive s c1 c2)|eapply (holding_exclusive s c2 c1)]; eauto.
Qed.

(** The checks that a concrete state is reached, and is settled. *)
Lemma run_reaches cs ops s : run cs (NewKeyLock ops) = Some s → steps (NewKeyLock ops) s.
Proof. apply run_steps, steps_refl. Qed.

Definition settledb (key : string) (m : mid) (s : KeyLock) : bool :=
  bool_decide (locks s !! key = Some m) &&
  bool_decide (map_Forall (λ _ q, op_key q.1 = Some key →
    q.2 ∈ [Called; Finding; Got m; Waiting m; Holding m; Unlocked]) (calls s)).

Lemma settledb_settled key m s : settledb key m s = true → settled key m s.
Proof.
  unfold settledb. rewrite andb_true_iff, !bool_decide_eq_true. intros [Hl Hc].
  split; [done|]. intros c o p Hq. exact (Hc c _ Hq).
Qed.

Definition key_ops : gmap cid op :=
  {[ 1%nat := OnKey "default" Write; 2%nat := OnKey "default" Write ]}.

(** The state after [cs]; the theorems use it where the run succeeds. *)
Definition after (cs : list cid) : KeyLock :=
  default (NewKeyLock key_ops) (run cs (NewKeyLock key_ops)).

Lemma known_key_excludes_witness :
  run [1;1;1;1;1]%nat (NewKeyLock key_ops) = Some (after [1;1;1;1;1]%nat) ∧
  run [2;2;1;1]%nat (after [1;1;1;1;1]%nat) = Some (after [1;1;1;1;1;2;2;1;1]%nat) ∧
  holds 1%nat (OnKey "default" Write) (after [1;1;1;1;1;2;2;1;1]%nat) ∧
  ¬ holds 2%nat (OnKey "default" Write) (after [1;1;1;1;1;2;2;1;1]%nat).
Proof.
  assert (E1 : run [1;1;1;1;1]%nat (NewKeyLock key_ops) = Some (after [1;1;1;1;1]%nat))
    by (vm_compute; reflexivity).
  assert (E2 : run [2;2;1;1]%nat (after [1;1;1;1;1]%nat) =
    Some (after [1;1;1;1;1;2;2;1;1]%nat)) by (vm_compute; reflexivity).
  assert (E3 : settledb "default" 1%nat (after [1;1;1;1;1]%nat) = true)
    by (vm_compute; reflexivity).
  assert (E4 : calls (after [1;1;1;1;1;2;2;1;1]%nat) !! 1%nat =
    Some (OnKey "default" Write, Holding 1%nat)) by (vm_compute; reflexivity).
  split; [exact E1|]. split; [exact E2|]. split; [exists 1%nat; exact E4|]. intros H2.
  enough (Write = Read) by discriminate.
  refine (proj1 (known_key_excludes key_ops _ _ "default" 1%nat 2%nat 1%nat _ _
    (run_reaches _ _ _ E1) (settledb_settled _ _ _ E3)
    (run_steps _ _ _ _ (steps_refl _) E2) _ H2 (ex_intro _ 1%nat E4) eq_refl eq_refl)).
  discriminate.
Defined.

(** the first two users of a key may both have it for writing: each
    finds no mutex, and each makes its own.  Nothing in the code looks again
    between the two critical sections of the map. *)
Theorem new_key_race key :
  ∃ ops cs s, run cs (NewKeyLock ops) = Some s ∧
    holds 1%nat (OnKey key Write) s ∧ holds 2%nat (OnKey key Write) s.
Proof.
  exists {[ 1%nat := OnKey key Write; 2%nat := OnKey key Write ]}.
  exists [1; 1; 2; 2; 1; 1; 1; 1; 1; 2; 2; 2; 2; 2]%nat.
  eexists. split; [reflexivity|]. split; eexists; reflexivity.
Qed.

(** [LockMain] only keeps the map: it does not exclude the keys' users, which
    have found their mutex before. *)
Lemma LockMain_excludes_no_key key :
  ∃ ops cs s, run cs (NewKeyLock ops) = Some s ∧
    holds 1%nat (OnKey key Write) s ∧ holds 2%nat (OnMain Write) s.
Proof.
  exists {[ 1%nat := OnKey key Write; 2%nat := OnMain Write ]}.
  exists [1; 1; 1; 1; 1; 1; 1; 2; 2]%nat.
  eexists. split; [reflexivity|]. split; eexists; reflexivity.
Qed.

(** C30: whatever the order of the steps, no call waits for ever: a run makes
    at most eight steps for each call, and where no call can make another
    step, each has locked and unlocked.  The locks themselves cause no
    deadlock, among callers that unlock without waiting for another lock. *)
Theorem calls_finish ops cs s (Hrun : run cs (NewKeyLock ops) = Some s) :
  (length cs ≤ 8 * size ops)%nat ∧ ((∀ c, step c s = None) → finished s).
Proof.
  split.
  - apply run_works in Hrun. rewrite work_init in Hrun. lia.
  - apply stuck_finished. eauto using run_reaches, steps_consistent, consistent_init.
Qed.

Lemma calls_finish_witness :
  run [1;1;1;1;1;1;1;1;2;2;2;2;2]%nat (NewKeyLock key_ops) =
    Some (after [1;1;1;1;1;1;1;1;2;2;2;2;2]%nat) ∧ (13 ≤ 8 * size key_ops)%nat.
Proof.
  assert (E : run [1;1;1;1;1;1;1;1;2;2;2;2;2]%nat (NewKeyLock key_ops) =
    Some (after [1;1;1;1;1;1;1;1;2;2;2;2;2]%nat)) by (vm_compute; reflexivity).
  split; [exact E|]. exact (proj1 (calls_finish key_ops _ _ E)).
Defined.
