(* ===== verification/LinkedList.v ===== *)
(** * pkg/util/linkedlist: the list, and its two sorts

    The nodes live in a heap, 0 the nil pointer: the list and its clients
    keep pointers to the same nodes, and the sorts relink them in place.  The
    three words of the list are a record that each operation returns anew.
    [reflect.DeepEqual] is the equality of values; [less] is an argument.

    A loop over the nodes carries fuel, one more than the nodes of the heap:
    a chain without a cycle ends before.  On a cyclic chain the Go loop never
    ends, and the model runs out of fuel. *)
From Stdlib Require Import ZArith Lia Sorting.Sorted.
From stdpp Require Import base gmap strings list fin_maps.
From S2P Require Import Prelude Linker.

Definition ErrNodeNotFound : error := "node not found".
Definition ErrValueNotFound : error := "value not found".

(** ** Data *)

Record Node (T : Type) : Type := MkNode { Value : T; Next : loc }.
Arguments MkNode {T} Value Next.
Arguments Value {T} n.
Arguments Next {T} n.
Abbreviation nodes T := (gmap loc (Node T)).

Record LinkedList : Type := MkList { Head : loc; Tail : loc; len : Z }.

Definition empty_list : LinkedList := MkList nil nil 0.

Section code.
Context {T : Type} `{EqDecision T}.

Abbreviation HP := (ST (nodes T)).

(** A dereference, and the assignment [p.Next = q]. *)
Definition deref (p : loc) : HP (Node T) := λ h,
  match h !! p with Some n => Returns (n, h) | None => Panics nil_deref end.
Definition set_next (p q : loc) : HP unit := λ h,
  match h !! p with
  | Some n => Returns (tt, <[p := MkNode (Value n) q]> h)
  | None => Panics nil_deref
  end.
Definition new_node (v : T) : HP loc := λ h,
  let p := fresh ({[nil]} ∪ dom h : gset loc) in Returns (p, <[p := MkNode v nil]> h).

(** The bound of a loop over the nodes. *)
Definition enough (h : nodes T) : nat := S (size h).

(** ** linkedlist.go *)

Definition Insert (l : LinkedList) (value : T) : HP LinkedList :=
  node ← new_node value;
  if N.eqb (Head l) nil then mret (MkList node node (len l + 1))
  else _ ← set_next (Tail l) node; mret (MkList (Head l) node (len l + 1)).

Fixpoint New_loop (l : LinkedList) (items : list T) : HP LinkedList :=
  match items with
  | [] => mret l
  | item :: items => l ← Insert l item; New_loop l items
  end.
Definition New (items : list T) : HP LinkedList := New_loop empty_list items.

(** [fmt.Sprintf] of a value is a parameter. *)
Fixpoint String_loop (show : T → string) (fuel : nat) (node : loc) (buf : string) : HP string :=
  match fuel with
  | O => st_panic "out of fuel"
  | S fuel =>
      if N.eqb node nil then mret buf else
      n ← deref node;
      let buf := buf +:+ show (Value n) in
      let buf := if N.eqb (Next n) nil then buf else buf +:+ " -> " in
      String_loop show fuel (Next n) buf
  end.
Definition String (show : T → string) (l : LinkedList) : HP string :=
  h ← st_get; String_loop show (enough h) (Head l) "".

Fixpoint InsertBefore_loop (fuel : nat) (node newNode prev : loc) : HP (option error) :=
  match fuel with
  | O => st_panic "out of fuel"
  | S fuel =>
      p ← deref prev;
      if N.eqb (Next p) nil then mret (Some ErrNodeNotFound)
      else if N.eqb (Next p) node then
        _ ← set_next newNode (Next p); _ ← set_next prev newNode; mret None
      else InsertBefore_loop fuel node newNode (Next p)
  end.
Definition InsertBefore (l : LinkedList) (node : loc) (value : T)
    : HP (LinkedList * option error) :=
  newNode ← new_node value;
  if N.eqb node (Head l) then
    _ ← set_next newNode (Head l); mret (MkList newNode (Tail l) (len l + 1), None)
  else
    h ← st_get;
    err ← InsertBefore_loop (enough h) node newNode (Head l);
    mret (match err with
          | None => MkList (Head l) (Tail l) (len l + 1)
          | Some _ => l
          end, err).

Fixpoint Remove_loop (fuel : nat) (l : LinkedList) (value : T) (prev : loc)
    : HP (LinkedList * option error) :=
  match fuel with
  | O => st_panic "out of fuel"
  | S fuel =>
      p ← deref prev;
      if N.eqb (Next p) nil then mret (l, Some ErrValueNotFound) else
      n ← deref (Next p);
      if bool_decide (Value n = value) then
        let tail := if N.eqb (Next p) (Tail l) then prev else Tail l in
        _ ← set_next prev (Next n);
        mret (MkList (Head l) tail (len l - 1), None)
      else Remove_loop fuel l value (Next p)
  end.
Definition Remove (l : LinkedList) (value : T) : HP (LinkedList * option error) :=
  if N.eqb (Head l) nil then mret (l, Some ErrValueNotFound) else
  hd ← deref (Head l);
  if bool_decide (Value hd = value) then
    if len l =? 1 then mret (MkList nil nil 0, None)
    else mret (MkList (Next hd) (Tail l) (len l - 1), None)
  else h ← st_get; Remove_loop (enough h) l value (Head l).

Fixpoint RemoveTail_loop (fuel : nat) (l : LinkedList) (prev : loc)
    : HP (LinkedList * option error) :=
  match fuel with
  | O => st_panic "out of fuel"
  | S fuel =>
      p ← deref prev;
      if N.eqb (Next p) nil then mret (l, Some ErrValueNotFound)
      else if N.eqb (Next p) (Tail l) then
        _ ← set_next prev nil; mret (MkList (Head l) prev (len l - 1), None)
      else RemoveTail_loop fuel l (Next p)
  end.
Definition RemoveTail (l : LinkedList) : HP (LinkedList * option error) :=
  if N.eqb (Head l) nil then mret (l, Some ErrValueNotFound)
  else if len l =? 1 then mret (MkList nil nil 0, None)
  else h ← st_get; RemoveTail_loop (enough h) l (Head l).

Fixpoint Contains_loop (fuel : nat) (value : T) (node : loc) : HP bool :=
  match fuel with
  | O => st_panic "out of fuel"
  | S fuel =>
      if N.eqb node nil then mret false else
      n ← deref node;
      if bool_decide (Value n = value) then mret true else Contains_loop fuel value (Next n)
  end.
Definition Contains (l : LinkedList) (value : T) : HP bool :=
  if N.eqb (Head l) nil then mret false
  else h ← st_get; Contains_loop (enough h) value (Head l).

Definition Empty (l : LinkedList) : bool := N.eqb (Head l) nil.
Definition Len (l : LinkedList) : Z := len l.

(** ** linkedlist_sort.go *)

Section sort.
Context (less : T → T → bool) (zero : T).

Fixpoint findMiddle_loop (fuel : nat) (slow fast : loc) : HP loc :=
  match fuel with
  | O => st_panic "out of fuel"
  | S fuel =>
      if N.eqb fast nil then mret slow else
      f ← deref fast;
      if N.eqb (Next f) nil then mret slow else
      f' ← deref (Next f);
      if N.eqb (Next f') nil then mret slow else
      s ← deref slow;
      findMiddle_loop fuel (Next s) (Next f')
  end.
Definition findMiddle (head : loc) : HP loc :=
  h ← st_get; findMiddle_loop (enough h) head head.

(** The loop of [merge] and the two tests after it. *)
Fixpoint merge_loop (fuel : nat) (current left right : loc) : HP unit :=
  match fuel with
  | O => st_panic "out of fuel"
  | S fuel =>
      if negb (N.eqb left nil) && negb (N.eqb right nil) then
        a ← deref left;
        b ← deref right;
        if less (Value a) (Value b)
        then _ ← set_next current left; merge_loop fuel left (Next a) right
        else _ ← set_next current right; merge_loop fuel right left (Next b)
      else
        _ ← (if N.eqb left nil then mret tt else set_next current left);
        if N.eqb right nil then mret tt else set_next current right
  end.
Definition merge (left right : loc) : HP loc :=
  dummy ← new_node zero;
  h ← st_get;
  _ ← merge_loop (enough h) dummy left right;
  d ← deref dummy;
  mret (Next d).

Fixpoint mergeSortListNode (fuel : nat) (head : loc) : HP loc :=
  match fuel with
  | O => st_panic "out of fuel"
  | S fuel =>
      if N.eqb head nil then mret head else
      hd ← deref head;
      if N.eqb (Next hd) nil then mret head else
      middle ← findMiddle head;
      m ← deref middle;
      let secondHalf := Next m in
      _ ← set_next middle nil;
      left ← mergeSortListNode fuel head;
      right ← mergeSortListNode fuel secondHalf;
      merge left right
  end.

(** [for p != nil && p.Next != nil { p = p.Next }] *)
Fixpoint walk (fuel : nat) (p : loc) : HP loc :=
  match fuel with
  | O => st_panic "out of fuel"
  | S fuel =>
      if N.eqb p nil then mret p else
      n ← deref p;
      if N.eqb (Next n) nil then mret p else walk fuel (Next n)
  end.

Definition SortLinkedList (ll : LinkedList) : HP LinkedList :=
  h ← st_get;
  head ← mergeSortListNode (enough h) (Head ll);
  h ← st_get;
  tail ← walk (enough h) head;
  mret (MkList head tail (len ll)).

(** [length] nodes from [current] on. *)
Fixpoint length_loop (fuel : nat) (current : loc) (length : Z) : HP Z :=
  match fuel with
  | O => st_panic "out of fuel"
  | S fuel =>
      if N.eqb current nil then mret length
      else n ← deref current; length_loop fuel (Next n) (length + 1)
  end.

(** [split]: the loop runs while [i < steps]. *)
Fixpoint split_loop (fuel : nat) (i steps : Z) (head : loc) : HP loc :=
  match fuel with
  | O => st_panic "out of fuel"
  | S fuel =>
      if negb (N.eqb head nil) && (i <? steps)
      then n ← deref head; split_loop fuel (i + 1) steps (Next n)
      else mret head
  end.
Definition split (head : loc) (steps : Z) : HP loc :=
  h ← st_get;
  head ← split_loop (enough h) 1 steps head;
  if N.eqb head nil then mret nil else
  n ← deref head;
  _ ← set_next head nil;
  mret (Next n).

(** The loop over the pairs of runs of one pass; it returns [tailMaybe]. *)
Fixpoint pass_loop (fuel : nat) (step : Z) (current prevTail tailMaybe : loc) : HP loc :=
  match fuel with
  | O => st_panic "out of fuel"
  | S fuel =>
      if N.eqb current nil then mret tailMaybe else
      let left := current in
      right ← split left step;
      current ← split right step;
      merged ← merge left right;
      _ ← set_next prevTail merged;
      h ← st_get;
      merged ← walk (enough h) merged;
      pass_loop fuel step current merged merged
  end.

(** [for step := 1; step < length; step *= 2] *)
Fixpoint step_loop (fuel : nat) (step length : Z) (dummy tailMaybe : loc) : HP loc :=
  match fuel with
  | O => st_panic "out of fuel"
  | S fuel =>
      if step <? length then
        d ← deref dummy;
        h ← st_get;
        tailMaybe ← pass_loop (enough h) step (Next d) dummy tailMaybe;
        step_loop fuel (step * 2) length dummy tailMaybe
      else mret tailMaybe
  end.

Definition sortLinkedListNodeIterative (head tail : loc) : HP (loc * loc) :=
  if N.eqb head nil then mret (head, tail) else
  hd ← deref head;
  if N.eqb (Next hd) nil then mret (head, tail) else
  h ← st_get;
  length ← length_loop (enough h) head 0;
  dummy ← new_node zero;
  _ ← set_next dummy head;
  tailMaybe ← step_loop (S (Z.to_nat length)) 1 length dummy tail;
  h ← st_get;
  tailMaybe ← walk (enough h) tailMaybe;
  d ← deref dummy;
  mret (Next d, tailMaybe).

Definition SortLinkedListIterative (ll : LinkedList) : HP LinkedList :=
  '(head, tail) ← sortLinkedListNodeIterative (Head ll) (Tail ll);
  mret (MkList head tail (len ll)).
End sort.
End code.
