(* ===== verification/LinkedListLogic.v ===== *)
(** * Linked lists as lists of values

    [seg h xs q]: the nodes [xs], each a pair of a location and a value, are
    linked in this order in the heap [h], and the last one points to [q].
    [rep h l xs]: the list [l] consists of these nodes.  An operation changes
    only the nodes of its list ([keeps]), so several lists share a heap. *)
From Stdlib Require Import ZArith Lia Sorting.Sorted.
From stdpp Require Import base gmap strings list fin_maps.
From S2P Require Import Prelude Linker LinkedList.

Section logic.
Context {T : Type} `{EqDecision T}.
Implicit Types (h : nodes T) (xs ys zs : list (loc * T)) (p q : loc) (v : T).

(** ** Segments *)

(** The pointer to the first node of [xs], [q] where there is none. *)
Definition hd_loc q xs : loc := match xs with [] => q | (p, _) :: _ => p end.

Fixpoint seg h xs q : Prop :=
  match xs with
  | [] => True
  | (p, v) :: xs => p ≠ nil ∧ h !! p = Some (MkNode v (hd_loc q xs)) ∧ seg h xs q
  end.

Definition keeps (F : list loc) h h' : Prop :=
  ∀ p n, h !! p = Some n → p ∉ F → h' !! p = Some n.

Lemma frame_refl F h : keeps F h h.
Proof. by intros ?. Qed.

Lemma frame_trans F h h1 h' : keeps F h h1 → keeps F h1 h' → keeps F h h'.
Proof. unfold keeps. eauto. Qed.

Lemma frame_weaken F G h h' : F ⊆ G → keeps F h h' → keeps G h h'.
Proof. unfold keeps. set_solver. Qed.

Lemma keeps_insert F h p n : p ∈ F ∨ h !! p = None → keeps F h (<[p := n]> h).
Proof.
  intros Hp p' n' Hl HF. rewrite lookup_insert_ne; [done|]. intros <-. naive_solver.
Qed.

Lemma keeps_fresh p F h h1 h' :
  h !! p = None → keeps F h h1 → keeps (p :: F) h1 h' → keeps F h h'.
Proof.
  intros Hp H1 H2 p' n Hl HF. apply H2; [by apply H1|]. apply not_elem_of_cons.
  split; [congruence|done].
Qed.

Lemma hd_app q xs ys : hd_loc q (xs ++ ys) = hd_loc (hd_loc q ys) xs.
Proof. by destruct xs as [|[]]. Qed.

Lemma seg_app h xs ys q : seg h (xs ++ ys) q ↔ seg h xs (hd_loc q ys) ∧ seg h ys q.
Proof.
  induction xs as [|[p v] xs IH]; cbn; [tauto|]. rewrite IH, hd_app. tauto.
Qed.

Lemma seg_keeps F h h' xs q : keeps F h h' → (∀ p, p ∈ xs.*1 → p ∉ F) → seg h xs q → seg h' xs q.
Proof.
  intros Hk. induction xs as [|[p v] xs IH]; cbn; [done|]. intros HF (? & ? & ?).
  split_and!; [done| |]; [|apply IH; [|done]]; [apply Hk; [done|]|]; set_solver.
Qed.

Lemma seg_insert h xs q p n : p ∉ xs.*1 → seg h xs q → seg (<[p := n]> h) xs q.
Proof.
  intros Hp. induction xs as [|[p' v] xs IH]; cbn in *; [done|]. intros (? & ? & ?).
  rewrite lookup_insert_ne by set_solver. set_solver.
Qed.

Lemma seg_lookup h xs q p : seg h xs q → p ∈ xs.*1 → is_Some (h !! p) ∧ p ≠ nil.
Proof.
  induction xs as [|[p' v] xs IH]; cbn; [set_solver|]. intros (? & E & ?) [->|]%elem_of_cons;
    [rewrite E; eauto|auto].
Qed.

Lemma hd_nil h xs : seg h xs nil → hd_loc nil xs = nil → xs = [].
Proof. destruct xs as [|[p v] xs]; cbn; [done|]. naive_solver. Qed.

Lemma hd_eqb h xs : seg h xs nil → N.eqb (hd_loc nil xs) nil = bool_decide (xs = []).
Proof.
  intros H. destruct xs as [|[p v] xs]; [done|]. destruct H as [Hp _].
  rewrite bool_decide_eq_false_2 by done. by apply N.eqb_neq.
Qed.

(** The loops' fuel: a chain has no more nodes than the heap. *)
Lemma seg_fuel h xs q : seg h xs q → NoDup xs.*1 → (length xs < enough h)%nat.
Proof.
  intros Hs Hd. unfold enough. rewrite <- (size_dom h (D := gset loc)), <- (length_fmap fst).
  rewrite <- (size_list_to_set (C := gset loc)) by done.
  apply Nat.lt_succ_r, subseteq_size. intros p Hp%elem_of_list_to_set.
  apply elem_of_dom. by eapply seg_lookup.
Qed.

(** The first node of a chain is where it is dereferenced. *)
Lemma deref_hd h p v xs q : seg h ((p, v) :: xs) q →
  deref p h = Returns (MkNode v (hd_loc q xs), h).
Proof. intros (_ & E & _). unfold deref. by rewrite E. Qed.

Lemma set_next_hd h p q v q' : h !! p = Some (MkNode v q) →
  set_next p q' h = Returns (tt, <[p := MkNode v q']> h).
Proof. intros E. unfold set_next. by rewrite E. Qed.

Lemma new_node_fresh v h : ∃ p, p ≠ nil ∧ h !! p = None ∧
  new_node v h = Returns (p, <[p := MkNode v nil]> h).
Proof.
  exists (fresh ({[nil]} ∪ dom h : gset loc)).
  pose proof (is_fresh ({[nil]} ∪ dom h : gset loc)) as H.
  rewrite elem_of_union, elem_of_singleton, elem_of_dom in H.
  split_and!; [tauto| |done]. apply eq_None_not_Some. tauto.
Qed.

(** ** Whole lists *)

Definition last_loc xs : loc := default nil (last xs.*1).

Record rep h (l : LinkedList) xs : Prop := MkRep {
  r_head : Head l = hd_loc nil xs;
  r_seg : seg h xs nil;
  r_nodup : NoDup xs.*1;
  r_tail : Tail l = last_loc xs;
  r_len : len l = Z.of_nat (length xs) }.

Lemma last_loc_snoc xs p v : last_loc (xs ++ [(p, v)]) = p.
Proof. unfold last_loc. rewrite fmap_app. cbn. by rewrite last_snoc. Qed.

Lemma last_loc_cons_snoc x xs p v : last_loc (x :: xs ++ [(p, v)]) = p.
Proof. rewrite app_comm_cons. apply last_loc_snoc. Qed.

Lemma last_loc_app xs ys : ys ≠ [] → last_loc (xs ++ ys) = last_loc ys.
Proof.
  intros H. unfold last_loc. rewrite fmap_app, last_app.
  destruct (last ys.*1) eqn:E; [done|]. by apply last_None, fmap_nil_inv in E.
Qed.

Lemma last_loc_cons x xs : xs ≠ [] → last_loc (x :: xs) = last_loc xs.
Proof. apply (last_loc_app [x]). Qed.

Lemma rep_keeps F h h' l xs : keeps F h h' → (∀ p, p ∈ xs.*1 → p ∉ F) → rep h l xs → rep h' l xs.
Proof. intros Hk HF [? ? ? ? ?]. split; try done. by eapply seg_keeps. Qed.

Lemma rep_empty h : rep h empty_list [].
Proof. split; try done. constructor. Qed.

Lemma rep_head h l xs : rep h l xs → N.eqb (Head l) nil = bool_decide (xs = []).
Proof. intros [-> ? ? ? ?]. by eapply hd_eqb. Qed.
End logic.
#[export] Hint Resolve frame_refl : core.
