(* ===== verification/LinkedListOps.v ===== *)
(** * What each operation of a linked list does *)
From Stdlib Require Import ZArith Lia Sorting.Sorted.
From stdpp Require Import base gmap strings list fin_maps.
From S2P Require Import Prelude Linker LinkedList LinkedListLogic.

Section ops.
Context {T : Type} `{EqDecision T}.
Implicit Types (h : nodes T) (xs ys zs A B : list (loc * T)) (p q : loc) (v w : T).

(** A node that was just made is in no list. *)
Lemma fresh_notin h xs q p : seg h xs q → h !! p = None → p ∉ xs.*1.
Proof. intros Hs E Hp. eapply seg_lookup in Hp as [[? ?] _]; [|done]. congruence. Qed.

Lemma Insert_snoc h l xs v : rep h l xs →
  ∃ p h' l', Insert l v h = Returns (l', h') ∧ rep h' l' (xs ++ [(p, v)]) ∧
    p ≠ nil ∧ h !! p = None ∧ keeps xs.*1 h h'.
Proof.
  intros Hl. pose proof (rep_head _ _ _ Hl) as Hhd. destruct Hl as [Hh Hs Hd Ht Hn].
  destruct (new_node_fresh v h) as (p & Hp & Hf & E). unfold Insert. st. rewrite E. st. rewrite Hhd.
  pose proof (fresh_notin _ _ _ _ Hs Hf) as Hin.
  destruct xs as [|[a w] xs _] using rev_ind.
  - rewrite bool_decide_eq_true_2 by done. st. eexists p, _, _. split_and!; [done| |done..|].
    + cbn in Hn. split; cbn; rewrite ?lookup_insert_eq; eauto using NoDup_singleton. lia.
    + apply keeps_insert. by right.
  - rewrite bool_decide_eq_false_2 by (by destruct xs). rewrite last_loc_snoc in Ht.
    apply seg_app in Hs as [Hs1 (Ha & Hla & _)]. cbn [hd_loc] in *.
    rewrite fmap_app in Hin, Hd. cbn in Hin, Hd.
    assert (a ≠ p) by set_solver. st.
    rewrite Ht, (set_next_hd _ a nil w) by (by rewrite lookup_insert_ne). st.
    eexists p, _, _. split_and!; [done| |done..|].
    + split; cbn.
      * by rewrite Hh, !hd_app.
      * apply NoDup_app in Hd as (_ & Hd & _).
        rewrite <- app_assoc. apply seg_app. split; cbn.
        -- do 2 (apply seg_insert; [set_solver|]). done.
        -- rewrite lookup_insert_eq, lookup_insert_ne, lookup_insert_eq by done. done.
      * rewrite !fmap_app. cbn. rewrite NoDup_app. split_and!; [done|set_solver|].
        apply NoDup_singleton.
      * by rewrite last_loc_snoc.
      * rewrite Hn, !length_app. cbn. lia.
    + eapply frame_trans; apply keeps_insert; [by right|left]. rewrite fmap_app. set_solver.
Qed.

(** ** The loops that look for a node *)

Lemma InsertBefore_loop_ok A prev u p v node w B fuel h :
  seg h ((prev, u) :: A ++ (node, w) :: B) nil → NoDup (prev :: A.*1 ++ node :: B.*1) →
  h !! p = Some (MkNode v nil) → p ≠ nil → p ∉ prev :: A.*1 ++ node :: B.*1 →
  (length A < fuel)%nat →
  ∃ h', InsertBefore_loop fuel node p prev h = Returns (None, h') ∧
    seg h' ((prev, u) :: A ++ (p, v) :: (node, w) :: B) nil ∧
    keeps (p :: prev :: A.*1) h h'.
Proof.
  revert prev u fuel. induction A as [|[a x] A IH]; intros prev u fuel Hs Hd Hp Hpn Hin Hf;
    (destruct fuel as [|fuel]; [cbn in Hf; lia|]); cbn [InsertBefore_loop]; st;
    rewrite (deref_hd _ _ _ _ _ Hs); cbn [Next].
  - cbn in Hs |- *. destruct Hs as (Hprev & Eprev & Hnode & Enode & HB).
    rewrite (proj2 (N.eqb_neq node nil)) by done. rewrite N.eqb_refl. st.
    rewrite (set_next_hd _ p nil v) by done. st.
    rewrite (set_next_hd _ prev node u) by (rewrite lookup_insert_ne by set_solver; done).
    eexists. split; [done|]. cbn in *. split.
    + assert (p ≠ prev ∧ p ≠ node ∧ prev ≠ node ∧ prev ∉ B.*1 ∧ p ∉ B.*1) as (?&?&?&?&?).
      { apply NoDup_cons in Hd as [? _]. set_solver. }
      split_and!; try done; try (by simplify_map_eq).
      do 2 (apply seg_insert; [done|]). done.
    + eapply frame_trans; apply keeps_insert; left; set_solver.
  - destruct Hs as (Hprev & Eprev & Hs). cbn in Hs. pose proof Hs as (Ha & _ & _).
    cbn in Hin, Hd, Hf. cbn [app hd_loc fmap list_fmap fst].
    rewrite (proj2 (N.eqb_neq a nil)) by done.
    rewrite (proj2 (N.eqb_neq a node)) by (intros ->; apply NoDup_cons in Hd as [_ Hd];
      apply NoDup_cons in Hd as [Hd _]; set_solver).
    apply NoDup_cons in Hd as [Hn Hd].
    destruct (IH a x fuel Hs Hd Hp Hpn ltac:(set_solver) ltac:(lia)) as (h' & E & Hs' & Hk).
    exists h'. split; [exact E|]. split.
    + split; [done|]. split; [|exact Hs']. apply Hk; [done|]. set_solver.
    + eapply frame_weaken; [|exact Hk]. set_solver.
Qed.

Lemma InsertBefore_loop_miss xs prev u node p fuel h :
  seg h ((prev, u) :: xs) nil → node ∉ xs.*1 → (length xs < fuel)%nat →
  InsertBefore_loop fuel node p prev h = Returns (Some ErrNodeNotFound, h).
Proof.
  revert prev u fuel. induction xs as [|[a x] xs IH]; intros prev u fuel Hs Hin Hf;
    (destruct fuel as [|fuel]; [cbn in Hf; lia|]); cbn [InsertBefore_loop]; st;
    rewrite (deref_hd _ _ _ _ _ Hs); cbn [Next]; [done|].
  destruct Hs as (_ & _ & Hs). pose proof Hs as (Ha & _ & _). cbn [hd_loc] in *. cbn in Hin, Hf.
  rewrite (proj2 (N.eqb_neq a nil)), (proj2 (N.eqb_neq a node)) by set_solver.
  eapply IH; [done|set_solver|lia].
Qed.

Lemma Remove_loop_ok A prev u node v B fuel h l :
  seg h ((prev, u) :: A ++ (node, v) :: B) nil → NoDup (prev :: A.*1 ++ node :: B.*1) →
  v ∉ A.*2 → Tail l = last_loc (A ++ (node, v) :: B) → (length A < fuel)%nat →
  ∃ h', Remove_loop fuel l v prev h =
      Returns ((MkList (Head l) (last_loc ((prev, u) :: A ++ B)) (len l - 1), None), h') ∧
    seg h' ((prev, u) :: A ++ B) nil ∧ keeps (prev :: A.*1) h h'.
Proof.
  revert prev u fuel. induction A as [|[a x] A IH]; intros prev u fuel Hs Hd Hv Ht Hf;
    (destruct fuel as [|fuel]; [cbn in Hf; lia|]); cbn [Remove_loop]; st;
    rewrite (deref_hd _ _ _ _ _ Hs); cbn [Next].
  - destruct Hs as (Hprev & Eprev & Hs). cbn in Hs |- *. pose proof Hs as (Hnode & Enode & HB).
    rewrite (proj2 (N.eqb_neq node nil)) by done. st.
    rewrite (deref_hd _ _ _ _ _ Hs). cbn [Value Next].
    rewrite bool_decide_eq_true_2 by done. st.
    rewrite (set_next_hd _ prev node u) by done. st.
    cbn in Hd. apply NoDup_cons in Hd as [Hd1 [Hd2 Hd3]%NoDup_cons].
    eexists. split; [|split].
    + f_equal. f_equal. f_equal. f_equal. rewrite Ht.
      destruct B as [|b B _] using rev_ind; [by rewrite N.eqb_refl|]. destruct b as [b y].
      cbn [app]. rewrite !last_loc_cons_snoc.
      rewrite (proj2 (N.eqb_neq node b)); [done|]. rewrite fmap_app in Hd2. set_solver.
    + cbn. rewrite lookup_insert_eq. split_and!; [done..|]. apply seg_insert; set_solver.
    + apply keeps_insert. left. set_solver.
  - destruct Hs as (Hprev & Eprev & Hs). cbn in Hs. pose proof Hs as (Ha & Ea & _).
    cbn in Hv, Hd, Hf. cbn [app hd_loc fmap list_fmap fst].
    rewrite (proj2 (N.eqb_neq a nil)) by done. st. rewrite (deref_hd _ _ _ _ _ Hs). cbn [Value].
    rewrite bool_decide_eq_false_2 by set_solver.
    apply NoDup_cons in Hd as [Hn Hd].
    assert (Ht' : Tail l = last_loc (A ++ (node, v) :: B))
      by (rewrite Ht; by apply (last_loc_app [(a, x)]); destruct A).
    destruct (IH a x fuel Hs Hd ltac:(set_solver) Ht' ltac:(lia)) as (h' & E & Hs' & Hk).
    exists h'. split; [exact E|]. split.
    + split; [done|]. split; [|exact Hs']. apply Hk; [done|]. set_solver.
    + eapply frame_weaken; [|exact Hk]. set_solver.
Qed.

Lemma Remove_loop_miss xs prev u v fuel h l :
  seg h ((prev, u) :: xs) nil → v ∉ xs.*2 → (length xs < fuel)%nat →
  Remove_loop fuel l v prev h = Returns ((l, Some ErrValueNotFound), h).
Proof.
  revert prev u fuel. induction xs as [|[a x] xs IH]; intros prev u fuel Hs Hin Hf;
    (destruct fuel as [|fuel]; [cbn in Hf; lia|]); cbn [Remove_loop]; st;
    rewrite (deref_hd _ _ _ _ _ Hs); cbn [Next]; [done|].
  destruct Hs as (_ & _ & Hs). pose proof Hs as (Ha & _ & _). cbn [hd_loc] in *. cbn in Hin, Hf.
  rewrite (proj2 (N.eqb_neq a nil)) by done. st. rewrite (deref_hd _ _ _ _ _ Hs). cbn [Value].
  rewrite bool_decide_eq_false_2 by set_solver. eapply IH; [done|set_solver|lia].
Qed.

Lemma RemoveTail_loop_ok A prev u node v fuel h l :
  seg h ((prev, u) :: A ++ [(node, v)]) nil → NoDup (prev :: A.*1 ++ [node]) →
  Tail l = node → (length A < fuel)%nat →
  ∃ h', RemoveTail_loop fuel l prev h =
      Returns ((MkList (Head l) (last_loc ((prev, u) :: A)) (len l - 1), None), h') ∧
    seg h' ((prev, u) :: A) nil ∧ keeps (prev :: A.*1) h h'.
Proof.
  revert prev u fuel. induction A as [|[a x] A IH]; intros prev u fuel Hs Hd Ht Hf;
    (destruct fuel as [|fuel]; [cbn in Hf; lia|]); cbn [RemoveTail_loop]; st;
    rewrite (deref_hd _ _ _ _ _ Hs); cbn [Next].
  - destruct Hs as (Hprev & Eprev & Hs). cbn in Hs |- *. pose proof Hs as (Hnode & _ & _).
    rewrite (proj2 (N.eqb_neq node nil)) by done. rewrite Ht, N.eqb_refl. st.
    rewrite (set_next_hd _ prev node u) by done. st.
    eexists. split; [done|]. split.
    + cbn. by rewrite lookup_insert_eq.
    + apply keeps_insert. left. set_solver.
  - destruct Hs as (Hprev & Eprev & Hs). cbn in Hs. pose proof Hs as (Ha & _ & _).
    cbn in Hd, Hf. cbn [app hd_loc fmap list_fmap fst].
    apply NoDup_cons in Hd as [Hn Hd].
    rewrite (proj2 (N.eqb_neq a nil)) by done.
    rewrite (proj2 (N.eqb_neq a (Tail l))) by (rewrite Ht; intros ->;
      apply NoDup_cons in Hd as [Hd _]; set_solver).
    destruct (IH a x fuel Hs Hd Ht ltac:(lia)) as (h' & E & Hs' & Hk).
    exists h'. split; [exact E|]. split.
    + split; [done|]. split; [|exact Hs']. apply Hk; [done|]. set_solver.
    + eapply frame_weaken; [|exact Hk]. set_solver.
Qed.

Lemma Contains_loop_ok xs v fuel h : seg h xs nil → (length xs < fuel)%nat →
  Contains_loop fuel v (hd_loc nil xs) h = Returns (bool_decide (v ∈ xs.*2), h).
Proof.
  revert fuel. induction xs as [|[a x] xs IH]; intros fuel Hs Hf;
    (destruct fuel as [|fuel]; [cbn in Hf; lia|]); cbn [Contains_loop]; [done|].
  pose proof Hs as (Ha & _ & Hs'). cbn [hd_loc] in *. cbn in Hf.
  rewrite (proj2 (N.eqb_neq a nil)) by done. st. rewrite (deref_hd _ _ _ _ _ Hs). cbn [Value].
  destruct (decide (x = v)) as [->|E].
  - rewrite (bool_decide_eq_true_2 (v = v)) by done. st.
    rewrite bool_decide_eq_true_2; [done|]. left.
  - rewrite (bool_decide_eq_false_2 (x = v)) by done. cbn [Next]. rewrite IH by (done || lia). do 2 f_equal. apply bool_decide_ext.
    cbn. rewrite elem_of_cons. naive_solver.
Qed.

(** ** The operations *)

Lemma InsertBefore_ok h l A node w B v : rep h l (A ++ (node, w) :: B) →
  ∃ p h' l', InsertBefore l node v h = Returns ((l', None), h') ∧
    rep h' l' (A ++ (p, v) :: (node, w) :: B) ∧
    p ≠ nil ∧ h !! p = None ∧ keeps (A ++ (node, w) :: B).*1 h h'.
Proof.
  intros [Hh Hs Hd Ht Hn]. destruct (new_node_fresh v h) as (p & Hp & Hf & E).
  unfold InsertBefore. st. rewrite E. st. pose proof (fresh_notin _ _ _ _ Hs Hf) as Hin.
  rewrite fmap_app in Hin, Hd. cbn in Hin, Hd. destruct A as [|[a x] A].
  - cbn in Hh. rewrite Hh, N.eqb_refl. st. rewrite (set_next_hd _ p nil v)
      by apply lookup_insert_eq. st.
    eexists p, _, _. split; [done|]. cbn in Hin, Hd. split; [split; cbn -[seg]|].
    + done.
    + split; [done|]. split; [cbn; by rewrite !lookup_insert_eq|].
      do 2 (apply seg_insert; [done|]). done.
    + by apply NoDup_cons.
    + rewrite Ht. symmetry. by apply (last_loc_app [(p, v)] ((node, w) :: B)).
    + cbn in Hn. lia.
    + split_and!; [done..|]. eapply (keeps_fresh p); [done|apply keeps_insert; by right|].
      apply keeps_insert. left. set_solver.
  - cbn in Hh, Hin, Hd. assert (node ≠ a) as Hna by (apply NoDup_cons in Hd as [? _]; set_solver).
    rewrite Hh, (proj2 (N.eqb_neq node a)) by done. st.
    destruct (InsertBefore_loop_ok A a x p v node w B (enough (<[p:=MkNode v nil]> h))
      (<[p:=MkNode v nil]> h)) as (h' & E' & Hs' & Hk).
    { apply (seg_insert _ ((a, x) :: A ++ (node, w) :: B)); [|done].
      cbn. rewrite fmap_app. done. }
    { done. }
    { apply lookup_insert_eq. }
    { done. }
    { done. }
    { pose proof (seg_fuel (<[p:=MkNode v nil]> h) ((a, x) :: A ++ (node, w) :: B) nil) as Hx.
      cbn [length app fmap list_fmap fst] in Hx. rewrite fmap_app, length_app in Hx.
      enough (S (length A + S (length B)) < enough (<[p:=MkNode v nil]> h))%nat by lia.
      apply Hx; [|done]. apply (seg_insert _ ((a, x) :: A ++ (node, w) :: B)); [|done].
      cbn. rewrite fmap_app. done. }
    rewrite E'. st. eexists p, h', _. split; [done|]. split; [split; cbn -[seg]|].
    + done.
    + exact Hs'.
    + rewrite fmap_app. cbn. apply NoDup_cons in Hd as [Ha Hd].
      apply NoDup_cons. split; [set_solver|]. apply NoDup_app in Hd as (? & ? & ?).
      apply NoDup_app. split_and!; [done|set_solver|]. apply NoDup_cons. set_solver.
    + rewrite Ht. cbn [app]. rewrite !app_comm_cons, !last_loc_app by done.
      symmetry. by apply (last_loc_app [(p, v)] ((node, w) :: B)).
    + rewrite Hn. cbn. rewrite !length_app. cbn. lia.
    + split_and!; [done..|]. eapply (keeps_fresh p); [done|apply keeps_insert; by right|].
      eapply frame_weaken; [|exact Hk]. rewrite fmap_app. set_solver.
Qed.

Lemma InsertBefore_miss h l xs node v : rep h l xs → xs ≠ [] → node ∉ xs.*1 →
  ∃ p h', InsertBefore l node v h = Returns ((l, Some ErrNodeNotFound), h') ∧
    rep h' l xs ∧ h !! p = None ∧ keeps [] h h'.
Proof.
  intros Hl Hne Hin. destruct (new_node_fresh v h) as (p & Hp & Hf & E).
  unfold InsertBefore. st. rewrite E. st.
  assert (Hk : keeps [] h (<[p:=MkNode v nil]> h)) by (apply keeps_insert; by right).
  assert (Hl' : rep (<[p:=MkNode v nil]> h) l xs) by (eapply rep_keeps; [done|set_solver|done]).
  pose proof (seg_fuel _ _ _ (r_seg _ _ _ Hl') (r_nodup _ _ _ Hl')) as Hfuel.
  destruct xs as [|[a x] xs]; [done|]. rewrite (r_head _ _ _ Hl'). cbn in Hin. cbn [hd_loc].
  rewrite (proj2 (N.eqb_neq node a)) by set_solver. st.
  rewrite (InsertBefore_loop_miss xs a x) by
    (first [exact (r_seg _ _ _ Hl') | cbn in Hfuel; lia | set_solver]).
  st. eauto 10.
Qed.

(** The first of the nodes that have the value. *)
Lemma first_value (v : T) xs : v ∈ xs.*2 → ∃ A p B, xs = A ++ (p, v) :: B ∧ v ∉ A.*2.
Proof.
  induction xs as [|[a x] xs IH]; cbn; [set_solver|]. destruct (decide (x = v)) as [->|].
  - intros _. exists [], a, xs. set_solver.
  - intros [|Hv]%elem_of_cons; [congruence|]. destruct (IH Hv) as (A & p & B & -> & ?).
    exists ((a, x) :: A), p, B. split; [done|]. cbn. set_solver.
Qed.

Lemma NoDup_drop_middle A p v B : NoDup (A ++ (p, v) :: B).*1 → NoDup (A ++ B).*1.
Proof.
  rewrite !fmap_app. cbn. rewrite !NoDup_app, NoDup_cons. set_solver.
Qed.

Lemma Remove_ok h l A p v B : rep h l (A ++ (p, v) :: B) → v ∉ A.*2 →
  ∃ h' l', Remove l v h = Returns ((l', None), h') ∧ rep h' l' (A ++ B) ∧
    keeps (A ++ (p, v) :: B).*1 h h'.
Proof.
  intros Hl Hv. pose proof (rep_head _ _ _ Hl) as Hhd.
  pose proof (seg_fuel _ _ _ (r_seg _ _ _ Hl) (r_nodup _ _ _ Hl)) as Hfuel.
  destruct Hl as [Hh Hs Hd Ht Hn]. pose proof (NoDup_drop_middle _ _ _ _ Hd) as Hd'.
  unfold Remove. rewrite Hhd, bool_decide_eq_false_2 by (by destruct A). st.
  destruct A as [|[a x] A]; cbn [app hd_loc] in *; rewrite Hh, (deref_hd _ _ _ _ _ Hs); cbn [Value Next].
  - rewrite bool_decide_eq_true_2 by done. destruct Hs as (_ & _ & Hs).
    apply NoDup_cons in Hd as [_ Hd]. cbn in Hn.
    destruct (Z.eqb_spec (len l) 1) as [E|E]; st; eexists _, _; (split; [done|]; split; [|done]).
    + destruct B; cbn in Hn; [|lia]. by apply rep_empty.
    + split; try done; cbn; [|lia]. rewrite Ht. apply (last_loc_app [(p, v)]). intros ->.
      cbn in Hn. lia.
  - cbn in Hv. rewrite bool_decide_eq_false_2 by set_solver. st.
    destruct (Remove_loop_ok A a x p v B (enough h) h l) as (h' & E & Hs' & Hk); try done.
    { by rewrite fmap_cons, fmap_app in Hd. }
    { set_solver. }
    { rewrite Ht. apply (last_loc_app [(a, x)]). by destruct A. }
    { cbn in Hfuel. rewrite length_app in Hfuel. lia. }
    rewrite Hh in E. rewrite E. eexists _, _. split; [done|]. split; [split|]; try done.
    + cbn [len]. rewrite Hn. cbn. rewrite !length_app. cbn. lia.
    + eapply frame_weaken; [|exact Hk]. cbn. rewrite fmap_app. set_solver.
Qed.

Lemma Remove_miss h l xs v : rep h l xs → v ∉ xs.*2 →
  Remove l v h = Returns ((l, Some ErrValueNotFound), h).
Proof.
  intros Hl Hv. unfold Remove. rewrite (rep_head _ _ _ Hl).
  pose proof (seg_fuel _ _ _ (r_seg _ _ _ Hl) (r_nodup _ _ _ Hl)) as Hfuel.
  destruct Hl as [Hh Hs Hd Ht Hn]. destruct xs as [|[a x] xs]; [done|].
  rewrite bool_decide_eq_false_2 by done. st. rewrite Hh. cbn [hd_loc].
  rewrite (deref_hd _ _ _ _ _ Hs). cbn [Value]. cbn in Hv.
  rewrite bool_decide_eq_false_2 by set_solver. st.
  cbn in Hfuel. rewrite (Remove_loop_miss xs a x); (done || set_solver || lia).
Qed.

Lemma RemoveTail_ok h l A p v : rep h l (A ++ [(p, v)]) →
  ∃ h' l', RemoveTail l h = Returns ((l', None), h') ∧ rep h' l' A ∧
    keeps (A ++ [(p, v)]).*1 h h'.
Proof.
  intros Hl. pose proof (rep_head _ _ _ Hl) as Hhd.
  pose proof (seg_fuel _ _ _ (r_seg _ _ _ Hl) (r_nodup _ _ _ Hl)) as Hfuel.
  destruct Hl as [Hh Hs Hd Ht Hn]. rewrite last_loc_snoc in Ht.
  unfold RemoveTail. rewrite Hhd, bool_decide_eq_false_2 by (by destruct A).
  rewrite length_app in Hn. cbn in Hn. destruct (Z.eqb_spec (len l) 1) as [E|E]; st.
  - destruct A; cbn in Hn; [|lia]. eexists _, _. split; [done|]. split; [apply rep_empty|done].
  - destruct A as [|[a x] A]; cbn in Hn; [lia|]. rewrite Hh. cbn [app hd_loc] in *.
    destruct (RemoveTail_loop_ok A a x p v (enough h) h l) as (h' & E' & Hs' & Hk); try done.
    { by rewrite fmap_cons, fmap_app in Hd. }
    { cbn in Hfuel. rewrite length_app in Hfuel. lia. }
    rewrite E', Hh. eexists _, _. split; [done|]. split; [split|]; try done.
    + rewrite app_comm_cons, fmap_app in Hd. by apply NoDup_app in Hd as (? & _).
    + cbn. lia.
    + eapply frame_weaken; [|exact Hk]. cbn. rewrite fmap_app. set_solver.
Qed.

Lemma Contains_ok h l xs v : rep h l xs →
  Contains l v h = Returns (bool_decide (v ∈ xs.*2), h).
Proof.
  intros Hl. unfold Contains. rewrite (rep_head _ _ _ Hl).
  pose proof (seg_fuel _ _ _ (r_seg _ _ _ Hl) (r_nodup _ _ _ Hl)) as Hfuel.
  case_bool_decide as E; st; [by subst|]. rewrite (r_head _ _ _ Hl).
  by apply Contains_loop_ok; [apply (r_seg _ _ _ Hl)|].
Qed.

Lemma New_loop_ok h l xs items : rep h l xs →
  ∃ h' l' ys, New_loop l items h = Returns (l', h') ∧ rep h' l' (xs ++ ys) ∧
    ys.*2 = items ∧ keeps xs.*1 h h' ∧ (∀ p, p ∈ ys.*1 → h !! p = None).
Proof.
  revert h l xs. induction items as [|v items IH]; intros h l xs Hl.
  - exists h, l, []. rewrite app_nil_r. split_and!; try done. intros p. set_solver.
  - destruct (Insert_snoc h l xs v Hl) as (p & h1 & l1 & E & Hl1 & _ & Hp & Hk1).
    destruct (IH _ _ _ Hl1) as (h2 & l2 & ys & E2 & Hl2 & <- & Hk2 & Hnew).
    exists h2, l2, ((p, v) :: ys). cbn [New_loop]. st. rewrite E, E2.
    rewrite <- app_assoc in Hl2. do 3 (split; [done|]). split.
    + eapply (keeps_fresh p); [done|exact Hk1|]. eapply frame_weaken; [|exact Hk2].
      rewrite fmap_app. set_solver.
    + intros p' [->|Hin]%elem_of_cons; [done|]. apply Hnew in Hin as Hp'.
      destruct (h !! p') as [n|] eqn:El; [exfalso|done].
      destruct (decide (p' ∈ xs.*1)) as [Hx|Hx].
      * destruct (seg_lookup h1 _ _ p' (r_seg _ _ _ Hl1)) as [[] _]; [|congruence].
        rewrite fmap_app. set_solver.
      * rewrite (Hk1 _ _ El Hx) in Hp'. done.
Qed.

(** What [String] prints. *)
Fixpoint arrows (show : T → string) (vs : list T) : string :=
  match vs with
  | [] => ""
  | [v] => show v
  | v :: vs => show v +:+ " -> " +:+ arrows show vs
  end.
End ops.
