(* ===== verification/LinkedListSort.v ===== *)
(** * The two sorts of linked lists *)
From Stdlib Require Import ZArith Lia Sorting.Sorted.
From stdpp Require Import base gmap strings list fin_maps.
From S2P Require Import Prelude Linker LinkedList LinkedListLogic LinkedListOps.

Section sort.
Context {T : Type} (less : T → T → bool) (zero : T).
Hypothesis less_asym : ∀ a b, less a b = true → less b a = false.
Hypothesis less_neg_trans : ∀ a b c, less a b = false → less b c = false → less a c = false.
Implicit Types (h : nodes T) (xs ys zs A B L R C M : list (loc * T)) (p q : loc) (v w : T).

Definition in_order (a b : loc * T) : Prop := less b.2 a.2 = false.
Definition ordered xs : Prop := StronglySorted in_order xs.

(** ** Merging lists *)

Fixpoint lmerge xs ys : list (loc * T) :=
  (fix go ys :=
     match xs, ys with
     | [], _ => ys
     | _, [] => xs
     | x :: xs', y :: ys' => if less x.2 y.2 then x :: lmerge xs' ys else y :: go ys'
     end) ys.

Lemma lmerge_nil_r xs : lmerge xs [] = xs.
Proof. by destruct xs. Qed.

Lemma lmerge_cons x y xs ys : lmerge (x :: xs) (y :: ys) =
  if less x.2 y.2 then x :: lmerge xs (y :: ys) else y :: lmerge (x :: xs) ys.
Proof. done. Qed.

Lemma lmerge_perm xs ys : lmerge xs ys ≡ₚ xs ++ ys.
Proof.
  revert ys. induction xs as [|x xs IHx]; intros ys; [by destruct ys|].
  induction ys as [|y ys IHy]; [by rewrite app_nil_r|]. rewrite lmerge_cons.
  destruct (less x.2 y.2); [by rewrite IHx|]. rewrite IHy. apply (Permutation_middle (x :: xs)).
Qed.

Lemma lmerge_ordered xs ys : ordered xs → ordered ys → ordered (lmerge xs ys).
Proof.
  revert ys. induction xs as [|x xs IHx]; intros ys Hx Hy; [by destruct ys|].
  induction ys as [|y ys IHy]; [done|]. rewrite lmerge_cons.
  apply StronglySorted_inv in Hx as Hx'. destruct Hx' as [Hx1 Hx2].
  apply StronglySorted_inv in Hy as Hy'. destruct Hy' as [Hy1 Hy2].
  destruct (less x.2 y.2) eqn:E; constructor.
  - by apply IHx.
  - rewrite lmerge_perm. apply less_asym in E. rewrite Forall_app, Forall_cons.
    split_and!; [done|done|]. eapply Forall_impl; [exact Hy2|]. intros z Hz.
    exact (less_neg_trans _ _ _ Hz E).
  - by apply IHy.
  - rewrite lmerge_perm. rewrite Forall_app, Forall_cons.
    split_and!; [done| |done]. eapply Forall_impl; [exact Hx2|]. intros z Hz.
    exact (less_neg_trans _ _ _ Hz E).
Qed.

(** ** Merging nodes *)

Lemma nodes_fuel h (ps : list loc) : NoDup ps → (∀ p, p ∈ ps → is_Some (h !! p)) →
  (length ps < enough h)%nat.
Proof.
  intros Hd Hin. unfold enough. rewrite <- (size_dom h (D := gset loc)).
  rewrite <- (size_list_to_set (C := gset loc)) by done.
  apply Nat.lt_succ_r, subseteq_size. intros p Hp%elem_of_list_to_set.
  apply elem_of_dom. auto.
Qed.

Lemma merge_loop_ok fuel : ∀ xs ys c vc q h,
  h !! c = Some (MkNode vc q) → seg h xs nil → seg h ys nil →
  NoDup (c :: xs.*1 ++ ys.*1) → (xs = [] → ys = [] → q = nil) →
  (length xs + length ys < fuel)%nat →
  ∃ h', merge_loop less fuel c (hd_loc nil xs) (hd_loc nil ys) h = Returns (tt, h') ∧
    h' !! c = Some (MkNode vc (hd_loc nil (lmerge xs ys))) ∧
    seg h' (lmerge xs ys) nil ∧ keeps (c :: xs.*1 ++ ys.*1) h h'.
Proof.
  induction fuel as [|fuel IH]; intros xs ys c vc q h Hc Hx Hy Hd Hq Hf; [lia|].
  cbn [merge_loop]. rewrite (hd_eqb h xs), (hd_eqb h ys) by done.
  apply NoDup_cons in Hd as [Hcn Hd].
  destruct xs as [|[a v] xs]; [|destruct ys as [|[b w] ys]].
  - rewrite (bool_decide_eq_true_2 ([] = [])) by done. cbn [negb andb]. st.
    replace (lmerge [] ys) with ys by (by destruct ys). case_bool_decide as E; st.
    + subst ys. rewrite Hq in Hc by done. by exists h.
    + rewrite (set_next_hd h c q vc) by done. eexists. split; [done|].
      rewrite lookup_insert_eq. split; [done|]. split; [apply seg_insert; [set_solver|done]|].
      apply keeps_insert. left. set_solver.
  - rewrite (bool_decide_eq_false_2 (_ :: _ = [])), (bool_decide_eq_true_2 ([] = [])) by done.
    cbn [negb andb]. st. cbn [hd_loc]. rewrite (set_next_hd h c q vc) by done. st.
    eexists. split; [done|]. rewrite lookup_insert_eq. split; [done|].
    split; [apply seg_insert; [set_solver|done]|]. apply keeps_insert. left. set_solver.
  - rewrite !(bool_decide_eq_false_2 (_ :: _ = [])) by done. cbn [negb andb hd_loc]. st.
    rewrite (deref_hd h a v xs nil Hx). st. rewrite (deref_hd h b w ys nil Hy). cbn [Value Next].
    rewrite lmerge_cons. cbn [snd]. cbn in Hf, Hcn, Hd.
    assert (Hd' : NoDup (b :: (a :: xs.*1) ++ ys.*1)).
    { change (a :: xs.*1 ++ b :: ys.*1) with ((a :: xs.*1) ++ b :: ys.*1) in Hd.
      by rewrite <- Permutation_middle in Hd. }
    apply not_elem_of_cons in Hcn as [Hca Hcn]. apply not_elem_of_app in Hcn as [Hcx Hcn].
    apply not_elem_of_cons in Hcn as [Hcb Hcy].
    destruct (less v w); st; rewrite (set_next_hd h c q vc) by done; st.
    + destruct (IH xs ((b, w) :: ys) a v (hd_loc nil xs) (<[c := MkNode vc a]> h))
        as (h' & E & Ha & Hs & Hk).
      * rewrite lookup_insert_ne by done. apply Hx.
      * apply seg_insert; [done|apply Hx].
      * apply seg_insert; [by apply not_elem_of_cons|done].
      * exact Hd.
      * done.
      * cbn. lia.
      * exists h'. split; [exact E|]. split; [|split].
        -- apply Hk; [by rewrite lookup_insert_eq|]. cbn.
           rewrite !elem_of_cons, elem_of_app, elem_of_cons. tauto.
        -- split; [apply Hx|]. split; [exact Ha|exact Hs].
        -- eapply frame_trans; [apply keeps_insert; left; left|].
           eapply frame_weaken; [|exact Hk]. by apply list_subseteq_cons.
    + destruct (IH ((a, v) :: xs) ys b w (hd_loc nil ys) (<[c := MkNode vc b]> h))
        as (h' & E & Hb & Hs & Hk).
      * rewrite lookup_insert_ne by done. apply Hy.
      * apply seg_insert; [by apply not_elem_of_cons|done].
      * apply seg_insert; [done|apply Hy].
      * exact Hd'.
      * done.
      * cbn. lia.
      * exists h'. split; [exact E|]. split; [|split].
        -- apply Hk; [by rewrite lookup_insert_eq|]. cbn.
           rewrite !elem_of_cons, elem_of_app. tauto.
        -- split; [apply Hy|]. split; [exact Hb|exact Hs].
        -- eapply frame_trans; [apply keeps_insert; left; left|].
           eapply frame_weaken; [|exact Hk]. intros p.
           cbn. rewrite !elem_of_cons, !elem_of_app, !elem_of_cons. tauto.
Qed.

Lemma merge_ok xs ys h : seg h xs nil → seg h ys nil → NoDup (xs.*1 ++ ys.*1) →
  ∃ h', merge less zero (hd_loc nil xs) (hd_loc nil ys) h =
      Returns (hd_loc nil (lmerge xs ys), h') ∧
    seg h' (lmerge xs ys) nil ∧ keeps (xs.*1 ++ ys.*1) h h'.
Proof.
  intros Hx Hy Hd. destruct (new_node_fresh zero h) as (c & Hc & Hf & E).
  pose proof (fresh_notin _ _ _ _ Hx Hf) as Hcx. pose proof (fresh_notin _ _ _ _ Hy Hf) as Hcy.
  set (h1 := <[c := MkNode zero nil]> h) in *.
  assert (Hx1 : seg h1 xs nil) by (by apply seg_insert).
  assert (Hy1 : seg h1 ys nil) by (by apply seg_insert).
  destruct (merge_loop_ok (enough h1) xs ys c zero nil h1) as (h' & E' & Hc' & Hs & Hk).
  { apply lookup_insert_eq. }
  { done. }
  { done. }
  { apply NoDup_cons. by rewrite not_elem_of_app. }
  { done. }
  { rewrite <- (length_fmap fst xs), <- (length_fmap fst ys), <- length_app.
    apply nodes_fuel; [done|]. intros p [Hp|Hp]%elem_of_app;
      [by apply (seg_lookup h1 xs nil)|by apply (seg_lookup h1 ys nil)]. }
  exists h'. unfold merge. st. rewrite E. st. rewrite E'. st. unfold deref. rewrite Hc'.
  split; [done|]. split; [done|]. eapply (keeps_fresh c); [done| |exact Hk].
  apply keeps_insert. by right.
Qed.

(** ** The recursive sort *)

Lemma findMiddle_loop_ok fuel : ∀ ys zs h,
  seg h ys nil → seg h zs nil → (2 ≤ length ys)%nat → (1 ≤ length zs ≤ length ys)%nat →
  (length zs < fuel)%nat →
  ∃ A m v C, ys = A ++ (m, v) :: C ∧ C ≠ [] ∧
    findMiddle_loop fuel (hd_loc nil ys) (hd_loc nil zs) h = Returns (m, h).
Proof.
  induction fuel as [|fuel IH]; intros ys zs h Hy Hz Hly Hlz Hf; [lia|]. cbn [findMiddle_loop].
  destruct ys as [|[m v] ys]; [cbn in Hly; lia|]. destruct zs as [|[a w] zs]; [cbn in Hlz; lia|].
  rewrite (hd_eqb h) by done. rewrite bool_decide_eq_false_2 by done. st. cbn [hd_loc].
  assert (ys ≠ []) by (intros ->; cbn in Hly; lia).
  rewrite (deref_hd h a w zs nil Hz). cbn [Next]. destruct Hz as (_ & _ & Hz).
  rewrite (hd_eqb h) by done. case_bool_decide; [by eexists [], m, v, ys|]. st.
  destruct zs as [|[b u] zs]; [done|]. cbn [hd_loc]. rewrite (deref_hd h b u zs nil Hz). cbn [Next].
  destruct Hz as (_ & _ & Hz). rewrite (hd_eqb h) by done.
  case_bool_decide; [by eexists [], m, v, ys|]. st. rewrite (deref_hd h m v ys nil Hy). cbn [Next].
  cbn in Hly, Hlz, Hf. assert (length zs ≠ 0%nat) by (by destruct zs).
  destruct (IH ys zs h) as (A & m' & v' & C & -> & HC & E); [apply Hy|done|lia..|].
  exists ((m, v) :: A), m', v', C. done.
Qed.

Lemma walk_ok xs fuel h : seg h xs nil → (length xs < fuel)%nat →
  walk fuel (hd_loc nil xs) h = Returns (last_loc xs, h).
Proof.
  revert fuel. induction xs as [|[p v] xs IH]; intros fuel Hs Hf;
    (destruct fuel as [|fuel]; [lia|]); cbn [walk]; rewrite (hd_eqb h) by done; [done|].
  rewrite bool_decide_eq_false_2 by done. st. cbn [hd_loc].
  rewrite (deref_hd h p v xs nil Hs). cbn [Next]. destruct Hs as (_ & _ & Hs).
  rewrite (hd_eqb h) by done. case_bool_decide as E; [by subst|].
  cbn in Hf. rewrite IH by (done || lia). by rewrite last_loc_cons.
Qed.

Lemma walk_last xs h : seg h xs nil → (length xs < enough h)%nat →
  walk (enough h) (last_loc xs) h = Returns (last_loc xs, h).
Proof.
  destruct xs as [|[m v] M _] using rev_ind; [done|]. rewrite last_loc_snoc, length_app.
  intros [_ Hs]%seg_app Hf. cbn in Hf. by apply (walk_ok [(m, v)]); [|cbn; lia].
Qed.

Lemma ordered_short xs : (length xs ≤ 1)%nat → ordered xs.
Proof. destruct xs as [|x [|]]; cbn; intros; [constructor|by repeat constructor|lia]. Qed.

(** What a sort makes of the nodes [xs]: the same nodes, in order. *)
Definition sorts xs h h' ys : Prop :=
  seg h' ys nil ∧ ys ≡ₚ xs ∧ ordered ys ∧ keeps xs.*1 h h'.

Lemma mergeSortListNode_ok fuel : ∀ xs h,
  seg h xs nil → NoDup xs.*1 → (length xs < fuel)%nat →
  ∃ h' ys, mergeSortListNode less zero fuel (hd_loc nil xs) h = Returns (hd_loc nil ys, h') ∧
    sorts xs h h' ys.
Proof.
  induction fuel as [|fuel IH]; intros xs h Hs Hd Hf; [lia|]. cbn [mergeSortListNode].
  rewrite (hd_eqb h) by done. case_bool_decide as Hne; st.
  { subst. exists h, []. do 3 (split; [done|]). split; [constructor|done]. }
  destruct xs as [|[a u] xs]; [done|]. cbn [hd_loc]. rewrite (deref_hd h a u xs nil Hs). cbn [Next].
  rewrite (hd_eqb h) by apply Hs. case_bool_decide as Hne'; st.
  { subst. exists h, [(a, u)]. do 3 (split; [done|]). split; [|done]. by apply ordered_short. }
  assert (H2 : (2 ≤ length ((a, u) :: xs))%nat) by (destruct xs; [done|cbn; lia]).
  change (findMiddle a h) with (findMiddle (hd_loc nil ((a, u) :: xs)) h).
  change (mergeSortListNode less zero fuel a)
    with (mergeSortListNode less zero fuel (hd_loc nil ((a, u) :: xs))).
  revert Hs Hd Hf H2.
  generalize ((a, u) :: xs) as X. clear a u xs Hne Hne'. intros X Hs Hd Hf H2.
  destruct (findMiddle_loop_ok (enough h) X X h) as (A & m & v & C & -> & HC & E);
    [done..|lia|by eapply seg_fuel|].
  unfold findMiddle. st. rewrite E. st. clear E.
  apply seg_app in Hs as [HsA HsC]. rewrite (deref_hd h m v C nil HsC). st. cbn [Next].
  rewrite (set_next_hd h m _ v _ (proj1 (proj2 HsC))). st.
  rewrite fmap_app in Hd. cbn in Hd. apply NoDup_app in Hd as Hd'. destruct Hd' as (HdA & HdAC & HdC).
  apply NoDup_cons in HdC as [Hm HdC]. destruct HsC as (Hmn & Hml & HsC).
  assert (HmA : m ∉ A.*1) by set_solver.
  assert (Hlen : (0 < length C)%nat) by (destruct C; [done|cbn; lia]).
  rewrite length_app in Hf. cbn in Hf. set (h1 := <[m := MkNode v nil]> h).
  destruct (IH (A ++ [(m, v)]) h1) as (h2 & ys & E2 & Hy & HyP & HyO & Hk2).
  { apply seg_app. split; [by apply seg_insert|].
    split; [done|]. split; [apply lookup_insert_eq|done]. }
  { rewrite fmap_app. apply NoDup_app. split; [done|]. split; [set_solver|apply NoDup_singleton]. }
  { rewrite length_app. cbn. lia. }
  replace (hd_loc nil (A ++ (m, v) :: C)) with (hd_loc nil (A ++ [(m, v)])) by (by rewrite !hd_app).
  rewrite E2. st.
  destruct (IH C h2) as (h3 & zs & E3 & Hz & HzP & HzO & Hk3); [|done|lia|].
  { eapply seg_keeps; [exact Hk2| |by apply seg_insert]. rewrite fmap_app. set_solver. }
  rewrite E3. st.
  destruct (merge_ok ys zs h3) as (h4 & E4 & Hm4 & Hk4); [|done| |].
  { eapply seg_keeps; [exact Hk3| |exact Hy]. intros p. rewrite HyP, fmap_app. set_solver. }
  { rewrite HyP, HzP, fmap_app, <- app_assoc. exact Hd. }
  rewrite E4. exists h4, (lmerge ys zs). split; [done|]. split; [done|]. split_and!.
  - rewrite lmerge_perm, HyP, HzP, <- app_assoc. done.
  - by apply lmerge_ordered.
  - assert (HF : keeps (A ++ (m, v) :: C).*1 h h1).
    { apply keeps_insert. left. rewrite fmap_app. set_solver. }
    eapply frame_trans; [exact HF|]. eapply frame_trans; [eapply frame_weaken; [|exact Hk2]|].
    { rewrite !fmap_app. set_solver. }
    eapply frame_trans; [eapply frame_weaken; [|exact Hk3]|eapply frame_weaken; [|exact Hk4]].
    { rewrite fmap_app. set_solver. }
    rewrite <- fmap_app, HyP, HzP, !fmap_app. set_solver.
Qed.

Lemma sorts_rep h h' l xs ys : rep h l xs → sorts xs h h' ys →
  rep h' (MkList (hd_loc nil ys) (last_loc ys) (len l)) ys.
Proof.
  intros Hl (Hs & HP & _ & _). split; try done.
  - rewrite HP. apply Hl.
  - cbn [len]. rewrite (Permutation_length HP). apply Hl.
Qed.

Lemma SortLinkedList_ok h l xs : rep h l xs →
  ∃ h' l' ys, SortLinkedList less zero l h = Returns (l', h') ∧ rep h' l' ys ∧ sorts xs h h' ys.
Proof.
  intros Hl. pose proof (seg_fuel _ _ _ (r_seg _ _ _ Hl) (r_nodup _ _ _ Hl)) as Hfuel.
  destruct (mergeSortListNode_ok (enough h) xs h) as (h' & ys & E & Hsort);
    [apply Hl|apply Hl|done|].
  unfold SortLinkedList. st. rewrite (r_head _ _ _ Hl), E. st. destruct Hsort as (Hs & HP & HO).
  rewrite (walk_ok ys) by (done || (eapply seg_fuel; [done|]; rewrite HP; apply Hl)).
  eexists h', _, ys. split; [done|]. split; [|done]. by apply (sorts_rep h _ _ xs).
Qed.

(** ** The iterative sort *)

Lemma split_loop_ok fuel : ∀ i steps xs h, seg h xs nil → i ≤ steps → (length xs < fuel)%nat →
  split_loop fuel i steps (hd_loc nil xs) h =
    Returns (hd_loc nil (drop (Z.to_nat (steps - i)) xs), h).
Proof.
  induction fuel as [|fuel IH]; intros i steps xs h Hs Hi Hf; [lia|]. cbn [split_loop].
  rewrite (hd_eqb h) by done. case_bool_decide as Hne; cbn [negb andb].
  { subst. by rewrite drop_nil. }
  destruct (Z.ltb_spec i steps) as [Hlt|Hge].
  - destruct xs as [|[p v] xs]; [done|]. st. cbn [hd_loc].
    rewrite (deref_hd h p v xs nil Hs). cbn [Next]. cbn in Hf.
    rewrite IH by (lia || apply Hs).
    replace (Z.to_nat (steps - i)) with (S (Z.to_nat (steps - (i + 1)))) by lia. done.
  - replace (Z.to_nat (steps - i)) with 0%nat by lia. done.
Qed.

Lemma split_ok xs (s : nat) h : seg h xs nil → NoDup xs.*1 → (0 < s)%nat →
  ∃ h', split (hd_loc nil xs) (Z.of_nat s) h = Returns (hd_loc nil (drop s xs), h') ∧
    seg h' (take s xs) nil ∧ seg h' (drop s xs) nil ∧ keeps (take s xs).*1 h h'.
Proof.
  intros Hs Hd Hpos. unfold split. st.
  rewrite split_loop_ok by (done || lia || by eapply seg_fuel). st.
  replace (Z.to_nat (Z.of_nat s - 1)) with (pred s) by lia.
  destruct (drop (pred s) xs) as [|[m v] C] eqn:ED.
  - rewrite N.eqb_refl. exists h. assert (length xs ≤ s)%nat.
    { apply (f_equal length) in ED. rewrite length_drop in ED. cbn in ED. lia. }
    rewrite drop_ge, take_ge by done. split_and!; try done.
  - assert (E : xs = take (pred s) xs ++ (m, v) :: C) by (by rewrite <- ED, take_drop).
    assert (HA : length (take (pred s) xs) = pred s).
    { apply length_take_le. apply (f_equal length) in ED. rewrite length_drop in ED. cbn in ED. lia. }
    revert E HA. generalize (take (pred s) xs) as A. intros A -> HA.
    replace (A ++ (m, v) :: C) with ((A ++ [(m, v)]) ++ C) by (by rewrite <- app_assoc).
    assert (Hlen : length (A ++ [(m, v)]) = s) by (rewrite length_app, HA; cbn; lia).
    rewrite take_app_length', drop_app_length' by done.
    apply seg_app in Hs as [HsA HsC]. cbn [hd_loc]. destruct HsC as (Hmn & Hml & HsC).
    rewrite (proj2 (N.eqb_neq m nil)) by done. st. unfold deref. rewrite Hml. st.
    rewrite (set_next_hd h m _ v _ Hml). st. eexists. split; [done|].
    rewrite fmap_app in Hd. cbn in Hd. apply NoDup_app in Hd as (HdA & HdAC & HdC).
    apply NoDup_cons in HdC as [Hm HdC]. split; [|split].
    + apply seg_app. split; [apply seg_insert; [set_solver|done]|]. cbn. by rewrite lookup_insert_eq.
    + by apply seg_insert.
    + apply keeps_insert. left. rewrite fmap_app. set_solver.
Qed.

(** [xs] falls into ordered runs of [s] nodes, the last one may be shorter. *)
Inductive runs (s : nat) : list (loc * T) → Prop :=
  | runs_last xs : ordered xs → (length xs ≤ s)%nat → runs s xs
  | runs_cons A B : ordered A → length A = s → runs s B → runs s (A ++ B).

Lemma runs_take s xs : runs s xs → ordered (take s xs) ∧ runs s (drop s xs).
Proof.
  intros [xs' Ho Hl|A B Ho Hl Hr].
  - rewrite take_ge, drop_ge by done. split; [done|]. apply runs_last; [constructor|cbn; lia].
  - by rewrite take_app_length', drop_app_length' by done.
Qed.

Lemma runs_one xs : runs 1 xs.
Proof.
  induction xs as [|x xs IH]; [by apply runs_last, Nat.le_0_l; constructor|].
  apply (runs_cons 1 [x]); [by apply ordered_short|done|done].
Qed.

Lemma runs_ordered s xs : runs s xs → (length xs ≤ s)%nat → ordered xs.
Proof. intros [Ho _]%runs_take Hl. by rewrite take_ge in Ho. Qed.

(** [L] is the first run of [s] nodes, [R] the rest. *)
Definition cut (s : nat) L R : Prop := length L = s ∨ (length L ≤ s)%nat ∧ R = [].

Lemma cut_hd s L R : (0 < s)%nat → cut s L R → hd_loc nil (L ++ R) = hd_loc nil L.
Proof. destruct L as [|[]]; [|done]. intros Hs [Hl|[_ ->]]; [cbn in Hl; lia|done]. Qed.

Lemma runs_cut s L R : cut s L R → runs s (L ++ R) → ordered L ∧ runs s R.
Proof.
  intros Hcut Hr%runs_take. destruct Hcut as [Hl|[Hl ->]].
  - by rewrite take_app_length', drop_app_length' in Hr by done.
  - by rewrite app_nil_r, take_ge, drop_ge in Hr by done.
Qed.

Lemma split_cut xs (s : nat) h : seg h xs nil → NoDup xs.*1 → (0 < s)%nat →
  ∃ h' L R, split (hd_loc nil xs) (Z.of_nat s) h = Returns (hd_loc nil R, h') ∧
    xs = L ++ R ∧ cut s L R ∧ seg h' L nil ∧ seg h' R nil ∧ keeps L.*1 h h'.
Proof.
  intros Hs Hd Hpos. destruct (split_ok xs s h Hs Hd Hpos) as (h' & E & HL & HR & Hk).
  exists h', (take s xs), (drop s xs). rewrite take_drop. do 2 (split; [done|]). split; [|done].
  unfold cut. rewrite length_take. destruct (decide (s ≤ length xs)%nat); [left; lia|right].
  rewrite drop_ge by lia. split; [lia|done].
Qed.

(** The body of the loop: two runs become one, linked behind [c]. *)
Lemma pass_body_ok L R c vc q h :
  h !! c = Some (MkNode vc q) → seg h L nil → seg h R nil → L ≠ [] →
  NoDup (c :: L.*1 ++ R.*1) →
  ∃ h1 h2 M m v, lmerge L R = M ++ [(m, v)] ∧
    merge less zero (hd_loc nil L) (hd_loc nil R) h = Returns (hd_loc m M, h1) ∧
    set_next c (hd_loc m M) h1 = Returns (tt, h2) ∧
    walk (enough h2) (hd_loc m M) h2 = Returns (m, h2) ∧
    h2 !! c = Some (MkNode vc (hd_loc m M)) ∧ seg h2 (M ++ [(m, v)]) nil ∧
    keeps (c :: L.*1 ++ R.*1) h h2.
Proof.
  intros Hc HL HR HLne [Hcn Hd]%NoDup_cons.
  destruct (merge_ok L R h HL HR Hd) as (h1 & E1 & Hs1 & Hk1).
  pose proof (lmerge_perm L R) as HP.
  destruct (lmerge L R) as [|[m v] M _] using rev_ind.
  { apply Permutation_nil_l in HP. symmetry in HP. by apply app_nil in HP as [-> _]. }
  rewrite hd_app in E1. cbn in E1.
  assert (Hc1 : h1 !! c = Some (MkNode vc q)) by (by apply Hk1).
  set (h2 := <[c := MkNode vc (hd_loc m M)]> h1).
  assert (Hs2 : seg h2 (M ++ [(m, v)]) nil).
  { apply seg_insert; [|done]. by rewrite HP, fmap_app. }
  exists h1, h2, M, m, v. split; [done|]. split; [done|].
  split; [by apply (set_next_hd h1 c q vc)|]. split; [|split; [apply lookup_insert_eq|split; [done|]]].
  - replace (hd_loc m M) with (hd_loc nil (M ++ [(m, v)])) by (by rewrite hd_app).
    rewrite (walk_ok (M ++ [(m, v)])); [by rewrite last_loc_snoc|done|].
    eapply seg_fuel; [done|]. by rewrite HP, fmap_app.
  - eapply frame_trans; [|apply keeps_insert; left; left].
    eapply frame_weaken; [|exact Hk1]. by apply list_subseteq_cons.
Qed.

Lemma runs_glue s L R C ys : cut s L (R ++ C) → cut s R C → ys ≡ₚ C →
  (runs s C → runs (2 * s) ys) → runs s (L ++ R ++ C) → runs (2 * s) (lmerge L R ++ ys).
Proof.
  intros HcL HcR HP Hys Hr. apply (runs_cut s L (R ++ C) HcL) in Hr as [HL Hr].
  apply (runs_cut s R C HcR) in Hr as [HR HC].
  pose proof (lmerge_ordered L R HL HR) as HM.
  pose proof (Permutation_length (lmerge_perm L R)) as Hlen. rewrite length_app in Hlen.
  destruct C as [|x C].
  - apply Permutation_nil_r in HP as ->. rewrite app_nil_r. apply runs_last; [done|].
    destruct HcL as [?|[? _]], HcR as [?|[? _]]; lia.
  - destruct HcR as [?|[_ ?]]; [|done]. destruct HcL as [?|[_ [_ ?]%app_nil]]; [|done].
    apply runs_cons; [done|lia|auto].
Qed.

Lemma seg_glue h h' M m v ys F : seg h (M ++ [(m, v)]) nil → keeps (m :: F) h h' →
  (∀ p, p ∈ M.*1 → p ≠ m ∧ p ∉ F) → h' !! m = Some (MkNode v (hd_loc nil ys)) →
  seg h' ys nil → seg h' (M ++ (m, v) :: ys) nil.
Proof.
  intros [HM (Hm & _)]%seg_app Hk HF Hm' Hys. apply seg_app. split; [|done].
  cbn in *. eapply seg_keeps; [exact Hk| |done]. intros p Hp. apply not_elem_of_cons. auto.
Qed.

Lemma pass_loop_ok fuel : ∀ (s : nat) xs c vc q tm h,
  (0 < s)%nat → h !! c = Some (MkNode vc q) → (xs = [] → q = nil) →
  seg h xs nil → NoDup (c :: xs.*1) → (length xs < fuel)%nat →
  ∃ h' ys, pass_loop less zero fuel (Z.of_nat s) (hd_loc nil xs) c tm h =
      Returns (if bool_decide (xs = []) then tm else last_loc ys, h') ∧
    h' !! c = Some (MkNode vc (hd_loc nil ys)) ∧ seg h' ys nil ∧ ys ≡ₚ xs ∧
    (runs s xs → runs (2 * s) ys) ∧ keeps (c :: xs.*1) h h'.
Proof.
  induction fuel as [|fuel IH]; intros s xs c vc q tm h Hpos Hc Hq Hs Hd Hf; [lia|].
  cbn [pass_loop]. rewrite (hd_eqb h) by done. case_bool_decide as Hne; st.
  { subst. rewrite Hq in Hc by done. exists h, []. do 4 (split; [done|]). split; [|done].
    intros _. apply runs_last; [constructor|cbn; lia]. }
  apply NoDup_cons in Hd as [Hcn Hd].
  destruct (split_cut xs s h Hs Hd Hpos) as (h1 & L & X & E1 & -> & HcutL & HL1 & HX1 & Hk1).
  rewrite fmap_app in Hcn, Hd. apply NoDup_app in Hd as Hd'. destruct Hd' as (HdL & HdLX & HdX).
  destruct (split_cut X s h1 HX1 HdX Hpos) as (h2 & R & C & E2 & -> & HcutR & HR2 & HC2 & Hk2).
  rewrite E1. st. rewrite E2. st. clear E1 E2 HX1 Hs.
  rewrite fmap_app in Hcn, Hd, HdLX, HdX. apply NoDup_app in HdX as (HdR & HdRC & HdC).
  rewrite app_assoc in Hd, Hcn. apply not_elem_of_app in Hcn as [HcLR HcC].
  apply NoDup_app in Hd as (HdLR & HLRC & _).
  assert (HLne : L ≠ []).
  { intros ->. destruct HcutL as [Hl|[_ ?]]; [cbn in Hl; lia|]. done. }
  rewrite (cut_hd s L (R ++ C)), (cut_hd s R C) by done.
  destruct (pass_body_ok L R c vc q h2) as (h3 & h4 & M & m & v & HM & E3 & E4 & E5 & Hc4 & Hs4 & Hk4).
  { apply not_elem_of_app in HcLR as [??]. apply Hk2; [by apply Hk1|done]. }
  { eapply seg_keeps; [exact Hk2| |done]. intros p Hp HR. apply (HdLX p Hp). apply elem_of_app. by left. }
  { done. }
  { done. }
  { by apply NoDup_cons. }
  rewrite E3. st. rewrite E4. st. rewrite E5. st. clear E3 E4 E5.
  pose proof (lmerge_perm L R) as HP. rewrite HM in HP.
  assert (HmLR : (M ++ [(m, v)]).*1 ≡ₚ L.*1 ++ R.*1) by (by rewrite HP, fmap_app).
  rewrite fmap_app in HmLR. cbn in HmLR.
  assert (Hml : h4 !! m = Some (MkNode v nil)) by (apply seg_app in Hs4 as [_ Hs4]; apply Hs4).
  assert (HMd : NoDup (M.*1 ++ [m])) by (by rewrite HmLR).
  apply NoDup_app in HMd as (HMd & HMm & _).
  assert (Hin : ∀ p, p ∈ M.*1 ++ [m] → p ∈ L.*1 ++ R.*1) by (intros p; by rewrite HmLR).
  assert (HmLR' : m ∈ L.*1 ++ R.*1) by (apply Hin, elem_of_app; right; left).
  assert (HF : ∀ p, p ∈ c :: (L ++ R ++ C).*1 ↔ p = c ∨ p ∈ L.*1 ∨ p ∈ R.*1 ∨ p ∈ C.*1)
    by (intros p; rewrite !fmap_app, elem_of_cons, !elem_of_app; tauto).
  destruct (IH s C m v nil m h4) as (h5 & ys & E5 & Hm5 & Hs5 & HPys & Hruns & Hk5); try done.
  { eapply seg_keeps; [exact Hk4| |exact HC2]. intros p Hp [->|Hp']%elem_of_cons; [done|].
    by apply (HLRC p). }
  { apply NoDup_cons. auto. }
  { rewrite !length_app in Hf. destruct L; [done|]. cbn in Hf. lia. }
  exists h5, (M ++ (m, v) :: ys). split_and!.
  - rewrite E5. f_equal. f_equal. case_bool_decide as HC.
    + subst C. apply Permutation_nil_r in HPys as ->. by rewrite last_loc_snoc.
    + rewrite (last_loc_app M) by done. rewrite last_loc_cons; [done|].
      intros ->. by apply Permutation_nil_l in HPys.
  - rewrite hd_app. apply Hk5; [exact Hc4|]. apply not_elem_of_cons. split; [congruence|done].
  - eapply seg_glue; try done. intros p Hp. split.
    + intros ->. apply (HMm m Hp). left.
    + apply HLRC, Hin, elem_of_app. by left.
  - change ((m, v) :: ys) with ([(m, v)] ++ ys). by rewrite app_assoc, HP, HPys, app_assoc.
  - intros Hr. change ((m, v) :: ys) with ([(m, v)] ++ ys). rewrite app_assoc, <- HM.
    by apply (runs_glue s L R C).
  - apply (frame_trans _ _ h1); [eapply frame_weaken; [|exact Hk1]; intros p; rewrite HF; tauto|].
    apply (frame_trans _ _ h2); [eapply frame_weaken; [|exact Hk2]; intros p; rewrite HF; tauto|].
    apply (frame_trans _ _ h4); (eapply frame_weaken; [|eassumption]); intros p;
      rewrite HF, elem_of_cons, ?elem_of_app; [tauto|]. apply elem_of_app in HmLR'.
    intros [->|?]; tauto.
Qed.

Lemma step_loop_ok fuel : ∀ (s : nat) xs d vd h,
  (0 < s)%nat → h !! d = Some (MkNode vd (hd_loc nil xs)) → seg h xs nil →
  NoDup (d :: xs.*1) → xs ≠ [] → runs s xs → (0 < fuel)%nat → (length xs < s + fuel)%nat →
  ∃ h' ys, step_loop less zero fuel (Z.of_nat s) (Z.of_nat (length xs)) d (last_loc xs) h =
      Returns (last_loc ys, h') ∧
    h' !! d = Some (MkNode vd (hd_loc nil ys)) ∧ seg h' ys nil ∧ ys ≡ₚ xs ∧ ordered ys ∧
    keeps (d :: xs.*1) h h'.
Proof.
  induction fuel as [|fuel IH]; intros s xs d vd h Hpos Hdd Hs Hd Hne Hr Hf0 Hf; [lia|].
  cbn [step_loop]. destruct (Z.ltb_spec (Z.of_nat s) (Z.of_nat (length xs))) as [Hlt|Hge].
  2: { exists h, xs. do 4 (split; [done|]). split; [|done].
       apply (runs_ordered s); [done|lia]. }
  st. unfold deref. rewrite Hdd. st. cbn [Next]. apply NoDup_cons in Hd as Hd'.
  destruct Hd' as [Hdn Hdx].
  destruct (pass_loop_ok (enough h) s xs d vd (hd_loc nil xs) (last_loc xs) h)
    as (h1 & ys & E & Hd1 & Hs1 & HP & Hruns & Hk1); [done|done|by intros ->|done|done|by eapply seg_fuel|].
  rewrite E, bool_decide_eq_false_2 by done. st.
  pose proof (Permutation_length HP) as Hlen. rewrite <- Hlen.
  replace (Z.of_nat s * 2) with (Z.of_nat (2 * s)) by lia.
  destruct (IH (2 * s)%nat ys d vd h1) as (h2 & zs & E2 & Hd2 & Hs2 & HP2 & HO & Hk2);
    [lia|done|done|by rewrite HP| |by apply Hruns|lia|lia|].
  { intros ->. by apply Permutation_nil_l in HP. }
  exists h2, zs. do 3 (split; [done|]). split; [by rewrite HP2|]. split; [done|].
  eapply frame_trans; [exact Hk1|]. eapply frame_weaken; [|exact Hk2]. by rewrite HP.
Qed.

Lemma length_loop_ok xs fuel n h : seg h xs nil → (length xs < fuel)%nat →
  length_loop fuel (hd_loc nil xs) n h = Returns (n + Z.of_nat (length xs), h).
Proof.
  revert fuel n. induction xs as [|[p v] xs IH]; intros fuel n Hs Hf;
    (destruct fuel as [|fuel]; [lia|]); cbn [length_loop]; rewrite (hd_eqb h) by done.
  - rewrite bool_decide_eq_true_2 by done. st. cbn. do 2 f_equal. lia.
  - rewrite bool_decide_eq_false_2 by done. st. cbn [hd_loc].
    rewrite (deref_hd h p v xs nil Hs). cbn [Next]. cbn in Hf.
    rewrite IH by (lia || apply Hs). do 2 f_equal. cbn. lia.
Qed.

Lemma sortLinkedListNodeIterative_ok xs h : seg h xs nil → NoDup xs.*1 →
  ∃ h' ys, sortLinkedListNodeIterative less zero (hd_loc nil xs) (last_loc xs) h =
      Returns ((hd_loc nil ys, last_loc ys), h') ∧ sorts xs h h' ys.
Proof.
  intros Hs Hd. unfold sortLinkedListNodeIterative. rewrite (hd_eqb h) by done.
  case_bool_decide as Hne; st.
  { subst. exists h, []. do 3 (split; [done|]). split; [constructor|done]. }
  destruct xs as [|[a u] r] eqn:Hxs; [done|]. rewrite <- Hxs in *.
  assert (Hr : seg h r nil) by (rewrite Hxs in Hs; apply Hs).
  assert (Hdr : deref (hd_loc nil xs) h = Returns (MkNode u (hd_loc nil r), h)).
  { rewrite Hxs in Hs |- *. by apply (deref_hd h a u r nil). }
  rewrite Hdr. cbn [Next]. rewrite (hd_eqb h r) by done. case_bool_decide as Hne'; st.
  { exists h, xs. do 3 (split; [done|]). split; [|done]. apply ordered_short. by subst. }
  rewrite length_loop_ok by (done || by eapply seg_fuel). st.
  destruct (new_node_fresh zero h) as (d & Hdn & Hf & E). rewrite E. st.
  pose proof (fresh_notin _ _ _ _ Hs Hf) as HdX. set (h1 := <[d := MkNode zero nil]> h).
  rewrite (set_next_hd h1 d nil zero) by apply lookup_insert_eq. st.
  set (h2 := <[d := MkNode zero (hd_loc nil xs)]> h1).
  destruct (step_loop_ok (S (length xs)) 1 xs d zero h2)
    as (h3 & ys & E3 & Hd3 & Hs3 & HP & HO & Hk3);
    [lia|apply lookup_insert_eq|by do 2 (apply seg_insert; [done|])|by apply NoDup_cons|done
    |apply runs_one|lia|lia|].
  replace (Z.to_nat (0 + Z.of_nat (length xs))) with (length xs) by lia.
  rewrite Z.add_0_l. change 1 with (Z.of_nat 1). rewrite E3. st.
  rewrite walk_last by (done || by (eapply seg_fuel; [done|]; rewrite HP)). st.
  unfold deref. rewrite Hd3. st. exists h3, ys. split; [done|].
  split; [done|]. split; [done|]. split; [done|].
  eapply (keeps_fresh d); [done|apply keeps_insert; by right|].
  eapply frame_trans; [apply keeps_insert; left; left|exact Hk3].
Qed.

Lemma SortLinkedListIterative_ok h l xs : rep h l xs →
  ∃ h' l' ys, SortLinkedListIterative less zero l h = Returns (l', h') ∧
    rep h' l' ys ∧ sorts xs h h' ys.
Proof.
  intros Hl. destruct (sortLinkedListNodeIterative_ok xs h) as (h' & ys & E & Hsort);
    [apply Hl|apply Hl|].
  unfold SortLinkedListIterative. st. rewrite (r_head _ _ _ Hl), (r_tail _ _ _ Hl), E. st.
  eexists h', _, ys. split; [done|]. split; [|done]. by apply (sorts_rep h _ _ xs).
Qed.

(** Two ordered arrangements of the same nodes have the same values, where
    values that are not told apart are equal. *)
Lemma ordered_unique xs ys :
  (∀ a b, less a b = false → less b a = false → a = b) →
  xs.*2 ≡ₚ ys.*2 → ordered xs → ordered ys → xs.*2 = ys.*2.
Proof.
  intros Htot. revert ys. induction xs as [|x xs IH]; intros ys HP Hx Hy.
  { by apply Permutation_nil_l in HP. }
  destruct ys as [|y ys]; [by apply Permutation_nil_r in HP|].
  apply StronglySorted_inv in Hx as [Hx1 Hx2]. apply StronglySorted_inv in Hy as [Hy1 Hy2].
  assert (Hxy : x.2 = y.2).
  { rewrite Forall_forall in Hx2, Hy2. destruct x as [p v], y as [q w]. cbn in *.
    assert (Hv : v ∈ w :: ys.*2) by (rewrite <- HP; left).
    assert (Hw : w ∈ v :: xs.*2) by (rewrite HP; left).
    apply elem_of_cons in Hv as [?|Hv]; [done|]. apply elem_of_cons in Hw as [?|Hw]; [done|].
    apply list_elem_of_fmap in Hv as (y' & -> & Hv). apply list_elem_of_fmap in Hw as (x' & -> & Hw).
    apply Htot; [exact (Hy2 _ Hv)|exact (Hx2 _ Hw)]. }
  cbn in *. rewrite Hxy in *. f_equal. apply Permutation_cons_inv in HP. by apply IH.
Qed.
End sort.
