(* ===== verification/LinkedListTheorems.v ===== *)
(** * Linked lists refine lists of values *)
From Stdlib Require Import ZArith Lia Sorting.Sorted.
From stdpp Require Import base gmap strings list fin_maps.
From S2P Require Import Prelude Linker Pattern LinkedList LinkedListLogic LinkedListOps LinkedListSort.

Section spec.
Context {T : Type} `{EqDecision T}.

(** A client's calls.  A client that wants a node walks to it from the head,
    as the IP list does; [i] is how far. *)
Inductive call : Type :=
  | CInsert (v : T)
  | CInsertBefore (i : nat) (v : T)
  | CRemove (v : T)
  | CRemoveTail
  | CContains (v : T)
  | CLen.

Inductive answer : Type :=
  | ADone
  | AErr (e : error)
  | ABool (b : bool)
  | AInt (n : Z).

Fixpoint node_at (i : nat) (p : loc) : ST (nodes T) loc :=
  match i with
  | O => mret p
  | S i => if N.eqb p nil then mret p else n ← deref p; node_at i (Next n)
  end.

Definition answer_of (r : LinkedList * option error) : LinkedList * answer :=
  (r.1, from_option AErr ADone r.2).

Definition exec (c : call) (l : LinkedList) : ST (nodes T) (LinkedList * answer) :=
  match c with
  | CInsert v => l ← Insert l v; mret (l, ADone)
  | CInsertBefore i v =>
      node ← node_at i (Head l); r ← InsertBefore l node v; mret (answer_of r)
  | CRemove v => r ← Remove l v; mret (answer_of r)
  | CRemoveTail => r ← RemoveTail l; mret (answer_of r)
  | CContains v => b ← Contains l v; mret (l, ABool b)
  | CLen => mret (l, AInt (Len l))
  end.

Fixpoint exec_all (cs : list call) (l : LinkedList) : ST (nodes T) (LinkedList * list answer) :=
  match cs with
  | [] => mret (l, [])
  | c :: cs =>
      '(l, a) ← exec c l; '(l, answers) ← exec_all cs l; mret (l, a :: answers)
  end.

(** What the calls mean for a list of values. *)
Fixpoint remove_first (v : T) (vs : list T) : list T :=
  match vs with
  | [] => []
  | w :: vs => if bool_decide (w = v) then vs else w :: remove_first v vs
  end.

Definition spec (c : call) (vs : list T) : list T * answer :=
  match c with
  | CInsert v => (vs ++ [v], ADone)
  | CInsertBefore i v =>
      if (i <? length vs)%nat then (take i vs ++ v :: drop i vs, ADone)
      else (vs, AErr ErrNodeNotFound)
  | CRemove v =>
      if bool_decide (v ∈ vs) then (remove_first v vs, ADone) else (vs, AErr ErrValueNotFound)
  | CRemoveTail =>
      match vs with [] => ([], AErr ErrValueNotFound) | _ => (removelast vs, ADone) end
  | CContains v => (vs, ABool (bool_decide (v ∈ vs)))
  | CLen => (vs, AInt (Z.of_nat (length vs)))
  end.

Fixpoint spec_all (cs : list call) (vs : list T) : list T * list answer :=
  match cs with
  | [] => (vs, [])
  | c :: cs =>
      let '(vs, a) := spec c vs in let '(vs, answers) := spec_all cs vs in (vs, a :: answers)
  end.

(** No insertion before a node of an empty list, which has none. *)
Fixpoint sensible (cs : list call) (vs : list T) : bool :=
  match cs with
  | [] => true
  | c :: cs =>
      match c with
      | CInsertBefore _ _ => negb (bool_decide (vs = []))
      | _ => true
      end && sensible cs (spec c vs).1
  end.

Lemma node_at_ok h xs i : seg h xs nil →
  node_at i (hd_loc nil xs) h = Returns (hd_loc nil (drop i xs), h).
Proof.
  revert xs. induction i as [|i IH]; intros xs Hs; [done|]. cbn [node_at].
  rewrite (hd_eqb h) by done. destruct xs as [|[p v] xs]; [done|].
  rewrite bool_decide_eq_false_2 by done. st. cbn [hd_loc].
  rewrite (deref_hd _ _ _ _ _ Hs). apply IH. apply Hs.
Qed.

Lemma remove_first_app v (us ws : list T) : v ∉ us → remove_first v (us ++ v :: ws) = us ++ ws.
Proof.
  induction us as [|u us IH]; cbn; intros Hin; [by rewrite bool_decide_eq_true_2|].
  rewrite bool_decide_eq_false_2 by set_solver. rewrite IH by set_solver. done.
Qed.

Lemma exec_ok c h l xs : rep h l xs → sensible [c] xs.*2 →
  ∃ h' l' ys, exec c l h = Returns ((l', (spec c xs.*2).2), h') ∧ rep h' l' ys ∧
    ys.*2 = (spec c xs.*2).1 ∧ keeps xs.*1 h h' ∧ (∀ p, p ∈ ys.*1 → p ∈ xs.*1 ∨ h !! p = None).
Proof.
  intros Hl. destruct c as [v|i v|v| |v|]; cbn [exec spec]; intros Hsens.
  - destruct (Insert_snoc h l xs v Hl) as (p & h' & l' & E & Hl' & _ & Hp & Hk).
    exists h', l', (xs ++ [(p, v)]). st. rewrite E. split_and!; try done.
    + by rewrite fmap_app.
    + rewrite fmap_app. set_solver.
  - st. rewrite (r_head _ _ _ Hl), (node_at_ok h xs) by apply Hl. rewrite length_fmap.
    destruct (Nat.ltb_spec i (length xs)) as [Hi|Hi].
    + destruct (lookup_lt_is_Some_2 _ _ Hi) as [[node w] Hlook].
      apply list_elem_of_split_length in Hlook as (A & B & -> & ->).
      rewrite drop_app_length. cbn [hd_loc]. st.
      destruct (InsertBefore_ok h l A node w B v Hl) as (p & h' & l' & E & Hl' & _ & Hp & Hk).
      rewrite E. eexists h', l', _. split; [done|]. split; [exact Hl'|].
      rewrite !fmap_app. cbn. rewrite take_app_length', drop_app_length' by (symmetry; apply length_fmap).
      split_and!; [done|by rewrite fmap_app in Hk|set_solver].
    + rewrite drop_ge by done. cbn [hd_loc]. st.
      destruct (InsertBefore_miss h l xs nil v Hl) as (p & h' & E & Hl' & _ & Hk).
      { intros ->. done. }
      { intros Hin. eapply seg_lookup in Hin as [_ []]; [|apply Hl]. done. }
      rewrite E. exists h', l, xs. split_and!; try done; [|by left].
      eapply frame_weaken; [|exact Hk]. set_solver.
  - case_bool_decide as Hv; st.
    + destruct (first_value v xs Hv) as (A & p & B & -> & Hn).
      destruct (Remove_ok h l A p v B Hl Hn) as (h' & l' & E & Hl' & Hk).
      rewrite E. eexists h', l', _. split; [done|]. split; [exact Hl'|].
      rewrite !fmap_app. cbn [fmap list_fmap snd fst]. rewrite remove_first_app by done.
      split_and!; [done|by rewrite fmap_app in Hk|set_solver].
    + rewrite (Remove_miss h l xs v Hl Hv). exists h, l, xs. split_and!; try done. by left.
  - st. destruct xs as [|[p v] xs _] using rev_ind.
    + unfold RemoveTail. rewrite (rep_head _ _ _ Hl). exists h, l, []. split_and!; try done. by left.
    + destruct (RemoveTail_ok h l xs p v Hl) as (h' & l' & E & Hl' & Hk).
      rewrite E. exists h', l', xs.
      assert ((xs ++ [(p, v)]).*2 = xs.*2 ++ [v]) as -> by (by rewrite fmap_app).
      rewrite removelast_last. destruct (xs.*2 ++ [v]) eqn:E2; [by destruct xs.*2|].
      split_and!; try done. rewrite fmap_app. set_solver.
  - st. rewrite (Contains_ok h l xs v Hl). exists h, l, xs. split_and!; try done. by left.
  - exists h, l, xs. unfold Len. rewrite (r_len _ _ _ Hl), length_fmap. split_and!; try done. by left.
Qed.

Lemma exec_all_ok cs h l xs : rep h l xs → sensible cs xs.*2 →
  ∃ h' l' ys, exec_all cs l h = Returns ((l', (spec_all cs xs.*2).2), h') ∧ rep h' l' ys ∧
    ys.*2 = (spec_all cs xs.*2).1 ∧ keeps xs.*1 h h'.
Proof.
  revert h l xs. induction cs as [|c cs IH]; intros h l xs Hl Hs; [by exists h, l, xs|].
  cbn [sensible] in Hs. apply andb_prop_elim in Hs as [Hc Hs].
  destruct (exec_ok c h l xs Hl) as (h1 & l1 & ys & E & Hl1 & Hys & Hk1 & Hnew).
  { cbn. by rewrite andb_true_r. }
  rewrite <- Hys in Hs. destruct (IH _ _ _ Hl1 Hs) as (h2 & l2 & zs & E2 & Hl2 & Hzs & Hk2).
  cbn [exec_all spec_all]. st. rewrite E. rewrite Hys in *. destruct (spec c xs.*2) as [vs a].
  cbn in E2, Hzs |- *. st. rewrite E2. destruct (spec_all cs vs) as [ws answers].
  exists h2, l2, zs. split_and!; try done. intros p n Hp HF.
  apply Hk2; [by apply Hk1|]. intros Hin. apply Hnew in Hin. naive_solver.
Qed.

(** Before a node of an empty list, which the caller has as nil, [InsertBefore]
    makes the list of one node but leaves the tail nil. *)
Lemma insert_after_break h l i v w : rep h l [] → h !! nil = None →
  ('(l, _) ← exec (CInsertBefore i v) l; exec (CInsert w) l) h = Panics nil_deref.
Proof.
  intros [Hh _ _ Ht _] Hnil. cbn in Hh. change (last_loc []) with nil in Ht.
  assert (node_at i nil h = Returns (nil, h)) as En by (destruct i; [done|]; cbn; by st).
  cbn [exec]. st. rewrite Hh, En. unfold InsertBefore, new_node. st. rewrite Hh. cbn [N.eqb nil].
  pose proof (is_fresh ({[nil]} ∪ dom h : gset loc)) as Hf.
  rewrite not_elem_of_union, not_elem_of_singleton in Hf. destruct Hf as [Hf _]. set (p := fresh _) in *.
  unfold set_next at 1. st. rewrite lookup_insert_eq. st. unfold answer_of, Insert, new_node. st. cbn [Head Tail fst].
  rewrite (proj2 (N.eqb_neq p nil) Hf). unfold set_next. rewrite Ht.
  match goal with |- context [fresh ?X] => pose proof (is_fresh X) as Hq; set (q := fresh X) in * end.
  rewrite not_elem_of_union, not_elem_of_singleton in Hq. destruct Hq as [Hq _].
  st. by rewrite !lookup_insert_ne, Hnil.
Qed.

(** C35: a linked list behaves as the list of its values: any sequence of
    calls on a list that was made of [items], in which no [InsertBefore] is
    called while the list is empty, returns, each call with the answer for
    the list of values (the length among them), and the nodes then hold the
    values that are left, in order, with the tail and the length right; the
    nodes of other lists in the heap are not touched.  The exception is real:
    after an [InsertBefore] on an empty list the next [Insert] panics. *)
Theorem LinkedList_refines_list h items cs :
  (sensible cs items →
   ∃ h' l' xs, (l ← New items; exec_all cs l) h =
       Returns ((l', (spec_all cs items).2), h') ∧
     rep h' l' xs ∧ xs.*2 = (spec_all cs items).1 ∧ keeps [] h h') ∧
  (∀ h' l' i v w, rep h' l' [] → h' !! nil = None →
     ('(l, _) ← exec (CInsertBefore i v) l'; exec (CInsert w) l) h' = Panics nil_deref).
Proof.
  split; [intros Hcs|by intros; apply insert_after_break].
  destruct (New_loop_ok h empty_list [] items (rep_empty h)) as (h1 & l1 & xs & E & Hl & <- & Hk & Hnew).
  destruct (exec_all_ok cs h1 l1 xs Hl Hcs) as (h2 & l2 & ys & E2 & Hl2 & Hys & Hk2).
  exists h2, l2, ys. st. unfold New. rewrite E, E2. split_and!; try done.
  intros p n Hp _. apply Hk2; [apply Hk; [done|set_solver]|]. intros Hin.
  apply Hnew in Hin. congruence.
Qed.

Lemma String_loop_ok (show : T → string) xs fuel buf h : seg h xs nil → (length xs < fuel)%nat →
  String_loop show fuel (hd_loc nil xs) buf h = Returns (buf +:+ arrows show xs.*2, h).
Proof.
  revert fuel buf. induction xs as [|[p v] xs IH]; intros fuel buf Hs Hf;
    (destruct fuel as [|fuel]; [lia|]); cbn [String_loop]; rewrite (hd_eqb h) by done.
  - rewrite bool_decide_eq_true_2 by done. st. cbn. by rewrite string_app_nil_r.
  - rewrite bool_decide_eq_false_2 by done. st. cbn [hd_loc].
    rewrite (deref_hd h p v xs nil Hs). cbn [Next Value]. destruct Hs as (_ & _ & Hs).
    cbn in Hf. rewrite IH, (hd_eqb h) by (done || lia). do 2 f_equal.
    destruct xs as [|[q w] xs]; [by rewrite bool_decide_eq_true_2, string_app_nil_r|].
    rewrite bool_decide_eq_false_2 by done. cbn. by rewrite !string_app_assoc.
Qed.

(** [String] prints the values with arrows between them. *)
Theorem String_prints (show : T → string) h l xs : rep h l xs →
  String show l h = Returns (arrows show xs.*2, h).
Proof.
  intros Hl. unfold String. st. rewrite (r_head _ _ _ Hl).
  apply (String_loop_ok show xs _ ""); [apply Hl|]. eapply seg_fuel; apply Hl.
Qed.
End spec.

(** Before a node of an empty list, which the caller has as nil:
    [InsertBefore] makes the list of one node but leaves the tail nil, so the
    next [Insert] panics. *)
Theorem InsertBefore_empty_breaks {T} `{EqDecision T} (v w : T) :
  (r ← InsertBefore empty_list nil v;
   _ ← (if bool_decide (r.2 = None) then mret tt else st_panic "error");
   Insert r.1 w) ∅ = Panics nil_deref.
Proof. reflexivity. Qed.

(** both sorts return, for every list: they leave the same nodes, in
    order, with the right head, tail and length, and touch no other node.
    Where [less] tells different values apart they give the same list. *)
Theorem sorts_agree {T} `{EqDecision T} (less : T → T → bool) (zero : T) h l xs
  (Hasym : ∀ a b, less a b = true → less b a = false)
  (Htrans : ∀ a b c, less a b = false → less b c = false → less a c = false)
  (Hl : rep h l xs) :
  ∃ h1 l1 ys h2 l2 zs,
    SortLinkedList less zero l h = Returns (l1, h1) ∧
    SortLinkedListIterative less zero l h = Returns (l2, h2) ∧
    rep h1 l1 ys ∧ sorts less xs h h1 ys ∧ rep h2 l2 zs ∧ sorts less xs h h2 zs ∧
    ((∀ a b, less a b = false → less b a = false → a = b) → ys.*2 = zs.*2).
Proof.
  destruct (SortLinkedList_ok less zero Hasym Htrans h l xs Hl) as (h1 & l1 & ys & E1 & H1 & S1).
  destruct (SortLinkedListIterative_ok less zero Hasym Htrans h l xs Hl)
    as (h2 & l2 & zs & E2 & H2 & S2).
  exists h1, l1, ys, h2, l2, zs. do 6 (split; [done|]). intros Htot.
  destruct S1 as (_ & P1 & O1 & _), S2 as (_ & P2 & O2 & _).
  apply (ordered_unique less); try done. by rewrite P1, P2.
Qed.

(** The list of 2, 1, in the heap that [New] makes. *)
Definition two_one_heap : nodes Z := <[1%N := MkNode 2 2%N]> (<[2%N := MkNode 1 nil]> ∅).
Definition two_one : LinkedList := MkList 1%N 2%N 2.

Lemma two_one_rep : rep two_one_heap two_one [(1%N, 2); (2%N, 1)].
Proof. split; try reflexivity; [repeat split; done|]. by repeat constructor; set_solver. Qed.

Lemma sorts_agree_witness :
  New [2; 1] ∅ = Returns (two_one, two_one_heap) ∧
  ∃ h1 l1 ys, SortLinkedList Z.ltb 0 two_one two_one_heap = Returns (l1, h1) ∧ rep h1 l1 ys.
Proof.
  split; [vm_compute; reflexivity|].
  destruct (sorts_agree Z.ltb 0 two_one_heap two_one [(1%N, 2); (2%N, 1)]) as
    (h1 & l1 & ys & h2 & l2 & zs & E & _ & H & _); [| |exact two_one_rep|by exists h1, l1, ys].
  - intros a b. rewrite Z.ltb_lt, Z.ltb_ge. lia.
  - intros a b c. rewrite !Z.ltb_ge. lia.
Defined.

Lemma LinkedList_refines_list_witness :
  (∃ h' l' xs, (l ← New [3; 1]; exec_all [CInsertBefore 1 2; CRemove 3; CRemoveTail; CContains 2; CLen] l)
      ∅ = Returns ((l', [ADone; ADone; ADone; ABool true; AInt 1]), h') ∧ rep h' l' xs ∧ xs.*2 = [2]) ∧
  ('(l, _) ← exec (CInsertBefore 0 7) empty_list; exec (CInsert 8) l) ∅ = Panics nil_deref.
Proof.
  destruct (LinkedList_refines_list ∅ [3; 1]
    [CInsertBefore 1 2; CRemove 3; CRemoveTail; CContains 2; CLen]) as [H1 H2]. split.
  - destruct H1 as (h' & l' & xs & E & H & Hv & _); [vm_compute; exact I|].
    exists h', l', xs. split; [exact E|]. split; [exact H|]. exact Hv.
  - exact (H2 ∅ empty_list 0%nat 7 8 (rep_empty ∅) eq_refl).
Defined.

(** Neither sort is stable: values that [less] does not tell apart change
    places, since [merge] takes the right one of them. *)
Theorem sorts_unstable :
  let less (a b : Z * Z) := a.1 <? b.1 in
  let values (r : outcome (LinkedList * nodes (Z * Z))) :=
    match r with
    | Returns (l, h) => match h !! Head l with Some n => Some (Value n) | None => None end
    | Panics _ => None
    end in
  values ((l ← New [(1, 1); (1, 2)]; SortLinkedList less (0, 0) l) ∅) = Some (1, 2) ∧
  values ((l ← New [(1, 1); (1, 2)]; SortLinkedListIterative less (0, 0) l) ∅) = Some (1, 2).
Proof. split; vm_compute; reflexivity. Qed.
