(* ===== verification/AdminAPI.v ===== *)
(** * internal/admin/routes: the handlers of the admin API

    A handler reads a request and the proxy's state and writes to the
    response; what it writes is a list, because a handler may write twice.
    The encoding of the response is left out.  Parameters: encoding/json on
    the bodies, net/url, the JSON-schema validator, the state of raft.  A
    handler reads the clock once. *)
From Stdlib Require Import ZArith Lia Ascii.
From stdpp Require Import base gmap strings list fin_maps pretty.
From S2P Require Import Prelude Avl SliceUtil Pattern Base64 Spec Linker ResourceManager.
From S2P Require Import Storage ProxyStore Scheduler Cache Util Compact ConfigResources.
From S2P Require Import ProxyTransport Proxy RequestContext DynamicProxy ChangeLogs ProxyState.

(** ** What lies outside *)

(** The errors of [json.Unmarshal] that a handler tells apart. *)
Inductive json_error : Type :=
  | UnmarshalTypeError (field type : string)
  | SyntaxError (offset : Z)
  | OtherError.

(** The answer of a schema's [Validate]; [Broken] is an error that is not a
    [ValidationError]. *)
Inductive validation : Type :=
  | Valid
  | Invalid (causes : list string)
  | Broken.

Class AdminEnv (E : Externals) (Any : Type) := {
  body_namespace : string → gores Namespace.t;
  body_service : string → Service.t + json_error;
  body_route : string → gores Route.t;
  body_module : string → gores Module_.t;
  body_domain : string → gores Domain.t;
  body_collection : string → gores Collection.t;
  body_secret : string → gores Secret.t;
  (** records as items of change logs, besides those of [ProxyEnv] *)
  item_secret : Secret.t → Any;
  item_dgate_collection : DGateCollection.t → Any;
  url_Scheme : URL → string;
  url_Host : URL → string;
  schema_Validate : Schema → option JSON → validation;
  raft_State : string }.

(** ** Requests and responses *)

Record admin_request : Type := MkAdminRequest {
  rq_body : gores string;
  rq_query : string → string;
  rq_param : string → string }.

Inductive payload `{E : Externals} : Type :=
  | Namespaces_ (l : list Namespace.t)
  | DGateNamespace_ (x : DGateNamespace.t)
  | Services_ (l : list (option Service.t))
  | Service_ (x : option Service.t)
  | Routes_ (l : list Route.t)
  | Route_ (x : Route.t)
  | Modules_ (l : list Module_.t)
  | ModuleOf (x : Module_.t)
  | Domains_ (l : list Domain.t)
  | DGateDomain_ (x : DGateDomain.t)
  | Collections_ (l : list Collection.t)
  | DGateCollection_ (x : DGateCollection.t)
  | Document_ (x : option Document.t)
  | Secrets_ (l : list Secret.t)
  | Secret_ (x : Secret.t).

(** One call on the response writer; the first status counts. *)
Inductive written `{E : Externals} : Type :=
  | JsonError (code : Z) (message : string)
  | JsonErrors (code : Z) (messages : list string)
  | JsonResponse (code : Z) (data : payload)
  | WriteHeader (code : Z)
  | SetHeader (name value : string)
  | WriteText (body : string)
  | WriteDocuments (docs : slice Document.t) (limit offset count : Z) (collection namespace : string)
  | WriteChangeLogs (count hash : Z) (latest : string).

Definition StatusOK : Z := 200.
Definition StatusCreated : Z := 201.
Definition StatusAccepted : Z := 202.
Definition StatusNoContent : Z := 204.
Definition StatusBadRequest : Z := 400.
Definition StatusForbidden : Z := 403.
Definition StatusNotFound : Z := 404.
Definition StatusUnprocessableEntity : Z := 422.
Definition StatusInternalServerError : Z := 500.
Definition StatusServiceUnavailable : Z := 503.

(** [strconv.Atoi] on 64-bit integers. *)
Fixpoint digits (s : string) (acc : Z) : option Z :=
  match s with
  | EmptyString => Some acc
  | String c s =>
      let d := Z.of_N (N_of_ascii c) - 48 in
      if (0 <=? d) && (d <=? 9) then digits s (acc * 10 + d) else None
  end.
Definition Atoi (s : string) : option Z :=
  let number (s : string) := if String.eqb s "" then None else digits s 0 in
  n ← match s with
      | String c s' =>
          if Ascii.eqb c "-" then Z.opp <$> number s'
          else if Ascii.eqb c "+" then number s' else number s
      | EmptyString => None
      end;
  if (- 2 ^ 63 <=? n) && (n <? 2 ^ 63) then Some n else None.

Definition ParseInt (s : string) (def : Z) : option Z :=
  if String.eqb s "" then Some def else Atoi s.

Section code.
Context {E : Externals} {R : Runtime} {Any : Type} {C : Encoding E Any} {S : Type}.
Context {St : Storage S} {X : ProxyEnv E Any} {N : NodeEnv} {A : AdminEnv E Any}.

Abbreviation PS := (Run (@ProxyState E Any S X)).
Abbreviation Handler := (admin_request → PS (list written)).

(** ** What the handlers share *)

Definition error_reply (code : Z) (message : string) : PS (list written) :=
  mret [JsonError code message].

(** [io.ReadAll(r.Body)] and [json.Unmarshal] into a record. *)
Definition with_body {T} (unmarshal : string → gores T) (r : admin_request)
    (k : T → PS (list written)) : PS (list written) :=
  match rq_body r with
  | Err _ => error_reply StatusBadRequest "error reading body"
  | Ok eb =>
      match unmarshal eb with
      | Err _ => error_reply StatusBadRequest "error unmarshalling body"
      | Ok x => k x
      end
  end.

(** The namespace of a request, or the default one. *)
Definition with_namespace (ns : string) (k : string → PS (list written)) : PS (list written) :=
  if String.eqb ns "" then
    p ← run_get;
    if DisableDefaultNamespace (config p)
    then error_reply StatusBadRequest "namespace is required"
    else k (Namespace.Name DefaultNamespace)
  else k ns.

Definition require (name message : string) (k : PS (list written)) : PS (list written) :=
  if String.eqb name "" then error_reply StatusBadRequest message else k.

(** [spec.NewChangeLog], [cs.ApplyChangeLog], and the answer of an error. *)
Definition apply_log (now : Z) (name : string) (item : Any) (ns : string) (cmd : Command)
    (code : Z) (k : ChangeLog Any → PS (list written)) : PS (list written) :=
  cl ← lift_outcome (NewChangeLog now (λ _, name) (Some item) ns cmd);
  err ← ApplyChangeLog now (Some cl);
  match err with
  | Some err => error_reply code err
  | None => k cl
  end.

Definition wait_for (cl : ChangeLog Any) (k : PS (list written)) : PS (list written) :=
  err ← WaitForChanges (Some cl);
  match err with
  | Some err => error_reply StatusInternalServerError err
  | None => k
  end.

(** A list of resources, transformed; the list may be nil. *)
Definition respond_all {D T} (code : Z) (get : ST ResourceManager (slice D))
    (transform : list D → outcome (list T)) (wrap : list T → payload) : PS (list written) :=
  l ← on_rm get;
  l ← lift_outcome (transform (elems l));
  mret [JsonResponse code (wrap l)].

Definition namespace_exists (ns : string) (k : PS (list written)) : PS (list written) :=
  found ← on_rm (ResourceManager.GetNamespace ns);
  match found with
  | None => error_reply StatusBadRequest ("namespace not found: " +:+ ns)
  | Some _ => k
  end.

(** The namespace of a listing: the default one, or one that exists. *)
Definition listed_namespace (r : admin_request) (k : string → PS (list written))
    : PS (list written) :=
  let nsName := rq_query r "namespace" in
  if String.eqb nsName "" then with_namespace nsName k else namespace_exists nsName (k nsName).

(** ** namespace_routes.go *)

Definition PutNamespace (now : Z) : Handler := λ r,
  with_body body_namespace r (λ namespace,
  require (Namespace.Name namespace) "name is required" (
  apply_log now (Namespace.Name namespace) (item_namespace namespace) (Namespace.Name namespace)
    AddNamespaceCommand StatusBadRequest (λ cl,
  wait_for cl (
  respond_all StatusCreated ResourceManager.GetNamespaces TransformDGateNamespaces Namespaces_)))).

Definition DeleteNamespace (now : Z) : Handler := λ r,
  with_body body_namespace r (λ namespace,
  require (Namespace.Name namespace) "name is required" (
  apply_log now (Namespace.Name namespace) (item_namespace namespace) (Namespace.Name namespace)
    DeleteNamespaceCommand StatusBadRequest (λ _, mret [WriteHeader StatusAccepted]))).

Definition ListNamespaces : Handler := λ _,
  respond_all StatusOK ResourceManager.GetNamespaces TransformDGateNamespaces Namespaces_.

Definition GetNamespace_ : Handler := λ r,
  ns ← on_rm (ResourceManager.GetNamespace (rq_param r "name"));
  match ns with
  | None => error_reply StatusNotFound "namespace not found"
  | Some ns => mret [JsonResponse StatusOK (DGateNamespace_ ns)]
  end.

(** ** secret_routes.go *)

Definition secret_data (data : string) (s : Secret.t) : Secret.t :=
  Secret.mk (Secret.Name s) (Secret.NamespaceName s) data (Secret.Tags s).

Definition PutSecret (now : Z) : Handler := λ r,
  with_body body_secret r (λ sec,
  require (Secret.Data sec) "payload is required" (
  let sec := secret_data (Base64.RawEncodeToString (Secret.Data sec)) sec in
  with_namespace (Secret.NamespaceName sec) (λ ns,
  let sec := secret_in ns sec in
  apply_log now (Secret.Name sec) (item_secret sec) ns AddSecretCommand StatusBadRequest (λ cl,
  wait_for cl (
  respond_all StatusCreated (GetSecretsByNamespace ns) TransformDGateSecrets Secrets_))))).

Definition DeleteSecret (now : Z) : Handler := λ r,
  with_body body_secret r (λ sec,
  with_namespace (Secret.NamespaceName sec) (λ ns,
  let sec := secret_in ns sec in
  apply_log now (Secret.Name sec) (item_secret sec) ns DeleteSecretCommand StatusBadRequest
    (λ _, mret [WriteHeader StatusAccepted]))).

Definition ListSecrets : Handler := λ r,
  listed_namespace r (λ ns,
  respond_all StatusOK (GetSecretsByNamespace ns) TransformDGateSecrets Secrets_).

Definition GetSecret_ : Handler := λ r,
  with_namespace (rq_query r "namespace") (λ ns,
  sec ← on_rm (ResourceManager.GetSecret (rq_param r "name") ns);
  match sec with
  | None => error_reply StatusNotFound "secret not found"
  | Some sec =>
      sec ← lift_outcome (TransformDGateSecret sec); mret [JsonResponse StatusOK (Secret_ sec)]
  end).

(** ** domain_routes.go *)

Definition PutDomain (now : Z) : Handler := λ r,
  with_body body_domain r (λ domain,
  require (Domain.Name domain) "name is required" (
  with_namespace (Domain.NamespaceName domain) (λ ns,
  let domain := domain_in ns domain in
  apply_log now (Domain.Name domain) (item_domain domain) ns AddDomainCommand StatusBadRequest (λ cl,
  wait_for cl (
  respond_all StatusCreated (GetDomainsByNamespace ns) TransformDGateDomains Domains_))))).

Definition DeleteDomain_ (now : Z) : Handler := λ r,
  with_body body_domain r (λ domain,
  require (Domain.Name domain) "name is required" (
  with_namespace (Domain.NamespaceName domain) (λ ns,
  let domain := domain_in ns domain in
  found ← on_rm (ResourceManager.GetDomain (Domain.Name domain) ns);
  match found with
  | None => error_reply StatusUnprocessableEntity ("domain not found: " +:+ Domain.Name domain)
  | Some _ =>
      apply_log now (Domain.Name domain) (item_domain domain) ns DeleteDomainCommand
        StatusBadRequest (λ _, mret [WriteHeader StatusAccepted])
  end))).

Definition ListDomains : Handler := λ r,
  let nsName := rq_query r "namespace" in
  let listed (nsName : string) :=
    respond_all StatusOK
      (if String.eqb nsName "" then ResourceManager.GetDomains else GetDomainsByNamespace nsName)
      TransformDGateDomains Domains_ in
  if negb (String.eqb nsName "") then namespace_exists nsName (listed nsName)
  else p ← run_get;
       listed (if negb (DisableDefaultNamespace (config p))
               then Namespace.Name DefaultNamespace else nsName).

Definition GetDomain_ : Handler := λ r,
  with_namespace (rq_query r "namespace") (λ ns,
  dom ← on_rm (ResourceManager.GetDomain (rq_param r "name") ns);
  match dom with
  | None => error_reply StatusNotFound "domain not found"
  | Some dom => mret [JsonResponse StatusOK (DGateDomain_ dom)]
  end).

(** ** module_routes.go *)

Definition module_type (t : ModuleType) (m : Module_.t) : Module_.t :=
  Module_.mk (Module_.Name m) (Module_.NamespaceName m) (Module_.Payload m) t (Module_.Tags m).

Definition PutModule (now : Z) : Handler := λ r,
  with_body body_module r (λ md,
  require (Module_.Payload md) "payload is required" (
  with_namespace (Module_.NamespaceName md) (λ ns,
  let md := module_in ns md in
  let md := if negb (ModuleType_Valid (Module_.Type_ md))
            then module_type ModuleTypeTypescript md else md in
  apply_log now (Module_.Name md) (item_module md) ns AddModuleCommand StatusBadRequest (λ cl,
  wait_for cl (
  respond_all StatusCreated (GetModulesByNamespace ns) TransformDGateModules Modules_))))).

Definition DeleteModule (now : Z) : Handler := λ r,
  with_body body_module r (λ md,
  with_namespace (Module_.NamespaceName md) (λ ns,
  let md := module_in ns md in
  apply_log now (Module_.Name md) (item_module md) ns DeleteModuleCommand StatusBadRequest
    (λ _, mret [WriteHeader StatusAccepted]))).

Definition ListModules : Handler := λ r,
  listed_namespace r (λ ns,
  respond_all StatusCreated (GetModulesByNamespace ns) TransformDGateModules Modules_).

Definition GetModule_ : Handler := λ r,
  with_namespace (rq_query r "namespace") (λ ns,
  md ← on_rm (ResourceManager.GetModule (rq_param r "name") ns);
  match md with
  | None => error_reply StatusNotFound "module not found"
  | Some md =>
      md ← lift_outcome (TransformDGateModule md); mret [JsonResponse StatusOK (ModuleOf md)]
  end).

(** ** route_routes.go *)

Definition PutRoute (now : Z) : Handler := λ r,
  with_body body_route r (λ route,
  require (Route.Name route) "name is required" (
  with_namespace (Route.NamespaceName route) (λ ns,
  let route := route_in ns route in
  apply_log now (Route.Name route) (item_route route) ns AddRouteCommand StatusBadRequest (λ cl,
  wait_for cl (
  respond_all StatusCreated (GetRoutesByNamespace ns) TransformDGateRoutes Routes_))))).

Definition DeleteRoute (now : Z) : Handler := λ r,
  with_body body_route r (λ route,
  require (Route.Name route) "name is required" (
  with_namespace (Route.NamespaceName route) (λ ns,
  let route := route_in ns route in
  apply_log now (Route.Name route) (item_route route) ns DeleteRouteCommand StatusBadRequest
    (λ _, mret [WriteHeader StatusAccepted])))).

Definition ListRoutes : Handler := λ r,
  listed_namespace r (λ ns,
  respond_all StatusCreated (GetRoutesByNamespace ns) TransformDGateRoutes Routes_).

Definition GetRoute_ : Handler := λ r,
  with_namespace (rq_query r "namespace") (λ ns,
  rt ← on_rm (ResourceManager.GetRoute (rq_param r "name") ns);
  match rt with
  | None => error_reply StatusNotFound "route not found"
  | Some rt =>
      rt ← lift_outcome (TransformDGateRoute rt); mret [JsonResponse StatusOK (Route_ rt)]
  end).

(** ** service_routes.go *)

Definition quote : string := String (ascii_of_nat 34) "".
Definition url_prefix (i : nat) : string :=
  "error on urls[" +:+ quote +:+ pretty i +:+ quote +:+ "]: ".

(** The loop over the URLs, with what it has written; [false]: the handler
    returns.  A URL that does not parse is reported, and the loop goes on. *)
Fixpoint check_urls (i : nat) (urls : list string) (ws : list written) : list written * bool :=
  match urls with
  | [] => (ws, true)
  | url :: urls =>
      match url_Parse url with
      | Err err => check_urls (Datatypes.S i) urls (ws ++ [JsonError StatusBadRequest (url_prefix i +:+ err)])
      | Ok url =>
          if String.eqb (url_Scheme url) "" then
            (ws ++ [JsonError StatusBadRequest (url_prefix i +:+ "url scheme cannot be empty")], false)
          else if String.eqb (url_Host url) "" then
            (ws ++ [JsonError StatusBadRequest (url_prefix i +:+ "url host cannot be empty")], false)
          else check_urls (Datatypes.S i) urls ws
      end
  end.

Definition service_retries (n : option Z) (s : Service.t) : Service.t :=
  Service.mk (Service.Name s) (Service.URLs s) (Service.NamespaceName s) n (Service.RetryTimeout s)
    (Service.ConnectTimeout s) (Service.RequestTimeout s) (Service.TLSSkipVerify s)
    (Service.HTTP2Only s) (Service.HideDGateHeaders s) (Service.DisableQueryParams s) (Service.Tags s).

Definition service_body_error (e : json_error) : string :=
  match e with
  | UnmarshalTypeError field type =>
      "error unmarshalling body: field " +:+ field +:+ " expected type " +:+ type
  | SyntaxError offset => "error unmarshalling body: syntax error at byte offset " +:+ pretty offset
  | OtherError => "error unmarshalling body"
  end.

Definition negative (d : option Z) : bool := match d with Some d => d <? 0 | None => false end.

Definition PutService (now : Z) : Handler := λ r,
  match rq_body r with
  | Err _ => error_reply StatusBadRequest "error reading body"
  | Ok eb =>
  match body_service eb with
  | inr err => error_reply StatusBadRequest (service_body_error err)
  | inl svc =>
  if negative (Service.Retries svc)
  then error_reply StatusBadRequest "retries must be greater than 0" else
  let svc := match Service.Retries svc with
             | None => service_retries (Some 3) svc | Some _ => svc end in
  if negative (Service.RetryTimeout svc)
  then error_reply StatusBadRequest "retry timeout must be greater than 0" else
  if Nat.eqb (length (elems (Service.URLs svc))) 0
  then error_reply StatusBadRequest "urls are required" else
  let '(reported, goes_on) := check_urls 0 (elems (Service.URLs svc)) [] in
  if negb goes_on then mret reported else
  ws ← with_namespace (Service.NamespaceName svc) (λ ns,
    let svc := service_in ns svc in
    apply_log now (Service.Name svc) (item_service svc) ns AddServiceCommand StatusBadRequest (λ cl,
    wait_for cl (
    respond_all StatusCreated (GetServicesByNamespace ns)
      (λ l, TransformDGateServices (Some <$> l)) Services_)));
  mret (reported ++ ws)
  end end.

Definition DeleteService (now : Z) : Handler := λ r,
  with_body (λ b, match body_service b with inl svc => Ok svc | inr e => Err (service_body_error e) end)
    r (λ svc,
  with_namespace (Service.NamespaceName svc) (λ ns,
  let svc := service_in ns svc in
  apply_log now (Service.Name svc) (item_service svc) ns DeleteServiceCommand StatusBadRequest
    (λ _, mret [WriteHeader StatusNoContent]))).

Definition ListServices : Handler := λ r,
  listed_namespace r (λ ns,
  respond_all StatusOK (GetServicesByNamespace ns)
    (λ l, TransformDGateServices (Some <$> l)) Services_).

Definition GetService_ : Handler := λ r,
  with_namespace (rq_query r "namespace") (λ ns,
  svc ← on_rm (ResourceManager.GetService (rq_param r "name") ns);
  match svc with
  | None => error_reply StatusNotFound "service not found"
  | Some svc =>
      svc ← lift_outcome (TransformDGateService (Some svc));
      mret [JsonResponse StatusOK (Service_ svc)]
  end).

(** ** collection_routes.go *)

Definition documents_exist (verb : string) : string :=
  "one or more documents already exist for this collection, please delete existing documents before "
  +:+ verb.

(** [dm.GetDocuments] answers at least one document: the handler refuses. *)
Definition refuse_documents (col ns : string) (limit offset : Z) (verb : string)
    (k : PS (list written)) : PS (list written) :=
  docs ← GetDocuments col ns limit offset;
  match docs with
  | Err err => error_reply StatusInternalServerError err
  | Ok docs =>
      if (0 <? length (elems docs))%nat then error_reply StatusBadRequest (documents_exist verb) else k
  end.

Definition PutCollection (now : Z) : Handler := λ r,
  with_body body_collection r (λ collection,
  require (Collection.Name collection) "name is required" (
  with_namespace (Collection.NamespaceName collection) (λ ns,
  let collection := collection_in ns collection in
  let add :=
    apply_log now (Collection.Name collection) (item_collection collection) ns AddCollectionCommand
      StatusInternalServerError (λ cl,
    wait_for cl (
    respond_all StatusCreated (GetCollectionsByNamespace ns) TransformDGateCollections Collections_)) in
  old ← on_rm (ResourceManager.GetCollection (Collection.Name collection) ns);
  match old with
  | Some oldCollection =>
      if String.eqb (DGateCollection.Type_ oldCollection) CollectionTypeDocument
      then refuse_documents (Collection.Name collection) ns 0 0 "replacing" add else add
  | None => add
  end))).

Definition ListCollections : Handler := λ r,
  with_namespace (rq_query r "namespace") (λ ns,
  respond_all StatusOK (GetCollectionsByNamespace ns) TransformDGateCollections Collections_).

Definition GetCollection_ : Handler := λ r,
  col ← on_rm (ResourceManager.GetCollection (rq_param r "name") (rq_query r "namespace"));
  match col with
  | None => error_reply StatusNotFound "collection not found"
  | Some col => mret [JsonResponse StatusOK (DGateCollection_ col)]
  end.

Definition DeleteCollection (now : Z) : Handler := λ r,
  let collectionName := rq_param r "collection_name" in
  require collectionName "collection_name is required" (
  with_namespace (rq_query r "namespace") (λ ns,
  found ← on_rm (ResourceManager.GetCollection collectionName ns);
  match found with
  | None => error_reply StatusNotFound "collection not found"
  | Some collection =>
      let delete :=
        apply_log now (DGateCollection.Name collection) (item_dgate_collection collection) ns
          DeleteCollectionCommand StatusInternalServerError (λ _, mret [WriteHeader StatusAccepted]) in
      if String.eqb (DGateCollection.Type_ collection) CollectionTypeDocument
      then refuse_documents collectionName ns 1 1 "deleting" delete else delete
  end)).

(** *** Documents *)

(** The checks on the collection of a document that is read. *)
Definition readable (untyped : bool) (col ns : string) (k : PS (list written)) : PS (list written) :=
  found ← on_rm (ResourceManager.GetCollection col ns);
  match found with
  | None => error_reply StatusNotFound "collection not found"
  | Some collection =>
      let type := DGateCollection.Type_ collection in
      if negb (untyped && String.eqb type "") && negb (String.eqb type CollectionTypeDocument)
      then error_reply StatusBadRequest "collection is not a document collection"
      else if String.eqb (DGateCollection.Visibility collection) CollectionVisibilityPrivate
      then error_reply StatusForbidden "collection is private"
      else k
  end.

Definition missing_namespace (ns : string) (k : PS (list written)) : PS (list written) :=
  found ← on_rm (ResourceManager.GetNamespace ns);
  match found with
  | None => error_reply StatusNotFound ("namespace not found: " +:+ ns)
  | Some _ => k
  end.

Definition ListDocuments : Handler := λ r,
  with_namespace (rq_query r "namespace") (λ ns,
  missing_namespace ns (
  let collectionName := rq_query r "collection" in
  require collectionName "collection is required" (
  readable true collectionName ns
  match ParseInt (rq_query r "limit") 100 with
  | None => error_reply StatusBadRequest "limit must be an integer"
  | Some limit =>
  match ParseInt (rq_query r "offset") 0 with
  | None => error_reply StatusBadRequest "offset must be an integer"
  | Some offset =>
      docs ← GetDocuments collectionName ns offset limit;
      match docs with
      | Err err => error_reply StatusInternalServerError err
      | Ok docs =>
          mret [SetHeader "Content-Type" "application/json";
                WriteDocuments docs limit offset (Z.of_nat (length (elems docs))) collectionName ns]
      end
  end end))).

Definition GetDocument_ : Handler := λ r,
  with_namespace (rq_query r "namespace") (λ ns,
  let documentId := rq_param r "document_id" in
  require documentId "document_id is required" (
  let collectionName := rq_query r "collection" in
  require collectionName "collection is required" (
  readable false collectionName ns (
  document ← GetDocumentByID documentId collectionName ns;
  match document with
  | Err err => error_reply StatusNotFound err
  | Ok document => mret [JsonResponse StatusOK (Document_ document)]
  end)))).

(** The id of the path, or of the query. *)
Definition document_id (r : admin_request) : string :=
  if String.eqb (rq_param r "document_id") "" then rq_query r "document_id"
  else rq_param r "document_id".

Definition PutDocument (now : Z) : Handler := λ r,
  with_namespace (rq_query r "namespace") (λ ns,
  let collectionName := rq_query r "collection" in
  require collectionName "collection is required" (
  found ← on_rm (ResourceManager.GetCollection collectionName ns);
  match found with
  | None => error_reply StatusNotFound "collection not found"
  | Some collection =>
  require (document_id r) "document_id is required"
  match rq_body r with
  | Err _ => error_reply StatusBadRequest "error reading body"
  | Ok eb =>
  match json_Unmarshal eb with
  | Err _ => error_reply StatusBadRequest "error reading body"
  | Ok payloadData =>
  let put :=
    let doc := Document.mk E (document_id r) 0 0 ns collectionName payloadData in
    apply_log now (Document.ID doc) (item_document doc) ns AddDocumentCommand
      StatusInternalServerError (λ cl,
    wait_for cl (mret [JsonResponse StatusCreated (Document_ (Some doc))])) in
  match DGateCollection.Schema_ collection with
  | Some schema =>
      if String.eqb (DGateCollection.Type_ collection) CollectionTypeDocument then
        match schema_Validate schema payloadData with
        | Valid => put
        | Invalid causes => mret [JsonErrors StatusBadRequest causes]
        | Broken => run_panic "interface conversion: error is not a validation error"
        end
      else put
  | None => put
  end end end end)).

Definition DeleteDocuments_ (now : Z) : Handler := λ r,
  with_namespace (rq_query r "namespace") (λ ns,
  missing_namespace ns (
  let collectionName := rq_query r "collection" in
  require collectionName "collection is required" (
  found ← on_rm (ResourceManager.GetCollection collectionName ns);
  match found with
  | None => error_reply StatusNotFound "collection not found"
  | Some _ =>
      let document := Document.mk E "" 0 0 ns collectionName None in
      apply_log now (Document.ID document) (item_document document) ns DeleteDocumentCommand
        StatusInternalServerError (λ _, mret [WriteHeader StatusAccepted])
  end))).

Definition DeleteDocument_ (now : Z) : Handler := λ r,
  let documentId := rq_param r "document_id" in
  with_namespace (rq_query r "namespace") (λ ns,
  let collectionName := rq_query r "collection" in
  require collectionName "collection is required" (
  found ← on_rm (ResourceManager.GetCollection collectionName ns);
  match found with
  | None => error_reply StatusNotFound "collection not found"
  | Some _ =>
  require documentId "document_id is required" (
  document ← GetDocumentByID documentId collectionName ns;
  match document with
  | Err err => error_reply StatusNotFound err
  | Ok None => run_panic nil_deref
  | Ok (Some document) =>
      apply_log now (Document.ID document) (item_document document) ns DeleteDocumentCommand
        StatusInternalServerError (λ _, mret [WriteHeader StatusAccepted])
  end)
  end)).

(** ** misc_routes.go *)

Definition GetChangeLogs_ : Handler := λ _,
  p ← run_get;
  logs ← ProxyState.ChangeLogs;
  mret [SetHeader "Content-Type" "application/json";
        WriteChangeLogs (Z.of_nat (length logs)) (ChangeHash p)
          match last logs with Some cl => ID cl | None => "" end].

Definition healthy (version : string) : string :=
  "{" +:+ quote +:+ "status" +:+ quote +:+ ":" +:+ quote +:+ "ok" +:+ quote +:+ ","
  +:+ quote +:+ "version" +:+ quote +:+ ":" +:+ quote +:+ version +:+ quote +:+ "}".
Definition unhealthy (status : string) : string :=
  "{" +:+ quote +:+ "status" +:+ quote +:+ ":" +:+ quote +:+ status +:+ quote +:+ "}".

Definition Healthz (version : string) : Handler := λ _,
  mret [SetHeader "Content-Type" "application/json"; WriteText (healthy version)].

Definition Readyz (version : string) : Handler := λ _,
  p ← run_get;
  mret (SetHeader "Content-Type" "application/json" ::
    if negb (Ready p) then [WriteHeader StatusServiceUnavailable; WriteText (unhealthy "not ready")]
    else match Raft p with
         | None => [WriteText (healthy version)]
         | Some _ =>
             SetHeader "X-Raft-State" raft_State ::
             if String.eqb raft_Leader ""
             then [WriteHeader StatusServiceUnavailable; WriteText (unhealthy "no leader")]
             else [SetHeader "X-Raft-Leader" raft_Leader; WriteText (healthy version)]
         end).
End code.
