(* ===== verification/AdminAPITheorems.v ===== *)
(** * What the admin API does *)
From Stdlib Require Import ZArith Lia Ascii.
From stdpp Require Import base gmap strings list fin_maps pretty.
From S2P Require Import Prelude Avl SliceUtil Pattern Base64 Spec Linker ResourceManager.
From S2P Require Import Storage ProxyStore Scheduler Cache Util Compact ConfigResources.
From S2P Require Import ProxyTransport ResourceSpec Proxy RequestContext DynamicProxy Routing.
From S2P Require Import ChangeLogs ProxyLogic Replay ProxyState ProxyStateTheorems AdminAPI.

Section api.
Context {E : Externals} {R : Runtime} {Any : Type} {C : Encoding E Any} {S : Type}.
Context {St : Storage S} {SL : StorageLaws S} {X : ProxyEnv E Any} {N : NodeEnv} {A : AdminEnv E Any}.
Implicit Types (p q : @ProxyState E Any S X) (r : admin_request).

Abbreviation PS := (Run (@ProxyState E Any S X)).

(** ** The endpoints *)

Inductive endpoint : Type :=
  | EPutNamespace | EDeleteNamespace | EListNamespaces | EGetNamespace
  | EPutSecret | EDeleteSecret | EListSecrets | EGetSecret
  | EPutDomain | EDeleteDomain | EListDomains | EGetDomain
  | EPutModule | EDeleteModule | EListModules | EGetModule
  | EPutRoute | EDeleteRoute | EListRoutes | EGetRoute
  | EPutService | EDeleteService | EListServices | EGetService
  | EPutCollection | EListCollections | EGetCollection | EDeleteCollection
  | EListDocuments | EGetDocument | EPutDocument | EDeleteDocuments | EDeleteDocument
  | EChangeLogs | EHealthz | EReadyz.

Definition serve (version : string) (now : Z) (e : endpoint) : admin_request → PS (list written) :=
  match e with
  | EPutNamespace => PutNamespace now | EDeleteNamespace => DeleteNamespace now
  | EListNamespaces => ListNamespaces | EGetNamespace => GetNamespace_
  | EPutSecret => PutSecret now | EDeleteSecret => DeleteSecret now
  | EListSecrets => ListSecrets | EGetSecret => GetSecret_
  | EPutDomain => PutDomain now | EDeleteDomain => DeleteDomain_ now
  | EListDomains => ListDomains | EGetDomain => GetDomain_
  | EPutModule => PutModule now | EDeleteModule => DeleteModule now
  | EListModules => ListModules | EGetModule => GetModule_
  | EPutRoute => PutRoute now | EDeleteRoute => DeleteRoute now
  | EListRoutes => ListRoutes | EGetRoute => GetRoute_
  | EPutService => PutService now | EDeleteService => DeleteService now
  | EListServices => ListServices | EGetService => GetService_
  | EPutCollection => PutCollection now | EListCollections => ListCollections
  | EGetCollection => GetCollection_ | EDeleteCollection => DeleteCollection now
  | EListDocuments => ListDocuments | EGetDocument => GetDocument_
  | EPutDocument => PutDocument now | EDeleteDocuments => DeleteDocuments_ now
  | EDeleteDocument => DeleteDocument_ now
  | EChangeLogs => GetChangeLogs_ | EHealthz => Healthz version | EReadyz => Readyz version
  end.

(** The command of an endpoint that changes something. *)
Definition command_of (e : endpoint) : option Command :=
  match e with
  | EPutNamespace => Some AddNamespaceCommand | EDeleteNamespace => Some DeleteNamespaceCommand
  | EPutSecret => Some AddSecretCommand | EDeleteSecret => Some DeleteSecretCommand
  | EPutDomain => Some AddDomainCommand | EDeleteDomain => Some DeleteDomainCommand
  | EPutModule => Some AddModuleCommand | EDeleteModule => Some DeleteModuleCommand
  | EPutRoute => Some AddRouteCommand | EDeleteRoute => Some DeleteRouteCommand
  | EPutService => Some AddServiceCommand | EDeleteService => Some DeleteServiceCommand
  | EPutCollection => Some AddCollectionCommand | EDeleteCollection => Some DeleteCollectionCommand
  | EPutDocument => Some AddDocumentCommand
  | EDeleteDocuments | EDeleteDocument => Some DeleteDocumentCommand
  | _ => None
  end.

(** ** Computations that only read *)

(** Where [P] holds of the proxy, the computation leaves it as it was. *)
Definition looks (P : @ProxyState E Any S X → Prop) {T} (m : PS T) : Prop := ∀ p, P p → (m p).2 = p.
Abbreviation stored := (λ p, store_ok (store p)).
Abbreviation always := (λ _, True).

Section looks.
Variable P : @ProxyState E Any S X → Prop.

Lemma looks_ret {T} (a : T) : looks P (mret a).
Proof. by intros p _. Qed.
Lemma looks_get : looks P run_get.
Proof. by intros p _. Qed.
Lemma looks_outcome {T} (o : outcome T) : looks P (lift_outcome o).
Proof. intros p _. by destruct o. Qed.
Lemma looks_panic {T} e : looks P (run_panic e : PS T).
Proof. by intros p _. Qed.
Lemma looks_bind {T U} (m : PS T) (f : T → PS U) : looks P m → (∀ a, looks P (f a)) → looks P (m ≫= f).
Proof.
  intros Hm Hf p Hp. rewrite run_bind_unfold. specialize (Hm p Hp).
  destruct (m p) as [[a|e|] p1]; cbn in *; subst p1; [by apply Hf|done|done].
Qed.
Lemma looks_rm {T} (m : ST ResourceManager T) : reads m → looks P (on_rm m).
Proof.
  intros Hm p _. unfold on_rm, zoom. specialize (Hm (rm p)). destruct (m (rm p)) as [[a m']|e]; [|done].
  cbn in *. by rewrite Hm, set_rm_id.
Qed.
End looks.

Lemma looks_store {T} (m : ST S T) :
  (∀ s, store_ok s → match m s with Returns (_, s') => s' = s | Panics _ => True end) →
  looks stored (on_store m).
Proof.
  intros Hm p Hp. unfold on_store, zoom. specialize (Hm (store p) Hp).
  destruct (m (store p)) as [[a s']|e]; [|done]. cbn in *. subst. by destruct p.
Qed.

Lemma FetchDocuments_looks col ns limit offset : looks stored (on_store (FetchDocuments col ns limit offset)).
Proof.
  apply looks_store. intros s _. unfold FetchDocuments. destruct (limit =? 0); [done|]. st.
  destruct (storage_IterateValuesPrefix _ _ _ _) as [[err [[docs l] o]]|e]; [|done]. st.
  by destruct err.
Qed.
Lemma FetchDocument_looks id col ns : looks stored (on_store (FetchDocument id col ns)).
Proof.
  apply looks_store. intros s Hs. unfold FetchDocument. st.
  destruct (Get_law s (docKey id col ns) Hs) as (res & Hget & _). rewrite Hget.
  destruct res as [[b|]|e]; [|done|done]. by destruct (unmarshal_doc b).
Qed.

Lemma GetDocuments_looks col ns limit offset : looks stored (GetDocuments col ns limit offset).
Proof.
  apply looks_bind; [apply looks_rm, get_item_reads|]. intros [n|]; [|apply looks_ret].
  apply looks_bind; [apply looks_rm, get_item_reads|]. intros [c|]; [|apply looks_ret].
  apply FetchDocuments_looks.
Qed.
Lemma GetDocumentByID_looks id col ns : looks stored (GetDocumentByID id col ns).
Proof.
  apply looks_bind; [apply looks_rm, get_item_reads|]. intros [n|]; [|apply looks_ret].
  apply looks_bind; [apply looks_rm, get_item_reads|]. intros [c|]; [|apply looks_ret].
  apply FetchDocument_looks.
Qed.

Lemma get_by_namespace_reads {T} name (f : loc → ST ResourceManager T) ns :
  (∀ l, reads (f l)) → reads (get_by_namespace name f ns).
Proof.
  intros Hf. apply st_keeps_bind; [apply FindIn_reads|]. intros [l []]; [|apply st_keeps_ret].
  apply st_keeps_bind; [apply on_reads, need_edge_reads|]. intros t. by apply collect_reads.
Qed.
Lemma get_all_reads {T} k (conv : resource → outcome T) : reads (get_all k conv).
Proof.
  apply st_keeps_bind; [apply st_keeps_get|]. intros m. apply collect_reads. intros l. apply read_reads.
Qed.

Lemma wait_retry_looks retries : ∀ n log, looks always (wait_retry retries n log).
Proof.
  induction retries as [|retries IH]; intros n log p _; cbn [wait_retry]; go;
    destruct (last (changeLogs p)) as [lastLog|]; try done.
  destruct log as [log|]; [|done]. case_match; [by apply IH|done].
Qed.
Lemma WaitForChanges_looks log : looks always (WaitForChanges log).
Proof.
  intros p Hp. unfold WaitForChanges. go. destruct (Raft p) as [[|]|]; try done.
  destruct (String.eqb raft_Leader ""); [done|]. by apply wait_retry_looks.
Qed.

Lemma GetRoute_reads name ns : reads (ResourceManager.GetRoute name ns).
Proof.
  apply st_keeps_bind; [apply FindIn_reads|]. intros [l ok]. destruct ok; [|apply st_keeps_ret].
  apply st_keeps_bind; [apply updateRouteRef_reads|]. intros rt. apply st_keeps_ret.
Qed.
Lemma ChangeLogs_looks P : looks P ProxyState.ChangeLogs.
Proof. intros p _. unfold ProxyState.ChangeLogs, RLock. go. by destruct (proxyLock p). Qed.

(** ** One log at most *)

(** The proxy is as it was, or one change log of the command was applied. *)
Definition one_log (now : Z) (cmd : option Command) {T} (m : PS T) : Prop := ∀ p,
  store_ok (store p) → (m p).2 = p ∨
  ∃ cl, cmd = Some (Cmd cl) ∧ Spec.Namespace cl ≠ "" ∧ (m p).2 = (ApplyChangeLog now (Some cl) p).2.

Lemma one_log_looks now cmd {T} (m : PS T) : looks stored m → one_log now cmd m.
Proof. intros Hm p Hp. left. by apply Hm. Qed.
Lemma one_log_bind now cmd {T U} (m : PS T) (f : T → PS U) :
  looks stored m → (∀ a, one_log now cmd (f a)) → one_log now cmd (m ≫= f).
Proof.
  intros Hm Hf p Hp. rewrite run_bind_unfold. specialize (Hm p Hp).
  destruct (m p) as [[a|e|] p1]; cbn in *; subst p1; [by apply Hf|by left|by left].
Qed.
(** What follows the log only reads. *)
Lemma one_log_then now cmd {T U} (m : PS T) (f : T → PS U) :
  one_log now cmd m → (∀ p a p1, m p = (Return a, p1) → (f a p1).2 = p1) → one_log now cmd (m ≫= f).
Proof.
  intros Hm Hf p Hp. rewrite run_bind_unfold. specialize (Hm p Hp). specialize (Hf p).
  destruct (m p) as [[a|e|] p1]; cbn in *; [|done|done]. by rewrite (Hf _ _ eq_refl).
Qed.

(** The shapes of the handlers. *)
Lemma error_reply_one now cmd code msg : one_log now cmd (error_reply code msg : PS _).
Proof. by intros p _; left. Qed.
Lemma reply_one now cmd (ws : list written) : one_log now cmd (mret ws : PS _).
Proof. by intros p _; left. Qed.
Lemma panic_one now cmd {T} e : one_log now cmd (run_panic e : PS T).
Proof. by intros p _; left. Qed.
Lemma with_body_one now cmd {T} (u : string → gores T) r (k : T → PS (list written)) :
  (∀ x, one_log now cmd (k x)) → one_log now cmd (with_body u r k).
Proof.
  intros Hk. unfold with_body. destruct (rq_body r); [|apply error_reply_one].
  destruct (u a); [apply Hk|apply error_reply_one].
Qed.
Lemma with_namespace_one now cmd ns (k : string → PS (list written)) :
  (∀ ns, ns ≠ "" → one_log now cmd (k ns)) → one_log now cmd (with_namespace ns k).
Proof.
  intros Hk. unfold with_namespace. destruct (String.eqb_spec ns ""); [|by apply Hk].
  apply one_log_bind; [apply looks_get|]. intros p.
  destruct (DisableDefaultNamespace _); [apply error_reply_one|by apply Hk].
Qed.
Lemma require_one now cmd name msg (k : PS (list written)) :
  (name ≠ "" → one_log now cmd k) → one_log now cmd (require name msg k).
Proof.
  intros Hk. unfold require. destruct (String.eqb_spec name ""); [apply error_reply_one|by apply Hk].
Qed.
Lemma NewChangeLog_shape now name (item : Any) ns cmd cl :
  NewChangeLog now (λ _, name) (Some item) ns cmd = Returns cl → Cmd cl = cmd ∧ Spec.Namespace cl ≠ "".
Proof.
  unfold NewChangeLog. destruct (String.eqb_spec ns ""); [done|]. by destruct (String.eqb cmd ""); [|intros [= <-]].
Qed.
Lemma apply_log_one now name item ns cmd code (k : ChangeLog Any → PS (list written)) :
  (∀ cl, looks always (k cl)) → one_log now (Some cmd) (apply_log now name item ns cmd code k).
Proof.
  intros Hk p Hp. unfold apply_log. go.
  destruct (NewChangeLog now (λ _, name) (Some item) ns cmd) as [cl|e] eqn:Hcl; [|by left].
  destruct (NewChangeLog_shape _ _ _ _ _ _ Hcl) as [Hcmd Hns]. right. exists cl.
  split; [by rewrite Hcmd|]. split; [done|]. go.
  destruct (ApplyChangeLog now (Some cl) p) as [[[err|]|e|] p1]; try done. by apply Hk.
Qed.
Lemma wait_for_looks cl (k : PS (list written)) : looks always k → looks always (wait_for cl k).
Proof.
  intros Hk. apply looks_bind; [apply WaitForChanges_looks|]. intros [e|]; [apply looks_ret|done].
Qed.
Lemma respond_all_looks {D T} P code (get : ST ResourceManager (slice D))
    (f : list D → outcome (list T)) wrap : reads get → looks P (respond_all code get f wrap).
Proof.
  intros Hg. apply looks_bind; [by apply looks_rm|]. intros l.
  apply looks_bind; [apply looks_outcome|]. intros ?. apply looks_ret.
Qed.
Lemma namespace_exists_one now cmd ns (k : PS (list written)) :
  one_log now cmd k → one_log now cmd (namespace_exists ns k).
Proof.
  intros Hk. apply one_log_bind; [apply looks_rm, get_item_reads|].
  intros [?|]; [done|apply error_reply_one].
Qed.
Lemma missing_namespace_one now cmd ns (k : PS (list written)) :
  one_log now cmd k → one_log now cmd (missing_namespace ns k).
Proof.
  intros Hk. apply one_log_bind; [apply looks_rm, get_item_reads|].
  intros [?|]; [done|apply error_reply_one].
Qed.
Lemma listed_namespace_one now cmd r (k : string → PS (list written)) :
  (∀ ns, one_log now cmd (k ns)) → one_log now cmd (listed_namespace r k).
Proof.
  intros Hk. unfold listed_namespace. case_match; [by apply with_namespace_one|].
  by apply namespace_exists_one.
Qed.
Lemma refuse_documents_one now cmd col ns limit offset verb (k : PS (list written)) :
  one_log now cmd k → one_log now cmd (refuse_documents col ns limit offset verb k).
Proof.
  intros Hk. apply one_log_bind; [apply GetDocuments_looks|].
  intros [docs|e]; [|apply error_reply_one]. case_match; [apply error_reply_one|done].
Qed.
Lemma readable_one now cmd untyped col ns (k : PS (list written)) :
  one_log now cmd k → one_log now cmd (readable untyped col ns k).
Proof.
  intros Hk. apply one_log_bind; [apply looks_rm, get_item_reads|].
  intros [c|]; [|apply error_reply_one]. cbv zeta. repeat case_match; by (apply error_reply_one || apply Hk).
Qed.

#[local] Ltac reading := first
  [ apply get_item_reads | apply GetRoute_reads | apply GetRoutesByNamespace_reads | apply get_all_reads
  | apply get_by_namespace_reads; intros ?; apply read_reads ].
(** Follow the structure of a handler. *)
#[local] Ltac handler := repeat first
  [ apply error_reply_one | apply reply_one | apply panic_one
  | apply with_body_one; intros ? | apply with_namespace_one; intros ? ?
  | apply require_one; intros ? | apply apply_log_one; intros ?
  | apply namespace_exists_one | apply missing_namespace_one | apply listed_namespace_one; intros ?
  | apply refuse_documents_one | apply readable_one
  | apply wait_for_looks | apply respond_all_looks; reading
  | apply one_log_looks, respond_all_looks; reading
  | apply one_log_bind; [first [apply looks_get | apply ChangeLogs_looks | apply looks_outcome | apply looks_rm; reading
      | apply GetDocuments_looks | apply GetDocumentByID_looks]|intros ?]
  | apply looks_ret | case_match ].

Lemma PutService_one now r : one_log now (Some AddServiceCommand) (PutService now r).
Proof.
  unfold PutService. repeat (case_match; try apply error_reply_one; try apply reply_one).
  all: apply one_log_then; [handler|by intros p ws p1 _].
Qed.

Lemma serve_one version now e r : one_log now (command_of e) (serve version now e r).
Proof.
  destruct e; cbn [serve command_of]; try apply PutService_one;
    unfold PutNamespace, DeleteNamespace, ListNamespaces, GetNamespace_, PutSecret, DeleteSecret,
      ListSecrets, GetSecret_, PutDomain, DeleteDomain_, ListDomains, GetDomain_, PutModule,
      DeleteModule, ListModules, GetModule_, PutRoute, DeleteRoute, ListRoutes, GetRoute_,
      DeleteService, ListServices, GetService_, PutCollection, ListCollections, GetCollection_,
      DeleteCollection, ListDocuments, GetDocument_, PutDocument, DeleteDocuments_, DeleteDocument_,
      GetChangeLogs_, Healthz, Readyz; cbv zeta; handler.
Qed.

(** C15: A request to the admin API changes the proxy by at most one change
    log, of the command of its endpoint and with a namespace; a request that
    is refused before, and every request that only reads, leaves the proxy as
    it was. *)
Theorem serve_one_log version now e r p (Hs : store_ok (store p)) :
  (serve version now e r p).2 = p ∨
  ∃ cl, command_of e = Some (Cmd cl) ∧ Spec.Namespace cl ≠ "" ∧
    (serve version now e r p).2 = (ApplyChangeLog now (Some cl) p).2.
Proof. exact (serve_one version now e r p Hs). Qed.

(** A request to the admin API that finds the lock of the proxy free leaves
    it free, however it ends. *)
Theorem serve_frees_lock version now e r p (Hs : store_ok (store p)) (Hp : proxyLock p = false) :
  proxyLock (serve version now e r p).2 = false.
Proof.
  destruct (serve_one version now e r p Hs) as [->|(cl & _ & _ & ->)]; [done|].
  unfold ApplyChangeLog. go. destruct (negb (Ready p)); [done|].
  pose proof (processChangeLog_free now (Some cl) true) as Hfree.
  destruct (Raft p) as [[|]|]; cbn [negb]; [|done|].
  - destruct (Hfree false p) as [H _]. destruct (H Hp) as [_ Hl]. go.
    destruct (processChangeLog now (Some cl) true false p) as [[[err|]|err|] p1]; cbn in *; try done.
    go. by destruct (marshal_log cl).
  - destruct (Hfree true p) as [H _]. by destruct (H Hp).
Qed.

(** ** Documents *)

(** A collection of the manager, and the documents of the store. *)
Definition has_collection p (ns col : string) (c : DGateCollection.t) : Prop :=
  (∃ n, ResourceManager.GetNamespace ns (rm p) = Returns (Some n, rm p)) ∧
  ResourceManager.GetCollection col ns (rm p) = Returns (Some c, rm p).

Definition holds_documents p (ns col : string) (ds : list Document.t) : Prop :=
  store_ok (store p) ∧ ∃ es, lists_prefix (store_map (store p)) (docKey "" col ns) es ∧
    Forall2 (λ (e : string * string) d, unmarshal_doc e.2 = Ok d) es ds.

Lemma on_rm_found {T} (m : ST ResourceManager T) p a : m (rm p) = Returns (a, rm p) →
  on_rm m p = (Return a, p).
Proof. intros H. unfold on_rm, zoom. by rewrite H, set_rm_id. Qed.

(** What [GetDocuments] answers. *)
Definition window (limit offset : Z) (ds : list Document.t) : slice Document.t :=
  if limit =? 0 then None else Some (all_but_nth limit (drop (Z.to_nat offset) ds)).

Lemma GetDocuments_ok p ns col c ds limit offset :
  has_collection p ns col c → holds_documents p ns col ds →
  GetDocuments col ns limit offset p = (Return (Ok (window limit offset ds)), p).
Proof.
  intros [[n Hn] Hc] (Hok & es & Hes & Hds). unfold GetDocuments, checked. go.
  rewrite (on_rm_found _ _ _ Hn). go. rewrite (on_rm_found _ _ _ Hc). unfold on_store, zoom, window.
  destruct (Z.eqb_spec limit 0) as [->|Hl].
  - unfold FetchDocuments. cbn. st. by rewrite set_store_id.
  - rewrite (FetchDocuments_ok (store p) col ns limit offset es ds) by done. by rewrite set_store_id.
Qed.

Lemma with_namespace_named ns (k : string → PS (list written)) p :
  ns ≠ "" → with_namespace ns k p = k ns p.
Proof. intros H. unfold with_namespace. by rewrite (proj2 (String.eqb_neq _ _)). Qed.
Lemma require_named name msg (k : PS (list written)) p : name ≠ "" → require name msg k p = k p.
Proof. intros H. unfold require. by rewrite (proj2 (String.eqb_neq _ _)). Qed.

(** A collection that the manager has made from a record: its type is lost. *)
Definition made (c : DGateCollection.t) : Prop := ∃ ns col, TransformCollection ns col = Returns c.

Lemma made_untyped c : made c → DGateCollection.Type_ c = "".
Proof.
  intros (ns & col & H). unfold TransformCollection in H.
  st_in H. repeat (case_match; st_in H; try done); by injection H as <-.
Qed.

(** GET /document takes the limit of the request for the offset, and the
    offset for the limit: it answers the documents after the first [limit],
    but for the [offset]-th of those; and none at all where the request has
    no offset, whatever is stored. *)
Theorem ListDocuments_window r p c ds limit offset
  (Hns : rq_query r "namespace" ≠ "") (Hcol : rq_query r "collection" ≠ "")
  (Hc : has_collection p (rq_query r "namespace") (rq_query r "collection") c)
  (Hmade : made c)
  (Hvis : DGateCollection.Visibility c ≠ CollectionVisibilityPrivate)
  (Hds : holds_documents p (rq_query r "namespace") (rq_query r "collection") ds)
  (Hlimit : ParseInt (rq_query r "limit") 100 = Some limit)
  (Hoffset : ParseInt (rq_query r "offset") 0 = Some offset) :
  ∃ docs, ListDocuments r p =
      (Return [SetHeader "Content-Type" "application/json";
               WriteDocuments docs limit offset (Z.of_nat (length (elems docs)))
                 (rq_query r "collection") (rq_query r "namespace")], p) ∧
    (offset = 0 → docs = None) ∧
    (offset ≠ 0 → docs = Some (all_but_nth offset (drop (Z.to_nat limit) ds))).
Proof.
  exists (window offset limit ds). split.
  - unfold ListDocuments. rewrite with_namespace_named by done. unfold missing_namespace. go.
    pose proof Hc as [[n Hn] Hcc]. rewrite (on_rm_found _ _ _ Hn). go. rewrite require_named by done.
    unfold readable. go. rewrite (on_rm_found _ _ _ Hcc). go. rewrite (made_untyped c Hmade). cbn [andb negb String.eqb].
    rewrite (proj2 (String.eqb_neq _ _) Hvis), Hlimit, Hoffset. cbn. go.
    by rewrite (GetDocuments_ok p _ _ c ds).
  - unfold window. split; [by intros ->|]. intros H. by rewrite (proj2 (Z.eqb_neq _ _)).
Qed.

(** C17: A collection that the manager has made has no type, so the guards of
    its documents are never reached: PUT /collection replaces it and DELETE
    /collection deletes it whatever documents are stored, and GET
    /document/{id} refuses every document that is stored in it. *)
Theorem documents_do_not_protect now r r' p c collection eb
  (Hbody : rq_body r = Ok eb) (Hdec : body_collection eb = Ok collection)
  (Hname : Collection.Name collection ≠ "")
  (Hns : Collection.NamespaceName collection = rq_query r "namespace")
  (Hns' : rq_query r "namespace" ≠ "")
  (Hcol : Collection.Name collection = rq_param r "collection_name")
  (Hc : has_collection p (rq_query r "namespace") (rq_param r "collection_name") c) (Hmade : made c)
  (Hrns : rq_query r' "namespace" = rq_query r "namespace")
  (Hrcol : rq_query r' "collection" = rq_param r "collection_name")
  (Hrid : rq_param r' "document_id" ≠ "") :
  PutCollection now r p =
    apply_log now (Collection.Name collection) (item_collection collection)
      (Collection.NamespaceName collection) AddCollectionCommand StatusInternalServerError
      (λ cl, wait_for cl (respond_all StatusCreated
        (GetCollectionsByNamespace (Collection.NamespaceName collection))
        TransformDGateCollections Collections_)) p ∧
  DeleteCollection now r p =
    apply_log now (DGateCollection.Name c) (item_dgate_collection c) (rq_query r "namespace")
      DeleteCollectionCommand StatusInternalServerError (λ _, mret [WriteHeader StatusAccepted]) p ∧
  GetDocument_ r' p =
    (Return [JsonError StatusBadRequest "collection is not a document collection"], p).
Proof.
  pose proof Hc as [_ Hcc]. pose proof (made_untyped c Hmade) as Htype. split; [|split].
  - unfold PutCollection, with_body. rewrite Hbody, Hdec, require_named, with_namespace_named
      by (done || by rewrite Hns).
    assert (collection_in (Collection.NamespaceName collection) collection = collection) as ->
      by (by destruct collection).
    rewrite <- Hcol in *. rewrite Hns. go. by rewrite (on_rm_found _ _ _ Hcc), Htype.
  - unfold DeleteCollection. cbv zeta. rewrite require_named, with_namespace_named by (done || by rewrite <- Hcol).
    go. by rewrite (on_rm_found _ _ _ Hcc), Htype.
  - unfold GetDocument_. cbv zeta. rewrite with_namespace_named, !require_named
      by (done || by rewrite Hrns || by rewrite Hrcol, <- Hcol).
    unfold readable. go. by rewrite Hrns, Hrcol, (on_rm_found _ _ _ Hcc), Htype.
Qed.

(** The guards themselves, on a collection that has the type: that of PUT
    /collection never sees a document, and that of DELETE /collection only
    from the third on. *)
Theorem guards_miss_documents p ns col c ds verb (k : PS (list written))
  (Hc : has_collection p ns col c) (Hds : holds_documents p ns col ds) :
  refuse_documents col ns 0 0 verb k p = k p ∧
  refuse_documents col ns 1 1 verb k p =
    if (length ds <=? 2)%nat then k p
    else (Return [JsonError StatusBadRequest (documents_exist verb)], p).
Proof.
  unfold refuse_documents. split; go; rewrite (GetDocuments_ok p _ _ c ds) by done; [done|].
  unfold window. cbn. destruct ds as [|d1 [|d2 [|d3 ds]]]; done.
Qed.

(** A URL that does not parse is reported to the client, and the service is
    added all the same. *)
Theorem PutService_reports_and_adds now r p eb svc n u err
  (Hbody : rq_body r = Ok eb) (Hdec : body_service eb = inl svc)
  (Hretries : Service.Retries svc = Some n) (Hn : 0 ≤ n)
  (Htimeout : negative (Service.RetryTimeout svc) = false)
  (Hurls : Service.URLs svc = Some [u]) (Hu : url_Parse u = Err err) :
  PutService now r p =
    (ws ← with_namespace (Service.NamespaceName svc) (λ ns,
       apply_log now (Service.Name svc) (item_service (service_in ns svc)) ns AddServiceCommand
         StatusBadRequest (λ cl, wait_for cl (respond_all StatusCreated (GetServicesByNamespace ns)
           (λ l, TransformDGateServices (Some <$> l)) Services_)));
     mret (JsonError StatusBadRequest (url_prefix 0 +:+ err) :: ws)) p.
Proof.
  unfold PutService. rewrite Hbody, Hdec, Hretries. cbn [negative].
  rewrite (proj2 (Z.ltb_ge _ _) Hn), Htimeout, Hurls. unfold elems, default, id. cbn. by rewrite Hu.
Qed.

(** The data of a secret survives its way through the API: PUT /secret
    encodes it, the manager decodes it, so the modules read what the client
    sent; a client that reads it back gets no data. *)
Theorem secret_data_kept (sec : Secret.t) ns :
  TransformSecret (Some ns) (secret_data (Base64.RawEncodeToString (Secret.Data sec)) sec) =
    Ok (DGateSecret.mk (Secret.Name sec) 0 0 (Some ns) (Secret.Data sec) (Secret.Tags sec)).
Proof.
  unfold TransformSecret. cbn. pose proof (Base64.RawStdDecode_encode (Secret.Data sec)) as Hd.
  destruct (String.eqb_spec (Base64.RawEncodeToString (Secret.Data sec)) "") as [He|_]; [|by rewrite Hd].
  rewrite He in Hd. by injection Hd as <-.
Qed.
End api.

(** ** A concrete API

    A body is the name of a resource, or of a collection of the default
    namespace. *)
#[local] Existing Instances text_externals sample_runtime sample_runtime_laws sample_env text_encoding
  sample_node Mem_laws.

Definition sample_admin : AdminEnv text_externals string := {|
  body_namespace b := Ok (Spec.Namespace.mk b None);
  body_service b := inl (named_service b);
  body_route b := Ok (named_route b);
  body_module b := Ok (Module_.mk b "default" "x" "" None);
  body_domain b := Ok (Domain.mk b "default" (Some [b]) 0 "" "" None);
  body_collection b := Ok (Collection.mk text_externals b "default" None
    CollectionVisibilityPublic CollectionTypeDocument None);
  body_secret b := Ok (Secret.mk b "default" "x" None);
  item_secret := Secret.Name; item_dgate_collection := DGateCollection.Name;
  url_Scheme _ := "http"; url_Host u := u;
  schema_Validate _ _ := Valid; raft_State := "Follower" |}.
#[local] Existing Instance sample_admin.

Definition admin_query (collection key : string) : string :=
  if String.eqb key "namespace" then "default"
  else if String.eqb key "collection" then collection else "".
Definition collection_request : admin_request :=
  MkAdminRequest (Ok "c") (admin_query "c") (λ _, "c").

(** A proxy that is ready, with the collection of three documents. *)
Definition documents_proxy : @ProxyState text_externals string Mem.MemStore sample_env :=
  set_store store3 (serve "" 0 EPutCollection collection_request (set_ready true start_proxy)).2.

Definition c_collection : DGateCollection.t := DGateCollection.mk text_externals "c"
  (Some (DGateNamespace.mk "default" (Some ["default"]))) (Some "{}") "{}" "" CollectionVisibilityPublic None.

Lemma c_made : made c_collection.
Proof.
  exists (DGateCollection.Namespace c_collection),
    (Collection.mk text_externals "c" "default" (Some "{}") CollectionVisibilityPublic "" None).
  vm_compute. reflexivity.
Qed.

Lemma reads_answer {T} (m : ST ResourceManager T) m0 a : reads m →
  match m m0 with Returns (x, _) => Returns x | Panics e => Panics e end = Returns a →
  m m0 = Returns (a, m0).
Proof.
  intros Hm. specialize (Hm m0). destruct (m m0) as [[x m']|e]; [|done].
  intros [= ->]. cbn in Hm. by subst.
Qed.

Lemma c_in_proxy : has_collection documents_proxy "default" "c" c_collection.
Proof.
  split.
  - exists (DGateNamespace.mk "default" (Some ["default"])).
    apply reads_answer; [apply get_item_reads|]. vm_compute. reflexivity.
  - apply reads_answer; [apply get_item_reads|]. vm_compute. reflexivity.
Qed.

Lemma c_documents : holds_documents (SL := Mem_laws) documents_proxy "default" "c"
  [sample_doc "1"; sample_doc "2"; sample_doc "3"].
Proof.
  assert (store documents_proxy = store3) as Hs by reflexivity.
  unfold holds_documents. rewrite Hs. split; [apply store3_wf|].
  exists (filter (λ e, Strings.HasPrefix e.1 (docKey "" "c" "default") = true) (tree_list store3)). split.
  - apply Mem_lists, store3_wf.
  - vm_compute. by repeat constructor.
Qed.

Lemma serve_one_log_witness : ∃ cl, Cmd cl = DeleteCollectionCommand ∧
  (serve "" 0 EDeleteCollection collection_request documents_proxy).2 =
  (ApplyChangeLog 0 (Some cl) documents_proxy).2.
Proof.
  destruct (serve_one_log (SL := Mem_laws) "" 0 EDeleteCollection collection_request documents_proxy)
    as [Hsame|(cl & Hcmd & _ & H)].
  - apply c_documents.
  - exfalso. apply (f_equal (λ p, match ResourceManager.GetCollection "c" "default" (rm p) with
                                  | Returns (Some _, _) => true | _ => false end)) in Hsame.
    vm_compute in Hsame. discriminate Hsame.
  - exists cl. split; [|exact H]. inversion Hcmd. reflexivity.
Defined.

Lemma serve_frees_lock_witness :
  proxyLock (serve "" 0 EDeleteCollection collection_request documents_proxy).2 = false.
Proof.
  apply (serve_frees_lock (SL := Mem_laws)); [apply c_documents|vm_compute; reflexivity].
Defined.

(** A page of one document after the first: the answer is the documents after
    the first but for the first of those. *)
Definition page_request : admin_request := MkAdminRequest (Ok "")
  (λ key, if String.eqb key "limit" then "1" else if String.eqb key "offset" then "1"
          else admin_query "c" key) (λ _, "").

Lemma ListDocuments_window_witness :
  ListDocuments page_request documents_proxy =
    (Return [SetHeader "Content-Type" "application/json";
             WriteDocuments (Some [sample_doc "3"]) 1 1 1 "c" "default"], documents_proxy) ∧
  ∃ w, ListDocuments collection_request documents_proxy = (Return [w; WriteDocuments None 100 0 0 "c" "default"],
    documents_proxy).
Proof.
  split.
  - destruct (ListDocuments_window (SL := Mem_laws) page_request documents_proxy c_collection
      [sample_doc "1"; sample_doc "2"; sample_doc "3"] 1 1)
      as (docs & H & _ & Hdocs); [done|done|apply c_in_proxy|apply c_made|done|apply c_documents|done|done|].
    rewrite (Hdocs ltac:(done)) in H. exact H.
  - destruct (ListDocuments_window (SL := Mem_laws) collection_request documents_proxy c_collection
      [sample_doc "1"; sample_doc "2"; sample_doc "3"] 100 0)
      as (docs & H & Hdocs & _); [done|done|apply c_in_proxy|apply c_made|done|apply c_documents|done|done|].
    rewrite (Hdocs ltac:(done)) in H. by eexists.
Defined.

Lemma documents_do_not_protect_witness :
  (DeleteCollection 0 collection_request documents_proxy).1 = Return [WriteHeader StatusAccepted] ∧
  GetDocument_ (MkAdminRequest (Ok "") (admin_query "c") (λ _, "1")) documents_proxy =
    (Return [JsonError StatusBadRequest "collection is not a document collection"], documents_proxy).
Proof.
  destruct (documents_do_not_protect 0 collection_request
    (MkAdminRequest (Ok "") (admin_query "c") (λ _, "1")) documents_proxy c_collection
    (Collection.mk text_externals "c" "default" None CollectionVisibilityPublic CollectionTypeDocument None) "c")
    as (_ & Hdel & Hget);
    [reflexivity|reflexivity|done|reflexivity|done|reflexivity|apply c_in_proxy|apply c_made
    |reflexivity|reflexivity|done|].
  split; [|exact Hget]. rewrite Hdel. vm_compute. reflexivity.
Defined.
