(* ===== verification/Http.v ===== *)
(** * What the proxy uses of net/http, net/url and path

    Headers under their canonical keys, the fields of a URL that the proxy
    reads and writes, requests, and the package path: [Clean] works on the
    elements between the slashes. *)
From Stdlib Require Import ZArith Lia Ascii.
From stdpp Require Import base gmap strings list fin_maps.
From S2P Require Import Prelude Pattern Linker.
Import Strings.

(** ** Package strings *)

Definition TrimPrefix (s prefix : string) : string :=
  if HasPrefix s prefix
  then String.substring (String.length prefix) (String.length s - String.length prefix) s else s.
Definition TrimSuffix (s suffix : string) : string :=
  if HasSuffix s suffix
  then String.substring 0 (String.length s - String.length suffix) s else s.

(** ** Package path *)

Fixpoint elements (s : string) : list string :=
  match s with
  | EmptyString => [""]
  | String c s =>
      if Ascii.eqb c "/" then "" :: elements s
      else match elements s with
           | e :: es => String c e :: es
           | [] => [String c ""]
           end
  end.

(** One element after those of [acc], which is reversed. *)
Definition clean_step (rooted : bool) (acc : list string) (e : string) : list string :=
  if String.eqb e "" || String.eqb e "." then acc
  else if String.eqb e ".." then
    match acc with
    | [] => if rooted then [] else [e]
    | last :: acc' => if String.eqb last ".." then e :: acc else acc'
    end
  else e :: acc.
Definition clean_elements (rooted : bool) (es : list string) : list string :=
  reverse (foldl (clean_step rooted) [] es).

Definition Clean (path : string) : string :=
  let rooted := HasPrefix path "/" in
  let out := String.concat "/" (clean_elements rooted (elements path)) in
  if rooted then "/" +:+ out else if String.eqb out "" then "." else out.

(** [path.Join] of two elements. *)
Definition Join (a b : string) : string :=
  if String.eqb a "" then if String.eqb b "" then "" else Clean b
  else Clean (a +:+ "/" +:+ b).

(** ** Package net/url *)

Record url : Type := MkUrl { Scheme : string; Host : string; Path : string; RawQuery : string }.

(** What a request line carries of a URL (without escapes). *)
Definition RequestURI (u : url) : string :=
  (if String.eqb (Path u) "" then "/" else Path u) +:+
  (if String.eqb (RawQuery u) "" then "" else "?" +:+ RawQuery u).

(** *** Queries *)

Module Query.
Definition hex (c : ascii) : option N :=
  let n := N_of_ascii c in
  if (48 <=? n)%N && (n <=? 57)%N then Some (n - 48)%N
  else if (97 <=? n)%N && (n <=? 102)%N then Some (n - 87)%N
  else if (65 <=? n)%N && (n <=? 70)%N then Some (n - 55)%N else None.
Definition is_hex (c : ascii) : bool := match hex c with Some _ => true | None => false end.

(** [QueryUnescape]; [None] is its error. *)
Fixpoint unescape (s : string) : option string :=
  match s with
  | EmptyString => Some ""
  | String c s =>
      if Ascii.eqb c "%" then
        match s with
        | String a (String b s) =>
            match hex a, hex b, unescape s with
            | Some x, Some y, Some s => Some (String (ascii_of_N (x * 16 + y)) s)
            | _, _, _ => None
            end
        | _ => None
        end
      else s ← unescape s; Some (String (if Ascii.eqb c "+" then " "%char else c) s)
  end.

(** [QueryEscape] *)
Definition hex_upper (n : N) : ascii := ascii_of_N (if (n <? 10)%N then n + 48 else n + 55).
Definition unreserved (c : ascii) : bool :=
  let n := N_of_ascii c in
  ((48 <=? n)%N && (n <=? 57)%N) || ((97 <=? n)%N && (n <=? 122)%N) || ((65 <=? n)%N && (n <=? 90)%N)
  || Ascii.eqb c "-" || Ascii.eqb c "_" || Ascii.eqb c "." || Ascii.eqb c "~".
Definition escape_char (c : ascii) : string :=
  if unreserved c then String c ""
  else if Ascii.eqb c " " then "+"
  else String "%" (String (hex_upper (N_of_ascii c / 16)) (String (hex_upper (N_of_ascii c mod 16)) "")).
Fixpoint escape (s : string) : string :=
  match s with EmptyString => "" | String c s => escape_char c +:+ escape s end.

(** [strings.Cut] *)
Fixpoint cut (sep : ascii) (s : string) : string * string :=
  match s with
  | EmptyString => ("", "")
  | String c s => if Ascii.eqb c sep then ("", s) else let '(a, b) := cut sep s in (String c a, b)
  end.
Fixpoint pieces (s : string) : list string :=
  match s with
  | EmptyString => [""]
  | String c s => if Ascii.eqb c "&" then "" :: pieces s
                  else match pieces s with p :: ps => String c p :: ps | [] => [String c ""] end
  end.

(** [ParseQuery], without its error; the values by key, in key order. *)
Definition parse_step (m : list (string * list string)) (piece : string) : list (string * list string) :=
  if Contains piece ";" || String.eqb piece "" then m else
  let '(key, value) := cut "=" piece in
  match unescape key, unescape value with
  | Some key, Some value => ainsert key (default [] (afind key m) ++ [value]) m
  | _, _ => m
  end.
Definition ParseQuery (s : string) : list (string * list string) := foldl parse_step [] (pieces s).
(** [Values.Encode] *)
Definition Encode (m : list (string * list string)) : string :=
  String.concat "&" (m ≫= λ '(k, vs), (λ v, escape k +:+ "=" +:+ escape v) <$> vs).

(** No semicolon, and every percent sign starts an escape. *)
Fixpoint proper (s : string) : bool :=
  match s with
  | EmptyString => true
  | String c s =>
      if Ascii.eqb c ";" then false
      else if Ascii.eqb c "%" then
        match s with String a (String b s) => is_hex a && is_hex b && proper s | _ => false end
      else proper s
  end.
(** [cleanQueryParams] of httputil. *)
Definition clean (s : string) : string := if proper s then s else Encode (ParseQuery s).

Lemma proper_app a b : proper a = true → proper (a +:+ b) = proper b.
Proof.
  remember (String.length a) as n eqn:Hn. assert (String.length a ≤ n)%nat as Hle by lia. clear Hn. revert a Hle.
  induction n as [|n IH]; intros a Hle Ha; [by destruct a; [|cbn in Hle; lia]|].
  destruct a as [|c a]; [done|]. change (proper (String c a +:+ b)) with (proper (String c (a +:+ b))).
  cbn [proper] in *. cbn [String.length] in Hle.
  destruct (Ascii.eqb c ";"); [done|]. destruct (Ascii.eqb c "%"); [|apply IH; [lia|done]].
  destruct a as [|x [|y a]]; [done..|]. change (String x (String y a) +:+ b) with (String x (String y (a +:+ b))).
  apply andb_true_iff in Ha as [Hxy Ha]. rewrite Hxy. cbn [andb String.length] in *. apply IH; [lia|done].
Qed.
Lemma proper_escape s : proper (escape s) = true.
Proof.
  induction s as [|c s IH]; [done|]. cbn [escape]. rewrite proper_app; [done|]. clear.
  destruct c as [[] [] [] [] [] [] [] []]; vm_compute; reflexivity.
Qed.
Lemma proper_concat l : Forall (λ s, proper s = true) l → proper (String.concat "&" l) = true.
Proof.
  induction 1 as [|s l Hs Hl IH]; [done|]. cbn [String.concat]. destruct l as [|t l]; [done|].
  rewrite proper_app by done. exact IH.
Qed.
(** What is sent is always proper, and cleaning it again changes nothing. *)
Lemma clean_proper s : proper (clean s) = true ∧ clean (clean s) = clean s.
Proof.
  assert (proper (clean s) = true) as H; [|split; [done|]; unfold clean at 1; by rewrite H].
  unfold clean. destruct (proper s) eqn:Hs; [done|]. unfold Encode. apply proper_concat, Forall_forall.
  intros p Hp. apply list_elem_of_bind in Hp as ([k vs] & Hp & _). apply list_elem_of_fmap in Hp as (v & -> & _).
  rewrite proper_app by apply proper_escape. exact (proper_escape v).
Qed.
Example clean_semicolon : clean "b=2&a=1;c=3&b=x%zz&b=%41+~" = "b=2&b=A+~".
Proof. reflexivity. Qed.
End Query.

(** ** Headers *)

Definition Header : Type := gmap string (list string).

Definition between (lo hi c : ascii) : bool :=
  (N.leb (N_of_ascii lo) (N_of_ascii c)) && (N.leb (N_of_ascii c) (N_of_ascii hi)).
Definition lower_letter (c : ascii) : bool := between "a" "z" c.
Definition upper_letter (c : ascii) : bool := between "A" "Z" c.
Definition to_upper (c : ascii) : ascii :=
  if lower_letter c then ascii_of_N (N_of_ascii c - 32) else c.
Definition to_lower (c : ascii) : ascii :=
  if upper_letter c then ascii_of_N (N_of_ascii c + 32) else c.

Fixpoint any_char (f : ascii → bool) (s : string) : bool :=
  match s with EmptyString => false | String c s => f c || any_char f s end.

(** A byte that a header field may have. *)
Definition token (c : ascii) : bool :=
  lower_letter c || upper_letter c || between "0" "9" c || any_char (Ascii.eqb c) "!#$%&'*+-.^_`|~".

(** Upper case at the start and after a hyphen, lower case elsewhere. *)
Fixpoint canonical (upper : bool) (s : string) : string :=
  match s with
  | EmptyString => ""
  | String c s => String (if upper then to_upper c else to_lower c) (canonical (Ascii.eqb c "-") s)
  end.
Definition CanonicalHeaderKey (k : string) : string :=
  if any_char (λ c, negb (token c)) k then k else canonical true k.

Definition Values (h : Header) (k : string) : list string := default [] (h !! CanonicalHeaderKey k).
Definition Get (h : Header) (k : string) : string := default "" (head (Values h k)).
Definition Set_ (k v : string) (h : Header) : Header := <[CanonicalHeaderKey k := [v]]> h.
Definition Add (k v : string) (h : Header) : Header :=
  <[CanonicalHeaderKey k := Values h k ++ [v]]> h.
Definition Del (k : string) (h : Header) : Header := delete (CanonicalHeaderKey k) h.

(** ** Requests and responses *)

(** A request refers to its URL, which others may share. *)
Record Request : Type := MkRequest {
  Method : string;
  rq_URL : loc;
  rq_Host : string;
  RemoteAddr : string;
  rq_TLS : bool;
  rq_Header : Header;
  rq_Body : string }.

Record Response : Type := MkResponse {
  StatusCode : Z;
  rs_Header : Header;
  rs_Body : string }.

(** ** Properties of paths *)

Lemma elements_nonempty s : elements s ≠ [].
Proof. destruct s as [|c s]; simpl; [done|]. by repeat case_match. Qed.

Lemma elements_join a b : elements (a +:+ String "/" b) = elements a ++ elements b.
Proof.
  induction a as [|c a IH]; simpl; [done|]. rewrite IH. destruct (Ascii.eqb c "/"); [done|].
  pose proof (elements_nonempty a). by destruct (elements a).
Qed.

(** The elements that stay where there is no dot-dot. *)
Definition named (e : string) : bool := negb (String.eqb e "" || String.eqb e ".").
Definition climbs (s : string) : Prop := ".." ∈ elements s.

Lemma clean_step_named rooted es : ".." ∉ es → ∀ acc,
  foldl (clean_step rooted) acc es = reverse (filter named es) ++ acc.
Proof.
  induction es as [|e es IH]; intros Hes acc; [done|]. rewrite not_elem_of_cons in Hes.
  destruct Hes as [He Hes]. cbn [foldl]. rewrite IH by done. unfold clean_step.
  rewrite (proj2 (String.eqb_neq e "..")) by congruence. rewrite filter_cons.
  assert (named e = negb (String.eqb e "" || String.eqb e ".")) as -> by done.
  destruct (String.eqb e "" || String.eqb e "."); [done|]. change (decide (negb false)) with (decide True). rewrite decide_True by done.
  by rewrite reverse_cons, <-(assoc_L (++)).
Qed.

Lemma HasPrefix_rooted p : HasPrefix p "/" = true ↔ ∃ p', p = String "/" p'.
Proof. apply HasPrefix_true. Qed.

Lemma Clean_rooted p : Clean (String "/" p) =
  String "/" (String.concat "/" (clean_elements true (elements (String "/" p)))).
Proof.
  unfold Clean. assert (HasPrefix (String "/" p) "/" = true) as -> by (apply HasPrefix_rooted; eauto).
  done.
Qed.

Lemma Join_rooted a b : Join (String "/" a) b =
  String "/" (String.concat "/" (clean_elements true (elements (String "/" a) ++ elements b))).
Proof.
  unfold Join. cbn [String.eqb]. rewrite <-elements_join. apply (Clean_rooted (a +:+ "/" +:+ b)).
Qed.

Lemma concat_app (xs ys : list string) : xs ≠ [] → ys ≠ [] →
  String.concat "/" (xs ++ ys) = String.concat "/" xs +:+ String "/" (String.concat "/" ys).
Proof.
  intros Hxs Hys. induction xs as [|x xs IH]; [done|]. destruct xs as [|x' xs].
  - by destruct ys.
  - change (x +:+ "/" +:+ String.concat "/" ((x' :: xs) ++ ys) =
      (x +:+ "/" +:+ String.concat "/" (x' :: xs)) +:+ String "/" (String.concat "/" ys)).
    rewrite IH by done. by rewrite !string_app_assoc.
Qed.

(** A path at or under another. *)
Definition under (base p : string) : Prop :=
  p = base ∨ base = "/" ∨ HasPrefix p (base +:+ "/") = true.

(** A join stays under its first argument unless the second climbs. *)
Lemma Join_under a b : HasPrefix a "/" = true → ¬ climbs b → under (Clean a) (Join a b).
Proof.
  intros [a' ->]%HasPrefix_rooted Hb. rewrite Join_rooted, Clean_rooted. unfold clean_elements.
  rewrite foldl_app, (clean_step_named true (elements b)), reverse_app, reverse_involutive by done.
  set (xs := reverse _). set (ys := filter _ _).
  destruct (decide (ys = [])) as [->|Hys]; [left; by rewrite app_nil_r|]. right.
  destruct (decide (xs = [])) as [->|Hxs]; [by left|]. right.
  apply HasPrefix_true. rewrite concat_app by done. exists (String.concat "/" ys).
  cbn. by rewrite <-!string_app_assoc.
Qed.

(** An element of its own: no slash, and nothing that [Clean] drops. *)
Definition plain (e : string) : Prop := elements e = [e] ∧ e ≠ "" ∧ e ≠ "." ∧ e ≠ "..".

Lemma clean_step_plain rooted acc e : plain e → clean_step rooted acc e = e :: acc.
Proof.
  intros (_ & H0 & H1 & H2). unfold clean_step. by rewrite !(proj2 (String.eqb_neq e _)).
Qed.
Lemma clean_step_up rooted acc e : plain e → clean_step rooted (e :: acc) ".." = acc.
Proof. intros (_ & _ & _ & H2). unfold clean_step. cbn. by rewrite (proj2 (String.eqb_neq e _)). Qed.

(** One dot-dot takes the first argument's only element away. *)
Lemma Join_climbs a b : plain a → plain b → Join ("/" +:+ a) ("../" +:+ b) = "/" +:+ b.
Proof.
  intros Ha Hb. change ("/" +:+ a) with (String "/" a). rewrite Join_rooted.
  change (elements (String "/" a)) with ("" :: elements a).
  change (elements ("../" +:+ b)) with (".." :: elements b).
  destruct Ha as [Ea Ha'], Hb as [Eb Hb']. rewrite Ea, Eb. unfold clean_elements. cbn [foldl app].
  change (clean_step true [] "") with ([] : list string). by rewrite (clean_step_plain _ _ b), (clean_step_plain _ _ a), clean_step_up.
Qed.

Lemma elements_no_slash s e : e ∈ elements s → HasPrefix e "/" = false.
Proof.
  revert e. induction s as [|c s IH]; intros e; simpl.
  - intros ->%list_elem_of_singleton. done.
  - destruct (Ascii.eqb_spec c "/") as [->|Hc].
    + intros [->|He]%elem_of_cons; [done|by apply IH].
    + intros He. assert (∃ e', e = String c e' ∨ e ∈ elements s) as (e' & [->|?]).
      { destruct (elements s) as [|x xs]; [apply list_elem_of_singleton in He; naive_solver|].
        apply elem_of_cons in He as [->|?]; [by exists x; left|]. exists ""; right. by right. }
      * apply not_true_iff_false. rewrite HasPrefix_rooted. naive_solver.
      * by apply IH.
Qed.

(** A relative path stays relative. *)
Lemma Clean_relative p : p ≠ "" → HasPrefix p "/" = false → HasPrefix (Clean p) "/" = false ∧ Clean p ≠ "".
Proof.
  intros Hne Hp. unfold Clean. rewrite Hp.
  assert (∀ es, Forall (λ e, HasPrefix e "/" = false ∧ e ≠ "") es →
    String.concat "/" es = "" ∨ HasPrefix (String.concat "/" es) "/" = false) as Hcat.
  { intros [|e es] He; [by left|]. apply list.Forall_cons in He as [[He He'] _].
    destruct e as [|c e]; [done|]. right. destruct es; [done|].
    apply not_true_iff_false. rewrite HasPrefix_rooted. intros (p' & [= -> _]).
    apply not_true_iff_false in He. apply He, HasPrefix_rooted. eauto. }
  destruct (String.eqb_spec (String.concat "/" (clean_elements false (elements p))) "") as [|Hc]; [done|].
  destruct (Hcat (clean_elements false (elements p))) as [|H]; [|done|done].
  unfold clean_elements. apply Forall_reverse.
  assert (∀ es acc, (∀ e, e ∈ es → HasPrefix e "/" = false) →
    Forall (λ e, HasPrefix e "/" = false ∧ e ≠ "") acc →
    Forall (λ e, HasPrefix e "/" = false ∧ e ≠ "") (foldl (clean_step false) acc es)) as Hfold.
  { intros es. induction es as [|e es IH]; intros acc Hes Hacc; [done|]. cbn [foldl]. apply IH.
    - intros e' He'. apply Hes. by right.
    - assert (HasPrefix e "/" = false) as He by (apply Hes; left). unfold clean_step.
      destruct (String.eqb_spec e ""); [done|]. destruct (String.eqb e "."); [done|]. cbn.
      destruct (String.eqb e ".."); [|by constructor].
      destruct acc as [|last acc]; [by repeat constructor|].
      destruct (String.eqb last ".."); [by constructor|]. by apply list.Forall_cons in Hacc as [_ ?]. }
  apply Hfold; [|done]. apply elements_no_slash.
Qed.

(** ** Trimming *)

Lemma substring_skip p r : String.substring (String.length p) (String.length r) (p +:+ r) = r.
Proof.
  induction p as [|c p IH]; simpl; [|done].
  induction r as [|c r IH]; simpl; [done|]. change ("" +:+ r) with r in IH. by rewrite IH.
Qed.
Lemma substring_take p r : String.substring 0 (String.length p) (p +:+ r) = p.
Proof. induction p as [|c p IH]; simpl; [by destruct r|]. by rewrite IH. Qed.

Lemma TrimPrefix_app p r : TrimPrefix (p +:+ r) p = r.
Proof.
  unfold TrimPrefix. rewrite (proj2 (HasPrefix_true _ _)) by eauto. rewrite string_length_app.
  replace (String.length p + String.length r - String.length p)%nat with (String.length r) by lia.
  apply substring_skip.
Qed.
Lemma TrimSuffix_app p r : TrimSuffix (p +:+ r) r = p.
Proof.
  unfold TrimSuffix. rewrite (proj2 (HasSuffix_true _ _)) by eauto. rewrite string_length_app.
  replace (String.length p + String.length r - String.length r)%nat with (String.length p) by lia.
  apply substring_take.
Qed.
