(* ===== verification/ReverseProxy.v ===== *)
(** * internal/proxy/reverse_proxy: the builder, and how it rewrites requests

    The functions rewrite a pair of requests, the one that came in and the
    copy that goes out.  URLs are shared objects: the incoming request's URL
    becomes the upstream's.  Parameters: net.SplitHostPort, and what stands
    for http.DefaultTransport and the default error handler. *)
From Stdlib Require Import ZArith Lia Ascii.
From stdpp Require Import base gmap strings list fin_maps.
From S2P Require Import Prelude Pattern Linker Http.
Import Strings.

(** ** The requests that are rewritten *)

Record rewriting : Type := MkRewriting {
  urls : gmap loc url;
  In : Request;
  Out : Request }.

Abbreviation RW := (ST rewriting).
Abbreviation RewriteFunc := (ST rewriting unit).

Definition url_at (l : loc) : RW url :=
  s ← st_get; match urls s !! l with Some u => mret u | None => st_panic nil_deref end.
Definition set_url (l : loc) (u : url) : RW unit :=
  s ← st_get; st_put (MkRewriting (<[l := u]> (urls s)) (In s) (Out s)).
Definition set_in (r : Request) : RW unit := s ← st_get; st_put (MkRewriting (urls s) r (Out s)).
Definition set_out (r : Request) : RW unit := s ← st_get; st_put (MkRewriting (urls s) (In s) r).

Definition with_url (l : loc) (r : Request) : Request :=
  MkRequest (Method r) l (rq_Host r) (RemoteAddr r) (rq_TLS r) (rq_Header r) (rq_Body r).
Definition with_host (h : string) (r : Request) : Request :=
  MkRequest (Method r) (rq_URL r) h (RemoteAddr r) (rq_TLS r) (rq_Header r) (rq_Body r).
Definition with_header (h : Header) (r : Request) : Request :=
  MkRequest (Method r) (rq_URL r) (rq_Host r) (RemoteAddr r) (rq_TLS r) h (rq_Body r).

Definition with_path (p : string) (u : url) : url := MkUrl (Scheme u) (Host u) p (RawQuery u).
Definition with_query (q : string) (u : url) : url := MkUrl (Scheme u) (Host u) (Path u) q.
Definition with_authority (scheme host : string) (u : url) : url := MkUrl scheme host (Path u) (RawQuery u).

Definition ErrNilUpstreamUrl : error := "upstream url cannot be nil".
Definition ErrEmptyProxyPattern : error := "proxy pattern cannot be empty".

Module Builder.
Section code.
(** Transports, response modifiers and error handlers. *)
Context {T M H : Type} (DefaultTransport : T) (DefaultErrorHandler : H).
Context (SplitHostPort : string → gores (string * string)).

Record reverseProxyBuilder : Type := MkBuilder {
  customRewrite : option RewriteFunc;
  upstreamUrl : option loc;
  proxyPattern : string;
  transport : option T;
  flushInterval : Z;
  modifyResponse : option M;
  errorHandler : option H;
  stripPath : bool;
  preserveHost : bool;
  disableQueryParams : bool;
  xForwardedHeaders : bool }.
Implicit Types b : reverseProxyBuilder.

Definition NewBuilder : reverseProxyBuilder := MkBuilder None None "" None 0 None None false false false false.
Definition Clone b : reverseProxyBuilder := b.

Definition FlushInterval (interval : Z) b : reverseProxyBuilder :=
  MkBuilder (customRewrite b) (upstreamUrl b) (proxyPattern b) (transport b) interval (modifyResponse b)
    (errorHandler b) (stripPath b) (preserveHost b) (disableQueryParams b) (xForwardedHeaders b).
Definition CustomRewrite (rewrite : RewriteFunc) b : reverseProxyBuilder :=
  MkBuilder (Some rewrite) (upstreamUrl b) (proxyPattern b) (transport b) (flushInterval b) (modifyResponse b)
    (errorHandler b) (stripPath b) (preserveHost b) (disableQueryParams b) (xForwardedHeaders b).
Definition ModifyResponse (m : M) b : reverseProxyBuilder :=
  MkBuilder (customRewrite b) (upstreamUrl b) (proxyPattern b) (transport b) (flushInterval b) (Some m)
    (errorHandler b) (stripPath b) (preserveHost b) (disableQueryParams b) (xForwardedHeaders b).
Definition ErrorHandler (h : H) b : reverseProxyBuilder :=
  MkBuilder (customRewrite b) (upstreamUrl b) (proxyPattern b) (transport b) (flushInterval b) (modifyResponse b)
    (Some h) (stripPath b) (preserveHost b) (disableQueryParams b) (xForwardedHeaders b).
Definition Transport (t : T) b : reverseProxyBuilder :=
  MkBuilder (customRewrite b) (upstreamUrl b) (proxyPattern b) (Some t) (flushInterval b) (modifyResponse b)
    (errorHandler b) (stripPath b) (preserveHost b) (disableQueryParams b) (xForwardedHeaders b).
Definition ProxyRewrite (strip preserve disableQuery xForwarded : bool) b : reverseProxyBuilder :=
  MkBuilder (customRewrite b) (upstreamUrl b) (proxyPattern b) (transport b) (flushInterval b) (modifyResponse b)
    (errorHandler b) strip preserve disableQuery xForwarded.

(** ** The rewrites; [upstream] is [b.upstreamUrl] *)

Definition upstream b : RW loc :=
  match upstreamUrl b with Some l => mret l | None => st_panic nil_deref end.

Definition rewriteStripPath b (strip : bool) : RewriteFunc :=
  s ← st_get;
  inURL ← url_at (rq_URL (In s));
  let reqCall := Path inURL in
  l ← upstream b;
  up ← url_at l;
  let upstreamPath := Path up in
  _ ← set_in (with_url l (In s));
  let target :=
    if strip then
      if HasSuffix (proxyPattern b) "*" then
        Join upstreamPath (TrimPrefix reqCall (TrimSuffix (proxyPattern b) "*"))
      else upstreamPath
    else Join upstreamPath reqCall in
  outURL ← url_at (rq_URL (Out s));
  set_url (rq_URL (Out s)) (with_path target outURL).

Definition rewritePreserveHost b (preserve : bool) : RewriteFunc :=
  s ← st_get;
  l ← upstream b;
  up ← url_at l;
  outURL ← url_at (rq_URL (Out s));
  let host := if preserve
              then if String.eqb (rq_Host (In s)) "" then Host up else rq_Host (In s)
              else Host up in
  let scheme := if preserve then if rq_TLS (In s) then "https" else "http" else Scheme up in
  _ ← set_out (with_host host (Out s));
  set_url (rq_URL (Out s))
    (with_authority (if String.eqb (Scheme outURL) "" then scheme else Scheme outURL) (Host up) outURL).

Definition rewriteDisableQueryParams b (disableQueryParams : bool) : RewriteFunc :=
  s ← st_get;
  if negb disableQueryParams then
    l ← upstream b;
    up ← url_at l;
    inURL ← url_at (rq_URL (In s));
    let targetQuery := RawQuery up in
    set_url (rq_URL (In s)) (with_query
      (if String.eqb targetQuery "" || String.eqb (RawQuery inURL) ""
       then targetQuery +:+ RawQuery inURL
       else targetQuery +:+ "&" +:+ RawQuery inURL) inURL)
  else
    outURL ← url_at (rq_URL (Out s));
    set_url (rq_URL (Out s)) (with_query "" outURL).

Definition forwarded (r : Request) (h : Header) : Header :=
  let ip := match SplitHostPort (RemoteAddr r) with
            | Ok (clientIP, _) => clientIP
            | Err _ => RemoteAddr r
            end in
  Set_ "X-Forwarded-Proto" (if rq_TLS r then "https" else "http")
    (Set_ "X-Forwarded-Host" (rq_Host r) (Set_ "X-Real-IP" ip (Add "X-Forwarded-For" ip h))).
Definition unforwarded (h : Header) : Header :=
  Del "X-Real-IP" (Del "X-Forwarded-Proto" (Del "X-Forwarded-Host" (Del "X-Forwarded-For" h))).

Definition rewriteXForwardedHeaders (xForwardedHeaders : bool) : RewriteFunc :=
  s ← st_get;
  let h := rq_Header (Out s) in
  set_out (with_header (if xForwardedHeaders then forwarded (In s) h else unforwarded h) (Out s)).

(** The [Rewrite] of the [httputil.ReverseProxy] that is built. *)
Definition Rewrite b : RewriteFunc :=
  _ ← rewriteStripPath b (stripPath b);
  _ ← rewritePreserveHost b (preserveHost b);
  _ ← rewriteDisableQueryParams b (disableQueryParams b);
  _ ← rewriteXForwardedHeaders (xForwardedHeaders b);
  _ ← match customRewrite b with Some f => f | None => mret tt end;
  s ← st_get;
  outURL ← url_at (rq_URL (Out s));
  if String.eqb (Path outURL) "/" then set_url (rq_URL (Out s)) (with_path "" outURL) else mret tt.

(** ** What is built *)

Record executor : Type := MkExecutor {
  ErrorHandler_ : H;
  FlushInterval_ : Z;
  ModifyResponse_ : option M;
  Transport_ : T;
  Rewrite_ : RewriteFunc }.

Definition Millisecond : Z := 1000000.

Definition Build (upstreamUrl : option loc) (proxyPattern : string) b : gores executor :=
  match upstreamUrl with
  | None => Err ErrNilUpstreamUrl
  | Some l =>
    if String.eqb proxyPattern "" then Err ErrEmptyProxyPattern else
    let b := MkBuilder (customRewrite b) (Some l) proxyPattern
      (Some (default DefaultTransport (transport b)))
      (if flushInterval b =? 0 then Millisecond * 100 else flushInterval b) (modifyResponse b)
      (Some (default DefaultErrorHandler (errorHandler b)))
      (stripPath b) (preserveHost b) (disableQueryParams b) (xForwardedHeaders b) in
    Ok (MkExecutor (default DefaultErrorHandler (errorHandler b)) (flushInterval b) (modifyResponse b)
      (default DefaultTransport (transport b)) (Rewrite b))
  end.

End code.
Arguments reverseProxyBuilder : clear implicits.
Arguments executor : clear implicits.
End Builder.

(** The custom rewrite of [NewProxyState]. *)
Definition scheme_rewrite : RewriteFunc :=
  s ← st_get;
  inURL ← url_at (rq_URL (In s));
  outURL ← url_at (rq_URL (Out s));
  let scheme (x : string) := set_url (rq_URL (Out s)) (with_authority x (Host outURL) outURL) in
  if String.eqb (Scheme inURL) "ws" then scheme "http"
  else if String.eqb (Scheme inURL) "wss" then scheme "https"
  else if String.eqb (Scheme inURL) "" then scheme (if rq_TLS (In s) then "https" else "http")
  else mret tt.
Import Builder.

(** ** What a rewrite does *)

(** The path that the upstream is asked for. *)
Definition target_path (strip : bool) (pattern reqCall upstreamPath : string) : string :=
  let path :=
    if strip then
      if HasSuffix pattern "*"
      then Join upstreamPath (TrimPrefix reqCall (TrimSuffix pattern "*")) else upstreamPath
    else Join upstreamPath reqCall in
  if String.eqb path "/" then "" else path.

Section rewrite.
Context {T M H : Type} (SplitHostPort : string → gores (string * string)).
Implicit Types (b : reverseProxyBuilder T M H) (s : rewriting).

Lemma url_at_ok l s u : urls s !! l = Some u → url_at l s = Returns (u, s).
Proof. intros Hl. unfold url_at. st. by rewrite Hl. Qed.

(** The doubled query: a query of the upstream is joined with itself. *)
Definition doubled (q : string) : string := if String.eqb q "" then "" else q +:+ "&" +:+ q.

Lemma strip_ok b s lu ui uo uu : upstreamUrl b = Some lu →
  urls s !! rq_URL (In s) = Some ui → urls s !! rq_URL (Out s) = Some uo → urls s !! lu = Some uu →
  ∃ path, rewriteStripPath b (stripPath b) s =
    Returns (tt, MkRewriting (<[rq_URL (Out s) := with_path path uo]> (urls s)) (with_url lu (In s)) (Out s)) ∧
  (if String.eqb path "/" then "" else path) =
    target_path (stripPath b) (proxyPattern b) (Path ui) (Path uu).
Proof.
  intros Hb Hi Ho Hu. unfold rewriteStripPath. st. rewrite (url_at_ok _ s ui) by done. st.
  unfold upstream. rewrite Hb. st. rewrite (url_at_ok lu s uu) by done. st. unfold set_in. st.
  rewrite (url_at_ok _ (MkRewriting (urls s) (with_url lu (In s)) (Out s)) uo) by done. st.
  unfold set_url. st. by eexists.
Qed.

Lemma preserve_ok b s lu uo uu : upstreamUrl b = Some lu →
  urls s !! rq_URL (Out s) = Some uo → urls s !! lu = Some uu →
  rewritePreserveHost b (preserveHost b) s = Returns (tt,
    MkRewriting
      (<[rq_URL (Out s) := with_authority
           (if String.eqb (Scheme uo) ""
            then if preserveHost b then if rq_TLS (In s) then "https" else "http" else Scheme uu
            else Scheme uo) (Host uu) uo]> (urls s))
      (In s)
      (with_host (if preserveHost b && negb (String.eqb (rq_Host (In s)) "") then rq_Host (In s) else Host uu)
         (Out s))).
Proof.
  intros Hb Ho Hu. unfold rewritePreserveHost. st. unfold upstream. rewrite Hb. st.
  rewrite (url_at_ok lu s uu) by done. st. rewrite (url_at_ok _ s uo) by done. st.
  unfold set_out, set_url. st. cbn. do 3 f_equal.
  by destruct (preserveHost b), (String.eqb (rq_Host (In s)) "").
Qed.

(** The incoming request's URL is the upstream's by now. *)
Lemma query_ok b s lu uo uu : upstreamUrl b = Some lu → rq_URL (In s) = lu →
  urls s !! rq_URL (Out s) = Some uo → urls s !! lu = Some uu →
  rewriteDisableQueryParams b (disableQueryParams b) s = Returns (tt,
    MkRewriting
      (if disableQueryParams b then <[rq_URL (Out s) := with_query "" uo]> (urls s)
       else <[lu := with_query (doubled (RawQuery uu)) uu]> (urls s)) (In s) (Out s)).
Proof.
  intros Hb Hin Ho Hu. unfold rewriteDisableQueryParams. st. unfold upstream. rewrite Hb.
  destruct (disableQueryParams b); cbn [negb].
  - st. rewrite (url_at_ok _ s uo) by done. st. unfold set_url. by st.
  - st. rewrite (url_at_ok lu s uu) by done. st. rewrite Hin, (url_at_ok lu s uu) by done. st.
    unfold set_url, doubled. st. destruct (String.eqb_spec (RawQuery uu) "") as [->|]; done.
Qed.

(** What the custom rewrite makes of a scheme. *)
Definition custom_scheme (up : string) (tls : bool) (scheme : string) : string :=
  if String.eqb up "ws" then "http" else if String.eqb up "wss" then "https"
  else if String.eqb up "" then if tls then "https" else "http" else scheme.

Lemma custom_ok b s lu uo uu : customRewrite b = None ∨ customRewrite b = Some scheme_rewrite →
  rq_URL (In s) = lu → urls s !! rq_URL (Out s) = Some uo → urls s !! lu = Some uu → rq_URL (Out s) ≠ lu →
  ∃ us, match customRewrite b with Some f => f | None => mret tt end s =
      Returns (tt, MkRewriting us (In s) (Out s)) ∧
    us !! rq_URL (Out s) = Some (with_authority
      (match customRewrite b with
       | Some _ => custom_scheme (Scheme uu) (rq_TLS (In s)) (Scheme uo) | None => Scheme uo end) (Host uo) uo) ∧
    us !! lu = Some uu.
Proof.
  intros Hb Hin Ho Hu Hne. destruct Hb as [-> | ->].
  - exists (urls s). split; [by destruct s|]. split; [by destruct uo|done].
  - set (put x := <[rq_URL (Out s) := with_authority x (Host uo) uo]> (urls s)).
    assert (∀ x, put x !! rq_URL (Out s) = Some (with_authority x (Host uo) uo) ∧ put x !! lu = Some uu) as Hput.
    { intros x. unfold put. by rewrite lookup_insert_eq, lookup_insert_ne. }
    unfold scheme_rewrite, custom_scheme. st. rewrite Hin, (url_at_ok lu s uu) by done. st.
    rewrite (url_at_ok _ s uo) by done. st. unfold set_url.
    destruct (String.eqb (Scheme uu) "ws"); [st; eexists; split; [done|apply Hput]|].
    destruct (String.eqb (Scheme uu) "wss"); [st; eexists; split; [done|apply Hput]|].
    destruct (String.eqb (Scheme uu) ""); [st; eexists; split; [done|apply Hput]|].
    exists (urls s). split; [by destruct s|]. split; [by destruct uo|done].
Qed.

(** The scheme that goes out. *)
Definition target_scheme b s (uo uu : url) : string :=
  let scheme := if String.eqb (Scheme uo) ""
                then if preserveHost b then if rq_TLS (In s) then "https" else "http" else Scheme uu
                else Scheme uo in
  match customRewrite b with Some _ => custom_scheme (Scheme uu) (rq_TLS (In s)) scheme | None => scheme end.

(** A built reverse proxy at work: the two requests, and the upstream's URL. *)
Record proxying b s (lu : loc) (ui uo uu : url) : Prop := MkProxying {
  px_upstream : upstreamUrl b = Some lu;
  px_custom : customRewrite b = None ∨ customRewrite b = Some scheme_rewrite;
  px_in : urls s !! rq_URL (In s) = Some ui;
  px_out : urls s !! rq_URL (Out s) = Some uo;
  px_url : urls s !! lu = Some uu;
  px_copy : rq_URL (Out s) ≠ lu }.

Lemma Rewrite_ok b s lu ui uo uu : proxying b s lu ui uo uu →
  ∃ s', Rewrite SplitHostPort b s = Returns (tt, s') ∧
    urls s' !! rq_URL (Out s) = Some (MkUrl
      (target_scheme b s uo uu)
      (Host uu)
      (target_path (stripPath b) (proxyPattern b) (Path ui) (Path uu))
      (if disableQueryParams b then "" else RawQuery uo)) ∧
    Out s' = with_header ((if xForwardedHeaders b then forwarded SplitHostPort (with_url lu (In s)) else unforwarded)
        (rq_Header (Out s)))
      (with_host (if preserveHost b && negb (String.eqb (rq_Host (In s)) "") then rq_Host (In s) else Host uu)
         (Out s)) ∧
    In s' = with_url lu (In s) ∧
    urls s' !! lu = Some (if disableQueryParams b then uu else with_query (doubled (RawQuery uu)) uu).
Proof.
  intros [Hb Hc Hi Ho Hu Hne]. destruct (strip_ok b s lu ui uo uu Hb Hi Ho Hu) as (path & E1 & Hpath). unfold Rewrite. st. rewrite E1. st.
  set (s1 := MkRewriting _ _ _).
  assert (Ho1 : urls s1 !! rq_URL (Out s1) = Some (with_path path uo)) by apply lookup_insert_eq.
  assert (Hu1 : urls s1 !! lu = Some uu) by (cbn; by rewrite lookup_insert_ne).
  rewrite (preserve_ok b s1 lu _ uu Hb Ho1 Hu1). st. set (u2 := with_authority _ _ _). set (s2 := MkRewriting _ _ _).
  assert (Ho2 : urls s2 !! rq_URL (Out s2) = Some u2) by apply lookup_insert_eq.
  assert (Hu2 : urls s2 !! lu = Some uu) by (cbn; rewrite lookup_insert_ne; done).
  rewrite (query_ok b s2 lu u2 uu Hb eq_refl Ho2 Hu2). st. set (s3 := MkRewriting _ _ _).
  unfold rewriteXForwardedHeaders, set_out. st. set (s4 := MkRewriting _ _ _).
  set (u4 := if disableQueryParams b then with_query "" u2 else u2).
  assert (Ho4 : urls s4 !! rq_URL (Out s4) = Some u4).
  { cbn. unfold u4. destruct (disableQueryParams b); [apply lookup_insert_eq|].
    rewrite lookup_insert_ne by done. apply lookup_insert_eq. }
  assert (Hu4 : urls s4 !! lu = Some (if disableQueryParams b then uu else with_query (doubled (RawQuery uu)) uu)).
  { cbn. destruct (disableQueryParams b); [|apply lookup_insert_eq]. by rewrite !lookup_insert_ne. }
  destruct (custom_ok b s4 lu u4 _ Hc eq_refl Ho4 Hu4) as (us & -> & Ho5 & Hu5); [done|]. st.
  set (u5 := with_authority _ _ _) in Ho5. set (s5 := MkRewriting us (In s4) (Out s4)).
  change (us !! rq_URL (Out s4) = Some u5) with (urls s5 !! rq_URL (Out s5) = Some u5) in Ho5.
  change (us !! lu) with (urls s5 !! lu) in Hu5.
  assert (Hx : u5 = MkUrl (target_scheme b s uo uu) (Host uu) path (if disableQueryParams b then "" else RawQuery uo)).
  { unfold u5, u4, target_scheme. by destruct (customRewrite b), (disableQueryParams b). }
  clearbody u5. subst u5. rewrite (url_at_ok _ s5 _ Ho5). st. cbn [Path]. rewrite <-Hpath.
  exists (if String.eqb path "/"
          then MkRewriting (<[rq_URL (Out s5) := MkUrl (target_scheme b s uo uu) (Host uu) ""
                 (if disableQueryParams b then "" else RawQuery uo)]> (urls s5)) (In s5) (Out s5) else s5).
  split; [destruct (String.eqb path "/"); [unfold set_url; by st|done]|].
  change (rq_URL (Out s)) with (rq_URL (Out s5)). split; [|split; [|split]].
  - destruct (String.eqb path "/"); [apply lookup_insert_eq|exact Ho5].
  - by destruct (String.eqb path "/"), (xForwardedHeaders b).
  - by destruct (String.eqb path "/").
  - destruct (String.eqb path "/"); [cbn [urls]; rewrite lookup_insert_ne by done|]; exact Hu5.
Qed.

(** C10: What the upstream is asked for, and what it costs.  The copy that goes
    out has the upstream's host, the path [target_path], and the client's
    query, or none where queries are disabled: the query of the upstream's
    own URL is never sent.  With the host preserved the scheme is that of the
    client's connection, not the upstream's.  The incoming request's URL is
    the upstream's from then on, with its query doubled. *)
Theorem Rewrite_target b s lu ui uo uu (Hp : proxying b s lu ui uo uu) :
  ∃ s', Rewrite SplitHostPort b s = Returns (tt, s') ∧
    urls s' !! rq_URL (Out s) = Some (MkUrl
      (target_scheme b s uo uu)
      (Host uu)
      (target_path (stripPath b) (proxyPattern b) (Path ui) (Path uu))
      (if disableQueryParams b then "" else RawQuery uo)) ∧
    Out s' = with_header ((if xForwardedHeaders b then forwarded SplitHostPort (with_url lu (In s)) else unforwarded)
        (rq_Header (Out s)))
      (with_host (if preserveHost b && negb (String.eqb (rq_Host (In s)) "") then rq_Host (In s) else Host uu)
         (Out s)) ∧
    In s' = with_url lu (In s) ∧
    urls s' !! lu = Some (if disableQueryParams b then uu else with_query (doubled (RawQuery uu)) uu).
Proof. exact (Rewrite_ok b s lu ui uo uu Hp). Qed.

(** The path that goes out. *)
Definition sends b s (path : string) : Prop :=
  ∃ s' u, Rewrite SplitHostPort b s = Returns (tt, s') ∧ urls s' !! rq_URL (Out s) = Some u ∧ Path u = path.

Lemma Rewrite_sends b s lu ui uo uu : proxying b s lu ui uo uu →
  sends b s (target_path (stripPath b) (proxyPattern b) (Path ui) (Path uu)).
Proof.
  intros Hp. destruct (Rewrite_ok b s lu ui uo uu Hp) as (s' & E & Hu & _). eexists s', _. eauto.
Qed.

Lemma stripped p rest up : target_path true (p +:+ "*") (p +:+ rest) up =
  if String.eqb (Join up rest) "/" then "" else Join up rest.
Proof.
  unfold target_path. rewrite TrimSuffix_app, TrimPrefix_app.
  assert (HasSuffix (p +:+ "*") "*" = true) as -> by (apply HasSuffix_true; eauto). done.
Qed.

(** A route that strips its path stays under the path of its service, as
    long as what the client adds does not climb with a dot-dot. *)
Theorem strip_stays_under b s lu ui uo uu p rest (Hp : proxying b s lu ui uo uu)
  (Hstrip : stripPath b = true) (Hpattern : proxyPattern b = p +:+ "*")
  (Hpath : Path ui = p +:+ rest) (Hrooted : HasPrefix (Path uu) "/" = true) (Hrest : ¬ climbs rest) :
  ∃ path, sends b s path ∧ (path = "" ∨ under (Clean (Path uu)) path).
Proof.
  eexists. split; [eapply Rewrite_sends; exact Hp|]. rewrite Hstrip, Hpattern, Hpath, stripped.
  destruct (String.eqb (Join (Path uu) rest) "/"); [by left|]. right. by apply Join_under.
Qed.

(** Nothing stops a client that climbs: behind a service at [/a], the
    request for the prefix followed by [../b] is sent to [/b]. *)
Theorem strip_climbs_out b s lu ui uo uu p x y (Hp : proxying b s lu ui uo uu)
  (Hstrip : stripPath b = true) (Hpattern : proxyPattern b = p +:+ "*")
  (Hpath : Path ui = p +:+ "../" +:+ y) (Hup : Path uu = "/" +:+ x) (Hx : plain x) (Hy : plain y) :
  sends b s ("/" +:+ y).
Proof.
  assert (("/" +:+ y) = target_path (stripPath b) (proxyPattern b) (Path ui) (Path uu)) as ->.
  { rewrite Hstrip, Hpattern, Hpath, stripped, Hup, Join_climbs by done.
    destruct Hy as (_ & Hy & _). by destruct y. }
  eapply Rewrite_sends; exact Hp.
Qed.

(** Behind a service whose URL has no path, a route that strips its path
    sends a request line that does not start with a slash. *)
Theorem strip_without_path b s lu ui uo uu p rest (Hp : proxying b s lu ui uo uu)
  (Hstrip : stripPath b = true) (Hpattern : proxyPattern b = p +:+ "*")
  (Hpath : Path ui = p +:+ rest) (Hup : Path uu = "") (Hrest : rest ≠ "") (Hrel : HasPrefix rest "/" = false) :
  ∃ s' u, Rewrite SplitHostPort b s = Returns (tt, s') ∧ urls s' !! rq_URL (Out s) = Some u ∧
    HasPrefix (RequestURI u) "/" = false.
Proof.
  destruct (Rewrite_sends b s lu ui uo uu Hp) as (s' & u & E & Hu & Hpu). exists s', u.
  split; [done|]. split; [done|]. rewrite Hstrip, Hpattern, Hpath, stripped, Hup in Hpu.
  destruct (Clean_relative rest Hrest Hrel) as [Hslash Hempty].
  unfold Join in Hpu. cbn [String.eqb] in Hpu. rewrite (proj2 (String.eqb_neq rest "")) in Hpu by done.
  destruct (String.eqb_spec (Clean rest) "/") as [Hc|_]; [by rewrite Hc in Hslash|].
  unfold RequestURI. rewrite Hpu, (proj2 (String.eqb_neq (Clean rest) "")) by done.
  destruct (Clean rest) as [|c path]; [done|]. apply not_true_iff_false. rewrite HasPrefix_rooted.
  intros (q & [= -> _]). apply not_true_iff_false in Hslash. apply Hslash, HasPrefix_rooted. eauto.
Qed.
End rewrite.

(** A parameter in the pattern is not matched: the request keeps its path. *)
Theorem strip_keeps_parameters pattern reqCall up :
  HasSuffix pattern "*" = true → HasPrefix reqCall (TrimSuffix pattern "*") = false →
  target_path true pattern reqCall up = target_path false pattern reqCall up.
Proof. intros H1 H2. unfold target_path, TrimPrefix. by rewrite H1, H2. Qed.

(** ** A concrete proxy *)

Definition no_port (_ : string) : gores (string * string) := Err "missing port in address".

(** The request, its copy and the upstream's URL. *)
Definition proxied_request (path : string) (l : loc) : Request :=
  MkRequest "GET" l "api.test" "10.0.0.1" false ∅ "".
Definition three_urls (path upstreamPath : string) : gmap loc url :=
  <[1%N := MkUrl "" "" path "q=1"]> (<[2%N := MkUrl "" "" path "q=1"]>
    {[3%N := MkUrl "https" "service.test" upstreamPath "key=k"]}).
Definition sample_rewriting (path upstreamPath : string) : rewriting :=
  MkRewriting (three_urls path upstreamPath) (proxied_request path 1%N) (proxied_request path 2%N).
Definition sample_builder (strip : bool) : reverseProxyBuilder unit unit unit :=
  MkBuilder (Some scheme_rewrite) (Some 3%N) "/path/*" (Some tt) 0 None None strip true false false.

Lemma sample_proxying strip path up : proxying (sample_builder strip) (sample_rewriting path up) 3%N
  (MkUrl "" "" path "q=1") (MkUrl "" "" path "q=1") (MkUrl "https" "service.test" up "key=k").
Proof. by constructor; [|right| | | |]. Qed.

(** Behind https, with the host preserved: http, and no key. *)
Lemma Rewrite_target_witness : ∃ s',
  Rewrite no_port (sample_builder false) (sample_rewriting "/path/x/" "/v1") = Returns (tt, s') ∧
  urls s' !! 2%N = Some (MkUrl "http" "service.test" "/v1/path/x" "q=1") ∧
  rq_Host (Out s') = "api.test" ∧ urls s' !! 3%N = Some (MkUrl "https" "service.test" "/v1" "key=k&key=k").
Proof.
  destruct (Rewrite_target no_port _ _ _ _ _ _ (sample_proxying false "/path/x/" "/v1"))
    as (s' & E & Ho & Hout & _ & Hu).
  exists s'. split; [exact E|]. split; [exact Ho|]. split; [by rewrite Hout|exact Hu].
Defined.

Lemma strip_stays_under_witness :
  ∃ path, sends no_port (sample_builder true) (sample_rewriting "/path/x/./y" "/v1") path ∧
    (path = "" ∨ under "/v1" path).
Proof.
  apply (strip_stays_under no_port _ _ _ _ _ _ "/path/" "x/./y" (sample_proxying true "/path/x/./y" "/v1"));
    try done. unfold climbs. vm_compute. intros H. repeat (apply elem_of_cons in H as [?|H]; [done|]).
  by apply elem_of_nil in H.
Defined.

Lemma strip_climbs_out_witness :
  sends no_port (sample_builder true) (sample_rewriting "/path/../admin" "/v1") "/admin".
Proof.
  by apply (strip_climbs_out no_port _ _ _ _ _ _ "/path/" "v1" "admin" (sample_proxying true "/path/../admin" "/v1")).
Defined.

Lemma strip_without_path_witness : ∃ s' u,
  Rewrite no_port (sample_builder true) (sample_rewriting "/path/test" "") = Returns (tt, s') ∧
  urls s' !! 2%N = Some u ∧ HasPrefix (RequestURI u) "/" = false.
Proof.
  by apply (strip_without_path no_port _ _ _ _ _ _ "/path/" "test" (sample_proxying true "/path/test" "")).
Defined.
