(* ===== verification/ProxyHandler.v ===== *)
(** * internal/proxy/proxy_handler.go: the path of a request

    From the router to the response: the module extractor of the route is
    borrowed, started, stopped and returned; the modules' functions and the
    reverse proxy work on the exchange, which is the request, the response
    writer and the URLs they share.  httputil's ReverseProxy is written out
    as far as the handler relies on it: upgrades, trailers, flushing and the
    cancellation of requests are left out.  So are logging, but for the path
    and the query in the request log, metrics, and the draining of the body.

    Parameters: the modules' functions, the network, httputil's removal of
    hop-by-hop and of the client's forwarding headers, and the fields of a
    parsed URL. *)
From Stdlib Require Import ZArith Lia.
From stdpp Require Import base gmap strings list fin_maps.
From S2P Require Import Prelude Avl SliceUtil Pattern Spec Linker ResourceManager.
From S2P Require Import Storage ProxyStore Scheduler Cache ConfigResources ProxyTransport Proxy.
From S2P Require Import RequestContext DynamicProxy Http ReverseProxy.

(** ** The exchange *)

(** What was written to the client: a status with the headers of that moment,
    and pieces of the body. *)
Inductive sent : Type :=
  | SentHeader (code : Z) (h : Header)
  | SentBody (b : string).
Record writer : Type := MkWriter { w_header : Header; w_sent : list sent }.

Inductive lifecycle : Type := Started | Stopped | Returned.

Record exchange (Net : Type) : Type := MkExchange {
  x_urls : gmap loc url;
  x_req : Request;
  x_rw : @Tracker.rwTracker writer;
  x_net : Net }.
Arguments MkExchange {Net}.
Arguments x_urls {Net}. Arguments x_req {Net}. Arguments x_rw {Net}. Arguments x_net {Net}.

Class HandlerEnv {E : Externals} {Any : Type} (X : ProxyEnv E Any) := {
  Net : Type;
  (** the modules' functions *)
  call_fetch : module_fn → Run (exchange Net) (gores URL);
  call_request : module_fn → Run (exchange Net) (option error);
  call_response : module_fn → Response → Run (exchange Net) (option error * Response);
  call_error : module_fn → error → Run (exchange Net) (option error);
  (** the transport of net/http, and what a write to the client answers *)
  wire : url → Request → ST Net (option Response * option go_error);
  conn_Write : string → writer → Z * option error;
  url_fields : URL → url;
  (** httputil: the headers it takes from a request and from a response *)
  outgoing : Header → Header;
  incoming : Header → Header }.

(** What the handler reads of the configuration, besides [DGateConfig]; the
    global headers are in the order in which [range] visits them. *)
Record handler_config : Type := MkHandlerConfig {
  Tags : list string;
  GlobalHeaders : list (string * string);
  DisableXForwardedHeaders : bool }.

Definition error_text (e : go_error) : error :=
  match e with ProxyError _ text => text | PlainError text => text end.

(** [defer d()] around [m]: [d] runs after a return and after a panic. *)
Definition finally {P A} (d : Run P unit) (m : Run P A) : Run P A := λ p,
  match m p with
  | (Return a, p) => match d p with
                     | (Return _, p) => (Return a, p) | (Panic e, p) => (Panic e, p) | (Block, p) => (Block, p)
                     end
  | (Panic e, p) => match d p with
                    | (Return _, p) => (Panic e, p) | (Panic e', p) => (Panic e', p) | (Block, p) => (Block, p)
                    end
  | (Block, p) => (Block, p)
  end.

(** The state of the handler: the proxy, the exchange, what became of the
    extractor, and the path and query of the request log. *)
Record handling (P Net : Type) : Type := MkHandling {
  h_proxy : P;
  h_exchange : exchange Net;
  h_trace : list lifecycle;
  h_log : option (string * string) }.
Arguments MkHandling {P Net}.
Arguments h_proxy {P Net}. Arguments h_exchange {P Net}. Arguments h_trace {P Net}. Arguments h_log {P Net}.

Section code.
Context {E : Externals} {R : Runtime} {Any : Type} {C : Encoding E Any} {S : Type}.
Context {St : Storage S} {X : ProxyEnv E Any} {HE : HandlerEnv X}.

Abbreviation XS := (Run (exchange Net)).
Abbreviation PS := (Run (@ProxyState E Any S X)).
Abbreviation HS := (Run (handling (@ProxyState E Any S X) Net)).

Definition set_net (n : Net) (x : exchange Net) : exchange Net :=
  MkExchange (x_urls x) (x_req x) (x_rw x) n.
Definition set_rw (t : @Tracker.rwTracker writer) (x : exchange Net) : exchange Net :=
  MkExchange (x_urls x) (x_req x) t (x_net x).
Definition set_requests (us : gmap loc url) (r : Request) (x : exchange Net) : exchange Net :=
  MkExchange us r (x_rw x) (x_net x).
(** ** The response writer *)

Definition raw_WriteHeader (code : Z) (w : writer) : writer :=
  MkWriter (w_header w) (w_sent w ++ [SentHeader code (w_header w)]).
Definition raw_Write (b : string) (w : writer) : (Z * option error) * writer :=
  (conn_Write b w, MkWriter (w_header w) (w_sent w ++ [SentBody b])).

(** [rw.Header()], changed in place. *)
Definition change_header (f : Header → Header) : XS unit := run_modify (λ x,
  let t := x_rw x in let w := Tracker.rw t in
  set_rw (Tracker.MkTracker (MkWriter (f (w_header w)) (w_sent w)) (Tracker.status t) (Tracker.bytesWritten t)) x).
Definition WriteHeader (code : Z) : XS unit :=
  x ← run_get;
  t ← lift_outcome (Tracker.WriteHeader raw_WriteHeader (x_rw x) code);
  run_modify (set_rw t).
Definition Write (b : string) : XS (Z * option error) :=
  x ← run_get;
  '(res, t) ← lift_outcome (Tracker.Write raw_Write raw_WriteHeader (x_rw x) b);
  _ ← run_modify (set_rw t);
  mret res.

(** [util.WriteStatusCodeError] *)
Definition WriteStatusCodeError (code : Z) : XS unit :=
  _ ← change_header (Set_ "Content-Type" "text/plain; charset=utf-8");
  _ ← change_header (Set_ "X-Content-Type-Options" "nosniff");
  WriteHeader code.

(** ** The reverse proxy *)

Abbreviation response_modifier := (Response → XS (option error * Response)).
Abbreviation error_handler := (error → XS unit).
Abbreviation builder := (Builder.reverseProxyBuilder (round_tripper unit) response_modifier error_handler).
Abbreviation executor := (Builder.executor (round_tripper unit) response_modifier error_handler).

Definition trip (t : round_tripper unit) (u : url) (r : Request) : ST Net (option Response * option go_error) :=
  match t with
  | Direct _ => wire u r
  | Retry _ retries _ _ => RoundTrip (wire u r) retries (Method r)
  end.

(** [copyHeader]: every value of the response is added. *)
Definition copy_header (src dst : Header) : Header := union_with (λ a b, Some (a ++ b)) dst src.

(** A request without a User-Agent gets an empty one, so that the transport
    does not send its own. *)
Definition user_agent (h : Header) : Header :=
  match h !! "User-Agent" with Some _ => h | None => Set_ "User-Agent" "" h end.

(** [httputil.ReverseProxy.ServeHTTP] with a [Rewrite]: the query that goes
    out is cleaned before it. *)
Definition rp_ServeHTTP (rp : executor) : XS unit :=
  x ← run_get;
  match x_urls x !! rq_URL (x_req x) with
  | None => run_panic nil_deref
  | Some u =>
    let lo := fresh ({[nil]} ∪ dom (x_urls x) : gset loc) in
    let out := with_header (outgoing (rq_Header (x_req x))) (with_url lo (x_req x)) in
    s ← lift_outcome (Builder.Rewrite_ rp (MkRewriting (<[lo := with_query (Query.clean (RawQuery u)) u]> (x_urls x)) (x_req x) out));
    let s := s.2 in
    _ ← run_modify (set_requests (urls s) (In s));
    let out := with_header (user_agent (rq_Header (Out s))) (Out s) in
    match urls s !! rq_URL out with
    | None => run_panic nil_deref
    | Some target =>
      '(res, err) ← zoom x_net set_net (trip (Builder.Transport_ rp) target out);
      match err, res with
      | Some err, _ => Builder.ErrorHandler_ rp (error_text err)
      | None, None => run_panic nil_deref
      | None, Some res =>
        let res := MkResponse (StatusCode res) (incoming (rs_Header res)) (rs_Body res) in
        '(err, res) ← match Builder.ModifyResponse_ rp with Some f => f res | None => mret (None, res) end;
        match err with
        | Some err => Builder.ErrorHandler_ rp err
        | None =>
          _ ← change_header (copy_header (rs_Header res));
          _ ← WriteHeader (StatusCode res);
          if String.eqb (rs_Body res) "" then mret tt else _ ← Write (rs_Body res); mret tt
        end
      end
    end
  end.

(** ** The reverse proxy's builder of a provider *)

(** [http.Error], and net/http's own transport. *)
Definition default_error (err : error) : XS unit :=
  _ ← change_header (Set_ "Content-Type" "text/plain; charset=utf-8");
  _ ← change_header (Set_ "X-Content-Type-Options" "nosniff");
  _ ← WriteHeader 502;
  _ ← Write err; mret tt.

Definition ReverseProxyBuilder : builder :=
  Builder.CustomRewrite scheme_rewrite (Builder.FlushInterval (-1) Builder.NewBuilder).

(** In [NewRequestContextProvider]. *)
Definition provider_builder (cfg : handler_config) (route : DGateRoute.t) (svc : DGateService.t)
    (transport : round_tripper unit) : builder :=
  Builder.ProxyRewrite (DGateRoute.StripPath route) (DGateRoute.PreserveHost route)
    (DGateService.DisableQueryParams svc) (DisableXForwardedHeaders cfg)
    (Builder.Transport transport (Builder.Clone ReverseProxyBuilder)).

(** ** The handler *)

(** The functions of an extractor; the empty one ([None]) has none. *)
Definition is_export (f g : export) : bool :=
  match f, g with
  | FetchUpstream, FetchUpstream | RequestModifier, RequestModifier | ResponseModifier, ResponseModifier
  | ErrorHandler, ErrorHandler | RequestHandler, RequestHandler => true
  | _, _ => false
  end.
Fixpoint find_fn (f : export) (fns : list (export * option module_fn)) : option module_fn :=
  match fns with
  | [] => None
  | (g, fn) :: fns => if is_export f g then fn else find_fn f fns
  end.
Definition fn_of (me : option ModuleExtractor) (f : export) : option module_fn :=
  match me with Some me => find_fn f (me_fns me) | None => None end.

(** The closure that the builder is given for responses. *)
Definition on_response (svc : DGateService.t) (me : option ModuleExtractor) : response_modifier := λ res,
  let res := if DGateService.HideDGateHeaders svc
             then MkResponse (StatusCode res) (Set_ "Via" "DGate Proxy" (rs_Header res)) (rs_Body res)
             else res in
  match fn_of me ResponseModifier with
  | Some f => call_response f res
  | None => mret (None, res)
  end.

(** The closure for errors: the module first, then a bad gateway if nothing
    was written. *)
Definition on_error (me : option ModuleExtractor) : error_handler := λ reqErr,
  x ← run_get;
  if Tracker.HeadersSent (x_rw x) then mret tt else
  failed ← match fn_of me ErrorHandler with
           | Some f => err ← call_error f reqErr; mret (bool_decide (err ≠ None))
           | None => mret false
           end;
  if (failed : bool) then WriteStatusCodeError 500 else
  x ← run_get;
  if negb (Tracker.HeadersSent (x_rw x)) && (Tracker.BytesWritten (x_rw x) =? 0)
  then WriteStatusCodeError 502 else mret tt.

(** The request's headers, changed in place. *)
Definition change_request (f : Header → Header) : XS unit := run_modify (λ x,
  set_requests (x_urls x) (with_header (f (rq_Header (x_req x))) (x_req x)) x).

(** The upstream's URL as a string: the module's choice, or the first of the
    service's; [None]: the handler has answered. *)
Definition upstream_host (svc : DGateService.t) (me : option ModuleExtractor) : XS (option string) :=
  match fn_of me FetchUpstream with
  | Some f =>
    hostUrl ← call_fetch f;
    match hostUrl with
    | Err _ => _ ← WriteStatusCodeError 500; mret None
    | Ok u => mret (Some (url_String u))
    end
  | None =>
    match elems (DGateService.URLs svc) with
    | [] => _ ← WriteStatusCodeError 500; mret None
    | None :: _ => run_panic nil_deref
    | Some u :: _ => mret (Some (url_String u))
    end
  end.

Definition dgate_headers (cfg : handler_config) (svc route ns : string) (h : Header) : Header :=
  foldl (λ h tag, Http.Add "X-DGate-Tags" tag h)
    (Set_ "X-DGate-Namespace" ns (Set_ "X-DGate-Route" route (Set_ "X-DGate-Service" svc h))) (Tags cfg).

Definition global_headers (cfg : handler_config) (h : Header) : Header :=
  foldl (λ h '(k, v), Set_ k v h) h (GlobalHeaders cfg).

Definition handleServiceProxy (debugMode : bool) (cfg : handler_config) (route : DGateRoute.t)
    (svc : DGateService.t) (rpb : builder) (pattern : string) (me : option ModuleExtractor) : XS unit :=
  host ← upstream_host svc me;
  match host with
  | None => mret tt
  | Some host =>
    _ ← (if DGateService.HideDGateHeaders svc then
           match DGateRoute.Namespace route with
           | None => run_panic nil_deref
           | Some ns =>
             _ ← change_request (dgate_headers cfg (DGateService.Name svc) (DGateRoute.Name route)
               (DGateNamespace.Name ns));
             if debugMode then change_header (Set_ "X-Upstream-URL" host) else mret tt
           end
         else mret tt);
    match url_Parse host with
    | Err _ => WriteStatusCodeError 502
    | Ok upstreamUrl =>
      let rpb := Builder.ErrorHandler (on_error me) (Builder.ModifyResponse (on_response svc me) (Builder.Clone rpb)) in
      err ← match fn_of me RequestModifier with Some f => call_request f | None => mret None end;
      match err with
      | Some _ => WriteStatusCodeError 500
      | None =>
        x ← run_get;
        let l := fresh ({[nil]} ∪ dom (x_urls x) : gset loc) in
        _ ← run_modify (λ x, set_requests (<[l := url_fields upstreamUrl]> (x_urls x)) (x_req x) x);
        match Builder.Build (Direct None) default_error SplitHostPort (Some l) pattern rpb with
        | Err _ => WriteStatusCodeError 500
        | Ok rp =>
          _ ← change_header (global_headers cfg);
          rp_ServeHTTP rp
        end
      end
    end
  end.

Definition requestHandlerModule (me : option ModuleExtractor) : XS unit :=
  err ← match fn_of me RequestModifier with Some f => call_request f | None => mret None end;
  match err with
  | Some _ => WriteStatusCodeError 500
  | None =>
    match fn_of me RequestHandler with
    | None => WriteStatusCodeError 501
    | Some f =>
      err ← call_request f;
      match err with
      | Some err =>
        match fn_of me ErrorHandler with
        | Some f => err ← call_error f err;
                    match err with Some _ => WriteStatusCodeError 500 | None => mret tt end
        | None => WriteStatusCodeError 500
        end
      | None =>
        x ← run_get;
        if Tracker.HeadersSent (x_rw x) then mret tt
        else if 0 <? Tracker.BytesWritten (x_rw x) then WriteHeader 200 else WriteHeader 204
      end
    end
  end.

(** Computations on the proxy and on the exchange. *)
Definition on_proxy {A} (m : PS A) : HS A := λ h,
  match m (h_proxy h) with (r, p) => (r, MkHandling p (h_exchange h) (h_trace h) (h_log h)) end.
Definition on_exchange {A} (m : XS A) : HS A := λ h,
  match m (h_exchange h) with (r, x) => (r, MkHandling (h_proxy h) x (h_trace h) (h_log h)) end.
Definition trace (l : lifecycle) : HS unit := run_modify (λ h,
  MkHandling (h_proxy h) (h_exchange h) (h_trace h ++ [l]) (h_log h)).

(** The deferred request log: the request's URL at that time. *)
Definition request_log : HS unit :=
  h ← run_get;
  match x_urls (h_exchange h) !! rq_URL (x_req (h_exchange h)) with
  | Some u => run_modify (λ h, MkHandling (h_proxy h) (h_exchange h) (h_trace h) (Some (Path u, RawQuery u)))
  | None => run_panic nil_deref
  end.

(** The last part: to the service, or to the module. *)
Definition dispatch (cfg : handler_config) (route : DGateRoute.t) (pattern : string)
    (me : option ModuleExtractor) : HS unit :=
  h ← run_get;
  on_exchange
    match DGateRoute.Service route with
    | Some svc =>
      match service_transport svc with
      | Err err => run_panic err
      | Ok transport =>
        handleServiceProxy (debugMode (h_proxy h)) cfg route svc (provider_builder cfg route svc transport) pattern me
      end
    | None => requestHandlerModule me
    end.

(** The body of the handler, with the deferred calls on the extractor. *)
Definition handle_with_modules (cfg : handler_config) (l : loc) (route : DGateRoute.t) (pattern : string) : HS unit :=
  match elems (DGateRoute.Modules route) with
  | [] => dispatch cfg route pattern None
  | _ =>
    modPool ← on_proxy (pool_of l);
    match modPool with
    | None => on_exchange (WriteStatusCodeError 500)
    | Some modPool =>
      me ← on_proxy (Borrow modPool (createModuleExtractorFunc route));
      match me with
      | None => on_exchange (WriteStatusCodeError 500)
      | Some me =>
        finally (_ ← on_proxy (Return_ modPool me); trace Returned) (
          _ ← trace Started;
          finally (trace Stopped) (dispatch cfg route pattern (Some me)))
      end
    end
  end.
Definition proxyHandler (cfg : handler_config) (l : loc) (route : DGateRoute.t) (pattern : string) : HS unit :=
  finally request_log (handle_with_modules cfg l route pattern).

(** [CreateRequestContext] wraps the writer; [HandleRoute] is the handler that
    a router calls. *)
Definition CreateRequestContext (us : gmap loc url) (req : Request) (rw : writer) (net : Net) : exchange Net :=
  MkExchange us req (Tracker.NewResponseWriterTracker rw) net.

Definition HandleRoute (cfg : handler_config) (hd : handler) (us : gmap loc url) (req : Request)
    (rw : writer) (net : Net) (p : @ProxyState E Any S X)
    : exit unit * handling (@ProxyState E Any S X) Net :=
  let h := MkHandling p (CreateRequestContext us req rw net) [] None in
  match provider_objs p !! h_provider hd with
  | Some o => proxyHandler cfg (h_provider hd) (rcp_route o) (h_pattern hd) h
  | None => (Panic nil_deref, h)
  end.
End code.
