(* ===== verification/ProxyHandlerTheorems.v ===== *)
(** * What the request handler does *)
From Stdlib Require Import ZArith Lia.
From stdpp Require Import base gmap strings list fin_maps.
From S2P Require Import Prelude Avl SliceUtil Pattern Spec Linker ResourceManager.
From S2P Require Import Storage ProxyStore Scheduler Cache ConfigResources ProxyTransport Proxy.
From S2P Require Import RequestContext DynamicProxy Http ReverseProxy ProxyHandler Routing.

Section handler.
Context {E : Externals} {R : Runtime} {Any : Type} {C : Encoding E Any} {S : Type}.
Context {St : Storage S} {X : ProxyEnv E Any} {HE : HandlerEnv X}.
Implicit Types (p : @ProxyState E Any S X) (h : handling (@ProxyState E Any S X) Net) (x : exchange Net) (me : option ModuleExtractor).

Abbreviation XS := (Run (exchange Net)).

(** ** The extractor of a request *)

(** The exchange is all that a dispatch changes. *)
Lemma on_exchange_keeps {A} (m : XS A) h :
  h_proxy (on_exchange m h).2 = h_proxy h ∧ h_trace (on_exchange m h).2 = h_trace h.
Proof. unfold on_exchange. by destruct (m (h_exchange h)). Qed.

Lemma dispatch_keeps cfg route pattern me h :
  h_proxy (dispatch cfg route pattern me h).2 = h_proxy h ∧
  h_trace (dispatch cfg route pattern me h).2 = h_trace h.
Proof. unfold dispatch. go. apply on_exchange_keeps. Qed.

Lemma request_log_keeps h :
  (request_log h).1 ≠ Block ∧ h_proxy (request_log h).2 = h_proxy h ∧ h_trace (request_log h).2 = h_trace h ∧
  h_exchange (request_log h).2 = h_exchange h.
Proof. unfold request_log. go. by destruct (x_urls _ !! _). Qed.

(** A deferred call that returns changes the state and not the exit. *)
Lemma finally_returns {P A} (d : Run P unit) (m : Run P A) (s : P) r s1 s2 :
  m s = (r, s1) → r ≠ Block → d s1 = (Return tt, s2) → finally d m s = (r, s2).
Proof. intros E1 Hr E2. unfold finally. rewrite E1. destruct r; [by rewrite E2|by rewrite E2|done]. Qed.
Lemma finally_log {A} (m : Run (handling (@ProxyState E Any S X) Net) A) h r h1 :
  m h = (r, h1) → r ≠ Block → ∃ r' h', finally request_log m h = (r', h') ∧ r' ≠ Block ∧
    h_proxy h' = h_proxy h1 ∧ h_trace h' = h_trace h1 ∧ h_exchange h' = h_exchange h1.
Proof.
  intros E1 Hr. destruct (request_log_keeps h1) as (Hb & Hp & Ht & Hx). unfold finally. rewrite E1.
  destruct r as [a|e|]; [| |done]; destruct (request_log h1) as [[[]|e'|] h']; cbn in *; try done; eauto 10.
Qed.

(** The proxy when a pool holds the extractors [chan]. *)
Definition holding pl (mb : ModulePool) (chan : list ModuleExtractor) p : @ProxyState E Any S X :=
  set_pool_objs (<[pl := with_chan chan mb]> (pool_objs p)) p.

(** The pool of a provider is stale when the provider is closed. *)
Lemma own_pool p l o pl : pools_ok p → provider_objs p !! l = Some o → modBuf o = Some pl →
  ∃ mb, pool_objs p !! pl = Some mb ∧ is_stale p mb = rcp_done o.
Proof.
  intros Hp Hl Hb. destruct (po_provider p Hp l o pl Hl Hb) as (mb & Hpl & Hd & Hm). exists mb. split; [done|].
  unfold is_stale. by rewrite Hd, Hm, Hl.
Qed.

(** What a request borrows: the pool's first extractor, or a new one. *)
Inductive lends route p (mb : ModulePool) : ModuleExtractor → list ModuleExtractor → Prop :=
  | lends_first e chan : modExtChan mb = e :: chan → lends route p mb e chan
  | lends_new e : modExtChan mb = [] → (createModuleExtractorFunc route p).1 = Return (Ok e) → lends route p mb e [].

Lemma made route p r : (createModuleExtractorFunc route p).1 = Return r → createModuleExtractorFunc route p = (Return r, p).
Proof.
  destruct (createModuleExtractorFunc route p) as [r' p'] eqn:E1. cbn. intros ->. f_equal.
  by apply createModuleExtractorFunc_reads in E1.
Qed.
Lemma Borrow_lends route p pl mb e chan : pools_ok p → pool_objs p !! pl = Some mb → is_stale p mb = false →
  lends route p mb e chan → Borrow pl (createModuleExtractorFunc route) p = (Return (Some e), holding pl mb chan p).
Proof.
  intros Hp Hpl Hs [e' chan' Hc|e' Hc Hn]; rewrite (Borrow_ok p pl mb) by done; rewrite Hs, Hc; [done|].
  apply made in Hn. go. rewrite Hn. go. unfold holding. assert (with_chan [] mb = mb) as -> by (destruct mb; cbn in Hc; by subst).
  by rewrite insert_id, set_pool_objs_id.
Qed.
Lemma Return_holding p pl mb e chan : pools_ok (holding pl mb chan p) → is_stale p mb = false →
  ∃ kept, Return_ pl e (holding pl mb chan p) = (Return kept,
    holding pl mb (if Z.of_nat (length chan) <? mp_max mb then chan ++ [e] else chan) p).
Proof.
  intros Hp Hs. rewrite (Return_ok _ pl (with_chan chan mb)); [|done|cbn; apply lookup_insert_eq].
  change (is_stale _ _) with (is_stale p mb). rewrite Hs. cbn. exists (Z.of_nat (length chan) <? mp_max mb).
  destruct (Z.ltb _ _); [|done].
  unfold holding, set_pool_objs, with_chan. cbn. by rewrite insert_insert_eq.
Qed.

(** A request that borrows nothing. *)
Definition lends_nothing route p (o : RequestContextProvider) : Prop :=
  rcp_done o = true ∨ modBuf o = None ∨
  ∃ pl mb err, modBuf o = Some pl ∧ pool_objs p !! pl = Some mb ∧ modExtChan mb = [] ∧
    (createModuleExtractorFunc route p).1 = Return (Err err).
Lemma Borrow_nothing route p l o pl : pools_ok p → provider_objs p !! l = Some o → lends_nothing route p o →
  modBuf o = Some pl → Borrow pl (createModuleExtractorFunc route) p = (Return None, p).
Proof.
  intros Hp Hl Hn Hb. destruct (own_pool p l o pl Hp Hl Hb) as (mb & Hpl & Hs). rewrite (Borrow_ok p pl mb) by done.
  rewrite Hs. destruct Hn as [->|[Hn|(pl' & mb' & err & Hb' & Hpl' & Hc & Hn)]]; [done|congruence|].
  rewrite Hb in Hb'. injection Hb' as <-. rewrite Hpl in Hpl'. injection Hpl' as <-.
  destruct (rcp_done o); [done|]. rewrite Hc. apply made in Hn. go. by rewrite Hn.
Qed.

(** The handler with an extractor in hand. *)
Lemma lent_once cfg route pattern pl e p1 p2 kept h :
  let h1 := MkHandling p1 (h_exchange h) (h_trace h ++ [Started]) (h_log h) in
  (dispatch cfg route pattern (Some e) h1).1 ≠ Block → Return_ pl e p1 = (Return kept, p2) →
  ∃ r h', finally (_ ← on_proxy (Return_ pl e); trace Returned)
      (_ ← trace Started; finally (trace Stopped) (dispatch cfg route pattern (Some e)))
      (MkHandling p1 (h_exchange h) (h_trace h) (h_log h)) = (r, h') ∧ r ≠ Block ∧
    h_trace h' = h_trace h ++ [Started; Stopped; Returned] ∧ h_proxy h' = p2.
Proof.
  intros h1 Hblock Hret. destruct (dispatch cfg route pattern (Some e) h1) as [r h2] eqn:Hrun. cbn in Hblock.
  destruct (dispatch_keeps cfg route pattern (Some e) h1) as [Hp Ht]. rewrite Hrun in Hp, Ht. cbn in Hp, Ht.
  exists r, (MkHandling p2 (h_exchange h2) (h_trace h2 ++ [Stopped; Returned]) (h_log h2)).
  split; [|split; [done|split; [by cbn; rewrite Ht, <-(assoc_L (++))|done]]].
  eapply finally_returns; [|exact Hblock|].
  - unfold trace at 1. go. eapply finally_returns; [exact Hrun|exact Hblock|]. unfold trace. go. reflexivity.
  - go. unfold on_proxy. cbn [h_proxy]. rewrite Hp, Hret. unfold trace. go. cbn. by rewrite <-(assoc_L (++)).
Qed.

(** A proxy whose providers and pools began empty. *)
Definition pools_reached p : Prop := ∃ p0, started_empty p0 ∧ rtc pool_step p0 p.
Lemma pools_reached_ok p : pools_reached p → pools_ok p.
Proof. intros (p0 & H0 & Hs). exact (proj1 (pool_steps_keep p0 p Hs (started_empty_ok p0 H0))). Qed.

(** C7: A route with modules, in any state that its provider and the pools got
    into.  If the provider is open and its pool lends (the extractor it holds
    first, or a new one when it holds none, as it does on the first request),
    the extractor is started, and is stopped and given back to that pool
    exactly once when the request is over, whether its functions, the upstream
    and the client let the handler return or make it panic; if nothing else
    used the pool meanwhile, it keeps the extractor, behind the others, where
    there is room.  If the provider is closed or has no pool, or no extractor
    can be made, the answer is a 500, no extractor is started and the proxy is
    as before. *)
Theorem extractor_goes_back cfg l route pattern h o
  (Hm : elems (DGateRoute.Modules route) ≠ []) (Hreach : pools_reached (h_proxy h))
  (Hl : provider_objs (h_proxy h) !! l = Some o) :
  (∀ pl mb e chan, rcp_done o = false → modBuf o = Some pl → pool_objs (h_proxy h) !! pl = Some mb →
     lends route (h_proxy h) mb e chan →
     (dispatch cfg route pattern (Some e)
        (MkHandling (holding pl mb chan (h_proxy h)) (h_exchange h) (h_trace h ++ [Started]) (h_log h))).1 ≠ Block →
     ∃ r h', proxyHandler cfg l route pattern h = (r, h') ∧ r ≠ Block ∧
       h_trace h' = h_trace h ++ [Started; Stopped; Returned] ∧
       h_proxy h' = holding pl mb (if Z.of_nat (length chan) <? mp_max mb then chan ++ [e] else chan) (h_proxy h)) ∧
  (lends_nothing route (h_proxy h) o →
     ∃ r h', proxyHandler cfg l route pattern h = (r, h') ∧ r ≠ Block ∧
       h_trace h' = h_trace h ∧ h_proxy h' = h_proxy h ∧
       h_exchange h' = (WriteStatusCodeError 500 (h_exchange h)).2).
Proof.
  pose proof (pools_reached_ok _ Hreach) as Hok. assert (pool_of l (h_proxy h) = (Return (modBuf o), h_proxy h)) as Hof.
  { unfold pool_of. go. by rewrite (provider_at_ok _ l o). }
  split.
  - intros pl mb e chan Hd Hb Hpl Hlends Hblock.
    destruct (own_pool _ l o pl Hok Hl Hb) as (mb' & Hpl' & Hs). rewrite Hpl in Hpl'. injection Hpl' as <-. rewrite Hd in Hs.
    pose proof (Borrow_lends route (h_proxy h) pl mb e chan Hok Hpl Hs Hlends) as HB.
    assert (pools_ok (holding pl mb chan (h_proxy h))) as Hok1.
    { apply keep_chan; [done..|]. destruct (po_pool _ Hok pl mb Hpl) as (Hlen & _).
      destruct Hlends as [e chan Hc|e Hc _]; rewrite Hc in Hlen; cbn in *; lia. }
    destruct (Return_holding (h_proxy h) pl mb e chan Hok1 Hs) as [kept HR].
    destruct (lent_once cfg route pattern pl e _ _ kept h Hblock HR) as (r & h3 & Erun & Hr & Ht & Hp).
    destruct (finally_log (handle_with_modules cfg l route pattern) h r h3)
      as (r' & h' & E' & Hr' & Hp' & Ht' & _); [|done|exists r', h'; by rewrite Ht', Hp'].
    unfold handle_with_modules. destruct (elems (DGateRoute.Modules route)) as [|m ms]; [done|]. go.
    unfold on_proxy at 1. rewrite Hof, Hb. go. unfold on_proxy at 1. cbn [h_proxy]. by rewrite HB.
  - intros Hn. pose proof (λ pl, Borrow_nothing route _ l o pl Hok Hl Hn) as HB.
    set (h3 := MkHandling (h_proxy h) (WriteStatusCodeError 500 (h_exchange h)).2 (h_trace h) (h_log h)).
    destruct (finally_log (handle_with_modules cfg l route pattern) h (Return tt) h3)
      as (r' & h' & E' & Hr' & Hp' & Ht' & Hx'); [|done|by exists r', h'].
    unfold handle_with_modules. destruct (elems (DGateRoute.Modules route)) as [|m ms]; [done|]. go.
    unfold on_proxy at 1. rewrite Hof.
    destruct (modBuf o) as [pl|]; go; [unfold on_proxy at 1; cbn [h_proxy]; rewrite (HB pl) by done|]; reflexivity.
Qed.

(** ** A request to a service *)

Lemma change_header_ok f x : change_header f x = (Return tt, set_rw (Tracker.MkTracker
  (MkWriter (f (w_header (Tracker.rw (x_rw x)))) (w_sent (Tracker.rw (x_rw x))))
  (Tracker.status (x_rw x)) (Tracker.bytesWritten (x_rw x))) x).
Proof. reflexivity. Qed.
Lemma WriteHeader_ok code x : code ≠ 0 → WriteHeader code x = (Return tt, set_rw (Tracker.MkTracker
  (raw_WriteHeader code (Tracker.rw (x_rw x))) code (Tracker.bytesWritten (x_rw x))) x).
Proof.
  intros Hc. unfold WriteHeader. go. unfold Tracker.WriteHeader. by rewrite (proj2 (Z.eqb_neq _ _)).
Qed.

Lemma Write_ok b x : Tracker.status (x_rw x) ≠ 0 →
  Write b x = (Return (conn_Write b (Tracker.rw (x_rw x))), set_rw (Tracker.MkTracker
    (MkWriter (w_header (Tracker.rw (x_rw x))) (w_sent (Tracker.rw (x_rw x)) ++ [SentBody b]))
    (Tracker.status (x_rw x))
    (Tracker.bytesWritten (x_rw x) + (conn_Write b (Tracker.rw (x_rw x))).1)) x).
Proof.
  intros Hs. unfold Write. go. unfold Tracker.Write, Tracker.HeadersSent.
  rewrite (proj2 (Z.eqb_neq _ _)) by done. cbn. by destruct (conn_Write b (Tracker.rw (x_rw x))).
Qed.

(** What the reverse proxy makes of an answer, from a writer to which nothing
    was written. *)
Record untouched (x : exchange Net) : Prop := MkUntouched {
  un_status : Tracker.status (x_rw x) = 0;
  un_bytes : Tracker.bytesWritten (x_rw x) = 0;
  un_sent : w_sent (Tracker.rw (x_rw x)) = [] }.

Lemma on_error_untouched err x : untouched x →
  ∃ x' hd, on_error None err x = (Return tt, x') ∧ w_sent (Tracker.rw (x_rw x')) = [SentHeader 502 hd] ∧
    x_net x' = x_net x ∧ x_urls x' = x_urls x ∧ x_req x' = x_req x.
Proof.
  intros [Hs Hb Hsent]. unfold on_error. go. unfold Tracker.HeadersSent. rewrite Hs. cbn [negb Z.eqb].
  cbn [fn_of]. go. unfold Tracker.BytesWritten. rewrite Hs, Hb. cbn [negb Z.eqb andb].
  unfold WriteStatusCodeError. go. rewrite change_header_ok. go. rewrite change_header_ok. go.
  rewrite WriteHeader_ok by done. do 2 eexists. split; [reflexivity|]. cbn. by rewrite Hsent.
Qed.

(** The headers of a response to the client. *)
Definition client_header (cfg : handler_config) (svc : DGateService.t) (res : Response) (hd : Header) : Header :=
  let rh := incoming (rs_Header res) in
  copy_header (if DGateService.HideDGateHeaders svc then Set_ "Via" "DGate Proxy" rh else rh) hd.

Definition delivered (cfg : handler_config) (svc : DGateService.t) (res : Response) (hd : Header) : list sent :=
  SentHeader (StatusCode res) (client_header cfg svc res hd) ::
    if String.eqb (rs_Body res) "" then [] else [SentBody (rs_Body res)].

Abbreviation executor := (Builder.executor (round_tripper unit) (Response → XS (option error * Response))
  (error → XS unit)).

(** The reverse proxy, once the request is rewritten. *)
Lemma rp_ServeHTTP_ok cfg svc (rp : executor) x u s target : untouched x →
  let lo := fresh ({[nil]} ∪ dom (x_urls x) : gset loc) in
  x_urls x !! rq_URL (x_req x) = Some u →
  Builder.ErrorHandler_ rp = on_error None → Builder.ModifyResponse_ rp = Some (on_response svc None) →
  Builder.Rewrite_ rp (MkRewriting (<[lo := with_query (Query.clean (RawQuery u)) u]> (x_urls x)) (x_req x)
    (with_header (outgoing (rq_Header (x_req x))) (with_url lo (x_req x)))) = Returns (tt, s) →
  urls s !! rq_URL (Out s) = Some target →
  let out := with_header (user_agent (rq_Header (Out s))) (Out s) in
  (∀ res n, trip (Builder.Transport_ rp) target out (x_net x) = Returns ((Some res, None), n) →
     StatusCode res ≠ 0 → ∃ x', rp_ServeHTTP rp x = (Return tt, x') ∧ x_net x' = n ∧
       w_sent (Tracker.rw (x_rw x')) = delivered cfg svc res (w_header (Tracker.rw (x_rw x))) ∧
       x_urls x' = urls s ∧ x_req x' = In s) ∧
  (∀ r err n, trip (Builder.Transport_ rp) target out (x_net x) = Returns ((r, Some err), n) →
     ∃ x' hd, rp_ServeHTTP rp x = (Return tt, x') ∧ x_net x' = n ∧
       w_sent (Tracker.rw (x_rw x')) = [SentHeader 502 hd] ∧ x_urls x' = urls s ∧ x_req x' = In s).
Proof.
  intros Hx lo Hu Heh Hmr Hrw Ht out. unfold rp_ServeHTTP. go. rewrite Hu. go. fold lo. rewrite Hrw. cbn [snd]. go.
  fold out. change (rq_URL out) with (rq_URL (Out s)). rewrite Ht. go. cbn [x_net set_requests]. split.
  - intros res n -> Hcode. rewrite Hmr. unfold on_response. cbn [fn_of]. go.
    set (res0 := if DGateService.HideDGateHeaders svc then _ else _).
    assert (StatusCode res0 = StatusCode res ∧ rs_Body res0 = rs_Body res ∧
      copy_header (rs_Header res0) = client_header cfg svc res) as (Hc0 & Hb0 & Hh0).
    { unfold res0, client_header. by destruct (DGateService.HideDGateHeaders svc). }
    rewrite change_header_ok, Hc0, Hb0, Hh0. go. rewrite WriteHeader_ok by done. go. unfold delivered.
    destruct (String.eqb (rs_Body res) ""); go.
    + eexists. split; [reflexivity|]. cbn. by rewrite (un_sent x Hx).
    + rewrite Write_ok by done. eexists. split; [reflexivity|]. cbn. by rewrite (un_sent x Hx).
  - intros r err n ->. rewrite Heh.
    destruct (on_error_untouched (error_text err) (set_net n (set_requests (urls s) (In s) x)))
      as (x' & hd & E1 & Hsent & Hn & Hus & Hr); [by destruct Hx|]. eauto 10.
Qed.

(** The request that goes out to a service whose URL has the fields [up]. *)
Definition asked_url (route : DGateRoute.t) (svc : DGateService.t) (pattern : string) (r : Request)
    (u up : url) : url :=
  MkUrl
    (custom_scheme (Scheme up) (rq_TLS r)
      (if String.eqb (Scheme u) ""
       then if DGateRoute.PreserveHost route then if rq_TLS r then "https" else "http" else Scheme up
       else Scheme u))
    (Host up)
    (target_path (DGateRoute.StripPath route) pattern (Path u) (Path up))
    (if DGateService.DisableQueryParams svc then "" else Query.clean (RawQuery u)).
Definition asked_header (cfg : handler_config) (route : DGateRoute.t) (svc : DGateService.t) (ns : string)
    (r : Request) : Header :=
  user_agent ((if DisableXForwardedHeaders cfg then Builder.forwarded SplitHostPort r else Builder.unforwarded)
    (outgoing (if DGateService.HideDGateHeaders svc
               then dgate_headers cfg (DGateService.Name svc) (DGateRoute.Name route) ns (rq_Header r)
               else rq_Header r))).

(** The headers of the writer when the upstream is asked. *)
Definition writer_header (debugMode : bool) (cfg : handler_config) (svc : DGateService.t) (host : string)
    (hd : Header) : Header :=
  global_headers cfg
    (if DGateService.HideDGateHeaders svc && debugMode then Set_ "X-Upstream-URL" host hd else hd).

(** The state in which the upstream is asked. *)
Definition prepared debugMode cfg route svc host (up : url) ns x (l : loc) : exchange Net :=
  MkExchange (<[l := up]> (x_urls x))
    (if DGateService.HideDGateHeaders svc
     then with_header (dgate_headers cfg (DGateService.Name svc) (DGateRoute.Name route) ns
            (rq_Header (x_req x))) (x_req x)
     else x_req x)
    (Tracker.MkTracker (MkWriter (writer_header debugMode cfg svc host (w_header (Tracker.rw (x_rw x))))
       (w_sent (Tracker.rw (x_rw x)))) (Tracker.status (x_rw x)) (Tracker.bytesWritten (x_rw x)))
    (x_net x).

(** The builder once the service's request is built. *)
Definition service_builder (cfg : handler_config) (route : DGateRoute.t) (svc : DGateService.t)
    (t : round_tripper unit) (l : loc) (pattern : string) :
    Builder.reverseProxyBuilder (round_tripper unit) (Response → XS (option error * Response)) (error → XS unit) :=
  Builder.MkBuilder (Some scheme_rewrite) (Some l) pattern
    (Some t) (-1) (Some (on_response svc None)) (Some (on_error None)) (DGateRoute.StripPath route)
    (DGateRoute.PreserveHost route) (DGateService.DisableQueryParams svc) (DisableXForwardedHeaders cfg).
Definition service_executor cfg route svc t l pattern : executor :=
  Builder.MkExecutor (on_error None) (-1) (Some (on_response svc None)) t
    (Builder.Rewrite SplitHostPort (service_builder cfg route svc t l pattern)).

Lemma Build_service cfg route svc t l pattern : pattern ≠ "" →
  Builder.Build (Direct None) default_error SplitHostPort (Some l) pattern
    (Builder.ErrorHandler (on_error None) (Builder.ModifyResponse (on_response svc None)
      (Builder.Clone (provider_builder cfg route svc t)))) = Ok (service_executor cfg route svc t l pattern).
Proof. intros Hp. unfold Builder.Build. by rewrite (proj2 (String.eqb_neq pattern "")). Qed.

Lemma handleServiceProxy_prepares debugMode cfg route svc t pattern x su more pu ns :
  DGateService.URLs svc = Some (Some su :: more) → url_Parse (url_String su) = Ok pu →
  DGateRoute.Namespace route = Some ns → pattern ≠ "" →
  let l := fresh ({[nil]} ∪ dom (x_urls x) : gset loc) in
  handleServiceProxy debugMode cfg route svc (provider_builder cfg route svc t) pattern None x =
    rp_ServeHTTP (service_executor cfg route svc t l pattern)
      (prepared debugMode cfg route svc (url_String su) (url_fields pu) (DGateNamespace.Name ns) x l).
Proof.
  intros Hsu Hpu Hns Hpat l. unfold handleServiceProxy, upstream_host. go. cbn [fn_of]. rewrite Hsu.
  cbn [elems default id]. go. rewrite Hns, Hpu. unfold prepared, writer_header.
  assert (∀ x0 : exchange Net, x_urls x0 = x_urls x →
    (x ← run_get;
     let l := fresh ({[nil]} ∪ dom (x_urls x) : gset loc) in
     _ ← run_modify (λ x, set_requests (<[l := url_fields pu]> (x_urls x)) (x_req x) x);
     match Builder.Build (Direct None) default_error SplitHostPort (Some l) pattern
       (Builder.ErrorHandler (on_error None) (Builder.ModifyResponse (on_response svc None)
         (Builder.Clone (provider_builder cfg route svc t)))) with
     | Err _ => WriteStatusCodeError 500
     | Ok rp => _ ← change_header (global_headers cfg); rp_ServeHTTP rp
     end) x0 = rp_ServeHTTP (service_executor cfg route svc t l pattern)
       (MkExchange (<[l := url_fields pu]> (x_urls x)) (x_req x0)
         (Tracker.MkTracker (MkWriter (global_headers cfg (w_header (Tracker.rw (x_rw x0))))
           (w_sent (Tracker.rw (x_rw x0)))) (Tracker.status (x_rw x0)) (Tracker.bytesWritten (x_rw x0)))
         (x_net x0))) as Hrest.
  { intros x0 Hx0. go. rewrite Build_service by done. go. rewrite change_header_ok. go. by rewrite Hx0. }
  destruct (DGateService.HideDGateHeaders svc); [|exact (Hrest x eq_refl)].
  set (x1 := set_requests (x_urls x) (with_header (dgate_headers cfg (DGateService.Name svc)
    (DGateRoute.Name route) (DGateNamespace.Name ns) (rq_Header (x_req x))) (x_req x)) x).
  destruct debugMode; [|exact (Hrest x1 eq_refl)].
  exact (Hrest (change_header (Set_ "X-Upstream-URL" (url_String su)) x1).2 eq_refl).
Qed.

Lemma fresh_ne (m : gmap loc url) k u : m !! k = Some u → k ≠ fresh ({[nil]} ∪ dom m : gset loc).
Proof.
  intros Hk E1. apply (is_fresh ({[nil]} ∪ dom m : gset loc)). rewrite <-E1.
  apply elem_of_union_r, elem_of_dom. by eexists.
Qed.

(** What the request log says afterwards: the service's path, and its query
    twice. *)
Definition logged_url (svc : DGateService.t) (up : url) : url :=
  if DGateService.DisableQueryParams svc then up else with_query (doubled (RawQuery up)) up.

(** C6: A request to a service through a route without modules.  The first of
    the service's URLs is asked, always, with the client's query as httputil
    cleans it, and with an empty User-Agent if the client sent none; the
    answer is delivered to the client as it is, with the global headers; an
    error is a bad gateway.  The headers of DGate are sent, and the answer is
    marked, exactly when the service hides them; the forwarding headers are
    sent exactly when they are disabled. *)
Theorem service_request debugMode cfg route svc t pattern x su more pu ns u
  (Hx : untouched x) (Hu : x_urls x !! rq_URL (x_req x) = Some u)
  (Hsu : DGateService.URLs svc = Some (Some su :: more)) (Hpu : url_Parse (url_String su) = Ok pu)
  (Hns : DGateRoute.Namespace route = Some ns) (Hpat : pattern ≠ "") :
  let up := url_fields pu in
  let handle := handleServiceProxy debugMode cfg route svc (provider_builder cfg route svc t) pattern None x in
  ∃ out,
    Method out = Method (x_req x) ∧ rq_Body out = rq_Body (x_req x) ∧
    rq_Host out = (if DGateRoute.PreserveHost route && negb (String.eqb (rq_Host (x_req x)) "")
                   then rq_Host (x_req x) else Host up) ∧
    rq_Header out = asked_header cfg route svc (DGateNamespace.Name ns) (x_req x) ∧
    (∀ res n, trip t (asked_url route svc pattern (x_req x) u up) out (x_net x) = Returns ((Some res, None), n) →
       StatusCode res ≠ 0 → ∃ x', handle = (Return tt, x') ∧ x_net x' = n ∧
         w_sent (Tracker.rw (x_rw x')) = delivered cfg svc res
           (writer_header debugMode cfg svc (url_String su) (w_header (Tracker.rw (x_rw x)))) ∧
         x_urls x' !! rq_URL (x_req x') = Some (logged_url svc up)) ∧
    (∀ r err n, trip t (asked_url route svc pattern (x_req x) u up) out (x_net x) = Returns ((r, Some err), n) →
       ∃ x' hd, handle = (Return tt, x') ∧ x_net x' = n ∧ w_sent (Tracker.rw (x_rw x')) = [SentHeader 502 hd] ∧
         x_urls x' !! rq_URL (x_req x') = Some (logged_url svc up)).
Proof.
  intros up handle. unfold handle. rewrite (handleServiceProxy_prepares _ _ _ _ _ _ x su more pu ns) by done.
  set (l := fresh _). assert (Hl : rq_URL (x_req x) ≠ l) by exact (fresh_ne _ _ _ Hu).
  set (y := prepared _ _ _ _ _ _ _ _ _).
  assert (Hreq : rq_URL (x_req y) = rq_URL (x_req x)) by (cbn; by destruct (DGateService.HideDGateHeaders svc)).
  assert (Hly : x_urls y !! l = Some up) by apply lookup_insert_eq.
  assert (Huy : x_urls y !! rq_URL (x_req y) = Some u) by (rewrite Hreq; cbn; by rewrite lookup_insert_ne).
  set (lo := fresh ({[nil]} ∪ dom (x_urls y) : gset loc)).
  assert (Hlo1 : lo ≠ l) by (apply not_eq_sym; exact (fresh_ne _ _ _ Hly)).
  assert (Hlo2 : lo ≠ rq_URL (x_req y)) by (apply not_eq_sym; exact (fresh_ne _ _ _ Huy)).
  set (uo := with_query (Query.clean (RawQuery u)) u).
  set (s := MkRewriting (<[lo := uo]> (x_urls y)) (x_req y)
    (with_header (outgoing (rq_Header (x_req y))) (with_url lo (x_req y)))).
  destruct (Rewrite_ok SplitHostPort (service_builder cfg route svc t l pattern) s l u uo up)
    as (s' & E1 & Ht & Hout & Hin & Hlog).
  { constructor; cbn [service_builder Builder.upstreamUrl Builder.customRewrite s urls In Out]; [done|by right| | | |done].
    - by rewrite lookup_insert_ne.
    - apply lookup_insert_eq.
    - rewrite lookup_insert_ne by done. apply lookup_insert_eq. }
  assert (Hlog' : urls s' !! rq_URL (In s') = Some (logged_url svc up)).
  { rewrite Hin. cbn [with_url rq_URL]. rewrite Hlog. unfold logged_url. cbn. by destruct (DGateService.DisableQueryParams svc). }
  assert (Htarget : urls s' !! rq_URL (Out s') = Some (asked_url route svc pattern (x_req x) u up)).
  { rewrite Hout. cbn [with_header with_host rq_URL]. rewrite Ht. unfold asked_url, target_scheme. cbn.
    by destruct (DGateService.HideDGateHeaders svc). }
  destruct (rp_ServeHTTP_ok cfg svc (service_executor cfg route svc t l pattern) y u s'
    (asked_url route svc pattern (x_req x) u up)) as [Hok Herr]; [by destruct Hx|done|done|done|exact E1|done|].
  exists (with_header (user_agent (rq_Header (Out s'))) (Out s')). split; [|split; [|split; [|split; [|split]]]].
  1-4: rewrite Hout; unfold asked_header; cbn;
    by destruct (DGateService.HideDGateHeaders svc), (DisableXForwardedHeaders cfg).
  - intros res n Hn Hc. destruct (Hok res n Hn Hc) as (x' & E2 & Hnet & Hsent & Hus & Hr).
    exists x'. split; [exact E2|]. split; [done|]. split; [exact Hsent|]. by rewrite Hus, Hr.
  - intros r err n Hn. destruct (Herr r err n Hn) as (x' & hd & E2 & Hnet & Hsent & Hus & Hr).
    exists x', hd. split; [exact E2|]. split; [done|]. split; [exact Hsent|]. by rewrite Hus, Hr.
Qed.

(** ** Every request is answered *)

(** The exchanges after a computation that returns. *)
Definition after {A} (m : XS A) (Q : A → exchange Net → Prop) (x : exchange Net) : Prop :=
  match m x with (Return a, x') => Q a x' | _ => True end.

Lemma after_bind {A B} (m : XS A) (f : A → XS B) Q x : after m (λ a, after (f a) Q) x → after (m ≫= f) Q x.
Proof. unfold after. rewrite run_bind_unfold. by destruct (m x) as [[a|e|] x1]. Qed.
Lemma after_ret {A} (a : A) Q x : Q a x → after (mret a) Q x.
Proof. done. Qed.
Lemma after_get (Q : exchange Net → exchange Net → Prop) x : Q x x → after run_get Q x.
Proof. done. Qed.
Lemma after_modify f Q x : Q tt (f x) → after (run_modify f) Q x.
Proof. done. Qed.
Lemma after_panic {A} e (Q : A → exchange Net → Prop) x : after (run_panic e) Q x.
Proof. done. Qed.
Lemma after_lift {A} (o : outcome A) Q x : (∀ a, o = Returns a → Q a x) → after (lift_outcome o) Q x.
Proof. unfold after. go. destruct o; naive_solver. Qed.
Lemma after_mono {A} (m : XS A) (Q Q' : A → exchange Net → Prop) x :
  after m Q x → (∀ a x', Q a x' → Q' a x') → after m Q' x.
Proof. unfold after. destruct (m x) as [[a|e|] x1]; naive_solver. Qed.

(** No byte is written before the status. *)
Definition orderly x : Prop := Tracker.status (x_rw x) = 0 → Tracker.bytesWritten (x_rw x) = 0.
Definition answered x : Prop := Tracker.HeadersSent (x_rw x) = true.

Lemma answered_orderly x : answered x → orderly x.
Proof. unfold answered, orderly, Tracker.HeadersSent. intros H E1. by rewrite E1 in H. Qed.

Lemma change_header_answered f x : (orderly x → after (change_header f) (λ _, orderly) x) ∧
  (answered x → after (change_header f) (λ _, answered) x).
Proof. by split. Qed.
Lemma WriteHeader_answers code x : after (WriteHeader code) (λ _, answered) x.
Proof.
  unfold WriteHeader. apply after_bind, after_get, after_bind, after_lift. intros t Ht. apply after_modify.
  unfold Tracker.WriteHeader in Ht. destruct (Z.eqb_spec code 0); [done|]. injection Ht as <-.
  unfold answered, Tracker.HeadersSent. cbn. by rewrite (proj2 (Z.eqb_neq _ _)).
Qed.
Lemma Write_answered b x : answered x → after (Write b) (λ _, answered) x.
Proof.
  unfold answered, Tracker.HeadersSent. intros Hx. apply negb_true_iff, Z.eqb_neq in Hx.
  unfold after. rewrite Write_ok by done. cbn. by apply negb_true_iff, Z.eqb_neq.
Qed.
Lemma WriteStatusCodeError_answers code x : after (WriteStatusCodeError code) (λ _, answered) x.
Proof.
  unfold WriteStatusCodeError. do 2 (apply after_bind, after_modify). apply WriteHeader_answers.
Qed.

(** The modules write through the tracker. *)
Class ModuleLaws : Prop := {
  call_fetch_orderly f x : orderly x → after (call_fetch f) (λ _, orderly) x;
  call_request_orderly f x : orderly x → after (call_request f) (λ _, orderly) x;
  call_response_orderly f res x : orderly x → after (call_response f res) (λ _, orderly) x;
  call_error_orderly f e x : orderly x → after (call_error f e) (λ _, orderly) x }.
Context {ML : ModuleLaws}.

Lemma optional_orderly (f : option module_fn) x : orderly x →
  after (match f with Some f => call_request f | None => mret None end) (λ _, orderly) x.
Proof. intros Hx. destruct f; [by apply call_request_orderly|by apply after_ret]. Qed.

Lemma on_error_answers me err x : orderly x → after (on_error me err) (λ _, answered) x.
Proof.
  intros Hx. unfold on_error. apply after_bind, after_get.
  destruct (Tracker.HeadersSent (x_rw x)) eqn:Hsent; [by apply after_ret|].
  apply after_bind, (after_mono _ (λ _, orderly)).
  - destruct (fn_of me ErrorHandler) as [f|]; [|by apply after_ret].
    apply after_bind, (after_mono _ (λ _, orderly)); [by apply call_error_orderly|]. intros a x1 H1. by apply after_ret.
  - intros [|] x1 H1; [apply WriteStatusCodeError_answers|]. apply after_bind, after_get.
    destruct (Tracker.HeadersSent (x_rw x1)) eqn:Hs1; cbn [negb andb]; [by apply after_ret|].
    unfold Tracker.HeadersSent in Hs1. apply negb_false_iff, Z.eqb_eq in Hs1.
    unfold Tracker.BytesWritten. rewrite (H1 Hs1). apply WriteStatusCodeError_answers.
Qed.

Lemma on_response_orderly svc me res x : orderly x → after (on_response svc me res) (λ _, orderly) x.
Proof.
  intros Hx. unfold on_response. destruct (fn_of me ResponseModifier); [by apply call_response_orderly|by apply after_ret].
Qed.

Lemma rp_ServeHTTP_answers svc me (rp : executor) x : orderly x →
  Builder.ErrorHandler_ rp = on_error me → Builder.ModifyResponse_ rp = Some (on_response svc me) →
  after (rp_ServeHTTP rp) (λ _, answered) x.
Proof.
  intros Hx Heh Hmr. unfold rp_ServeHTTP. apply after_bind, after_get.
  destruct (x_urls x !! _) as [u|]; [|apply after_panic]. cbv zeta.
  apply after_bind, after_lift. intros [[] s] _. cbn [snd]. apply after_bind, after_modify.
  destruct (urls s !! _) as [target|]; [|apply after_panic]. apply after_bind.
  unfold after at 1. go. destruct (trip _ _ _ _) as [[[res err] n]|e]; [|done].
  assert (Hx1 : orderly (set_net n (set_requests (urls s) (In s) x))) by done. revert Hx1.
  generalize (set_net n (set_requests (urls s) (In s) x)). intros x1 Hx1.
  destruct err as [err|]; [rewrite Heh; by apply on_error_answers|]. destruct res as [res|]; [|apply after_panic].
  rewrite Hmr. apply after_bind, (after_mono _ (λ _, orderly)); [by apply on_response_orderly|].
  intros [[err|] res'] x2 Hx2; [rewrite Heh; by apply on_error_answers|].
  apply after_bind, after_modify, after_bind. eapply after_mono; [apply WriteHeader_answers|]. intros [] x3 Hx3.
  destruct (String.eqb (rs_Body res') ""); [by apply after_ret|].
  apply after_bind. eapply after_mono; [by apply Write_answered|]. intros a x4 H4. by apply after_ret.
Qed.

Lemma upstream_host_answers svc me x : orderly x →
  after (upstream_host svc me) (λ host x', match host with Some _ => orderly x' | None => answered x' end) x.
Proof.
  intros Hx. unfold upstream_host. destruct (fn_of me FetchUpstream) as [f|].
  - apply after_bind, (after_mono _ (λ _, orderly)); [by apply call_fetch_orderly|].
    intros [u|e] x1 H1; [by apply after_ret|].
    apply after_bind. eapply after_mono; [apply WriteStatusCodeError_answers|]. intros [] x2 H2. by apply after_ret.
  - destruct (elems (DGateService.URLs svc)) as [|[su|] ?]; [|by apply after_ret|apply after_panic].
    apply after_bind. eapply after_mono; [apply WriteStatusCodeError_answers|]. intros [] x2 H2. by apply after_ret.
Qed.

(** C8: A request to a service that the handler does not abandon in a panic is
    answered: whatever the modules and the upstream do, a status has been
    sent to the client when the handler returns. *)
Theorem service_answers debugMode cfg route svc t pattern me x x'
  (Hx : orderly x)
  (Hrun : handleServiceProxy debugMode cfg route svc (provider_builder cfg route svc t) pattern me x = (Return tt, x')) :
  answered x'.
Proof.
  assert (after (handleServiceProxy debugMode cfg route svc (provider_builder cfg route svc t) pattern me)
    (λ _, answered) x) as H; [|unfold after in H; by rewrite Hrun in H].
  unfold handleServiceProxy. apply after_bind. eapply after_mono; [by apply upstream_host_answers|].
  intros [host|] x1 H1; [|by apply after_ret]. apply after_bind, (after_mono _ (λ _, orderly)).
  { destruct (DGateService.HideDGateHeaders svc); [|by apply after_ret].
    destruct (DGateRoute.Namespace route); [|apply after_panic]. apply after_bind, after_modify.
    destruct debugMode; [by apply after_modify|by apply after_ret]. }
  intros [] x2 H2. destruct (url_Parse host) as [pu|]; [|apply WriteStatusCodeError_answers].
  apply after_bind, (after_mono _ (λ _, orderly)); [by apply optional_orderly|].
  intros [err|] x3 H3; [apply WriteStatusCodeError_answers|].
  apply after_bind, after_get, after_bind, after_modify. unfold Builder.Build.
  destruct (String.eqb pattern ""); [apply WriteStatusCodeError_answers|].
  apply after_bind, after_modify. by apply (rp_ServeHTTP_answers svc me).
Qed.

(** A request that a module handles is answered too, with one exception:
    the module's handler fails, and the module's error handler keeps the
    error to itself without writing anything; the client then gets what
    net/http sends for an empty handler. *)
Theorem module_answers me x x'
  (Hx : orderly x) (Hrun : requestHandlerModule me x = (Return tt, x')) :
  answered x' ∨
  ∃ f g e x1 x2, fn_of me RequestHandler = Some f ∧ fn_of me ErrorHandler = Some g ∧
    call_request f x1 = (Return (Some e), x2) ∧ call_error g e x2 = (Return None, x') .
Proof.
  set (Q := λ x', answered x' ∨ ∃ f g e x1 x2, fn_of me RequestHandler = Some f ∧ fn_of me ErrorHandler = Some g ∧
    call_request f x1 = (Return (Some e), x2) ∧ call_error g e x2 = (Return None, x')).
  assert (after (requestHandlerModule me) (λ _, Q) x) as H; [|unfold after in H; by rewrite Hrun in H].
  assert (Hcode : ∀ code x, after (WriteStatusCodeError code) (λ _, Q) x).
  { intros code x0. eapply after_mono; [apply WriteStatusCodeError_answers|]. by left. }
  unfold requestHandlerModule. apply after_bind, (after_mono _ (λ _, orderly)); [by apply optional_orderly|].
  intros [err|] x1 H1; [apply Hcode|]. destruct (fn_of me RequestHandler) as [f|] eqn:Hf; [|apply Hcode].
  apply after_bind. unfold after at 1. pose proof (call_request_orderly f x1 H1) as H2. unfold after in H2.
  destruct (call_request f x1) as [[[e|]|e|] x2] eqn:Ef; [| |done|done].
  - destruct (fn_of me ErrorHandler) as [g|] eqn:Hg; [|apply Hcode]. apply after_bind. unfold after at 1.
    destruct (call_error g e x2) as [[[e'|]|e'|] x3] eqn:Eg; [apply Hcode| |done|done].
    apply after_ret. right. by exists f, g, e, x1, x2.
  - apply after_bind, after_get. destruct (Tracker.HeadersSent (x_rw x2)) eqn:Hs; [by apply after_ret; left|].
    destruct (0 <? Tracker.BytesWritten (x_rw x2));
      (eapply after_mono; [apply WriteHeader_answers|by left]).
Qed.
End handler.

(** ** A concrete handler

    The network records what it is asked for; one host is down.  The modules'
    handler fails, and their error handler keeps the error to itself. *)
#[local] Existing Instances text_externals sample_env.

Definition sample_handler : HandlerEnv sample_env := {|
  Net := list string;
  call_fetch _ x := (Return (Ok "http://localhost:8080"), x);
  call_request _ x := (Return (Some "failed"), x);
  call_response _ res x := (Return (None, res), x);
  call_error _ _ x := (Return None, x);
  wire u r n := Returns (if String.eqb (Host u) "down" then (None, Some (PlainError "refused"))
                         else (Some (MkResponse 200 ∅ "ok"), None), n ++ [Host u +:+ RequestURI u]);
  conn_Write b _ := (Z.of_nat (String.length b), None);
  url_fields u := MkUrl "http" u "" "";
  outgoing h := h; incoming h := h |}.
#[local] Existing Instance sample_handler.

#[local] Instance sample_modules : ModuleLaws (HE := sample_handler).
Proof. by split. Qed.

Definition plain_config : handler_config := MkHandlerConfig ["eu"] [("X-Global", "1")] false.
Definition two_urls (first : string) : @DGateService.t text_externals :=
  DGateService.mk text_externals "svc" (Some [Some first; Some "second"]) None (Some sample_ns)
    false 0 0 0 0 false false false.
Definition service_route (first : string) : @DGateRoute.t text_externals :=
  DGateRoute.mk text_externals "r" (Some ["/path/*"]) (Some ["GET"]) true false (Some (two_urls first))
    (Some sample_ns) None None.
Definition sample_exchange : exchange Net :=
  CreateRequestContext {[1%N := MkUrl "" "" "/path/test" "q=1"]} (proxied_request "/path/test" 1%N)
    (MkWriter ∅ []) [].

(** The first URL is asked, without a leading slash. *)
Lemma service_request_witness : ∃ x',
  handleServiceProxy false plain_config (service_route "first") (two_urls "first")
    (provider_builder plain_config (service_route "first") (two_urls "first") (Direct (Some tt)))
    "/path/*" None sample_exchange = (Return tt, x') ∧
  x_net x' = ["firsttest?q=1"] ∧
  w_sent (Tracker.rw (x_rw x')) = [SentHeader 200 {["X-Global" := ["1"]]}; SentBody "ok"] ∧
  x_urls x' !! rq_URL (x_req x') = Some (MkUrl "http" "first" "" "").
Proof.
  destruct (service_request false plain_config
    (service_route "first") (two_urls "first") (Direct (Some tt))
    "/path/*" sample_exchange "first" [Some "second"] "first" sample_ns (MkUrl "" "" "/path/test" "q=1"))
    as (out & _ & _ & _ & _ & Hok & _); [by constructor|reflexivity|reflexivity|reflexivity|reflexivity|done|].
  destruct (Hok (MkResponse 200 ∅ "ok") ["firsttest?q=1"]) as (x' & E1 & Hn & Hs & Hu);
    [vm_compute; reflexivity|done|].
  exists x'. split; [exact E1|]. split; [exact Hn|]. split; [rewrite Hs; vm_compute; reflexivity|].
  rewrite Hu. vm_compute. reflexivity.
Defined.

Lemma service_answers_witness : ∃ x',
  handleServiceProxy false plain_config (service_route "down") (two_urls "down")
    (provider_builder plain_config (service_route "down") (two_urls "down") (Direct (Some tt)))
    "/path/*" None sample_exchange = (Return tt, x') ∧ answered x'.
Proof.
  eexists. split; [vm_compute; reflexivity|].
  eapply (service_answers false plain_config (service_route "down") (two_urls "down") (Direct (Some tt))
    "/path/*" None sample_exchange); [done|vm_compute; reflexivity].
Defined.

(** A failure that the module keeps to itself: nothing is sent. *)
Definition failing : ModuleExtractor := MkExtractor tt [(RequestHandler, Some tt); (ErrorHandler, Some tt)].

Lemma module_answers_witness :
  requestHandlerModule (Some failing) sample_exchange = (Return tt, sample_exchange) ∧
  ∃ f g e x1 x2, fn_of (Some failing) RequestHandler = Some f ∧ fn_of (Some failing) ErrorHandler = Some g ∧
    call_request f x1 = (Return (Some e), x2) ∧ call_error g e x2 = (Return None, sample_exchange).
Proof.
  assert (E1 : requestHandlerModule (Some failing) sample_exchange = (Return tt, sample_exchange)) by reflexivity.
  split; [exact E1|]. destruct (module_answers (Some failing) sample_exchange sample_exchange) as [H|H];
    [done|exact E1|discriminate H|exact H].
Defined.

Definition module_route : @DGateRoute.t text_externals :=
  DGateRoute.mk text_externals "r" (Some ["/"]) (Some ["GET"]) false false None (Some sample_ns)
    (Some [Some (DGateModule.mk "m" (Some sample_ns) "f()" "javascript" None)]) None.
(** The first request of the route: its pool is empty, and its module is
    there; and the same with the module missing, where the provider gets no
    pool. *)
Abbreviation sample_proxy := (@ProxyState text_externals string Mem.MemStore sample_env).
Definition the_program : Avl.tree string (option program) :=
  match Avl.Insert (V := option program) Avl.NewTree ("m/" +:+ DGateNamespace.Name sample_ns) (Some "f()") with
  | Returns (t, _) => t
  | Panics _ => Avl.NewTree
  end.
Definition programmed (programs : Avl.tree string (option program)) : sample_proxy := set_modPrograms programs empty_proxy.
Definition provided programs : sample_proxy := (NewRequestContextProvider module_route (programmed programs)).2.
Definition pooled programs : sample_proxy :=
  (give_pool 0 1024 1%N (createModuleExtractorFunc module_route) (provided programs)).2.
Definition first_request programs : handling sample_proxy Net := MkHandling (pooled programs) sample_exchange [] None.

Lemma pooled_reached programs : (NewRequestContextProvider module_route (programmed programs)).1 = Return 1%N →
  is_Some (provider_objs (provided programs) !! 1%N) →
  (give_pool 0 1024 1%N (createModuleExtractorFunc module_route) (provided programs)).1 = Return tt →
  pools_reached (pooled programs).
Proof.
  intros H1 H2 H3. exists empty_proxy. split; [by split|]. apply (rtc_l _ _ (programmed programs)); [by apply step_other|].
  apply (rtc_l _ _ (provided programs)); [by eapply (step_provider module_route 1%N), ends_in|].
  apply rtc_once. apply (step_pool 0 1024 1%N (createModuleExtractorFunc module_route));
    [apply createModuleExtractorFunc_reads|done|by apply ends_in].
Qed.

Lemma extractor_goes_back_witness :
  (∃ r h' me, proxyHandler plain_config 1%N module_route "/" (first_request the_program) = (r, h') ∧
     h_trace h' = [Started; Stopped; Returned] ∧
     pool_objs (h_proxy h') !! 1%N = Some (MkPool 1%N 0 1024 false false [me])) ∧
  (∃ r h', proxyHandler plain_config 1%N module_route "/" (first_request Avl.NewTree) = (r, h') ∧
     h_trace h' = [] ∧ h_proxy h' = pooled Avl.NewTree).
Proof.
  split.
  - destruct (extractor_goes_back plain_config 1%N module_route "/" (first_request the_program)
      (MkProvider module_route false (Some 1%N))) as [H _];
      [done|apply pooled_reached; vm_compute; [reflexivity|by eexists|reflexivity]|vm_compute; reflexivity|].
    edestruct (H 1%N (MkPool 1%N 0 1024 false false [])) as (r & h' & Erun & _ & Htrace & Hp);
      [done|done|vm_compute; reflexivity|apply lends_new; [done|vm_compute; reflexivity]|vm_compute; discriminate|].
    do 3 eexists. split; [exact Erun|]. split; [exact Htrace|]. rewrite Hp. apply lookup_insert_eq.
  - destruct (extractor_goes_back plain_config 1%N module_route "/" (first_request Avl.NewTree)
      (MkProvider module_route false None)) as [_ H];
      [done|apply pooled_reached; vm_compute; [reflexivity|by eexists|reflexivity]|vm_compute; reflexivity|].
    destruct H as (r & h' & Erun & _ & Htrace & Hp & _); [by right; left|]. by exists r, h'.
Defined.
