(* ===== verification/NetIP.v ===== *)
(** * What the code uses of package net: addresses and networks

    An [IP] is its bytes, 4 or 16 of them; [ParseIP] answers 16.  The parsers
    follow net/netip: the bytes of a string are read from left to right, and
    the loop over the groups of an IPv6 address has fuel, one for each of the
    eight groups and one to stop. *)
From Stdlib Require Import ZArith Lia Ascii.
From stdpp Require Import base strings list.
From S2P Require Import Prelude Pattern.

Definition IP : Type := list Z.
Definition IPMask : Type := list Z.
Record IPNet : Type := MkIPNet { net_IP : IP; net_Mask : IPMask }.
#[global] Instance IPNet_eq_dec : EqDecision IPNet.
Proof. solve_decision. Defined.

(** ** Addresses *)

Definition v4InV6Prefix : list Z := [0; 0; 0; 0; 0; 0; 0; 0; 0; 0; 255; 255].

Definition To4 (ip : IP) : option IP :=
  if Nat.eqb (length ip) 4 then Some ip
  else if Nat.eqb (length ip) 16 && bool_decide (take 12 ip = v4InV6Prefix) then Some (drop 12 ip)
  else None.
Definition To16 (ip : IP) : option IP :=
  if Nat.eqb (length ip) 4 then Some (v4InV6Prefix ++ ip)
  else if Nat.eqb (length ip) 16 then Some ip else None.

Definition byte_of (c : ascii) : Z := Z.of_N (N_of_ascii c).
Definition digit (c : ascii) : option Z :=
  if (48 <=? byte_of c) && (byte_of c <=? 57) then Some (byte_of c - 48) else None.
Definition hex_digit (c : ascii) : option Z :=
  match digit c with
  | Some d => Some d
  | None =>
      if (97 <=? byte_of c) && (byte_of c <=? 102) then Some (byte_of c - 97 + 10)
      else if (65 <=? byte_of c) && (byte_of c <=? 70) then Some (byte_of c - 65 + 10) else None
  end.

(** [parseIPv4Fields]: [fields] are complete; [val] has [digLen] digits. *)
Fixpoint parseIPv4_loop (s : string) (fields : list Z) (val : Z) (digLen : nat) : option IP :=
  match s with
  | EmptyString => if Nat.eqb (length fields) 3 then Some (fields ++ [val]) else None
  | String c s =>
      match digit c with
      | Some d =>
          if Nat.eqb digLen 1 && (val =? 0) then None
          else if 255 <? val * 10 + d then None
          else parseIPv4_loop s fields (val * 10 + d) (S digLen)
      | None =>
          if Ascii.eqb c "." then
            if Nat.eqb digLen 0 || String.eqb s "" then None
            else if Nat.eqb (length fields) 3 then None
            else parseIPv4_loop s (fields ++ [val]) 0 0
          else None
      end
  end.
Definition parseIPv4 (s : string) : option IP := parseIPv4_loop s [] 0 0.

(** The hexadecimal digits of a group: their value and number, and the rest;
    at most four. *)
Fixpoint hex_group (s : string) (acc : Z) (off : nat) : option (Z * nat * string) :=
  match s with
  | EmptyString => Some (acc, off, s)
  | String c s' =>
      match hex_digit c with
      | None => Some (acc, off, s)
      | Some d => if (3 <? off)%nat then None else hex_group s' (acc * 16 + d) (S off)
      end
  end.

(** The loop of [parseIPv6]: the bytes so far, and where the ellipsis is. *)
Fixpoint parseIPv6_loop (fuel : nat) (s : string) (ip : IP) (ellipsis : option nat)
    : option (IP * option nat * string) :=
  match fuel with
  | O => Some (ip, ellipsis, s)
  | S fuel =>
      if (16 <=? length ip)%nat then Some (ip, ellipsis, s) else
      match hex_group s 0 0 with
      | None | Some (_, O, _) => None
      | Some (acc, _, rest) =>
          match rest with
          | String "." _ =>
              if match ellipsis with None => negb (Nat.eqb (length ip) 12) | Some _ => false end then None
              else if (16 <? length ip + 4)%nat then None
              else match parseIPv4 s with
                   | Some fields => Some (ip ++ fields, ellipsis, "")
                   | None => None
                   end
          | _ =>
              let ip := ip ++ [acc / 256; acc mod 256] in
              match rest with
              | EmptyString => Some (ip, ellipsis, "")
              | String ":" (String c rest') =>
                  if Ascii.eqb c ":" then
                    match ellipsis with
                    | Some _ => None
                    | None =>
                        if String.eqb rest' "" then Some (ip, Some (length ip), "")
                        else parseIPv6_loop fuel rest' ip (Some (length ip))
                    end
                  else parseIPv6_loop fuel (String c rest') ip ellipsis
              | _ => None
              end
          end
      end
  end.

(** The groups that the ellipsis stands for. *)
Definition expand (ip : IP) (ellipsis : option nat) : option IP :=
  if (length ip <? 16)%nat then
    match ellipsis with
    | None => None
    | Some e => Some (take e ip ++ replicate (16 - length ip) 0 ++ drop e ip)
    end
  else match ellipsis with Some _ => None | None => Some ip end.

Definition parseIPv6 (s : string) : option IP :=
  let '(s, ellipsis) := match s with
                        | String ":" (String ":" s) => (s, Some 0%nat)
                        | _ => (s, None)
                        end in
  if bool_decide (ellipsis = Some 0%nat) && String.eqb s "" then Some (replicate 16 0) else
  match parseIPv6_loop 9 s [] ellipsis with
  | Some (ip, ellipsis, s) => if String.eqb s "" then expand ip ellipsis else None
  | None => None
  end.

(** [netip.ParseAddr] without zones, which [ParseIP] and [ParseCIDR] refuse:
    the first dot or colon decides. *)
Fixpoint ParseAddr_scan (s all : string) : option IP :=
  match s with
  | EmptyString => None
  | String c s =>
      if Ascii.eqb c "." then parseIPv4 all
      else if Ascii.eqb c ":" then parseIPv6 all
      else if Ascii.eqb c "%" then None else ParseAddr_scan s all
  end.
Definition ParseAddr (s : string) : option IP := ParseAddr_scan s s.

Definition ParseIP (s : string) : option IP := ip ← ParseAddr s; To16 ip.

(** ** Networks *)

(** [CIDRMask]: [ones] bits of [bits]. *)
Definition mask_byte (ones : Z) : Z := 255 - (2 ^ (8 - Z.max 0 (Z.min 8 ones)) - 1).
Definition CIDRMask (ones bits : Z) : IPMask :=
  (λ i, mask_byte (ones - 8 * Z.of_nat i)) <$> seq 0 (Z.to_nat (bits / 8)).

Definition Mask (ip : IP) (mask : IPMask) : IP :=
  let mask := if Nat.eqb (length mask) 16 && Nat.eqb (length ip) 4
                   && bool_decide (take 12 mask = replicate 12 255)
              then drop 12 mask else mask in
  let ip := if Nat.eqb (length mask) 4 && Nat.eqb (length ip) 16
                 && bool_decide (take 12 ip = v4InV6Prefix)
            then drop 12 ip else ip in
  if Nat.eqb (length ip) (length mask) then zip_with Z.land ip mask else [].

(** [dtoi] on the whole string. *)
Fixpoint dtoi_loop (s : string) (n : Z) : option Z :=
  match s with
  | EmptyString => Some n
  | String c s =>
      match digit c with
      | Some d => if 0xFFFFFF <=? n * 10 + d then None else dtoi_loop s (n * 10 + d)
      | None => None
      end
  end.
Definition dtoi (s : string) : option Z := if String.eqb s "" then None else dtoi_loop s 0.

(** [Cut] at the first slash. *)
Fixpoint cut_slash (s : string) : option (string * string) :=
  match s with
  | EmptyString => None
  | String c s =>
      if Ascii.eqb c "/" then Some ("", s)
      else match cut_slash s with Some (a, b) => Some (String c a, b) | None => None end
  end.

Definition ParseCIDR (s : string) : gores (IP * IPNet) :=
  let invalid := Err ("invalid CIDR address: " +:+ s) in
  match cut_slash s with
  | None => invalid
  | Some (addr, mask) =>
      match ParseAddr addr, dtoi mask with
      | Some ip, Some n =>
          let bits := 8 * Z.of_nat (length ip) in
          if bits <? n then invalid else
          let m := CIDRMask n bits in
          let addr16 := default [] (To16 ip) in
          Ok (addr16, MkIPNet (Mask addr16 m) m)
      | _, _ => invalid
      end
  end.

Definition networkNumberAndMask (n : IPNet) : IP * IPMask :=
  match (match To4 (net_IP n) with
         | Some ip => Some ip
         | None => if Nat.eqb (length (net_IP n)) 16 then Some (net_IP n) else None
         end) with
  | None => ([], [])
  | Some ip =>
      let m := net_Mask n in
      if Nat.eqb (length m) 4 then if Nat.eqb (length ip) 4 then (ip, m) else ([], [])
      else if Nat.eqb (length m) 16 then (ip, if Nat.eqb (length ip) 4 then drop 12 m else m)
      else ([], [])
  end.

(** The bytes agree under the mask. *)
Fixpoint masked_equal (nn m ip : list Z) : bool :=
  match nn, m, ip with
  | n :: nn, k :: m, i :: ip => (Z.land n k =? Z.land i k) && masked_equal nn m ip
  | _, _, _ => true
  end.
Definition net_Contains (n : IPNet) (ip : IP) : bool :=
  let '(nn, m) := networkNumberAndMask n in
  let ip := default ip (To4 ip) in
  Nat.eqb (length ip) (length nn) && masked_equal nn m ip.

(** ** Kinds of addresses *)

Definition loopback6 : IP := replicate 15 0 ++ [1].
Definition IsLoopback (ip : IP) : bool :=
  match To4 ip with
  | Some b => nth 0 b 0 =? 127
  | None => bool_decide (ip = loopback6)
  end.
Definition private4 (b : IP) : bool :=
  (nth 0 b 0 =? 10)
  || ((nth 0 b 0 =? 172) && (Z.land (nth 1 b 0) 0xf0 =? 16))
  || ((nth 0 b 0 =? 192) && (nth 1 b 0 =? 168)).
Definition IsPrivate (ip : IP) : bool :=
  match To4 ip with
  | Some b => private4 b
  | None => Nat.eqb (length ip) 16 && (Z.land (nth 0 ip 0) 0xfe =? 0xfc)
  end.

(** ** Addresses as text *)

Definition digit_char (d : Z) : ascii := ascii_of_N (Z.to_N (if d <? 10 then 48 + d else 87 + d)).
(** A byte in decimal, a group in hexadecimal, without leading zeros. *)
Definition dec_byte (b : Z) : string :=
  (if b <? 100 then "" else String (digit_char (b / 100)) "") +:+
  (if b <? 10 then "" else String (digit_char (b / 10 mod 10)) "") +:+
  String (digit_char (b mod 10)) "".
Definition hex_str (g : Z) : string :=
  (if g <? 0x1000 then "" else String (digit_char (g / 0x1000)) "") +:+
  (if g <? 0x100 then "" else String (digit_char (g / 0x100 mod 16)) "") +:+
  (if g <? 0x10 then "" else String (digit_char (g / 0x10 mod 16)) "") +:+
  String (digit_char (g mod 16)) "".
Fixpoint join_texts (sep : string) (l : list string) : string :=
  match l with
  | [] => ""
  | [x] => x
  | x :: l => x +:+ sep +:+ join_texts sep l
  end.

Fixpoint groups (ip : IP) : list Z :=
  match ip with a :: b :: ip => a * 256 + b :: groups ip | _ => [] end.
Fixpoint zeros (gs : list Z) : nat :=
  match gs with g :: gs => if g =? 0 then S (zeros gs) else O | [] => O end.
(** The first of the longest runs of at least two groups of zeros: its start
    and its length. *)
Fixpoint longest_run (i : nat) (gs : list Z) (best : nat * nat) : nat * nat :=
  match gs with
  | [] => best
  | _ :: gs' =>
      let l := zeros gs in
      longest_run (S i) gs' (if (2 <=? l)%nat && (best.2 <? l)%nat then (i, l) else best)
  end.
Definition print6 (gs : list Z) : string :=
  match longest_run 0 gs (O, O) with
  | (_, O) => join_texts ":" (hex_str <$> gs)
  | (start, n) => join_texts ":" (hex_str <$> take start gs) +:+ "::" +:+
                  join_texts ":" (hex_str <$> drop (start + n) gs)
  end.
(** [IP.String] of an address of 4 or 16 bytes. *)
Definition IP_String (ip : IP) : string :=
  match To4 ip with
  | Some b => join_texts "." (dec_byte <$> b)
  | None => print6 (groups ip)
  end.

(** ** Host and port *)

(** The text before and after the last [c]. *)
Fixpoint split_last (c : ascii) (s : string) : option (string * string) :=
  match s with
  | EmptyString => None
  | String x s =>
      match split_last c s with
      | Some (a, b) => Some (String x a, b)
      | None => if Ascii.eqb x c then Some ("", s) else None
      end
  end.
(** ... the first [c]. *)
Fixpoint split_first (c : ascii) (s : string) : option (string * string) :=
  match s with
  | EmptyString => None
  | String x s =>
      if Ascii.eqb x c then Some ("", s)
      else match split_first c s with Some (a, b) => Some (String x a, b) | None => None end
  end.
Definition has (c : ascii) (s : string) : bool := match split_first c s with Some _ => true | None => false end.

Definition SplitHostPort (hostport : string) : gores (string * string) :=
  let addrErr why := Err ("address " +:+ hostport +:+ ": " +:+ why) in
  match split_last ":" hostport with
  | None => addrErr "missing port in address"
  | Some (before, port) =>
      match before with
      | String "[" inner =>
          match split_first "]" inner with
          | None => (* a bracket behind the last colon, or none *)
              if has "]" port then addrErr "missing port in address" else addrErr "missing ']' in address"
          | Some (host, EmptyString) =>
              if has "[" inner || has "[" port then addrErr "unexpected '[' in address"
              else if has "]" port then addrErr "unexpected ']' in address"
              else Ok (host, port)
          | Some (_, String ":" _) => addrErr "too many colons in address"
          | Some _ => addrErr "missing port in address"
          end
      | _ =>
          if has ":" before then addrErr "too many colons in address"
          else if has "[" hostport then addrErr "unexpected '[' in address"
          else if has "]" hostport then addrErr "unexpected ']' in address"
          else Ok (before, port)
      end
  end.
Definition JoinHostPort (host port : string) : string :=
  if has ":" host then "[" +:+ host +:+ "]:" +:+ port else host +:+ ":" +:+ port.

(** ** Addresses and their text *)

Definition is_byte (b : Z) : Prop := 0 ≤ b < 256.

Lemma byte_cases (P : Z → Prop) : (∀ n : nat, (n < 256)%nat → P (Z.of_nat n)) → ∀ b, is_byte b → P b.
Proof. intros H b Hb. replace b with (Z.of_nat (Z.to_nat b)) by (unfold is_byte in Hb; lia). apply H. unfold is_byte in Hb. lia. Qed.

(** Reading a byte that [dec_byte] wrote. *)
Lemma parse_dec_byte b rest fields : is_byte b →
  parseIPv4_loop (dec_byte b +:+ rest) fields 0 0 =
  parseIPv4_loop rest fields b (String.length (dec_byte b)).
Proof.
  revert b. apply (byte_cases (λ b, parseIPv4_loop (dec_byte b +:+ rest) fields 0 0 =
    parseIPv4_loop rest fields b (String.length (dec_byte b)))).
  intros n Hn. do 256 (destruct n as [|n]; [reflexivity|]). lia.
Qed.

Lemma dec_byte_length b : is_byte b → (1 ≤ String.length (dec_byte b))%nat.
Proof. intros _. unfold dec_byte. destruct (b <? 100), (b <? 10); unfold String.append; simpl String.length; lia. Qed.
Lemma parse_dot s fields v d : (1 ≤ d)%nat → s ≠ "" → (length fields < 3)%nat →
  parseIPv4_loop (String "." s) fields v d = parseIPv4_loop s (fields ++ [v]) 0 0.
Proof.
  intros Hd Hs Hl. cbn -[Nat.eqb]. destruct d as [|d]; [lia|]. cbn [Nat.eqb].
  destruct (String.eqb_spec s ""); [done|]. cbn.
  destruct fields as [|? [|? [|? fields]]]; cbn in *; try lia; reflexivity.
Qed.
Lemma dec_byte_app_ne b s : dec_byte b +:+ s ≠ "".
Proof. unfold dec_byte. by destruct (b <? 100), (b <? 10). Qed.

Ltac side4 := solve [apply dec_byte_app_ne | by apply dec_byte_length | cbn; lia].
Lemma parseIPv4_text a b c d : is_byte a → is_byte b → is_byte c → is_byte d →
  parseIPv4 (join_texts "." (dec_byte <$> [a; b; c; d])) = Some [a; b; c; d].
Proof.
  intros Ha Hb Hc Hd. cbn [fmap list_fmap join_texts]. unfold parseIPv4. rewrite <-(string_app_nil_r (dec_byte d)).
  rewrite parse_dec_byte by done. change ("." +:+ ?s) with (String "." s).
  rewrite parse_dot; [|side4..]. cbn [app].
  rewrite parse_dec_byte by done. change ("." +:+ ?s) with (String "." s).
  rewrite parse_dot; [|side4..]. cbn [app].
  rewrite parse_dec_byte by done. change ("." +:+ ?s) with (String "." s).
  rewrite parse_dot; [|side4..]. cbn [app].
  by rewrite parse_dec_byte.
Qed.

Lemma scan_dec_byte b rest all : is_byte b → ParseAddr_scan (dec_byte b +:+ rest) all = ParseAddr_scan rest all.
Proof.
  revert b. apply (byte_cases (λ b, ParseAddr_scan (dec_byte b +:+ rest) all = ParseAddr_scan rest all)).
  intros n Hn. do 256 (destruct n as [|n]; [reflexivity|]). lia.
Qed.

(** An IPv4 address is read back from its text. *)
Lemma ParseIP_String a b c d : is_byte a → is_byte b → is_byte c → is_byte d →
  ParseIP (IP_String [a; b; c; d]) = Some (v4InV6Prefix ++ [a; b; c; d]).
Proof.
  intros Ha Hb Hc Hd. unfold IP_String. cbn [To4 length Nat.eqb]. unfold ParseIP, ParseAddr.
  cbn [fmap list_fmap join_texts]. rewrite scan_dec_byte by done. cbn [ParseAddr_scan String.append Ascii.eqb].
  pose proof (parseIPv4_text a b c d Ha Hb Hc Hd) as E. cbn [fmap list_fmap join_texts] in E.
  change ("." +:+ ?s) with (String "." s) in *. cbn [ParseAddr_scan]. rewrite Ascii.eqb_refl, E. done.
Qed.

(** A host without colons and brackets, and a port, are taken apart again. *)
Lemma split_last_app c a b : has c b = false → split_last c (a +:+ String c b) = Some (a, b).
Proof.
  intros Hb. assert (split_last c b = None) as Hn.
  { clear a. revert Hb. unfold has. induction b as [|x b IH]; [done|]. cbn.
    destruct (Ascii.eqb x c); [done|]. destruct (split_first c b) as [[??]|]; [done|]. intros _. by rewrite (IH eq_refl). }
  induction a as [|x a IH].
  - change (split_last c (String c b) = Some ("", b)). cbn [split_last]. by rewrite Hn, Ascii.eqb_refl.
  - change (split_last c (String x (a +:+ String c b)) = Some (String x a, b)). cbn [split_last]. by rewrite IH.
Qed.
Lemma has_cons c x s : has c (String x s) = Ascii.eqb x c || has c s.
Proof. unfold has. cbn. destruct (Ascii.eqb x c); [done|]. by destruct (split_first c s) as [[??]|]. Qed.
Lemma has_app c a b : has c (a +:+ b) = has c a || has c b.
Proof. induction a as [|x a IH]; [done|]. change (String x a +:+ b) with (String x (a +:+ b)). by rewrite !has_cons, IH, orb_assoc. Qed.

Definition plain (s : string) : Prop := has ":" s = false ∧ has "[" s = false ∧ has "]" s = false.
Lemma SplitHostPort_plain h p : plain h → plain p → SplitHostPort (h +:+ ":" +:+ p) = Ok (h, p).
Proof.
  intros (Hh1 & Hh2 & Hh3) (Hp1 & Hp2 & Hp3). unfold SplitHostPort.
  change (":" +:+ p) with (String ":" p). rewrite split_last_app by done.
  assert (∀ inner, h ≠ String "[" inner) as Hb by (intros inner ->; by rewrite has_cons in Hh2).
  assert (has "[" (h +:+ String ":" p) = false) as E1 by (by rewrite has_app, has_cons, Hh2, Hp2).
  assert (has "]" (h +:+ String ":" p) = false) as E2 by (by rewrite has_app, has_cons, Hh3, Hp3).
  rewrite E1, E2, Hh1. destruct h as [|x h]; [done|].
  destruct x as [[] [] [] [] [] [] [] []]; solve [done | by destruct (Hb h)].
Qed.

Lemma dec_byte_plain b : is_byte b → plain (dec_byte b).
Proof.
  revert b. apply (byte_cases (λ b, plain (dec_byte b))).
  intros n Hn. do 256 (destruct n as [|n]; [by vm_compute|]). lia.
Qed.
Lemma IP_String_plain a b c d : is_byte a → is_byte b → is_byte c → is_byte d → plain (IP_String [a; b; c; d]).
Proof.
  intros (?&?&?)%dec_byte_plain (?&?&?)%dec_byte_plain (?&?&?)%dec_byte_plain (?&?&?)%dec_byte_plain.
  unfold IP_String. cbn [To4 length Nat.eqb fmap list_fmap join_texts].
  split_and!; rewrite !has_app; by repeat match goal with H : has _ _ = false |- _ => rewrite H end.
Qed.

(** ** Networks, bit by bit *)

(** Bit [i] of an address, from the left. *)
Definition ip_bit (ip : IP) (i : nat) : bool :=
  Z.testbit (nth (i / 8) ip 0) (7 - Z.of_nat (i mod 8)).
Definition same_bits (k : Z) (a b : IP) : Prop :=
  ∀ i, (i < 8 * length a)%nat → Z.of_nat i < k → ip_bit a i = ip_bit b i.

Lemma mask_byte_bit k p : 0 ≤ p < 8 → Z.testbit (mask_byte k) p = (7 - p <? k).
Proof.
  intros Hp. unfold mask_byte. set (c := Z.max 0 (Z.min 8 k)).
  assert ((7 - p <? k) = (7 - p <? c)) as ->.
  { unfold c. destruct (Z.ltb_spec (7 - p) k), (Z.ltb_spec (7 - p) (Z.max 0 (Z.min 8 k))); lia. }
  assert (0 ≤ c ≤ 8) as Hc by lia. clearbody c.
  assert (c = 0 ∨ c = 1 ∨ c = 2 ∨ c = 3 ∨ c = 4 ∨ c = 5 ∨ c = 6 ∨ c = 7 ∨ c = 8) as Hcs by lia.
  assert (p = 0 ∨ p = 1 ∨ p = 2 ∨ p = 3 ∨ p = 4 ∨ p = 5 ∨ p = 6 ∨ p = 7) as Hps by lia.
  destruct_or! Hcs; destruct_or! Hps; subst; reflexivity.
Qed.
Lemma mask_byte_high k p : 8 ≤ p → Z.testbit (mask_byte k) p = false.
Proof.
  intros Hp. apply Z.bits_above_log2.
  - unfold mask_byte. assert (0 ≤ 8 - Z.max 0 (Z.min 8 k) ≤ 8) as H by lia.
    pose proof (Z.pow_le_mono_r 2 _ 8 ltac:(lia) (proj2 H)). lia.
  - apply (Z.lt_le_trans _ 8); [|done]. unfold mask_byte.
    assert (0 ≤ 8 - Z.max 0 (Z.min 8 k)) as H by lia. pose proof (Z.pow_pos_nonneg 2 _ ltac:(lia) H).
    assert (255 - (2 ^ (8 - Z.max 0 (Z.min 8 k)) - 1) < 2 ^ 8) as Hlt by lia.
    destruct (Z.lt_trichotomy 0 (255 - (2 ^ (8 - Z.max 0 (Z.min 8 k)) - 1))) as [Hpos|[<-|Hneg]];
      [by apply Z.log2_lt_pow2|done|].
    by rewrite Z.log2_nonpos by lia.
Qed.

(** One byte under its mask. *)
Lemma masked_byte k a b :
  Z.land (Z.land a (mask_byte k)) (mask_byte k) = Z.land b (mask_byte k) ↔
  ∀ j, (j < 8)%nat → Z.of_nat j < k → Z.testbit a (7 - Z.of_nat j) = Z.testbit b (7 - Z.of_nat j).
Proof.
  rewrite <-Z.land_assoc, Z.land_diag. split.
  - intros E j Hj Hk. apply (f_equal (λ z, Z.testbit z (7 - Z.of_nat j))) in E.
    rewrite !Z.land_spec, mask_byte_bit in E by lia.
    rewrite (proj2 (Z.ltb_lt (7 - (7 - Z.of_nat j)) k)), !andb_true_r in E by lia. done.
  - intros H. apply Z.bits_inj'. intros p Hp. rewrite !Z.land_spec.
    destruct (Z.lt_ge_cases p 8) as [Hp8|Hp8]; [|by rewrite mask_byte_high, !andb_false_r].
    rewrite mask_byte_bit by done. destruct (Z.ltb_spec (7 - p) k) as [Hk|Hk]; [|by rewrite !andb_false_r].
    specialize (H (Z.to_nat (7 - p)) ltac:(lia) ltac:(lia)).
    replace (7 - Z.of_nat (Z.to_nat (7 - p))) with p in H by lia. by rewrite H.
Qed.

Definition mask_of (k : Z) (n : nat) : list Z := (λ i, mask_byte (k - 8 * Z.of_nat i)) <$> seq 0 n.
Lemma mask_of_cons k n : mask_of k (S n) = mask_byte k :: mask_of (k - 8) n.
Proof.
  unfold mask_of. cbn. rewrite <-fmap_S_seq, <-list_fmap_compose. f_equal; [f_equal; lia|].
  apply list_fmap_ext. intros _ i _. cbn. f_equal. lia.
Qed.

Lemma same_bits_cons k x a y b : length a = length b →
  same_bits k (x :: a) (y :: b) ↔
  (∀ j, (j < 8)%nat → Z.of_nat j < k → Z.testbit x (7 - Z.of_nat j) = Z.testbit y (7 - Z.of_nat j)) ∧
  same_bits (k - 8) a b.
Proof.
  intros Hlen. unfold same_bits, ip_bit. split.
  - intros H. split.
    + intros j Hj Hk. specialize (H j). rewrite Nat.div_small, Nat.mod_small in H by done. apply H; cbn; lia.
    + intros i Hi Hk. specialize (H (i + 1 * 8)%nat).
      rewrite Nat.div_add, Nat.Div0.mod_add in H by done.
      replace (i / 8 + 1)%nat with (S (i / 8)) in H by lia. apply H; cbn; lia.
  - intros [H1 H2] i Hi Hk. destruct (Nat.lt_ge_cases i 8) as [Hi8|Hi8].
    + rewrite Nat.div_small, Nat.mod_small by done. by apply H1.
    + specialize (H2 (i - 8)%nat). replace i with (i - 8 + 1 * 8)%nat by lia.
      rewrite Nat.div_add, Nat.Div0.mod_add by done.
      replace ((i - 8) / 8 + 1)%nat with (S ((i - 8) / 8)) by lia. apply H2; cbn in Hi; lia.
Qed.

Lemma masked_equal_bits a : ∀ b k, length a = length b →
  masked_equal (zip_with Z.land a (mask_of k (length a))) (mask_of k (length a)) b = true ↔ same_bits k a b.
Proof.
  induction a as [|x a IH]; intros [|y b] k Hlen; cbn in Hlen; try done.
  cbn [length]. rewrite mask_of_cons. cbn [zip_with masked_equal]. injection Hlen as Hlen.
  rewrite andb_true_iff, Z.eqb_eq, masked_byte, (IH b (k - 8) Hlen), same_bits_cons by done. done.
Qed.

(** A network of an address of four bytes contains the addresses of four bytes
    that agree with it on the first [k] bits. *)
Lemma net_Contains_v4 a k ip b : length a = 4%nat → To4 ip = Some b → length b = 4%nat →
  net_Contains (MkIPNet (zip_with Z.land a (CIDRMask k 32)) (CIDRMask k 32)) ip = true ↔ same_bits k a b.
Proof.
  intros Ha Hip Hb. change (CIDRMask k 32) with (mask_of k 4).
  assert (length (mask_of k 4) = 4%nat) as Hm by done. revert Hm.
  intros Hm. assert (length (zip_with Z.land a (mask_of k 4)) = 4%nat) as Hz.
  { rewrite length_zip_with, Ha, Hm. done. }
  pose proof (masked_equal_bits a b k ltac:(congruence)) as Heq. rewrite Ha in Heq. rewrite <-Heq.
  revert Hm Hz. generalize (mask_of k 4). intros m Hm Hz.
  unfold net_Contains, networkNumberAndMask. cbn [net_IP net_Mask]. unfold To4 at 1. rewrite Hz. cbn [Nat.eqb].
  rewrite Hm. cbn [Nat.eqb]. rewrite Hz, Hip. cbn [Nat.eqb default id]. rewrite Hb, Hz. done.
Qed.
