(* ===== verification/IPList.v ===== *)
(** * pkg/util/iplist: the allow list of the admin server

    Two linked lists of networks, over one heap of nodes.  The loops over the
    nodes have the bound of LinkedList.v. *)
From Stdlib Require Import ZArith Lia.
From stdpp Require Import base gmap strings list fin_maps.
From S2P Require Import Prelude Pattern Linker LinkedList LinkedListLogic LinkedListOps NetIP.

Abbreviation HP := (ST (nodes IPNet)).

Record IPList : Type := MkIPList { v4s : LinkedList; v6s : LinkedList }.

Definition NewIPList : HP IPList := v4s ← New []; v6s ← New []; mret (MkIPList v4s v6s).

(** [bytes.Compare] *)
Fixpoint bytes_Compare (a b : list Z) : Z :=
  match a, b with
  | [], [] => 0
  | [], _ => -1
  | _, [] => 1
  | x :: a, y :: b => if x <? y then -1 else if y <? x then 1 else bytes_Compare a b
  end.
Definition compareIPs (a b : IP) : Z :=
  if negb (Nat.eqb (length a) (length b)) then Z.of_nat (length a) - Z.of_nat (length b)
  else bytes_Compare a b.

(** The loop stops at the last node, which is not compared. *)
Fixpoint insert_loop (fuel : nat) (l : LinkedList) (n : loc) (ipmask : IPNet) : HP LinkedList :=
  match fuel with
  | O => st_panic "out of fuel"
  | S fuel =>
      node ← deref n;
      if N.eqb (Next node) nil then Insert l ipmask
      else if compareIPs (net_IP ipmask) (net_IP (Value node)) <? 0
      then '(l, _) ← InsertBefore l n ipmask; mret l
      else insert_loop fuel l (Next node) ipmask
  end.
Definition insert (l : LinkedList) (ipmask : IPNet) : HP LinkedList :=
  if Len l =? 0 then Insert l ipmask
  else h ← st_get; insert_loop (enough h) l (Head l) ipmask.

Definition insertIPv4 (l : IPList) (ipmask : IPNet) : HP IPList :=
  v4s ← insert (v4s l) ipmask; mret (MkIPList v4s (v6s l)).
Definition insertIPv6 (l : IPList) (ipmask : IPNet) : HP IPList :=
  v6s ← insert (v6s l) ipmask; mret (MkIPList (v4s l) v6s).

Definition invalid_ip (s : string) : error := "invalid ip address: " +:+ s.

Definition AddCIDRString (l : IPList) (cidr : string) : HP (IPList * option error) :=
  match ParseCIDR cidr with
  | Err err => mret (l, Some err)
  | Ok (_, ipn) =>
      if bool_decide (is_Some (To4 (net_IP ipn))) then l ← insertIPv4 l ipn; mret (l, None)
      else if bool_decide (is_Some (To16 (net_IP ipn))) then l ← insertIPv6 l ipn; mret (l, None)
      else mret (l, Some (invalid_ip cidr))
  end.

Definition AddIPString (l : IPList) (ipstr : string) : HP (IPList * option error) :=
  match ParseIP ipstr with
  | None => mret (l, Some (invalid_ip ipstr))
  | Some ip =>
      if bool_decide (is_Some (To4 ip)) then
        l ← insertIPv4 l (MkIPNet ip (CIDRMask 32 32)); mret (l, None)
      else if bool_decide (is_Some (To16 ip)) then
        l ← insertIPv6 l (MkIPNet ip (CIDRMask 128 128)); mret (l, None)
      else mret (l, Some (invalid_ip ipstr))
  end.

Definition IPList_Len (l : IPList) : Z := Len (v4s l) + Len (v6s l).

(** [containsIPv4] and [containsIPv6] *)
Fixpoint contains_loop (fuel : nat) (n : loc) (ip : IP) : HP bool :=
  match fuel with
  | O => st_panic "out of fuel"
  | S fuel =>
      if N.eqb n nil then mret false else
      node ← deref n;
      if net_Contains (Value node) ip then mret true else contains_loop fuel (Next node) ip
  end.
Definition containsIPv4 (l : IPList) (ip : IP) : HP bool :=
  h ← st_get; contains_loop (enough h) (Head (v4s l)) ip.
Definition containsIPv6 (l : IPList) (ip : IP) : HP bool :=
  h ← st_get; contains_loop (enough h) (Head (v6s l)) ip.

Definition Contains (l : IPList) (ipstr : string) : HP (gores bool) :=
  if IPList_Len l =? 0 then mret (Ok false) else
  match ParseIP ipstr with
  | None => mret (Err (invalid_ip ipstr))
  | Some ip =>
      if bool_decide (is_Some (To4 ip)) then b ← containsIPv4 l ip; mret (Ok b)
      else if bool_decide (is_Some (To16 ip)) then b ← containsIPv6 l ip; mret (Ok b)
      else mret (Ok false)
  end.

(** ** The loops *)

Section proofs.
Implicit Types (h : nodes IPNet) (xs ys : list (loc * IPNet)).

Lemma contains_loop_ok ip xs : ∀ fuel h, seg h xs nil → (length xs < fuel)%nat →
  contains_loop fuel (hd_loc nil xs) ip h = Returns (existsb (λ n, net_Contains n ip) xs.*2, h).
Proof.
  induction xs as [|[p n] xs IH]; intros [|fuel] h Hs Hf; cbn in Hf; try lia; [done|].
  cbn [contains_loop hd_loc]. destruct Hs as (Hp & E & Hs). rewrite (proj2 (N.eqb_neq p nil)) by done.
  st. unfold deref. rewrite E. cbn. destruct (net_Contains n ip); [done|]. apply IH; [done|lia].
Qed.

Lemma insert_loop_ok ipn xs : ∀ A fuel h l, xs ≠ [] → rep h l (A ++ xs) → (length xs < fuel)%nat →
  ∃ p h' l' ys, insert_loop fuel l (hd_loc nil xs) ipn h = Returns (l', h') ∧ rep h' l' ys ∧
    ys.*2 ≡ₚ ipn :: (A ++ xs).*2 ∧ h !! p = None ∧ (∀ q, q ∈ ys.*1 ↔ q = p ∨ q ∈ (A ++ xs).*1) ∧
    keeps (A ++ xs).*1 h h'.
Proof.
  induction xs as [|[p n] xs IH]; intros A [|fuel] h l Hne Hr Hf; cbn in Hf; try lia; [done|].
  cbn [insert_loop hd_loc]. pose proof (r_seg _ _ _ Hr) as Hs. apply seg_app in Hs as [_ (Hp & E & Hs)].
  unfold deref at 1. st. rewrite E. cbn [Next Value]. destruct xs as [|[q m] xs].
  - cbn [hd_loc]. cbn. destruct (Insert_snoc h l (A ++ [(p, n)]) ipn Hr) as (p' & h' & l' & E' & Hr' & _ & Hf' & Hk).
    eexists p', h', l', _. split; [exact E'|]. split; [exact Hr'|].
    rewrite !fmap_app. cbn. split; [rewrite <-Permutation_cons_append; done|]. split; [done|].
    split; [|by rewrite fmap_app in Hk]. intros q. set_solver.
  - assert (Hq : q ≠ nil) by (by destruct Hs). cbn [hd_loc]. rewrite (proj2 (N.eqb_neq q nil)) by done.
    destruct (compareIPs (net_IP ipn) (net_IP n) <? 0).
    + st. destruct (InsertBefore_ok h l A p n ((q, m) :: xs) ipn Hr) as (p' & h' & l' & E' & Hr' & _ & Hf' & Hk).
      rewrite E'. eexists p', h', l', _. split; [done|]. split; [exact Hr'|].
      rewrite !fmap_app. cbn. split; [by rewrite <-Permutation_middle|]. split; [done|].
      split; [|by rewrite fmap_app in Hk]. intros q'. set_solver.
    + destruct (IH (A ++ [(p, n)]) fuel h l) as (p' & h' & l' & ys & E' & Hr' & Hperm & Hrest);
        [done|by rewrite <-app_assoc|cbn in Hf |- *; lia|].
      exists p', h', l', ys. rewrite <-app_assoc in Hperm, Hrest. done.
Qed.

Lemma insert_ok ipn xs h l : rep h l xs →
  ∃ p h' l' ys, insert l ipn h = Returns (l', h') ∧ rep h' l' ys ∧
    ys.*2 ≡ₚ ipn :: xs.*2 ∧ h !! p = None ∧ (∀ q, q ∈ ys.*1 ↔ q = p ∨ q ∈ xs.*1) ∧ keeps xs.*1 h h'.
Proof.
  intros Hr. unfold insert, Len. pose proof Hr as [Hh Hs Hd Ht Hn]. rewrite Hn. destruct xs as [|x xs].
  - cbn. destruct (Insert_snoc h l [] ipn Hr) as (p & h' & l' & E' & Hr' & _ & Hf & Hk).
    eexists p, h', l', _. split; [exact E'|]. split; [exact Hr'|]. split; [done|]. split; [done|].
    split; [|exact Hk]. intros q. set_solver.
  - rewrite (proj2 (Z.eqb_neq _ _)) by (cbn; lia). st. rewrite Hh.
    apply (insert_loop_ok ipn (x :: xs) []); [done|exact Hr|].
    exact (seg_fuel _ _ _ Hs Hd).
Qed.

(** ** What the list contains *)

(** Both lists hold the networks that were added, in some order, and share no
    node. *)
Definition holds_networks h (l : IPList) (ns : list IPNet) : Prop :=
  ∃ xs4 xs6, rep h (v4s l) xs4 ∧ rep h (v6s l) xs6 ∧ xs4.*1 ## xs6.*1 ∧ ns ≡ₚ xs4.*2 ++ xs6.*2 ∧
    Forall (λ n, is_Some (To4 (net_IP n))) xs4.*2 ∧ Forall (λ n, To4 (net_IP n) = None) xs6.*2.

Lemma NewIPList_holds h : ∃ l, NewIPList h = Returns (l, h) ∧ holds_networks h l [].
Proof.
  eexists. split; [reflexivity|]. exists [], []. cbn. split; [apply rep_empty|]. split; [apply rep_empty|].
  split; [set_solver|]. by repeat constructor.
Qed.

Lemma insertIPv4_holds h l ns n : holds_networks h l ns → is_Some (To4 (net_IP n)) →
  ∃ l' h', insertIPv4 l n h = Returns (l', h') ∧ holds_networks h' l' (n :: ns).
Proof.
  intros (xs4 & xs6 & H4 & H6 & Hdis & Hns & Hf4 & Hf6) Hn. unfold insertIPv4. st.
  destruct (insert_ok n xs4 h (v4s l) H4) as (p & h' & l' & ys & E & Hr & Hperm & Hf & Hin & Hk). rewrite E. st.
  assert (Hp6 : p ∉ xs6.*1) by (eapply fresh_notin; [apply H6|done]).
  eexists _, h'. split; [done|]. exists ys, xs6. cbn. split; [done|].
  split; [eapply rep_keeps; [exact Hk| |done]; set_solver|].
  split; [intros q Hq Hq6; apply Hin in Hq as [->|Hq]; [done|by apply (Hdis q)]|].
  split; [by rewrite Hperm, Hns|]. split; [by rewrite Hperm; constructor|done].
Qed.
Lemma insertIPv6_holds h l ns n : holds_networks h l ns → To4 (net_IP n) = None →
  ∃ l' h', insertIPv6 l n h = Returns (l', h') ∧ holds_networks h' l' (n :: ns).
Proof.
  intros (xs4 & xs6 & H4 & H6 & Hdis & Hns & Hf4 & Hf6) Hn. unfold insertIPv6. st.
  destruct (insert_ok n xs6 h (v6s l) H6) as (p & h' & l' & ys & E & Hr & Hperm & Hf & Hin & Hk). rewrite E. st.
  assert (Hp4 : p ∉ xs4.*1) by (eapply fresh_notin; [apply H4|done]).
  eexists _, h'. split; [done|]. exists xs4, ys. cbn.
  split; [eapply rep_keeps; [exact Hk| |done]; set_solver|]. split; [done|].
  split; [intros q Hq4 Hq; apply Hin in Hq as [->|Hq]; [done|by apply (Hdis q)]|].
  split; [by rewrite Hperm, Hns, Permutation_middle|]. split; [done|by rewrite Hperm; constructor].
Qed.

(** An entry of an allow list, and its network; [None] where it is refused. *)
Inductive entry : Type := Cidr (s : string) | Address (s : string).
Definition network (e : entry) : option IPNet :=
  match e with
  | Cidr s => match ParseCIDR s with
              | Ok (_, n) => if bool_decide (is_Some (To16 (net_IP n))) then Some n else None
              | Err _ => None
              end
  | Address s => match ParseIP s with
                 | Some ip => Some (MkIPNet ip (if bool_decide (is_Some (To4 ip))
                                                then CIDRMask 32 32 else CIDRMask 128 128))
                 | None => None
                 end
  end.
Definition add_entry (l : IPList) (e : entry) : HP (IPList * option error) :=
  match e with Cidr s => AddCIDRString l s | Address s => AddIPString l s end.

Lemma To16_of_To4 ip : is_Some (To4 ip) → is_Some (To16 ip).
Proof.
  unfold To4, To16. destruct (Nat.eqb (length ip) 4); [done|]. destruct (Nat.eqb (length ip) 16); [done|].
  by intros [? ?].
Qed.
Lemma To16_length ip ip' : To16 ip = Some ip' → length ip' = 16%nat ∧ is_Some (To16 ip').
Proof.
  unfold To16. destruct (Nat.eqb_spec (length ip) 4) as [H|_].
  - intros [= <-]. cbn. rewrite H. by split.
  - destruct (Nat.eqb_spec (length ip) 16) as [H|_]; [|done]. intros [= <-]. by rewrite H.
Qed.
Lemma ParseIP_To16 s ip : ParseIP s = Some ip → is_Some (To16 ip).
Proof. unfold ParseIP. intros (ip0 & _ & H)%bind_Some. by apply To16_length in H as [_ H]. Qed.

Lemma add_entry_holds h l ns e n : holds_networks h l ns → network e = Some n →
  ∃ l' h', add_entry l e h = Returns ((l', None), h') ∧ holds_networks h' l' (n :: ns).
Proof.
  intros Hl Hn.
  assert (∀ n, is_Some (To16 (net_IP n)) → ∃ l' h',
    (if bool_decide (is_Some (To4 (net_IP n))) then l ← insertIPv4 l n; mret (l, None)
     else if bool_decide (is_Some (To16 (net_IP n))) then l ← insertIPv6 l n; mret (l, None)
     else mret (l, Some "" )) h = Returns ((l', None : option error), h') ∧ holds_networks h' l' (n :: ns)) as Hadd.
  { intros m Hm. destruct (decide (is_Some (To4 (net_IP m)))) as [H4|H4].
    - rewrite bool_decide_eq_true_2 by done. destruct (insertIPv4_holds h l ns m Hl H4) as (l' & h' & E & Hl').
      st. rewrite E. st. eauto.
    - rewrite bool_decide_eq_false_2, bool_decide_eq_true_2 by done. apply eq_None_not_Some in H4.
      destruct (insertIPv6_holds h l ns m Hl H4) as (l' & h' & E & Hl'). st. rewrite E. st. eauto. }
  destruct e as [s|s]; cbn [network add_entry] in *.
  - unfold AddCIDRString. destruct (ParseCIDR s) as [[ip m]|]; [|done].
    destruct (decide (is_Some (To16 (net_IP m)))) as [H|H]; [|by rewrite bool_decide_eq_false_2 in Hn].
    rewrite bool_decide_eq_true_2 in Hn by done. injection Hn as <-.
    destruct (Hadd m H) as (l' & h' & E & Hl'). exists l', h'. split; [|done]. rewrite <-E.
    rewrite (bool_decide_eq_true_2 (is_Some (To16 _))) by done. by destruct (bool_decide _).
  - unfold AddIPString. destruct (ParseIP s) as [ip|] eqn:Hip; [|done]. injection Hn as <-.
    pose proof (ParseIP_To16 s ip Hip) as H.
    destruct (Hadd (MkIPNet ip (if bool_decide (is_Some (To4 ip)) then CIDRMask 32 32 else CIDRMask 128 128)) H)
      as (l' & h' & E & Hl'). exists l', h'. split; [|done]. rewrite <-E. cbn [net_IP].
    rewrite (bool_decide_eq_true_2 (is_Some (To16 _))) by done. by destruct (bool_decide _).
Qed.

Lemma To4_length ip x : To4 ip = Some x → length x = 4%nat.
Proof.
  unfold To4. destruct (Nat.eqb_spec (length ip) 4) as [H|_]; [by intros [= <-]|].
  destruct (Nat.eqb_spec (length ip) 16) as [H|_]; [|done]. cbn.
  destruct (bool_decide _); [|done]. intros [= <-]. by rewrite length_drop, H.
Qed.

(** The number of a network has the family of its address, or is empty. *)
Lemma network_number n nn m : networkNumberAndMask n = (nn, m) →
  nn = [] ∨ (is_Some (To4 (net_IP n)) ∧ length nn = 4%nat) ∨ (To4 (net_IP n) = None ∧ length nn = 16%nat).
Proof.
  unfold networkNumberAndMask. destruct (To4 (net_IP n)) as [x|] eqn:Hx.
  - apply To4_length in Hx. destruct (Nat.eqb (length (net_Mask n)) 4), (Nat.eqb (length (net_Mask n)) 16);
      rewrite ?Hx; cbn; intros [= <- <-]; eauto.
  - destruct (Nat.eqb_spec (length (net_IP n)) 16) as [Hl|_]; [|by intros [= <- <-]; left].
    destruct (Nat.eqb (length (net_Mask n)) 4), (Nat.eqb (length (net_Mask n)) 16);
      rewrite ?Hl; cbn; intros [= <- <-]; eauto.
Qed.

(** A network contains addresses of its own family only. *)
Lemma net_family n ip : is_Some (To16 ip) → net_Contains n ip = true →
  is_Some (To4 ip) ↔ is_Some (To4 (net_IP n)).
Proof.
  intros [ip16 H16]. unfold net_Contains. destruct (networkNumberAndMask n) as [nn m] eqn:Hnn.
  intros [Hl _]%andb_true_iff. apply Nat.eqb_eq in Hl. apply network_number in Hnn.
  destruct (To4 ip) as [y|] eqn:Hip; cbn [default id] in Hl.
  - apply To4_length in Hip. destruct Hnn as [->|[[? _]|[_ H]]]; [by rewrite Hip in Hl|by split|congruence].
  - assert (length ip = 16%nat) as Hip16.
    { unfold To4, To16 in *. destruct (Nat.eqb_spec (length ip) 4); [done|].
      by destruct (Nat.eqb_spec (length ip) 16). }
    destruct Hnn as [->|[[_ H]|[-> _]]]; [by rewrite Hip16 in Hl|congruence|done].
Qed.

Lemma existsb_in (f : IPNet → bool) ns : existsb f ns = true ↔ ∃ n, n ∈ ns ∧ f n = true.
Proof. rewrite existsb_exists. by setoid_rewrite list_elem_of_In. Qed.

Lemma IPList_Len_holds h l ns : holds_networks h l ns → IPList_Len l = Z.of_nat (length ns).
Proof.
  intros (xs4 & xs6 & H4 & H6 & _ & Hns & _). unfold IPList_Len, Len.
  rewrite (r_len _ _ _ H4), (r_len _ _ _ H6), Hns, length_app, !length_fmap. lia.
Qed.

Lemma IPList_Contains_ok h l ns s : holds_networks h l ns →
  (ns = [] → Contains l s h = Returns (Ok false, h)) ∧
  (ns ≠ [] → ParseIP s = None → Contains l s h = Returns (Err (invalid_ip s), h)) ∧
  (∀ ip, ns ≠ [] → ParseIP s = Some ip → ∃ b, Contains l s h = Returns (Ok b, h) ∧
     (b = true ↔ ∃ n, n ∈ ns ∧ net_Contains n ip = true)).
Proof.
  intros Hl. pose proof (IPList_Len_holds h l ns Hl) as Hlen.
  destruct Hl as (xs4 & xs6 & H4 & H6 & Hdis & Hns & Hf4 & Hf6).
  unfold Contains. rewrite Hlen. split; [by intros ->|].
  assert (∀ T (a b : T), ns ≠ [] → (if Z.of_nat (length ns) =? 0 then a else b) = b) as Hif.
  { intros T a b Hne. destruct (Z.eqb_spec (Z.of_nat (length ns)) 0); [|done]. by destruct ns. }
  split; [intros Hne Hip; by rewrite Hif, Hip|]. intros ip Hne Hip. rewrite Hif, Hip by done.
  pose proof (ParseIP_To16 s ip Hip) as H16. rewrite list.Forall_forall in Hf4, Hf6.
  assert (∀ n, n ∈ ns ↔ n ∈ xs4.*2 ∨ n ∈ xs6.*2) as Hin by (intros n; by rewrite Hns, elem_of_app).
  destruct (decide (is_Some (To4 ip))) as [Hfam|Hfam].
  - rewrite bool_decide_eq_true_2 by done. exists (existsb (λ n, net_Contains n ip) xs4.*2). split.
    + unfold containsIPv4. st. rewrite (r_head _ _ _ H4), contains_loop_ok; [by st|apply H4|].
      exact (seg_fuel _ _ _ (r_seg _ _ _ H4) (r_nodup _ _ _ H4)).
    + rewrite existsb_in. split; intros (n & Hn & Hc); exists n; (split; [|done]); [apply Hin; by left|].
      apply Hin in Hn as [Hn|Hn]; [done|]. apply (net_family n ip H16 Hc) in Hfam.
      rewrite (Hf6 n Hn) in Hfam. by destruct Hfam.
  - rewrite bool_decide_eq_false_2, bool_decide_eq_true_2 by done.
    exists (existsb (λ n, net_Contains n ip) xs6.*2). split.
    + unfold containsIPv6. st. rewrite (r_head _ _ _ H6), contains_loop_ok; [by st|apply H6|].
      exact (seg_fuel _ _ _ (r_seg _ _ _ H6) (r_nodup _ _ _ H6)).
    + rewrite existsb_in. split; intros (n & Hn & Hc); exists n; (split; [|done]); [apply Hin; by right|].
      apply Hin in Hn as [Hn|Hn]; [|done]. destruct Hfam. by apply (net_family n ip H16 Hc), Hf4.
Qed.
End proofs.

Lemma add_entry_refuses h l e : network e = None → ∃ err, add_entry l e h = Returns ((l, Some err), h).
Proof.
  destruct e as [s|s]; cbn [network add_entry].
  - unfold AddCIDRString. destruct (ParseCIDR s) as [[ip m]|err]; [|by exists err].
    destruct (decide (is_Some (To16 (net_IP m)))) as [H|H]; [by rewrite bool_decide_eq_true_2|].
    intros _. rewrite (bool_decide_eq_false_2 (is_Some (To4 (net_IP m)))) by (by intros ?%To16_of_To4).
    rewrite bool_decide_eq_false_2 by done. by eexists.
  - unfold AddIPString. destruct (ParseIP s); [done|]. by eexists.
Qed.

(** ** Prefixes *)

Lemma network_v4 s addr mask a k : cut_slash s = Some (addr, mask) → ParseAddr addr = Some a →
  length a = 4%nat → dtoi mask = Some k → k ≤ 32 →
  network (Cidr s) = Some (MkIPNet (zip_with Z.land a (CIDRMask k 32)) (CIDRMask k 32)).
Proof.
  intros Hs Ha Hlen Hk Hk32. cbn [network]. unfold ParseCIDR. rewrite Hs, Ha, Hk, Hlen. cbn [Z.of_nat].
  change (8 * Z.of_nat 4) with 32. rewrite (proj2 (Z.ltb_ge 32 k)) by done.
  assert (Mask (default [] (To16 a)) (CIDRMask k 32) = zip_with Z.land a (CIDRMask k 32)) as ->.
  { change (CIDRMask k 32) with (mask_of k 4). assert (length (mask_of k 4) = 4%nat) as Hm by done.
    revert Hm. generalize (mask_of k 4). intros m Hm.
    destruct a as [|a1 [|a2 [|a3 [|a4 [|]]]]], m as [|m1 [|m2 [|m3 [|m4 [|]]]]]; try discriminate. reflexivity. }
  cbn [net_IP]. rewrite bool_decide_eq_true_2; [done|]. unfold To16. rewrite length_zip_with, Hlen. by eexists.
Qed.

(** C36: adding the network [a/k], of an IPv4 address, to a list: the list then
    contains the IPv4 addresses whose first [k] bits are those of [a], and
    those that it contained. *)
Theorem AddCIDRString_prefix h l ns s addr mask a k : holds_networks h l ns →
  cut_slash s = Some (addr, mask) → ParseAddr addr = Some a → length a = 4%nat → dtoi mask = Some k → k ≤ 32 →
  ∃ l' h', AddCIDRString l s h = Returns ((l', None), h') ∧ IPList_Len l' = IPList_Len l + 1 ∧
  ∀ t ip b, ParseIP t = Some ip → To4 ip = Some b →
  ∃ r before, Contains l' t h' = Returns (Ok r, h') ∧ Contains l t h = Returns (Ok before, h) ∧
    (r = true ↔ same_bits k a b ∨ before = true).
Proof.
  intros Hl Hs Ha Hlen Hk Hk32. pose proof (network_v4 s addr mask a k Hs Ha Hlen Hk Hk32) as Hn.
  destruct (add_entry_holds h l ns (Cidr s) _ Hl Hn) as (l' & h' & E' & Hl').
  exists l', h'. split; [exact E'|]. split.
  { rewrite (IPList_Len_holds _ _ _ Hl), (IPList_Len_holds _ _ _ Hl'). cbn [length]. lia. }
  intros t ip b Ht Hb.
  destruct (IPList_Contains_ok h' l' _ t Hl') as (_ & _ & H). destruct (H ip ltac:(done) Ht) as (r & E1 & Hr).
  assert (∃ before, Contains l t h = Returns (Ok before, h) ∧
    (before = true ↔ ∃ n, n ∈ ns ∧ net_Contains n ip = true)) as (before & E2 & Hbefore).
  { destruct (IPList_Contains_ok h l ns t Hl) as (Hnil & _ & Hcons). destruct ns as [|n ns]; [|by apply Hcons].
    exists false. split; [by apply Hnil|]. split; [done|]. by intros (n & Hin%elem_of_nil & _). }
  exists r, before. split; [done|]. split; [done|]. rewrite Hr, Hbefore.
  rewrite <-(net_Contains_v4 a k ip b Hlen Hb (To4_length _ _ Hb)).
  setoid_rewrite elem_of_cons. naive_solver.
Qed.

Lemma AddCIDRString_prefix_witness : ∃ l h, AddCIDRString (MkIPList empty_list empty_list) "10.1.0.0/16" ∅ = Returns ((l, None), h) ∧
  Contains l "10.1.2.3" h = Returns (Ok true, h) ∧ Contains l "10.2.0.1" h = Returns (Ok false, h).
Proof.
  assert (holds_networks ∅ (MkIPList empty_list empty_list) []) as Hl.
  { destruct (NewIPList_holds ∅) as (l & E & H). injection E as <-. exact H. }
  destruct (AddCIDRString_prefix ∅ (MkIPList empty_list empty_list) [] "10.1.0.0/16" "10.1.0.0" "16"
    [10; 1; 0; 0] 16 Hl) as (l & h & E & _ & H);
    [reflexivity|vm_compute; reflexivity|reflexivity|vm_compute; reflexivity|lia|].
  exists l, h. split; [exact E|]. split.
  - destruct (H "10.1.2.3" (v4InV6Prefix ++ [10; 1; 2; 3]) [10; 1; 2; 3]) as (r & b & Hr & _ & Hb);
      [vm_compute; reflexivity|vm_compute; reflexivity|]. rewrite Hr. rewrite (proj2 Hb); [reflexivity|].
    left. intros i Hi Hk. cbn in Hi. do 16 (destruct i as [|i]; [reflexivity|]). lia.
  - destruct (H "10.2.0.1" (v4InV6Prefix ++ [10; 2; 0; 1]) [10; 2; 0; 1]) as (r & b & Hr & Hb0 & Hb);
      [vm_compute; reflexivity|vm_compute; reflexivity|]. rewrite Hr. destruct r; [|reflexivity].
    destruct (proj1 Hb eq_refl) as [Hbits|Hbits].
    + specialize (Hbits 14%nat ltac:(cbn; lia) ltac:(lia)). vm_compute in Hbits. discriminate Hbits.
    + subst b. vm_compute in Hb0. discriminate Hb0.
Defined.
