(* ===== verification/Transports.v ===== *)
(** * internal/proxy/proxy_transport.go: the transports of the services

    What a transport does is the standard library's: a [net.Dialer] makes a
    connection, [http.Transport] sends a request over one.  As far as the code
    relies on them they are written out over a list of events, which grows by
    what happens on the network; what the network answers is a parameter.
    Connections that are used again, the proxy of the environment, contexts
    and timeouts are left out. *)
From Stdlib Require Import ZArith Lia.
From stdpp Require Import base gmap strings list.
From S2P Require Import Prelude NetIP Spec ProxyTransport.

(** ** The configuration *)

Record DGateHttpTransportConfig : Type := MkTransportConfig {
  DNSServer : string; DNSTimeout : Duration; DNSPreferGo : bool;
  MaxIdleConns : Z; MaxIdleConnsPerHost : Z; MaxConnsPerHost : Z; IdleConnTimeout : Duration;
  ForceAttemptHttp2 : bool; DisableCompression : bool;
  TLSHandshakeTimeout : Duration; ExpectContinueTimeout : Duration;
  MaxResponseHeaderBytes : Z; WriteBufferSize : Z; ReadBufferSize : Z; MaxBodyBytes : Z;
  DisableKeepAlives : bool; KeepAlive : Duration; ResponseHeaderTimeout : Duration;
  DialTimeout : Duration; DisablePrivateIPs : bool }.

Definition host_of (address : string) : string :=
  match SplitHostPort address with Ok (ip, _) => ip | Err _ => address end.

(** The address of a connection, or of a name server. *)
Definition validateAddress (c : DGateHttpTransportConfig) (address : string) : option error :=
  if DisablePrivateIPs c then
    let ip := host_of address in
    match ParseIP ip with
    | None => Some ("could not parse IP: " +:+ ip)
    | Some ipAddr =>
        if IsLoopback ipAddr || IsPrivate ipAddr
        then Some ("private IP address not allowed: " +:+ IP_String ipAddr) else None
    end
  else None.

(** ** Dialers and transports

    A function that the code sets as a field is named by an inductive type,
    because the dialer's resolver dials by the dialer itself.  [Checked c] is
    one of the two closures of [setupTranportsFromConfig] over [c]. *)
Inductive dial_hook : Type :=
  | NetDial
  | Checked (c : DGateHttpTransportConfig).

Record Resolver : Type := MkResolver { PreferGo : bool; Dial : dial_hook }.
Record Dialer : Type := MkDialer { d_Timeout : Duration; d_KeepAlive : Duration; d_Resolver : option Resolver }.

Record TLSConfig : Type := MkTLSConfig { InsecureSkipVerify : bool }.

(** [http.Transport]. *)
Record HttpTransport : Type := MkHttpTransport {
  t_MaxIdleConns : Z; t_IdleConnTimeout : Duration; t_TLSHandshakeTimeout : Duration;
  t_ExpectContinueTimeout : Duration; t_MaxIdleConnsPerHost : Z; t_MaxConnsPerHost : Z;
  t_MaxResponseHeaderBytes : Z; t_WriteBufferSize : Z; t_ReadBufferSize : Z;
  t_DisableKeepAlives : bool; t_DisableCompression : bool; t_ForceAttemptHTTP2 : bool;
  t_ResponseHeaderTimeout : Duration;
  t_DialContext : dial_hook; t_DialTLSContext : option dial_hook; t_TLSClientConfig : option TLSConfig }.

(** The transport that serves h1 and h2, with the dialer its hook closes
    over; the one for h2c has no state. *)
Record dynamicRoundTripper : Type := MkDynamic { hx : HttpTransport; dailer : Dialer }.

Definition newRoundTripper (t : HttpTransport) (d : Dialer) : dynamicRoundTripper := MkDynamic t d.

(** All the fields that the code sets are set on the clone of the default
    transport, so nothing of that is left but the absence of TLS options. *)
Definition setupTranportsFromConfig (c : DGateHttpTransportConfig)
    (modifyTransport : Dialer * HttpTransport → Dialer * HttpTransport) : dynamicRoundTripper :=
  let dailer := MkDialer (DialTimeout c) (if DisableKeepAlives c then -1 else KeepAlive c)
                  (Some (MkResolver (DNSPreferGo c) (Checked c))) in
  let t1 := MkHttpTransport (MaxIdleConns c) (IdleConnTimeout c) (TLSHandshakeTimeout c)
              (ExpectContinueTimeout c) (MaxIdleConnsPerHost c) (MaxConnsPerHost c)
              (MaxResponseHeaderBytes c) (WriteBufferSize c) (ReadBufferSize c)
              (DisableKeepAlives c) (DisableCompression c) (ForceAttemptHttp2 c)
              (ResponseHeaderTimeout c) (Checked c) (Some (Checked c)) None in
  let '(dailer, t1) := modifyTransport (dailer, t1) in
  newRoundTripper t1 dailer.

(** What [NewRequestContextProvider] changes for a service. *)
Definition service_modify `{Externals} (svc : DGateService.t) (dt : Dialer * HttpTransport) : Dialer * HttpTransport :=
  let '(d, t) := dt in
  (MkDialer (DGateService.ConnectTimeout svc) (d_KeepAlive d) (d_Resolver d),
   MkHttpTransport (t_MaxIdleConns t) (t_IdleConnTimeout t) (t_TLSHandshakeTimeout t)
     (t_ExpectContinueTimeout t) (t_MaxIdleConnsPerHost t) (t_MaxConnsPerHost t)
     (t_MaxResponseHeaderBytes t) (t_WriteBufferSize t) (t_ReadBufferSize t)
     (t_DisableKeepAlives t) (t_DisableCompression t) (DGateService.HTTP2Only svc)
     (t_ResponseHeaderTimeout t) (t_DialContext t) (t_DialTLSContext t)
     (Some (MkTLSConfig (DGateService.TLSSkipVerify svc)))).

(** ** The network *)

(** A request, but for the scheme of its URL: that is part of the state,
    because every copy of a request shares the URL. *)
Record request : Type := MkRequest { ProtoMajor : Z; ProtoMinor : Z; Hostname : string; Port : string }.

(** A connection: its remote address and the configuration of its TLS. *)
Record conn : Type := MkConn { RemoteAddr : string; tls : option TLSConfig }.

Inductive event : Type :=
  | Dialed (by_dialer : option Dialer) (network address : string) (remote : gores string)
  | Handshake (remote : string) (cfg : option TLSConfig)
  | Sent (c : conn) (req : request)
  | Closed (c : conn).

Record world : Type := MkWorld { Scheme : string; events : list event }.
Abbreviation W := (ST world).
Definition log (e : event) : W unit := λ w, Returns (tt, MkWorld (Scheme w) (events w ++ [e])).

Section network.
(** What a dial reaches: the remote address, after the events so far; what a
    handshake and a request answer. *)
Context {Resp : Type} (reach : list event → option Dialer → string → string → gores string).
Context (shake : list event → string → option TLSConfig → option error).
Context (answer : list event → conn → request → gores Resp).

(** [Dialer.DialContext], and [net.Dial] without a dialer. *)
Definition dial (d : option Dialer) (network address : string) : W (gores conn) :=
  w ← st_get;
  let r := reach (events w) d network address in
  _ ← log (Dialed d network address r);
  mret (match r with Ok remote => Ok (MkConn remote None) | Err e => Err e end).

(** The closure of the resolver. *)
Definition resolver_Dial (c : DGateHttpTransportConfig) (d : Dialer) (network address : string) : W (gores conn) :=
  match validateAddress c address with
  | Some err => mret (Err err)
  | None =>
      let address := if String.eqb (DNSServer c) "" then address else DNSServer c in
      dial (Some d) network address
  end.

(** The closure [t1.DialContext]. *)
Definition t1_DialContext (c : DGateHttpTransportConfig) (d : Dialer) (network address : string) : W (gores conn) :=
  r ← dial (Some d) network address;
  match r with
  | Err err => mret (Err err)
  | Ok conn =>
      match validateAddress c (RemoteAddr conn) with
      | Some err => mret (Err err)
      | None => mret (Ok conn)
      end
  end.

Definition run_hook (h : dial_hook) (d : Dialer) (network address : string) : W (gores conn) :=
  match h with NetDial => dial None network address | Checked c => t1_DialContext c d network address end.

(** [canonicalAddr] *)
Definition canonicalAddr (scheme : string) (req : request) : string :=
  JoinHostPort (Hostname req)
    (if String.eqb (Port req) "" then if String.eqb scheme "https" then "443" else "80" else Port req).

Definition send (c : conn) (req : request) : W (gores Resp) :=
  w ← st_get;
  _ ← log (Sent c req);
  mret (answer (events w) c req).

(** [http.Transport.RoundTrip]: a connection that [DialTLSContext] returns is
    taken to be past its handshake, and the TLS options do not apply to it. *)
Definition hx_RoundTrip (t : HttpTransport) (d : Dialer) (req : request) : W (gores Resp) :=
  w ← st_get;
  let address := canonicalAddr (Scheme w) req in
  if String.eqb (Scheme w) "http" then
    r ← run_hook (t_DialContext t) d "tcp" address;
    match r with Ok c => send c req | Err e => mret (Err e) end
  else if String.eqb (Scheme w) "https" then
    match t_DialTLSContext t with
    | Some h =>
        r ← run_hook h d "tcp" address;
        match r with Ok c => send c req | Err e => mret (Err e) end
    | None =>
        r ← run_hook (t_DialContext t) d "tcp" address;
        match r with
        | Err e => mret (Err e)
        | Ok c =>
            w ← st_get;
            _ ← log (Handshake (RemoteAddr c) (t_TLSClientConfig t));
            match shake (events w) (RemoteAddr c) (t_TLSClientConfig t) with
            | Some e => _ ← log (Closed c); mret (Err e)
            | None => send (MkConn (RemoteAddr c) (t_TLSClientConfig t)) req
            end
        end
    end
  else mret (Err ("unsupported protocol scheme " +:+ Scheme w)).

(** The transport for h2c: its [DialTLS] is [net.Dial]. *)
Definition h2c_RoundTrip (req : request) : W (gores Resp) :=
  _ ← (λ w, Returns (tt, MkWorld "http" (events w)));
  r ← dial None "tcp" (canonicalAddr "http" req);
  match r with Ok c => send c req | Err e => mret (Err e) end.

Definition ProtoAtLeast (req : request) (major minor : Z) : bool :=
  (major <? ProtoMajor req) || ((ProtoMajor req =? major) && (minor <=? ProtoMinor req)).

Definition dynamic_RoundTrip (m : dynamicRoundTripper) (req : request) : W (gores Resp) :=
  w ← st_get;
  if ProtoAtLeast req 2 0 && String.eqb (Scheme w) "h2c" then h2c_RoundTrip req
  else hx_RoundTrip (hx m) (dailer m) req.

(** As the retrying transport sees it. *)
Definition below (m : dynamicRoundTripper) (req : request) : W (option Resp * option go_error) :=
  r ← dynamic_RoundTrip m req;
  mret (match r with Ok resp => (Some resp, None) | Err e => (None, Some (PlainError e)) end).

(** ** Which addresses are refused *)

(** The check, for an address that has four bytes: the loopback network, and
    the three private ones. *)
Theorem validateAddress_v4 c a b x d port : is_byte a → is_byte b → is_byte x → is_byte d → plain port →
  DisablePrivateIPs c = true →
  validateAddress c (IP_String [a; b; x; d] +:+ ":" +:+ port) =
  if bool_decide (a = 127 ∨ a = 10 ∨ (a = 172 ∧ 16 ≤ b < 32) ∨ (a = 192 ∧ b = 168))
  then Some ("private IP address not allowed: " +:+ IP_String [a; b; x; d]) else None.
Proof.
  intros Ha Hb Hx Hd Hp Hc. unfold validateAddress. rewrite Hc.
  unfold host_of. rewrite SplitHostPort_plain by (done || by apply IP_String_plain). rewrite ParseIP_String by done.
  unfold IsLoopback, IsPrivate, private4.
  assert (To4 (v4InV6Prefix ++ [a; b; x; d]) = Some [a; b; x; d]) as E by reflexivity.
  assert (IP_String (v4InV6Prefix ++ [a; b; x; d]) = IP_String [a; b; x; d]) as -> by (unfold IP_String; by rewrite E).
  rewrite E. cbn [nth].
  assert ((Z.land b 240 =? 16) = bool_decide (16 ≤ b < 32)) as ->.
  { clear - Hb. revert b Hb. apply (byte_cases (λ b, (Z.land b 240 =? 16) = bool_decide (16 ≤ b < 32))).
    intros n Hn. do 256 (destruct n as [|n]; [by vm_compute|]). lia. }
  repeat case_bool_decide; destruct (Z.eqb_spec a 127), (Z.eqb_spec a 10), (Z.eqb_spec a 172), (Z.eqb_spec a 192),
    (Z.eqb_spec b 168); cbn; try done; exfalso; lia.
Qed.

(** ** The requests of a service *)

(** The dialer and the transport of a service, under a configuration. *)
Definition service_dialer `{Externals} c (svc : DGateService.t) : Dialer :=
  MkDialer (DGateService.ConnectTimeout svc) (if DisableKeepAlives c then -1 else KeepAlive c)
    (Some (MkResolver (DNSPreferGo c) (Checked c))).

Lemma service_hx `{Externals} c (svc : DGateService.t) :
  let m := setupTranportsFromConfig c (service_modify svc) in
  dailer m = service_dialer c svc ∧ t_DialContext (hx m) = Checked c ∧ t_DialTLSContext (hx m) = Some (Checked c).
Proof. done. Qed.

(** The two fields that the configuration never decides. *)
Lemma service_overrides `{Externals} c (svc : DGateService.t) :
  let m := setupTranportsFromConfig c (service_modify svc) in
  d_Timeout (dailer m) = DGateService.ConnectTimeout svc ∧ t_ForceAttemptHTTP2 (hx m) = DGateService.HTTP2Only svc.
Proof. done. Qed.

(** C9: What a request to a service over http or https does: one connection, by
    the service's dialer; if the address is refused, nothing is sent and the
    connection is not closed.  It is the same for both schemes: a request over
    https is sent without TLS, and the service's [TLSSkipVerify] is not read. *)
Theorem service_round_trip `{Externals} c (svc : DGateService.t) req w :
  Scheme w = "http" ∨ Scheme w = "https" →
  let address := canonicalAddr (Scheme w) req in
  let r := reach (events w) (Some (service_dialer c svc)) "tcp" address in
  let dialed := events w ++ [Dialed (Some (service_dialer c svc)) "tcp" address r] in
  dynamic_RoundTrip (setupTranportsFromConfig c (service_modify svc)) req w =
  match r with
  | Err e => Returns (Err e, MkWorld (Scheme w) dialed)
  | Ok remote =>
      match validateAddress c remote with
      | Some e => Returns (Err e, MkWorld (Scheme w) dialed)
      | None => Returns (answer dialed (MkConn remote None) req,
                         MkWorld (Scheme w) (dialed ++ [Sent (MkConn remote None) req]))
      end
  end.
Proof.
  intros Hs. cbn zeta. unfold dynamic_RoundTrip. st.
  assert (String.eqb (Scheme w) "h2c" = false) as -> by (by destruct Hs as [-> | ->]).
  rewrite andb_false_r. unfold hx_RoundTrip. st.
  assert (∀ cont : gores conn → W (gores Resp),
    (t1_DialContext c (service_dialer c svc) "tcp" (canonicalAddr (Scheme w) req) ≫= cont) w =
    let r := reach (events w) (Some (service_dialer c svc)) "tcp" (canonicalAddr (Scheme w) req) in
    let w' := MkWorld (Scheme w) (events w ++ [Dialed (Some (service_dialer c svc)) "tcp" (canonicalAddr (Scheme w) req) r]) in
    match r with
    | Err e => cont (Err e) w'
    | Ok remote => match validateAddress c remote with Some e => cont (Err e) w' | None => cont (Ok (MkConn remote None)) w' end
    end) as E.
  { intros cont. unfold t1_DialContext, dial, log. st. destruct (reach _ _ _ _) as [remote|e]; st; [|done].
    cbn [RemoteAddr]. destruct (validateAddress c remote); by st. }
  destruct Hs as [Hs|Hs]; rewrite Hs; cbn [String.eqb Ascii.eqb Bool.eqb]; destruct (service_hx c svc) as (Ed & E1 & E2);
    cbn zeta in *; rewrite ?E2, ?E1, Ed; cbn [run_hook]; rewrite <-Hs, E; cbn zeta;
    (destruct (reach _ _ _ _) as [remote|e]; [|done]); (destruct (validateAddress c remote); [done|]); reflexivity.
Qed.

(** The events of a computation come after those before it, and all satisfy
    [P]; the scheme at the end is ["http"] if it was at the start. *)
Definition grows {A} (P : event → Prop) (m : W A) : Prop := ∀ w, ∃ a w' es,
  m w = Returns (a, w') ∧ events w' = events w ++ es ∧ Forall P es ∧ (Scheme w = "http" → Scheme w' = "http").

Lemma grows_ret {A} P (a : A) : grows P (mret a).
Proof. intros w. exists a, w, []. by rewrite app_nil_r. Qed.
Lemma grows_bind {A B} P (m : W A) (f : A → W B) : grows P m → (∀ a, grows P (f a)) → grows P (m ≫= f).
Proof.
  intros Hm Hf w. destruct (Hm w) as (a & w1 & es1 & E1 & Ev1 & H1 & S1).
  destruct (Hf a w1) as (b & w2 & es2 & E2 & Ev2 & H2 & S2).
  exists b, w2, (es1 ++ es2). st. rewrite E1, E2, Ev2, Ev1, <-app_assoc, Forall_app. split_and!; auto.
Qed.
Lemma grows_get {A} P (f : world → W A) : (∀ w, grows P (f w)) → grows P (st_get ≫= f).
Proof. intros Hf w. apply Hf. Qed.
Lemma grows_log (P : event → Prop) e : P e → grows P (log e).
Proof. intros He w. exists tt, (MkWorld (Scheme w) (events w ++ [e])), [e]. by rewrite Forall_singleton. Qed.
Hint Resolve grows_ret grows_log : core.

Definition any (e : event) : Prop := True.
Lemma grows_dial (P : event → Prop) d n a : (∀ r, P (Dialed d n a r)) → grows P (dial d n a).
Proof. intros HP. apply grows_get. intros w. apply grows_bind; [auto|]. intros _. auto. Qed.
Lemma grows_send (P : event → Prop) c req : P (Sent c req) → grows P (send c req).
Proof. intros HP. apply grows_get. intros w. apply grows_bind; [auto|]. intros _. auto. Qed.
Lemma grows_h2c req : grows any (h2c_RoundTrip req).
Proof.
  apply grows_bind; [intros w; exists tt, (MkWorld "http" (events w)), []; by rewrite app_nil_r|].
  intros _. apply grows_bind; [by apply grows_dial|]. intros [c|e]; [by apply grows_send|auto].
Qed.
Lemma grows_hook h d n a : grows any (run_hook h d n a).
Proof.
  destruct h as [|c]; [by apply grows_dial|]. apply grows_bind; [by apply grows_dial|].
  intros [cn|e]; [|auto]. destruct (validateAddress c _); auto.
Qed.
Lemma grows_hx t d req : grows any (hx_RoundTrip t d req).
Proof.
  apply grows_get. intros w. destruct (String.eqb _ _); [|destruct (String.eqb _ _); [destruct (t_DialTLSContext t)|auto]];
    (apply grows_bind; [apply grows_hook|]); intros [cn|e]; try auto; try by apply grows_send.
  apply grows_get. intros w'. apply grows_bind; [by apply grows_log|]. intros _.
  destruct (shake _ _ _); [|by apply grows_send]. apply grows_bind; [by apply grows_log|]. auto.
Qed.
Lemma grows_below m req : grows any (below m req).
Proof.
  apply grows_bind; [|intros [?|?]; auto]. apply grows_get. intros w.
  destruct (ProtoAtLeast _ _ _ && _); [apply grows_h2c|apply grows_hx].
Qed.
Lemma grows_round_trips m req n method : grows any (round_trips (below m req) n method).
Proof.
  induction n as [|n IH]; cbn [round_trips]; (apply grows_bind; [apply grows_below|]);
    intros [resp err]; destruct (last_attempt method err); auto.
Qed.

(** A request over http/2 to a service with the scheme h2c: the connection is
    made without the dialer of the configuration, no address is refused, and
    the scheme of the request is [http] afterwards. *)
Lemma h2c_unchecked m req w : ProtoAtLeast req 2 0 = true → Scheme w = "h2c" →
  let r := reach (events w) None "tcp" (canonicalAddr "http" req) in
  let dialed := events w ++ [Dialed None "tcp" (canonicalAddr "http" req) r] in
  dynamic_RoundTrip m req w =
  match r with
  | Err e => Returns (Err e, MkWorld "http" dialed)
  | Ok remote => Returns (answer dialed (MkConn remote None) req, MkWorld "http" (dialed ++ [Sent (MkConn remote None) req]))
  end.
Proof.
  intros Hp Hs. unfold dynamic_RoundTrip. st. rewrite Hp, Hs. cbn [andb String.eqb Ascii.eqb Bool.eqb].
  unfold h2c_RoundTrip, dial, send, log. st. cbn [events Scheme]. destruct (reach _ _ _ _); by st.
Qed.

(** [retries] more attempts after a failed connection over h2c: the first of
    them is a request over http/1, by the dialer of the service. *)
Theorem retry_leaves_h2c `{Externals} c (svc : DGateService.t) req retries method w e :
  let m := setupTranportsFromConfig c (service_modify svc) in
  let address := canonicalAddr "http" req in
  ProtoAtLeast req 2 0 = true → Scheme w = "h2c" → 1 ≤ retries → method ≠ "PUT" → method ≠ "POST" →
  reach (events w) None "tcp" address = Err e →
  ∃ a r w' es, RoundTrip (below m req) retries method w = Returns (a, w') ∧
    events w' = events w ++ [Dialed None "tcp" address (Err e);
                             Dialed (Some (service_dialer c svc)) "tcp" address r] ++ es.
Proof.
  cbn zeta. intros Hp Hs Hn Hput Hpost Hr. unfold RoundTrip. rewrite (proj2 (Z.ltb_ge retries 0)) by lia.
  destruct (Z.to_nat retries) as [|n] eqn:En; [lia|]. cbn [round_trips].
  set (m := setupTranportsFromConfig c (service_modify svc)).
  set (w1 := MkWorld "http" (events w ++ [Dialed None "tcp" (canonicalAddr "http" req) (Err e)])).
  assert (below m req w = Returns ((None, Some (PlainError e)), w1)) as E1.
  { unfold below. st. pose proof (h2c_unchecked m req w Hp Hs) as E. cbn zeta in E. rewrite Hr in E. by rewrite E. }
  assert (last_attempt method (Some (PlainError e)) = false) as El.
  { unfold last_attempt. destruct (String.eqb_spec method "PUT"), (String.eqb_spec method "POST"); done. }
  st. rewrite E1. rewrite El.
  assert (∃ r a2 w2 es, below m req w1 = Returns (a2, w2) ∧
    events w2 = events w1 ++ Dialed (Some (service_dialer c svc)) "tcp" (canonicalAddr "http" req) r :: es) as (r & a2 & w2 & es & E2 & Ev2).
  { unfold below. st. pose proof (service_round_trip c svc req w1 (or_introl eq_refl)) as E. cbn zeta in E. fold m in E.
    rewrite E. change (Scheme w1) with "http". destruct (reach (events w1) _ _ _) as [remote|e']; [destruct (validateAddress c remote)|];
      eexists _, _, _, _; (split; [reflexivity|]); cbn [events]; rewrite <-?app_assoc; reflexivity. }
  assert (∃ a w' es', round_trips (below m req) n method w1 = Returns (a, w') ∧ events w' = events w2 ++ es') as (a & w' & es' & E & Ev).
  { destruct n as [|n]; cbn [round_trips]; st; rewrite E2; destruct a2 as [resp err], (last_attempt method err); st;
      try (eexists _, w2, []; by rewrite app_nil_r).
    destruct (grows_round_trips m req n method w2) as (a & w' & es' & Ea & Ev & _). eauto. }
  exists a, r, w', (es ++ es'). split; [done|]. rewrite Ev, Ev2. unfold w1. cbn [events]. by rewrite <-!app_assoc.
Qed.

(** With private addresses refused, what the resolver is told to ask is
    checked, and not what it asks: a private name server of the system makes
    it fail although the configured one is public, and the configured one may
    be private. *)
Theorem resolver_checks_other c d network address w :
  resolver_Dial c d network address w =
  match validateAddress c address with
  | Some e => Returns (Err e, w)
  | None => dial (Some d) network (if String.eqb (DNSServer c) "" then address else DNSServer c) w
  end.
Proof. unfold resolver_Dial. by destruct (validateAddress c address). Qed.

(** No request of a service is sent to a loopback or private address when
    they are refused, unless it is one over http/2 with the scheme h2c. *)
Theorem private_not_sent `{Externals} c (svc : DGateService.t) req w :
  DisablePrivateIPs c = true → Scheme w = "http" ∨ Scheme w = "https" →
  ∃ r w' es, dynamic_RoundTrip (setupTranportsFromConfig c (service_modify svc)) req w = Returns (r, w') ∧
    events w' = events w ++ es ∧
    ∀ cn req', Sent cn req' ∈ es → ∃ ip, ParseIP (host_of (RemoteAddr cn)) = Some ip ∧
      IsLoopback ip = false ∧ IsPrivate ip = false.
Proof.
  intros Hc Hs. assert (∀ a, validateAddress c a = None → ∃ ip, ParseIP (host_of a) = Some ip ∧
    IsLoopback ip = false ∧ IsPrivate ip = false) as Hv'.
  { intros a. unfold validateAddress. rewrite Hc.
    destruct (ParseIP (host_of a)) as [ip|]; [|done]. destruct (IsLoopback ip) eqn:?, (IsPrivate ip) eqn:?; try done. eauto. }
  pose proof (service_round_trip c svc req w Hs) as E. cbn zeta in E. rewrite E.
  destruct (reach _ _ _ _) as [remote|e]; [destruct (validateAddress c remote) eqn:Hv|];
    (eexists _, _, _; (split; [reflexivity|]); cbn [events]; split; [rewrite <-?app_assoc; reflexivity|]);
    intros cn req' Hin; cbn [app] in Hin;
    repeat (apply elem_of_cons in Hin as [Hin|Hin]; [by simplify_eq; auto|]); by apply elem_of_nil in Hin.
Qed.

End network.

(** ** At concrete inputs *)

Definition strict_config : DGateHttpTransportConfig :=
  MkTransportConfig "10.0.0.53:53" 0 false 100 10 0 90 true false 10 1 0 0 0 0 false 30 0 5 true.
Definition strict_service : @DGateService.t text_externals :=
  @DGateService.mk text_externals "svc" None None None false 3 0 7 0 true false false.
Definition strict_dialer : Dialer := MkDialer 7 30 (Some (MkResolver false (Checked strict_config))).
(** A network with one host, and an echo behind every connection. *)
Definition one_host (remote : string) (_ : list event) (_ : option Dialer) (_ _ : string) : gores string := Ok remote.
Definition echo (_ : list event) (c : conn) (_ : request) : gores string := Ok (RemoteAddr c).

Lemma service_round_trip_witness :
  let req := MkRequest 1 1 "example.com" "" in
  dynamic_RoundTrip (one_host "93.184.216.34:443") (λ _ _ _, None) echo
    (@setupTranportsFromConfig strict_config (@service_modify text_externals strict_service)) req (MkWorld "https" []) =
  Returns (Ok "93.184.216.34:443", MkWorld "https"
    [Dialed (Some strict_dialer) "tcp" "example.com:443" (Ok "93.184.216.34:443");
     Sent (MkConn "93.184.216.34:443" None) req]).
Proof.
  exact (service_round_trip (one_host "93.184.216.34:443") (λ _ _ _, None) echo strict_config strict_service
    (MkRequest 1 1 "example.com" "") (MkWorld "https" []) (or_intror eq_refl)).
Defined.

(** A refused address, a private address of the same host over h2c, and
    addresses that no check refuses. *)
Example private_refused :
  dynamic_RoundTrip (one_host "[::ffff:192.168.1.9]:443") (λ _ _ _, None) echo
    (setupTranportsFromConfig strict_config (service_modify strict_service)) (MkRequest 1 1 "example.com" "") (MkWorld "https" []) =
  Returns (Err "private IP address not allowed: 192.168.1.9", MkWorld "https"
    [Dialed (Some strict_dialer) "tcp" "example.com:443" (Ok "[::ffff:192.168.1.9]:443")]).
Proof. vm_compute. reflexivity. Qed.
Example private_over_h2c :
  let req := MkRequest 2 0 "example.com" "" in
  dynamic_RoundTrip (one_host "192.168.1.9:80") (λ _ _ _, None) echo
    (setupTranportsFromConfig strict_config (service_modify strict_service)) req (MkWorld "h2c" []) =
  Returns (Ok "192.168.1.9:80", MkWorld "http"
    [Dialed None "tcp" "example.com:80" (Ok "192.168.1.9:80"); Sent (MkConn "192.168.1.9:80" None) req]).
Proof. vm_compute. reflexivity. Qed.
Example local_not_refused :
  validateAddress strict_config <$> ["169.254.169.254:80"; "0.0.0.0:80"; "[::]:80"; "[fe80::1]:80"] = [None; None; None; None] ∧
  validateAddress strict_config <$> ["127.8.0.1:80"; "[::1]:80"; "[fd00:0:0:0:1:0:0:1]:80"; "svc:80"] =
  [Some "private IP address not allowed: 127.8.0.1"; Some "private IP address not allowed: ::1";
   Some "private IP address not allowed: fd00::1:0:0:1"; Some "could not parse IP: svc"].
Proof. split; vm_compute; reflexivity. Qed.
