(* ===== verification/AdminRoutes.v ===== *)
(** * internal/admin/admin_routes.go: who may use the admin API

    [configureRoutes] builds the guard that every request passes before the
    handlers of AdminAPI.v: the allow list, the credentials, and raft's leader
    for requests that change something.  The routes, the metrics and the page
    at the root are left out.  The header and query of a request, and the
    credentials that net/http takes from it, are functions of the request. *)
From Stdlib Require Import ZArith Lia.
From stdpp Require Import base gmap strings list fin_maps pretty.
From S2P Require Import Prelude Avl SliceUtil Pattern Spec Linker ResourceManager.
From S2P Require Import Storage ProxyStore Scheduler Cache Util Compact ConfigResources.
From S2P Require Import ProxyTransport Proxy RequestContext DynamicProxy ChangeLogs ProxyState.
From S2P Require Import LinkedList LinkedListLogic NetIP IPList.

(** ** The configuration *)

Record DGateUserCredentials : Type := MkUser { Username : string; Password : string }.
Record DGateKeyAuthConfig : Type := MkKeyAuth { QueryParamName : string; HeaderName : string; Keys : list string }.
Record DGateAdminConfig : Type := MkAdminConfig {
  AllowList : list string;
  XForwardedForDepth : Z;
  AuthMethod : string;
  BasicAuth : option (list DGateUserCredentials);
  KeyAuth : option DGateKeyAuthConfig }.

Definition AuthMethodBasicAuth : string := "basic".
Definition AuthMethodKeyAuth : string := "key".
Definition AuthMethodJWTAuth : string := "jwt".

Record guard : Type := MkGuard {
  ipList : IPList;
  userMap : option (gmap string string);
  keyMap : option (gset string) }.

(** An address with a slash is a network. *)
Definition entry_of (address : string) : entry :=
  if Strings.Contains address "/" then Cidr address else Address address.
Definition invalid_address (e : entry) : error :=
  match e with
  | Cidr s => "invalid cidr address in admin.allow_list: " +:+ s
  | Address s => "invalid ip address in admin.allow_list: " +:+ s
  end.

Fixpoint add_addresses (l : IPList) (addresses : list string) : HP (gores IPList) :=
  match addresses with
  | [] => mret (Ok l)
  | address :: addresses =>
      '(l, err) ← add_entry l (entry_of address);
      match err with
      | Some _ => mret (Err (invalid_address (entry_of address)))
      | None => add_addresses l addresses
      end
  end.

Definition incomplete_user (i : nat) : error :=
  "both username and password are required: admin.basic_auth.users[" +:+ pretty i +:+ "]".
Fixpoint add_users (i : nat) (users : list DGateUserCredentials) (m : gmap string string)
    : gores (gmap string string) :=
  match users with
  | [] => Ok m
  | user :: users =>
      if String.eqb (Username user) "" || String.eqb (Password user) "" then Err (incomplete_user i)
      else add_users (S i) users (<[Username user := Password user]> m)
  end.

Definition basic_users (conf : DGateAdminConfig) : outcome (list DGateUserCredentials) :=
  match BasicAuth conf with Some users => mret users | None => Panics nil_deref end.

(** The credentials of the guard. *)
Definition configure_auth (conf : DGateAdminConfig) (l : IPList) : outcome (gores guard) :=
  if String.eqb (AuthMethod conf) AuthMethodBasicAuth then
    users ← basic_users conf;
    match add_users 0 users ∅ with
    | Err err => mret (Err err)
    | Ok m => mret (Ok (MkGuard l (Some m) None))
    end
  else if String.eqb (AuthMethod conf) AuthMethodKeyAuth then
    match KeyAuth conf with
    | Some k =>
        if Nat.eqb (length (Keys k)) 0 then mret (Ok (MkGuard l None (Some ∅)))
        else if negb (String.eqb (QueryParamName k) "") && negb (String.eqb (HeaderName k) "")
        then mret (Err "only one of admin.key_auth.query_param_name or admin.key_auth.header_name can be set")
        else mret (Ok (MkGuard l None (Some (list_to_set (Keys k)))))
    | None => mret (Ok (MkGuard l None (Some ∅)))
    end
  else if String.eqb (AuthMethod conf) AuthMethodJWTAuth then mret (Err "JWT Auth is not supported yet")
  else mret (Ok (MkGuard l None None)).

Definition configureRoutes (conf : DGateAdminConfig) : HP (gores guard) :=
  l ← NewIPList;
  l ← add_addresses l (AllowList conf);
  match l with
  | Err err => mret (Err err)
  | Ok l => st_lift (configure_auth conf l)
  end.

(** ** The guard of a request *)

Record call : Type := MkCall {
  c_request : request;
  c_method : string;
  c_basic : option (string * string);
  c_query : string → string;
  c_header : string → string }.

Inductive verdict : Type :=
  | Refused (code : Z) (message : string)
  | Redirected (leader : string)
  | Passed.

Section code.
Context {E : Externals} {R : Runtime} {Any : Type} {C : Encoding E Any} {S : Type}.
Context {St : Storage S} {X : ProxyEnv E Any} {N : NodeEnv}.
Implicit Types (conf : DGateAdminConfig) (c : call) (g : guard).

(** Where the lists allow the address, [None]. *)
Definition check_address (debug : bool) conf g c : HP (option verdict) :=
  if negb (0 <? IPList_Len (ipList g)) then mret None else
  remoteIp ← st_lift (GetTrustedIP (X := X) (c_request c) (XForwardedForDepth conf));
  allowed ← Contains (ipList g) remoteIp;
  match allowed with
  | Err err => mret (Some (if debug then Refused 500 err
                           else Refused 400 "could not parse X-Forwarded-For IP"))
  | Ok false => mret (Some (if debug then Refused 401 ("Unauthorized IP Address: " +:+ remoteIp)
                            else Refused 401 "Unauthorized"))
  | Ok true => mret None
  end.

Definition presented_key (k : DGateKeyAuthConfig) c : string :=
  if negb (String.eqb (QueryParamName k) "") then c_query c (QueryParamName k)
  else if negb (String.eqb (HeaderName k) "") then c_header c (HeaderName k)
  else c_header c "X-DGate-Key".

Definition check_auth conf g c : outcome (option verdict) :=
  if String.eqb (AuthMethod conf) AuthMethodBasicAuth then
    users ← basic_users conf;
    if Nat.eqb (length users) 0 then mret (Some (Refused 401 "Unauthorized")) else
    match c_basic c with
    | Some (user, pass) =>
        match default ∅ (userMap g) !! user with
        | Some userPass => if String.eqb userPass pass then mret None
                           else mret (Some (Refused 401 "Unauthorized"))
        | None => mret (Some (Refused 401 "Unauthorized"))
        end
    | None => mret (Some (Refused 401 "Unauthorized"))
    end
  else
    match KeyAuth conf with
    | Some k =>
        if Nat.eqb (length (Keys k)) 0 then mret None
        else if bool_decide (presented_key k c ∈ default ∅ (keyMap g)) then mret None
        else mret (Some (Refused 401 "Unauthorized"))
    | None => mret None
    end.

Definition check_leader (p : @ProxyState E Any S X) c : option verdict :=
  match Raft p with
  | None => None
  | Some leads =>
      if String.eqb (c_method c) "PUT" || String.eqb (c_method c) "DELETE" then
        if String.eqb raft_Leader "" then Some (Refused 503 "raft: no leader")
        else if negb leads then Some (Redirected raft_Leader) else None
      else None
  end.

Definition through_guard (debug : bool) conf g (p : @ProxyState E Any S X) c : HP verdict :=
  v ← check_address debug conf g c;
  match v with
  | Some v => mret v
  | None =>
      v ← st_lift (check_auth conf g c);
      match v with
      | Some v => mret v
      | None => mret (default Passed (check_leader p c))
      end
  end.
End code.
