(* ===== verification/AdminRoutesTheorems.v ===== *)
(** * Who the guard of the admin API lets through *)
From Stdlib Require Import ZArith Lia.
From stdpp Require Import base gmap strings list fin_maps pretty.
From S2P Require Import Prelude Avl SliceUtil Pattern Base64 Spec Linker ResourceManager.
From S2P Require Import Storage ProxyStore Scheduler Cache Util Compact ConfigResources.
From S2P Require Import ProxyTransport ResourceSpec Proxy RequestContext DynamicProxy Routing.
From S2P Require Import ChangeLogs ProxyLogic Replay ProxyState ProxyStateTheorems.
From S2P Require Import LinkedList LinkedListLogic NetIP IPList AdminRoutes.

(** ** The configuration *)

(** The networks of an allow list; [None] where an entry has none. *)
Definition allowed_networks (conf : DGateAdminConfig) : option (list IPNet) :=
  mapM (network ∘ entry_of) (AllowList conf).

Definition complete (u : DGateUserCredentials) : Prop := Username u ≠ "" ∧ Password u ≠ "".
Definition one_place (k : DGateKeyAuthConfig) : Prop :=
  Keys k = [] ∨ QueryParamName k = "" ∨ HeaderName k = "".
Definition credentials_fit (conf : DGateAdminConfig) : Prop :=
  (AuthMethod conf = AuthMethodBasicAuth → ∀ users, BasicAuth conf = Some users → Forall complete users) ∧
  (AuthMethod conf = AuthMethodKeyAuth → ∀ k, KeyAuth conf = Some k → one_place k) ∧
  AuthMethod conf ≠ AuthMethodJWTAuth.

(** The password of the last user of that name. *)
Definition password_of (users : list DGateUserCredentials) (name : string) : option string :=
  foldl (λ pass u, if String.eqb (Username u) name then Some (Password u) else pass) None users.

Lemma add_users_ok users : ∀ i m, Forall complete users →
  ∃ m', add_users i users m = Ok m' ∧
  ∀ name, m' !! name =
    foldl (λ pass u, if String.eqb (Username u) name then Some (Password u) else pass) (m !! name) users.
Proof.
  induction users as [|u users IH]; intros i m Hc; cbn; [by eexists|].
  apply Forall_cons in Hc as [[Hu Hp] Hc].
  rewrite (proj2 (String.eqb_neq (Username u) "")), (proj2 (String.eqb_neq (Password u) "")) by done. cbn.
  destruct (IH (S i) (<[Username u := Password u]> m) Hc) as (m' & E & H). exists m'. split; [done|].
  intros name. rewrite H. destruct (String.eqb_spec (Username u) name) as [->|Hne];
    [by rewrite lookup_insert_eq|by rewrite lookup_insert_ne].
Qed.
Lemma add_users_refuses users : ∀ i m, ¬ Forall complete users →
  ∃ err, add_users i users m = Err err.
Proof.
  induction users as [|u users IH]; intros i m Hc; cbn; [by destruct Hc|].
  destruct (String.eqb_spec (Username u) ""), (String.eqb_spec (Password u) ""); cbn; [by eexists..|].
  apply IH. intros H. destruct Hc. by constructor.
Qed.

Lemma add_addresses_holds addresses : ∀ h l ns more, holds_networks h l ns →
  mapM (network ∘ entry_of) addresses = Some more →
  ∃ l' h', add_addresses l addresses h = Returns (Ok l', h') ∧ holds_networks h' l' (rev more ++ ns).
Proof.
  induction addresses as [|a addresses IH]; intros h l ns more Hl Hm; cbn in Hm |- *.
  - injection Hm as <-. st. by exists l, h.
  - apply bind_Some in Hm as (n & Hn & (more' & Hm & [= <-])%bind_Some).
    destruct (add_entry_holds h l ns (entry_of a) n Hl Hn) as (l1 & h1 & E1 & Hl1). st. rewrite E1. st.
    destruct (IH h1 l1 (n :: ns) more' Hl1 Hm) as (l2 & h2 & E2 & Hl2). exists l2, h2. split; [done|].
    cbn. by rewrite <-app_assoc.
Qed.
Lemma add_addresses_refuses addresses : ∀ h l ns, holds_networks h l ns →
  mapM (network ∘ entry_of) addresses = None → ∃ err h', add_addresses l addresses h = Returns (Err err, h').
Proof.
  induction addresses as [|a addresses IH]; intros h l ns Hl Hm; [done|].
  cbn in Hm. cbn [add_addresses].
  apply bind_None in Hm as [Hn|(n & Hn & Hm)].
  - destruct (add_entry_refuses h l (entry_of a) Hn) as (err & E). st. rewrite E. st. by eexists _, h.
  - destruct (add_entry_holds h l ns (entry_of a) n Hl Hn) as (l1 & h1 & E1 & Hl1). st. rewrite E1. st.
    apply (IH h1 l1 (n :: ns)); [done|]. by destruct (mapM _ addresses).
Qed.

(** The credentials the guard keeps. *)
Definition keeps_credentials (conf : DGateAdminConfig) (g : guard) : Prop :=
  (AuthMethod conf = AuthMethodBasicAuth → ∃ users, BasicAuth conf = Some users ∧
     ∀ name, default ∅ (userMap g) !! name = password_of users name) ∧
  (∀ k key, KeyAuth conf = Some k →
     key ∈ (default ∅ (keyMap g) : gset string) ↔ AuthMethod conf = AuthMethodKeyAuth ∧ key ∈ Keys k).

Lemma configure_auth_ok conf l : (AuthMethod conf = AuthMethodBasicAuth → is_Some (BasicAuth conf)) →
  (credentials_fit conf ∧ ∃ g, configure_auth conf l = Returns (Ok g) ∧ ipList g = l ∧ keeps_credentials conf g) ∨
  (¬ credentials_fit conf ∧ ∃ err, configure_auth conf l = Returns (Err err)).
Proof.
  intros Hb. unfold configure_auth, credentials_fit, keeps_credentials.
  destruct (String.eqb_spec (AuthMethod conf) AuthMethodBasicAuth) as [Hm|Hm].
  { unfold basic_users. destruct (Hb Hm) as [users ->]. cbn [mbind mret outcome_bind outcome_ret].
    rewrite Hm. destruct (decide (Forall (λ u, Username u ≠ "" ∧ Password u ≠ "") users)) as [Hc|Hc].
    - left. split; [split_and!; [by intros _ ? [= <-]|done..]|].
      destruct (add_users_ok users 0 ∅ Hc) as (m & -> & H). eexists. split; [done|]. split; [done|].
      split; [intros _; exists users; split; [done|]; intros name; cbn; by rewrite H, lookup_empty|].
      intros k key _. cbn. split; [set_solver|]. by intros [? _].
    - right. split; [intros (H & _); apply Hc; by apply H|].
      destruct (add_users_refuses users 0 ∅ Hc) as (err & ->). by exists err. }
  destruct (String.eqb_spec (AuthMethod conf) AuthMethodKeyAuth) as [Hk|Hk].
  { rewrite Hk. destruct (KeyAuth conf) as [k|].
    2: { left. split; [by split_and!|]. eexists. split; [done|]. split; [done|]. by split. }
    unfold one_place. destruct (Keys k) as [|key keys] eqn:Hkeys; cbn [length Nat.eqb].
    { left. split; [split_and!; [done| |done]; intros _ ? [= <-]; by left|].
      eexists. split; [done|]. split; [done|]. split; [done|]. intros ? ? [= <-]. rewrite Hkeys. cbn. set_solver. }
    destruct (String.eqb_spec (QueryParamName k) "") as [Hq|Hq],
      (String.eqb_spec (HeaderName k) "") as [Hh|Hh]; cbn [negb andb].
    4: { right. split; [|by eexists]. intros (_ & H & _). destruct (H eq_refl k eq_refl) as [|[|]]; congruence. }
    all: left; (split; [split_and!; [done| |done]; intros _ ? [= <-]; tauto|]);
      (eexists; split; [done|]; split; [done|]; split; [done|]);
      intros ? ? [= <-]; cbn [keyMap default id]; rewrite elem_of_list_to_set, Hkeys; tauto. }
  destruct (String.eqb_spec (AuthMethod conf) AuthMethodJWTAuth) as [Hj|Hj].
  - right. split; [tauto|by eexists].
  - left. split; [tauto|]. eexists. split; [done|]. split; [done|]. split; [done|].
    intros k key _. cbn. split; [set_solver|by intros [? _]].
Qed.

Definition guards (conf : DGateAdminConfig) (h : nodes IPNet) (g : guard) : Prop :=
  ∃ ns ms, allowed_networks conf = Some ns ∧ ms ≡ₚ ns ∧ holds_networks h (ipList g) ms ∧
    keeps_credentials conf g.

Lemma configureRoutes_guards conf h : (AuthMethod conf = AuthMethodBasicAuth → is_Some (BasicAuth conf)) →
  (is_Some (allowed_networks conf) ∧ credentials_fit conf ∧
     ∃ g h', configureRoutes conf h = Returns (Ok g, h') ∧ guards conf h' g) ∨
  (¬ (is_Some (allowed_networks conf) ∧ credentials_fit conf) ∧
     ∃ err h', configureRoutes conf h = Returns (Err err, h')).
Proof.
  intros Hb. unfold configureRoutes. destruct (NewIPList_holds h) as (l & E & Hl). st. rewrite E. st.
  destruct (allowed_networks conf) as [ns|] eqn:Hns.
  - destruct (add_addresses_holds _ h l [] ns Hl Hns) as (l' & h' & E' & Hl'). rewrite E'. st.
    destruct (configure_auth_ok conf l' Hb) as [(Hc & g & -> & Hg & Hk)|(Hc & err & ->)]; [left|right].
    + split; [done|]. split; [done|]. exists g, h'. split; [done|]. exists ns, (rev ns ++ []).
      split; [done|]. split; [by rewrite app_nil_r, <-Permutation_rev|]. by rewrite Hg.
    + split; [by intros [_ ?]|]. by exists err, h'.
  - right. split; [by intros [[? [=]] _]|].
    destruct (add_addresses_refuses _ h l [] Hl Hns) as (err & h' & E'). rewrite E'. st. by exists err, h'.
Qed.

(** ** Requests *)

Section requests.
Context {E : Externals} {R : Runtime} {Any : Type} {C : Encoding E Any} {S : Type}.
Context {St : Storage S} {X : ProxyEnv E Any} {N : NodeEnv}.
Implicit Types (conf : DGateAdminConfig) (c : call) (g : guard) (p : @ProxyState E Any S X).

Definition address_allowed conf c : Prop :=
  AllowList conf = [] ∨
  ∃ s ip a n, GetTrustedIP (X := X) (c_request c) (XForwardedForDepth conf) = Returns s ∧
    ParseIP s = Some ip ∧ a ∈ AllowList conf ∧ network (entry_of a) = Some n ∧ net_Contains n ip = true.

Definition authorised conf c : Prop :=
  if String.eqb (AuthMethod conf) AuthMethodBasicAuth then
    ∃ users user pass, BasicAuth conf = Some users ∧ c_basic c = Some (user, pass) ∧
      password_of users user = Some pass
  else match KeyAuth conf with
       | Some k => Keys k = [] ∨ AuthMethod conf = AuthMethodKeyAuth ∧ presented_key k c ∈ Keys k
       | None => True
       end.

(** With raft, the leader makes the changes. *)
Definition may_change p c : Prop :=
  Raft p = None ∨ (c_method c ≠ "PUT" ∧ c_method c ≠ "DELETE") ∨
  (Raft p = Some true ∧ raft_Leader ≠ "").

Lemma GetTrustedIP_total r depth : ∃ s, GetTrustedIP (X := X) r depth = Returns s.
Proof.
  unfold GetTrustedIP. destruct (Z.leb_spec (Z.min depth (Z.of_nat (length (req_XForwardedFor r)))) 0);
    [by eexists|].
  destruct (lookup_lt_is_Some_2 (req_XForwardedFor r)
    (Z.to_nat (Z.of_nat (length (req_XForwardedFor r)) -
               Z.min depth (Z.of_nat (length (req_XForwardedFor r)))))) as [s ->]; [lia|by eexists].
Qed.

Lemma allowed_entry conf ns ip : allowed_networks conf = Some ns →
  (∃ n, n ∈ ns ∧ net_Contains n ip = true) ↔
  ∃ a n, a ∈ AllowList conf ∧ network (entry_of a) = Some n ∧ net_Contains n ip = true.
Proof.
  intros Hns%mapM_Some_1. split.
  - intros (n & Hn & Hc). apply list_elem_of_lookup in Hn as [i Hi].
    destruct (Forall2_lookup_r _ _ _ i n Hns Hi) as (a & Ha & E'). exists a, n.
    split; [by eapply list_elem_of_lookup_2|done].
  - intros (a & n & Ha & E' & Hc). apply list_elem_of_lookup in Ha as [i Hi].
    destruct (Forall2_lookup_l _ _ _ i a Hns Hi) as (n' & Hn & E''). cbn in E''. exists n.
    split; [|done]. eapply list_elem_of_lookup_2. by simplify_eq.
Qed.

Lemma check_address_ok debug conf g h c : guards conf h g →
  ∃ v, check_address (X := X) debug conf g c h = Returns (v, h) ∧
    (v = None ↔ address_allowed conf c) ∧ v ≠ Some Passed.
Proof.
  intros (ns & ms & Hns & Hperm & Hl & _). destruct (GetTrustedIP_total (c_request c) (XForwardedForDepth conf)) as [s Hs].
  destruct (IPList_Contains_ok h (ipList g) ms s Hl) as (_ & Hbad & Hgood).
  unfold check_address, address_allowed. rewrite Hs.
  assert (IPList_Len (ipList g) = Z.of_nat (length (AllowList conf))) as ->.
  { rewrite (IPList_Len_holds _ _ _ Hl), Hperm. f_equal. by apply mapM_Some_1, Forall2_length in Hns. }
  destruct (Z.ltb_spec 0 (Z.of_nat (length (AllowList conf)))) as [Hlen|Hlen]; cbn [negb].
  2: { destruct (AllowList conf); [|cbn in Hlen; lia]. exists None. split; [done|]. split; [|done]. by split; [left|]. }
  assert (AllowList conf ≠ []) as Hne by (by intros H; rewrite H in Hlen).
  assert (ms ≠ []) as Hms'.
  { intros ->. apply Permutation_nil in Hperm as ->. apply mapM_Some_1, Forall2_length in Hns. by destruct (AllowList conf). }
  st. destruct (ParseIP s) as [ip|] eqn:Hip.
  - destruct (Hgood ip Hms' eq_refl) as (b & E' & Hb). rewrite E'. st.
    setoid_rewrite Hperm in Hb. rewrite (allowed_entry conf ns ip Hns) in Hb.
    destruct b; st; eexists; (split; [reflexivity|]).
    + split; [|done]. split; [|done]. intros _. right.
      destruct (proj1 Hb eq_refl) as (a & n & H). by exists s, ip, a, n.
    + split; [|by destruct debug]. split; [by destruct debug|].
      intros [?|(s' & ip' & a & n & [= <-] & Hip' & H)]; [done|]. simplify_eq.
      assert (false = true) by (apply Hb; by exists a, n). done.
  - rewrite (Hbad Hms' eq_refl). st. eexists. split; [reflexivity|]. split; [|by destruct debug].
    split; [by destruct debug|]. intros [?|(s' & ip' & a & n & [= <-] & Hip' & H)]; [done|congruence].
Qed.

Lemma check_auth_ok conf g h c : guards conf h g →
  ∃ v, check_auth conf g c = Returns v ∧ (v = None ↔ authorised conf c) ∧ v ≠ Some Passed.
Proof.
  intros (_ & _ & _ & _ & _ & Hb & Hk). unfold check_auth, authorised.
  destruct (String.eqb_spec (AuthMethod conf) AuthMethodBasicAuth) as [Hm|Hm].
  - destruct (Hb Hm) as (users & Hu & Hpass). unfold basic_users. rewrite Hu. cbn [mbind mret outcome_bind outcome_ret].
    destruct users as [|u users]; cbn [length Nat.eqb].
    { eexists. split; [reflexivity|]. split; [|done]. split; [done|].
      by intros (? & user & pass & [= <-] & _ & ?). }
    destruct (c_basic c) as [[user pass]|].
    2: { eexists. split; [reflexivity|]. split; [|done]. split; [done|]. by intros (? & ? & ? & _ & ? & _). }
    rewrite Hpass. destruct (password_of (u :: users) user) as [pass'|] eqn:Hp.
    2: { eexists. split; [reflexivity|]. split; [|done]. split; [done|].
         intros (? & ? & ? & [= <-] & [= <- <-] & ?). congruence. }
    destruct (String.eqb_spec pass' pass) as [->|Hne]; eexists; (split; [reflexivity|]); (split; [|done]).
    + split; [|done]. intros _. by exists (u :: users), user, pass.
    + split; [done|]. intros (? & ? & ? & [= <-] & [= <- <-] & ?). congruence.
  - destruct (KeyAuth conf) as [k|]; [|by exists None].
    destruct (Nat.eqb_spec (length (Keys k)) 0) as [H0|H0].
    { exists None. split; [done|]. split; [|done]. split; [|done]. intros _. left. by destruct (Keys k). }
    specialize (Hk k (presented_key k c) eq_refl).
    destruct (decide (presented_key k c ∈ (default ∅ (keyMap g) : gset string))) as [Hin|Hin].
    + rewrite bool_decide_eq_true_2 by done. exists None. split; [done|]. split; [|done]. tauto.
    + rewrite bool_decide_eq_false_2 by done. eexists. split; [reflexivity|]. split; [|done]. split; [done|].
      intros [H|?]; [by rewrite H in H0|tauto].
Qed.

Lemma check_leader_ok p c : (check_leader p c = None ↔ may_change p c) ∧ check_leader p c ≠ Some Passed.
Proof.
  unfold check_leader, may_change. destruct (Raft p) as [leads|]; [|by split; [tauto|]].
  destruct (String.eqb_spec (c_method c) "PUT") as [H1|H1],
    (String.eqb_spec (c_method c) "DELETE") as [H2|H2]; cbn [orb]; [| | |by split; [tauto|]].
  all: destruct (String.eqb_spec raft_Leader "") as [Hl|Hl];
    [|destruct leads; cbn [negb]]; (split; [split|done]); try done.
  all: try (intros [?|[[? ?]|[? ?]]]; congruence).
  all: intros _; right; right; done.
Qed.
(** A request passes the guard. *)
Definition passes conf p c : Prop := address_allowed conf c ∧ authorised conf c ∧ may_change p c.

(** Who is refused gets the code of an error. *)
Lemma check_address_code debug conf g h c v h' :
  check_address (X := X) debug conf g c h = Returns (Some v, h') → ∃ code m, v = Refused code m ∧ 400 ≤ code.
Proof.
  unfold check_address. destruct (negb _); [done|]. st.
  destruct (GetTrustedIP_total (c_request c) (XForwardedForDepth conf)) as [s ->]. st.
  destruct (Contains (ipList g) s h) as [[[[]|err] h1]|]; st; try done;
    destruct debug; intros [= <- _]; eexists _, _; (split; [reflexivity|lia]).
Qed.
Lemma check_auth_code conf g c v : check_auth conf g c = Returns (Some v) → v = Refused 401 "Unauthorized".
Proof.
  unfold check_auth, basic_users. destruct (String.eqb _ AuthMethodBasicAuth).
  - destruct (BasicAuth conf) as [users|]; [|done]. cbn [mbind mret outcome_bind outcome_ret].
    destruct (Nat.eqb _ 0); [by intros [= <-]|]. destruct (c_basic c) as [[user pass]|]; [|by intros [= <-]].
    destruct (_ !! user) as [u|]; [|by intros [= <-]]. destruct (String.eqb u pass); [done|by intros [= <-]].
  - destruct (KeyAuth conf) as [k|]; [|done]. destruct (Nat.eqb _ 0); [done|]. case_bool_decide; [done|by intros [= <-]].
Qed.
Lemma check_leader_code p c code m : check_leader p c = Some (Refused code m) → code = 503.
Proof.
  unfold check_leader. destruct (Raft p); [|done]. destruct (_ || _); [|done]. destruct (String.eqb _ ""); [|by destruct (negb _)].
  by intros [= <- _].
Qed.

Lemma through_guard_ok debug conf g h p c : guards conf h g →
  ∃ v, through_guard debug conf g p c h = Returns (v, h) ∧ (v = Passed ↔ passes conf p c) ∧
    match v with
    | Refused code _ => 400 ≤ code
    | Redirected _ => address_allowed conf c ∧ authorised conf c
    | Passed => True
    end.
Proof.
  intros Hg. destruct (check_address_ok debug conf g h c Hg) as (v1 & E1 & H1 & N1).
  destruct (check_auth_ok conf g h c Hg) as (v2 & E2 & H2 & N2).
  destruct (check_leader_ok p c) as (H3 & N3).
  unfold through_guard, passes. st. rewrite E1. destruct v1 as [v1|]; st.
  { exists v1. split; [done|]. split; [split; [congruence|]; by intros (?%H1 & _)|].
    apply check_address_code in E1 as (code & m & -> & ?). done. }
  rewrite E2. destruct v2 as [v2|]; st.
  { exists v2. split; [done|]. split; [split; [congruence|]; by intros (_ & ?%H2 & _)|].
    apply check_auth_code in E2 as ->. lia. }
  eexists. split; [reflexivity|]. rewrite <-H1, <-H2, <-H3.
  destruct (check_leader p c) as [v3|] eqn:E3; cbn; [|done]. split; [split; [congruence|]; by intros (_ & _ & ?)|].
  destruct v3; [apply check_leader_code in E3 as ->; lia|by rewrite <-H1, <-H2|done].
Qed.
End requests.

(** The guard of a server that started. *)
Lemma configureRoutes_basic conf h r h' : configureRoutes conf h = Returns (r, h') →
  AuthMethod conf = AuthMethodBasicAuth → (∃ g, r = Ok g) → is_Some (BasicAuth conf).
Proof.
  unfold configureRoutes. destruct (NewIPList_holds h) as (l & E1 & _). st. rewrite E1. st.
  destruct (add_addresses l (AllowList conf) _) as [[[l'|err] h2]|]; st; [|by intros [= <- <-] _ [? ?]|done].
  unfold configure_auth, basic_users. intros H Hm _. revert H. rewrite Hm. cbn.
  by destruct (BasicAuth conf).
Qed.
Lemma started_guards conf h0 g h : configureRoutes conf h0 = Returns (Ok g, h) → guards conf h g.
Proof.
  intros E1. pose proof (configureRoutes_basic conf h0 (Ok g) h E1) as Hb.
  destruct (configureRoutes_guards conf h0) as [(_ & _ & g' & h' & E2 & Hg)|(_ & err & h' & E2)];
    [intros Hm; apply (Hb Hm); by exists g| |]; rewrite E1 in E2; [|done].
  assert (g = g' ∧ h = h') as [-> ->] by (split; congruence). done.
Qed.

(** the admin server starts just where every entry of the allow list is an
    address or a network, the users are complete, the keys have one place, and
    the method is not JWT; otherwise it refuses the configuration. *)
Theorem configureRoutes_accepts (conf : DGateAdminConfig) (h : nodes IPNet) :
  (AuthMethod conf = AuthMethodBasicAuth → is_Some (BasicAuth conf)) →
  ∃ r h', configureRoutes conf h = Returns (r, h') ∧
    ((∃ g, r = Ok g) ↔
     (∀ a, a ∈ AllowList conf → is_Some (network (entry_of a))) ∧ credentials_fit conf).
Proof.
  intros Hb.
  assert (is_Some (allowed_networks conf) ↔ ∀ a, a ∈ AllowList conf → is_Some (network (entry_of a))) as Hns.
  { unfold allowed_networks. rewrite mapM_is_Some, list.Forall_forall. done. }
  destruct (configureRoutes_guards conf h Hb) as [(Hl & Hc & g & h' & E' & _)|(Hn & err & h' & E')];
    (eexists _, h'; split; [exact E'|]); rewrite <-Hns.
  - split; [done|]. intros _. by exists g.
  - split; [by intros [g [=]]|]. by intros ?%Hn.
Qed.

(** C16: a request passes the guard of the admin API just when the allow list is
    empty or one of its entries contains the address of the client, the user
    gave the last password of that name (with keys, one of the keys), and, where
    raft replicates the changes, this node is the leader or the request changes
    nothing.  Other requests are answered, and the guard does not change.  With
    the method for keys and no keys, or with no method, every client is
    authorised; keys with no method for keys authorise none. *)
Theorem guard_passes {E : Externals} {R : Runtime} {Any : Type} {C : Encoding E Any} {S : Type}
    {St : Storage S} {X : ProxyEnv E Any} {N : NodeEnv} (debug : bool) (conf : DGateAdminConfig)
    (g : guard) (h0 h : nodes IPNet) (p : @ProxyState E Any S X) (c : call) :
  (AuthMethod conf = AuthMethodBasicAuth → is_Some (BasicAuth conf)) →
  configureRoutes conf h0 = Returns (Ok g, h) →
  ∃ v, through_guard debug conf g p c h = Returns (v, h) ∧
    (v = Passed ↔ address_allowed conf c ∧ authorised conf c ∧ may_change p c).
Proof.
  intros _ E'. destruct (through_guard_ok debug conf g h p c (started_guards conf h0 g h E')) as (v & Hv & H & _).
  by exists v.
Qed.

(** ** Witnesses *)

Definition sample_config : DGateAdminConfig :=
  MkAdminConfig ["10.1.0.0/16"; "::1"] 1 "basic" (Some [MkUser "ann" "a"; MkUser "ann" "b"]) None.

Lemma configureRoutes_accepts_witness : ∃ g h, configureRoutes sample_config ∅ = Returns (Ok g, h).
Proof.
  destruct (configureRoutes_accepts sample_config ∅) as (r & h & E' & H).
  - intros _. by eexists.
  - destruct (proj2 H) as [g ->]; [|by exists g, h]. split.
    + intros a Ha. cbn [AllowList sample_config] in Ha.
      apply elem_of_cons in Ha as [->|Ha]; [vm_compute; by eexists|].
      apply elem_of_cons in Ha as [->|Ha]; [vm_compute; by eexists|]. by apply elem_of_nil in Ha.
    + split; [|by split]. intros _ users [= <-]. by repeat constructor.
Defined.

Section witness.
#[local] Existing Instances text_externals sample_runtime sample_runtime_laws sample_env text_encoding sample_node.

Definition call_of (pass : string) : call :=
  MkCall (MkRequest "admin" "127.0.0.1" ["10.1.2.3"] false "http" "/api/v1/service") "GET"
    (Some ("ann", pass)) (λ _, "") (λ _, "").

(** The last password counts. *)
Lemma guard_passes_witness : ∃ g h, configureRoutes sample_config ∅ = Returns (Ok g, h) ∧
  through_guard false sample_config g start_proxy (call_of "b") h = Returns (Passed, h) ∧
  (∃ v, v ≠ Passed ∧ through_guard false sample_config g start_proxy (call_of "a") h = Returns (v, h)).
Proof.
  destruct (configureRoutes sample_config ∅) as [[[g|] h]|] eqn:E';
    [|vm_compute in E'; discriminate E'|vm_compute in E'; discriminate E'].
  exists g, h. split; [reflexivity|]. split.
  - destruct (guard_passes false sample_config g ∅ h start_proxy (call_of "b")) as (v & Hv & H);
      [intros _; by eexists|exact E'|]. rewrite Hv. rewrite (proj2 H); [reflexivity|].
    split; [|split].
    + right. eexists "10.1.2.3", (v4InV6Prefix ++ [10; 1; 2; 3]), "10.1.0.0/16", _. split; [reflexivity|].
      split; [vm_compute; reflexivity|]. split; [by left|]. split; [vm_compute; reflexivity|].
      vm_compute. reflexivity.
    + exists [MkUser "ann" "a"; MkUser "ann" "b"], "ann", "b". split; [reflexivity|]. split; reflexivity.
    + left. reflexivity.
  - destruct (guard_passes false sample_config g ∅ h start_proxy (call_of "a")) as (v & Hv & H);
      [intros _; by eexists|exact E'|]. exists v. split; [|exact Hv]. intros ->.
    destruct (proj1 H eq_refl) as (_ & (users & user & pass & Hu & Hp & Hpass) & _).
    injection Hu as <-. injection Hp as <- <-. vm_compute in Hpass. discriminate Hpass.
Defined.
End witness.
