(* ===== verification/AdminFSM.v ===== *)
(** * internal/admin/admin_fsm.go: the replicated state machine

    Raft gives each node the same logs, in batches that may differ; the
    machine decodes them and has the proxy process them.  The state is that of
    the proxy, which the machine reaches through [cs], and its own: what it
    stores between runs.  hashicorp/raft, its stores and encoding/json of the
    saved state are parameters.  Of a configuration the code only logs the
    servers, but decoding it can panic. *)
From Stdlib Require Import ZArith Lia.
From stdpp Require Import base gmap strings list fin_maps.
From S2P Require Import Prelude Avl SliceUtil Pattern Spec Linker ResourceManager.
From S2P Require Import Storage ProxyStore Scheduler Cache Util Compact ConfigResources.
From S2P Require Import ProxyTransport Proxy RequestContext DynamicProxy ChangeLogs ProxyState.

(** ** Raft's logs and stores *)

Inductive LogType : Type := LogCommand | LogConfiguration | LogOther.
Record Log : Type := MkLog { Log_Type : LogType; Log_Index : Z; Log_Data : string }.

(** [raft.StableStore], the decoding of a configuration, and encoding/json of
    the saved state, where [null] makes the pointer nil. *)
Class RaftEnv (stable : Type) := {
  stable_Get : stable → string → gores string;
  stable_Set : stable → string → string → option error * stable;
  DecodeConfiguration : string → outcome unit;
  marshal_state : option Z → gores string;
  unmarshal_state : string → gores (option Z) }.

Section code.
Context {E : Externals} {R : Runtime} {Any : Type} {C : Encoding E Any} {S : Type}.
Context {St : Storage S} {X : ProxyEnv E Any} {N : NodeEnv} {stable : Type} {RE : RaftEnv stable}.

(** [cs] is nil, or the proxy; [localState] is a pointer to the index. *)
Record AdminFSM : Type := MkFSM { cs : bool; storage : stable; localState : option Z }.

Abbreviation FS := (Run (@ProxyState E Any S X * AdminFSM)).

Definition prev_state : string := "prev_state".
Definition newAdminFSM (storage : stable) : AdminFSM :=
  match stable_Get storage prev_state with
  | Err _ => MkFSM true storage (Some 0)
  | Ok stateBytes =>
      if String.eqb stateBytes "" then MkFSM true storage (Some 0) else
      match unmarshal_state stateBytes with
      | Err _ => MkFSM true storage (Some 0)
      | Ok st => MkFSM true storage st
      end
  end.

Definition get_fsm : FS AdminFSM := '(_, f) ← run_get; mret f.
Definition get_proxy : FS (@ProxyState E Any S X) := '(p, _) ← run_get; mret p.
Definition set_fsm (f : AdminFSM) : FS unit := run_modify (λ '(p, _), (p, f)).

(** [fsm.cs.Raft()] *)
Definition cs_Raft : FS (option bool) :=
  f ← get_fsm; if cs f then p ← get_proxy; mret (Raft p) else run_panic nil_deref.
Definition empty_id : error := "change log ID is empty".

Definition applyLog (now : Z) (log : Log) (reload : bool) : FS (option (ChangeLog Any) * option error) :=
  match Log_Type log with
  | LogCommand =>
      match unmarshal_log (Log_Data log) with
      | Err err => mret (None, Some err)
      | Ok cl =>
          if String.eqb (ID cl) "" then mret (None, Some empty_id)
          else if IsNoop (Cmd cl) then mret (None, None)
          else f ← get_fsm;
               if cs f then err ← on_proxy (ProcessChangeLog now (Some cl) reload); mret (Some cl, err)
               else run_panic nil_deref
      end
  | LogConfiguration => _ ← lift_outcome (DecodeConfiguration (Log_Data log)); mret (None, None)
  | LogOther => mret (None, None)
  end.

Definition applied_index : FS Z :=
  f ← get_fsm; match localState f with Some i => mret i | None => run_panic nil_deref end.
Definition shouldReload (log : Log) (reload : bool) : FS bool :=
  if reload then i ← applied_index; mret (i <=? Log_Index log) else mret false.

Definition saveFSMState : FS (option error) :=
  f ← get_fsm;
  match marshal_state (localState f) with
  | Err err => mret (Some err)
  | Ok stateBytes =>
      let '(err, storage) := stable_Set (storage f) prev_state stateBytes in
      _ ← set_fsm (MkFSM (cs f) storage (localState f)); mret err
  end.

Fixpoint apply_loop (now : Z) (logs : list Log) : FS (list (option error)) :=
  match logs with
  | [] => mret []
  | log :: rest =>
      reload ← shouldReload log (Nat.eqb (length rest) 0);
      '(_, err) ← applyLog now log reload;
      results ← apply_loop now rest;
      mret (err :: results)
  end.

(** [appliedIndex] is what raft answers. *)
Definition ApplyBatch (now appliedIndex : Z) (logs : list Log) : FS (list (option error)) :=
  rft ← cs_Raft;
  match rft, last logs with
  | None, _ => run_panic nil_deref
  | _, None => run_panic index_range
  | Some _, Some lastLog =>
      results ← apply_loop now logs;
      _ ← (if negb (appliedIndex =? 0) && (appliedIndex <=? Log_Index lastLog) then
             _ ← applied_index;
             f ← get_fsm;
             _ ← set_fsm (MkFSM (cs f) (storage f) (Some (Log_Index lastLog)));
             _ ← saveFSMState; mret tt
           else mret tt);
      mret results
  end.

Definition Apply (now appliedIndex : Z) (log : Log) : FS (option error) :=
  resps ← ApplyBatch now appliedIndex [log];
  match resps with
  | [resp] => mret resp
  | _ => run_panic "apply batch not returning the correct number of responses"
  end.

Definition no_snapshots : error := "snapshots not supported".
Definition Snapshot : FS (gores unit) :=
  f ← get_fsm;
  _ ← set_fsm (MkFSM false (storage f) (localState f));
  mret (Err no_snapshots).
Definition Restore : FS (option error) := mret None.
End code.
