(* ===== verification/AdminFSMTheorems.v ===== *)
(** * What the replicated state machine does

    The resources of a node are a function of the logs that raft committed,
    whatever the batches; but a leader applies each change of its own twice. *)
From Stdlib Require Import ZArith Lia.
From stdpp Require Import base gmap strings list fin_maps.
From S2P Require Import Prelude Avl SliceUtil Pattern Base64 Spec Linker ResourceManager.
From S2P Require Import ResourceLogic ResourceInvariant ResourceProofs ResourceOps ResourceRoutes ResourceSpec ResourceTheorems.
From S2P Require Import Storage ProxyStore Scheduler Cache Util Compact ConfigResources.
From S2P Require Import ProxyTransport Proxy RequestContext DynamicProxy Routing ChangeLogs.
From S2P Require Import ProxyLogic Replay ProxyState ProxyStateTheorems NetIP AdminFSM.

Section proofs.
Context {E : Externals} {R : Runtime} {RL : RuntimeLaws R} {Any : Type} {C : Encoding E Any} {S : Type}.
Context {St : Storage S} {X : ProxyEnv E Any} {N : NodeEnv} {stable : Type} {RE : RaftEnv stable}.
Implicit Types (p q : @ProxyState E Any S X) (cl : ChangeLog Any) (f g : @AdminFSM stable).
Abbreviation applied := (Replay.applied (S := S) (X := X)).
Abbreviation FS := (Run (@ProxyState E Any S X * @AdminFSM stable)).

(** ** What a change does to the resources *)

(** What a reconfiguration does not touch but for the documents. *)
Definition node p := (rm p, changeHash p, changeLogs p, raftEnabled p, ready p, raft p, config p).

Lemma core_node {A} (m : Run _ A) : keeps core m → keeps node m.
Proof. intros Hm p. destruct (Hm p) as [H1 H2]. split; [done|]. unfold core in H2. unfold node. congruence. Qed.
Lemma node_rm {A} (m : Run _ A) : keeps node m → keeps rm m.
Proof. intros Hm p. destruct (Hm p) as [H1 H2]. split; [done|]. unfold node in H2. congruence. Qed.

Lemma reload_node now cl reload : keeps node (reload_proxy now cl reload).
Proof.
  unfold reload_proxy, storeCachedDocuments, on_store.
  repeat first [apply core_node, reconfigureState_quiet | keeps_step].
Qed.
Lemma documents_node doc cl store : keeps node (processDocument doc cl store).
Proof. unfold processDocument, on_action, on_store. keeps. Qed.

Lemma Unlock_rm err : keeps (S := S) (X := X) rm (_ ← Unlock; mret err : Run _ (option error)).
Proof. unfold Unlock. keeps. Qed.
Lemma keep_log_rm now cl err : keeps rm (keep_log now cl err).
Proof. unfold keep_log, on_store. keeps. Qed.
Lemma hash_log_rm cl err : keeps (S := S) (X := X) rm (hash_log cl err).
Proof. unfold hash_log, go_. keeps. Qed.

(** Deferred functions that keep the resources. *)
Lemma deferred_rm d (m : Run (@ProxyState E Any S X) (option error)) p :
  (∀ err, keeps rm (d err)) → rm (deferred d m p).2 = rm (m p).2.
Proof.
  intros Hd. unfold deferred. destruct (m p) as [[err|e|] p1]; [apply Hd| |done].
  destruct (Hd None p1) as [_ H]. by destruct (d None p1) as [[?|?|] p2].
Qed.

Lemma process_rm now cl reload store p x m' : proxyLock p = false → resource_log cl →
  applied cl (rm p) x m' → rm (processChangeLog now (Some cl) reload store p).2 = m'.
Proof.
  intros Hp Hcl Hx. rewrite (process_resource now cl reload store p x m' Hp Hcl Hx). cbv zeta.
  rewrite deferred_rm by apply Unlock_rm.
  assert (∀ b : bool, rm ((if b then deferred (keep_log now cl) else id) (deferred (hash_log cl) (λ q,
      match x with
      | Return None => reload_proxy now cl reload (set_rm m' q)
      | Return (Some err) => (Return (Some err), set_rm m' q)
      | Panic e => (Panic e, set_rm m' q)
      | Block => (Block, set_rm m' q)
      end)) (locked p)).2 = m') as H; [|destruct store; [apply (H true)|apply (H false)]].
  intros b. assert (rm (deferred (hash_log cl) (λ q,
      match x with
      | Return None => reload_proxy now cl reload (set_rm m' q)
      | Return (Some err) => (Return (Some err), set_rm m' q)
      | Panic e => (Panic e, set_rm m' q)
      | Block => (Block, set_rm m' q)
      end) (locked p)).2 = m') as H.
  { rewrite deferred_rm by apply hash_log_rm. destruct x as [[err|]|e|]; [done| |done..].
    by destruct (node_rm _ (reload_node now cl reload) (set_rm m' (locked p))) as [_ ->]. }
  destruct b; [|done]. rewrite deferred_rm by apply keep_log_rm. exact H.
Qed.

Lemma process_other_rm now cl reload store p : proxyLock p = false → IsNoop (Cmd cl) = false →
  ¬ resource_log cl → rm (processChangeLog now (Some cl) reload store p).2 = rm p.
Proof.
  intros Hp Hn Hcl. unfold processChangeLog. go. unfold Lock. rewrite Hp.
  rewrite deferred_rm by apply Unlock_rm. change (rm p) with (rm (set_proxyLock true p)).
  assert (keeps rm (apply_change cl store)) as Happ.
  { intros q. unfold apply_change. go. destruct (Command_Resource (Cmd cl)) as [r|e] eqn:Hr; [|done].
    destruct (decide (r = Spec.Documents)) as [->|Hd]; [|destruct Hcl; split; [done|by exists r]].
    go. rewrite String.eqb_refl. revert q. change (keeps (S := S) (X := X) rm (match cl_Item cl with
      | Some i => match decode_document i with
                  | Ok item => processDocument (Some item) cl store
                  | Err err => mret (Some err) end
      | None => processDocument None cl store end)).
    repeat case_match; try apply keeps_ret; apply node_rm, documents_node. }
  unfold process_locked. rewrite Hn. cbn [negb]. rewrite andb_true_r.
  assert (keeps rm (deferred (hash_log cl) (err ← apply_change cl store;
    match err with Some err => mret (Some err) | None => reload_proxy now cl reload end))) as Hbody.
  { apply keeps_deferred; [apply hash_log_rm|]. apply keeps_bind; [done|]. intros [err|]; [apply keeps_ret|].
    apply node_rm, reload_node. }
  destruct store; [|apply Hbody]. apply keeps_deferred; [apply keep_log_rm|exact Hbody].
Qed.

(** The resources after a change depend on those before only. *)
Lemma process_determined now now' cl reload reload' store store' p q :
  proxyLock p = false → proxyLock q = false → IsNoop (Cmd cl) = false → rm p = rm q →
  rm (processChangeLog now (Some cl) reload store p).2 = rm (processChangeLog now' (Some cl) reload' store' q).2.
Proof.
  intros Hp Hq Hn Heq. assert (resource_log cl ∨ ¬ resource_log cl) as [Hcl|Hcl].
  { unfold resource_log. destruct (Command_Resource (Cmd cl)) as [r|e]; [|right; by intros (_ & r & ? & _)].
    destruct (decide (r = Spec.Documents)) as [->|Hd]; [right; intros (_ & r & [= <-] & Hr); by apply Hr|].
    left. split; [done|]. by exists r. }
  - destruct (applied_total cl p) as (x & m' & _ & Hx).
    rewrite (process_rm now cl reload store p x m'), (process_rm now' cl reload' store' q x m'); try done.
    by rewrite <-Heq.
  - by rewrite !process_other_rm.
Qed.

(** ** Batches *)

(** A batch: the clock, raft's applied index, and the logs. *)
Fixpoint run_batches (bs : list (Z * Z * list Log)) : FS (list (option error)) :=
  match bs with
  | [] => mret []
  | (now, applied, logs) :: bs =>
      results ← ApplyBatch now applied logs; rest ← run_batches bs; mret (results ++ rest)
  end.

(** The logs, one after the other. *)
Inductive ran : @ProxyState E Any S X → list Log → @ProxyState E Any S X → Prop :=
  | ran_nil p : ran p [] p
  | ran_cons p now log reload f a p1 logs p2 :
      applyLog now log reload (p, f) = (Return a, (p1, f)) → ran p1 logs p2 → ran p (log :: logs) p2.
Lemma ran_app p logs p1 logs' p2 : ran p logs p1 → ran p1 logs' p2 → ran p (logs ++ logs') p2.
Proof. induction 1; [done|]. intros ?. eapply ran_cons; eauto. Qed.

Lemma get_fsm_unfold p f : get_fsm (p, f) = (Return f, (p, f)).
Proof. unfold get_fsm. by go. Qed.
Lemma get_proxy_unfold p f : get_proxy (p, f) = (Return p, (p, f)).
Proof. unfold get_proxy. by go. Qed.
Lemma set_fsm_unfold p f g : set_fsm g (p, f) = (Return tt, (p, g)).
Proof. unfold set_fsm. by go. Qed.
Lemma on_proxy_unfold {A} (m : Run (@ProxyState E Any S X) A) p f :
  on_proxy m (p, f) = (let '(r, p) := m p in (r, (p, f))).
Proof. unfold on_proxy. by destruct (m p). Qed.
#[local] Hint Rewrite get_fsm_unfold get_proxy_unfold set_fsm_unfold @on_proxy_unfold : run.

Lemma shouldReload_reads log reload p f b s : shouldReload log reload (p, f) = (Return b, s) → s = (p, f).
Proof.
  unfold shouldReload, applied_index. destruct reload; go; [|by intros [= _ <-]].
  destruct (localState f); go; [by intros [= _ <-]|done].
Qed.
Lemma applyLog_fsm now log reload p f a p' f' : applyLog now log reload (p, f) = (Return a, (p', f')) → f' = f.
Proof.
  unfold applyLog. destruct (Log_Type log); go; [|destruct (DecodeConfiguration (Log_Data log)); go; by intros [=]|by intros [=]].
  destruct (unmarshal_log (Log_Data log)) as [cl|err]; go; [|by intros [=]].
  destruct (String.eqb (ID cl) ""); go; [by intros [=]|]. destruct (IsNoop (Cmd cl)); go; [by intros [=]|].
  destruct (cs f); go; [|done]. destruct (ProcessChangeLog now (Some cl) reload p) as [[r|e|] p1]; go; by intros [=].
Qed.

(** A log does the same to the resources of every node. *)
Lemma applyLog_determined now now' log reload reload' p q f g a b p' q' f' g' :
  proxyLock p = false → proxyLock q = false → rm p = rm q →
  applyLog now log reload (p, f) = (Return a, (p', f')) → applyLog now' log reload' (q, g) = (Return b, (q', g')) →
  proxyLock p' = false ∧ proxyLock q' = false ∧ rm p' = rm q'.
Proof.
  intros Hp Hq Heq. unfold applyLog. destruct (Log_Type log); go.
  2: { destruct (DecodeConfiguration (Log_Data log)); go; [|done]. by intros [= _ <- _] [= _ <- _]. }
  2: { by intros [= _ <- _] [= _ <- _]. }
  destruct (unmarshal_log (Log_Data log)) as [cl|err]; go; [|by intros [= _ <- _] [= _ <- _]].
  destruct (String.eqb (ID cl) ""); go; [by intros [= _ <- _] [= _ <- _]|].
  destruct (IsNoop (Cmd cl)) eqn:Hn; go; [by intros [= _ <- _] [= _ <- _]|].
  destruct (cs f); go; [|done]. destruct (cs g); go; [|done]. unfold ProcessChangeLog.
  pose proof (process_determined now now' cl reload reload' true true p q Hp Hq Hn Heq) as Hrm.
  destruct (proj1 (processChangeLog_free now (Some cl) reload true p) Hp) as [_ H1].
  destruct (proj1 (processChangeLog_free now' (Some cl) reload' true q) Hq) as [_ H2].
  destruct (processChangeLog now (Some cl) reload true p) as [[r|e|] p1]; go; [|done..]. intros [= _ <- _].
  destruct (processChangeLog now' (Some cl) reload' true q) as [[r'|e|] q1]; go; [|done..]. by intros [= _ <- _].
Qed.

Lemma ran_determined p logs p' : ran p logs p' → ∀ q q', proxyLock p = false → proxyLock q = false →
  rm p = rm q → ran q logs q' → rm p' = rm q'.
Proof.
  induction 1 as [p|p now log reload f a p1 logs p2 H1 _ IH]; intros q q' Hp Hq Heq Hran.
  { by inversion Hran; subst. }
  inversion Hran as [|? now' ? reload' g b q1 ? ? H2 Hran']; subst.
  destruct (applyLog_determined _ _ _ _ _ _ _ _ _ _ _ _ _ _ _ Hp Hq Heq H1 H2) as (H3 & H4 & H5).
  by apply (IH q1).
Qed.

Lemma apply_loop_ran now logs : ∀ p f rs p' f', apply_loop now logs (p, f) = (Return rs, (p', f')) →
  f' = f ∧ length rs = length logs ∧ ran p logs p'.
Proof.
  induction logs as [|log logs IH]; intros p f rs p' f'; cbn [apply_loop]; go.
  { intros [= <- <- <-]. split; [done|]. split; [done|constructor]. }
  destruct (shouldReload log _ (p, f)) as [[reload|e|] s] eqn:Hs; [|done..].
  apply shouldReload_reads in Hs as ->. go.
  destruct (applyLog now log reload (p, f)) as [[[ocl err]|e|] [p1 f1]] eqn:Ha; [|done..].
  pose proof (applyLog_fsm _ _ _ _ _ _ _ _ Ha) as ->. go.
  destruct (apply_loop now logs (p1, f)) as [[rest|e|] [p2 f2]] eqn:Hl; [|done..]. go. intros [= <- <- <-].
  destruct (IH _ _ _ _ _ Hl) as (-> & Hlen & Hran). split; [done|]. split; [by cbn; rewrite Hlen|].
  by eapply ran_cons.
Qed.

Lemma ApplyBatch_ran now applied logs p f rs p' f' : ApplyBatch now applied logs (p, f) = (Return rs, (p', f')) →
  length rs = length logs ∧ ran p logs p'.
Proof.
  unfold ApplyBatch, cs_Raft. go. destruct (cs f); go; [|done]. destruct (Raft p); go; [|done].
  destruct (last logs) as [lastLog|]; go; [|done].
  destruct (apply_loop now logs (p, f)) as [[rest|e|] [p1 f1]] eqn:Hl; [|done..].
  destruct (apply_loop_ran _ _ _ _ _ _ _ Hl) as (-> & Hlen & Hran). go.
  destruct (negb (applied =? 0) && (applied <=? Log_Index lastLog)); go; [|by intros [= <- <- _]].
  unfold applied_index. go. destruct (localState f); go; [|done].
  unfold saveFSMState. go. destruct (marshal_state _) as [bytes|]; go; [|by intros [= <- <- _]].
  destruct (stable_Set _ _ _). go. by intros [= <- <- _].
Qed.

Lemma run_batches_ran bs : ∀ p f rs p' f', run_batches bs (p, f) = (Return rs, (p', f')) →
  length rs = length (concat bs.*2) ∧ ran p (concat bs.*2) p'.
Proof.
  induction bs as [|[[now applied] logs] bs IH]; intros p f rs p' f'; cbn [run_batches]; go.
  { intros [= <- <- _]. split; [done|constructor]. }
  destruct (ApplyBatch now applied logs (p, f)) as [[r|e|] [p1 f1]] eqn:Ha; [|done..].
  destruct (ApplyBatch_ran _ _ _ _ _ _ _ _ Ha) as [Hlen Hran]. go.
  destruct (run_batches bs (p1, f1)) as [[rest|e|] [p2 f2]] eqn:Hb; [|done..]. go. intros [= <- <- _].
  destruct (IH _ _ _ _ _ Hb) as [Hlen' Hran']. cbn. rewrite !length_app, Hlen, Hlen'. split; [done|].
  by eapply ran_app.
Qed.

(** C2: replication.  Two nodes that start from the same resources and apply
    the same logs end with the same resources, however the logs were split
    into batches, whatever the clocks, the saved indices, and which batches
    reloaded the proxy; each log has one result. *)
Theorem batches_agree bs bs' p q f g rs rs' p' q' f' g' :
  proxyLock p = false → proxyLock q = false → rm p = rm q → concat bs.*2 = concat bs'.*2 →
  run_batches bs (p, f) = (Return rs, (p', f')) → run_batches bs' (q, g) = (Return rs', (q', g')) →
  rm p' = rm q' ∧ length rs = length (concat bs.*2) ∧ length rs' = length (concat bs.*2).
Proof.
  intros Hp Hq Heq Hlogs H1 H2. destruct (run_batches_ran _ _ _ _ _ _ H1) as [Hl1 Hr1].
  destruct (run_batches_ran _ _ _ _ _ _ H2) as [Hl2 Hr2]. rewrite <-Hlogs in Hl2, Hr2.
  split; [|done]. by apply (ran_determined p (concat bs.*2) p' Hr1 q q').
Qed.

(** ** A leader *)

(** The deletions, and what they ask of the resource manager. *)
Inductive deletion cl : op → Prop :=
  | del_namespace ns : Cmd cl = DeleteNamespaceCommand →
      decode decode_namespace (Namespace.mk "" None) (cl_Item cl) = Ok ns →
      deletion cl (OpRemoveNamespace (Namespace.Name ns))
  | del_service s : Cmd cl = DeleteServiceCommand →
      decode decode_service zero_service (cl_Item cl) = Ok s →
      deletion cl (OpRemoveService (Service.Name s) (or_ns (Service.NamespaceName s) cl))
  | del_route r : Cmd cl = DeleteRouteCommand →
      decode decode_route zero_route (cl_Item cl) = Ok r →
      deletion cl (OpRemoveRoute (Route.Name r) (or_ns (Route.NamespaceName r) cl))
  | del_module m : Cmd cl = DeleteModuleCommand →
      decode decode_module zero_module (cl_Item cl) = Ok m →
      deletion cl (OpRemoveModule (Module_.Name m) (or_ns (Module_.NamespaceName m) cl))
  | del_domain d : Cmd cl = DeleteDomainCommand →
      decode decode_domain zero_domain (cl_Item cl) = Ok d →
      deletion cl (OpRemoveDomain (Domain.Name d) (or_ns (Domain.NamespaceName d) cl))
  | del_collection c : Cmd cl = DeleteCollectionCommand →
      decode decode_collection zero_collection (cl_Item cl) = Ok c →
      deletion cl (OpRemoveCollection (Collection.Name c) (or_ns (Collection.NamespaceName c) cl))
  | del_secret s : Cmd cl = DeleteSecretCommand →
      decode decode_secret zero_secret (cl_Item cl) = Ok s →
      deletion cl (OpRemoveSecret (Secret.Name s) (or_ns (Secret.NamespaceName s) cl)).

Lemma deletion_resource cl o : deletion cl o → resource_log cl.
Proof.
  intros Hd. unfold resource_log. destruct Hd as [? -> _|? -> _|? -> _|? -> _|? -> _|? -> _|? -> _];
    (split; [reflexivity|eexists; split; [reflexivity|discriminate]]).
Qed.

Ltac eval_eqb := repeat match goal with
  | |- context [String.eqb ?a ?b] => let v := eval vm_compute in (String.eqb a b) in change (String.eqb a b) with v
  end; cbv iota.

Lemma delete_action cl (add del : Run (@ProxyState E Any S X) (option error)) q :
  Command_Action (Cmd cl) = Returns Spec.Delete → on_action cl add del q = del q.
Proof. intros H. unfold on_action. go. rewrite H. eval_eqb. done. Qed.

(** A deletion runs the removal on the manager. *)
Lemma deletion_removal cl o : deletion cl o → ∃ m : ST ResourceManager (option error),
  exec o = answering AError m ∧ ∀ q, processResource cl q = on_rm m q.
Proof.
  intros Hd.
  destruct Hd as [x Hc Hx|x Hc Hx|x Hc Hx|x Hc Hx|x Hc Hx|x Hc Hx|x Hc Hx]; (eexists; split; [reflexivity|]); intros q;
    unfold processResource; go; rewrite Hc; cbn -[decoded String.eqb]; eval_eqb; unfold decoded; rewrite Hx;
    apply delete_action; by rewrite Hc.
Qed.
Lemma deletion_applied cl o p err m' : deletion cl o →
  exec o (rm p) = Returns (AError err, m') ↔ applied cl (rm p) (Return err) m'.
Proof.
  intros (rmv & Ho & Hq)%deletion_removal. rewrite Ho. unfold answering. st. split.
  - destruct (rmv (rm p)) as [[e r]|] eqn:Hm; [|done]. intros [= -> ->] q Heq. rewrite Hq. unfold on_rm, zoom.
    by rewrite Heq, Hm.
  - intros Ha. specialize (Ha p eq_refl). rewrite Hq in Ha. unfold on_rm, zoom in Ha.
    destruct (rmv (rm p)) as [[e r]|]; [|done]. apply (f_equal (λ s, (s.1, rm s.2))) in Ha. by injection Ha as <- <-.
Qed.

(** ** The second time *)

Lemma absent_links m k key : sound m → rm_dict m !! (k, key) = None → rm_links m k key = 0%nat.
Proof.
  intros (a & Hrel & Ha & _) Hnone. rewrite (rel_links m a k key Hrel). rewrite (rel_dict m a Hrel) in Hnone.
  unfold route_links. destruct (idx a !! (k, key)) as [l|] eqn:Hl; [|done].
  destruct (proj1 (inv_idx_content a k key Ha)) as [r Hr]; [by eexists|]. congruence.
Qed.

Lemma returned_answers m o ans m' : sound m → exec o m = Returns (ans, m') → answers m o.
Proof.
  intros Hm Ho. destruct o; try done. intros Hns.
  destruct (decide (rm_links m KService (path name ns) ≤ 1)%nat) as [|Hgt]; [done|].
  cbn in Ho. unfold answering in Ho. st_in Ho. rewrite RemoveService_stuck in Ho; [done|done|lia|done].
Qed.

(** What a removal removes. *)
Definition removes (o : op) (k : kind) (key : string) : Prop :=
  match o with
  | OpRemoveNamespace ns => k = KNamespace ∧ key = ns
  | OpRemoveService name ns => k = KService ∧ key = path name ns
  | OpRemoveRoute name ns => k = KRoute ∧ key = path name ns
  | OpRemoveModule name ns => k = KModule ∧ key = path name ns
  | OpRemoveDomain name ns => k = KDomain ∧ key = path name ns
  | OpRemoveCollection name ns => k = KCollection ∧ key = path name ns
  | OpRemoveSecret name ns => k = KSecret ∧ key = path name ns
  | _ => False
  end.
Lemma deletion_removes cl o : deletion cl o → ∃ k key, removes o k key.
Proof. destruct 1; by eexists _, _. Qed.

Lemma removal_step m o k key : sound m → removes o k key → answers m o → ∃ err m' ok,
  exec o m = Returns (AError err, m') ∧ sound m' ∧ spec_remove k key ok (rm_dict m) (AError err) (rm_dict m').
Proof.
  intros Hm Hr Ha. assert (allowed o) as Hal by by destruct o.
  destruct (sound_step m o Hm Hal Ha) as (ans & m' & Ho & Hm' & HS).
  destruct o; try done; destruct Hr as [-> ->]; cbn in HS; pose proof HS as (err & -> & _);
    by eexists err, m', _.
Qed.

Lemma removed_twice m o k key m1 : sound m → removes o k key → exec o m = Returns (AError None, m1) →
  ∃ err m2, exec o m1 = Returns (AError (Some err), m2) ∧ rm_dict m2 = rm_dict m1 ∧ sound m1.
Proof.
  intros Hm Hr Ho. destruct (removal_step m o k key Hm Hr (returned_answers m o _ _ Hm Ho))
    as (err & m1' & ok & Ho' & Hm1 & (err' & Herr & _ & HD)).
  assert (err = None ∧ m1' = m1) as [-> ->] by (split; congruence). assert (err' = None) as -> by congruence.
  assert (rm_dict m1 !! (k, key) = None) as Hnone by (rewrite HD; apply lookup_delete_eq).
  destruct (removal_step m1 o k key Hm1 Hr) as (err & m2 & ok' & Ho2 & _ & (err' & Herr' & Hiff & HD')).
  { destruct o; try done. destruct Hr as [-> ->]. intros _. rewrite absent_links by done. lia. }
  destruct err as [err|].
  - exists err, m2. split; [done|]. split; [|done]. injection Herr' as <-. done.
  - exfalso. injection Herr' as <-. destruct (proj1 Hiff eq_refl) as [[? Hs] _]. congruence.
Qed.

(** ** The deletion of a leader *)

(** What a change that is not stored leaves alone. *)
Definition env p := (changeLogs p, raftEnabled p, ready p, raft p, config p).

Lemma frame_keeps {T A} (π : @ProxyState E Any S X → T) (m : Run _ A) :
  (∀ r p, π (set_rm r p) = π p) → rm_frame m → keeps π m.
Proof. intros Hs Hm p. destruct (Hm p) as (x & r & Hx & Hq). rewrite Hq by done. cbn. by rewrite Hs. Qed.
Lemma node_env {A} (m : Run _ A) : keeps node m → keeps env m.
Proof. intros Hm p. destruct (Hm p) as [H1 H2]. split; [done|]. unfold node in H2. unfold env. congruence. Qed.

Lemma unstored_env now cl reload p : proxyLock p = false →
  env (processChangeLog now (Some cl) reload false p).2 = env p.
Proof.
  intros Hp. unfold processChangeLog. go. unfold Lock. rewrite Hp.
  assert (keeps (S := S) (X := X) env (deferred (λ err, _ ← Unlock; mret err) (process_locked now cl reload false))) as H.
  { apply keeps_deferred; [intros err; unfold Unlock; keeps|]. unfold process_locked. cbn [andb].
    assert (keeps env (reload_proxy now cl reload)) as Hr by apply node_env, reload_node.
    destruct (IsNoop (Cmd cl)); [done|].
    apply keeps_deferred; [intros err; unfold hash_log, go_; keeps|]. apply keeps_bind.
    - unfold apply_change. assert (keeps (S := S) (X := X) env (processResource cl)) by by apply frame_keeps, processResource_frame.
      assert (∀ doc, keeps env (processDocument doc cl false)) by (intros; apply node_env, documents_node). keeps.
    - intros [err|]; [apply keeps_ret|done]. }
  destruct (H (set_proxyLock true p)) as [_ ->]. done.
Qed.

Lemma accepted_applied now cl reload store p p1 : proxyLock p = false → resource_log cl →
  processChangeLog now (Some cl) reload store p = (Return None, p1) →
  applied cl (rm p) (Return None) (rm p1) ∧ proxyLock p1 = false.
Proof.
  intros Hp Hcl H. destruct (applied_total cl p) as (x & m' & Hx & Ha).
  pose proof (process_rm now cl reload store p x m' Hp Hcl Ha) as Hm. rewrite H in Hm. cbn in Hm. subst m'.
  destruct (proj1 (processChangeLog_free now (Some cl) reload store p) Hp) as [_ Hl]. rewrite H in Hl.
  split; [|exact Hl]. rewrite (process_resource now cl reload store p x _ Hp Hcl Ha) in H. cbv zeta in H.
  apply deferred_returned in H as (e1 & q1 & H & Hun). revert Hun. go. intros [= -> _].
  assert (∀ e2 q2, deferred (hash_log cl) (λ q,
      match x with
      | Return None => reload_proxy now cl reload (set_rm (rm p1) q)
      | Return (Some err) => (Return (Some err), set_rm (rm p1) q)
      | Panic e => (Panic e, set_rm (rm p1) q)
      | Block => (Block, set_rm (rm p1) q)
      end) (locked p) = (Return e2, q2) → e2 = None → x = Return None) as Hbody.
  { intros e2 q2 Hd ->. apply deferred_returned in Hd as (e3 & q3 & Hd & Hhash).
    apply hash_log_kept in Hhash as [-> _]. destruct x as [[err|]|e|]; [done|done|done|done]. }
  assert (x = Return None) as ->; [|done]. destruct store; [|by eapply Hbody].
  apply deferred_returned in H as (e2 & q2 & H & Hk). apply keep_log_ends in Hk as [-> _]. by eapply Hbody.
Qed.

Lemma restart_waits now p : proxyLock p = false → raftEnabled p = true → changeLogs p ≠ [] →
  InitResources (ProxyConfig_ (config p)) = None → well_formed (changeLogs p) → ∃ p',
  restartState now p = (Block, p') ∧
  ∀ now' ocl reload store, processChangeLog now' ocl reload store p' = (Block, p').
Proof.
  intros Hp Hr Hne Hi Hw. unfold restartState. go. unfold Lock. rewrite Hp. unfold deferred. go.
  destruct (clear_state_ok (set_proxyLock true p)) as (p1 & -> & Hlk & _ & Hraft & Hc & _ & Hlogs).
  cbn in *. go. rewrite Hc, Hi. cbn [initConfigResources]. go.
  assert (restoreFromChangeLogs now true p1 = (Block, p1)) as ->.
  { unfold restoreFromChangeLogs. go. rewrite Hraft, Hr. go. rewrite Hlogs. cbn [andb].
    destruct (Nat.eqb_spec (length (changeLogs p)) 0) as [H0|_]; [by destruct (changeLogs p)|].
    destruct (restore_logs_waits now (changeLogs p) p1 Hlk Hw) as [H|H]; go; rewrite H; [done|].
    go. cbn [negb]. by rewrite processChangeLog_waits. }
  eexists. split; [reflexivity|]. intros. by apply processChangeLog_waits.
Qed.

Lemma deletion_noop cl o : deletion cl o → IsNoop (Cmd cl) = false.
Proof. intros H. apply (deletion_resource cl o H). Qed.

(** The machine applies a change that the manager refuses. *)
Lemma Apply_refused now idx i n p f b cl err m' : proxyLock p = false → is_Some (Raft p) → cs f = true →
  localState f = Some i → unmarshal_log b = Ok cl → ID cl ≠ "" → resource_log cl →
  applied cl (rm p) (Return (Some err)) m' → ∃ f',
  Apply now idx (MkLog LogCommand n b) (p, f) =
    (Return (Some err), (set_started (started p ++ [GoRestartState]) (set_rm m' p), f')).
Proof.
  intros Hp [leads Hr] Hcs Hi Hb Hid Hcl Ha. unfold Apply, ApplyBatch, cs_Raft. go. rewrite Hcs. go. rewrite Hr.
  cbn [last apply_loop length Nat.eqb]. unfold shouldReload, applied_index. go. rewrite Hi. go.
  unfold applyLog. cbn [Log_Type Log_Data]. rewrite Hb, (proj2 (String.eqb_neq _ _) Hid), (proj1 Hcl). go.
  rewrite Hcs. go. unfold ProcessChangeLog.
  rewrite (refused_change_not_kept now cl _ true p m' err) by done. go.
  destruct (negb (idx =? 0) && (idx <=? _)); go; [|by eexists]. rewrite Hi. go.
  unfold saveFSMState. go. destruct (marshal_state _) as [bytes|]; go; [|by eexists].
  destruct (stable_Set _ _ _). go. by eexists.
Qed.

(** C3: on the leader of a cluster that has kept a change log and configures no
    resources, a deletion of one of the manager's seven records hangs the node.  The leader
    applies the change, then raft hands the same log to its state machine,
    which applies it again; the record is gone by then, so the change is
    refused, and a refused change starts a restart of the state.  The restart
    waits for the lock it holds, and from then on so does every change. *)
Theorem leader_deletion_hangs now now' now'' idx i n p p1 f b cl cl' o :
  reachable (rm p) → proxyLock p = false → ready p = true → raftEnabled p = true → raft p = Some true →
  changeLogs p ≠ [] → well_formed (changeLogs p) → InitResources (ProxyConfig_ (config p)) = None →
  cs f = true → localState f = Some i →
  deletion cl o → marshal_log cl = Ok b → unmarshal_log b = Ok cl' → deletion cl' o → ID cl' ≠ "" →
  processChangeLog now (Some cl) true false p = (Return None, p1) →
  ApplyChangeLog now (Some cl) p = (Return (raft_ApplyLog b), p1) ∧
  ∃ err p2 f' p3, Apply now' idx (MkLog LogCommand n b) (p1, f) = (Return (Some err), (p2, f')) ∧
    rm_dict (rm p2) = rm_dict (rm p1) ∧ started p2 = started p1 ++ [GoRestartState] ∧
    restartState now'' p2 = (Block, p3) ∧
    ∀ t ocl reload store, processChangeLog t ocl reload store p3 = (Block, p3).
Proof.
  intros Hreach Hp Hready Hre Hraft Hne Hw Hi Hcs Hls Hd Hb Hb' Hd' Hid H1.
  pose proof (reachable_sound _ Hreach) as Hs. pose proof (unstored_env now cl true p Hp) as Henv. rewrite H1 in Henv.
  unfold env in Henv. cbn in Henv. injection Henv as Hlogs Hre1 _ Hraft1 Hc1.
  destruct (accepted_applied now cl true false p p1 Hp (deletion_resource cl o Hd) H1) as [Ha Hp1].
  destruct (deletion_removes cl o Hd) as (k & key & Hrem).
  split.
  { unfold ApplyChangeLog. go. unfold Ready, Raft. rewrite Hready, Hre, Hraft. cbn [negb]. go. rewrite H1, Hb. by go. }
  pose proof (proj2 (deletion_applied cl o p None (rm p1) Hd) Ha) as Ho.
  destruct (removed_twice (rm p) o k key (rm p1) Hs Hrem Ho) as (err & m2 & Ho2 & Hsame & _).
  pose proof (proj1 (deletion_applied cl' o p1 (Some err) m2 Hd') Ho2) as Ha2.
  destruct (Apply_refused now' idx i n p1 f b cl' err m2) as [f' HA]; try done.
  { unfold Raft. rewrite Hre1, Hre, Hraft1, Hraft. by eexists. }
  { by apply (deletion_resource cl' o). }
  set (p2 := set_started (started p1 ++ [GoRestartState]) (set_rm m2 p1)) in *.
  destruct (restart_waits now'' p2) as (p3 & Hp3 & Hwait); [exact Hp1|exact (eq_trans Hre1 Hre)|..].
  { change (changeLogs p1 ≠ []). congruence. }
  { change (InitResources (ProxyConfig_ (config p1)) = None). congruence. }
  { change (well_formed (changeLogs p1)). congruence. }
  exists err, p2, f', p3. split; [exact HA|]. split; [exact Hsame|]. split; [reflexivity|]. by split.
Qed.

(** ** The hash *)

Lemma keep_log_hash now cl err : keeps (S := S) (X := X) changeHash (keep_log now cl err).
Proof. unfold keep_log, on_store. keeps. Qed.
Lemma node_hash {A} (m : Run _ A) : keeps node m → keeps changeHash m.
Proof. intros Hm p. destruct (Hm p) as [H1 H2]. split; [done|]. unfold node in H2. congruence. Qed.

Lemma accepted_hash now cl reload store p p1 h : proxyLock p = false → resource_log cl →
  HashAny encode_string (changeHash p) [ID cl] = Ok h →
  processChangeLog now (Some cl) reload store p = (Return None, p1) → changeHash p1 = h.
Proof.
  intros Hp Hcl Hh H. destruct (accepted_applied now cl reload store p p1 Hp Hcl H) as [Ha _].
  rewrite (process_resource now cl reload store p _ _ Hp Hcl Ha) in H. cbv zeta in H.
  apply deferred_returned in H as (e1 & q1 & H & Hun). revert Hun. go. intros [= -> <-].
  change (changeHash q1 = h).
  assert (∀ e2 q2, deferred (hash_log cl) (λ q, reload_proxy now cl reload (set_rm (rm (set_proxyLock false q1)) q))
      (locked p) = (Return e2, q2) → e2 = None → changeHash q2 = h) as Hbody.
  { intros e2 q2 Hd ->. apply deferred_returned in Hd as (e3 & q3 & Hd & Hhash).
    destruct (node_hash _ (reload_node now cl reload) (set_rm (rm (set_proxyLock false q1)) (locked p))) as [_ Hkeep].
    rewrite Hd in Hkeep. cbn in Hkeep. destruct e3 as [e3|]; [done|]. revert Hhash. unfold hash_log. go.
    rewrite Hkeep, Hh. go. by intros [= <-]. }
  destruct store; [|by eapply Hbody].
  apply deferred_returned in H as (e2 & q2 & H & Hk). pose proof (keep_log_ends now cl e2 q2 q1 Hk) as [-> _].
  destruct (keep_log_hash now cl None q2) as [_ Hkeep]. rewrite Hk in Hkeep. cbn in Hkeep. rewrite Hkeep.
  by eapply Hbody.
Qed.

(** the hashes of a cluster drift apart.  A change that leader and follower
    accept is hashed once by the follower, and twice by the leader, which
    processes it before raft and after. *)
Theorem leader_hashes_twice now now' now'' reload reload' cl p p1 p2 q q1 h1 h2 :
  proxyLock p = false → proxyLock q = false → resource_log cl → changeHash p = changeHash q →
  HashAny encode_string (changeHash q) [ID cl] = Ok h1 → HashAny encode_string h1 [ID cl] = Ok h2 →
  processChangeLog now (Some cl) true false p = (Return None, p1) →
  ProcessChangeLog now' (Some cl) reload p1 = (Return None, p2) →
  ProcessChangeLog now'' (Some cl) reload' q = (Return None, q1) →
  changeHash q1 = h1 ∧ changeHash p2 = h2.
Proof.
  intros Hp Hq Hcl Heq Hh1 Hh2 H1 H2 H3. split; [by eapply accepted_hash|].
  destruct (accepted_applied now cl true false p p1 Hp Hcl H1) as [_ Hp1].
  eapply (accepted_hash now' cl reload true p1); try done.
  by rewrite (accepted_hash now cl true false p p1 h1 Hp Hcl (eq_trans (f_equal (λ h, HashAny encode_string h [ID cl]) Heq) Hh1) H1).
Qed.
End proofs.

(** ** Witnesses *)

Section witness.
#[local] Existing Instances text_externals sample_runtime sample_runtime_laws sample_env sample_node.

(** A log is its command and its name. *)
Definition named_encoding : Encoding text_externals string := {|
  marshal_log cl := Ok (Cmd cl +:+ "/" +:+ Name cl);
  unmarshal_log b := match cut_slash b with
                     | Some (cmd, name) => Ok (MkChangeLog "1" cmd name "default" (Some name) 1)
                     | None => Err "unexpected end of JSON input"
                     end;
  marshal_doc _ := Err "not a document"; unmarshal_doc _ := Err "not a document";
  ErrKeyNotFound := "Key not found" |}.
#[local] Existing Instance named_encoding.

(** A store of one value. *)
Definition one_value : RaftEnv string := {|
  stable_Get s _ := Ok s; stable_Set _ _ v := (None, v); DecodeConfiguration _ := Returns tt;
  marshal_state _ := Ok "1"; unmarshal_state _ := Ok (Some 1) |}.
#[local] Existing Instance one_value.

Definition log_of (n : Z) (data : string) : Log := MkLog LogCommand n data.
Abbreviation Proxy_ := (@ProxyState text_externals string Mem.MemStore sample_env).

(** A node of a cluster, which has applied a change. *)
Definition member (leads : bool) : Proxy_ :=
  let p := three_namespaces in
  MkProxy (debugMode p) (changeHash p) (config p) (store p) (sharedCache p) false true false (rm p) (skdr p)
    [MkChangeLog "0" AddNamespaceCommand "x" "x" (Some "x") 1] (providers p) (provider_objs p) (pool_objs p) (modPrograms p)
    (routers p) (Some leads) true [] [].
Definition machine : @AdminFSM string := newAdminFSM "".

Lemma batches_agree_witness : ∃ p' q',
  (run_batches [(1, 5, [log_of 1 "delete_namespace/x"; log_of 2 "add_service/s"])] (member false, machine)).2.1 = p' ∧
  (run_batches [(3, 0, [log_of 1 "delete_namespace/x"]); (4, 1, [log_of 2 "add_service/s"])] (member true, machine)).2.1 = q' ∧
  rm p' = rm q' ∧ is_Some (rm_dict (rm p') !! (KService, path "s" "default")).
Proof.
  do 2 eexists. split; [reflexivity|]. split; [reflexivity|]. split; [|vm_compute; by eexists].
  destruct (run_batches [(1, 5, [log_of 1 "delete_namespace/x"; log_of 2 "add_service/s"])] (member false, machine))
    as [x1 [p1 f1]] eqn:E1.
  destruct (run_batches [(3, 0, [log_of 1 "delete_namespace/x"]); (4, 1, [log_of 2 "add_service/s"])] (member true, machine))
    as [x2 [p2 f2]] eqn:E2.
  assert ((run_batches [(1, 5, [log_of 1 "delete_namespace/x"; log_of 2 "add_service/s"])] (member false, machine)).1 =
    Return [None; None]) as H1 by (vm_compute; reflexivity).
  assert ((run_batches [(3, 0, [log_of 1 "delete_namespace/x"]); (4, 1, [log_of 2 "add_service/s"])] (member true, machine)).1 =
    Return [None; None]) as H2 by (vm_compute; reflexivity).
  rewrite E1 in H1. rewrite E2 in H2. cbn [fst] in H1, H2. subst x1 x2.
  eapply (batches_agree _ _ (member false) (member true) machine machine _ _ p1 p2 f1 f2);
    [reflexivity|reflexivity|reflexivity| |exact E1|exact E2]. reflexivity.
Defined.

Definition delete_x : ChangeLog string := MkChangeLog "1" DeleteNamespaceCommand "x" "default" (Some "x") 1.

(** A namespace is deleted on the leader. *)
Lemma leader_deletion_hangs_witness : ∃ p1 err p2 f' p3,
  ApplyChangeLog 1 (Some delete_x) (member true) = (Return None, p1) ∧
  Apply 2 0 (log_of 1 "delete_namespace/x") (p1, machine) = (Return (Some err), (p2, f')) ∧
  restartState 3 p2 = (Block, p3) ∧
  processChangeLog 4 (Some delete_x) true true p3 = (Block, p3).
Proof.
  destruct (processChangeLog 1 (Some delete_x) true false (member true)) as [x p1] eqn:E1.
  assert ((processChangeLog 1 (Some delete_x) true false (member true)).1 = Return None) as H1
    by (vm_compute; reflexivity).
  rewrite E1 in H1. cbn [fst] in H1. subst x.
  assert (deletion delete_x (OpRemoveNamespace "x")) as Hd
    by (apply (del_namespace delete_x (Namespace.mk "x" None)); reflexivity).
  destruct (leader_deletion_hangs 1 2 3 0 0 1 (member true) p1 machine "delete_namespace/x" delete_x delete_x
    (OpRemoveNamespace "x")) as (HA & err & p2 & f' & p3 & HB & _ & _ & HR & HW).
  - exact three_reachable.
  - reflexivity.
  - reflexivity.
  - reflexivity.
  - reflexivity.
  - discriminate.
  - constructor; [|constructor]. eexists. reflexivity.
  - reflexivity.
  - reflexivity.
  - reflexivity.
  - exact Hd.
  - reflexivity.
  - reflexivity.
  - exact Hd.
  - discriminate.
  - exact E1.
  - exists p1, err, p2, f', p3. split; [exact HA|]. split; [exact HB|]. split; [exact HR|]. exact (HW 4 _ true true).
Defined.

Definition add_y : ChangeLog string := MkChangeLog "1" AddNamespaceCommand "y" "default" (Some "y") 1.

Lemma leader_hashes_twice_witness : ∃ p2 q1 : Proxy_,
  (ProcessChangeLog 2 (Some add_y) true (processChangeLog 1 (Some add_y) true false (member true)).2) = (Return None, p2) ∧
  ProcessChangeLog 3 (Some add_y) true (member false) = (Return None, q1) ∧ changeHash p2 ≠ changeHash q1.
Proof.
  destruct (processChangeLog 1 (Some add_y) true false (member true)) as [x1 p1] eqn:E1.
  assert ((processChangeLog 1 (Some add_y) true false (member true)).1 = Return None) as H1 by (vm_compute; reflexivity).
  assert ((ProcessChangeLog 2 (Some add_y) true (processChangeLog 1 (Some add_y) true false (member true)).2).1 = Return None)
    as H2 by (vm_compute; reflexivity).
  assert ((ProcessChangeLog 3 (Some add_y) true (member false)).1 = Return None) as H3 by (vm_compute; reflexivity).
  rewrite E1 in H1, H2. cbn [fst snd] in H1, H2 |- *. subst x1.
  destruct (ProcessChangeLog 2 (Some add_y) true p1) as [x2 p2] eqn:E2.
  destruct (ProcessChangeLog 3 (Some add_y) true (member false)) as [x3 q1] eqn:E3.
  cbn [fst] in H2, H3. subst x2 x3. exists p2, q1. split; [reflexivity|]. split; [reflexivity|].
  destruct (HashAny encode_string (changeHash (member false)) ["1"]) as [h1|] eqn:Eh1;
    [|vm_compute in Eh1; discriminate Eh1].
  destruct (HashAny encode_string h1 ["1"]) as [h2|] eqn:Eh2;
    [|vm_compute in Eh1; injection Eh1 as <-; vm_compute in Eh2; discriminate Eh2].
  destruct (leader_hashes_twice 1 2 3 true true add_y (member true) p1 p2 (member false) q1 h1 h2) as [-> ->].
  - reflexivity.
  - reflexivity.
  - split; [reflexivity|]. exists Spec.Namespaces. split; [reflexivity|discriminate].
  - reflexivity.
  - exact Eh1.
  - exact Eh2.
  - exact E1.
  - exact E2.
  - exact E3.
  - vm_compute in Eh1. injection Eh1 as <-. vm_compute in Eh2. injection Eh2 as <-. discriminate.
Defined.
End witness.
