(* ===== verification/RaftAdmin.v ===== *)
(** * pkg/raftadmin/server.go: raft's administration over HTTP

    A request names a command; the server asks raft, which answers with a
    future, keeps the future under a random token, awaits it and answers.
    hashicorp/raft is a class of operations on a state of its own, encoding/json
    an instance for each record, and the random tokens a sequence.  A future may
    be unresolved, and then awaiting it blocks.  [operations] is a global of the
    package; here it belongs to the one server of a process. *)
From Stdlib Require Import ZArith Lia Ascii.
From stdpp Require Import base gmap strings list fin_maps pretty.
From S2P Require Import Prelude Avl SliceUtil Pattern Spec Linker ResourceManager.
From S2P Require Import Storage ProxyStore Scheduler Cache ConfigResources Proxy Http.

(** ** Types *)

Record AwaitResponse : Type := MkAwait { Await_Index : Z; Await_Error : string }.
Record AddNonvoterRequest : Type := MkAddNonvoter { nv_ID : string; nv_Address : string; nv_PrevIndex : Z }.
Record AddVoterRequest : Type := MkAddVoter { v_ID : string; v_Address : string; v_PrevIndex : Z }.
Record AppliedIndexResponse : Type := MkAppliedIndex { Applied_Index : Z }.
Record ApplyLogRequest : Type := MkApplyLog { al_Data : string; al_Extensions : string }.
Record DemoteVoterRequest : Type := MkDemoteVoter { dv_ID : string; dv_PrevIndex : Z }.
Definition RaftSuffrageVoter : string := "voter".
Definition RaftSuffrageNonvoter : string := "nonvoter".
Record GetConfigurationServer : Type := MkConfServer { cs_Suffrage : string; cs_ID : string; cs_Address : string }.
Record GetConfigurationResponse : Type := MkConfiguration { Servers : list GetConfigurationServer }.
Record LastContactResponse : Type := MkLastContact { UnixNano : Z }.
Record LastIndexResponse : Type := MkLastIndex { Last_Index : Z }.
Record LeaderResponse : Type := MkLeader { Leader_ID : string; Leader_Address : string }.
Record LeadershipTransferToServerRequest : Type := MkTransfer { lt_ID : string; lt_Address : string }.
Record RemoveServerRequest : Type := MkRemoveServer { rs_ID : string; rs_PrevIndex : Z }.
Definition RaftStateLeader : string := "leader".
Definition RaftStateFollower : string := "follower".
Definition RaftStateCandidate : string := "candidate".
Definition RaftStateShutdown : string := "shutdown".
Record StateResponse : Type := MkState { State_Index : Z; State_State : string }.
Record StatsResponse : Type := MkStats { Stats_Stats : gmap string string }.

(** encoding/json of a record. *)
Class JSON (T : Type) := { Encode : T → gores string; Decode : string → gores T }.

Definition newline : string := String (ascii_of_nat 10) "".
(** A record of strings and numbers is encoded; what is encoded decodes to the
    record, with a line break after it too. *)
Class JSONLaw (T : Type) (J : JSON T) : Prop :=
  json_law : ∀ t, ∃ b, Encode t = Ok b ∧ Decode b = Ok t ∧ Decode (b +:+ newline) = Ok t.

(** ** hashicorp/raft *)

Inductive raft_call : Type :=
  | CallAddNonvoter (id address : string) (prevIndex : Z)
  | CallAddVoter (id address : string) (prevIndex : Z)
  | CallBarrier
  | CallDemoteVoter (id : string) (prevIndex : Z)
  | CallLeadershipTransfer
  | CallLeadershipTransferToServer (id address : string)
  | CallRemoveServer (id : string) (prevIndex : Z)
  | CallShutdown
  | CallSnapshot
  | CallVerifyLeader.
Inductive Suffrage : Type := Voter | Nonvoter | Staging | OtherSuffrage (n : Z).
Inductive NodeState : Type := IsFollower | IsCandidate | IsLeader | IsShutdown | OtherState (n : Z).
#[global] Instance NodeState_eq_dec : EqDecision NodeState.
Proof. solve_decision. Defined.
Record raft_server : Type := MkRaftServer { s_ID : string; s_Address : string; s_Suffrage : Suffrage }.

(** [rf_Error] is [None] until the future is resolved; [rf_Index] is there for
    a future of an index. *)
Record raft_future : Type := MkFuture { rf_Error : option (option error); rf_Index : option Z }.

Class RaftNode (Rf : Type) := {
  r_call : raft_call → Z → Rf → raft_future * Rf;
  r_AppliedIndex : Rf → Z;
  r_LastIndex : Rf → Z;
  r_LastContact : Rf → Z;
  r_State : Rf → NodeState;
  r_Leader : Rf → string;
  r_GetConfiguration : Rf → option error * list raft_server;
  r_Stats : Rf → gmap string string;
  rand_token : nat → string;
  Quote : string → string }.

(** A context: the time left, the error once it is done, and whether a select
    takes it when the other case is ready too. *)
Record context : Type := MkContext { deadline : option Z; done_ : option error; wins : bool }.

(** ** The server *)

Definition uint64 (z : Z) : Z := z mod 2 ^ 64.

(** [path.Base] *)
Definition Base (p : string) : string :=
  if String.eqb p "" then "." else default "/" (last (filter (λ e, e ≠ "") (elements p))).

(** [http.Error] and [http.Redirect]; the latter gets an absolute location, and
    the page it writes for GET is left out. *)
Definition Error_ (msg : string) (code : Z) : Response :=
  MkResponse code (Set_ "X-Content-Type-Options" "nosniff" (Set_ "Content-Type" "text/plain; charset=utf-8" ∅))
    (msg +:+ newline).
Definition Redirect_ (url : string) (code : Z) : Response := MkResponse code (Set_ "Location" url ∅) "".

(** What the server reads of a request; [rq_at host] is its URL with that host. *)
Record admin_call : Type := MkCall {
  rq_Path : string; rq_body : gores string; rq_at : string → string; rq_ctx : context }.

Section code.
Context {Rf : Type} {RN : RaftNode Rf}.
Context {J1 : JSON AwaitResponse} {J2 : JSON AddNonvoterRequest} {J3 : JSON AddVoterRequest}.
Context {J4 : JSON AppliedIndexResponse} {J5 : JSON DemoteVoterRequest} {J6 : JSON GetConfigurationResponse}.
Context {J7 : JSON LastContactResponse} {J8 : JSON LastIndexResponse} {J9 : JSON LeaderResponse}.
Context {J10 : JSON LeadershipTransferToServerRequest} {J11 : JSON RemoveServerRequest}.
Context {J12 : JSON StateResponse} {J13 : JSON StatsResponse}.

(** [drawn] counts the tokens. *)
Record Server : Type := MkServer { r : Rf; operations : gmap string raft_future; drawn : nat }.
Abbreviation SV := (Run Server).
Implicit Types (ctx : context) (rq : admin_call).

Definition NewServer (r : Rf) : Server := MkServer r ∅ 0.

Definition unmarshalBody {T} {J : JSON T} rq : gores T :=
  match rq_body rq with Ok buf => Decode buf | Err err => Err err end.
Definition timeout ctx : Z := default 0 (deadline ctx).

(** The token is the future's only field. *)
Definition toFuture (f : raft_future) : SV (gores string) :=
  s ← run_get;
  let token := rand_token (drawn s) in
  _ ← run_modify (λ s, MkServer (r s) (<[token := f]> (operations s)) (S (drawn s)));
  mret (Ok token).
Definition ask (c : raft_call) (time : Z) : SV (gores string) :=
  s ← run_get;
  let '(f, r) := r_call c time (r s) in
  _ ← run_modify (λ s, MkServer r (operations s) (drawn s));
  toFuture f.

Definition forget (token : string) : SV unit :=
  run_modify (λ s, MkServer (r s) (delete token (operations s)) (drawn s)).

Definition exits {A} (x : exit A) : SV A := λ s, (x, s).
Definition awaited ctx (f : raft_future) : exit (gores AwaitResponse) :=
  match done_ ctx, rf_Error f with
  | None, None => Block
  | Some err, None => Return (Err err)
  | done, Some result =>
      match done, wins ctx, result with
      | Some err, true, _ => Return (Err err)
      | _, _, Some err => Return (Ok (MkAwait 0 err))
      | _, _, None => Return (Ok (MkAwait (default 0 (rf_Index f)) ""))
      end
  end.
Definition Await ctx (token : string) : SV (gores AwaitResponse) :=
  s ← run_get;
  resp ← match operations s !! token with
         | None => mret (Err ("token " +:+ Quote token +:+ " unknown"))
         | Some f => exits (awaited ctx f)
         end;
  _ ← forget token;
  mret resp.
Definition Forget (token : string) : SV (gores string) := _ ← forget token; mret (Ok token).

Definition AddNonvoter ctx (req : AddNonvoterRequest) : SV (gores string) :=
  ask (CallAddNonvoter (nv_ID req) (nv_Address req) (uint64 (nv_PrevIndex req))) (timeout ctx).
Definition AddVoter ctx (req : AddVoterRequest) : SV (gores string) :=
  ask (CallAddVoter (v_ID req) (v_Address req) (uint64 (v_PrevIndex req))) (timeout ctx).
Definition AppliedIndex : SV (gores AppliedIndexResponse) :=
  s ← run_get; mret (Ok (MkAppliedIndex (r_AppliedIndex (r s)))).
Definition Barrier ctx : SV (gores string) := ask CallBarrier (timeout ctx).
Definition DemoteVoter ctx (req : DemoteVoterRequest) : SV (gores string) :=
  ask (CallDemoteVoter (dv_ID req) (dv_PrevIndex req)) (timeout ctx).

Fixpoint conf_servers (servers : list raft_server) : gores (list GetConfigurationServer) :=
  match servers with
  | [] => Ok []
  | s :: servers =>
      match match s_Suffrage s with
            | Voter => Ok RaftSuffrageVoter
            | Nonvoter | Staging => Ok RaftSuffrageNonvoter
            | OtherSuffrage n => Err ("unknown server suffrage " +:+ pretty n +:+ " for server " +:+ Quote (s_ID s))
            end with
      | Err err => Err err
      | Ok suffrage =>
          match conf_servers servers with
          | Err err => Err err
          | Ok rest => Ok (MkConfServer suffrage (s_ID s) (s_Address s) :: rest)
          end
      end
  end.
Definition GetConfiguration : SV (gores GetConfigurationResponse) :=
  s ← run_get;
  match r_GetConfiguration (r s) with
  | (Some err, _) => mret (Err err)
  | (None, servers) => mret match conf_servers servers with
                            | Ok servers => Ok (MkConfiguration servers)
                            | Err err => Err err
                            end
  end.
Definition LastContact : SV (gores LastContactResponse) :=
  s ← run_get; mret (Ok (MkLastContact (r_LastContact (r s)))).
Definition LastIndex : SV (gores LastIndexResponse) :=
  s ← run_get; mret (Ok (MkLastIndex (r_LastIndex (r s)))).
Definition CurrentNodeIsLeader : SV bool := s ← run_get; mret (bool_decide (r_State (r s) = IsLeader)).

Definition is_voter (s : raft_server) : bool := match s_Suffrage s with Voter => true | _ => false end.
Definition Leader : SV (gores LeaderResponse) :=
  s ← run_get;
  mret (Ok match List.find (λ v, is_voter v && String.eqb (s_Address v) (r_Leader (r s))) (r_GetConfiguration (r s)).2 with
           | Some v => MkLeader (s_ID v) (s_Address v)
           | None => MkLeader "" (r_Leader (r s))
           end).
Definition LeadershipTransfer : SV (gores string) := ask CallLeadershipTransfer 0.
Definition LeadershipTransferToServer (req : LeadershipTransferToServerRequest) : SV (gores string) :=
  ask (CallLeadershipTransferToServer (lt_ID req) (lt_Address req)) 0.
Definition RemoveServer ctx (req : RemoveServerRequest) : SV (gores string) :=
  ask (CallRemoveServer (rs_ID req) (rs_PrevIndex req)) (timeout ctx).
Definition Shutdown : SV (gores string) := ask CallShutdown 0.
Definition Snapshot : SV (gores string) := ask CallSnapshot 0.
Definition State : SV (gores StateResponse) :=
  s ← run_get;
  mret match r_State (r s) with
       | IsFollower => Ok (MkState 0 RaftStateFollower)
       | IsCandidate => Ok (MkState 0 RaftStateCandidate)
       | IsLeader => Ok (MkState 0 RaftStateLeader)
       | IsShutdown => Ok (MkState 0 RaftStateShutdown)
       | OtherState n => Err ("unknown raft state " +:+ pretty n)
       end.
Definition Stats : SV (gores StatsResponse) := s ← run_get; mret (Ok (MkStats (r_Stats (r s)))).
Definition VerifyLeader : SV (gores string) := ask CallVerifyLeader 0.

(** ** The handler *)

(** [json.NewEncoder(res).Encode(resp)]; an error is logged. *)
Definition json_body {T} {J : JSON T} (t : T) : string :=
  match Encode t with Ok b => b +:+ newline | Err _ => "" end.
Definition genericResponse ctx (token : string) : SV Response :=
  resp ← Await ctx token;
  mret match resp with
       | Err err => Error_ err 500
       | Ok resp =>
           if negb (String.eqb (Await_Error resp) "") then Error_ (Await_Error resp) 400
           else MkResponse 202 (Set_ "X-Raft-Index" (pretty (Await_Index resp)) ∅) (json_body resp)
       end.
Definition respond_future ctx (m : SV (gores string)) : SV Response :=
  f ← m;
  match f with Err err => mret (Error_ err 500) | Ok token => genericResponse ctx token end.
Definition respond_json {T} {J : JSON T} (m : SV (gores T)) : SV Response :=
  resp ← m;
  mret match resp with Err err => Error_ err 500 | Ok resp => MkResponse 200 ∅ (json_body resp) end.
Definition with_json {T} {J : JSON T} rq (k : T → SV (gores string)) : SV Response :=
  match unmarshalBody rq with
  | Err err => mret (Error_ err 400)
  | Ok body => respond_future (rq_ctx rq) (k body)
  end.

Definition cmdRequiresLeader (cmd : string) : bool :=
  negb (existsb (String.eqb cmd)
    ["GetConfiguration"; "AppliedIndex"; "LastContact"; "LastIndex"; "Leader"; "State"; "Stats"]).

Definition run_command rq (cmd : string) : SV Response :=
  let ctx := rq_ctx rq in
  if String.eqb cmd "AddNonvoter" then with_json rq (AddNonvoter ctx)
  else if String.eqb cmd "AddVoter" then with_json rq (AddVoter ctx)
  else if String.eqb cmd "AppliedIndex" then respond_json AppliedIndex
  else if String.eqb cmd "Barrier" then respond_future ctx (Barrier ctx)
  else if String.eqb cmd "DemoteVoter" then with_json rq (DemoteVoter ctx)
  else if String.eqb cmd "GetConfiguration" then respond_json GetConfiguration
  else if String.eqb cmd "LastContact" then respond_json LastContact
  else if String.eqb cmd "LastIndex" then respond_json LastIndex
  else if String.eqb cmd "Leader" then respond_json Leader
  else if String.eqb cmd "LeadershipTransfer" then respond_future ctx LeadershipTransfer
  else if String.eqb cmd "LeadershipTransferToServer" then with_json rq LeadershipTransferToServer
  else if String.eqb cmd "RemoveServer" then with_json rq (RemoveServer ctx)
  else if String.eqb cmd "Shutdown" then respond_future ctx Shutdown
  else if String.eqb cmd "Snapshot" then respond_future ctx Snapshot
  else if String.eqb cmd "State" then respond_json State
  else if String.eqb cmd "Stats" then respond_json Stats
  else if String.eqb cmd "VerifyLeader" then respond_future ctx VerifyLeader
  else mret (Error_ ("unknown command " +:+ Quote cmd) 400).

Definition ServeHTTP rq : SV Response :=
  s ← run_get;
  let cmd := Base (rq_Path rq) in
  if cmdRequiresLeader cmd && negb (bool_decide (r_State (r s) = IsLeader)) then
    let leaderAddr := r_Leader (r s) in
    if String.eqb leaderAddr "" then mret (Error_ "no leader" 503)
    else mret (Redirect_ (rq_at rq leaderAddr) 307)
  else run_command rq cmd.
End code.
