(* ===== verification/RaftClient.v ===== *)
(** * pkg/raftadmin/client.go: asking another node

    The [Doer] is a computation over any world: it answers, and says what it
    left unread of the request's body, because a request that is sent again
    sends the rest.  The parser of URLs in [http.NewRequest] is a parameter. *)
From Stdlib Require Import ZArith Lia Ascii.
From stdpp Require Import base gmap strings list fin_maps pretty.
From S2P Require Import Prelude Avl SliceUtil Pattern Spec Linker ResourceManager.
From S2P Require Import Storage ProxyStore Scheduler Cache ConfigResources Proxy Http RaftAdmin.

Record outgoing : Type := MkOutgoing { o_Method : string; o_URL : string; o_Body : string }.
(** [rp_Status] is the code with its text. *)
Record reply : Type := MkReply { rp_StatusCode : Z; rp_Status : string; rp_Body : string }.

Definition ErrNotLeader : error := "not leader".

Section client.
Context {J1 : JSON AwaitResponse} {J2 : JSON AddNonvoterRequest} {J3 : JSON AddVoterRequest}.
Context {J4 : JSON AppliedIndexResponse} {J5 : JSON DemoteVoterRequest} {J6 : JSON GetConfigurationResponse}.
Context {J7 : JSON LastContactResponse} {J8 : JSON LastIndexResponse} {J9 : JSON LeaderResponse}.
Context {J10 : JSON LeadershipTransferToServerRequest} {J11 : JSON RemoveServerRequest}.
Context {J12 : JSON StateResponse} {J13 : JSON StatsResponse} {J14 : JSON ApplyLogRequest}.
Context {W : Type} (new_request : string → string → option error).
Abbreviation CL := (Run W).
Implicit Types (target : string).

(** A client; [ctx_Err] is the error of the call's context. *)
Record Client : Type := MkClient { do : outgoing → CL (gores reply * string); scheme : string; ctx_Err : W → option error }.
Definition NewClient (doer : outgoing → CL (gores reply * string)) (scheme : string) (ctx_Err : W → option error) : Client :=
  MkClient doer (if String.eqb scheme "" then "http" else scheme) ctx_Err.
Implicit Types (c : Client).

Definition generateUrl c target action : string := scheme c +:+ "://" +:+ target +:+ "/raftadmin/" +:+ action.

(** [RETRY:] with [retriesLeft] of four retries. *)
Fixpoint retry (retriesLeft : nat) c (r : outgoing) : CL (gores reply) :=
  '(res, unread) ← do c r;
  match res with
  | Ok res => mret (Ok res)
  | Err err =>
      match retriesLeft with
      | O => mret (Err err)
      | S retriesLeft =>
          w ← run_get;
          match ctx_Err c w with
          | Some err => mret (Err err)
          | None => retry retriesLeft c (MkOutgoing (o_Method r) (o_URL r) unread)
          end
      end
  end.
Definition clientRetry c (r : outgoing) : CL (gores reply) := retry 4 c r.

Definition send c method target action (body : string) : CL (gores reply) :=
  let url := generateUrl c target action in
  match new_request method url with
  | Some err => mret (Err err)
  | None => clientRetry c (MkOutgoing method url body)
  end.
Definition send_json {T} {J : JSON T} c target action (req : T) : CL (gores reply) :=
  match Encode req with Err err => mret (Err err) | Ok buf => send c "POST" target action buf end.

Definition unexpected (res : reply) : error := "unexpected HTTP status code: " +:+ rp_Status res.
(** With the one code that is expected; and with a redirection told apart. *)
Definition strict {T} {J : JSON T} (code : Z) (res : gores reply) : gores T :=
  match res with
  | Err err => Err err
  | Ok res => if rp_StatusCode res =? code then Decode (rp_Body res) else Err (unexpected res)
  end.
Definition redirected {T} {J : JSON T} (code : Z) (res : gores reply) : gores T :=
  match res with
  | Err err => Err err
  | Ok res => if rp_StatusCode res =? code then Decode (rp_Body res)
              else if rp_StatusCode res =? 307 then Err ErrNotLeader else Err (unexpected res)
  end.

Definition AddNonvoter c target (req : AddNonvoterRequest) : CL (gores AwaitResponse) :=
  res ← send_json c target "AddNonvoter" req; mret (strict 202 res).
Definition AddVoter c target (req : AddVoterRequest) : CL (gores AwaitResponse) :=
  res ← send_json c target "AddVoter" req; mret (strict 202 res).
Definition AppliedIndex c target : CL (gores AppliedIndexResponse) :=
  res ← send c "GET" target "AppliedIndex" ""; mret (strict 200 res).
Definition ApplyLog c target (req : ApplyLogRequest) : CL (gores AwaitResponse) :=
  res ← send_json c target "ApplyLog" req; mret (strict 202 res).
Definition Barrier c target : CL (gores AwaitResponse) :=
  res ← send c "POST" target "Barrier" ""; mret (strict 202 res).
Definition DemoteVoter c target (req : DemoteVoterRequest) : CL (gores AwaitResponse) :=
  res ← send_json c target "DemoteVoter" req; mret (strict 202 res).
Definition GetConfiguration c target : CL (gores GetConfigurationResponse) :=
  res ← send c "GET" target "GetConfiguration" ""; mret (strict 200 res).
Definition LastContact c target : CL (gores LastContactResponse) :=
  res ← send c "GET" target "LastContact" ""; mret (strict 200 res).
Definition LastIndex c target : CL (gores LastIndexResponse) :=
  res ← send c "GET" target "LastIndex" ""; mret (strict 200 res).
Definition Leader c target : CL (gores LeaderResponse) :=
  res ← send c "GET" target "Leader" ""; mret (redirected 200 res).
Definition LeadershipTransfer c target (req : LeadershipTransferToServerRequest) : CL (gores AwaitResponse) :=
  res ← send_json c target "LeadershipTransfer" req; mret (redirected 202 res).
Definition RemoveServer c target (req : RemoveServerRequest) : CL (gores AwaitResponse) :=
  res ← send_json c target "RemoveServer" req; mret (redirected 202 res).
Definition Shutdown c target : CL (gores AwaitResponse) :=
  res ← send c "POST" target "Shutdown" ""; mret (redirected 202 res).
Definition State c target : CL (gores StateResponse) :=
  res ← send c "GET" target "State" ""; mret (redirected 200 res).
Definition Stats c target : CL (gores StatsResponse) :=
  res ← send c "POST" target "Stats" ""; mret (redirected 200 res).
Definition VerifyLeader c target : CL (option error) :=
  res ← send c "POST" target "VerifyLeader" "";
  mret match res with
       | Err err => Some err
       | Ok res => if (rp_StatusCode res =? 200) || (rp_StatusCode res =? 202) then None
                   else if rp_StatusCode res =? 307 then Some ErrNotLeader else Some (unexpected res)
       end.
End client.
