(* ===== verification/RaftAdminTheorems.v ===== *)
(** * Raft's administration: what a command does, from client to raft *)
From Stdlib Require Import ZArith Lia Ascii.
From stdpp Require Import base gmap strings list fin_maps pretty.
From S2P Require Import Prelude Avl SliceUtil Pattern Spec Linker ResourceManager.
From S2P Require Import Storage ProxyStore Scheduler Cache ConfigResources Proxy Http RaftAdmin.

(** ** The server *)

Section server.
Context {Rf : Type} {RN : RaftNode Rf}.
Context {J1 : JSON AwaitResponse} {J2 : JSON AddNonvoterRequest} {J3 : JSON AddVoterRequest}.
Context {J4 : JSON AppliedIndexResponse} {J5 : JSON DemoteVoterRequest} {J6 : JSON GetConfigurationResponse}.
Context {J7 : JSON LastContactResponse} {J8 : JSON LastIndexResponse} {J9 : JSON LeaderResponse}.
Context {J10 : JSON LeadershipTransferToServerRequest} {J11 : JSON RemoveServerRequest}.
Context {J12 : JSON StateResponse} {J13 : JSON StatsResponse}.
Abbreviation SV := (Run (@Server Rf)).
Implicit Types (ctx : context) (rq : admin_call) (s : @Server Rf).

(** [m] does not panic, and when it returns it has left no operation. *)
Definition clean {A} (m : SV A) : Prop := ∀ s,
  match m s with
  | (Return _, s') => operations s = ∅ → operations s' = ∅
  | (Panic _, _) => False
  | (Block, _) => True
  end.
Lemma clean_ret {A} (a : A) : clean (mret a).
Proof. intros s. by change (operations s = ∅ → operations s = ∅). Qed.

(** A command: what raft is asked, and the answer. *)
Lemma respond_future_ask ctx call time s : 
  respond_future ctx (ask call time) s =
    let '(f, r') := r_call call time (r s) in
    let token := rand_token (drawn s) in
    let s' := MkServer r' (<[token := f]> (operations s)) (S (drawn s)) in
    let answer resp := match resp with
      | Err err => Error_ err 500
      | Ok resp => if negb (String.eqb (Await_Error resp) "") then Error_ (Await_Error resp) 400
                   else MkResponse 202 (Set_ "X-Raft-Index" (pretty (Await_Index resp)) ∅) (json_body resp)
      end in
    match awaited ctx f with
    | Return resp => (Return (answer resp), MkServer r' (delete token (operations s)) (S (drawn s)))
    | Panic e => (Panic e, s')
    | Block => (Block, s')
    end.
Proof.
  unfold respond_future, ask, toFuture, genericResponse, Await, forget. go.
  destruct (r_call call time (r s)) as [f r']. go. cbn [r operations drawn].
  rewrite lookup_insert_eq. unfold exits.
  destruct (awaited ctx f) as [resp|e|]; go; [|done|done]. cbn [r operations drawn]. by rewrite delete_insert_eq.
Qed.

Lemma respond_future_clean ctx call time : clean (respond_future ctx (ask call time)).
Proof.
  intros s. rewrite respond_future_ask. destruct (r_call call time (r s)) as [f r']. cbv zeta.
  unfold awaited. destruct (done_ ctx), (rf_Error f) as [[?|]|]; try destruct (wins ctx); try done;
    cbn; intros ->; by rewrite delete_empty.
Qed.
Lemma with_json_clean {T} {J : JSON T} rq call time :
  clean (with_json rq (λ req : T, ask (call req) (time req))).
Proof. unfold with_json. destruct (unmarshalBody rq); [apply respond_future_clean|apply clean_ret]. Qed.
Lemma respond_json_clean {T} {J : JSON T} (f : @Server Rf → gores T) :
  clean (respond_json (s ← run_get; mret (f s))).
Proof. intros s. unfold respond_json. by go. Qed.
Lemma respond_conf_clean : clean (respond_json GetConfiguration).
Proof.
  intros s. unfold respond_json, GetConfiguration. go. destruct (r_GetConfiguration (r s)) as [[err|] servers]; by go.
Qed.

Lemma run_command_clean rq cmd : clean (run_command rq cmd).
Proof.
  unfold run_command, Shutdown, Snapshot, VerifyLeader, LeadershipTransfer, Barrier.
  repeat match goal with |- clean (if ?b then _ else _) => destruct b end;
    first [apply respond_future_clean | apply respond_conf_clean | apply clean_ret
      | apply (respond_json_clean (λ s, Ok (MkAppliedIndex (r_AppliedIndex (r s)))))
      | apply (respond_json_clean (λ s, Ok (MkLastContact (r_LastContact (r s)))))
      | apply (respond_json_clean (λ s, Ok (MkLastIndex (r_LastIndex (r s)))))
      | apply (respond_json_clean (λ s, Ok (MkStats (r_Stats (r s)))))
      | apply respond_json_clean
      | eapply (with_json_clean rq (λ req, CallAddNonvoter _ _ _)) | eapply (with_json_clean rq (λ req, CallAddVoter _ _ _))
      | eapply (with_json_clean rq (λ req, CallDemoteVoter _ _))
      | eapply (with_json_clean rq (λ req, CallLeadershipTransferToServer _ _))
      | eapply (with_json_clean rq (λ req, CallRemoveServer _ _)) ].
Qed.

(** The server leaves no operation behind: whatever a request asks, the
    handler does not panic, and when it answers, the future that it kept under
    a token is gone again. *)
Theorem ServeHTTP_clean rq s : 
  (∀ e s', ServeHTTP rq s ≠ (Panic e, s')) ∧
  (∀ res s', ServeHTTP rq s = (Return res, s') → operations s = ∅ → operations s' = ∅).
Proof.
  assert (clean (ServeHTTP rq)) as H.
  { intros q. unfold ServeHTTP. go. destruct (_ && _); [destruct (String.eqb _ _); by go|apply run_command_clean]. }
  specialize (H s). destruct (ServeHTTP rq s) as [[res|e|] s1]; (split; [by intros|]); [|done..]. by intros ? ? [= _ <-].
Qed.
End server.

(** ** The client *)

From S2P Require Import RaftClient.

Section retry.
Context {W : Type}.

(** The attempts that are made of a script of answers: up to the first that is
    no error, and five at most. *)
Fixpoint attempts {A} (retries : nat) (script : list (gores A * string)) : list (gores A * string) :=
  match script with
  | [] => []
  | (res, unread) :: rest =>
      (res, unread) ::
      match res, retries with Err _, S retries => attempts retries rest | _, _ => [] end
  end.

(** A world that answers from a script, and remembers the bodies. *)
Definition scripted : Type := list (gores reply * string) * list string.
Definition play (o : outgoing) : Run scripted (gores reply * string) := λ '(script, sent),
  match script with
  | [] => (Block, (script, sent))
  | a :: rest => (Return a, (rest, sent ++ [o_Body o]))
  end.

Lemma retry_attempts retries sch method url : ∀ body script sent, (retries < length script)%nat →
  let tried := attempts retries script in
  retry retries (MkClient play sch (λ _, None)) (MkOutgoing method url body) (script, sent) =
    (Return (default (Err "") (last tried.*1)),
     (drop (length tried) script, sent ++ take (length tried) (body :: script.*2))).
Proof.
  induction retries as [|retries IH]; intros body [|[[res|err] unread] script] sent Hlen; cbn in Hlen; try lia;
    cbn [retry attempts do]; go; cbn [play]; go; cbn; [done..|done|].
  destruct script as [|a script]; [cbn in Hlen; lia|]. rewrite IH by (cbn in Hlen |- *; lia).
  cbn [fmap list_fmap take]. rewrite <-app_assoc. do 2 f_equal.
  destruct a as [[res|err'] unread']; cbn; destruct retries; cbn; done.
Qed.
End retry.

(** a request is sent up to the first answer, and five times at most; the
    answer is that of the last attempt.  Each attempt after the first sends
    what the one before left unread of the body: a request whose body was read
    before the connection failed is sent again with an empty body. *)
Theorem clientRetry_attempts sch method url body script : (5 ≤ length script)%nat →
  let tried := attempts 4 script in
  clientRetry (MkClient play sch (λ _, None)) (MkOutgoing method url body) (script, []) =
    (Return (default (Err "") (last tried.*1)), (drop (length tried) script, take (length tried) (body :: script.*2))) ∧
  (1 ≤ length tried ≤ 5)%nat.
Proof.
  intros Hlen. cbv zeta. unfold clientRetry. rewrite retry_attempts by lia. split; [done|].
  do 5 (destruct script as [|[[?|?] ?] script]; [cbn in Hlen; lia|cbn; lia|]). cbn. lia.
Qed.
Lemma clientRetry_attempts_witness :
  clientRetry (MkClient play "http" (λ _, None)) (MkOutgoing "POST" "http://a/raftadmin/AddVoter" "body")
    ([(Err "reset", ""); (Ok (MkReply 202 "202 Accepted" "{}"), ""); (Err "", ""); (Err "", ""); (Err "", "")], []) =
  (Return (Ok (MkReply 202 "202 Accepted" "{}")), ([(Err "", ""); (Err "", ""); (Err "", "")], ["body"; ""])).
Proof. apply (clientRetry_attempts "http" "POST"). cbn. lia. Defined.

(** ** From client to raft *)

Section composition.
Context {Rf : Type} {RN : RaftNode Rf}.
Context {J1 : JSON AwaitResponse} {J2 : JSON AddNonvoterRequest} {J3 : JSON AddVoterRequest}.
Context {J4 : JSON AppliedIndexResponse} {J5 : JSON DemoteVoterRequest} {J6 : JSON GetConfigurationResponse}.
Context {J7 : JSON LastContactResponse} {J8 : JSON LastIndexResponse} {J9 : JSON LeaderResponse}.
Context {J10 : JSON LeadershipTransferToServerRequest} {J11 : JSON RemoveServerRequest}.
Context {J12 : JSON StateResponse} {J13 : JSON StatsResponse} {J14 : JSON ApplyLogRequest}.
Context {L1 : JSONLaw AwaitResponse J1} {L2 : JSONLaw AddNonvoterRequest J2} {L3 : JSONLaw AddVoterRequest J3}.
Context {L5 : JSONLaw DemoteVoterRequest J5} {L10 : JSONLaw LeadershipTransferToServerRequest J10}.
Context {L11 : JSONLaw RemoveServerRequest J11} {L14 : JSONLaw ApplyLogRequest J14}.

(** What lies between: the path of a URL, the same URL on another host, and the
    text of a status. *)
Context (url_Path : string → string) (url_at : string → string → string) (status : Z → string).
Implicit Types (s : @Server Rf) (target : string).

Definition no_deadline : context := MkContext None None false.

(** The server, asked directly: redirections are not followed. *)
Definition direct (o : outgoing) : Run (@Server Rf) (gores reply * string) :=
  res ← ServeHTTP (MkCall (url_Path (o_URL o)) (Ok (o_Body o)) (url_at (o_URL o)) no_deadline);
  mret (Ok (MkReply (StatusCode res) (status (StatusCode res)) (rs_Body res)), "").
Definition client : Client := MkClient direct "http" (λ _, None).
Definition accepts (_ _ : string) : option error := None.

(** The methods of the client that change the cluster, and what they mean. *)
Inductive means : string → (string → Run (@Server Rf) (gores AwaitResponse)) → raft_call → Prop :=
  | means_AddNonvoter req : means "AddNonvoter" (λ t, AddNonvoter accepts client t req)
      (CallAddNonvoter (nv_ID req) (nv_Address req) (uint64 (nv_PrevIndex req)))
  | means_AddVoter req : means "AddVoter" (λ t, AddVoter accepts client t req)
      (CallAddVoter (v_ID req) (v_Address req) (uint64 (v_PrevIndex req)))
  | means_Barrier : means "Barrier" (Barrier accepts client) CallBarrier
  | means_DemoteVoter req : means "DemoteVoter" (λ t, DemoteVoter accepts client t req)
      (CallDemoteVoter (dv_ID req) (dv_PrevIndex req))
  | means_LeadershipTransfer req : means "LeadershipTransfer" (λ t, LeadershipTransfer accepts client t req)
      CallLeadershipTransfer
  | means_RemoveServer req : means "RemoveServer" (λ t, RemoveServer accepts client t req)
      (CallRemoveServer (rs_ID req) (rs_PrevIndex req))
  | means_Shutdown : means "Shutdown" (Shutdown accepts client) CallShutdown.

(** The path of the URLs that the client makes. *)
Definition reaches action target : Prop :=
  Base (url_Path (generateUrl client target action)) = action.

(** The URL is the one of the request in the body of the proof. *)
Lemma clientRetry_direct o s res s' :
  ServeHTTP (MkCall (url_Path (o_URL o)) (Ok (o_Body o)) (url_at (o_URL o)) no_deadline) s = (Return res, s') →
  clientRetry client o s = (Return (Ok (MkReply (StatusCode res) (status (StatusCode res)) (rs_Body res))), s').
Proof. intros H. unfold clientRetry. cbn [retry do client]. go. unfold direct. go. rewrite H. by go. Qed.

Definition answer (err : option error) (idx : option Z) : gores AwaitResponse :=
  match err with
  | None => Ok (MkAwait (default 0 idx) "")
  | Some e => if String.eqb e "" then Ok (MkAwait 0 "")
              else Err ("unexpected HTTP status code: " +:+ status 400)
  end.
Definition settled (call : raft_call) s err idx r' : Prop :=
  r_call call 0 (r s) = (MkFuture (Some err) idx, r').

Lemma settled_response call s err idx r' : settled call s err idx r' → ∃ res,
  respond_future no_deadline (ask call 0) s =
    (Return res, MkServer r' (delete (rand_token (drawn s)) (operations s)) (S (drawn s))) ∧
  strict 202 (Ok (MkReply (StatusCode res) (status (StatusCode res)) (rs_Body res))) = answer err idx ∧
  redirected 202 (Ok (MkReply (StatusCode res) (status (StatusCode res)) (rs_Body res))) = answer err idx.
Proof.
  intros Hs. rewrite respond_future_ask, Hs. cbn [awaited done_ no_deadline rf_Error rf_Index wins].
  assert (∀ a, Decode (json_body a) = Ok (a : AwaitResponse)) as Hjson.
  { intros a. unfold json_body. by destruct (json_law a) as (b & -> & _ & ->). }
  destruct err as [e|]; cbn [Await_Error Await_Index].
  - destruct (String.eqb e "") eqn:He; cbn [negb]; eexists; (split; [reflexivity|]);
      unfold strict, redirected, answer, unexpected; cbn; rewrite ?He, ?Hjson; [|done].
    apply String.eqb_eq in He as ->. done.
  - eexists. split; [reflexivity|]. unfold strict, redirected, answer. cbn. by rewrite Hjson.
Qed.

(** C23: on the leader, a method of the client that changes the cluster asks
    raft once for what its name says, and answers with raft's index; the
    server is left as it was.  When raft refuses, the client learns the status
    only: raft's reason, which is in the body, is lost.  A transfer of the
    leadership to a given server is a transfer to any. *)
Theorem client_asks_raft action m call target s err idx r' : means action m call → reaches action target →
  r_State (r s) = IsLeader → settled call s err idx r' → 
  m target s = (Return (answer err idx), MkServer r' (delete (rand_token (drawn s)) (operations s)) (S (drawn s))).
Proof.
  intros Hm Hr Hl Hs. destruct (settled_response call s err idx r' Hs) as (res & Hres & H1 & H2).
  unfold reaches in Hr.
  destruct Hm; unfold AddNonvoter, AddVoter, Barrier, DemoteVoter, LeadershipTransfer, RemoveServer, Shutdown, send_json;
    try match goal with req : ?T |- context [@Encode ?T ?J ?req] =>
      destruct (json_law req) as (b & Hb & Hd & _); rewrite Hb end;
    unfold send, accepts; go;
    (erewrite clientRetry_direct; [go; rewrite ?H1, ?H2; reflexivity|]);
    unfold ServeHTTP; go; cbn [rq_Path o_URL o_Body]; rewrite Hr, Hl;
    rewrite bool_decide_eq_true_2 by done; rewrite andb_false_r;
    unfold run_command; cbn [String.eqb Ascii.eqb Bool.eqb]; try (unfold with_json, unmarshalBody; cbn [rq_body]; rewrite Hd);
    exact Hres.
Qed.

(** The methods that tell a redirection apart. *)
Definition tells (action : string) : bool := existsb (String.eqb action) ["LeadershipTransfer"; "RemoveServer"; "Shutdown"].

(** A node that does not lead is not changed by the client's commands, and
    its raft is not asked: it sends them to the leader, or answers 503 where
    there is none.  Only three methods report the redirection as the error
    that the callers test for. *)
Theorem client_not_leader action m call target s : means action m call → reaches action target →
  r_State (r s) ≠ IsLeader →
  m target s = (Return (Err (if String.eqb (r_Leader (r s)) "" then "unexpected HTTP status code: " +:+ status 503
                             else if tells action then ErrNotLeader
                             else "unexpected HTTP status code: " +:+ status 307)), s).
Proof.
  intros Hm Hr Hl. unfold reaches in Hr.
  assert (∀ b method, ServeHTTP (MkCall (url_Path (o_URL (MkOutgoing method (generateUrl client target action) b)))
      (Ok b) (url_at (generateUrl client target action)) no_deadline) s =
    (Return (if String.eqb (r_Leader (r s)) "" then Error_ "no leader" 503
             else Redirect_ (url_at (generateUrl client target action) (r_Leader (r s))) 307), s)) as HS.
  { intros b method. unfold ServeHTTP. go. cbn [rq_Path o_URL]. rewrite Hr.
    assert (cmdRequiresLeader action = true) as -> by by destruct Hm.
    rewrite bool_decide_eq_false_2 by done. cbn [negb andb]. by destruct (String.eqb (r_Leader (r s)) ""). }
  destruct Hm; unfold AddNonvoter, AddVoter, Barrier, DemoteVoter, LeadershipTransfer, RemoveServer, Shutdown, send_json;
    try match goal with req : ?T |- context [@Encode ?T ?J ?req] =>
      destruct (json_law req) as (b & Hb & _); rewrite Hb end;
    unfold send, accepts; go;
    (erewrite clientRetry_direct; [|apply HS]); go; by destruct (String.eqb (r_Leader (r s)) "").
Qed.

(** The server has no command for a log: [ApplyLog] of the client fails on
    every leader, without asking raft. *)
Theorem ApplyLog_unknown target req s : reaches "ApplyLog" target → r_State (r s) = IsLeader →
  ApplyLog accepts client target req s = (Return (Err ("unexpected HTTP status code: " +:+ status 400)), s).
Proof.
  intros Hr Hl. unfold ApplyLog, send_json. destruct (json_law req) as (b & -> & _). unfold send, accepts. go.
  erewrite clientRetry_direct.
  2: { unfold ServeHTTP. go. cbn [rq_Path o_URL]. unfold reaches in Hr. rewrite Hr, Hl.
       rewrite bool_decide_eq_true_2, andb_false_r by done. reflexivity. }
  by go.
Qed.
End composition.

(** ** Witnesses *)

Section witness.

(** A raft that leads and counts what it is asked. *)
Definition sample_raft (leads : bool) : RaftNode nat := {|
  r_call c _ n := (MkFuture (Some match c with CallRemoveServer _ _ => Some "cannot remove" | _ => None end) (Some 7), S n);
  r_AppliedIndex _ := 7; r_LastIndex _ := 7; r_LastContact _ := 0;
  r_State _ := if leads then IsLeader else IsFollower; r_Leader _ := "b:9080";
  r_GetConfiguration _ := (None, []); r_Stats _ := ∅; rand_token _ := "t"; Quote s := s |}.

(** Records written in bits, up to the end of the line. *)
Fixpoint of_line (s : string) : positive :=
  match s with
  | EmptyString => xH
  | String c s => if Ascii.eqb c "1" then xI (of_line s) else if Ascii.eqb c "0" then xO (of_line s) else xH
  end.
Lemma of_line_bits p rest : of_line rest = xH → of_line (bits_of p +:+ rest) = p.
Proof.
  intros H. induction p as [p IH|p IH|].
  - change (xI (of_line (bits_of p +:+ rest)) = xI p). by rewrite IH.
  - change (xO (of_line (bits_of p +:+ rest)) = xO p). by rewrite IH.
  - exact H.
Qed.
Lemma of_line_alone p : of_line (bits_of p) = p.
Proof. induction p as [p IH|p IH|]; cbn; by rewrite ?IH. Qed.

Definition bits_json {T U} `{Countable U} (parts : T → U) (make : U → T) : JSON T := {|
  Encode t := Ok (bits_of (encode (parts t)));
  Decode b := match (decode (of_line b) : option U) with Some u => Ok (make u) | None => Err "unexpected token" end |}.
Lemma bits_json_law {T U} `{Countable U} (parts : T → U) (make : U → T) :
  (∀ t, make (parts t) = t) → JSONLaw T (bits_json parts make).
Proof.
  intros Hm t. eexists. split; [reflexivity|]. cbn [Decode bits_json].
  by rewrite (of_line_bits _ newline), of_line_alone, !decode_encode, Hm.
Qed.

#[local] Instance await_json : JSON AwaitResponse :=
  bits_json (λ a, (Await_Index a, Await_Error a)) (λ u, MkAwait u.1 u.2).
#[local] Instance nonvoter_json : JSON AddNonvoterRequest :=
  bits_json (λ a, (nv_ID a, nv_Address a, nv_PrevIndex a)) (λ u, MkAddNonvoter u.1.1 u.1.2 u.2).
#[local] Instance voter_json : JSON AddVoterRequest :=
  bits_json (λ a, (v_ID a, v_Address a, v_PrevIndex a)) (λ u, MkAddVoter u.1.1 u.1.2 u.2).
#[local] Instance demote_json : JSON DemoteVoterRequest :=
  bits_json (λ a, (dv_ID a, dv_PrevIndex a)) (λ u, MkDemoteVoter u.1 u.2).
#[local] Instance transfer_json : JSON LeadershipTransferToServerRequest :=
  bits_json (λ a, (lt_ID a, lt_Address a)) (λ u, MkTransfer u.1 u.2).
#[local] Instance remove_json : JSON RemoveServerRequest :=
  bits_json (λ a, (rs_ID a, rs_PrevIndex a)) (λ u, MkRemoveServer u.1 u.2).
#[local] Instance apply_json : JSON ApplyLogRequest :=
  bits_json (λ a, (al_Data a, al_Extensions a)) (λ u, MkApplyLog u.1 u.2).
#[local] Instance applied_json : JSON AppliedIndexResponse := {| Encode _ := Err ""; Decode _ := Err "" |}.
#[local] Instance conf_json : JSON GetConfigurationResponse := {| Encode _ := Err ""; Decode _ := Err "" |}.
#[local] Instance contact_json : JSON LastContactResponse := {| Encode _ := Err ""; Decode _ := Err "" |}.
#[local] Instance last_json : JSON LastIndexResponse := {| Encode _ := Err ""; Decode _ := Err "" |}.
#[local] Instance leader_json : JSON LeaderResponse := {| Encode _ := Err ""; Decode _ := Err "" |}.
#[local] Instance state_json : JSON StateResponse := {| Encode _ := Err ""; Decode _ := Err "" |}.
#[local] Instance stats_json : JSON StatsResponse := {| Encode _ := Err ""; Decode _ := Err "" |}.
#[local] Instance await_law : JSONLaw AwaitResponse _.
Proof. apply bits_json_law. by intros []. Qed.
#[local] Instance nonvoter_law : JSONLaw AddNonvoterRequest _.
Proof. apply bits_json_law. by intros []. Qed.
#[local] Instance voter_law : JSONLaw AddVoterRequest _.
Proof. apply bits_json_law. by intros []. Qed.
#[local] Instance demote_law : JSONLaw DemoteVoterRequest _.
Proof. apply bits_json_law. by intros []. Qed.
#[local] Instance transfer_law : JSONLaw LeadershipTransferToServerRequest _.
Proof. apply bits_json_law. by intros []. Qed.
#[local] Instance remove_law : JSONLaw RemoveServerRequest _.
Proof. apply bits_json_law. by intros []. Qed.
#[local] Instance apply_law : JSONLaw ApplyLogRequest _.
Proof. apply bits_json_law. by intros []. Qed.

Definition leading : RaftNode nat := sample_raft true.
Definition following : RaftNode nat := sample_raft false.
Definition path_of (url : string) : string := url.
Definition at_host (url host : string) : string := url.
Definition text_of (code : Z) : string := if code =? 400 then "400 Bad Request" else "307 Temporary Redirect".

Abbreviation leader_client := (client (RN := leading) path_of at_host text_of).
Abbreviation follower_client := (client (RN := following) path_of at_host text_of).

(** A voter is added, and a server is not removed. *)
Lemma client_asks_raft_witness :
  AddVoter accepts leader_client "a:9080" (MkAddVoter "n" "n:9080" (-1)) (NewServer 0%nat) =
    (Return (Ok (MkAwait 7 "")), MkServer 1%nat ∅ 1) ∧
  RemoveServer accepts leader_client "a:9080" (MkRemoveServer "n" 0) (NewServer 0%nat) =
    (Return (Err "unexpected HTTP status code: 400 Bad Request"), MkServer 1%nat ∅ 1).
Proof.
  split.
  - exact (client_asks_raft (RN := leading) path_of at_host text_of "AddVoter" _
      (CallAddVoter "n" "n:9080" (2 ^ 64 - 1)) "a:9080" (NewServer 0%nat) None (Some 7) 1%nat
      (means_AddVoter (RN := leading) path_of at_host text_of (MkAddVoter "n" "n:9080" (-1))) eq_refl eq_refl eq_refl).
  - exact (client_asks_raft (RN := leading) path_of at_host text_of "RemoveServer" _
      (CallRemoveServer "n" 0) "a:9080" (NewServer 0%nat) (Some "cannot remove") (Some 7) 1%nat
      (means_RemoveServer (RN := leading) path_of at_host text_of (MkRemoveServer "n" 0)) eq_refl eq_refl eq_refl).
Defined.

Lemma client_not_leader_witness :
  AddVoter accepts follower_client "a:9080" (MkAddVoter "n" "n:9080" 0) (NewServer 0%nat) =
    (Return (Err "unexpected HTTP status code: 307 Temporary Redirect"), NewServer 0%nat) ∧
  Shutdown accepts follower_client "a:9080" (NewServer 0%nat) = (Return (Err ErrNotLeader), NewServer 0%nat).
Proof.
  assert (IsFollower ≠ IsLeader) as Hf by discriminate. split.
  - exact (client_not_leader (RN := following) path_of at_host text_of "AddVoter" _
      (CallAddVoter "n" "n:9080" 0) "a:9080" (NewServer 0%nat)
      (means_AddVoter (RN := following) path_of at_host text_of (MkAddVoter "n" "n:9080" 0)) eq_refl Hf).
  - exact (client_not_leader (RN := following) path_of at_host text_of "Shutdown" _
      CallShutdown "a:9080" (NewServer 0%nat)
      (means_Shutdown (RN := following) path_of at_host text_of) eq_refl Hf).
Defined.

Lemma ApplyLog_unknown_witness :
  ApplyLog accepts leader_client "a:9080" (MkApplyLog "x" "") (NewServer 0%nat) =
    (Return (Err "unexpected HTTP status code: 400 Bad Request"), NewServer 0%nat).
Proof.
  exact (ApplyLog_unknown (RN := leading) path_of at_host text_of "a:9080" (MkApplyLog "x" "") (NewServer 0%nat)
    eq_refl eq_refl).
Defined.

Lemma ServeHTTP_clean_witness : ∃ res s',
  ServeHTTP (RN := leading) (MkCall "/raftadmin/Barrier" (Ok "") (λ _, "") no_deadline) (NewServer 0%nat) = (Return res, s') ∧
  operations s' = ∅.
Proof.
  eexists _, _. split; [vm_compute; reflexivity|].
  exact (proj2 (ServeHTTP_clean (RN := leading) (MkCall "/raftadmin/Barrier" (Ok "") (λ _, "") no_deadline) (NewServer 0%nat))
    _ _ eq_refl eq_refl).
Defined.
End witness.
