(* ===== verification/AdminRaft.v ===== *)
(** * internal/admin/admin_raft.go: entering a cluster

    What [setupRaft] decides once raft runs: to found a cluster, to join one,
    or to go on with the one it knows; and the guard of the administration.
    raft and its stores are outside code.  The joining goroutine asks every
    address whether it leads; its pauses are left out. *)
From Stdlib Require Import ZArith Lia Ascii.
From stdpp Require Import base gmap strings list fin_maps pretty.
From S2P Require Import Prelude Avl SliceUtil Pattern Spec Linker ResourceManager.
From S2P Require Import Storage ProxyStore Scheduler Cache ConfigResources Proxy Http RaftAdmin RaftClient.

Record RaftConfig : Type := MkRaftConfig {
  rc_HeartbeatTimeout : Z; rc_ElectionTimeout : Z; rc_CommitTimeout : Z; rc_SnapshotInterval : Z;
  rc_SnapshotThreshold : Z; rc_MaxAppendEntries : Z; rc_TrailingLogs : Z; rc_LeaderLeaseTimeout : Z }.
Record DGateReplicationConfig : Type := MkReplication {
  RaftID : string;
  SharedKey : string;
  BootstrapCluster : bool;
  DiscoveryDomain : string;
  ClusterAddrs : list string;
  AdvertAddr : string;
  AdvertScheme : string;
  Raft : option RaftConfig }.

(** The rest of the admin configuration that is read here. *)
Record admin_node : Type := MkNode {
  n_Host : string; n_Port : Z; n_WatchOnly : bool; n_Replication : DGateReplicationConfig }.

(** The fields of raft's configuration that are set here. *)
Record raft_config : Type := MkConfig {
  ProtocolVersion : Z; LocalID : string; HeartbeatTimeout : Z; ElectionTimeout : Z; CommitTimeout : Z;
  MaxAppendEntries : Z; TrailingLogs : Z; SnapshotInterval : Z; SnapshotThreshold : Z; LeaderLeaseTimeout : Z }.

(** internal/config/loader.go: what is configured replaces raft's default,
    where it is not zero; raft's checks are a parameter. *)
Definition or_default (configured dflt : Z) : Z := if configured =? 0 then dflt else configured.
Definition when_positive (configured dflt : Z) : Z := if 0 <? configured then uint64 configured else dflt.
Definition merge_config (config : DGateReplicationConfig) (c : RaftConfig) (rc : raft_config) : raft_config :=
  MkConfig (ProtocolVersion rc)
    (if String.eqb (RaftID config) "" then LocalID rc else RaftID config)
    (or_default (rc_HeartbeatTimeout c) (HeartbeatTimeout rc))
    (or_default (rc_ElectionTimeout c) (ElectionTimeout rc))
    (or_default (rc_CommitTimeout c) (CommitTimeout rc))
    (or_default (rc_MaxAppendEntries c) (MaxAppendEntries rc))
    (when_positive (rc_TrailingLogs c) (TrailingLogs rc))
    (or_default (rc_SnapshotInterval c) (SnapshotInterval rc))
    (when_positive (rc_SnapshotThreshold c) (SnapshotThreshold rc))
    (or_default (rc_LeaderLeaseTimeout c) (LeaderLeaseTimeout rc)).
Definition with_protocol (version : Z) (rc : raft_config) : raft_config :=
  MkConfig version (LocalID rc) (HeartbeatTimeout rc) (ElectionTimeout rc) (CommitTimeout rc) (MaxAppendEntries rc)
    (TrailingLogs rc) (SnapshotInterval rc) (SnapshotThreshold rc) (LeaderLeaseTimeout rc).
Definition LoadRaftConfig (DefaultConfig : raft_config) (ProtocolVersionMin ProtocolVersionMax : Z)
    (ValidateConfig : raft_config → option error) (config : DGateReplicationConfig) (defaultConfig : option raft_config)
    : outcome raft_config :=
  let rc := default DefaultConfig defaultConfig in
  let rc := if ProtocolVersion rc =? ProtocolVersionMin then with_protocol ProtocolVersionMax rc else rc in
  let rc := match Raft config with Some c => merge_config config c rc | None => rc end in
  match ValidateConfig rc with Some err => Panics err | None => mret rc end.

(** The name of a node in the cluster is the configured one, with a section for
    raft or without. *)
Lemma LoadRaftConfig_name dflt pmin pmax check config rc rc' : LocalID rc = RaftID config →
  LoadRaftConfig dflt pmin pmax check config (Some rc) = Returns rc' → LocalID rc' = RaftID config.
Proof.
  unfold LoadRaftConfig. cbn. intros Hid. destruct (check _); [done|]. intros [= <-].
  destruct (Raft config); cbn; destruct (_ =? _); cbn; rewrite ?Hid; by destruct (String.eqb (RaftID config) "").
Qed.

(** What is done about the cluster, given how many servers raft knows. *)
Inductive entry_step : Type :=
  | Bootstrap (id address : string)
  | Join
  | Continue.

Definition advert_addr (conf : admin_node) : string :=
  if String.eqb (AdvertAddr (n_Replication conf)) "" then n_Host conf +:+ ":" +:+ pretty (n_Port conf)
  else AdvertAddr (n_Replication conf).
Definition cluster_step (conf : admin_node) (servers : nat) : entry_step :=
  if BootstrapCluster (n_Replication conf) && Nat.eqb servers 0
  then Bootstrap (RaftID (n_Replication conf)) (AdvertAddr (n_Replication conf))
  else if Nat.eqb servers 0 then Join else Continue.

(** [addr\[len(addr)-1\] == '.'] *)
Definition strip_dot (addr : string) : outcome string :=
  match String.get (String.length addr - 1) addr with
  | None => Panics index_range
  | Some c => mret (if Ascii.eqb c "." then String.substring 0 (String.length addr - 1) addr else addr)
  end.

Section join.
Context {W : Type}.
Abbreviation CL := (Run W).

(** The resolver, and the three methods of the client that are called. *)
Context (LookupHost : string → CL (gores (list string))).
Context (VerifyLeader_ : string → CL (option error)).
Context (AddNonvoter_ : string → AddNonvoterRequest → CL (gores AwaitResponse)).
Context (AddVoter_ : string → AddVoterRequest → CL (gores AwaitResponse)).
Implicit Types (conf : admin_node).

Fixpoint discovered (port : Z) (addrs : list string) : outcome (list string) :=
  match addrs with
  | [] => mret []
  | addr :: addrs =>
      addr ← strip_dot addr; rest ← discovered port addrs; mret ((addr +:+ ":" +:+ pretty port) :: rest)
  end.
Definition no_addrs (domain : string) : error := "no addrs found for " +:+ domain.

(** The addresses to ask; those of the configuration are appended twice. *)
Definition join_addresses conf : CL (list string) :=
  let repl := n_Replication conf in
  addresses ← (if negb (String.eqb (DiscoveryDomain repl) "") then
                 r ← LookupHost (DiscoveryDomain repl);
                 match r with
                 | Err err => run_panic err
                 | Ok addrs => if Nat.eqb (length addrs) 0 then run_panic (no_addrs (DiscoveryDomain repl))
                               else lift_outcome (discovered (n_Port conf) addrs)
                 end
               else mret []);
  let addresses := addresses ++ ClusterAddrs repl in
  mret (if Nat.eqb (length addresses) 0 then [] else addresses ++ ClusterAddrs repl).

(** What the leader at [addr] is asked. *)
Definition enroll conf (addr : string) : CL unit :=
  let repl := n_Replication conf in
  resp ← (if n_WatchOnly conf then AddNonvoter_ addr (MkAddNonvoter (RaftID repl) (AdvertAddr repl) 0)
          else AddVoter_ addr (MkAddVoter (RaftID repl) (AdvertAddr repl) 0));
  match resp with
  | Err err => run_panic err
  | Ok resp => if negb (String.eqb (Await_Error resp) "") then run_panic (Await_Error resp) else mret tt
  end.

(** One round over the addresses; [again] is the jump to [RETRY], which is
    possible while there are retries.  The answer is the last error. *)
Fixpoint round conf (again : option (CL (option error))) (addresses : list string) (err : option error)
    : CL (option error) :=
  match addresses with
  | [] => mret err
  | addr :: rest =>
      err ← VerifyLeader_ addr;
      match err with
      | Some e =>
          if String.eqb e ErrNotLeader then round conf again rest err
          else match again with
               | None => round conf again rest err
               | Some again => again
               end
      | None => _ ← enroll conf addr; mret None
      end
  end.
Fixpoint rounds conf (retriesLeft : nat) (addresses : list string) : CL (option error) :=
  match retriesLeft with
  | O => round conf None addresses None
  | S retriesLeft => round conf (Some (rounds conf retriesLeft addresses)) addresses None
  end.

(** The goroutine. *)
Definition join_cluster conf : CL unit :=
  addresses ← join_addresses conf;
  if Nat.eqb (length addresses) 0 then mret tt else
  err ← rounds conf 16 addresses;
  match err with Some err => run_panic err | None => mret tt end.
End join.

(** ** The guard and the client of the administration *)

(** [/raftadmin/*] *)
Definition raftadmin_handler {Server : Type} (conf : admin_node) (key : string) (serve : Run Server Response)
    : Run Server Response :=
  let shared := SharedKey (n_Replication conf) in
  if negb (String.eqb shared "") && negb (String.eqb key shared) then mret (Error_ "Unauthorized" 401) else serve.

(** The headers that the client's requests carry. *)
Definition doer_headers (conf : admin_node) (h : Header) : Header :=
  let h := Set_ "User-Agent" "dgate" h in
  if negb (String.eqb (SharedKey (n_Replication conf)) "")
  then Set_ "X-DGate-Shared-Key" (SharedKey (n_Replication conf)) h else h.

(** A client of the same configuration passes the guard. *)
Lemma shared_key_opens {Server : Type} conf (serve : Run Server Response) :
  raftadmin_handler conf (Get (doer_headers conf ∅) "X-DGate-Shared-Key") serve = serve.
Proof.
  unfold raftadmin_handler, doer_headers.
  destruct (String.eqb_spec (SharedKey (n_Replication conf)) "") as [->|Hne]; cbn [negb]; [done|].
  unfold Get, Values, Set_, Header. rewrite lookup_insert_eq. cbn. by rewrite String.eqb_refl.
Qed.

(** ** Joining *)

Section stable.
Context {W : Type} (v : string → option error).
Context (LookupHost : string → Run W (gores (list string))) (VerifyLeader_ : string → Run W (option error)).
Context (AddNonvoter_ : string → AddNonvoterRequest → Run W (gores AwaitResponse)).
Context (AddVoter_ : string → AddVoterRequest → Run W (gores AwaitResponse)).
Context (Hv : ∀ a w, VerifyLeader_ a w = (Return (v a), w)).
Abbreviation enroll_ := (enroll AddNonvoter_ AddVoter_).
Abbreviation round_ := (round VerifyLeader_ AddNonvoter_ AddVoter_).
Abbreviation rounds_ := (rounds VerifyLeader_ AddNonvoter_ AddVoter_).
Implicit Types (conf : admin_node) (l : list string).

(** What a round comes to: the first leader is asked; without one, the last
    error is the answer. *)
Definition outcome_of conf l (err : option error) : Run W (option error) :=
  match List.find (λ a, bool_decide (v a = None)) l with
  | Some a => _ ← enroll_ conf a; mret None
  | None => mret (default err (v <$> last l))
  end.

Lemma outcome_of_skip conf a l err w : v a ≠ None → outcome_of conf (a :: l) err w = outcome_of conf l (v a) w.
Proof.
  intros Ha. unfold outcome_of. cbn [List.find]. rewrite bool_decide_eq_false_2 by done.
  destruct (List.find _ l) as [b|]; [done|]. rewrite last_cons. by destruct (last l).
Qed.

Lemma outcome_of_app conf pre l w : Forall (λ a, v a ≠ None) pre → ∀ err,
  outcome_of conf (pre ++ l) err w = outcome_of conf l (default err (v <$> last pre)) w.
Proof.
  induction 1 as [|a pre Ha _ IH]; intros err; [done|]. cbn [app]. rewrite outcome_of_skip, IH by done.
  rewrite last_cons. by destruct (last pre).
Qed.

Lemma round_last conf l w : ∀ err, round_ conf None l err w = outcome_of conf l err w.
Proof.
  induction l as [|a l IH]; intros err; cbn [round]; [done|]. go. rewrite Hv.
  destruct (v a) as [e|] eqn:Ha.
  - rewrite outcome_of_skip, Ha by congruence. destruct (String.eqb e ErrNotLeader); apply IH.
  - unfold outcome_of. cbn [List.find]. by rewrite bool_decide_eq_true_2.
Qed.
Lemma round_again conf again l w : again w = outcome_of conf l None w → ∀ l' pre, l = pre ++ l' →
  Forall (λ a, v a ≠ None) pre → round_ conf (Some again) l' (default None (v <$> last pre)) w = outcome_of conf l None w.
Proof.
  intros Hagain. induction l' as [|a l' IH]; intros pre -> Hpre; cbn [round].
  { by rewrite outcome_of_app. }
  go. rewrite Hv. destruct (v a) as [e|] eqn:Ha.
  - destruct (String.eqb e ErrNotLeader); [|done].
    specialize (IH (pre ++ [a])). rewrite last_snoc in IH. cbn in IH. rewrite Ha, <-app_assoc in IH.
    apply IH; [done|]. apply Forall_app. split; [done|]. by constructor; [rewrite Ha|].
  - rewrite outcome_of_app by done. unfold outcome_of. cbn [List.find]. by rewrite bool_decide_eq_true_2.
Qed.
Lemma rounds_outcome conf retries l w : rounds_ conf retries l w = outcome_of conf l None w.
Proof.
  induction retries as [|retries IH]; cbn [rounds]; [apply round_last|].
  by apply (round_again conf _ l w IH l []).
Qed.

End stable.

Lemma find_twice {A} (f : A → bool) l : List.find f (l ++ l) = List.find f l.
Proof.
  assert (∀ l', List.find f (l ++ l') = match List.find f l with Some a => Some a | None => List.find f l' end) as H.
  { intros l'. induction l as [|a l IH]; [done|]. cbn. by destruct (f a). }
  rewrite H. by destruct (List.find f l).
Qed.

(** joining a cluster whose nodes always answer the same when asked whether
    they lead: the node enrolls with the first address that leads, once, and
    panics where none does, with the error of the last address. *)
Theorem join_enrolls {W} (v : string → option error) LookupHost VerifyLeader_ AddNonvoter_ AddVoter_
    (conf : admin_node) (w : W) :
  (∀ a w, VerifyLeader_ a w = (Return (v a), w)) →
  DiscoveryDomain (n_Replication conf) = "" → ClusterAddrs (n_Replication conf) ≠ [] →
  join_cluster LookupHost VerifyLeader_ AddNonvoter_ AddVoter_ conf w =
    match List.find (λ a, bool_decide (v a = None)) (ClusterAddrs (n_Replication conf)),
          last (ClusterAddrs (n_Replication conf)) with
    | Some a, _ => enroll AddNonvoter_ AddVoter_ conf a w
    | None, Some a => (Panic (default "" (v a)), w)
    | None, None => (Return tt, w)
    end.
Proof.
  intros Hv Hd Hne. unfold join_cluster, join_addresses. go. rewrite Hd. cbn [String.eqb negb app].
  destruct (ClusterAddrs (n_Replication conf)) as [|x l] eqn:Hl; [done|]. go. cbn [length Nat.eqb app]. go.
  rewrite (rounds_outcome v VerifyLeader_ AddNonvoter_ AddVoter_ Hv). unfold outcome_of.
  change (x :: l ++ x :: l) with ((x :: l) ++ (x :: l)). rewrite find_twice, last_app_cons.
  destruct (List.find _ (x :: l)) as [a|] eqn:Hf; go; [by destruct (enroll _ _ _ _ _) as [[[]|?|] ?]|].
  rewrite (last_cons x l). destruct (last l) as [y|] eqn:Hy; cbn.
  - assert (v y ≠ None) as Hvy.
    { intros Hvy.
      assert (In y (x :: l)) as Hin by (right; apply list_elem_of_In, last_Some_elem_of; exact Hy).
      pose proof (List.find_none _ _ Hf y Hin) as Hn. cbn in Hn. by rewrite bool_decide_eq_true_2 in Hn. }
    by destruct (v y).
  - pose proof (List.find_none _ _ Hf x ltac:(by left)) as Hn. cbn in Hn. apply bool_decide_eq_false in Hn.
    by destruct (v x).
Qed.

(** ** The number of questions *)

Section script.
Context (AddNonvoter_ : string → AddNonvoterRequest → Run (list (option error)) (gores AwaitResponse)).
Context (AddVoter_ : string → AddVoterRequest → Run (list (option error)) (gores AwaitResponse)).
Context (conf : admin_node).

(** Addresses that answer from a script; enrolling takes nothing from it. *)
Definition ask_next (_ : string) : Run (list (option error)) (option error) := λ script,
  match script with [] => (Block, []) | a :: rest => (Return a, rest) end.
Context (Henroll : ∀ a script, enroll AddNonvoter_ AddVoter_ conf a script = (Return tt, script)).

Lemma round_count again (k : nat) l : ∀ err script,
  match again with
  | Some again => ∀ script, (k ≤ length script)%nat → ∃ err' rest,
      again script = (Return err', rest) ∧ (length script ≤ length rest + k)%nat
  | None => k = 0%nat
  end → (length l + k ≤ length script)%nat → ∃ err' rest,
  round ask_next AddNonvoter_ AddVoter_ conf again l err script = (Return err', rest) ∧
    (length script ≤ length rest + (length l + k))%nat.
Proof.
  induction l as [|a l IH]; intros err script Hagain Hlen; cbn [round length] in *.
  { eexists _, _. split; [reflexivity|]. lia. }
  destruct script as [|[e|] script]; cbn [length] in Hlen; [lia|..]; go; cbn [ask_next]; go.
  - destruct (IH (Some e) script Hagain ltac:(lia)) as (err' & rest & E & H).
    destruct (String.eqb e ErrNotLeader); [exists err', rest; split; [done|cbn; lia]|].
    destruct again as [again|]; [|exists err', rest; split; [done|cbn; lia]].
    destruct (Hagain script ltac:(lia)) as (err2 & rest2 & E2 & H2). exists err2, rest2. split; [done|cbn; lia].
  - rewrite Henroll. go. eexists _, _. split; [reflexivity|]. cbn. lia.
Qed.

Lemma rounds_count l retries : ∀ script, (S retries * length l ≤ length script)%nat → ∃ err rest,
  rounds ask_next AddNonvoter_ AddVoter_ conf retries l script = (Return err, rest) ∧
    (length script ≤ length rest + S retries * length l)%nat.
Proof.
  induction retries as [|retries IH]; intros script Hlen; cbn [rounds].
  - destruct (round_count None 0 l None script) as (err & rest & E & H); [done|lia|].
    exists err, rest. split; [done|lia].
  - destruct (round_count (Some (rounds ask_next AddNonvoter_ AddVoter_ conf retries l)) (S retries * length l) l None script)
      as (err & rest & E & H); [exact IH|lia|]. exists err, rest. split; [done|lia].
Qed.

(** joining ends: whatever the addresses answer, the node asks at most
    seventeen times as often as it has addresses, and then enrolls, gives up
    or panics. *)
Theorem join_ends LookupHost script : DiscoveryDomain (n_Replication conf) = "" →
  (34 * length (ClusterAddrs (n_Replication conf)) ≤ length script)%nat → ∃ x rest,
  join_cluster LookupHost ask_next AddNonvoter_ AddVoter_ conf script = (x, rest) ∧ x ≠ Block ∧
    (length script ≤ length rest + 34 * length (ClusterAddrs (n_Replication conf)))%nat.
Proof.
  intros Hd Hlen. unfold join_cluster, join_addresses. go. rewrite Hd. cbn [String.eqb negb app].
  destruct (ClusterAddrs (n_Replication conf)) as [|x l] eqn:Hl; go; cbn [length Nat.eqb app]; go.
  { eexists _, _. split; [reflexivity|]. split; [done|cbn; lia]. }
  destruct (rounds_count ((x :: l) ++ (x :: l)) 16 script) as (err & rest & E & H).
  { rewrite length_app. lia. }
  cbn [app length] in E |- *. go. rewrite E. rewrite length_app in H. cbn [length] in H.
  destruct err as [e|]; go; (eexists _, _; split; [reflexivity|]; split; [done|lia]).
Qed.
End script.

(** ** Witnesses *)

Definition sample_node (addrs : list string) : admin_node :=
  MkNode "127.0.0.1" 9080 false (MkReplication "n3" "" false "" addrs "c:9080" "http" None).

(** The second address leads. *)
Lemma join_enrolls_witness : ∃ enrolled,
  join_cluster (λ _ _, (Block, [])) (λ a w, (Return (if String.eqb a "b:9080" then None else Some ErrNotLeader), w))
    (λ _ _ _, (Block, [])) (λ a req w, (Return (Ok (MkAwait 1 "")), w ++ [(a, req)]))
    (sample_node ["a:9080"; "b:9080"]) [] = (Return tt, enrolled) ∧
  enrolled = [("b:9080", MkAddVoter "n3" "c:9080" 0)].
Proof.
  eexists. split; [|reflexivity].
  rewrite (join_enrolls (λ a, if String.eqb a "b:9080" then None else Some ErrNotLeader));
    [reflexivity|reflexivity|reflexivity|discriminate].
Defined.

Lemma join_ends_witness : ∃ x rest,
  join_cluster (λ _ _, (Block, [])) ask_next (λ _ _ s, (Return (Ok (MkAwait 1 "")), s))
    (λ _ _ s, (Return (Ok (MkAwait 1 "")), s)) (sample_node ["a:9080"]) (replicate 40 (Some "refused")) = (x, rest) ∧
  x ≠ Block.
Proof.
  destruct (join_ends (λ _ _ s, (Return (Ok (MkAwait 1 "")), s)) (λ _ _ s, (Return (Ok (MkAwait 1 "")), s))
    (sample_node ["a:9080"]) (λ a script, eq_refl) (λ _ _, (Block, [])) (replicate 40 (Some "refused")))
    as (x & rest & E & H & _); [reflexivity|cbn; lia|]. exists x, rest. split; [exact E|exact H].
Defined.
