(* ===== verification/ConfigLoader.v ===== *)
(** * internal/config/loader.go and utils.go: the configuration file

    The configuration is read into koanf's tree of keys, its variables and
    commands are replaced, defaults are set, and what is required is checked;
    then the tree becomes a record.  koanf is a class of operations with laws
    on the keys that do not touch; the files, the shell and the last step are
    parameters.  The two regular expressions of the loader are written out:
    both are deterministic. *)
From Stdlib Require Import ZArith Lia Ascii.
From stdpp Require Import base gmap strings list fin_maps pretty.
From S2P Require Import Prelude Pattern Base64 Http.
Import Pattern.Strings.

(** ** Values *)

(** What a key may hold; [VOther] is any other value, as it is printed. *)
Inductive value : Type :=
  | VNil | VString (s : string) | VInt (z : Z) | VBool (b : bool)
  | VStrings (l : list string) | VList (l : list value) | VOther (printed : string).

Fixpoint value_eqb (a b : value) : bool :=
  match a, b with
  | VNil, VNil => true
  | VString s, VString t => String.eqb s t
  | VInt x, VInt y => x =? y
  | VBool x, VBool y => Bool.eqb x y
  | _, _ => false
  end.

(** [fmt.Sprint], and the verb [%s], which prints an error text for what is no
    string. *)
Definition brackets (l : list string) : string := "[" +:+ String.concat " " l +:+ "]".
Fixpoint Sprint (v : value) : string :=
  match v with
  | VNil => "<nil>" | VString s => s | VInt z => pretty z | VBool b => if b then "true" else "false"
  | VStrings l => brackets l | VList l => brackets (map Sprint l) | VOther s => s
  end.
Fixpoint percent_s (v : value) : string :=
  match v with
  | VNil => "%!s(<nil>)" | VString s => s | VInt z => "%!s(int=" +:+ pretty z +:+ ")"
  | VBool b => "%!s(bool=" +:+ (if b then "true" else "false") +:+ ")"
  | VStrings l => brackets l | VList l => brackets (map percent_s l) | VOther s => s
  end.

Class Koanf (K : Type) := {
  k_New : K;
  k_Get : K → string → value;
  k_Exists : K → string → bool;
  k_Set : string → value → K → K;
  k_All : K → gmap string value;
  (** [Load(confmap.Provider(data, "."), nil)] *)
  k_Load : gmap string value → K → K }.

(** Neither key is on the path to the other. *)
Definition apart (a b : string) : Prop := a ≠ b ∧ HasPrefix b (a +:+ ".") = false ∧ HasPrefix a (b +:+ ".") = false.
Class KoanfLaws {K} (KK : Koanf K) : Prop := {
  (** A map is merged with the one that is there. *)
  get_set k key v : (∀ s, v ≠ VOther s) → k_Get (k_Set key v k) key = v;
  get_set_apart k key key' v : apart key key' → k_Get (k_Set key v k) key' = k_Get k key';
  exists_set_apart k key key' v : apart key key' → k_Exists (k_Set key v k) key' = k_Exists k key';
  get_missing k key : k_Exists k key = false → k_Get k key = VNil;
  exists_new key : k_Exists k_New key = false;
  all_new : k_All k_New = ∅;
  load_nothing k : k_Load ∅ k = k }.

(** ** Variables and commands *)

(** The text before the next [c], and what comes after it; a line break ends
    the search. *)
Fixpoint until (c : ascii) (s : string) : option (string * string) :=
  match s with
  | EmptyString => None
  | String d s =>
      if Ascii.eqb d c then Some ("", s)
      else if Ascii.eqb d (ascii_of_nat 10) then None
      else match until c s with Some (a, b) => Some (String d a, b) | None => None end
  end.
Definition word (c : ascii) : bool := lower_letter c || upper_letter c || between "0" "9" c || Ascii.eqb c "_".
Fixpoint span_word (s : string) : string * string :=
  match s with
  | EmptyString => ("", "")
  | String c s' => if word c then let '(a, b) := span_word s' in (String c a, b) else ("", s)
  end.

(** The groups of a match that have a name. *)
Definition results : Type := gmap string string.
Definition Matcher : Type := string → option (results * string).

(** [\${(?P<var_name>[a-zA-Z0-9_]{1,})(:-(?P<default>.*?)?)?}], at the start. *)
Definition EnvVarRegex : Matcher := λ s,
  match s with
  | String d (String b rest) =>
      if Ascii.eqb d "$" && Ascii.eqb b "{" then
        let '(name, rest) := span_word rest in
        if String.eqb name "" then None else
        match rest with
        | String c rest' =>
            if Ascii.eqb c "}" then Some (<["var_name" := name]> (<["default" := ""]> ∅), rest')
            else match rest' with
                 | String m rest'' =>
                     if Ascii.eqb c ":" && Ascii.eqb m "-" then
                       match until "}" rest'' with
                       | Some (dflt, rest) => Some (<["var_name" := name]> (<["default" := dflt]> ∅), rest)
                       | None => None
                       end
                     else None
                 | EmptyString => None
                 end
        | EmptyString => None
        end
      else None
  | _ => None
  end.
(** [\$\((?P<cmd>.*?)\)] *)
Definition CommandRegex : Matcher := λ s,
  match s with
  | String d (String b rest) =>
      if Ascii.eqb d "$" && Ascii.eqb b "(" then
        match until ")" rest with Some (cmd, rest) => Some ({["cmd" := cmd]}, rest) | None => None end
      else None
  | _ => None
  end.

(** The results of an earlier phase and the panic of this one: [panicVars]. *)
Abbreviation CF := (ST (list string)).
Definition FoundFunc : Type := string → results → CF (gores string).
Definition ErrorFunc : Type := results → error → CF unit.

(** [ReplaceAllStringFunc], from the left; the answer is also whether there was
    a match.  [fuel] is more than the length of the text that is left. *)
Fixpoint replace_from (fuel : nat) (re : Matcher) (found : FoundFunc) (failed : ErrorFunc) (value s : string)
    : CF (string * bool) :=
  match fuel with
  | O => mret (s, false)
  | S fuel =>
      match s with
      | EmptyString => mret ("", false)
      | String c s' =>
          match re s with
          | Some (rs, rest) =>
              r ← found value rs;
              text ← match r with
                     | Ok text => mret text
                     | Err err => _ ← failed rs err; mret ""
                     end;
              '(out, _) ← replace_from fuel re found failed value rest;
              mret (text +:+ out, true)
          | None =>
              '(out, hasMatch) ← replace_from fuel re found failed value s';
              mret (String c out, hasMatch)
          end
      end
  end.
Definition replace_all (re : Matcher) (found : FoundFunc) (failed : ErrorFunc) (value : string) : CF (string * bool) :=
  replace_from (S (String.length value)) re found failed value value.

Fixpoint replace_values (re : Matcher) (found : FoundFunc) (failed : ErrorFunc) (values : list string)
    : CF (list string * bool) :=
  match values with
  | [] => mret ([], false)
  | value :: values =>
      '(value, m) ← (if String.eqb value "" then mret (value, false) else replace_all re found failed value);
      '(values, ms) ← replace_values re found failed values;
      mret (value :: values, m || ms)
  end.

(** The texts of a value; [None] for a value that is left alone. *)
Definition texts_of (v : value) : option (list string) :=
  match v with
  | VString s => Some [s]
  | VStrings l => Some l
  | VList l => Some (Sprint <$> l)
  | _ => None
  end.
(** A list of one text becomes that text. *)
Definition resolve_value (re : Matcher) (found : FoundFunc) (failed : ErrorFunc) (v : value) : CF value :=
  match texts_of v with
  | None | Some [] => mret v
  | Some values =>
      '(values, hasMatch) ← replace_values re found failed values;
      mret (if hasMatch : bool then match values with [value] => VString value | _ => VStrings values end else v)
  end.

Section code.
Context {K : Type} {KK : Koanf K}.

(** The order in which a map is gone through. *)
Context (range_data : gmap string value → list (string * value)).

Fixpoint resolve_entries (re : Matcher) (found : FoundFunc) (failed : ErrorFunc) (entries : list (string * value))
    (data : gmap string value) : CF (gmap string value) :=
  match entries with
  | [] => mret data
  | (k, v) :: entries =>
      v ← resolve_value re found failed v;
      resolve_entries re found failed entries (<[k := v]> data)
  end.
Definition resolveConfigStringPattern (data : gmap string value) (re : Matcher) (found : FoundFunc) (failed : ErrorFunc)
    : CF (gmap string value) :=
  resolve_entries re found failed (range_data data) data.

(** ** Defaults and requirements *)

Definition kDefault (key : string) (v : value) (k : K) : K :=
  if negb (k_Exists k key) || value_eqb (k_Get k key) VNil || value_eqb v (VString "") then k_Set key v k else k.
Fixpoint kRequireAll (k : K) (keys : list string) : option error :=
  match keys with
  | [] => None
  | key :: keys => if negb (k_Exists k key) then Some (key +:+ " is required") else kRequireAll k keys
  end.
Fixpoint kRequireAny_loop (k : K) (keys all : list string) : option error :=
  match keys with
  | [] => Some ("one of " +:+ brackets all +:+ " is required")
  | key :: keys => if k_Exists k key then None else kRequireAny_loop k keys all
  end.
Definition kRequireAny (k : K) (keys : list string) : option error := kRequireAny_loop k keys keys.
Fixpoint kRequireIfExists (k : K) (dependent : string) (targets : list string) : option error :=
  match targets with
  | [] => None
  | target :: targets =>
      if k_Exists k dependent && value_eqb (k_Get k target) (VString "")
      then Some (target +:+ " is required, if " +:+ dependent +:+ " is set")
      else kRequireIfExists k dependent targets
  end.

(** [if err != nil { return nil, err }] *)
Definition required (err : option error) (next : outcome (gores K)) : outcome (gores K) :=
  match err with Some err => mret (Err err) | None => next end.
Definition then_ (m : outcome (gores K)) (next : K → outcome (gores K)) : outcome (gores K) :=
  r ← m; match r with Ok k => next k | Err err => mret (Err err) end.

Definition replication_checks (k : K) : outcome (gores K) :=
  let k := kDefault "admin.replication.raft_id" (k_Get k "node_id") k in
  required (kRequireAll k ["admin.host"]) (
  required (kRequireAll k ["admin.replication.bootstrap_cluster"]) (
  let tls := k_Exists k "admin.tls" in
  let port := k_Get k (if tls then "admin.tls.port" else "admin.port") in
  let address := percent_s (k_Get k "admin.host") +:+ ":" +:+ percent_s port in
  let k := kDefault "admin.replication.advert_address" (VString address) k in
  let k := kDefault "admin.replication.advert_scheme" (VString (if tls then "https" else "http")) k in
  mret (Ok k))).

Definition auth_checks (k : K) : option error :=
  if negb (k_Exists k "admin.auth_method") then None else
  match k_Get k "admin.auth_method" with
  | VNil => None
  | VString m =>
      if String.eqb m "basic" then kRequireAll k ["admin.basic_auth"; "admin.basic_auth.users"]
      else if String.eqb m "key" then kRequireAll k ["admin.key_auth.key"]
      else if String.eqb m "jwt" then
        match kRequireAny k ["admin.jwt_auth.secret"; "admin.jwt_auth.secret_file"] with
        | Some err => Some err
        | None => kRequireAny k ["admin.jwt_auth.header_name"]
        end
      else if String.eqb m "none" || String.eqb m "" then None
      else Some ("admin: invalid auth_method: " +:+ m)
  | v => Some ("admin: invalid auth_method: " +:+ Sprint v)
  end.

Definition admin_checks (k : K) : outcome (gores K) :=
  if negb (k_Exists k "admin") then mret (Ok k) else
  let k := kDefault "admin.host" (VString "127.0.0.1") k in
  let k := kDefault "admin.x_forwarded_for_depth" (VInt (-1)) k in
  required (kRequireAll k ["admin.port"]) (
  required (kRequireIfExists k "admin.tls" ["admin.tls.port"]) (
  then_ (if k_Exists k "admin.replication" then replication_checks k else mret (Ok k)) (λ k,
  required (auth_checks k) (mret (Ok k))))).

Definition h2c_without (k : K) (section : string) : bool :=
  value_eqb (k_Get k (section +:+ ".enable_h2c")) (VBool true) &&
  value_eqb (k_Get k (section +:+ ".enable_http2")) (VBool false).
Definition h2c_error (section : string) : error := section +:+ ": enable_h2c is true but enable_http2 is false".

Definition test_server_checks (k : K) : outcome (gores K) :=
  if negb (k_Exists k "test_server") then mret (Ok k) else
  let k := kDefault "test_server.enable_h2c" (VBool true) k in
  let k := kDefault "test_server.enable_http2" (VBool true) k in
  if h2c_without k "test_server" then Panics (h2c_error "test_server") else mret (Ok k).

Definition storage_checks (k : K) : option error :=
  match kRequireAll k ["storage"; "storage.type"] with
  | Some err => Some err
  | None =>
      if value_eqb (k_Get k "storage.type") (VString "file") then
        match kRequireAll k ["storage.dir"] with
        | Some err => Some ("if storage.type is file, " +:+ err)
        | None => None
        end
      else None
  end.

Definition proxy_defaults (k : K) : K :=
  let k := kDefault "proxy.port" (VInt 80) k in
  let k := kDefault "proxy.enable_h2c" (VBool false) k in
  let k := kDefault "proxy.enable_http2" (VBool false) k in
  kDefault "proxy.console_log_level" (k_Get k "log_level") k.

Definition node_id (getenv : string → string) : string :=
  if String.eqb (getenv "DGATE_NODE_ID") "" then getenv "HOST" else getenv "DGATE_NODE_ID".

(** From the comment that says so, the validation of the configuration. *)
Definition validate (getenv : string → string) (k : K) : outcome (gores K) :=
  let k := kDefault "log_level" (VString "info") k in
  required (kRequireAll k ["version"]) (
  let k := kDefault "node_id" (VString (node_id getenv)) k in
  required (storage_checks k) (
  let k := proxy_defaults k in
  required (if h2c_without k "proxy" then Some (h2c_error "proxy") else None) (
  required (kRequireIfExists k "proxy.tls" ["proxy.tls.port"]) (
  then_ (test_server_checks k) admin_checks)))).

(** ** Loading *)

Inductive parser : Type := JsonParser | TomlParser | YamlParser.
Definition determineParser (configDataType : string) : gores parser :=
  if String.eqb configDataType "json" then Ok JsonParser
  else if String.eqb configDataType "toml" then Ok TomlParser
  else if String.eqb configDataType "yaml" || String.eqb configDataType "yml" then Ok YamlParser
  else Err ("unknown config type: " +:+ configDataType).

Fixpoint map_string (f : ascii → ascii) (s : string) : string :=
  match s with EmptyString => "" | String c s => String (f c) (map_string f s) end.
Definition ToLower : string → string := map_string to_lower.
(** [path.Ext] *)
Fixpoint ext_loop (s ext : string) : string :=
  match s with
  | EmptyString => ext
  | String c s' => ext_loop s' (if Ascii.eqb c "." then s else if Ascii.eqb c "/" then "" else ext)
  end.
Definition Ext (path : string) : string := ext_loop path "".
(** [fileExt\[1:\]] *)
Definition without_dot (ext : string) : string := match ext with String _ s => s | EmptyString => "" end.

Definition blank (c : ascii) : bool := existsb (Ascii.eqb c) (ascii_of_nat <$> [9; 10; 11; 12; 13; 32]%nat).
Fixpoint trim_left (s : string) : string :=
  match s with String c s' => if blank c then trim_left s' else s | EmptyString => "" end.
Fixpoint trim_right (s : string) : string :=
  match s with
  | EmptyString => ""
  | String c s => match trim_right s with
                  | EmptyString => if blank c then "" else String c ""
                  | s => String c s
                  end
  end.
Definition TrimSpace (s : string) : string := trim_right (trim_left s).

Definition EnvVarCheckBool (getenv : string → string) (name : string) : bool :=
  existsb (String.eqb (ToLower (getenv name))) ["true"; "1"; "yes"; "y"].

(** The files, the shell, and the decoding of the tree into the record. *)
Context {Config : Type} (getenv : string → string).
Context (load_file : string → parser → K → gores K) (load_raw : string → option parser → K → gores K).
Context (shell : string → string → gores string) (unmarshal : K → gores Config).

(** The first of the default files that loads; the last error is dropped. *)
Fixpoint load_default (exts : list string) (k : K) : gores K :=
  match exts with
  | [] => Ok k
  | ext :: exts =>
      match determineParser ext with
      | Err err => Err err
      | Ok parser =>
          match load_file ("./config.dgate." +:+ ext) parser k with
          | Ok k => Ok k
          | Err _ => load_default exts k
          end
      end
  end.

Definition parser_name (configDataType : string) : string := configDataType.
Definition config_type (path : string) : gores string :=
  let configDataType := getenv "DG_CONFIG_TYPE" in
  if String.eqb configDataType "" && negb (String.eqb path "") then
    let fileExt := ToLower (Ext path) in
    if String.eqb fileExt "" then Err "no config file extension: set env DG_CONFIG_TYPE to json, toml or yaml"
    else Ok (without_dot fileExt)
  else Ok configDataType.

(** The parser of raw data is the nil one. *)
Definition read_config (dgateConfigPath : string) : gores K :=
  let '(path, data) := if String.eqb dgateConfigPath ""
                       then (getenv "DG_CONFIG_PATH", getenv "DG_CONFIG_DATA") else (dgateConfigPath, "") in
  match config_type path with
  | Err err => Err err
  | Ok type =>
      if negb (String.eqb path "") then
        match determineParser type with
        | Err err => Err err
        | Ok parser =>
            match load_file path parser k_New with
            | Ok k => Ok k
            | Err err => Err ("error loading '" +:+ path +:+ "' with " +:+ parser_name type +:+ " parser: " +:+ err)
            end
        end
      else if negb (String.eqb data "") then
        match StdDecodeString (TrimSpace data) with
        | Err err => Err err
        | Ok configFileData => match load_raw configFileData None k_New with Ok k => Ok k | Err _ => Ok k_New end
        end
      else load_default ["yml"; "yaml"; "json"; "toml"] k_New
  end.

Definition group (rs : results) (name : string) : string := default "" (rs !! name).

Definition command_found : FoundFunc := λ _ rs,
  let sh := if String.eqb (getenv "SHELL") "" then "/bin/sh" else getenv "SHELL" in
  match shell sh (group rs "cmd") with
  | Err err => panicVars ← st_get; _ ← st_put (panicVars ++ [group rs "cmd"]); mret (Err err)
  | Ok out => mret (Ok (TrimSpace out))
  end.
Definition command_failed : ErrorFunc := λ rs err,
  st_panic ("error on command - `" +:+ group rs "cmd" +:+ "`: " +:+ err).
Definition env_found : FoundFunc := λ value rs,
  let envVar := getenv (group rs "var_name") in
  mret (Ok (if negb (String.eqb envVar "") then envVar
            else if Strings.Contains value (group rs "var_name" +:+ ":-") then group rs "default" else "")).
Definition env_failed : ErrorFunc := λ rs _,
  panicVars ← st_get; st_put (panicVars ++ [group rs "var_name"]).

Definition unset_vars (panicVars : list string) : error :=
  "required env vars not set: " +:+ String.concat ", " panicVars.

Definition resolve_commands (k : K) : CF K :=
  if EnvVarCheckBool getenv "DG_DISABLE_SHELL_PARSER" then mret k else
  data ← resolveConfigStringPattern (k_All k) CommandRegex command_found command_failed;
  mret (k_Load data k).
Definition resolve_env (k : K) : CF K :=
  if EnvVarCheckBool getenv "DG_DISABLE_ENV_PARSER" then mret k else
  data ← resolveConfigStringPattern (k_All k) EnvVarRegex env_found env_failed;
  panicVars ← st_get;
  if (0 <? length panicVars)%nat then st_panic (unset_vars panicVars) else mret (k_Load data k).

Definition LoadConfig (dgateConfigPath : string) : outcome (gores Config) :=
  match read_config dgateConfigPath with
  | Err err => mret (Err err)
  | Ok k =>
      '(k, _) ← (k ← resolve_commands k; resolve_env k) [];
      r ← validate getenv k;
      mret match r with Err err => Err err | Ok k => unmarshal k end
  end.
End code.
