(* ===== verification/ConfigLoaderTheorems.v ===== *)
(** * What the loader makes of a configuration *)
From Stdlib Require Import ZArith Lia Ascii.
From stdpp Require Import base gmap strings list fin_maps pretty.
From S2P Require Import Prelude Pattern Base64 Http ConfigLoader.
Import Pattern.Strings.

#[local] Arguments String.append : simpl never.

(** ** Variables *)

(** A text with variables. *)
Inductive part : Type := Lit (s : string) | Var (name : string) | VarOr (name dflt : string).
Definition print_part (p : part) : string :=
  match p with
  | Lit s => s
  | Var name => "${" +:+ name +:+ "}"
  | VarOr name dflt => "${" +:+ name +:+ ":-" +:+ dflt +:+ "}"
  end.
Fixpoint print_parts (ps : list part) : string :=
  match ps with [] => "" | p :: ps => print_part p +:+ print_parts ps end.

Fixpoint all_chars (f : ascii → bool) (s : string) : bool :=
  match s with EmptyString => true | String c s => f c && all_chars f s end.
Definition no_dollar (c : ascii) : bool := negb (Ascii.eqb c "$").
Definition in_braces (c : ascii) : bool := negb (Ascii.eqb c "}") && negb (Ascii.eqb c (ascii_of_nat 10)).
Definition part_ok (p : part) : Prop :=
  match p with
  | Lit s => all_chars no_dollar s = true
  | Var name => name ≠ "" ∧ all_chars word name = true
  | VarOr name dflt => name ≠ "" ∧ all_chars word name = true ∧ all_chars in_braces dflt = true
  end.

(** What the environment makes of it. *)
Definition expand_part (getenv : string → string) (p : part) : string :=
  match p with
  | Lit s => s
  | Var name => getenv name
  | VarOr name dflt => if String.eqb (getenv name) "" then dflt else getenv name
  end.
Fixpoint expand_parts (getenv : string → string) (ps : list part) : string :=
  match ps with [] => "" | p :: ps => expand_part getenv p +:+ expand_parts getenv ps end.
Definition is_var (p : part) : bool := match p with Lit _ => false | _ => true end.

Lemma app_cons c s t : String c s +:+ t = String c (s +:+ t).
Proof. reflexivity. Qed.
Lemma app_nil s : "" +:+ s = s.
Proof. reflexivity. Qed.

Lemma until_app c s rest : all_chars (λ d, negb (Ascii.eqb d c) && negb (Ascii.eqb d (ascii_of_nat 10))) s = true →
  until c (s +:+ String c rest) = Some (s, rest).
Proof.
  induction s as [|d s IH]; cbn [all_chars].
  - intros _. rewrite app_nil. cbn [until]. by rewrite Ascii.eqb_refl.
  - intros [[H1 H2]%andb_true_iff H3]%andb_true_iff. rewrite app_cons. cbn [until].
    apply negb_true_iff in H1, H2. by rewrite H1, H2, IH.
Qed.
Lemma span_word_app s c rest : all_chars word s = true → word c = false →
  span_word (s +:+ String c rest) = (s, String c rest).
Proof.
  intros Hs Hc. induction s as [|d s IH]; cbn [all_chars] in Hs.
  - rewrite app_nil. cbn [span_word]. by rewrite Hc.
  - apply andb_true_iff in Hs as [H1 H2]. rewrite app_cons. cbn [span_word]. by rewrite H1, IH.
Qed.

Lemma EnvVarRegex_literal c s : no_dollar c = true → EnvVarRegex (String c s) = None.
Proof. unfold no_dollar. intros H%negb_true_iff. destruct s as [|d s]; [done|]. cbn [EnvVarRegex]. by rewrite H. Qed.
Definition env_match (name dflt rest : string) : option (results * string) :=
  Some (<["var_name" := name]> (<["default" := dflt]> ∅), rest).
Lemma EnvVarRegex_Var name rest : name ≠ "" → all_chars word name = true →
  EnvVarRegex (print_part (Var name) +:+ rest) = env_match name "" rest.
Proof.
  intros Hne Hw. cbn [print_part]. rewrite <-!string_app_assoc.
  change ("${" +:+ name +:+ "}" +:+ rest) with (String "$" (String "{" (name +:+ String "}" rest))).
  cbn [EnvVarRegex]. rewrite !Ascii.eqb_refl. cbn [andb]. rewrite span_word_app by done.
  rewrite (proj2 (String.eqb_neq name "")) by done. by rewrite Ascii.eqb_refl.
Qed.
Lemma EnvVarRegex_VarOr name dflt rest : name ≠ "" → all_chars word name = true → all_chars in_braces dflt = true →
  EnvVarRegex (print_part (VarOr name dflt) +:+ rest) = env_match name dflt rest.
Proof.
  intros Hne Hw Hd. cbn [print_part]. rewrite <-!string_app_assoc.
  change ("${" +:+ name +:+ ":-" +:+ dflt +:+ "}" +:+ rest)
    with (String "$" (String "{" (name +:+ String ":" (String "-" (dflt +:+ String "}" rest))))).
  cbn [EnvVarRegex]. rewrite !Ascii.eqb_refl. cbn [andb]. rewrite span_word_app by done.
  rewrite (proj2 (String.eqb_neq name "")) by done.
  change (Ascii.eqb ":" "}") with false. rewrite !Ascii.eqb_refl. cbn [andb]. by rewrite until_app.
Qed.

Lemma prefix_app a b : String.prefix a (a +:+ b) = true.
Proof.
  induction a as [|c a IH]; [by destruct b|]. rewrite app_cons. cbn [String.prefix].
  by destruct (ascii_dec c c).
Qed.
Lemma Contains_app pre a post : Contains (pre +:+ a +:+ post) a = true.
Proof.
  induction pre as [|c pre IH].
  - rewrite app_nil. destruct (a +:+ post) eqn:Ha; cbn [Contains]; by rewrite <-Ha, prefix_app.
  - rewrite app_cons. cbn [Contains]. rewrite IH. by rewrite orb_true_r.
Qed.

Section env.
Context (getenv : string → string).
Abbreviation replace_ fuel := (replace_from fuel EnvVarRegex).

Lemma replace_literal found failed fuel value c s w : no_dollar c = true →
  replace_ (S fuel) found failed value (String c s) w =
    match replace_ fuel found failed value s w with
    | Returns ((out, m), w) => Returns ((String c out, m), w)
    | Panics e => Panics e
    end.
Proof.
  intros Hc. cbn [replace_from]. rewrite EnvVarRegex_literal by done. st.
  by destruct (replace_from _ _ _ _ _ _ _) as [[[out m] w']|e].
Qed.
Lemma replace_literals found failed fuel value s rest w : all_chars no_dollar s = true →
  replace_ (String.length s + fuel) found failed value (s +:+ rest) w =
    match replace_ fuel found failed value rest w with
    | Returns ((out, m), w) => Returns ((s +:+ out, m), w)
    | Panics e => Panics e
    end.
Proof.
  induction s as [|c s IH]; cbn [all_chars String.length Nat.add].
  - intros _. rewrite app_nil. by destruct (replace_from _ _ _ _ _ _ _) as [[[out m] w']|e].
  - intros [Hc Hs]%andb_true_iff. rewrite app_cons, replace_literal, IH by done.
    by destruct (replace_from _ _ _ _ _ rest _) as [[[out m] w']|e].
Qed.

Lemma replace_match fuel value s name dflt rest w : EnvVarRegex s = env_match name dflt rest →
  replace_ (S fuel) (env_found getenv) env_failed value s w =
    match replace_ fuel (env_found getenv) env_failed value rest w with
    | Returns ((out, _), w) =>
        Returns (((if negb (String.eqb (getenv name) "") then getenv name
                   else if Contains value (name +:+ ":-") then dflt else "") +:+ out, true), w)
    | Panics e => Panics e
    end.
Proof.
  intros Hm. destruct s as [|c s]; [done|]. cbn [replace_from]. rewrite Hm. unfold env_match.
  assert (env_found getenv value (<["var_name" := name]> (<["default" := dflt]> ∅)) w =
    Returns (Ok (if negb (String.eqb (getenv name) "") then getenv name
                 else if Contains value (name +:+ ":-") then dflt else ""), w)) as Hf.
  { unfold env_found, group, results. rewrite lookup_insert_eq, lookup_insert_ne, lookup_insert_eq by done. done. }
  rewrite st_bind_unfold, Hf. st.
  by destruct (replace_from _ _ _ _ _ rest _) as [[[out m] w']|e].
Qed.

Lemma length_app_string a b : String.length (a +:+ b) = (String.length a + String.length b)%nat.
Proof. induction a as [|c a IH]; [done|]. rewrite app_cons. cbn. by rewrite IH. Qed.

Lemma replace_parts ps w : ∀ pre fuel, Forall part_ok ps → (String.length (print_parts ps) < fuel)%nat →
  replace_ fuel (env_found getenv) env_failed (pre +:+ print_parts ps) (print_parts ps) w =
    Returns ((expand_parts getenv ps, existsb is_var ps), w).
Proof.
  induction ps as [|p ps IH]; intros pre fuel Hok Hfuel; cbn [print_parts expand_parts existsb].
  { destruct fuel; [cbn in Hfuel; lia|]. reflexivity. }
  apply Forall_cons in Hok as [Hp Hok]. cbn [print_parts] in Hfuel. rewrite length_app_string in Hfuel.
  assert (∀ fuel, (String.length (print_parts ps) < fuel)%nat →
    replace_ fuel (env_found getenv) env_failed (pre +:+ print_part p +:+ print_parts ps) (print_parts ps) w =
    Returns ((expand_parts getenv ps, existsb is_var ps), w)) as IH'.
  { intros fuel' Hf. rewrite string_app_assoc. by apply IH. }
  destruct p as [s|name|name dflt]; cbn [print_part expand_part is_var orb].
  - cbn [print_part] in Hfuel, IH'.
    replace fuel with (String.length s + (fuel - String.length s))%nat by lia.
    rewrite replace_literals, IH' by (done || lia). done.
  - destruct Hp as [Hne Hw]. destruct fuel as [|fuel]; [lia|].
    erewrite replace_match; [|by apply EnvVarRegex_Var].
    cbn [print_part] in Hfuel, IH'. rewrite IH' by (rewrite !length_app_string in Hfuel; cbn in Hfuel; lia).
    destruct (String.eqb_spec (getenv name) "") as [->|Hv]; cbn [negb]; [|done].
    by destruct (Contains _ _).
  - destruct Hp as (Hne & Hw & Hd). destruct fuel as [|fuel]; [lia|].
    erewrite replace_match; [|by apply EnvVarRegex_VarOr].
    cbn [print_part] in Hfuel, IH'. rewrite IH' by (rewrite !length_app_string in Hfuel; cbn in Hfuel; lia).
    destruct (String.eqb_spec (getenv name) "") as [->|Hv]; cbn [negb]; [|done].
    assert (Contains (pre +:+ ("${" +:+ name +:+ ":-" +:+ dflt +:+ "}") +:+ print_parts ps) (name +:+ ":-") = true) as ->; [|done].
    rewrite <-!string_app_assoc.
    replace (pre +:+ "${" +:+ name +:+ ":-" +:+ dflt +:+ "}" +:+ print_parts ps)
      with ((pre +:+ "${") +:+ (name +:+ ":-") +:+ (dflt +:+ "}" +:+ print_parts ps)) by by rewrite <-!string_app_assoc.
    apply Contains_app.
Qed.

(** C25: a text with variables becomes the text with their values: the value of
    the environment, or the default that stands in the text, or nothing.  No
    variable is reported as missing. *)
Theorem env_expands ps panicVars : Forall part_ok ps →
  replace_all EnvVarRegex (env_found getenv) env_failed (print_parts ps) panicVars =
    Returns ((expand_parts getenv ps, existsb is_var ps), panicVars).
Proof. intros Hok. unfold replace_all. apply (replace_parts ps panicVars "" _ Hok). lia. Qed.

(** ** The pass over the tree *)

Lemma replace_env_total fuel : ∀ value s w, ∃ r,
  replace_ fuel (env_found getenv) env_failed value s w = Returns (r, w).
Proof.
  induction fuel as [|fuel IH]; intros value s w; cbn [replace_from]; [by eexists|].
  destruct s as [|c s]; [by eexists|]. destruct (EnvVarRegex (String c s)) as [[rs rest]|].
  - assert (∃ text, env_found getenv value rs w = Returns (Ok text, w)) as [text Hf] by (unfold env_found; st; by eexists).
    rewrite st_bind_unfold, Hf. st. destruct (IH value rest w) as [[out m] ->]. by eexists.
  - rewrite st_bind_unfold. destruct (IH value s w) as [[out m] ->]. by eexists.
Qed.
Lemma replace_values_total values w : ∃ r,
  replace_values EnvVarRegex (env_found getenv) env_failed values w = Returns (r, w).
Proof.
  induction values as [|value values [[vs ms] IH]]; cbn [replace_values]; [by eexists|].
  rewrite st_bind_unfold. destruct (String.eqb value "").
  - st. rewrite IH. by eexists.
  - unfold replace_all. destruct (replace_env_total (S (String.length value)) value value w) as [[out m] ->].
    st. rewrite IH. by eexists.
Qed.
Lemma resolve_value_total v w : ∃ v', resolve_value EnvVarRegex (env_found getenv) env_failed v w = Returns (v', w).
Proof.
  unfold resolve_value. destruct (texts_of v) as [[|t ts]|]; [by eexists| |by eexists].
  rewrite st_bind_unfold. destruct (replace_values_total (t :: ts) w) as [[vs m] ->]. by eexists.
Qed.
Lemma resolve_entries_total entries w : ∀ data, ∃ data',
  resolve_entries EnvVarRegex (env_found getenv) env_failed entries data w = Returns (data', w).
Proof.
  induction entries as [|[k v] entries IH]; intros data; cbn [resolve_entries]; [by eexists|].
  rewrite st_bind_unfold. destruct (resolve_value_total v w) as [v' ->]. apply IH.
Qed.

(** The check for missing variables never fails: the pass over the
    environment returns for every tree, whatever variables are not set, and
    records none.  (Such a variable becomes the empty text, or its default.) *)
Theorem unset_never_reported {K} {KK : Koanf K} range_data (k : K) :
  ∃ k', resolve_env range_data getenv k [] = Returns (k', []).
Proof.
  unfold resolve_env. destruct (EnvVarCheckBool _ _); [by eexists|].
  rewrite st_bind_unfold. unfold resolveConfigStringPattern.
  destruct (resolve_entries_total (range_data (k_All k)) [] (k_All k)) as [data ->]. st. by eexists.
Qed.

(** A list of one text becomes a text. *)
Lemma single_list name : name ≠ "" → all_chars word name = true →
  resolve_value EnvVarRegex (env_found getenv) env_failed (VStrings [print_part (Var name)]) [] =
    Returns (VString (getenv name), []).
Proof.
  intros Hne Hw. unfold resolve_value. cbn [texts_of replace_values]. rewrite !st_bind_unfold.
  change (String.eqb (print_part (Var name)) "") with false. cbv iota.
  pose proof (env_expands [Var name] [] ltac:(by repeat constructor)) as H. cbn [print_parts expand_parts existsb] in H.
  assert (∀ s, s +:+ "" = s) as Hnil by (intros s; induction s as [|c s IH]; [done|by rewrite app_cons, IH]).
  rewrite !Hnil in H. rewrite H. by st.
Qed.
End env.

(** ** Defaults *)

Section validation.
Context {K : Type} {KK : Koanf K} {KL : KoanfLaws KK} (getenv : string → string).
Implicit Types (k : K).

(** A default replaces what is there when the default itself is empty. *)
Lemma kDefault_empty key k : k_Get (kDefault key (VString "") k) key = VString "".
Proof. unfold kDefault. cbn. rewrite orb_true_r. by apply get_set. Qed.
Lemma kDefault_absent key s k : k_Exists k key = false → k_Get (kDefault key (VString s) k) key = VString s.
Proof. intros H. unfold kDefault. rewrite H. by apply get_set. Qed.
Lemma kDefault_apart key key' v k : apart key key' → k_Get (kDefault key v k) key' = k_Get k key'.
Proof. intros H. unfold kDefault. destruct (_ || _); [by apply get_set_apart|done]. Qed.
Lemma kDefault_exists key key' v k : apart key key' → k_Exists (kDefault key v k) key' = k_Exists k key'.
Proof. intros H. unfold kDefault. destruct (_ || _); [by apply exists_set_apart|done]. Qed.

#[global] Instance apart_dec a b : Decision (apart a b) := _.

Ltac apart := apply (bool_decide_unpack _); vm_compute; exact I.
Ltac chase := repeat first
  [ rewrite kDefault_apart by apart | rewrite kDefault_exists by apart ].

Lemma required_ok err (next : outcome (gores K)) k' : required err next = Returns (Ok k') →
  err = None ∧ next = Returns (Ok k').
Proof. by destruct err. Qed.
Lemma then_ok m (next : K → outcome (gores K)) k' : then_ m next = Returns (Ok k') →
  ∃ k, m = Returns (Ok k) ∧ next k = Returns (Ok k').
Proof. unfold then_. destruct m as [[k|e]|]; try done. by exists k. Qed.

Lemma test_server_ok k k' : test_server_checks k = Returns (Ok k') →
  (∀ key, apart "test_server.enable_h2c" key → apart "test_server.enable_http2" key →
     k_Get k' key = k_Get k key ∧ k_Exists k' key = k_Exists k key).
Proof.
  unfold test_server_checks. destruct (k_Exists k "test_server"); cbn [negb]; [|by intros [= <-]].
  destruct (h2c_without _ _); [done|]. intros [= <-] key H1 H2.
  rewrite !kDefault_apart, !kDefault_exists by assumption. split; reflexivity.
Qed.

Lemma apart_first c d a b : c ≠ d → apart (String c a) (String d b).
Proof.
  intros Hne. unfold apart, HasPrefix. rewrite !app_cons. cbn [String.prefix].
  destruct (ascii_dec c d), (ascii_dec d c); try congruence. split; [congruence|done].
Qed.

(** What the admin section is given: its keys, which start with an a, are as
    they were. *)
Lemma validate_admin k k' : validate getenv k = Returns (Ok k') → ∃ k1,
  admin_checks k1 = Returns (Ok k') ∧
  k_Get k1 "node_id" = k_Get (kDefault "node_id" (VString (node_id getenv)) (kDefault "log_level" (VString "info") k)) "node_id" ∧
  ∀ rest, k_Get k1 (String "a" rest) = k_Get k (String "a" rest) ∧ k_Exists k1 (String "a" rest) = k_Exists k (String "a" rest).
Proof.
  unfold validate. intros (_ & H)%required_ok. apply required_ok in H as (_ & H).
  apply required_ok in H as (_ & H). apply required_ok in H as (_ & H).
  apply then_ok in H as (k1 & H1 & H). exists k1. split; [done|].
  pose proof (test_server_ok _ _ H1) as Hk. split.
  - destruct (Hk "node_id") as [-> _]; [apart|apart|]. unfold proxy_defaults. by chase.
  - intros rest. destruct (Hk (String "a" rest)) as [-> ->]; [by apply apart_first..|]. unfold proxy_defaults.
    by rewrite !kDefault_apart, !kDefault_exists by by apply apart_first.
Qed.

Lemma admin_node_id k k' : admin_checks k = Returns (Ok k') → k_Get k' "node_id" = k_Get k "node_id".
Proof.
  unfold admin_checks. destruct (k_Exists k "admin"); cbn [negb]; [|by intros [= <-]].
  intros (_ & H)%required_ok. apply required_ok in H as (_ & H). apply then_ok in H as (k2 & H & (_ & [= ->])%required_ok).
  destruct (k_Exists _ "admin.replication"); [|injection H as <-; by chase].
  unfold replication_checks in H. apply required_ok in H as (_ & H). apply required_ok in H as (_ & [= <-]). by chase.
Qed.

(** C26: defaults that go wrong.  A configuration that is accepted while the
    environment names no node has lost its own node_id; and with replication
    on a numeric port, without TLS, the address that the node advertises by
    default is not an address. *)
Theorem defaults_go_wrong k k' : validate getenv k = Returns (Ok k') →
  (node_id getenv = "" → k_Get k' "node_id" = VString "") ∧
  (∀ port, k_Exists k "admin" = true → k_Exists k "admin.replication" = true → k_Exists k "admin.tls" = false →
    k_Exists k "admin.replication.advert_address" = false → k_Get k "admin.port" = VInt port →
    k_Get k' "admin.replication.advert_address" =
      VString (percent_s (k_Get k' "admin.host") +:+ ":%!s(int=" +:+ pretty port +:+ ")") ∧
    k_Get k' "admin.replication.id" = k_Get k "admin.replication.id").
Proof.
  intros Hv. destruct (validate_admin k k' Hv) as (k1 & H & Hnode & Hkeys). split.
  { intros Hid. rewrite (admin_node_id k1 k' H), Hnode, Hid. apply kDefault_empty. }
  intros port Hadm Hrep Htls Hadv Hport.
  rewrite <-(proj2 (Hkeys "dmin")) in Hadm. rewrite <-(proj2 (Hkeys "dmin.replication")) in Hrep.
  rewrite <-(proj2 (Hkeys "dmin.tls")) in Htls. rewrite <-(proj2 (Hkeys "dmin.replication.advert_address")) in Hadv.
  rewrite <-(proj1 (Hkeys "dmin.port")) in Hport. rewrite <-(proj1 (Hkeys "dmin.replication.id")).
  unfold admin_checks in H. rewrite Hadm in H. cbn [negb] in H.
  apply required_ok in H as (_ & H). apply required_ok in H as (_ & H).
  apply then_ok in H as (k2 & H & (_ & [= ->])%required_ok).
  rewrite !kDefault_exists, Hrep in H by apart. unfold replication_checks in H.
  apply required_ok in H as (_ & H). apply required_ok in H as (_ & H).
  rewrite !kDefault_exists, Htls in H by apart. cbv iota in H. injection H as <-. split; [|by chase].
  rewrite kDefault_apart by apart. rewrite kDefault_absent by by chase.
  rewrite !(kDefault_apart _ "admin.port"), Hport by apart. cbn [percent_s].
  by rewrite (kDefault_apart "admin.replication.advert_scheme" "admin.host"),
    (kDefault_apart "admin.replication.advert_address" "admin.host"), (kDefault_apart "admin.replication.raft_id" "admin.host"),
    !(kDefault_apart "admin.x_forwarded_for_depth" "admin.host") by apart.
Qed.

(** TLS for the proxy without a port is accepted: a key that is missing is not
    the empty text that is looked for. *)
Lemma kRequireIfExists_missing k dependent target : k_Exists k target = false →
  kRequireIfExists k dependent [target] = None.
Proof. intros H. cbn [kRequireIfExists]. rewrite (get_missing _ _ H). cbn. by rewrite andb_false_r. Qed.

(** A configuration in the variable DG_CONFIG_DATA is never used: there is
    no parser for it, the error is dropped, and the empty configuration that is
    left has no version. *)
Theorem config_data_unused {Config : Type} range_data load_file load_raw shell (unmarshal : K → gores Config) bytes :
  (∀ data k, ∃ err, load_raw data None k = Err err) → range_data ∅ = [] →
  getenv "DG_CONFIG_PATH" = "" → getenv "DG_CONFIG_DATA" ≠ "" →
  StdDecodeString (TrimSpace (getenv "DG_CONFIG_DATA")) = Ok bytes →
  LoadConfig range_data getenv load_file load_raw shell unmarshal "" = Returns (Err "version is required").
Proof.
  intros Hraw Hrange Hpath Hdata Hb. unfold LoadConfig, read_config. cbn [String.eqb].
  rewrite Hpath. unfold config_type. rewrite andb_false_r. cbn [String.eqb negb].
  rewrite (proj2 (String.eqb_neq _ "")) by done. cbn [negb]. rewrite Hb.
  destruct (Hraw bytes k_New) as [err ->].
  assert (resolve_commands range_data getenv shell k_New [] = Returns (k_New, [])) as Hc.
  { unfold resolve_commands. destruct (EnvVarCheckBool _ _); [done|]. unfold resolveConfigStringPattern.
    rewrite all_new, Hrange. st. cbn [resolve_entries]. st. by rewrite load_nothing. }
  assert (resolve_env range_data getenv k_New [] = Returns (k_New, [])) as He.
  { unfold resolve_env. destruct (EnvVarCheckBool _ _); [done|]. unfold resolveConfigStringPattern.
    rewrite all_new, Hrange. st. cbn [resolve_entries]. st. by rewrite load_nothing. }
  assert ((k ← resolve_commands range_data getenv shell k_New; resolve_env range_data getenv k) [] = Returns (k_New, [])) as Hr.
  { rewrite st_bind_unfold, Hc. exact He. }
  rewrite Hr. cbn [mbind outcome_bind]. unfold validate. cbn [kRequireAll].
  rewrite kDefault_exists by apart. rewrite exists_new. done.
Qed.
End validation.

(** ** The theorems at work *)

(** A tree that is a flat map of its keys. *)
Section flat.
#[local] Instance flat : Koanf (gmap string value) := {
  k_New := ∅;
  k_Get k key := default VNil (k !! key);
  k_Exists k key := bool_decide (is_Some (k !! key));
  k_Set key v k := <[key := v]> k;
  k_All k := k;
  k_Load data k := data ∪ k }.
#[local] Instance flat_laws : KoanfLaws flat.
Proof.
  split; cbn.
  - intros k key v _. by rewrite lookup_insert_eq.
  - intros k key key' v [Hne _]. by rewrite lookup_insert_ne.
  - intros k key key' v [Hne _]. by rewrite lookup_insert_ne.
  - intros k key H. apply bool_decide_eq_false in H. destruct (k !! key); [by destruct H; eexists|done].
  - intros key. apply bool_decide_eq_false. by rewrite lookup_empty, <-not_eq_None_Some; intros [].
  - done.
  - intros k. apply (left_id_L ∅ (∪)).
Qed.

Definition home (name : string) : string := if String.eqb name "HOME" then "/root" else "".
Lemma env_expands_witness : let ps := [VarOr "DIR" "/var"; Lit "/x:"; Var "HOME"] in
  Forall part_ok ps ∧
  replace_all EnvVarRegex (env_found home) env_failed "${DIR:-/var}/x:${HOME}" [] = Returns (("/var/x:/root", true), []).
Proof.
  intros ps. assert (Forall part_ok ps) as H by (repeat constructor; done).
  split; [exact H|]. exact (env_expands home ps [] H).
Defined.

Definition small_config : gmap string value := list_to_map [
  ("version", VString "v1"); ("node_id", VString "node-1"); ("storage", VOther "map"); ("storage.type", VString "memory");
  ("admin", VOther "map"); ("admin.port", VInt 9080);
  ("admin.replication", VOther "map"); ("admin.replication.bootstrap_cluster", VBool true)].
Definition checked (getenv : string → string) (k : gmap string value) : gmap string value :=
  match validate getenv k with Returns (Ok k') => k' | _ => ∅ end.
Definition accepted (getenv : string → string) (k : gmap string value) : bool :=
  match validate getenv k with Returns (Ok _) => true | _ => false end.
Lemma accepted_checked getenv k : accepted getenv k = true → validate getenv k = Returns (Ok (checked getenv k)).
Proof. unfold accepted, checked. by destruct (validate getenv k) as [[]|]. Qed.
Lemma defaults_go_wrong_witness :
  k_Get (checked home small_config) "node_id" = VString "" ∧
  k_Get (checked home small_config) "admin.replication.advert_address" = VString "127.0.0.1:%!s(int=9080)".
Proof.
  destruct (defaults_go_wrong home small_config (checked home small_config)) as [H1 H2].
  - apply accepted_checked. vm_compute. reflexivity.
  - split; [apply H1; reflexivity|]. destruct (H2 9080) as [-> _]; reflexivity.
Defined.

Definition data_env (name : string) : string := if String.eqb name "DG_CONFIG_DATA" then "dmVyc2lvbjogdjE=" else "".
Lemma config_data_unused_witness :
  LoadConfig (K := gmap string value) (Config := unit) map_to_list data_env (λ _ _ _, Err "no file")
    (λ _ parser k, match parser with None => Err "rawbytes provider does not support this method" | Some _ => Ok k end)
    (λ _ _, Ok "") (λ _, Ok tt) "" = Returns (Err "version is required").
Proof.
  apply (config_data_unused data_env) with (bytes := "version: v1").
  - intros data k. by eexists.
  - reflexivity.
  - reflexivity.
  - discriminate.
  - vm_compute. reflexivity.
Defined.
End flat.
