(* ===== verification/EventLoop.v ===== *)
(** * pkg/eventloop/eventloop.go: the loop that runs the modules' jobs

    Timers, intervals and immediates are objects that the script and the loop
    share, so they live in a store; their functions, and those that are run on
    the loop from outside, are names of a type [F] that [call] runs: a function
    is a script over the operations below.  A timer that went off is a goroutine that
    waits to hand its job over.  What the scheduler of Go decides (which timer
    goes off, which goroutine is received from) is a list of events.  Delays are
    left out: a timer may go off at any time.  The counter is an int32 in the
    code and an integer here.  [Wait], which nothing calls, is left out. *)
From Stdlib Require Import ZArith Lia.
From stdpp Require Import base gmap strings list fin_maps fin_sets.
From S2P Require Import Prelude Avl SliceUtil Pattern Spec Linker ResourceManager.
From S2P Require Import Storage ProxyStore Scheduler Cache ConfigResources Proxy.

Definition id : Type := nat.

(** The goroutine of a timer or of an interval: it waits for its time, or to
    hand its job over, or is gone. *)
Inductive source : Type := Armed | Sending | Gone.
#[global] Instance source_eq_dec : EqDecision source.
Proof. solve_decision. Defined.
Inductive kind : Type := Timer | Interval | Immediate.

(** [stopped] is the interval's channel [stopChan], closed. *)
Record job (F : Type) : Type := MkJob { cancelled : bool; fn : F; of_kind : kind; timer : source; stopped : bool }.
Arguments MkJob {F} cancelled fn of_kind timer stopped.
Arguments cancelled {F} _.
Arguments fn {F} _.
Arguments of_kind {F} _.
Arguments timer {F} _.
Arguments stopped {F} _.

(** What [addAuxJob] is given. *)
Inductive aux (F : Type) : Type :=
  | AuxCount
  | AuxClearTimeout (t : option id)
  | AuxClearInterval (i : option id)
  | AuxImmediate (i : id)
  | AuxRun (f : F).
Arguments AuxCount {F}.
Arguments AuxClearTimeout {F} t.
Arguments AuxClearInterval {F} i.
Arguments AuxImmediate {F} i.
Arguments AuxRun {F} f.

(** The goroutine of the loop: there is none, or it has yet to begin, or it
    waits in the select; in the background or not. *)
Inductive phase : Type := Idle | Starting (inBackground : bool) | Selecting (inBackground : bool).
#[global] Instance phase_eq_dec : EqDecision phase.
Proof. solve_decision. Defined.

(** [wakeupChan] is whether the channel, of one element, is full; the spare
    slice is only memory. *)
Record EventLoop (F VM : Type) : Type := MkLoop {
  vm : VM; jobs : gmap id (job F); jobCount : Z; canRun : bool;
  wakeupChan : bool; auxJobs : list (aux F); running : bool; at_ : phase }.
Arguments MkLoop {F VM} vm jobs jobCount canRun wakeupChan auxJobs running at_.
Arguments vm {F VM} _.
Arguments jobs {F VM} _.
Arguments jobCount {F VM} _.
Arguments canRun {F VM} _.
Arguments wakeupChan {F VM} _.
Arguments auxJobs {F VM} _.
Arguments running {F VM} _.
Arguments at_ {F VM} _.

Section loop.
Context {F VM : Type}.
Abbreviation LP := (Run (EventLoop F VM)).
Implicit Types (s : EventLoop F VM) (f : F) (j : id).

Definition set_vm (v : VM) s := MkLoop v (jobs s) (jobCount s) (canRun s) (wakeupChan s) (auxJobs s) (running s) (at_ s).
Definition set_jobs (js : gmap id (job F)) s := MkLoop (vm s) js (jobCount s) (canRun s) (wakeupChan s) (auxJobs s) (running s) (at_ s).
Definition add_count (d : Z) s := MkLoop (vm s) (jobs s) (jobCount s + d) (canRun s) (wakeupChan s) (auxJobs s) (running s) (at_ s).
Definition set_canRun (b : bool) s := MkLoop (vm s) (jobs s) (jobCount s) b (wakeupChan s) (auxJobs s) (running s) (at_ s).
Definition set_wakeup (b : bool) s := MkLoop (vm s) (jobs s) (jobCount s) (canRun s) b (auxJobs s) (running s) (at_ s).
Definition set_auxJobs (l : list (aux F)) s := MkLoop (vm s) (jobs s) (jobCount s) (canRun s) (wakeupChan s) l (running s) (at_ s).
Definition set_running (b : bool) s := MkLoop (vm s) (jobs s) (jobCount s) (canRun s) (wakeupChan s) (auxJobs s) b (at_ s).
Definition set_phase (p : phase) s := MkLoop (vm s) (jobs s) (jobCount s) (canRun s) (wakeupChan s) (auxJobs s) (running s) p.

Definition NewEventLoop (rt : VM) : EventLoop F VM := MkLoop rt ∅ 0 false false [] false Idle.

(** ** Jobs *)

Definition wakeup : LP unit := run_modify (set_wakeup true).
Definition addAuxJob (a : aux F) : LP unit :=
  _ ← run_modify (λ s, set_auxJobs (auxJobs s ++ [a]) s); wakeup.
Definition new_job (b : job F) : LP id :=
  s ← run_get;
  let j := fresh (dom (jobs s)) in
  _ ← run_modify (λ s, set_jobs (<[j := b]> (jobs s)) s);
  mret j.
Definition addTimeout f : LP id := new_job (MkJob false f Timer Armed false).
Definition addInterval f : LP id := new_job (MkJob false f Interval Armed false).
Definition addImmediate f : LP id :=
  j ← new_job (MkJob false f Immediate Gone false); _ ← addAuxJob (AuxImmediate j); mret j.

Definition count (d : Z) : LP unit := run_modify (add_count d).
(** Called by a script; the argument may be no function. *)
Definition schedule (arg : option F) (repeating : bool) : LP (option id) :=
  match arg with
  | None => mret None
  | Some f => _ ← count 1; j ← (if repeating then addInterval f else addTimeout f); mret (Some j)
  end.
Definition setTimeout (arg : option F) : LP (option id) := schedule arg false.
Definition setInterval (arg : option F) : LP (option id) := schedule arg true.
Definition setImmediate (arg : option F) : LP (option id) :=
  match arg with
  | None => mret None
  | Some f => _ ← count 1; j ← addImmediate f; mret (Some j)
  end.

(** Called by Go, from any goroutine. *)
Definition SetTimeout f : LP id := j ← addTimeout f; _ ← addAuxJob AuxCount; mret j.
Definition ClearTimeout (t : option id) : LP unit := addAuxJob (AuxClearTimeout t).
Definition SetInterval f : LP id := j ← addInterval f; _ ← addAuxJob AuxCount; mret j.
Definition ClearInterval (i : option id) : LP unit := addAuxJob (AuxClearInterval i).
Definition RunOnLoop f : LP unit := addAuxJob (AuxRun f).

Definition get_job j : LP (job F) :=
  s ← run_get; match jobs s !! j with Some b => mret b | None => run_panic "nil pointer dereference" end.
Definition put_job j (b : job F) : LP unit := run_modify (λ s, set_jobs (<[j := b]> (jobs s)) s).
Definition cancel (b : job F) : job F := MkJob true (fn b) (of_kind b) (timer b) (stopped b).
(** [timer.Stop()] has no effect on a timer that went off. *)
Definition stop_timer (b : job F) : job F :=
  MkJob (cancelled b) (fn b) (of_kind b) (match timer b with Armed => Gone | t => t end) (stopped b).
Definition close_stop (b : job F) : job F := MkJob (cancelled b) (fn b) (of_kind b) (timer b) true.
Definition set_timer (t : source) (b : job F) : job F := MkJob (cancelled b) (fn b) (of_kind b) t (stopped b).

Definition clear_with (how : job F → job F) (handle : option id) : LP unit :=
  match handle with
  | None => mret tt
  | Some j => b ← get_job j;
              if negb (cancelled b) then _ ← put_job j (how b); count (-1) else mret tt
  end.
Definition clearTimeout : option id → LP unit := clear_with (λ b, cancel (stop_timer b)).
Definition clearInterval : option id → LP unit := clear_with (λ b, close_stop (cancel b)).
Definition clearImmediate : option id → LP unit := clear_with cancel.

Context (call : F → LP unit).

(** The function runs first; then the job is cancelled, whatever it was before. *)
Definition do_once j : LP unit :=
  b ← get_job j;
  if negb (cancelled b) then
    _ ← call (fn b);
    b ← get_job j;
    _ ← put_job j (cancel b);
    count (-1)
  else mret tt.
Definition doTimeout : id → LP unit := do_once.
Definition doImmediate : id → LP unit := do_once.
Definition doInterval j : LP unit := b ← get_job j; if negb (cancelled b) then call (fn b) else mret tt.

(** ** The loop *)

Definition run_aux (a : aux F) : LP unit :=
  match a with
  | AuxCount => count 1
  | AuxClearTimeout t => clearTimeout t
  | AuxClearInterval i => clearInterval i
  | AuxImmediate i => doImmediate i
  | AuxRun f => call f
  end.
Fixpoint run_all (l : list (aux F)) : LP unit :=
  match l with [] => mret tt | a :: l => _ ← run_aux a; run_all l end.
Definition runAux : LP unit :=
  s ← run_get; _ ← run_modify (set_auxJobs []); run_all (auxJobs s).

Definition setRunning : LP unit :=
  s ← run_get;
  if running s then run_panic "Loop is already started"
  else run_modify (λ s, set_canRun true (set_running true s)).

(** The end of [run], and the condition of its loop. *)
Definition leave (inBackground : bool) : LP unit :=
  _ ← (if inBackground then count (-1) else mret tt);
  run_modify (λ s, set_phase Idle (set_running false s)).
Definition continue_ (inBackground : bool) : LP unit :=
  s ← run_get;
  if 0 <? jobCount s then run_modify (set_phase (Selecting inBackground)) else leave inBackground.
Definition begin_run (inBackground : bool) : LP unit :=
  _ ← runAux;
  _ ← (if inBackground then count 1 else mret tt);
  continue_ inBackground.

Definition Run_ f : LP unit :=
  _ ← setRunning; _ ← call f; run_modify (set_phase (Starting false)).
Definition Start : LP VM :=
  _ ← setRunning; _ ← run_modify (set_phase (Starting true)); s ← run_get; mret (vm s).
Definition StopNoWait : LP unit :=
  s ← run_get;
  if running s then _ ← run_modify (set_canRun false); wakeup else mret tt.
(** It waits while the loop runs. *)
Definition Stop : LP Z :=
  _ ← StopNoWait;
  s ← run_get;
  if running s then ((λ s, (Block, s)) : LP Z) else mret (jobCount s).

(** ** Functions *)

(** What a function may do with the loop: the arguments of the script's calls
    may be no function and no handle; the last six are the methods in Go. *)
Inductive op : Type :=
  | OpSetTimeout (arg : option F) | OpSetInterval (arg : option F) | OpSetImmediate (arg : option F)
  | OpClearTimeout (t : option id) | OpClearInterval (i : option id) | OpClearImmediate (i : option id)
  | OpTimeoutOnLoop f | OpIntervalOnLoop f | OpClearTimeoutOnLoop (t : option id) | OpClearIntervalOnLoop (i : option id)
  | OpRunOnLoop f | OpStopNoWait.
Definition no_handle (m : LP unit) : LP (option id) := _ ← m; mret None.
Definition run_op (o : op) : LP (option id) :=
  match o with
  | OpSetTimeout arg => setTimeout arg
  | OpSetInterval arg => setInterval arg
  | OpSetImmediate arg => setImmediate arg
  | OpClearTimeout t => no_handle (clearTimeout t)
  | OpClearInterval i => no_handle (clearInterval i)
  | OpClearImmediate i => no_handle (clearImmediate i)
  | OpTimeoutOnLoop f => j ← SetTimeout f; mret (Some j)
  | OpIntervalOnLoop f => j ← SetInterval f; mret (Some j)
  | OpClearTimeoutOnLoop t => no_handle (ClearTimeout t)
  | OpClearIntervalOnLoop i => no_handle (ClearInterval i)
  | OpRunOnLoop f => no_handle (RunOnLoop f)
  | OpStopNoWait => no_handle StopNoWait
  end.

(** A function: it works on its machine, uses the loop and goes on with the
    handle it gets, and returns, panics, or does not come back. *)
Inductive script : Type :=
  | Finish (x : exit unit)
  | Work (g : VM → VM) (k : VM → script)
  | Use (o : op) (k : option id → script).
Fixpoint exec (p : script) : LP unit :=
  match p with
  | Finish x => λ s, (x, s)
  | Work g k => _ ← run_modify (λ s, set_vm (g (vm s)) s); s ← run_get; exec (k (vm s))
  | Use o k => h ← run_op o; exec (k h)
  end.

(** ** What may happen *)

Inductive event : Type :=
  | GoesOff j        (** the time of a timer or an interval has come *)
  | Ends j           (** the goroutine of a stopped interval ends *)
  | Begins           (** the goroutine of the loop begins *)
  | Receives j       (** the select takes a job *)
  | WakesUp          (** the select takes the wake-up *)
  | Calls f          (** the script is called from outside the loop *)
  | Submits f        (** [RunOnLoop] *)
  | SetsTimeout f
  | ClearsTimeout (t : option id)
  | SetsInterval f
  | ClearsInterval (i : option id)
  | Starts
  | Runs f
  | Stops.

(** Events that cannot happen now leave everything as it is. *)
Definition receive j : LP unit :=
  b ← get_job j;
  match of_kind b with
  | Interval => _ ← put_job j (set_timer Armed b); doInterval j
  | _ => _ ← put_job j (set_timer Gone b); doTimeout j
  end.
Definition goes_off s j : LP unit :=
  match jobs s !! j with
  | Some b => match timer b with Armed => put_job j (set_timer Sending b) | _ => mret tt end
  | None => mret tt
  end.
(** The goroutine of an interval takes the closed channel. *)
Definition ends s j : LP unit :=
  match jobs s !! j with
  | Some b => match of_kind b, timer b, stopped b with
              | Interval, Armed, true => put_job j (set_timer Gone b)
              | _, _, _ => mret tt
              end
  | None => mret tt
  end.
Definition happen (e : event) : LP unit :=
  s ← run_get;
  match e with
  | GoesOff j => goes_off s j
  | Ends j => ends s j
  | Begins => match at_ s with Starting bg => begin_run bg | _ => mret tt end
  | Receives j =>
      match at_ s, jobs s !! j with
      | Selecting bg, Some b => match timer b with Sending => _ ← receive j; continue_ bg | _ => mret tt end
      | _, _ => mret tt
      end
  | WakesUp =>
      match at_ s, wakeupChan s with
      | Selecting bg, true =>
          _ ← run_modify (set_wakeup false);
          _ ← runAux;
          s ← run_get;
          if negb (canRun s) then leave bg else continue_ bg
      | _, _ => mret tt
      end
  | Calls f => call f
  | Submits f => RunOnLoop f
  | SetsTimeout f => _ ← SetTimeout f; mret tt
  | ClearsTimeout t => ClearTimeout t
  | SetsInterval f => _ ← SetInterval f; mret tt
  | ClearsInterval i => ClearInterval i
  | Starts => _ ← Start; mret tt
  | Runs f => Run_ f
  | Stops => StopNoWait
  end.
Fixpoint happen_all (es : list event) : LP unit :=
  match es with [] => mret tt | e :: es => _ ← happen e; happen_all es end.
End loop.
Arguments op : clear implicits.
Arguments script : clear implicits.
