(* ===== verification/EventLoopTheorems.v ===== *)
(** * The jobs that the event loop counts *)
From Stdlib Require Import ZArith Lia.
From stdpp Require Import base gmap strings list fin_maps fin_sets.
From S2P Require Import Prelude Avl SliceUtil Pattern Spec Linker ResourceManager.
From S2P Require Import Storage ProxyStore Scheduler Cache ConfigResources Proxy EventLoop.

Section counting.
Context {F VM : Type}.
Abbreviation LP := (Run (EventLoop F VM)).
Implicit Types (s : EventLoop F VM) (f : F) (j : id).

(** ** What is counted *)

Definition act (b : job F) : Z := if cancelled b then 0 else 1.
(** The jobs that are not cancelled. *)
Definition active (js : gmap id (job F)) : Z := map_fold (λ _ b n, act b + n) 0 js.
(** The additions to the counter that wait in the queue. *)
Definition adds (a : aux F) : Z := match a with AuxCount => 1 | _ => 0 end.
Fixpoint pending (l : list (aux F)) : Z := match l with [] => 0 | a :: l => adds a + pending l end.
Definition balance s : Z := jobCount s + pending (auxJobs s) - active (jobs s).

Lemma active_new js j b : js !! j = None → active (<[j := b]> js) = act b + active js.
Proof. intros H. unfold active. rewrite map_fold_insert_L; [done| |done]. intros; lia. Qed.
Lemma active_put js j b b' : js !! j = Some b → active (<[j := b']> js) = active js - act b + act b'.
Proof.
  intros H. rewrite <-(insert_id js j b H) at 2.
  rewrite <-(insert_delete_eq js j b), <-(insert_delete_eq js j b'). rewrite !active_new by apply lookup_delete_eq. lia.
Qed.
Lemma pending_app l l' : pending (l ++ l') = pending l + pending l'.
Proof. induction l as [|a l IH]; cbn; lia. Qed.

(** A computation that changes the balance by [d], and not the loop. *)
Definition shifts {A} (d : Z) (m : LP A) : Prop := ∀ s x s', m s = (Return x, s') →
  balance s' = balance s + d ∧ at_ s' = at_ s ∧ running s' = running s.
Lemma shifts_bind {A B} d1 d2 d (m : LP A) (k : A → LP B) :
  shifts d1 m → (∀ a, shifts d2 (k a)) → d = d1 + d2 → shifts d (m ≫= k).
Proof.
  intros Hm Hk -> s x s' H. apply run_bind_return in H as (a & s1 & H1 & H2).
  destruct (Hm _ _ _ H1) as (? & ? & ?), (Hk a _ _ _ H2) as (? & ? & ?). split; [lia|]. split; congruence.
Qed.
Lemma shifts_ret {A} (a : A) : shifts 0 (mret a).
Proof. intros s x s' [= <- <-]. by rewrite Z.add_0_r. Qed.
Lemma shifts_count d : shifts d (count d).
Proof. intros s x s' [= <- <-]. unfold balance. cbn. split; [lia|done]. Qed.
Lemma shifts_addAuxJob a : shifts (adds a) (addAuxJob a).
Proof. intros s x s' [= <- <-]. unfold balance. cbn. rewrite pending_app. cbn. split; [lia|done]. Qed.
Lemma shifts_new_job b : shifts (- act b) (new_job b).
Proof.
  intros s x s' [= <- <-]. unfold balance. cbn. rewrite active_new by (apply not_elem_of_dom, is_fresh). split; [lia|done].
Qed.
Lemma shifts_clear how handle : (∀ b, cancelled (how b) = true) → shifts 0 (clear_with how handle).
Proof.
  intros Hhow s x s'. unfold clear_with. destruct handle as [j|]; [|apply shifts_ret]. go. unfold get_job. go.
  destruct (jobs s !! j) as [b|] eqn:Hj; go; [|done]. destruct (cancelled b) eqn:Hc; cbn [negb]; go.
  - intros [= <- <-]. split; [lia|done].
  - unfold put_job, count. go. intros [= <- <-]. unfold balance. cbn. rewrite (active_put _ _ b) by done.
    unfold act. rewrite Hhow, Hc. split; [lia|done].
Qed.
(** The operations that a function may call. *)
Lemma setTimeout_shifts arg : shifts 0 (setTimeout (VM := VM) arg).
Proof.
  unfold setTimeout, schedule. destruct arg; [|apply shifts_ret]. eapply (shifts_bind 1 (-1)); [apply shifts_count|intros _|done].
  eapply (shifts_bind (-1) 0); [apply shifts_new_job|intros; apply shifts_ret|done].
Qed.
Lemma setInterval_shifts arg : shifts 0 (setInterval (VM := VM) arg).
Proof.
  unfold setInterval, schedule. destruct arg; [|apply shifts_ret]. eapply (shifts_bind 1 (-1)); [apply shifts_count|intros _|done].
  eapply (shifts_bind (-1) 0); [apply shifts_new_job|intros; apply shifts_ret|done].
Qed.
Lemma addImmediate_shifts f : shifts (-1) (addImmediate (VM := VM) f).
Proof.
  eapply (shifts_bind (-1) 0); [apply shifts_new_job|intros j|done].
  eapply (shifts_bind 0 0); [apply shifts_addAuxJob|intros _; apply shifts_ret|done].
Qed.
Lemma setImmediate_shifts arg : shifts 0 (setImmediate (VM := VM) arg).
Proof.
  unfold setImmediate. destruct arg; [|apply shifts_ret]. eapply (shifts_bind 1 (-1)); [apply shifts_count|intros _|done].
  eapply (shifts_bind (-1) 0); [apply addImmediate_shifts|intros; apply shifts_ret|done].
Qed.
Lemma SetTimeout_shifts f : shifts 0 (SetTimeout (VM := VM) f).
Proof.
  eapply (shifts_bind (-1) 1); [apply shifts_new_job|intros j|done].
  eapply (shifts_bind 1 0); [apply shifts_addAuxJob|intros _; apply shifts_ret|done].
Qed.
Lemma SetInterval_shifts f : shifts 0 (SetInterval (VM := VM) f).
Proof.
  eapply (shifts_bind (-1) 1); [apply shifts_new_job|intros j|done].
  eapply (shifts_bind 1 0); [apply shifts_addAuxJob|intros _; apply shifts_ret|done].
Qed.
Lemma StopNoWait_shifts : shifts 0 (StopNoWait (F := F) (VM := VM)).
Proof.
  intros s x s'. unfold StopNoWait, wakeup. go. destruct (running s) eqn:Hr; go; intros [= <- <-]; unfold balance; cbn; by rewrite Z.add_0_r.
Qed.

Lemma no_handle_shifts d (m : LP unit) : shifts d m → shifts d (no_handle m).
Proof. intros Hm. eapply (shifts_bind d 0); [exact Hm|intros; apply shifts_ret|lia]. Qed.
Lemma run_op_shifts (o : op F) : shifts 0 (run_op o).
Proof.
  destruct o; cbn [run_op];
    [apply setTimeout_shifts|apply setInterval_shifts|apply setImmediate_shifts|..];
    try (apply no_handle_shifts; first [by apply shifts_clear|apply (shifts_addAuxJob (AuxClearTimeout _))
      |apply (shifts_addAuxJob (AuxClearInterval _))|apply (shifts_addAuxJob (AuxRun _))|apply StopNoWait_shifts]).
  - eapply (shifts_bind 0 0); [apply SetTimeout_shifts|intros; apply shifts_ret|done].
  - eapply (shifts_bind 0 0); [apply SetInterval_shifts|intros; apply shifts_ret|done].
Qed.
(** Whatever a function does with the loop. *)
Lemma exec_shifts (p : script F VM) : shifts 0 (exec p).
Proof.
  induction p as [x|g k IH|o k IH]; cbn [exec].
  - intros s [] s' [= _ <-]. by rewrite Z.add_0_r.
  - intros s x s'. go. intros H. by apply IH in H.
  - eapply (shifts_bind 0 0); [apply run_op_shifts|exact IH|done].
Qed.

(** ** The loop *)

Context (call : F → LP unit).

(** A call that changes the jobs by the operations above, and does not clear a
    job of its own. *)
Definition behaves f : Prop := shifts 0 (call f) ∧ ∀ s s' j b, call f s = (Return tt, s') →
  jobs s !! j = Some b → cancelled b = false → fn b = f →
  ∃ b', jobs s' !! j = Some b' ∧ cancelled b' = false.
Context (Hcall : ∀ f, behaves f).
#[local] Hint Resolve shifts_ret shifts_count shifts_clear shifts_addAuxJob : core.

Lemma do_once_shifts j : shifts 0 (do_once call j).
Proof.
  intros s x s'. unfold do_once, get_job, put_job, count. go. destruct (jobs s !! j) as [b|] eqn:Hj; go; [|done].
  destruct (cancelled b) eqn:Hc; cbn [negb]; go; [intros [= <- <-]; split; [lia|done]|].
  destruct (call (fn b) s) as [[[]|e|] s1] eqn:E; [|done..]. go.
  destruct (Hcall (fn b)) as [Hs Hj1]. destruct (Hj1 s s1 j b E Hj Hc eq_refl) as (b1 & Hb1 & Hc1). rewrite Hb1. go.
  intros [= <- <-]. destruct (Hs _ _ _ E) as (Hb & ? & ?). unfold balance in *. cbn.
  rewrite (active_put _ _ b1) by done. unfold act. rewrite Hc1. cbn. split; [lia|done].
Qed.
Lemma doInterval_shifts j : shifts 0 (doInterval call j).
Proof.
  intros s x s'. unfold doInterval, get_job. go. destruct (jobs s !! j) as [b|]; go; [|done].
  destruct (cancelled b); cbn [negb]; [apply (shifts_ret tt)|apply (Hcall (fn b))].
Qed.
Lemma run_aux_shifts a : shifts (adds a) (run_aux call a).
Proof.
  destruct a; cbn; [apply shifts_count|by apply shifts_clear|by apply shifts_clear|apply do_once_shifts|apply Hcall].
Qed.
Lemma run_all_shifts l : shifts (pending l) (run_all call l).
Proof.
  induction l as [|a l IH]; cbn; [apply shifts_ret|]. by eapply shifts_bind; [apply run_aux_shifts|intros _; apply IH|].
Qed.
Lemma runAux_shifts : shifts 0 (runAux call).
Proof.
  intros s x s'. unfold runAux. go. intros H. destruct (run_all_shifts _ _ _ _ H) as (Hb & ? & ?).
  unfold balance in *. cbn in *. split; [lia|done].
Qed.

Lemma put_job_shifts j b b' s x s' : jobs s !! j = Some b → cancelled b' = cancelled b →
  put_job j b' s = (Return x, s') → balance s' = balance s ∧ at_ s' = at_ s ∧ running s' = running s.
Proof.
  intros Hj Hc [= _ <-]. unfold balance. cbn. rewrite (active_put _ _ b) by done. unfold act. rewrite Hc. split; [lia|done].
Qed.
Lemma receive_shifts j : shifts 0 (receive call j).
Proof.
  intros s x s' H. unfold receive, get_job in H. go. revert H. go. destruct (jobs s !! j) as [b|] eqn:Hj; go; [|done].
  assert (∀ t (m : LP unit) s', shifts 0 m → (_ ← put_job j (set_timer t b); m) s = (Return x, s') →
    balance s' = balance s + 0 ∧ at_ s' = at_ s ∧ running s' = running s) as K.
  { intros t m s2 Hm H. apply run_bind_return in H as (a & s1 & H1 & H2).
    apply (put_job_shifts _ b) in H1 as (? & ? & ?); [|done..]. destruct (Hm _ _ _ H2) as (? & ? & ?). split; [lia|]. split; congruence. }
  destruct (of_kind b); apply K; first [apply do_once_shifts|apply doInterval_shifts].
Qed.

(** ** The invariant *)

Definition weight (bg : bool) : Z := if bg then 1 else 0.
Definition background s : Z := match at_ s with Selecting bg => weight bg | _ => 0 end.
Definition counted s : Prop := balance s = background s ∧ (at_ s ≠ Idle → running s = true).

(** How a round ends: with the loop in its select, or left. *)
Definition ended bg s' : Prop :=
  at_ s' = Selecting bg ∨ at_ s' = Idle ∧ (canRun s' = false ∨ active (jobs s') + (weight bg) ≤ pending (auxJobs s')).

Lemma leave_counted bg s x s' : balance s = (weight bg) → leave bg s = (Return x, s') →
  counted s' ∧ at_ s' = Idle ∧ canRun s' = canRun s ∧ jobs s' = jobs s ∧ auxJobs s' = auxJobs s.
Proof. unfold leave, counted, background, balance, weight. intros Hb. destruct bg; go; intros [= <- <-]; cbn; repeat split; lia || done. Qed.
Lemma continue_counted bg s x s' : balance s = (weight bg) → running s = true →
  continue_ bg s = (Return x, s') → counted s' ∧ ended bg s'.
Proof.
  intros Hb Hr. unfold continue_. go. destruct (Z.ltb_spec 0 (jobCount s)).
  - intros [= <- <-]. split; [|by left]. unfold counted, background, balance in *. cbn. done.
  - intros H1. destruct (leave_counted bg s x s' Hb H1) as (Hc & Hi & _ & Hj & Ha). split; [done|]. right.
    split; [done|]. right. rewrite Hj, Ha. unfold balance in Hb. lia.
Qed.

Lemma counted_shift s s' : counted s → balance s' = balance s + 0 ∧ at_ s' = at_ s ∧ running s' = running s →
  counted s' ∧ (∀ bg, at_ s = Selecting bg → ended bg s').
Proof.
  intros [Hb Hr] (E & Ea & Er). unfold counted, background in *. rewrite Ea, Er.
  split; [split; [lia|done]|]. intros bg Hbg. left. congruence.
Qed.
Lemma counted_by {A} (m : LP A) s x s' : shifts 0 m → counted s → m s = (Return x, s') →
  counted s' ∧ (∀ bg, at_ s = Selecting bg → ended bg s').
Proof. intros Hm Hc H. by eapply counted_shift, Hm. Qed.

(** A source that changes is not counted. *)
Lemma counted_put s s' j b b' : counted s → jobs s !! j = Some b → cancelled b' = cancelled b →
  put_job j b' s = (Return tt, s') → counted s' ∧ (∀ bg, at_ s = Selecting bg → ended bg s').
Proof.
  intros Hc Hj Hb H. apply (put_job_shifts _ b) in H as (E & Ea & Er); [|done..].
  apply (counted_shift s); [done|]. split; [lia|done].
Qed.
Lemma begin_counted s bg s' : counted s → at_ s = Starting bg → begin_run call bg s = (Return tt, s') → counted s'.
Proof.
  intros [Hb Hr] Ha H. unfold background in Hb. rewrite Ha in Hb, Hr. unfold begin_run in H.
  apply run_bind_return in H as (u & s1 & H1 & H). apply run_bind_return in H as (v & s2 & H2 & H).
  destruct (runAux_shifts _ _ _ H1) as (E1 & Ea1 & Er1).
  assert (balance s2 = weight bg ∧ running s2 = true) as [Hb2 Hr2].
  { destruct bg; [apply shifts_count in H2 as (? & ? & ->)|injection H2 as _ <-];
      unfold weight; (split; [lia|rewrite Er1; by apply Hr]). }
  by destruct (continue_counted bg s2 tt s' Hb2 Hr2 H).
Qed.
Lemma receives_counted s bg j s' : counted s → at_ s = Selecting bg →
  (_ ← receive call j; continue_ bg) s = (Return tt, s') → counted s' ∧ ended bg s'.
Proof.
  intros [Hb Hr] Ha H. apply run_bind_return in H as (u & s1 & H1 & H).
  destruct (receive_shifts _ _ _ _ H1) as (E1 & Ea1 & Er1). apply (continue_counted bg s1 tt); [| |exact H].
  - unfold background in Hb. rewrite Ha in Hb. lia.
  - rewrite Er1. apply Hr. by rewrite Ha.
Qed.
Lemma wakes_counted s bg s' : counted s → at_ s = Selecting bg →
  (_ ← run_modify (set_wakeup false); _ ← runAux call; s ← run_get; if negb (canRun s) then leave bg else continue_ bg) s
    = (Return tt, s') → counted s' ∧ ended bg s'.
Proof.
  intros [Hb Hr] Ha. go. destruct (runAux call (set_wakeup false s)) as [[[]|e|] s1] eqn:H1; [|done..].
  destruct (runAux_shifts _ _ _ H1) as (E1 & Ea1 & Er1).
  assert (balance s1 = weight bg ∧ running s1 = true) as [Hb1 Hr1].
  { unfold background in Hb. rewrite Ha in Hb. unfold balance in *. cbn in *. rewrite Er1. split; [lia|]. apply Hr. by rewrite Ha. }
  rewrite run_bind_unfold, run_get_unfold. destruct (canRun s1) eqn:Hcan; cbn [negb]; intros H; [exact (continue_counted bg s1 tt s' Hb1 Hr1 H)|].
  destruct (leave_counted bg s1 tt s' Hb1 H) as (Hc & Hi & Hk & _). split; [done|]. right. split; [done|]. left. congruence.
Qed.
Lemma setRunning_counted s s' : counted s → setRunning s = (Return tt, s') → at_ s = Idle ∧
  balance s' = 0 ∧ at_ s' = Idle ∧ running s' = true.
Proof.
  intros [Hb Hr]. unfold setRunning. go. destruct (running s) eqn:E; go; [done|]. intros [= <-].
  assert (at_ s = Idle) as Ha by (destruct (decide (at_ s = Idle)) as [?|Hne]; [done|by specialize (Hr Hne)]).
  unfold background in Hb. rewrite Ha in Hb. unfold balance in *. by cbn.
Qed.

Lemma happen_counted e s s' : counted s → happen call e s = (Return tt, s') →
  counted s' ∧ (∀ bg, at_ s = Selecting bg → ended bg s').
Proof.
  intros Hc.
  assert (∀ A (m : LP A), shifts 0 m → (_ ← m; mret tt) s = (Return tt, s') →
    counted s' ∧ (∀ bg, at_ s = Selecting bg → ended bg s')) as Kr.
  { intros A m Hm. apply counted_by; [|done]. by eapply shifts_bind; [exact Hm|intros; apply shifts_ret|]. }
  pose proof (counted_by (mret tt) s tt s' (shifts_ret tt) Hc) as K0.
  unfold happen, goes_off, ends. rewrite run_bind_unfold, run_get_unfold.
  destruct e as [j|j| |j| |f|f|f|t|f|i| |f|].
  - destruct (jobs s !! j) as [b|] eqn:Hj; [|exact K0]. destruct (timer b); [by apply (counted_put _ _ j b)|exact K0..].
  - destruct (jobs s !! j) as [b|] eqn:Hj; [|exact K0].
    destruct (of_kind b), (timer b), (stopped b); try exact K0. by apply (counted_put _ _ j b).
  - destruct (at_ s) as [|bg|bg] eqn:Ha; try exact K0. intros H. split; [by apply (begin_counted s bg)|done].
  - destruct (at_ s) as [|bg|bg] eqn:Ha, (jobs s !! j) as [b|] eqn:Hj; try exact K0.
    destruct (timer b); try exact K0. intros H. destruct (receives_counted s bg j s' Hc Ha H). by split; [|intros ? [= <-]].
  - destruct (at_ s) as [|bg|bg] eqn:Ha, (wakeupChan s); try exact K0.
    intros H. destruct (wakes_counted s bg s' Hc Ha H). by split; [|intros ? [= <-]].
  - apply counted_by; [apply Hcall|done].
  - apply counted_by; [apply (shifts_addAuxJob (AuxRun f))|done].
  - apply Kr, SetTimeout_shifts.
  - apply counted_by; [apply (shifts_addAuxJob (AuxClearTimeout t))|done].
  - apply Kr, SetInterval_shifts.
  - apply counted_by; [apply (shifts_addAuxJob (AuxClearInterval i))|done].
  - unfold Start. intros H. apply run_bind_return in H as (v & s1 & H & [= <-]).
    apply run_bind_return in H as ([] & s0 & H0 & H).
    destruct (setRunning_counted s s0 Hc H0) as (Hi & Hb & Ha & Hr). rewrite Hi. split; [|done].
    injection H as _ <-. unfold counted, background, balance in *. cbn. done.
  - unfold Run_. intros H. apply run_bind_return in H as ([] & s0 & H0 & H).
    destruct (setRunning_counted s s0 Hc H0) as (Hi & Hb & Ha & Hr). rewrite Hi. split; [|done].
    apply run_bind_return in H as ([] & s1 & H1 & [= <-]). destruct (proj1 (Hcall f) _ _ _ H1) as (E & _ & Er).
    unfold counted, background, balance in *. cbn in *. split; [lia|congruence].
  - apply counted_by; [apply StopNoWait_shifts|done].
Qed.

Lemma happen_all_counted es : ∀ s s', counted s → happen_all call es s = (Return tt, s') → counted s'.
Proof.
  induction es as [|e es IH]; cbn [happen_all]; intros s s' Hc H; [by injection H as <-|].
  apply run_bind_return in H as ([] & s1 & H1 & H). by apply (IH s1); [apply (happen_counted e s)|].
Qed.
End counting.

(** ** Functions that clear no job of their own *)

(** A computation that returns does what another one does. *)
Definition follows {St A} (m m' : Run St A) : Prop := ∀ s x s', m s = (Return x, s') → m' s = (Return x, s').
Lemma follows_bind {St A B} (m m' : Run St A) (k k' : A → Run St B) :
  follows m m' → (∀ a, follows (k a) (k' a)) → follows (m ≫= k) (m' ≫= k').
Proof.
  intros Hm Hk s x s' H. apply run_bind_return in H as (a & s1 & H1 & H2). apply run_bind_return.
  exists a, s1. split; [by apply Hm|by apply Hk].
Qed.
Lemma follows_refl {St A} (m : Run St A) : follows m m.
Proof. by intros s x s'. Qed.

Section calls.
Context {F VM : Type} (call call' : F → Run (EventLoop F VM) unit) (Hfollow : ∀ f, follows (call f) (call' f)).
Ltac follow := repeat first [apply follows_refl | apply Hfollow | apply follows_bind; [|intros ?] |
  match goal with |- follows (match ?x with _ => _ end) _ => destruct x end].

Lemma do_once_follows j : follows (do_once call j) (do_once call' j).
Proof. unfold do_once. follow. Qed.
Lemma run_all_follows l : follows (run_all call l) (run_all call' l).
Proof.
  induction l as [|a l IH]; cbn [run_all]; [follow|]. apply follows_bind; [|intros _; exact IH].
  destruct a; cbn [run_aux]; follow.
Qed.
Lemma runAux_follows : follows (runAux call) (runAux call').
Proof. unfold runAux. follow. apply run_all_follows. Qed.
Lemma receive_follows j : follows (receive call j) (receive call' j).
Proof. unfold receive, doTimeout, doInterval. follow; apply do_once_follows. Qed.
Lemma happen_follows e : follows (happen call e) (happen call' e).
Proof.
  unfold happen, begin_run, Run_. apply follows_bind; [follow|intros s].
  destruct e; follow; apply run_all_follows.
Qed.
Lemma happen_all_follows es : follows (happen_all call es) (happen_all call' es).
Proof. induction es as [|e es IH]; cbn [happen_all]; [follow|]. apply follows_bind; [apply happen_follows|intros _; exact IH]. Qed.
End calls.

Lemma happen_all_app {F VM} (call : F → Run (EventLoop F VM) unit) es e s s1 s' :
  happen_all call es s = (Return tt, s1) → happen_all call (es ++ [e]) s = (Return tt, s') → happen call e s1 = (Return tt, s').
Proof.
  revert s. induction es as [|e0 es IH]; intros s; cbn [happen_all app].
  - intros [= <-] H. apply run_bind_return in H as ([] & s2 & H1 & [= <-]). done.
  - intros H H'. apply run_bind_return in H as ([] & s2 & H1 & H). apply run_bind_return in H' as ([] & s3 & H1' & H').
    rewrite H1 in H1'. injection H1' as <-. by apply (IH s2).
Qed.

Section functions.
Context {F VM : Type} `{EqDecision F} (body : F → script F VM).
Implicit Types (s : EventLoop F VM) (f : F) (j : id).

Definition call f : Run (EventLoop F VM) unit := exec (body f).

(** Between two states a job of [f] was cleared. *)
Definition clears_own f s s' : Prop := map_Exists (λ j b, cancelled b = false ∧ fn b = f ∧
  match jobs s' !! j with Some b' => cancelled b' = true | None => True end) (jobs s).
#[local] Instance clears_own_dec f s s' : Decision (clears_own f s s').
Proof.
  apply map_Exists_dec. intros j b. apply and_dec; [apply _|]. apply and_dec; [apply _|]. destruct (jobs s' !! j); apply _.
Defined.
(** The same calls, given up where one clears a job of its own; and the events
    in which that does not happen. *)
Definition sparing f : Run (EventLoop F VM) unit := λ s,
  let '(x, s') := call f s in if bool_decide (clears_own f s s') then (Block, s') else (x, s').
Definition spared (rt : VM) (es : list event) : Prop := (happen_all sparing es (NewEventLoop rt)).1 = Return tt.

Lemma sparing_call f : follows (sparing f) (call f).
Proof. intros s x s'. unfold sparing. destruct (call f s) as [x1 s1]. by case_bool_decide. Qed.
Lemma sparing_behaves f : behaves sparing f.
Proof.
  split.
  - intros s x s' H. apply sparing_call in H. by eapply exec_shifts.
  - intros s s' j b H Hj Hc Hf. unfold sparing in H. destruct (call f s) as [x1 s1]. case_bool_decide as Hown; [done|].
    injection H as -> ->. destruct (jobs s' !! j) as [b'|] eqn:Hj'.
    + exists b'. split; [done|]. destruct (cancelled b') eqn:Hc'; [|done]. destruct Hown. exists j, b. by rewrite Hj'.
    + destruct Hown. exists j, b. by rewrite Hj'.
Qed.
Lemma spared_run rt es s : happen_all call es (NewEventLoop rt) = (Return tt, s) → spared rt es →
  happen_all sparing es (NewEventLoop rt) = (Return tt, s).
Proof.
  intros H Hs. unfold spared in Hs. destruct (happen_all sparing es (NewEventLoop rt)) as [x s'] eqn:E. cbn in Hs. subst x.
  apply (happen_all_follows sparing call sparing_call) in E. congruence.
Qed.

(** C27: the counter of a loop, in every order of events and whatever the
    functions do with the loop (timers, intervals and immediates set and
    cleared, by the script and from Go), as long as none of them cleared a job
    of its own: the counter is the number of jobs that are not cancelled, and
    one for a loop in the background, but for the additions that still wait in
    the queue.  So the loop ends only when it was stopped, or when it has no
    job left that is not cancelled, but for those additions; what [RunOnLoop]
    put into the queue after the last look at it may stay there. *)
Theorem jobCount_counts rt es s : happen_all call es (NewEventLoop rt) = (Return tt, s) → spared rt es →
  jobCount s + pending (auxJobs s) = active (jobs s) + background s ∧
  (∀ e s' bg, happen call e s = (Return tt, s') → spared rt (es ++ [e]) → at_ s = Selecting bg → ended bg s').
Proof.
  intros Hs Hsp. apply (spared_run rt es s Hs) in Hsp.
  assert (counted s) as Hc by (eapply (happen_all_counted sparing sparing_behaves); [|exact Hsp]; done). split.
  - destruct Hc as [Hb _]. unfold balance in Hb. lia.
  - intros e s' bg He Hsp' Ha. unfold spared in Hsp'.
    destruct (happen_all sparing (es ++ [e]) (NewEventLoop rt)) as [x s2] eqn:E. cbn in Hsp'. subst x.
    apply (happen_all_app _ es e _ s s2 Hsp) in E.
    assert (s2 = s') as -> by (apply (happen_follows sparing call sparing_call) in E; congruence).
    by apply (happen_counted sparing sparing_behaves e s s' Hc E).
Qed.
End functions.

(** ** A witness *)

(** Function 0 sets an interval for function 1, and keeps it in the machine;
    function 1 sets a timer for function 2, which clears the interval. *)
Definition clearing (f : nat) : script nat (option nat) :=
  match f with
  | 0%nat => Use (OpSetInterval (Some 1%nat)) (λ i, Work (λ _, i) (λ _, Finish (Return tt)))
  | 1%nat => Use (OpSetTimeout (Some 2%nat)) (λ _, Finish (Return tt))
  | _ => Work Datatypes.id (λ i, Use (OpClearInterval i) (λ _, Finish (Return tt)))
  end.
Definition clearing_events : list (@event nat) :=
  [Runs 0%nat; Begins; GoesOff 0%nat; Receives 0%nat; GoesOff 1%nat].
Lemma jobCount_counts_witness : ∃ s s',
  happen_all (call clearing) clearing_events (NewEventLoop None) = (Return tt, s) ∧
  jobCount s = 2 ∧ jobCount s + pending (auxJobs s) = active (jobs s) + background s ∧
  happen (call clearing) (Receives 1%nat) s = (Return tt, s') ∧ at_ s' = Idle ∧ ended false s'.
Proof.
  destruct (happen_all (call clearing) clearing_events (NewEventLoop None)) as [x s] eqn:E. vm_compute in E. injection E as <- <-.
  do 2 eexists. split; [reflexivity|]. split; [reflexivity|].
  match goal with |- context [active (jobs ?s)] =>
    destruct (jobCount_counts clearing None clearing_events s) as [Hn Hend]; [vm_compute; reflexivity..|] end.
  split; [exact Hn|]. split; [vm_compute; reflexivity|]. split; [reflexivity|].
  eapply (Hend (Receives 1%nat)); [vm_compute; reflexivity..|reflexivity].
Defined.
