(* ===== verification/EventLoopOrder.v ===== *)
(** * The event loop: the order of its jobs, and a timer that clears itself *)
From Stdlib Require Import ZArith Lia.
From stdpp Require Import base gmap strings list fin_maps fin_sets.
From S2P Require Import Prelude Avl SliceUtil Pattern Spec Linker ResourceManager.
From S2P Require Import Storage ProxyStore Scheduler Cache ConfigResources Proxy EventLoop EventLoopTheorems.

(** ** Order *)

Section order.
Context {F : Type}.

(** The script's state is the list of the functions that were run; [body] is
    what a function does besides.  The functions in [P] are only run by way of
    [RunOnLoop]. *)
Abbreviation LP := (Run (EventLoop F (list F))).
Context (P : F → bool) (body : F → LP unit).
Implicit Types (s : EventLoop F (list F)) (f : F) (j : id).
Definition recorded f : LP unit := _ ← run_modify (λ s, set_vm (vm s ++ [f]) s); body f.

Definition only (l : list F) : list F := filter (λ f, P f = true) l.
Definition runs (a : aux F) : list F := match a with AuxRun f => only [f] | _ => [] end.
Definition queued (l : list (aux F)) : list F := l ≫= runs.
Definition safe s : Prop := ∀ j b, jobs s !! j = Some b → P (fn b) = false.

(** A computation that runs [g] of [P], and submits nothing of it. *)
Definition tracks {A} (g : list F) (m : LP A) : Prop := ∀ s x s', m s = (Return x, s') → safe s →
  safe s' ∧ only (vm s') = only (vm s) ++ g ∧ queued (auxJobs s') = queued (auxJobs s).
Context (Hbody : ∀ f, tracks [] (body f)).

Lemma only_app l l' : only (l ++ l') = only l ++ only l'.
Proof. apply filter_app. Qed.
Lemma queued_app l l' : queued (l ++ l') = queued l ++ queued l'.
Proof. apply bind_app. Qed.

Lemma tracks_bind {A B} g1 g2 g (m : LP A) (k : A → LP B) :
  tracks g1 m → (∀ a, tracks g2 (k a)) → g = g1 ++ g2 → tracks g (m ≫= k).
Proof.
  intros Hm Hk -> s x s' H Hs. apply run_bind_return in H as (a & s1 & H1 & H2).
  destruct (Hm _ _ _ H1 Hs) as (Hs1 & E1 & Q1). destruct (Hk a _ _ _ H2 Hs1) as (Hs2 & E2 & Q2).
  split; [done|]. rewrite E2, E1, Q2, Q1. by rewrite app_assoc.
Qed.
Lemma tracks_ret {A} (a : A) : tracks [] (mret a).
Proof. intros s x s' [= <- <-] Hs. by rewrite app_nil_r. Qed.
(** What changes neither the jobs nor the queue. *)
Lemma tracks_modify g : (∀ s, jobs (g s) = jobs s ∧ vm (g s) = vm s ∧ auxJobs (g s) = auxJobs s) → tracks [] (run_modify g).
Proof.
  intros H s x s' [= <- <-] Hs. destruct (H s) as (Hj & Hv & Ha). unfold safe. rewrite Hj, Hv, Ha. by rewrite app_nil_r.
Qed.
Lemma tracks_addAuxJob a : runs a = [] → tracks [] (addAuxJob a).
Proof.
  intros Ha s x s' [= <- <-] Hs. cbn. split; [done|]. rewrite app_nil_r, queued_app. cbn. by rewrite Ha, !app_nil_r.
Qed.
Lemma tracks_new_job b : P (fn b) = false → tracks [] (new_job b).
Proof.
  intros Hb s x s' [= <- <-] Hs. cbn. rewrite app_nil_r. split; [|done].
  intros j b'. cbn. rewrite lookup_insert_Some. intros [[_ <-]|[_ H]]; [done|by eapply Hs].
Qed.
Lemma tracks_put_job j b : P (fn b) = false → tracks [] (put_job j b).
Proof.
  intros Hb s x s' [= <- <-] Hs. cbn. rewrite app_nil_r. split; [|done].
  intros j' b'. cbn. rewrite lookup_insert_Some. intros [[_ <-]|[_ H]]; [done|by eapply Hs].
Qed.
Lemma tracks_get_job {A} g j (k : job F → LP A) : (∀ b, P (fn b) = false → tracks g (k b)) → tracks g (b ← get_job j; k b).
Proof.
  intros Hk s x s' H Hs. apply run_bind_return in H as (b & s1 & H1 & H2). unfold get_job in H1. revert H1. go.
  destruct (jobs s !! j) as [b1|] eqn:Hj; go; [|done]. intros [= <- <-]. apply (Hk b1) in H2; [by apply H2|]. by eapply Hs.
Qed.
Lemma tracks_count d : tracks [] (count d).
Proof. by apply tracks_modify. Qed.
Lemma tracks_clear how handle : (∀ b, fn (how b) = fn b) → tracks [] (clear_with how handle).
Proof.
  intros Hhow. destruct handle as [j|]; [|apply tracks_ret]. apply tracks_get_job. intros b Hb.
  destruct (cancelled b); cbn [negb]; [apply tracks_ret|].
  eapply tracks_bind; [apply tracks_put_job; by rewrite Hhow|intros _; apply tracks_count|done].
Qed.
Lemma tracks_call f : tracks (only [f]) (recorded f).
Proof.
  eapply (tracks_bind (only [f]) []); [|intros _; apply Hbody|by rewrite app_nil_r].
  intros s x s' [= <- <-] Hs. cbn [vm jobs auxJobs set_vm]. by rewrite only_app.
Qed.
Lemma tracks_call_other f : P f = false → tracks [] (recorded f).
Proof. intros Hf. pose proof (tracks_call f) as H. unfold only in H. by rewrite filter_cons_False in H by congruence. Qed.
Lemma tracks_do_once j : tracks [] (do_once recorded j).
Proof.
  apply tracks_get_job. intros b Hb. destruct (cancelled b); cbn [negb]; [apply tracks_ret|].
  eapply tracks_bind; [by apply tracks_call_other|intros _|done]. apply tracks_get_job. intros b' Hb'.
  eapply tracks_bind; [by apply tracks_put_job|intros _; apply tracks_count|done].
Qed.
Lemma tracks_doInterval j : tracks [] (doInterval recorded j).
Proof.
  apply tracks_get_job. intros b Hb. destruct (cancelled b); cbn [negb]; [apply tracks_ret|by apply tracks_call_other].
Qed.
Lemma tracks_receive j : tracks [] (receive recorded j).
Proof.
  apply tracks_get_job. intros b Hb. destruct (of_kind b);
    (eapply tracks_bind; [by apply tracks_put_job|intros _; first [apply tracks_do_once|apply tracks_doInterval]|done]).
Qed.
Lemma tracks_run_aux a : tracks (runs a) (run_aux recorded a).
Proof.
  destruct a; cbn; [apply tracks_count|by apply tracks_clear|by apply tracks_clear|apply tracks_do_once|apply tracks_call].
Qed.
Lemma tracks_run_all l : tracks (queued l) (run_all recorded l).
Proof.
  induction l as [|a l IH]; cbn; [apply tracks_ret|]. by eapply tracks_bind; [apply tracks_run_aux|intros _; apply IH|].
Qed.

(** What has run and what waits, in order. *)
Definition sequence s : list F := only (vm s) ++ queued (auxJobs s).
Definition submitted (e : event) : list F := match e with Submits f => only [f] | _ => [] end.
(** Every other way to run a function is for the others. *)
Definition others (e : event) : Prop :=
  match e with Calls f | SetsTimeout f | SetsInterval f | Runs f => P f = false | _ => True end.

(** A computation that adds [g] to the sequence. *)
Definition adds_to {A} (g : list F) (m : LP A) : Prop := ∀ s x s', m s = (Return x, s') → safe s →
  safe s' ∧ sequence s' = sequence s ++ g.
Lemma adds_nothing {A} (m : LP A) : tracks [] m → adds_to [] m.
Proof.
  intros Hm s x s' H Hs. destruct (Hm _ _ _ H Hs) as (Hs' & E & Q). split; [done|].
  unfold sequence. by rewrite E, Q, !app_nil_r.
Qed.
Lemma adds_bind {A B} g (m : LP A) (k : A → LP B) : adds_to g m → (∀ a, tracks [] (k a)) → adds_to g (m ≫= k).
Proof.
  intros Hm Hk s x s' H Hs. apply run_bind_return in H as (a & s1 & H1 & H2).
  destruct (Hm _ _ _ H1 Hs) as (Hs1 & E1). destruct (adds_nothing _ (Hk a) _ _ _ H2 Hs1) as (Hs2 & E2).
  split; [done|]. by rewrite E2, app_nil_r.
Qed.
Lemma adds_runAux : adds_to [] (runAux recorded).
Proof.
  intros s x s' H Hs. unfold runAux in H. revert H. go. intros H.
  destruct (tracks_run_all _ _ _ _ H) as (Hs' & E & Q); [exact Hs|]. split; [done|].
  unfold sequence. rewrite E, Q. cbn. by rewrite !app_nil_r.
Qed.
Lemma adds_RunOnLoop f : adds_to (only [f]) (RunOnLoop f).
Proof.
  intros s x s' [= <- <-] Hs. split; [done|]. unfold sequence. cbn [vm auxJobs set_auxJobs set_wakeup].
  rewrite queued_app. cbn [queued mbind list_bind runs]. by rewrite app_nil_r, app_assoc.
Qed.

Lemma tracks_leave bg : tracks [] (leave bg).
Proof.
  eapply (tracks_bind [] []); [|intros _; by apply tracks_modify|done]. destruct bg; [apply tracks_count|apply tracks_ret].
Qed.
Lemma tracks_continue bg : tracks [] (continue_ bg).
Proof.
  intros s x s'. unfold continue_. go. destruct (_ <? _); [by apply (tracks_modify (set_phase (Selecting bg)))|apply tracks_leave].
Qed.
Lemma tracks_setRunning : tracks [] setRunning.
Proof. intros s x s'. unfold setRunning. go. destruct (running s); [done|by apply (tracks_modify (λ s, set_canRun true (set_running true s)))]. Qed.
Lemma tracks_StopNoWait : tracks [] StopNoWait.
Proof.
  intros s x s'. unfold StopNoWait, wakeup. go. destruct (running s); go; intros [= <- <-] Hs; cbn; by rewrite app_nil_r.
Qed.

Lemma happen_adds e : others e → adds_to (submitted e) (happen recorded e).
Proof.
  intros He s x s'. pose proof (adds_nothing (mret tt) (tracks_ret tt) s x s') as K0.
  unfold happen, goes_off, ends. rewrite run_bind_unfold, run_get_unfold. destruct e as [j|j| |j| |f|f|f|t|f|i| |f|]; cbn [submitted others] in *.
  - destruct (jobs s !! j) as [b|] eqn:Hj; [|exact K0]. destruct (timer b); try exact K0.
    intros H Hs. apply (adds_nothing _ (tracks_put_job j (set_timer Sending b) (Hs j b Hj)) _ _ _ H Hs).
  - destruct (jobs s !! j) as [b|] eqn:Hj; [|exact K0]. destruct (of_kind b), (timer b), (stopped b); try exact K0.
    intros H Hs. apply (adds_nothing _ (tracks_put_job j (set_timer Gone b) (Hs j b Hj)) _ _ _ H Hs).
  - destruct (at_ s) as [|bg|bg]; try exact K0. apply adds_bind; [apply adds_runAux|intros _].
    eapply (tracks_bind [] []); [destruct bg; [apply tracks_count|apply tracks_ret]|intros _; apply tracks_continue|done].
  - destruct (at_ s) as [|bg|bg], (jobs s !! j) as [b|]; try exact K0. destruct (timer b); try exact K0.
    apply adds_nothing. eapply (tracks_bind [] []); [apply tracks_receive|intros _; apply tracks_continue|done].
  - destruct (at_ s) as [|bg|bg], (wakeupChan s); try exact K0. rewrite run_bind_unfold, run_modify_unfold.
    intros H Hs. assert (adds_to [] (_ ← runAux recorded; s ← run_get; if negb (canRun s) then leave bg else continue_ bg)) as K.
    { apply adds_bind; [apply adds_runAux|intros _ s1 x1 s2]. go.
      destruct (negb (canRun s1)); [apply tracks_leave|apply tracks_continue]. }
    exact (K _ _ _ H Hs).
  - by apply adds_nothing, tracks_call_other.
  - apply adds_RunOnLoop.
  - apply adds_nothing. unfold SetTimeout. eapply (tracks_bind [] []); [|intros _; apply tracks_ret|done].
    eapply (tracks_bind [] []); [by apply tracks_new_job|intros j|done].
    eapply (tracks_bind [] []); [by apply tracks_addAuxJob|intros _; apply tracks_ret|done].
  - by apply adds_nothing, tracks_addAuxJob.
  - apply adds_nothing. unfold SetInterval. eapply (tracks_bind [] []); [|intros _; apply tracks_ret|done].
    eapply (tracks_bind [] []); [by apply tracks_new_job|intros j|done].
    eapply (tracks_bind [] []); [by apply tracks_addAuxJob|intros _; apply tracks_ret|done].
  - by apply adds_nothing, tracks_addAuxJob.
  - apply adds_nothing. unfold Start. eapply (tracks_bind [] []); [|intros _; apply tracks_ret|done].
    eapply (tracks_bind [] []); [apply tracks_setRunning|intros _|done].
    eapply (tracks_bind [] []); [by apply tracks_modify|intros _ s1 x1 s2|done]. go. apply (tracks_ret (vm s1)).
  - apply adds_nothing. unfold Run_. eapply (tracks_bind [] []); [apply tracks_setRunning|intros _|done].
    eapply (tracks_bind [] []); [by apply tracks_call_other|intros _; by apply tracks_modify|done].
  - apply adds_nothing, tracks_StopNoWait.
Qed.

(** the functions that are given to [RunOnLoop] run in that order, each
    once: in every order of events, those that have run, followed by those that
    wait in the queue, are those that were given.  (Timers, intervals,
    immediates and calls from outside run other functions; what a function does
    besides is arbitrary, but that it submits none of these itself.) *)
Theorem RunOnLoop_in_order es s : Forall others es → happen_all recorded es (NewEventLoop []) = (Return tt, s) →
  only (vm s) ++ queued (auxJobs s) = es ≫= submitted.
Proof.
  intros He. assert (∀ s0, safe s0 → happen_all recorded es s0 = (Return tt, s) → sequence s = sequence s0 ++ (es ≫= submitted)) as H.
  { induction He as [|e es He _ IH]; cbn [happen_all]; intros s0 Hs H; [injection H as <-; cbn; by rewrite app_nil_r|].
    apply run_bind_return in H as ([] & s1 & H1 & H). destruct (happen_adds e He _ _ _ H1 Hs) as (Hs1 & E).
    rewrite (IH s1 Hs1 H), E. cbn. by rewrite app_assoc. }
  intros Hs. apply (H (NewEventLoop [])); [|done]. intros j b. cbn. by rewrite lookup_empty.
Qed.
End order.

(** ** A timer that clears itself *)

Section self_clear.
Context {F VM : Type} (call : F → Run (EventLoop F VM) unit).
Implicit Types (s : EventLoop F VM).

(** Nothing runs while there is no loop, unless it is started or called. *)
Definition outside (e : event (F := F)) : Prop := match e with Starts | Runs _ | Calls _ => False | _ => True end.
Definition still s s' : Prop := at_ s' = Idle ∧ running s' = false ∧ vm s' = vm s ∧
  ∀ t b, jobs s !! t = Some b → ∃ b', jobs s' !! t = Some b' ∧ cancelled b' = cancelled b.

Lemma still_refl s : at_ s = Idle → running s = false → still s s.
Proof. intros Ha Hr. repeat split; [done..|]. by eexists. Qed.
Lemma still_put s j b b' : at_ s = Idle → running s = false → jobs s !! j = Some b → cancelled b' = cancelled b →
  still s (set_jobs (<[j := b']> (jobs s)) s).
Proof.
  intros Ha Hr Hj Hc. repeat split; [done..|]. intros t b1 Ht. cbn. destruct (decide (t = j)) as [->|Hne].
  - rewrite lookup_insert_eq. eexists. split; [done|]. congruence.
  - rewrite lookup_insert_ne by done. by eexists.
Qed.
Lemma still_new s b l w : at_ s = Idle → running s = false →
  still s (set_wakeup w (set_auxJobs l (set_jobs (<[fresh (dom (jobs s)) := b]> (jobs s)) s))).
Proof.
  intros Ha Hr. repeat split; [done..|]. intros t b1 Ht. cbn. rewrite lookup_insert_ne; [by eexists|].
  intros <-. apply elem_of_dom_2 in Ht. by apply is_fresh in Ht.
Qed.
Lemma idle_still e s : at_ s = Idle → running s = false → outside e → ∃ s', happen call e s = (Return tt, s') ∧ still s s'.
Proof.
  intros Ha Hr He. unfold happen, goes_off, ends. rewrite run_bind_unfold, run_get_unfold. rewrite Ha.
  pose proof (still_refl s Ha Hr) as K0. destruct e; try done.
  - destruct (jobs s !! j) as [b|] eqn:Hj; [|by eexists]. destruct (timer b); [|by eexists..].
    eexists. split; [reflexivity|]. by apply (still_put s j b).
  - destruct (jobs s !! j) as [b|] eqn:Hj; [|by eexists]. destruct (of_kind b), (timer b), (stopped b); try by eexists.
    eexists. split; [reflexivity|]. by apply (still_put s j b).
  - by eexists.
  - by eexists.
  - by eexists.
  - by eexists.
  - eexists. split; [reflexivity|]. by apply (still_new s _ _ true).
  - by eexists.
  - eexists. split; [reflexivity|]. by apply (still_new s _ _ true).
  - by eexists.
  - unfold StopNoWait. go. rewrite Hr. by eexists.
Qed.
Lemma idle_still_all es : Forall outside es → ∀ s, at_ s = Idle → running s = false →
  ∃ s', happen_all call es s = (Return tt, s') ∧ still s s'.
Proof.
  induction 1 as [|e es He _ IH]; intros s Ha Hr; cbn [happen_all]; [eexists; split; [done|by apply still_refl]|].
  destruct (idle_still e s Ha Hr He) as (s1 & E1 & (Ha1 & Hr1 & Hv1 & Hj1)). go. rewrite E1.
  destruct (IH s1 Ha1 Hr1) as (s2 & E2 & (Ha2 & Hr2 & Hv2 & Hj2)). exists s2. split; [done|].
  split; [done|]. split; [done|]. split; [congruence|]. intros t b Ht.
  destruct (Hj1 t b Ht) as (b1 & Ht1 & <-). by apply Hj2.
Qed.

Lemma self_clear_receives s j b : at_ s = Selecting true → jobs s !! j = Some b → of_kind b = Timer →
  timer b = Sending → cancelled b = false → call (fn b) = clearTimeout (Some j) → jobCount s = 2 → auxJobs s = [] →
  ∃ s1, happen call (Receives j) s = (Return tt, s1) ∧ at_ s1 = Idle ∧ running s1 = false ∧ jobCount s1 = -1 ∧
    auxJobs s1 = [] ∧ vm s1 = vm s.
Proof.
  intros Ha Hj Hk Ht Hc Hcall Hn Hq. unfold happen. go. rewrite Ha, Hj, Ht. unfold receive, get_job. go. rewrite Hj. go.
  rewrite Hk. unfold doTimeout, do_once, get_job, put_job. go. cbn [jobs set_jobs]. rewrite lookup_insert_eq. go.
  cbn [cancelled set_timer]. rewrite Hc. cbn [negb]. go. cbn [fn set_timer]. rewrite Hcall.
  unfold clearTimeout, clear_with, get_job, put_job, count. go. cbn [jobs set_jobs]. rewrite lookup_insert_eq. go.
  cbn [cancelled set_timer]. rewrite Hc. cbn [negb]. go. cbn [jobs set_jobs add_count]. rewrite lookup_insert_eq. go.
  unfold continue_, leave, count. go. cbn [jobCount set_jobs add_count]. rewrite Hn. cbn. go.
  eexists. split; [reflexivity|]. cbn. rewrite Hn, Hq. done.
Qed.
Lemma start_ends s f : at_ s = Idle → running s = false → jobCount s = -1 → auxJobs s = [] →
  ∃ t s2, (_ ← Start; _ ← happen call Begins; setTimeout (Some f)) s = (Return (Some t), s2) ∧
    at_ s2 = Idle ∧ running s2 = false ∧ vm s2 = vm s ∧ ∃ b, jobs s2 !! t = Some b ∧ cancelled b = false.
Proof.
  intros Ha Hr Hn Hq. eexists _, _. unfold Start, setRunning. go. rewrite Hr. go. unfold happen. go. cbn [at_ set_phase].
  unfold begin_run, runAux. go. cbn [auxJobs set_phase set_running set_canRun set_auxJobs]. rewrite Hq. cbn [run_all]. go.
  unfold continue_, count, leave. go. cbn [jobCount add_count set_phase set_running set_canRun set_auxJobs]. rewrite Hn.
  cbn. go. split; [reflexivity|]. cbn. repeat split. eexists. split; [by rewrite lookup_insert_eq|done].
Qed.

(** C28: a timer whose function clears it is counted twice when it goes off.  A
    loop in the background that has nothing else to do ends by that, and leaves
    the counter one too small: when it is started again it ends at once, and a
    timer that is set then is never run, whatever happens until the loop is
    started once more. *)
Theorem self_clear_ends_loop s j b f es : at_ s = Selecting true → jobs s !! j = Some b → of_kind b = Timer →
  timer b = Sending → cancelled b = false → call (fn b) = clearTimeout (Some j) → jobCount s = 2 → auxJobs s = [] →
  Forall outside es →
  ∃ s1 t s2 s3, happen call (Receives j) s = (Return tt, s1) ∧ at_ s1 = Idle ∧ jobCount s1 = -1 ∧
    (_ ← Start; _ ← happen call Begins; setTimeout (Some f)) s1 = (Return (Some t), s2) ∧
    happen_all call es s2 = (Return tt, s3) ∧ at_ s3 = Idle ∧ vm s3 = vm s ∧
    (cancelled <$> jobs s3 !! t) = Some false.
Proof.
  intros Ha Hj Hk Ht Hc Hcall Hn Hq Hes.
  destruct (self_clear_receives s j b Ha Hj Hk Ht Hc Hcall Hn Hq) as (s1 & E1 & Ha1 & Hr1 & Hn1 & Hq1 & Hv1).
  destruct (start_ends s1 f Ha1 Hr1 Hn1 Hq1) as (t & s2 & E2 & Ha2 & Hr2 & Hv2 & b2 & Hb2 & Hc2).
  destruct (idle_still_all es Hes s2 Ha2 Hr2) as (s3 & E3 & Ha3 & Hr3 & Hv3 & Hj3).
  exists s1, t, s2, s3. destruct (Hj3 t b2 Hb2) as (b3 & Hb3 & Hc3). rewrite Hb3. cbn. rewrite Hc3, Hc2.
  split_and!; try done. by rewrite Hv3, Hv2.
Qed.
End self_clear.

(** ** Witnesses *)

Section witness.

(** Functions are numbers: 0 clears the timer 0, the others do nothing. *)
Definition script (f : nat) : Run (EventLoop nat (list nat)) unit :=
  match f with O => clearTimeout (Some 0%nat) | S _ => mret tt end.
Definition about_to_clear : EventLoop nat (list nat) :=
  MkLoop [] {[0%nat := MkJob false 0%nat Timer Sending false]} 2 true false [] true (Selecting true).
Lemma self_clear_ends_loop_witness : ∃ s1 t s2 s3,
  happen script (Receives 0%nat) about_to_clear = (Return tt, s1) ∧ jobCount s1 = -1 ∧
  (_ ← Start; _ ← happen script Begins; setTimeout (Some 1%nat)) s1 = (Return (Some t), s2) ∧
  happen_all script [GoesOff 1%nat; Receives 1%nat; WakesUp] s2 = (Return tt, s3) ∧ vm s3 = [] ∧
  (cancelled <$> jobs s3 !! t) = Some false.
Proof.
  destruct (self_clear_ends_loop script about_to_clear 0%nat (MkJob false 0%nat Timer Sending false) 1%nat
    [GoesOff 1%nat; Receives 1%nat; WakesUp]) as (s1 & t & s2 & s3 & E1 & _ & En & E2 & E3 & _ & Ev & Hc);
    [reflexivity..|repeat constructor|].
  exists s1, t, s2, s3. repeat (split; [assumption|]). exact Hc.
Defined.

(** Functions that record themselves; the even ones go through [RunOnLoop]. *)
Lemma RunOnLoop_in_order_witness : ∃ s,
  happen_all (recorded (λ _, mret tt)) [Starts; Begins; Submits 2%nat; SetsTimeout 1%nat; Submits 4%nat; WakesUp; GoesOff 0%nat;
    Receives 0%nat; Submits 6%nat] (NewEventLoop []) = (Return tt, s) ∧ vm s = [2; 4; 1]%nat ∧
  only Nat.even (vm s) ++ queued Nat.even (auxJobs s) = [2; 4; 6]%nat.
Proof.
  eexists. split; [vm_compute; reflexivity|]. split; [reflexivity|].
  apply (RunOnLoop_in_order Nat.even (λ _, mret tt) (λ _, tracks_ret _ tt) [Starts; Begins; Submits 2%nat; SetsTimeout 1%nat;
    Submits 4%nat; WakesUp; GoesOff 0%nat; Receives 0%nat; Submits 6%nat]); [repeat constructor|vm_compute; reflexivity].
Defined.
End witness.
