(* ===== verification/AdminClient.v ===== *)
(** * pkg/dgclient: the client of the admin API

    A client keeps the URL of the server, and its methods write the query of a
    request into that URL.  The raw query is kept parsed, because [Query] and
    [Encode] are inverse to each other, and paths are taken without escapes.
    The http.Client is shared with whoever gave it, so it lives in a store.
    Sending a request, encoding/json, [url.Parse] and the checks of
    [http.NewRequest] are parameters. *)
From Stdlib Require Import ZArith Lia Ascii.
From stdpp Require Import base gmap strings list fin_maps pretty.
From S2P Require Import Prelude Avl SliceUtil Pattern Base64 Spec Linker ResourceManager.
From S2P Require Import Storage ProxyStore Scheduler Cache ConfigResources Proxy Http RaftAdmin.
Import Pattern.Strings.

(** ** Package strings *)

(** [s] without its first [n] characters. *)
Fixpoint drop_chars (n : nat) (s : string) : string :=
  match n, s with
  | S n, String _ s => drop_chars n s
  | _, _ => s
  end.
(** [strings.SplitN(s, sep, 2)] where [sep] occurs: what is before its first
    occurrence and what is after it; [None] where it does not occur. *)
Fixpoint split_once (sep s : string) : option (string * string) :=
  if HasPrefix s sep then Some ("", drop_chars (String.length sep) s)
  else match s with
       | EmptyString => None
       | String c s => match split_once sep s with Some (a, b) => Some (String c a, b) | None => None end
       end.

(** ** Data *)

Record ListResponseWrapper (T : Type) : Type := MkListWrapper { lw_StatusCode : Z; lw_Count : Z; lw_Data : list T }.
Record ResponseWrapper (T : Type) : Type := MkWrapper { rw_StatusCode : Z; rw_Count : Z; rw_Data : T }.
Arguments lw_Data {T} _.
Arguments rw_Data {T} _.
(** The fields of [M] in [commonDelete], and of the error of the API. *)
Record delete_payload : Type := MkDelete { d_name : string; d_namespace : string }.
Record api_error : Type := MkApiError { Error : string }.

(** [url.Values] *)
Definition Values : Type := gmap string (list string).
Definition Values_Set (k v : string) (q : Values) : Values := <[k := [v]]> q.
Definition Values_Get (q : Values) (k : string) : string := default "" (head (default [] (q !! k))).

Record base_url : Type := MkBase { b_Scheme : string; b_Host : string; b_Path : string; b_Query : Values }.

(** [url.JoinPath] *)
Definition nonempty (e : string) : bool := negb (String.eqb e "").
Definition Join_all (elem : list string) : string :=
  match filter nonempty elem with [] => "" | es => Clean (String.concat "/" es) end.
Definition JoinPath (u : base_url) (elem : list string) : base_url :=
  let first := if HasPrefix (b_Path u) "/" then b_Path u else "/" +:+ b_Path u in
  let p := Join_all (first :: elem) in
  let p := if HasSuffix (default first (last elem)) "/" && negb (HasSuffix p "/") then p +:+ "/" else p in
  MkBase (b_Scheme u) (b_Host u) p (b_Query u).

Record sent : Type := MkSent { s_Method : string; s_URL : base_url; s_Header : Header; s_Body : string }.

(** [http.RoundTripper]: the default one, the client's own around another, or
    any other; and the fields of http.Client that are set. *)
Inductive transport : Type :=
  | DefaultTransport
  | CustomTransport (UserAgent Username Password : string) (VerboseLog : bool) (inner : transport)
  | OtherTransport (n : nat).
Record http_client : Type := MkHttpClient { Transport : option transport; CheckRedirect : option bool }.
(** [http.DefaultClient] *)
Definition DefaultClient : loc := 0%N.

Section code.
Context {W : Type} {json : ∀ T : Type, JSON T}.

(** [client] is nil until [Init]. *)
Record dgateClient : Type := MkClient {
  client : option loc; baseUrl : base_url; clients : gmap loc http_client; world : W }.
Abbreviation CL := (Run dgateClient).
Implicit Types (d : dgateClient) (u : base_url).

Definition set_baseUrl u d := MkClient (client d) u (clients d) (world d).
Definition set_client l d := MkClient (Some l) (baseUrl d) (clients d) (world d).
Definition set_clients cs d := MkClient (client d) (baseUrl d) cs (world d).
Definition set_world w d := MkClient (client d) (baseUrl d) (clients d) w.

Context (Do : http_client → sent → Run W (gores (Z * string))).
Context (Parse : string → gores base_url) (new_request : string → base_url → option error).

(** ** common.go *)

Definition validateStatusCode (code : Z) : option error :=
  if code <? 300 then None
  else if code <? 400 then Some "redirect from server; retry with the --follow flag"
  else Some (pretty code +:+ " error from server").
Definition parseApiError (body : string) (wrapErr : error) : error :=
  match Decode body with
  | Ok apiError => if String.eqb (Error apiError) "" then wrapErr else wrapErr +:+ ": " +:+ Error apiError
  | Err _ => wrapErr
  end.

Definition the_client : CL http_client :=
  d ← run_get;
  match client d ≫= λ l, clients d !! l with Some c => mret c | None => run_panic "nil pointer dereference" end.
Definition on_world {A} (m : Run W A) : CL A := λ d, let '(x, w) := m (world d) in (x, set_world w d).
Definition client_Do (req : sent) : CL (gores (Z * string)) :=
  c ← the_client; on_world (Do c req).

(** A request, up to the status of its answer: the body of a good one. *)
Definition send (method : string) (uri : base_url) (h : Header) (body : string) : CL (gores string) :=
  match new_request method uri with
  | Some err => mret (Err err)
  | None =>
      resp ← client_Do (MkSent method uri h body);
      mret match resp with
           | Err err => Err err
           | Ok (code, body) =>
               match validateStatusCode code with
               | Some err => Err (parseApiError body err)
               | None => Ok body
               end
           end
  end.
Definition commonGetList (T : Type) (uri : base_url) : CL (gores (list T)) :=
  r ← send "GET" uri ∅ "";
  mret match r with
       | Err err => Err err
       | Ok body => match Decode (T := ListResponseWrapper T) body with Ok items => Ok (lw_Data items) | Err err => Err err end
       end.
Definition commonGet (T : Type) (uri : base_url) : CL (gores T) :=
  r ← send "GET" uri ∅ "";
  mret match r with
       | Err err => Err err
       | Ok body => match Decode (T := ResponseWrapper T) body with Ok item => Ok (rw_Data item) | Err err => Err err end
       end.
Definition failed {A} (r : gores A) : option error := match r with Err err => Some err | Ok _ => None end.
Definition commonPut {T : Type} (uri : base_url) (item : T) : CL (option error) :=
  match Encode item with
  | Err err => mret (Some err)
  | Ok nsJson => r ← send "PUT" uri (Set_ "Content-Type" "application/json" ∅) nsJson; mret (failed r)
  end.
Definition basicDelete (uri : base_url) (rdr : string) : CL (option error) :=
  r ← send "DELETE" uri ∅ rdr; mret (failed r).
Definition commonDelete (uri : base_url) (name namespace : string) : CL (option error) :=
  match Encode (MkDelete name namespace) with
  | Err err => mret (Some err)
  | Ok payload => basicDelete uri payload
  end.

(** ** dgclient.go *)

Definition update_client (g : http_client → http_client) : CL unit :=
  c ← the_client;
  run_modify (λ d, match client d with Some l => set_clients (<[l := g c]> (clients d)) d | None => d end).
Definition set_transport (t : transport) (c : http_client) : http_client := MkHttpClient (Some t) (CheckRedirect c).
(** The transport as another one's inner transport; [Init] has set it. *)
Definition inner_of (c : http_client) : transport := default DefaultTransport (Transport c).

Definition WithBasicAuth (username password : string) : CL unit :=
  update_client (λ c, set_transport
    match Transport c with
    | Some (CustomTransport ua _ _ v t) => CustomTransport ua username password v t
    | _ => CustomTransport "" username password false (inner_of c)
    end c).
Definition WithFollowRedirect (follow : bool) : CL unit :=
  update_client (λ c, MkHttpClient (Transport c) (Some follow)).
Definition WithUserAgent (ua : string) : CL unit :=
  update_client (λ c, set_transport
    match Transport c with
    | Some (CustomTransport _ u p v _) => CustomTransport ua u p v DefaultTransport
    | _ => CustomTransport ua "" "" false (inner_of c)
    end c).
Definition WithVerboseLogging (on : bool) : CL unit :=
  update_client (λ c, set_transport
    match Transport c with
    | Some (CustomTransport ua u p _ t) => CustomTransport ua u p on t
    | _ => CustomTransport "" "" "" on (inner_of c)
    end c).

(** [customTransport.RoundTrip], up to the inner transport; [SetBasicAuth] sets
    a header. *)
Definition round_trip (ua username password : string) (h : Header) : Header :=
  let h := if negb (String.eqb username "") || negb (String.eqb password "")
           then Set_ "Authorization" ("Basic " +:+ EncodeToString (username +:+ ":" +:+ password)) h else h in
  if negb (String.eqb ua "") then Set_ "User-Agent" ua h else h.

(** The header of a request as it leaves, by one transport after another. *)
Fixpoint transported (t : transport) (h : Header) : Header :=
  match t with
  | CustomTransport ua username password _ inner => transported inner (round_trip ua username password h)
  | DefaultTransport | OtherTransport _ => h
  end.

Fixpoint apply_options (opts : list (option (CL unit))) : CL unit :=
  match opts with
  | [] => mret tt
  | Some opt :: opts => _ ← opt; apply_options opts
  | None :: opts => apply_options opts
  end.
Definition Init (url : string) (c : option loc) (opts : list (option (CL unit))) : CL (option error) :=
  let url := if Contains url "://" then url else "http://" +:+ url in
  match Parse url with
  | Err err => mret (Some err)
  | Ok bUrl =>
      if String.eqb (b_Host bUrl) "" then mret (Some "host is empty") else
      _ ← run_modify (set_baseUrl bUrl);
      _ ← run_modify (set_client (default DefaultClient c));
      c ← the_client;
      _ ← match Transport c with None => update_client (set_transport DefaultTransport) | Some _ => mret tt end;
      _ ← apply_options opts;
      mret None
  end.

(** ** The resources *)

Definition path (elem : list string) : CL base_url := d ← run_get; mret (JoinPath (baseUrl d) elem).
(** [query := d.baseUrl.Query(); query.Set(k, v)], and its assignment to
    [d.baseUrl.RawQuery]. *)
Definition query (sets : list (string * string)) (q : Values) : Values :=
  foldl (λ q kv, Values_Set kv.1 kv.2 q) q sets.
Definition set_query (sets : list (string * string)) : CL unit :=
  run_modify (λ d, let u := baseUrl d in
    set_baseUrl (MkBase (b_Scheme u) (b_Host u) (b_Path u) (query sets (b_Query u))) d).

Definition GetNamespace (name : string) : CL (gores Namespace.t) :=
  uri ← path ["/api/v1/namespace"; name]; commonGet Namespace.t uri.
Definition CreateNamespace (ns : Namespace.t) : CL (option error) := uri ← path ["/api/v1/namespace"]; commonPut uri ns.
Definition DeleteNamespace (name : string) : CL (option error) := uri ← path ["/api/v1/namespace"]; commonDelete uri name "".
Definition ListNamespace : CL (gores (list Namespace.t)) := uri ← path ["/api/v1/namespace"]; commonGetList Namespace.t uri.

Definition GetModule (name namespace : string) : CL (gores Module_.t) :=
  _ ← set_query [("namespace", namespace)]; uri ← path ["/api/v1/module"; name]; commonGet Module_.t uri.
Definition CreateModule (mod_ : Module_.t) : CL (option error) := uri ← path ["/api/v1/module"]; commonPut uri mod_.
Definition DeleteModule (name namespace : string) : CL (option error) :=
  uri ← path ["/api/v1/module"]; commonDelete uri name namespace.
Definition ListModule (namespace : string) : CL (gores (list Module_.t)) :=
  _ ← set_query [("namespace", namespace)]; uri ← path ["/api/v1/module"]; commonGetList Module_.t uri.

Definition GetRoute (name namespace : string) : CL (gores Route.t) :=
  _ ← set_query [("namespace", namespace)]; uri ← path ["/api/v1/route"; name]; commonGet Route.t uri.
Definition CreateRoute (rt : Route.t) : CL (option error) := uri ← path ["/api/v1/route"]; commonPut uri rt.
Definition DeleteRoute (name namespace : string) : CL (option error) :=
  uri ← path ["/api/v1/route"]; commonDelete uri name namespace.
Definition ListRoute (namespace : string) : CL (gores (list Route.t)) :=
  _ ← set_query [("namespace", namespace)]; uri ← path ["/api/v1/route"]; commonGetList Route.t uri.

Definition GetService (name namespace : string) : CL (gores Service.t) :=
  _ ← set_query [("namespace", namespace)]; uri ← path ["/api/v1/service"; name]; commonGet Service.t uri.
Definition CreateService (svc : Service.t) : CL (option error) := uri ← path ["/api/v1/service"]; commonPut uri svc.
Definition DeleteService (name namespace : string) : CL (option error) :=
  uri ← path ["/api/v1/service"]; commonDelete uri name namespace.
Definition ListService (namespace : string) : CL (gores (list Service.t)) :=
  _ ← set_query [("namespace", namespace)]; uri ← path ["/api/v1/service"]; commonGetList Service.t uri.

Definition GetDomain (name namespace : string) : CL (gores Domain.t) :=
  _ ← set_query [("namespace", namespace)]; uri ← path ["/api/v1/domain"; name]; commonGet Domain.t uri.
Definition CreateDomain (dm : Domain.t) : CL (option error) := uri ← path ["/api/v1/domain"]; commonPut uri dm.
Definition DeleteDomain (name namespace : string) : CL (option error) :=
  uri ← path ["/api/v1/domain"]; commonDelete uri name namespace.
Definition ListDomain (namespace : string) : CL (gores (list Domain.t)) :=
  _ ← set_query [("namespace", namespace)]; uri ← path ["/api/v1/domain"]; commonGetList Domain.t uri.

Context `{E : Externals}.

Definition GetCollection (name namespace : string) : CL (gores Collection.t) :=
  _ ← set_query [("namespace", namespace)]; uri ← path ["/api/v1/collection"; name]; commonGet Collection.t uri.
Definition CreateCollection (svc : Collection.t) : CL (option error) := uri ← path ["/api/v1/collection"]; commonPut uri svc.
Definition DeleteCollection (name namespace : string) : CL (option error) :=
  uri ← path ["/api/v1/collection"]; commonDelete uri name namespace.
Definition ListCollection (namespace : string) : CL (gores (list Collection.t)) :=
  _ ← set_query [("namespace", namespace)]; uri ← path ["/api/v1/collection"]; commonGetList Collection.t uri.

Definition GetDocument (id namespace collection : string) : CL (gores Document.t) :=
  _ ← set_query [("namespace", namespace); ("collection", collection)];
  uri ← path ["/api/v1/document"; id]; commonGet Document.t uri.
Definition CreateDocument (doc : Document.t) : CL (option error) := uri ← path ["/api/v1/document"]; commonPut uri doc.
(** The query of a deletion is made and dropped. *)
Definition DeleteDocument (id namespace collection : string) : CL (option error) :=
  uri ← path ["/api/v1/document"; id]; basicDelete uri "".
Definition DeleteAllDocument (namespace collection : string) : CL (option error) :=
  uri ← path ["/api/v1/document"]; basicDelete uri "".
Definition ListDocument (namespace collection : string) : CL (gores (list Document.t)) :=
  _ ← set_query [("namespace", namespace); ("collection", collection)];
  uri ← path ["/api/v1/document"]; commonGetList Document.t uri.

Definition GetSecret (name namespace : string) : CL (gores Secret.t) :=
  _ ← set_query [("namespace", namespace)]; uri ← path ["/api/v1/secret"; name]; commonGet Secret.t uri.
Definition CreateSecret (sec : Secret.t) : CL (option error) := uri ← path ["/api/v1/secret"]; commonPut uri sec.
Definition DeleteSecret (name namespace : string) : CL (option error) :=
  uri ← path ["/api/v1/secret"]; commonDelete uri name namespace.
Definition ListSecret (namespace : string) : CL (gores (list Secret.t)) :=
  _ ← set_query [("namespace", namespace)]; uri ← path ["/api/v1/secret"]; commonGetList Secret.t uri.
End code.
