(* ===== verification/AdminClientTheorems.v ===== *)
(** * The client against the handlers of the admin API *)
From Stdlib Require Import ZArith Lia Ascii.
From S2P Require Import LinkedList LinkedListLogic NetIP IPList AdminRoutes AdminRoutesTheorems.
From stdpp Require Import base gmap strings list fin_maps pretty.
From S2P Require Import Prelude Avl SliceUtil Pattern Base64 Spec Linker ResourceManager.
From S2P Require Import Storage ProxyStore Scheduler Cache Util Compact ConfigResources.
From S2P Require Import ProxyTransport ResourceSpec Proxy RequestContext DynamicProxy Routing.
From S2P Require Import ChangeLogs ProxyLogic Replay ProxyState ProxyStateTheorems AdminAPI.
From S2P Require Import AdminAPITheorems Http RaftAdmin AdminClient.
Import Pattern.Strings.

(** ** The server's routes *)

(** What is registered under /api/v1: a method, the first element, whether one
    more element follows, which is the handler's parameter. *)
Definition registered : list (string * string * bool * endpoint) := [
  ("PUT", "route", false, EPutRoute); ("DELETE", "route", false, EDeleteRoute);
  ("GET", "route", false, EListRoutes); ("GET", "route", true, EGetRoute);
  ("PUT", "module", false, EPutModule); ("DELETE", "module", false, EDeleteModule);
  ("GET", "module", false, EListModules); ("GET", "module", true, EGetModule);
  ("PUT", "service", false, EPutService); ("DELETE", "service", false, EDeleteService);
  ("GET", "service", false, EListServices); ("GET", "service", true, EGetService);
  ("PUT", "namespace", false, EPutNamespace); ("DELETE", "namespace", false, EDeleteNamespace);
  ("GET", "namespace", false, EListNamespaces); ("GET", "namespace", true, EGetNamespace);
  ("PUT", "domain", false, EPutDomain); ("DELETE", "domain", false, EDeleteDomain);
  ("GET", "domain", false, EListDomains); ("GET", "domain", true, EGetDomain);
  ("PUT", "collection", false, EPutCollection); ("GET", "collection", false, EListCollections);
  ("GET", "collection", true, EGetCollection); ("GET", "document", false, EListDocuments);
  ("GET", "document", true, EGetDocument); ("PUT", "document", true, EPutDocument);
  ("DELETE", "document", false, EDeleteDocuments); ("DELETE", "document", true, EDeleteDocument);
  ("DELETE", "collection", true, EDeleteCollection);
  ("PUT", "secret", false, EPutSecret); ("DELETE", "secret", false, EDeleteSecret);
  ("GET", "secret", false, EListSecrets); ("GET", "secret", true, EGetSecret)].
Definition handler_of (method kind : string) (param : bool) : option endpoint :=
  snd <$> List.find (λ r, let '(m, k, p, _) := r in String.eqb m method && String.eqb k kind && Bool.eqb p param) registered.
(** [chi]'s choice; the parameter is one element that is not empty. *)
Definition resolve (method path : string) : option (endpoint * string) :=
  match elements path with
  | [e; a; v; kind] =>
      if String.eqb e "" && String.eqb a "api" && String.eqb v "v1"
      then e ← handler_of method kind false; Some (e, "") else None
  | [e; a; v; kind; param] =>
      if String.eqb e "" && String.eqb a "api" && String.eqb v "v1" && negb (String.eqb param "")
      then e ← handler_of method kind true; Some (e, param) else None
  | _ => None
  end.

(** net/http's [Request.BasicAuth]: the credentials in a header. *)
Definition BasicAuth (h : Header) : option (string * string) :=
  let auth := Http.Get h "Authorization" in
  if HasPrefix auth "Basic " then
    match StdDecodeString (drop_chars 6 auth) with Ok c => split_once ":" c | Err _ => None end
  else None.

(** A server: its configuration and the guard made of it, where its clients
    are, how it prints a refusal, and what the leader of its cluster, another
    process, answers to a client that follows a redirect. *)
Record admin_server : Type := MkAdminServer {
  sv_debug : bool;
  sv_conf : DGateAdminConfig;
  sv_guard : AdminRoutes.guard;
  sv_nodes : nodes IPNet;
  sv_origin : ProxyState.request;
  sv_refusal : Z → string → string;
  sv_leader : string → sent → gores (Z * string) }.
Definition configured (srv : admin_server) : Prop :=
  ∃ h0, configureRoutes (sv_conf srv) h0 = Returns (Ok (sv_guard srv), sv_nodes srv).

(** A request as the guard sees it. *)
Definition asks (srv : admin_server) (cl : http_client) (method : string) (h : Header) (q : Values) : AdminRoutes.call :=
  let h := transported (default DefaultTransport (Transport cl)) h in
  AdminRoutes.MkCall (sv_origin srv) method (BasicAuth h) (Values_Get q) (Http.Get h).

(** ** The client's paths *)

Lemma plain_no_slash_end e : plain e → HasSuffix e "/" = false.
Proof.
  intros (He & _). apply not_true_iff_false. rewrite HasSuffix_true. intros [r ->].
  change (r +:+ "/") with (r +:+ String "/" "") in He. rewrite elements_join in He.
  apply (f_equal length) in He. rewrite length_app in He. cbn in He.
  pose proof (elements_nonempty r). destruct (elements r); [done|cbn in He; lia].
Qed.
Lemma elements_concat es : es ≠ [] → Forall plain es → elements (String.concat "/" es) = es.
Proof.
  induction es as [|e es IH]; [done|]. intros _ [He Hes]%list.Forall_cons. destruct es as [|e' es]; [apply He|].
  change (elements (e +:+ String "/" (String.concat "/" (e' :: es))) = e :: e' :: es).
  by rewrite elements_join, IH, (proj1 He).
Qed.
Lemma named_plain e : plain e → named e = true.
Proof. intros (_ & H0 & H1 & _). unfold named. by rewrite !(proj2 (String.eqb_neq e _)). Qed.

Lemma elements_Clean es p : es ≠ [] → Forall plain es → ".." ∉ elements p → filter named (elements p) = es →
  HasPrefix p "/" = true → elements (Clean p) = "" :: es.
Proof.
  intros Hne Hes Hup Hp [q ->]%HasPrefix_rooted. rewrite Clean_rooted. unfold clean_elements.
  rewrite clean_step_named, app_nil_r, reverse_involutive, Hp by done.
  change (elements ("" +:+ String "/" (String.concat "/" es)) = "" :: es). by rewrite elements_join, elements_concat.
Qed.

(** A server at the root of its host. *)
Definition at_root (u : base_url) : Prop := b_Path u = "" ∨ b_Path u = "/".
Lemma root_path u : at_root u → (if HasPrefix (b_Path u) "/" then b_Path u else "/" +:+ b_Path u) = "/".
Proof. by intros [-> | ->]. Qed.
Lemma api_elements kind : elements ("///api/v1/" +:+ kind) = [""; ""; ""; "api"; "v1"] ++ elements kind.
Proof. pose proof (elements_nonempty kind). unfold String.append. cbn. by destruct (elements kind). Qed.
Lemma plain_api : plain "api".
Proof. done. Qed.
Lemma plain_v1 : plain "v1".
Proof. done. Qed.

Lemma path_clean es kind : plain kind → Forall plain es →
  elements (Clean ("///api/v1/" +:+ String.concat "/" (kind :: es))) = [""; "api"; "v1"; kind] ++ es.
Proof.
  intros Hk Hes. assert (Forall plain ("api" :: "v1" :: kind :: es)) as Hall.
  { apply list.Forall_cons; split; [apply plain_api|]. apply list.Forall_cons; split; [apply plain_v1|by apply list.Forall_cons]. }
  assert (elements ("///api/v1/" +:+ String.concat "/" (kind :: es)) = [""; ""; ""; "api"; "v1"] ++ kind :: es) as E.
  { rewrite api_elements, elements_concat; [reflexivity|discriminate|by constructor]. }
  rewrite (elements_Clean ("api" :: "v1" :: kind :: es)); [done|done|done| | |done]; rewrite ?E.
  - intros Hin. assert (".." ∈ ["" : string; ""; ""] ++ ("api" :: "v1" :: kind :: es)) as Hin' by exact Hin.
    apply elem_of_app in Hin' as [Hin'|Hin']; [apply list_elem_of_In in Hin'; by destruct Hin' as [?|[?|[?|[]]]]|].
    rewrite list.Forall_forall in Hall. by destruct (Hall _ Hin') as (_ & _ & _ & ?).
  - change (filter named ("api" :: "v1" :: kind :: es) = "api" :: "v1" :: kind :: es).
    clear -Hall. induction Hall as [|e l He _ IH]; [done|]. rewrite filter_cons, IH. rewrite (named_plain e He). done.
Qed.
Lemma path_list u kind : at_root u → plain kind → HasSuffix ("/api/v1/" +:+ kind) "/" = false →
  elements (b_Path (JoinPath u ["/api/v1/" +:+ kind])) = [""; "api"; "v1"; kind].
Proof.
  intros Hu Hk Hs. unfold JoinPath. cbn [b_Path last from_option id]. unfold id. rewrite root_path, Hs by done.
  apply (path_clean [] kind Hk). constructor.
Qed.
Lemma path_get u kind name : at_root u → plain kind → plain name →
  elements (b_Path (JoinPath u ["/api/v1/" +:+ kind; name])) = [""; "api"; "v1"; kind; name].
Proof.
  intros Hu Hk Hn. unfold JoinPath. cbn [b_Path last from_option id]. unfold id. rewrite root_path, plain_no_slash_end by done.
  cbn [andb]. unfold Join_all.
  assert (filter nonempty ["/"; "/api/v1/" +:+ kind; name] = ["/"; "/api/v1/" +:+ kind; name]) as ->.
  { rewrite filter_cons_True by exact I. rewrite filter_cons_True by exact I. rewrite filter_cons_True; [done|].
    unfold nonempty. by rewrite (proj2 (String.eqb_neq name "")) by apply Hn. }
  apply (path_clean [name] kind Hk). by apply list.Forall_singleton.
Qed.

(** ** The calls of the client *)

Inductive resource : Type := KNamespace | KModule | KRoute | KService | KDomain | KCollection | KSecret.

Section server.
Context {E : Externals} {R : Runtime} {Any : Type} {C : Encoding E Any} {S : Type}.
Context {St : Storage S} {SL : StorageLaws S} {X : ProxyEnv E Any} {N : NodeEnv} {A : AdminEnv E Any}.
Abbreviation Proxy_ := (@ProxyState E Any S X).

Context {json : ∀ T : Type, JSON T} (version : string) (now : Z).
(** How a response is printed, and what [chi] answers where nothing is
    registered. *)
Context (render : list written → Z * string) (unrouted : sent → Z * string).
Context (new_request : string → base_url → option error) (srv : admin_server).
Abbreviation state := (@dgateClient Proxy_).
Abbreviation CL := (Run state).
Implicit Types (d : state) (u : base_url).

(** The admin API at the other end: the guard first, then the handler that
    [chi] chooses. *)
Definition served (body param : string) (q : Values) : admin_request :=
  MkAdminRequest (Ok body) (Values_Get q) (λ _, param).
Definition serve_routes (req : sent) : Run Proxy_ (gores (Z * string)) :=
  match resolve (s_Method req) (b_Path (s_URL req)) with
  | None => mret (Ok (unrouted req))
  | Some (e, param) => ws ← serve version now e (served (s_Body req) param (b_Query (s_URL req))); mret (Ok (render ws))
  end.
Definition serve_http (cl : http_client) (req : sent) : Run Proxy_ (gores (Z * string)) :=
  p ← run_get;
  match through_guard (sv_debug srv) (sv_conf srv) (sv_guard srv) p
          (asks srv cl (s_Method req) (s_Header req) (b_Query (s_URL req))) (sv_nodes srv) with
  | Panics e => run_panic e
  | Returns (Passed, _) => serve_routes req
  | Returns (Refused code message, _) => mret (Ok (code, sv_refusal srv code message))
  | Returns (AdminRoutes.Redirected leader, _) =>
      match CheckRedirect cl with
      | Some false => mret (Ok (307, ""))
      | _ => mret (sv_leader srv leader req)
      end
  end.

Inductive call : Type :=
  | CGet (k : resource) (name ns : string)
  | CList (k : resource) (ns : string)
  | CDelete (k : resource) (name ns : string)
  | CCreateNamespace (x : Namespace.t) | CCreateModule (x : Module_.t) | CCreateRoute (x : Route.t)
  | CCreateService (x : Service.t) | CCreateDomain (x : Domain.t) | CCreateCollection (x : Collection.t)
  | CCreateSecret (x : Secret.t) | CCreateDocument (x : Document.t)
  | CGetDocument (id ns collection : string)
  | CListDocument (ns collection : string)
  | CDeleteDocument (id ns collection : string)
  | CDeleteAllDocument (ns collection : string).

Definition fails {T} (m : CL (gores T)) : CL (option error) := r ← m; mret (failed r).
Abbreviation Do := serve_http.
Definition perform (c : call) : CL (option error) :=
  match c with
  | CGet KNamespace name _ => fails (GetNamespace Do new_request name)
  | CGet KModule name ns => fails (GetModule Do new_request name ns)
  | CGet KRoute name ns => fails (GetRoute Do new_request name ns)
  | CGet KService name ns => fails (GetService Do new_request name ns)
  | CGet KDomain name ns => fails (GetDomain Do new_request name ns)
  | CGet KCollection name ns => fails (GetCollection Do new_request name ns)
  | CGet KSecret name ns => fails (GetSecret Do new_request name ns)
  | CList KNamespace _ => fails (ListNamespace Do new_request)
  | CList KModule ns => fails (ListModule Do new_request ns)
  | CList KRoute ns => fails (ListRoute Do new_request ns)
  | CList KService ns => fails (ListService Do new_request ns)
  | CList KDomain ns => fails (ListDomain Do new_request ns)
  | CList KCollection ns => fails (ListCollection Do new_request ns)
  | CList KSecret ns => fails (ListSecret Do new_request ns)
  | CDelete KNamespace name _ => AdminClient.DeleteNamespace Do new_request name
  | CDelete KModule name ns => AdminClient.DeleteModule Do new_request name ns
  | CDelete KRoute name ns => AdminClient.DeleteRoute Do new_request name ns
  | CDelete KService name ns => AdminClient.DeleteService Do new_request name ns
  | CDelete KDomain name ns => AdminClient.DeleteDomain Do new_request name ns
  | CDelete KCollection name ns => AdminClient.DeleteCollection Do new_request name ns
  | CDelete KSecret name ns => AdminClient.DeleteSecret Do new_request name ns
  | CCreateNamespace x => CreateNamespace Do new_request x
  | CCreateModule x => CreateModule Do new_request x
  | CCreateRoute x => CreateRoute Do new_request x
  | CCreateService x => CreateService Do new_request x
  | CCreateDomain x => CreateDomain Do new_request x
  | CCreateCollection x => CreateCollection Do new_request x
  | CCreateSecret x => CreateSecret Do new_request x
  | CCreateDocument x => CreateDocument Do new_request x
  | CGetDocument id ns c => fails (GetDocument Do new_request id ns c)
  | CListDocument ns c => fails (ListDocument Do new_request ns c)
  | CDeleteDocument id ns c => DeleteDocument Do new_request id ns c
  | CDeleteAllDocument ns c => DeleteAllDocument Do new_request ns c
  end.

(** What each call asks for: the handler and its parameter, if any; the body;
    and what it sets of the query. *)
Definition target (c : call) : option (endpoint * string) :=
  match c with
  | CGet k name _ => Some (match k with
      | KNamespace => EGetNamespace | KModule => EGetModule | KRoute => EGetRoute | KService => EGetService
      | KDomain => EGetDomain | KCollection => EGetCollection | KSecret => EGetSecret end, name)
  | CList k _ => Some (match k with
      | KNamespace => EListNamespaces | KModule => EListModules | KRoute => EListRoutes | KService => EListServices
      | KDomain => EListDomains | KCollection => EListCollections | KSecret => EListSecrets end, "")
  | CDelete KCollection _ _ => None
  | CDelete k _ _ => Some (match k with
      | KNamespace => EDeleteNamespace | KModule => EDeleteModule | KRoute => EDeleteRoute | KService => EDeleteService
      | KDomain => EDeleteDomain | _ => EDeleteSecret end, "")
  | CCreateNamespace _ => Some (EPutNamespace, "") | CCreateModule _ => Some (EPutModule, "")
  | CCreateRoute _ => Some (EPutRoute, "") | CCreateService _ => Some (EPutService, "")
  | CCreateDomain _ => Some (EPutDomain, "") | CCreateCollection _ => Some (EPutCollection, "")
  | CCreateSecret _ => Some (EPutSecret, "") | CCreateDocument _ => None
  | CGetDocument id _ _ => Some (EGetDocument, id)
  | CListDocument _ _ => Some (EListDocuments, "")
  | CDeleteDocument id _ _ => Some (EDeleteDocument, id)
  | CDeleteAllDocument _ _ => Some (EDeleteDocuments, "")
  end.
Definition encoded (c : call) : gores string :=
  match c with
  | CDelete KNamespace name _ => Encode (MkDelete name "")
  | CDelete _ name ns => Encode (MkDelete name ns)
  | CCreateNamespace x => Encode x | CCreateModule x => Encode x | CCreateRoute x => Encode x
  | CCreateService x => Encode x | CCreateDomain x => Encode x | CCreateCollection x => Encode x
  | CCreateSecret x => Encode x | CCreateDocument x => Encode x
  | _ => Ok ""
  end.
Definition sets (c : call) : list (string * string) :=
  match c with
  | CGet KNamespace _ _ | CList KNamespace _ => []
  | CGet _ _ ns | CList _ ns => [("namespace", ns)]
  | CGetDocument _ ns col | CListDocument ns col => [("namespace", ns); ("collection", col)]
  | _ => []
  end.
Definition method_of (c : call) : string :=
  match c with
  | CGet _ _ _ | CList _ _ | CGetDocument _ _ _ | CListDocument _ _ => "GET"
  | CDelete _ _ _ | CDeleteDocument _ _ _ | CDeleteAllDocument _ _ => "DELETE"
  | _ => "PUT"
  end.
Definition header_of (c : call) : Header :=
  if String.eqb (method_of c) "PUT" then Set_ "Content-Type" "application/json" ∅ else ∅.
Definition named_well (c : call) : Prop :=
  match c with CGet _ name _ | CGetDocument name _ _ | CDeleteDocument name _ _ => plain name | _ => True end.

(** ** A request through the server *)

Context (Hunrouted : ∀ req, 400 ≤ (unrouted req).1) (Hnew : ∀ method uri, new_request method uri = None).
Context (Hsrv : configured srv).

Definition client_of d : http_client := default (MkHttpClient None None) (client d ≫= λ l, clients d !! l).
Definition ready_ d : Prop := at_root (baseUrl d) ∧ ∃ l, client d = Some l ∧ is_Some (clients d !! l).
Definition asked d method h q : AdminRoutes.call := asks srv (client_of d) method h q.

(** What a request comes to: past the guard, the proxy after the handler, or
    nothing and an error where there is no handler; and when the guard refuses
    it, nothing, and an error unless the leader answers. *)
Definition lands {Y} (bad : exit Y → Prop) (k : AdminRoutes.call) (t : option (endpoint * string)) (body : string) (q : Values)
    (d d' : state) (x : exit Y) : Prop :=
  (passes (X := X) (sv_conf srv) (world d) k →
     match t with
     | Some (e, param) => world d' = (serve version now e (served body param q) (world d)).2
     | None => world d' = world d ∧ bad x
     end) ∧
  (¬ passes (X := X) (sv_conf srv) (world d) k →
     world d' = world d ∧
     (CheckRedirect (client_of d) = Some false ∨
      ¬ (address_allowed (X := X) (sv_conf srv) k ∧ authorised (sv_conf srv) k) → bad x)).
Definition no_result {T} (x : exit (gores T)) : Prop := ∃ err, x = Return (Err err).
Definition an_error (x : exit (option error)) : Prop := ∃ err, x = Return (Some err).
Abbreviation outcome_of := (lands an_error).

Lemma bad_status code body : 300 ≤ code → ∃ err, 
  match validateStatusCode code with
  | Some err => Err (parseApiError (json := json) body err)
  | None => Ok body
  end = Err (A := string) err.
Proof.
  intros Hc. unfold validateStatusCode. destruct (Z.ltb_spec code 300); [lia|].
  destruct (code <? 400); by eexists.
Qed.
Lemma guard_ok (p : Proxy_) k : ∃ v, through_guard (X := X) (sv_debug srv) (sv_conf srv) (sv_guard srv) p k (sv_nodes srv) =
    Returns (v, sv_nodes srv) ∧ (v = Passed ↔ passes (sv_conf srv) p k) ∧
  match v with
  | Refused code _ => 400 ≤ code
  | AdminRoutes.Redirected _ => address_allowed (X := X) (sv_conf srv) k ∧ authorised (sv_conf srv) k
  | Passed => True
  end.
Proof. destruct Hsrv as [h0 E0]. apply through_guard_ok. exact (started_guards _ _ _ _ E0). Qed.

Lemma send_reaches method u h body d : ready_ d →
  let m := send serve_http new_request method u h body in
  lands no_result (asked d method h (b_Query u)) (resolve method (b_Path u)) body (b_Query u) d (m d).2 (m d).1 ∧
  baseUrl (m d).2 = baseUrl d.
Proof.
  intros (_ & l & Hl & c & Hc). cbv zeta. unfold send. rewrite Hnew. unfold client_Do, the_client, on_world. go.
  rewrite Hl. cbn [mbind option_bind]. rewrite Hc. go. unfold lands, asked.
  assert (client_of d = c) as -> by (unfold client_of; rewrite Hl; cbn; by rewrite Hc).
  unfold serve_http. go. cbn [s_Method s_URL s_Header].
  set (k := asks srv c method h (b_Query u)).
  destruct (guard_ok (world d) k) as (v & -> & Hv & Hcode). destruct v as [code m|leader|].
  - cbn [run_ret mret]. destruct (bad_status code (sv_refusal srv code m)) as [err E1]; [lia|].
    split; [|done]. split; [by intros ?%Hv|]. intros _. split; [done|]. intros _. exists err. go. by rewrite E1.
  - split; [split; [by intros ?%Hv|]|by destruct (CheckRedirect c) as [[]|]; go]. intros _.
    split; [by destruct (CheckRedirect c) as [[]|]; go|]. intros [->|Hno]; [|tauto].
    go. destruct (bad_status 307 "") as [err E1]; [lia|]. exists err. exact (f_equal Return E1).
  - assert (passes (sv_conf srv) (world d) k) as Hpass by by apply Hv. unfold serve_routes. cbn [s_Method s_URL s_Body].
    destruct (resolve method (b_Path u)) as [[e param]|] eqn:Hr; go.
    + by destruct (serve version now e _ (world d)) as [[ws|err|] p]; go; cbn.
    + pose proof (Hunrouted (MkSent method u h body)) as H4. destruct (unrouted _) as [code text]. cbn in *.
      destruct (bad_status code text) as [err E1]; [lia|]. split; [|done]. split; [|done]. intros _. split; [done|].
      exists err. exact (f_equal Return E1).
Qed.

(** A method that sets of the query, makes a path, sends, and reads the answer. *)
Lemma method_reaches m ss es method h body (g : gores string → option error) t d :
  m d = (_ ← set_query ss; uri ← path es; r ← send serve_http new_request method uri h body; mret (g r)) d →
  (∀ err, ∃ err', g (Err err) = Some err') → ready_ d → resolve method (b_Path (JoinPath (baseUrl d) es)) = t →
  let q := query ss (b_Query (baseUrl d)) in
  outcome_of (asked d method h q) t body q d (m d).2 (m d).1.
Proof.
  intros -> Hg Hd Ht. cbv zeta. unfold set_query, path. go. cbn [baseUrl set_baseUrl].
  set (d1 := set_baseUrl _ d). set (u := JoinPath _ es).
  assert (ready_ d1) as Hd1 by (destruct Hd as [Hu Hc]; split; [exact Hu|exact Hc]).
  pose proof (send_reaches method u h body d1 Hd1) as Hr. cbv zeta in Hr. change (b_Path u) with (b_Path (JoinPath (baseUrl d) es)) in Hr.
  rewrite Ht in Hr. change (b_Query u) with (query ss (b_Query (baseUrl d))) in Hr. destruct Hr as [[Hpass Hno] _].
  change (world d1) with (world d) in *. change (client_of d1) with (client_of d) in *.
  change (asked d1) with (asked d) in *.
  destruct (send serve_http new_request method u h body d1) as [x d2]. cbn [fst snd] in *.
  assert (no_result x → ∃ err, x = Return (Err err) ∧ is_Some (g (Err err))) as Hbad.
  { intros [err ->]. exists err. destruct (Hg err) as [err' ->]. by eexists. }
  unfold lands, an_error. destruct x as [r|e|]; go; (split; intros Hp; [specialize (Hpass Hp)|specialize (Hno Hp)]).
  all: try (destruct t as [[e0 param]|]; [exact Hpass|]; destruct Hpass as [Hw Hb]).
  all: try (destruct Hno as [Hw Hb]).
  all: split; [exact Hw|]; intros; destruct Hbad as (err & [= ->] & err' & ->); eauto.
Qed.

Lemma set_baseUrl_same d : set_baseUrl (MkBase (b_Scheme (baseUrl d)) (b_Host (baseUrl d)) (b_Path (baseUrl d))
  (query [] (b_Query (baseUrl d)))) d = d.
Proof. by destruct d as [? [? ? ? ?] ? ?]. Qed.
Lemma resolve_list method k e u : at_root u → plain k → HasSuffix ("/api/v1/" +:+ k) "/" = false → handler_of method k false = e →
  resolve method (b_Path (JoinPath u ["/api/v1/" +:+ k])) = (e ← e; Some (e, "")).
Proof. intros Hu Hk Hs He. unfold resolve. rewrite path_list, !String.eqb_refl by done. cbn [andb]. by rewrite He. Qed.
Lemma resolve_get method k name e u : at_root u → plain k → plain name → handler_of method k true = e →
  resolve method (b_Path (JoinPath u ["/api/v1/" +:+ k; name])) = (e ← e; Some (e, name)).
Proof.
  intros Hu Hk Hn He. unfold resolve. rewrite path_get, !String.eqb_refl by done. rewrite (proj2 (String.eqb_neq name "")) by apply Hn.
  cbn [andb negb]. by rewrite He.
Qed.

(** The forms of the methods. *)
Definition after_get (T : Type) (r : gores string) : option error :=
  failed match r with
         | Err err => Err err
         | Ok body => match Decode (T := ResponseWrapper T) body with Ok item => Ok (rw_Data item) | Err err => Err err end
         end.
Definition after_list (T : Type) (r : gores string) : option error :=
  failed match r with
         | Err err => Err err
         | Ok body => match Decode (T := ListResponseWrapper T) body with Ok items => Ok (lw_Data items) | Err err => Err err end
         end.
Ltac form := unfold fails, commonGet, commonGetList, basicDelete, set_query, path; go; rewrite ?set_baseUrl_same;
  repeat (destruct (send _ _ _ _ _ _ _) as [[?|?|] ?]; go); reflexivity.

Lemma get_reaches T ss k name e d : ready_ d → plain k → plain name → handler_of "GET" k true = Some e →
  let m := fails (_ ← set_query ss; uri ← path ["/api/v1/" +:+ k; name]; commonGet serve_http new_request T uri) in
  outcome_of (asked d "GET" ∅ (query ss (b_Query (baseUrl d)))) (Some (e, name)) "" (query ss (b_Query (baseUrl d))) d (m d).2 (m d).1.
Proof.
  intros Hd Hk Hn He m. apply (method_reaches m ss ["/api/v1/" +:+ k; name] "GET" ∅ "" (after_get T)); [subst m; form|by eexists|done|].
  by rewrite (resolve_get _ _ _ (Some e)) by (done || apply Hd).
Qed.
Lemma list_reaches T ss k e d : ready_ d → plain k → HasSuffix ("/api/v1/" +:+ k) "/" = false → handler_of "GET" k false = Some e →
  let m := fails (_ ← set_query ss; uri ← path ["/api/v1/" +:+ k]; commonGetList serve_http new_request T uri) in
  outcome_of (asked d "GET" ∅ (query ss (b_Query (baseUrl d)))) (Some (e, "")) "" (query ss (b_Query (baseUrl d))) d (m d).2 (m d).1.
Proof.
  intros Hd Hk Hs He m. apply (method_reaches m ss ["/api/v1/" +:+ k] "GET" ∅ "" (after_list T)); [subst m; form|by eexists|done|].
  by rewrite (resolve_list _ _ (Some e)) by (done || apply Hd).
Qed.
Lemma put_reaches {T : Type} k (x : T) body e d : ready_ d → plain k → HasSuffix ("/api/v1/" +:+ k) "/" = false →
  handler_of "PUT" k false = e → Encode x = Ok body →
  let m := uri ← path ["/api/v1/" +:+ k]; commonPut serve_http new_request uri x in
  outcome_of (asked d "PUT" (Set_ "Content-Type" "application/json" ∅) (b_Query (baseUrl d))) (e ← e; Some (e, "")) body (b_Query (baseUrl d)) d (m d).2 (m d).1.
Proof.
  intros Hd Hk Hs He Hb m. apply (method_reaches m [] ["/api/v1/" +:+ k] "PUT" (Set_ "Content-Type" "application/json" ∅) body failed); [|by eexists|done|].
  - subst m. unfold commonPut. rewrite Hb. form.
  - by rewrite (resolve_list _ _ e) by (done || apply Hd).
Qed.
Lemma delete_reaches k name ns body e d : ready_ d → plain k → HasSuffix ("/api/v1/" +:+ k) "/" = false →
  handler_of "DELETE" k false = e → Encode (MkDelete name ns) = Ok body →
  let m := uri ← path ["/api/v1/" +:+ k]; commonDelete serve_http new_request uri name ns in
  outcome_of (asked d "DELETE" ∅ (b_Query (baseUrl d))) (e ← e; Some (e, "")) body (b_Query (baseUrl d)) d (m d).2 (m d).1.
Proof.
  intros Hd Hk Hs He Hb m. apply (method_reaches m [] ["/api/v1/" +:+ k] "DELETE" ∅ body failed); [|by eexists|done|].
  - subst m. unfold commonDelete. rewrite Hb. form.
  - by rewrite (resolve_list _ _ e) by (done || apply Hd).
Qed.
Lemma get_reaches_bare T k name e d : ready_ d → plain k → plain name → handler_of "GET" k true = Some e →
  let m := fails (uri ← path ["/api/v1/" +:+ k; name]; commonGet serve_http new_request T uri) in
  outcome_of (asked d "GET" ∅ (b_Query (baseUrl d))) (Some (e, name)) "" (b_Query (baseUrl d)) d (m d).2 (m d).1.
Proof.
  intros Hd Hk Hn He m. apply (method_reaches m [] ["/api/v1/" +:+ k; name] "GET" ∅ "" (after_get T)); [subst m; form|by eexists|done|].
  by rewrite (resolve_get _ _ _ (Some e)) by (done || apply Hd).
Qed.
Lemma list_reaches_bare T k e d : ready_ d → plain k → HasSuffix ("/api/v1/" +:+ k) "/" = false → handler_of "GET" k false = Some e →
  let m := fails (uri ← path ["/api/v1/" +:+ k]; commonGetList serve_http new_request T uri) in
  outcome_of (asked d "GET" ∅ (b_Query (baseUrl d))) (Some (e, "")) "" (b_Query (baseUrl d)) d (m d).2 (m d).1.
Proof.
  intros Hd Hk Hs He m. apply (method_reaches m [] ["/api/v1/" +:+ k] "GET" ∅ "" (after_list T)); [subst m; form|by eexists|done|].
  by rewrite (resolve_list _ _ (Some e)) by (done || apply Hd).
Qed.

Lemma delete_document_reaches id d : ready_ d → plain id →
  let m := uri ← path ["/api/v1/document"; id]; basicDelete serve_http new_request uri "" in
  outcome_of (asked d "DELETE" ∅ (b_Query (baseUrl d))) (Some (EDeleteDocument, id)) "" (b_Query (baseUrl d)) d (m d).2 (m d).1.
Proof.
  intros Hd Hn m. apply (method_reaches m [] ["/api/v1/document"; id] "DELETE" ∅ "" failed); [subst m; form|by eexists|done|].
  apply (resolve_get "DELETE" "document" id (Some EDeleteDocument)); [apply Hd|done|done|reflexivity].
Qed.
Lemma delete_documents_reaches d : ready_ d →
  let m := uri ← path ["/api/v1/document"]; basicDelete serve_http new_request uri "" in
  outcome_of (asked d "DELETE" ∅ (b_Query (baseUrl d))) (Some (EDeleteDocuments, "")) "" (b_Query (baseUrl d)) d (m d).2 (m d).1.
Proof.
  intros Hd m. apply (method_reaches m [] ["/api/v1/document"] "DELETE" ∅ "" failed); [subst m; form|by eexists|done|].
  apply (resolve_list "DELETE" "document" (Some EDeleteDocuments)); [apply Hd|done|reflexivity|reflexivity].
Qed.

(** The name of the client's URL stays; its query is what a call made of it. *)
Lemma get_document_query id ns col d : ready_ d →
  let d' := (GetDocument serve_http new_request id ns col d).2 in
  ready_ d' ∧ b_Query (baseUrl d') = query [("namespace", ns); ("collection", col)] (b_Query (baseUrl d)).
Proof.
  intros Hd. unfold GetDocument, commonGet, set_query, path. go.
  set (d1 := set_baseUrl _ d). assert (ready_ d1) as Hd1 by (destruct Hd as [Hu Hc]; split; [exact Hu|exact Hc]).
  destruct Hd1 as [Hu (l & Hl & c & Hc)]. unfold send. rewrite Hnew. unfold client_Do, the_client, on_world. go. rewrite Hl.
  cbn [mbind option_bind]. rewrite Hc. go. destruct (serve_http c _ (world d1)) as [[r|err|] p]; go; cbn;
    (split; [split; [exact Hu|exists l; split; [exact Hl|by exists c]]|done]).
Qed.

(** By cases on the call. *)
Lemma call_reaches_handler c d body : ready_ d → named_well c → encoded c = Ok body →
  let q := query (sets c) (b_Query (baseUrl d)) in
  outcome_of (asked d (method_of c) (header_of c) q) (target c) body q d (perform c d).2 (perform c d).1.
Proof.
  intros Hd Hn Hb. destruct c as [k name ns|k ns|k name ns|x|x|x|x|x|x|x|x|id ns col|ns col|id ns col|ns col];
    cbn [named_well encoded] in *.
  - injection Hb as <-. destruct k.
    + exact (get_reaches_bare Namespace.t "namespace" name _ d Hd ltac:(done) Hn eq_refl).
    + exact (get_reaches Module_.t [("namespace", ns)] "module" name _ d Hd ltac:(done) Hn eq_refl).
    + exact (get_reaches Route.t [("namespace", ns)] "route" name _ d Hd ltac:(done) Hn eq_refl).
    + exact (get_reaches Service.t [("namespace", ns)] "service" name _ d Hd ltac:(done) Hn eq_refl).
    + exact (get_reaches Domain.t [("namespace", ns)] "domain" name _ d Hd ltac:(done) Hn eq_refl).
    + exact (get_reaches Collection.t [("namespace", ns)] "collection" name _ d Hd ltac:(done) Hn eq_refl).
    + exact (get_reaches Secret.t [("namespace", ns)] "secret" name _ d Hd ltac:(done) Hn eq_refl).
  - injection Hb as <-. destruct k.
    + exact (list_reaches_bare Namespace.t "namespace" _ d Hd ltac:(done) eq_refl eq_refl).
    + exact (list_reaches Module_.t [("namespace", ns)] "module" _ d Hd ltac:(done) eq_refl eq_refl).
    + exact (list_reaches Route.t [("namespace", ns)] "route" _ d Hd ltac:(done) eq_refl eq_refl).
    + exact (list_reaches Service.t [("namespace", ns)] "service" _ d Hd ltac:(done) eq_refl eq_refl).
    + exact (list_reaches Domain.t [("namespace", ns)] "domain" _ d Hd ltac:(done) eq_refl eq_refl).
    + exact (list_reaches Collection.t [("namespace", ns)] "collection" _ d Hd ltac:(done) eq_refl eq_refl).
    + exact (list_reaches Secret.t [("namespace", ns)] "secret" _ d Hd ltac:(done) eq_refl eq_refl).
  - destruct k.
    + exact (delete_reaches "namespace" name "" body _ d Hd ltac:(done) eq_refl eq_refl Hb).
    + exact (delete_reaches "module" name ns body _ d Hd ltac:(done) eq_refl eq_refl Hb).
    + exact (delete_reaches "route" name ns body _ d Hd ltac:(done) eq_refl eq_refl Hb).
    + exact (delete_reaches "service" name ns body _ d Hd ltac:(done) eq_refl eq_refl Hb).
    + exact (delete_reaches "domain" name ns body _ d Hd ltac:(done) eq_refl eq_refl Hb).
    + exact (delete_reaches "collection" name ns body _ d Hd ltac:(done) eq_refl eq_refl Hb).
    + exact (delete_reaches "secret" name ns body _ d Hd ltac:(done) eq_refl eq_refl Hb).
  - exact (put_reaches "namespace" x body _ d Hd ltac:(done) eq_refl eq_refl Hb).
  - exact (put_reaches "module" x body _ d Hd ltac:(done) eq_refl eq_refl Hb).
  - exact (put_reaches "route" x body _ d Hd ltac:(done) eq_refl eq_refl Hb).
  - exact (put_reaches "service" x body _ d Hd ltac:(done) eq_refl eq_refl Hb).
  - exact (put_reaches "domain" x body _ d Hd ltac:(done) eq_refl eq_refl Hb).
  - exact (put_reaches "collection" x body _ d Hd ltac:(done) eq_refl eq_refl Hb).
  - exact (put_reaches "secret" x body _ d Hd ltac:(done) eq_refl eq_refl Hb).
  - exact (put_reaches "document" x body _ d Hd ltac:(done) eq_refl eq_refl Hb).
  - injection Hb as <-. exact (get_reaches Document.t [("namespace", ns); ("collection", col)] "document" id _ d Hd ltac:(done) Hn eq_refl).
  - injection Hb as <-. exact (list_reaches Document.t [("namespace", ns); ("collection", col)] "document" _ d Hd ltac:(done) eq_refl eq_refl).
  - injection Hb as <-. exact (delete_document_reaches id d Hd Hn).
  - injection Hb as <-. exact (delete_documents_reaches d Hd).
Qed.

(** the client and the server agree: a call that passes the guard reaches the
    handler of its resource, with the name as its parameter, the record as its
    body, and in the query what the call sets and what is left of earlier
    calls; the server is then as the handler leaves it.  Two calls have no
    handler: [CreateDocument] and [DeleteCollection] fail always, and change
    nothing.  A call that the guard refuses changes nothing. *)
Theorem client_reaches_handler c d body : ready_ d → named_well c → encoded c = Ok body →
  let q := query (sets c) (b_Query (baseUrl d)) in
  outcome_of (asked d (method_of c) (header_of c) q) (target c) body q d (perform c d).2 (perform c d).1.
Proof. apply call_reaches_handler. Qed.

(** the client deletes in the collection that it read last: [DeleteDocument]
    does not send the namespace and the collection that it is given; after
    [GetDocument] it deletes its document in the namespace and the collection
    of that call, and without one, in those that the request leaves open. *)
Theorem deletion_asks_previous d id ns col id' ns' col' : ready_ d → plain id' →
  let d1 := (GetDocument serve_http new_request id ns col d).2 in
  let d2 := (DeleteDocument serve_http new_request id' ns' col' d1).2 in
  passes (X := X) (sv_conf srv) (world d1) (asked d1 "DELETE" ∅ (b_Query (baseUrl d1))) →
  ∃ r, world d2 = (DeleteDocument_ now r (world d1)).2 ∧
    rq_param r "document_id" = id' ∧ rq_query r "namespace" = ns ∧ rq_query r "collection" = col.
Proof.
  intros Hd Hn d1 d2 Hpass. destruct (get_document_query id ns col d Hd) as (Hd1 & Hq). fold d1 in Hd1, Hq.
  pose proof (proj1 (delete_document_reaches id' d1 Hd1 Hn) Hpass) as H.
  exists (served "" id' (b_Query (baseUrl d1))). split; [exact H|]. split; [done|]. cbn [served rq_query].
  rewrite Hq. unfold query, Values_Get, Values_Set, Values. cbn [foldl fst snd].
  by rewrite lookup_insert_ne, !lookup_insert_eq.
Qed.
End server.

(** ** Witnesses *)

Section witness.
#[local] Existing Instances text_externals sample_runtime sample_runtime_laws sample_env text_encoding
  sample_node Mem_laws sample_admin.
Definition sample_json (T : Type) : JSON T := {| Encode _ := Ok "{}"; Decode _ := Err "unexpected EOF" |}.
Definition sample_client : @dgateClient (@ProxyState text_externals string Mem.MemStore sample_env) :=
  MkClient (Some 1%N) (MkBase "http" "127.0.0.1:9080" "" ∅) {[1%N := MkHttpClient (Some DefaultTransport) None]} documents_proxy.
Definition sample_render (_ : list (@written text_externals)) : Z * string := (200, "{}").
Definition not_allowed (_ : sent) : Z * string := (405, "").

(** A server on this machine, with or without users. *)
Definition here : ProxyState.request := ProxyState.MkRequest "admin" "127.0.0.1" [] false "http" "/".
Definition server_of (conf : DGateAdminConfig) : admin_server :=
  match configureRoutes conf ∅ with
  | Returns (Ok g, h) => MkAdminServer false conf g h here (λ _ message, message) (λ _ _, Err "no leader")
  | _ => MkAdminServer false conf (AdminRoutes.MkGuard (MkIPList empty_list empty_list) None None) ∅ here (λ _ message, message) (λ _ _, Err "no leader")
  end.
Definition open_config : DGateAdminConfig := MkAdminConfig [] 0 "" None None.
Definition users_config : DGateAdminConfig := MkAdminConfig [] 0 "basic" (Some [MkUser "user" "pass"]) None.
Lemma open_configured : configured (server_of open_config).
Proof. exists ∅. vm_compute. reflexivity. Qed.
Lemma users_configured : configured (server_of users_config).
Proof. exists ∅. vm_compute. reflexivity. Qed.

Lemma sample_ready : ready_ sample_client.
Proof. split; [by left|]. exists 1%N. split; [done|by eexists]. Qed.
Lemma open_passes k : passes (X := sample_env) open_config documents_proxy k.
Proof. split; [by left|]. split; [done|by left]. Qed.

Lemma client_reaches_handler_witness :
  (∃ err, (perform (json := sample_json) "" 0 sample_render not_allowed (λ _ _, None) (server_of open_config) (CDelete KCollection "c" "default") sample_client).1
    = Return (Some err)) ∧
  world (perform (json := sample_json) "" 0 sample_render not_allowed (λ _ _, None) (server_of open_config) (CGet KCollection "c" "default") sample_client).2
    = (GetCollection_ (served "" "c" {["namespace" := ["default"]]}) documents_proxy).2.
Proof.
  split.
  - destruct (client_reaches_handler (json := sample_json) "" 0 sample_render not_allowed (λ _ _, None) (server_of open_config)
      (λ _, ltac:(done)) (λ _ _, eq_refl) open_configured (CDelete KCollection "c" "default") sample_client "{}" sample_ready I eq_refl)
      as [H _]. exact (proj2 (H (open_passes _))).
  - destruct (client_reaches_handler (json := sample_json) "" 0 sample_render not_allowed (λ _ _, None) (server_of open_config)
      (λ _, ltac:(done)) (λ _ _, eq_refl) open_configured (CGet KCollection "c" "default") sample_client "" sample_ready ltac:(done) eq_refl)
      as [H _]. exact (H (open_passes _)).
Defined.

Lemma deletion_asks_previous_witness :
  let Do := serve_http "" 0 sample_render not_allowed (server_of open_config) in
  let d1 := (GetDocument Do (λ _ _, None) (json := sample_json) "1" "default" "c" sample_client).2 in
  let d2 := (DeleteDocument Do (λ _ _, None) (json := sample_json) "2" "other" "d" d1).2 in
  ∃ r, world d2 = (DeleteDocument_ 0 r (world d1)).2 ∧ rq_query r "namespace" = "default" ∧ rq_query r "collection" = "c".
Proof.
  intros Do d1 d2.
  destruct (deletion_asks_previous (json := sample_json) "" 0 sample_render not_allowed (λ _ _, None) (server_of open_config)
    (λ _, ltac:(done)) (λ _ _, eq_refl) open_configured
    sample_client "1" "default" "c" "2" "other" "d" sample_ready ltac:(done)) as (r & H & _ & Hn & Hc).
  - split; [by left|]. split; [done|left]. vm_compute. reflexivity.
  - exists r. split; [exact H|]. split; [exact Hn|exact Hc].
Defined.
End witness.
