(* ===== verification/Cli.v ===== *)
(** * cmd/dgate-cli: the command line of the admin API

    The arguments of a command are pairs of a key and a value, in three forms:
    [key@=file], [key:=json] and [key=text].  They make a map, which
    mapstructure decodes into a record; the command then calls the client of
    pkg/dgclient and prints what it gets.  Parameters: mapstructure,
    encoding/json, the files, and what urfave/cli does with flags, names of
    commands and its help text. *)
From Stdlib Require Import ZArith Lia Ascii.
From stdpp Require Import base gmap strings list fin_maps pretty.
From S2P Require Import Prelude Avl SliceUtil Pattern Base64 Spec Linker ResourceManager.
From S2P Require Import Storage ProxyStore Scheduler Cache ConfigResources Proxy Http RaftAdmin AdminClient.
Import Pattern.Strings.

(** ** commands/util.go *)

(** A value of the map: a string, or what a JSON text stands for. *)
Inductive arg_value (J : Type) : Type := TextValue (s : string) | JsonValue (j : J).
Arguments TextValue {J}. Arguments JsonValue {J}.

(** What [json.Unmarshal] into an [any] answers. *)
Inductive json_answer (J : Type) : Type := JsonOk (j : J) | JsonSyntaxError | JsonOtherError.
Arguments JsonOk {J}. Arguments JsonSyntaxError {J}. Arguments JsonOtherError {J}.

Section args.
Context {J : Type} (Unmarshal : string → json_answer J) (ReadFile : string → gores string).
Abbreviation arg_map := (gmap string (arg_value J)).

Definition invalid_pair (arg : string) : error := "invalid key-value pair: " +:+ arg.

(** The value of a file's contents, and of a JSON text. *)
Definition file_value (name : string) : gores (arg_value J) :=
  if String.eqb name "" then Ok (TextValue "") else
  match ReadFile name with
  | Err err => Err ("error reading file: " +:+ err)
  | Ok file => Ok (TextValue (Base64.EncodeToString file))
  end.
Definition json_value (key text : string) : gores (arg_value J) :=
  if String.eqb text "" then Ok (TextValue "") else
  match Unmarshal text with
  | JsonOk j => Ok (JsonValue j)
  | JsonSyntaxError => Err ("error parsing values: invalid json for key '" +:+ key +:+ "'")
  | JsonOtherError => Err ("invalid json value - key:'" +:+ key +:+ "' value:'" +:+ text +:+ "'")
  end.

(** One of the passes over the arguments; those it takes are left empty. *)
Fixpoint pass (sep : string) (value : string → string → gores (arg_value J)) (args : list string) (m : arg_map)
    : gores (list string * arg_map) :=
  match args with
  | [] => Ok ([], m)
  | arg :: args =>
    match split_once sep arg with
    | None => match pass sep value args m with Err err => Err err | Ok (args, m) => Ok (arg :: args, m) end
    | Some (key, text) =>
      if String.eqb key "" then Err (invalid_pair arg) else
      match value key text with
      | Err err => Err err
      | Ok v => match pass sep value args (<[key := v]> m) with
                | Err err => Err err
                | Ok (args, m) => Ok ("" :: args, m)
                end
      end
    end
  end.
Definition parse_args (args : list string) : gores arg_map :=
  match pass "@=" (λ _ name, file_value name) args ∅ with
  | Err err => Err err
  | Ok (args, m) =>
    match pass ":=" json_value args m with
    | Err err => Err err
    | Ok (args, m) =>
      match pass "=" (λ _ text, Ok (TextValue text)) args m with Err err => Err err | Ok (_, m) => Ok m end
    end
  end.

(** mapstructure's answer: the record and the keys that it did not use. *)
Definition createMapFromArgs {T : Type} (Decode : arg_map → gores (T * list string)) (args required : list string)
    : gores T :=
  match parse_args args with
  | Err err => Err err
  | Ok m =>
    let missingKeys := filter (λ k, m !! k = None) required in
    match missingKeys with
    | _ :: _ => Err ("missing required keys: " +:+ String.concat ", " required)
    | [] =>
      match Decode m with
      | Err err => Err err
      | Ok (resource, []) => Ok resource
      | Ok (_, unused) => Err ("input error: unused keys found - " +:+ String.concat ", " unused)
      end
    end
  end.
End args.

(** ** The commands *)

Inductive cli_action : Type := CreateAction | DeleteAction (all : bool) | ListAction | GetAction.

(** [dgclient.NamespacePayload] *)
Record NamespacePayload : Type := MkNamespacePayload { np_Namespace : string }.

(** mapstructure into a record. *)
Class FromArgs (J T : Type) := from_args : gmap string (arg_value J) → gores (T * list string).

(** The records of the commands, and [MarshalIndent]. *)
Class CliEnv (E : Externals) := {
  cli_json : Type;
  cli_Unmarshal : string → json_answer cli_json;
  cli_ReadFile : string → gores string;
  MarshalIndent T : T → gores string;
  SubcommandHelp : string;
  args_namespace :: FromArgs cli_json Namespace.t;
  args_service :: FromArgs cli_json Service.t;
  args_route :: FromArgs cli_json Route.t;
  args_module :: FromArgs cli_json Module_.t;
  args_domain :: FromArgs cli_json Domain.t;
  args_collection :: FromArgs cli_json Collection.t;
  args_document :: FromArgs cli_json Document.t;
  args_secret :: FromArgs cli_json Secret.t;
  args_payload :: FromArgs cli_json NamespacePayload }.

Section commands.
Context {E : Externals} {CE : CliEnv E} {W : Type} {json : ∀ T : Type, JSON T}.
Context (Do : http_client → sent → Run W (gores (Z * string))).
Context (Parse : string → gores base_url) (new_request : string → base_url → option error).
Abbreviation CL := (Run (dgateClient (W := W))).

(** A command ends with an error, or with what it has printed. *)
Definition parsed (T : Type) `{FromArgs cli_json T} (args required : list string) : gores T :=
  createMapFromArgs cli_Unmarshal cli_ReadFile from_args args required.
Definition jsonPrettyPrint {T} (item : T) : gores string := MarshalIndent T item.

(** The shapes that the commands share. *)
Definition creating {T} `{FromArgs cli_json T} (required : list string) (args : list string) (put : T → CL (option error)) (shown : T → T)
    : CL (gores string) :=
  match parsed T args required with
  | Err err => mret (Err err)
  | Ok item =>
    err ← put item;
    mret match err with Some err => Err err | None => jsonPrettyPrint (shown item) end
  end.
Definition deleting {T} `{FromArgs cli_json T} (required : list string) (args : list string) (del : T → CL (option error)) : CL (gores string) :=
  match parsed T args required with
  | Err err => mret (Err err)
  | Ok item => err ← del item; mret match err with Some err => Err err | None => Ok "" end
  end.
Definition fetching {T U} `{FromArgs cli_json T} (required : list string) (args : list string) (get : T → CL (gores U)) : CL (gores string) :=
  match parsed T args required with
  | Err err => mret (Err err)
  | Ok item => r ← get item; mret match r with Err err => Err err | Ok u => jsonPrettyPrint u end
  end.

Definition NamespaceCommand (a : cli_action) (args : list string) : CL (gores string) :=
  match a with
  | CreateAction => creating ["name"] args (CreateNamespace Do new_request) id
  | DeleteAction _ =>
    match args with
    | [name] => if String.eqb name "" then mret (Ok SubcommandHelp)
                else err ← AdminClient.DeleteNamespace Do new_request name;
                     mret match err with Some err => Err err | None => Ok "" end
    | _ => mret (Ok SubcommandHelp)
    end
  | ListAction => r ← ListNamespace Do new_request; mret match r with Err err => Err err | Ok u => jsonPrettyPrint u end
  | GetAction => fetching ["name"] args (λ ns, GetNamespace Do new_request (Namespace.Name ns))
  end.

Definition ServiceCommand (a : cli_action) (args : list string) : CL (gores string) :=
  match a with
  | CreateAction => creating ["name"; "urls"] args (CreateService Do new_request) id
  | DeleteAction _ => deleting ["name"] args (λ svc, AdminClient.DeleteService Do new_request (Service.Name svc) (Service.NamespaceName svc))
  | ListAction => fetching [] args (λ nsp, ListService Do new_request (np_Namespace nsp))
  | GetAction => fetching ["name"] args (λ svc, GetService Do new_request (Service.Name svc) (Service.NamespaceName svc))
  end.

Definition RouteCommand (a : cli_action) (args : list string) : CL (gores string) :=
  match a with
  | CreateAction => creating ["name"; "paths"; "methods"] args (CreateRoute Do new_request) id
  | DeleteAction _ => deleting ["name"] args (λ rt, AdminClient.DeleteRoute Do new_request (Route.Name rt) (Route.NamespaceName rt))
  | ListAction => fetching [] args (λ nsp, ListRoute Do new_request (np_Namespace nsp))
  | GetAction => fetching ["name"] args (λ rt, GetRoute Do new_request (Route.Name rt) (Route.NamespaceName rt))
  end.

Definition ModuleCommand (a : cli_action) (args : list string) : CL (gores string) :=
  match a with
  | CreateAction => creating ["name"; "payload"] args (CreateModule Do new_request) id
  | DeleteAction _ => deleting ["name"] args (λ md, AdminClient.DeleteModule Do new_request (Module_.Name md) (Module_.NamespaceName md))
  | ListAction => fetching [] args (λ nsp, ListModule Do new_request (np_Namespace nsp))
  | GetAction => fetching ["name"] args (λ md, GetModule Do new_request (Module_.Name md) (Module_.NamespaceName md))
  end.

Definition DomainCommand (a : cli_action) (args : list string) : CL (gores string) :=
  match a with
  | CreateAction => creating ["name"; "patterns"] args (CreateDomain Do new_request) id
  | DeleteAction _ => deleting ["name"] args (λ dm, AdminClient.DeleteDomain Do new_request (Domain.Name dm) (Domain.NamespaceName dm))
  | ListAction => fetching [] args (λ nsp, ListDomain Do new_request (np_Namespace nsp))
  | GetAction => fetching ["name"] args (λ dm, GetDomain Do new_request (Domain.Name dm) (Domain.NamespaceName dm))
  end.

Definition CollectionCommand (a : cli_action) (args : list string) : CL (gores string) :=
  match a with
  | CreateAction => creating ["name"; "schema"] args (CreateCollection Do new_request) id
  | DeleteAction _ => deleting ["name"] args
      (λ col, AdminClient.DeleteCollection Do new_request (Collection.Name col) (Collection.NamespaceName col))
  | ListAction => fetching [] args (λ nsp, ListCollection Do new_request (np_Namespace nsp))
  | GetAction => fetching ["name"] args (λ col, GetCollection Do new_request (Collection.Name col) (Collection.NamespaceName col))
  end.

Definition DocumentCommand (a : cli_action) (args : list string) : CL (gores string) :=
  match a with
  | CreateAction => creating ["id"; "collection"; "data"] args (CreateDocument Do new_request) id
  | DeleteAction true => deleting [] args (λ doc, DeleteAllDocument Do new_request (Document.NamespaceName doc) (Document.CollectionName doc))
  | DeleteAction false => deleting ["id"] args
      (λ doc, DeleteDocument Do new_request (Document.ID doc) (Document.NamespaceName doc) (Document.CollectionName doc))
  | ListAction => fetching ["collection"] args
      (λ d, ListDocument Do new_request (Document.NamespaceName d) (Document.CollectionName d))
  | GetAction => fetching ["id"] args
      (λ doc, GetDocument Do new_request (Document.ID doc) (Document.NamespaceName doc) (Document.CollectionName doc))
  end.

Definition redacted (sec : Secret.t) : Secret.t :=
  Secret.mk (Secret.Name sec) (Secret.NamespaceName sec) "**redacted**" (Secret.Tags sec).
Definition SecretCommand (a : cli_action) (args : list string) : CL (gores string) :=
  match a with
  | CreateAction => creating ["name"; "data"] args (CreateSecret Do new_request) redacted
  | DeleteAction _ => deleting ["name"] args (λ sec, AdminClient.DeleteSecret Do new_request (Secret.Name sec) (Secret.NamespaceName sec))
  | ListAction => fetching [] args (λ nsp, ListSecret Do new_request (np_Namespace nsp))
  | GetAction => fetching ["name"] args (λ s, GetSecret Do new_request (Secret.Name s) (Secret.NamespaceName s))
  end.

(** ** commands/run_cmd.go *)

Record flags : Type := MkFlags { f_admin : string; f_auth : string; f_follow : bool; f_verbose : bool }.
Inductive cli_resource : Type :=
  RNamespace | RService | RModule | RRoute | RDomain | RCollection | RDocument | RSecret.

(** [Before]: [ReadPassword] is the terminal; [agent] what names the client. *)
Definition auth_option (ReadPassword : gores string) (auth : string) : gores (option (CL unit)) :=
  match split_once ":" auth with
  | Some (username, password) => Ok (Some (WithBasicAuth username password))
  | None =>
    if String.eqb auth "" then Ok None
    else match ReadPassword with Err err => Err err | Ok password => Ok (Some (WithBasicAuth auth password)) end
  end.
Definition Before (ReadPassword : gores string) (agent : string) (f : flags) : CL (option error) :=
  match auth_option ReadPassword (f_auth f) with
  | Err err => mret (Some err)
  | Ok authOption =>
    Init Parse (f_admin f) (Some DefaultClient)
      [Some (WithFollowRedirect (f_follow f)); Some (WithUserAgent agent); Some (WithVerboseLogging (f_verbose f)); authOption]
  end.

Definition command_of (r : cli_resource) : cli_action → list string → CL (gores string) :=
  match r with
  | RNamespace => NamespaceCommand | RService => ServiceCommand | RModule => ModuleCommand | RRoute => RouteCommand
  | RDomain => DomainCommand | RCollection => CollectionCommand | RDocument => DocumentCommand | RSecret => SecretCommand
  end.
(** The words of a command, with their aliases; [all] is a flag of deleting
    documents. *)
Definition resource_of (word : string) : option cli_resource :=
  if bool_decide (word ∈ ["namespace"; "ns"]) then Some RNamespace
  else if bool_decide (word ∈ ["service"; "svc"]) then Some RService
  else if bool_decide (word ∈ ["module"; "mod"]) then Some RModule
  else if bool_decide (word ∈ ["route"; "rt"]) then Some RRoute
  else if bool_decide (word ∈ ["domain"; "dom"]) then Some RDomain
  else if bool_decide (word ∈ ["collection"; "col"]) then Some RCollection
  else if bool_decide (word ∈ ["document"; "doc"]) then Some RDocument
  else if bool_decide (word ∈ ["secret"; "sec"]) then Some RSecret
  else None.
Definition action_of (all : bool) (word : string) : option cli_action :=
  if bool_decide (word ∈ ["create"; "mk"]) then Some CreateAction
  else if bool_decide (word ∈ ["delete"; "rm"]) then Some (DeleteAction all)
  else if bool_decide (word ∈ ["list"; "ls"]) then Some ListAction
  else if String.eqb word "get" then Some GetAction
  else None.
(** The agent: the version, the system and the architecture.  Other words get
    the help text. *)
Definition Run_ (ReadPassword : gores string) (version os arch : string) (f : flags) (resource action : string) (all : bool)
    (args : list string) : CL (gores string) :=
  err ← Before ReadPassword ("DGate CLI " +:+ version +:+ ";os=" +:+ os +:+ ";arch=" +:+ arch) f;
  match err with
  | Some err => mret (Err err)
  | None =>
    match resource_of resource, action_of all action with
    | Some r, Some a => command_of r a args
    | _, _ => mret (Ok SubcommandHelp)
    end
  end.
End commands.
