(* ===== verification/CliTheorems.v ===== *)
(** * The command line: how arguments are read, and where a command ends up *)
From Stdlib Require Import ZArith Lia Ascii.
From S2P Require Import LinkedList LinkedListLogic NetIP IPList AdminRoutes AdminRoutesTheorems.
From stdpp Require Import base gmap strings list fin_maps pretty.
From S2P Require Import Prelude Avl SliceUtil Pattern Base64 Spec Linker ResourceManager.
From S2P Require Import Storage ProxyStore Scheduler Cache ConfigResources ResourceSpec Proxy ProxyState ProxyStateTheorems.
From S2P Require Import Http RaftAdmin AdminAPI AdminAPITheorems AdminClient AdminClientTheorems Cli.
Import Pattern.Strings.

(** ** Splitting *)

Lemma split_cons sep c s : HasPrefix (String c s) sep = false →
  split_once sep (String c s) = match split_once sep s with Some (a, b) => Some (String c a, b) | None => None end.
Proof. intros H. cbn [split_once]. by rewrite H. Qed.

(** A string without [=]. *)
Definition no_eq (s : string) : Prop := Contains s "=" = false.
Lemma no_eq_cons c s : no_eq (String c s) → c ≠ "="%char ∧ no_eq s.
Proof.
  unfold no_eq. cbn [Contains]. intros [H1 H2]%orb_false_iff. split; [|done]. intros ->. cbn in H1. by destruct s.
Qed.

(** The separators: [=] alone, or after a sign. *)
Lemma prefix_cons c s d t : HasPrefix (String d t) (String c s) = if ascii_dec c d then HasPrefix t s else false.
Proof. unfold HasPrefix. cbn. by destruct (ascii_dec c d). Qed.
Lemma prefix_empty s : HasPrefix s "" = true.
Proof. by destruct s. Qed.

Lemma split_key c k t : no_eq k → c ≠ "="%char →
  split_once (String c "=") (k +:+ String c (String "=" t)) = Some (k, t).
Proof.
  intros Hk Hc. induction k as [|d k IH]; unfold String.append; fold String.append.
  - cbn [split_once]. rewrite !prefix_cons, prefix_empty. by destruct (ascii_dec c c), (ascii_dec "=" "=").
  - apply no_eq_cons in Hk as [Hd Hk]. rewrite split_cons, IH; [done..|].
    rewrite prefix_cons. destruct (ascii_dec c d); [|done].
    destruct k as [|x k]; unfold String.append; fold String.append; rewrite prefix_cons.
    + destruct (ascii_dec "=" c) as [|]; [congruence|done].
    + apply no_eq_cons in Hk as [Hx _]. destruct (ascii_dec "=" x) as [|]; [congruence|done].
Qed.

(** The same for [=] alone. *)
Lemma split_key_eq k t : no_eq k → split_once "=" (k +:+ String "=" t) = Some (k, t).
Proof.
  intros Hk. induction k as [|d k IH]; unfold String.append; fold String.append.
  - cbn [split_once]. rewrite !prefix_cons, prefix_empty. by destruct (ascii_dec "=" "=").
  - apply no_eq_cons in Hk as [Hd Hk]. rewrite split_cons, IH; [done..|].
    rewrite prefix_cons. destruct (ascii_dec "=" d) as [|]; [congruence|done].
Qed.

(** A separator [c=] does not occur in [k ++ s] when it does not occur in [s],
    [k] is without [=], and it does not straddle the two. *)
Lemma split_none c k s : no_eq k → split_once (String c "=") s = None →
  HasSuffix k (String c "") = false ∨ HasPrefix s "=" = false →
  split_once (String c "=") (k +:+ s) = None.
Proof.
  intros Hk Hs Hst. induction k as [|d k IH]; unfold String.append; fold String.append; [done|].
  apply no_eq_cons in Hk as [Hd Hk]. rewrite split_cons.
  - rewrite IH; [done..|]. destruct Hst as [Hst|]; [left|by right]. cbn [HasSuffix] in Hst. by apply orb_false_iff in Hst as [_ ?].
  - rewrite prefix_cons. destruct (ascii_dec c d) as [->|]; [|done]. destruct k as [|x k]; unfold String.append; fold String.append.
    + destruct Hst as [Hst|Hst]; [|done]. cbn [HasSuffix] in Hst. by rewrite String.eqb_refl in Hst.
    + apply no_eq_cons in Hk as [Hx _]. rewrite prefix_cons. destruct (ascii_dec "=" x) as [|]; [congruence|done].
Qed.
Lemma split_contains sep s : Contains s sep = false → split_once sep s = None.
Proof.
  induction s as [|c s IH]; cbn [Contains split_once]; intros [H1 H2]%orb_false_iff.
  - change (HasPrefix "" sep = false) in H1. by rewrite H1.
  - change (HasPrefix (String c s) sep = false) in H1. by rewrite H1, IH.
Qed.

(** ** What arguments mean *)

Inductive arg : Type := FileArg (key file : string) | JsonArg (key text : string) | TextArg (key text : string).
Definition key (a : arg) : string := match a with FileArg k _ | JsonArg k _ | TextArg k _ => k end.
Definition show (a : arg) : string :=
  match a with
  | FileArg k f => k +:+ "@=" +:+ f
  | JsonArg k t => k +:+ ":=" +:+ t
  | TextArg k t => k +:+ "=" +:+ t
  end.
(** What cannot be mistaken for another form. *)
Definition well_formed (a : arg) : Prop :=
  key a ≠ "" ∧ no_eq (key a) ∧
  match a with
  | FileArg _ _ => True
  | JsonArg _ t => Contains t "@=" = false
  | TextArg k t => HasSuffix k "@" = false ∧ HasSuffix k ":" = false ∧ Contains t "@=" = false ∧ Contains t ":=" = false
  end.

Section args.
Context {J : Type} (Unmarshal : string → json_answer J) (ReadFile : string → gores string).

Definition value_of (a : arg) : gores (arg_value J) :=
  match a with
  | FileArg _ f => file_value ReadFile f
  | JsonArg k t => json_value Unmarshal k t
  | TextArg _ t => Ok (TextValue t)
  end.
(** The number of the pass that reads an argument. *)
Definition pass_of (a : arg) : nat := match a with FileArg _ _ => 0 | JsonArg _ _ => 1 | TextArg _ _ => 2 end.
(** The argument before pass [n]. *)
Definition shown (n : nat) (a : arg) : string := if decide (pass_of a < n)%nat then "" else show a.
Definition insert_arg (val : arg → arg_value J) (m : gmap string (arg_value J)) (a : arg) := <[key a := val a]> m.

(** A pass inserts its arguments in order. *)
Lemma pass_ok n sep value (val : arg → arg_value J) args : ∀ m,
  Forall (λ a, if decide (pass_of a = n) then ∃ t, split_once sep (shown n a) = Some (key a, t) ∧ value (key a) t = Ok (val a)
               else split_once sep (shown n a) = None) args →
  Forall (λ a, key a ≠ "") args →
  pass sep value (shown n <$> args) m =
    Ok (shown (S n) <$> args, foldl (insert_arg val) m (filter (λ a, pass_of a = n) args)).
Proof.
  induction args as [|a args IH]; intros m Hp Hk; [done|].
  apply list.Forall_cons in Hp as [Ha Hp]. apply list.Forall_cons in Hk as [Hka Hk].
  cbn [fmap list_fmap pass]. rewrite filter_cons. destruct (decide (pass_of a = n)) as [Hn|Hn].
  - destruct Ha as (t & -> & ->). rewrite (proj2 (String.eqb_neq _ _)) by done.
    change (pass sep value (list_fmap _ _ (shown n) args)) with (pass sep value (shown n <$> args)). rewrite IH by done.
    cbn [foldl]. unfold shown at 2. rewrite decide_True by lia. done.
  - rewrite Ha. change (pass sep value (list_fmap _ _ (shown n) args)) with (pass sep value (shown n <$> args)). rewrite IH by done.
    unfold shown at 1 3. do 2 destruct (decide _); try lia; done.
Qed.

Lemma no_split_eq k s c : no_eq k → split_once (String c "=") s = None → HasPrefix s "=" = false →
  split_once (String c "=") (k +:+ s) = None.
Proof. intros. apply split_none; auto. Qed.

(** What each pass makes of a well-formed argument. *)
Lemma split_file a : well_formed a →
  match a with
  | FileArg k f => split_once "@=" (show a) = Some (k, f)
  | _ => split_once "@=" (show a) = None
  end.
Proof.
  destruct a as [k f|k t|k t]; cbn [well_formed key show]; intros (_ & Hk & H).
  - by apply (split_key "@").
  - apply no_split_eq; [done| |done]. change (":=" +:+ t) with (String ":" (String "=" t)).
    rewrite !split_cons, split_contains by done. done.
  - destruct H as (Hat & _ & Ht & _). apply split_none; [done| |by left].
    change ("=" +:+ t) with (String "=" t). by rewrite split_cons, split_contains.
Qed.
Lemma split_json k t : no_eq k → split_once ":=" (k +:+ ":=" +:+ t) = Some (k, t).
Proof. intros Hk. by apply (split_key ":"). Qed.
Lemma split_text_json k t : no_eq k → HasSuffix k ":" = false → Contains t ":=" = false →
  split_once ":=" (k +:+ "=" +:+ t) = None.
Proof.
  intros Hk Hs Ht. apply split_none; [done| |by left].
  change ("=" +:+ t) with (String "=" t). by rewrite split_cons, split_contains.
Qed.

(** C21: The arguments of a command mean what they show: files first, then JSON
    texts, then plain texts, the last of a key winning, as long as no key has
    an [=] in it and no plain key or text looks like another form. *)
Theorem args_round_trip (val : arg → arg_value J) args
  (Hwf : Forall well_formed args) (Hval : Forall (λ a, value_of a = Ok (val a)) args) :
  parse_args Unmarshal ReadFile (show <$> args) =
    Ok (foldl (insert_arg val) ∅
      (filter (λ a, pass_of a = 0%nat) args ++ filter (λ a, pass_of a = 1%nat) args ++ filter (λ a, pass_of a = 2%nat) args)).
Proof.
  assert (Forall (λ a, key a ≠ "") args) as Hk by (eapply list.Forall_impl; [exact Hwf|by intros a [? _]]).
  assert (Forall (λ a, well_formed a ∧ value_of a = Ok (val a)) args) as H by (by apply list.Forall_and).
  unfold parse_args. change (show <$> args) with (shown 0 <$> args).
  rewrite (pass_ok 0 "@=" _ val); [|eapply list.Forall_impl; [exact H|]|done].
  2:{ intros a [Ha Hv]. pose proof (split_file a Ha) as Hs. by destruct a as [k f| |]; [exists f| |]. }
  rewrite (pass_ok 1 ":=" _ val); [|eapply list.Forall_impl; [exact H|]|done].
  2:{ intros a [(Hk' & Hn & Ha) Hv]. destruct a as [k f|k t|k t]; [done| |].
      - exists t. split; [by apply split_json|done].
      - destruct Ha as (_ & Hs & _ & Ht). by apply split_text_json. }
  rewrite (pass_ok 2 "=" _ val); [|eapply list.Forall_impl; [exact H|]|done].
  2:{ intros a [(Hk' & Hn & Ha) Hv]. destruct a as [k f|k t|k t]; [done|done|].
      exists t. split; [by apply split_key_eq|done]. }
  by rewrite !foldl_app.
Qed.
End args.

(** A text with a sign of another form in it is read as that form. *)
Lemma text_taken_for_json {J} (Unmarshal : string → json_answer J) (ReadFile : string → gores string) j :
  Unmarshal "1" = JsonOk j → parse_args Unmarshal ReadFile ["data=a:=1"] = Ok {["data=a" := JsonValue j]}.
Proof. intros H. unfold parse_args. cbn. unfold json_value. cbn. by rewrite H. Qed.
(** The error for keys that are missing names all that are required. *)
Lemma missing_names_all {J T} (Unmarshal : string → json_answer J) ReadFile (Decode : _ → gores (T * list string)) :
  createMapFromArgs Unmarshal ReadFile Decode ["name=x"] ["name"; "urls"] = Err "missing required keys: name, urls".
Proof. reflexivity. Qed.

(** ** From the command line to the handler *)

Section commands.
Context {E : Externals} {R : Runtime} {Any : Type} {C : Encoding E Any} {S : Type}.
Context {St : Storage S} {SL : StorageLaws S} {X : ProxyEnv E Any} {N : NodeEnv} {A : AdminEnv E Any}.
Context {CE : CliEnv E} {json : ∀ T : Type, JSON T} (version : string) (now : Z).
Context (render : list written → Z * string) (unrouted : sent → Z * string).
Context (Parse : string → gores base_url) (new_request : string → base_url → option error).
Context (srv : admin_server) (Hsrv : configured srv).
Context (Hunrouted : ∀ req, 400 ≤ (unrouted req).1) (Hnew : ∀ method uri, new_request method uri = None).
Abbreviation state := (@dgateClient (@ProxyState E Any S X)).
Abbreviation CL := (Run state).
Abbreviation Do := (serve_http version now render unrouted srv).
Abbreviation perform := (AdminClientTheorems.perform version now render unrouted new_request srv).
Implicit Types (d : state).

(** The call that a command makes, if it makes one. *)
Definition called {T} `{FromArgs cli_json T} (args required : list string) (f : T → call) : gores (option call) :=
  match parsed T args required with Err err => Err err | Ok x => Ok (Some (f x)) end.
Definition call_of (r : cli_resource) (a : cli_action) (args : list string) : gores (option call) :=
  match r, a with
  | RNamespace, CreateAction => called args ["name"] CCreateNamespace
  | RNamespace, DeleteAction _ =>
    match args with
    | [name] => Ok (if String.eqb name "" then None else Some (CDelete KNamespace name ""))
    | _ => Ok None
    end
  | RNamespace, ListAction => Ok (Some (CList KNamespace ""))
  | RNamespace, GetAction => called args ["name"] (λ ns, CGet KNamespace (Namespace.Name ns) "")
  | RService, CreateAction => called args ["name"; "urls"] CCreateService
  | RService, DeleteAction _ => called args ["name"] (λ x, CDelete KService (Service.Name x) (Service.NamespaceName x))
  | RService, ListAction => called args [] (λ x, CList KService (np_Namespace x))
  | RService, GetAction => called args ["name"] (λ x, CGet KService (Service.Name x) (Service.NamespaceName x))
  | RModule, CreateAction => called args ["name"; "payload"] CCreateModule
  | RModule, DeleteAction _ => called args ["name"] (λ x, CDelete KModule (Module_.Name x) (Module_.NamespaceName x))
  | RModule, ListAction => called args [] (λ x, CList KModule (np_Namespace x))
  | RModule, GetAction => called args ["name"] (λ x, CGet KModule (Module_.Name x) (Module_.NamespaceName x))
  | RRoute, CreateAction => called args ["name"; "paths"; "methods"] CCreateRoute
  | RRoute, DeleteAction _ => called args ["name"] (λ x, CDelete KRoute (Route.Name x) (Route.NamespaceName x))
  | RRoute, ListAction => called args [] (λ x, CList KRoute (np_Namespace x))
  | RRoute, GetAction => called args ["name"] (λ x, CGet KRoute (Route.Name x) (Route.NamespaceName x))
  | RDomain, CreateAction => called args ["name"; "patterns"] CCreateDomain
  | RDomain, DeleteAction _ => called args ["name"] (λ x, CDelete KDomain (Domain.Name x) (Domain.NamespaceName x))
  | RDomain, ListAction => called args [] (λ x, CList KDomain (np_Namespace x))
  | RDomain, GetAction => called args ["name"] (λ x, CGet KDomain (Domain.Name x) (Domain.NamespaceName x))
  | RCollection, CreateAction => called args ["name"; "schema"] CCreateCollection
  | RCollection, DeleteAction _ =>
    called args ["name"] (λ x, CDelete KCollection (Collection.Name x) (Collection.NamespaceName x))
  | RCollection, ListAction => called args [] (λ x, CList KCollection (np_Namespace x))
  | RCollection, GetAction => called args ["name"] (λ x, CGet KCollection (Collection.Name x) (Collection.NamespaceName x))
  | RDocument, CreateAction => called args ["id"; "collection"; "data"] CCreateDocument
  | RDocument, DeleteAction true =>
    called args [] (λ x, CDeleteAllDocument (Document.NamespaceName x) (Document.CollectionName x))
  | RDocument, DeleteAction false =>
    called args ["id"] (λ x, CDeleteDocument (Document.ID x) (Document.NamespaceName x) (Document.CollectionName x))
  | RDocument, ListAction =>
    called args ["collection"] (λ x, CListDocument (Document.NamespaceName x) (Document.CollectionName x))
  | RDocument, GetAction =>
    called args ["id"] (λ x, CGetDocument (Document.ID x) (Document.NamespaceName x) (Document.CollectionName x))
  | RSecret, CreateAction => called args ["name"; "data"] CCreateSecret
  | RSecret, DeleteAction _ => called args ["name"] (λ x, CDelete KSecret (Secret.Name x) (Secret.NamespaceName x))
  | RSecret, ListAction => called args [] (λ x, CList KSecret (np_Namespace x))
  | RSecret, GetAction => called args ["name"] (λ x, CGet KSecret (Secret.Name x) (Secret.NamespaceName x))
  end.

(** A command does what its call does, and reports its error. *)
Definition performs (m : CL (gores string)) (c : gores (option call)) : Prop := ∀ d,
  match c with
  | Err err => m d = (Return (Err err), d)
  | Ok None => m d = (Return (Ok SubcommandHelp), d)
  | Ok (Some c) => (m d).2 = (perform c d).2 ∧ ∀ err, (perform c d).1 = Return (Some err) → (m d).1 = Return (Err err)
  end.

Lemma creating_performs {T} `{FromArgs cli_json T} args required (put : T → CL (option error)) show (f : T → call) :
  (∀ x, perform (f x) = put x) → performs (creating required args put show) (called args required f).
Proof.
  intros Hf d. unfold creating, called. destruct (parsed T args required) as [x|err]; [|done]. rewrite Hf. go.
  destruct (put x d) as [[[err|]|e|] d']; go; (split; [done|]); [by intros ? [= ->]|done..].
Qed.
Lemma deleting_performs {T} `{FromArgs cli_json T} args required (del : T → CL (option error)) (f : T → call) :
  (∀ x, perform (f x) = del x) → performs (deleting required args del) (called args required f).
Proof.
  intros Hf d. unfold deleting, called. destruct (parsed T args required) as [x|err]; [|done]. rewrite Hf. go.
  destruct (del x d) as [[[err|]|e|] d']; go; (split; [done|]); [by intros ? [= ->]|done..].
Qed.
Lemma shows_performs {U} (get : CL (gores U)) c : perform c = fails get →
  performs (r ← get; mret match r with Err err => Err err | Ok u => jsonPrettyPrint u end) (Ok (Some c)).
Proof.
  intros Hc d. rewrite Hc. unfold fails. go.
  destruct (get d) as [[[u|err]|e|] d']; go; (split; [done|]); [done|by intros ? [= ->]|done..].
Qed.
Lemma fetching_performs {T U} `{FromArgs cli_json T} args required (get : T → CL (gores U)) (f : T → call) :
  (∀ x, perform (f x) = fails (get x)) → performs (fetching required args get) (called args required f).
Proof.
  intros Hf. unfold fetching, called. destruct (parsed T args required) as [x|err]; [|done]. by apply shows_performs.
Qed.

Lemma command_performs r a args : performs (command_of Do new_request r a args) (call_of r a args).
Proof.
  destruct r, a as [|[]| |]; cbn [command_of call_of NamespaceCommand ServiceCommand ModuleCommand RouteCommand DomainCommand
    CollectionCommand DocumentCommand SecretCommand];
    try (apply creating_performs; reflexivity); try (apply deleting_performs; reflexivity);
    try (apply fetching_performs; reflexivity); try (apply shows_performs; reflexivity).
  all: intros d; destruct args as [|name [|]]; [done| |done]; destruct (String.eqb name ""); [done|]; go;
    change (perform (CDelete KNamespace name "")) with (AdminClient.DeleteNamespace Do new_request name);
    destruct (AdminClient.DeleteNamespace Do new_request name d) as [[[err|]|e|] d']; go; (split; [done|]);
    [by intros ? [= ->]|done..].
Qed.

(** The name and the password of [--auth]. *)
Definition credentials (ReadPassword : gores string) (auth : string) : gores (string * string) :=
  match split_once ":" auth with
  | Some c => Ok c
  | None => if String.eqb auth "" then Ok ("", "")
            else match ReadPassword with Err err => Err err | Ok password => Ok (auth, password) end
  end.
Definition server_url (admin : string) : string := if Contains admin "://" then admin else "http://" +:+ admin.

(** A process that has just started: net/http's client is as it is made. *)
Definition fresh_process d : Prop := clients d !! DefaultClient = Some (MkHttpClient None None).

Lemma update_client_found (g : http_client → http_client) d l c : client d = Some l → clients d !! l = Some c →
  update_client g d = (Return tt, set_clients (<[l := g c]> (clients d)) d).
Proof. intros Hl Hc. unfold update_client, the_client. go. rewrite Hl. cbn. rewrite Hc. go. by rewrite Hl. Qed.

(** What [Before] sets up: the server's URL, and a transport that names the
    client and its user. *)
Lemma Before_sets ReadPassword agent f u name password d :
  fresh_process d → Parse (server_url (f_admin f)) = Ok u → b_Host u ≠ "" →
  credentials ReadPassword (f_auth f) = Ok (name, password) →
  Before Parse ReadPassword agent f d =
    (Return None, MkClient (Some DefaultClient) u
      (<[DefaultClient := MkHttpClient (Some (CustomTransport agent name password (f_verbose f) DefaultTransport)) (Some (f_follow f))]>
         (clients d)) (world d)).
Proof.
  intros Hd Hu Hhost Hcred. unfold Before.
  assert (∃ o, auth_option ReadPassword (f_auth f) = Ok o ∧
    match o with Some m => m = WithBasicAuth (W := @ProxyState E Any S X) name password
               | None => name = "" ∧ password = "" end) as (o & -> & Ho).
  { unfold credentials in Hcred. unfold auth_option. destruct (split_once ":" (f_auth f)) as [[a b]|].
    - injection Hcred as -> ->. by eexists.
    - destruct (String.eqb (f_auth f) ""); [injection Hcred as <- <-; by exists None|].
      destruct ReadPassword; [|done]. injection Hcred as <- <-. by eexists. }
  unfold Init. fold (server_url (f_admin f)). rewrite Hu, (proj2 (String.eqb_neq _ _)) by done. go.
  set (d0 := set_client _ _). unfold the_client at 1. go. change (client d0) with (Some DefaultClient).
  change (clients d0) with (clients d). cbn [mbind option_bind]. rewrite Hd. go. cbn [Transport].
  rewrite (update_client_found _ d0 DefaultClient (MkHttpClient None None) eq_refl Hd). go.
  cbn [apply_options]. unfold WithFollowRedirect, WithUserAgent, WithVerboseLogging. go.
  do 3 (erewrite update_client_found; [|reflexivity|apply lookup_insert_eq]; go).
  destruct o as [m|].
  - subst m. cbn [apply_options]. go. unfold WithBasicAuth.
    erewrite update_client_found; [|reflexivity|apply lookup_insert_eq]. go.
    unfold set_clients. cbn. by rewrite !insert_insert_eq.
  - destruct Ho as [-> ->]. unfold set_clients. cbn. by rewrite !insert_insert_eq.
Qed.

(** *** Credentials on the way *)

(** Before the first colon there is none. *)
Lemma split_colon name s : split_once ":" name = None → split_once ":" (name +:+ ":" +:+ s) = Some (name, s).
Proof.
  change (":" +:+ s) with (String ":" s). induction name as [|c name IH]; unfold String.append; fold String.append; intros Hn.
  { cbn [split_once]. by rewrite prefix_cons, prefix_empty. }
  cbn [split_once] in Hn |- *. rewrite prefix_cons, prefix_empty in *. destruct (ascii_dec ":" c); [done|].
  rewrite IH; [done|]. by destruct (split_once ":" name) as [[? ?]|].
Qed.
Lemma split_before s : ∀ a b, split_once ":" s = Some (a, b) → split_once ":" a = None.
Proof.
  induction s as [|c s IH]; intros a b; cbn [split_once]; [done|]. rewrite prefix_cons, prefix_empty.
  destruct (ascii_dec ":" c) as [|Hne]; [by intros [= <- <-]|].
  destruct (split_once ":" s) as [[a' b']|]; [|done]. intros [= <- <-]. cbn [split_once].
  rewrite prefix_cons, prefix_empty. destruct (ascii_dec ":" c); [done|]. by rewrite (IH a' b').
Qed.
Lemma credentials_name ReadPassword auth name password :
  credentials ReadPassword auth = Ok (name, password) → split_once ":" name = None.
Proof.
  unfold credentials. destruct (split_once ":" auth) as [[a b]|] eqn:Ha; [intros [= <- <-]; by eapply split_before|].
  destruct (String.eqb auth ""); [by intros [= <- _]|]. destruct ReadPassword; [|done]. by intros [= <- _].
Qed.

(** The request of a call as the guard sees it: the user of [--auth], if one is
    given, and the headers of the client. *)
Definition no_credentials (np : string * string) : bool := String.eqb np.1 "" && String.eqb np.2 "".
Definition command_asks (agent : string) (np : string * string) (c : call) : AdminRoutes.call :=
  AdminRoutes.MkCall (sv_origin srv) (method_of c) (if no_credentials np then None else Some np)
    (Values_Get (query (sets c) ∅)) (Http.Get (round_trip agent np.1 np.2 (header_of c))).

Lemma Get_other k k' v h : CanonicalHeaderKey k ≠ CanonicalHeaderKey k' → Http.Get (Set_ k v h) k' = Http.Get h k'.
Proof. intros Hne. unfold Http.Get, Http.Values, Set_. f_equal. f_equal. f_equal. by apply lookup_insert_ne. Qed.
Lemma Get_set k v h : Http.Get (Set_ k v h) k = v.
Proof.
  unfold Http.Get, Http.Values, Set_. assert (<[CanonicalHeaderKey k := [v]]> h !! CanonicalHeaderKey k = Some [v]) as Hk by apply lookup_insert_eq.
  exact (f_equal (λ o, default "" (head (default [] o))) Hk).
Qed.
Lemma BasicAuth_round_trip agent name password c : split_once ":" name = None →
  BasicAuth (round_trip agent name password (header_of c)) = if no_credentials (name, password) then None else Some (name, password).
Proof.
  intros Hn. unfold BasicAuth, round_trip, no_credentials. rewrite <-negb_andb. cbn [fst snd].
  set (b := _ && _). set (h := if negb b then _ else _).
  assert (Http.Get (if negb (String.eqb agent "") then Set_ "User-Agent" agent h else h) "Authorization" =
    Http.Get h "Authorization") as ->.
  { destruct (negb (String.eqb agent "")); [|done]. by apply Get_other. }
  subst h. destruct b; cbn [negb].
  - unfold header_of. destruct (String.eqb (method_of c) "PUT"); [rewrite Get_other by done|]; reflexivity.
  - rewrite Get_set. change (HasPrefix ("Basic " +:+ _) "Basic ") with (HasPrefix (EncodeToString (name +:+ ":" +:+ password)) "").
    change (drop_chars 6 ("Basic " +:+ ?s)) with s.
    rewrite prefix_empty. cbn [drop_chars]. rewrite StdDecode_encode. by apply split_colon.
Qed.
Lemma asks_command agent name password verbose r c : split_once ":" name = None →
  asks srv (MkHttpClient (Some (CustomTransport agent name password verbose DefaultTransport)) r)
    (method_of c) (header_of c) (query (sets c) ∅) = command_asks agent (name, password) c.
Proof.
  intros Hn. unfold asks, command_asks.
  change (transported _ _) with (round_trip agent name password (header_of c)). by rewrite BasicAuth_round_trip.
Qed.

(** What the command line calls itself. *)
Definition agent_of (v os arch : string) : string := "DGate CLI " +:+ v +:+ ";os=" +:+ os +:+ ";arch=" +:+ arch.

(** C18: A command line and a server at the root of its host, from a process
    that has just started.  A command whose arguments make a call (what it
    reads or deletes by its name having a name of one path element) sends it
    with the credentials of [--auth].  If the server's allow list, its users
    or keys, and its raft let the request pass, it reaches the call's handler,
    with the call's name, body and query and nothing else, and leaves the
    server as the handler does; of the commands without a handler each fails
    and changes nothing.  If they do not, nothing is changed on the server and
    the command fails, unless it was redirected and may follow. *)
Theorem command_reaches_handler ReadPassword v os arch f u np word1 word2 all r a args c body d
  (Hd : fresh_process d) (Hu : Parse (server_url (f_admin f)) = Ok u) (Hhost : b_Host u ≠ "")
  (Hroot : at_root u) (Hquery : b_Query u = ∅) (Hcred : credentials ReadPassword (f_auth f) = Ok np)
  (Hr : resource_of word1 = Some r) (Ha : action_of all word2 = Some a)
  (Hcall : call_of r a args = Ok (Some c)) (Hname : named_well c) (Hbody : encoded c = Ok body) :
  let x := Run_ Do Parse new_request ReadPassword v os arch f word1 word2 all args d in
  let k := command_asks (agent_of v os arch) np c in
  let addressed := address_allowed (X := X) (sv_conf srv) k ∧ authorised (sv_conf srv) k in
  (addressed ∧ may_change (world d) k →
     match target c with
     | Some (e, param) => world x.2 = (serve version now e (served body param (query (sets c) ∅)) (world d)).2
     | None => world x.2 = world d ∧ ∃ err, x.1 = Return (Err err)
     end) ∧
  (¬ (addressed ∧ may_change (world d) k) →
     world x.2 = world d ∧ (f_follow f = false ∨ ¬ addressed → ∃ err, x.1 = Return (Err err))).
Proof.
  destruct np as [name password]. cbv zeta. unfold Run_. go.
  rewrite (Before_sets ReadPassword _ f u name password d Hd Hu Hhost Hcred). go. rewrite Hr, Ha.
  set (d1 := MkClient _ _ _ _).
  assert (clients d1 !! DefaultClient = Some (MkHttpClient (Some (CustomTransport (agent_of v os arch) name password
    (f_verbose f) DefaultTransport)) (Some (f_follow f)))) as Hcl by apply lookup_insert_eq.
  assert (ready_ d1) as Hready by (split; [exact Hroot|]; exists DefaultClient; split; [done|by eexists]).
  pose proof (command_performs r a args d1) as Hp. rewrite Hcall in Hp. destruct Hp as [Hstate Herr].
  pose proof (call_reaches_handler version now render unrouted new_request srv Hunrouted Hnew Hsrv c d1 body Hready Hname Hbody) as H.
  cbv zeta in H. change (baseUrl d1) with u in H. rewrite Hquery in H. unfold lands, asked in H.
  assert (client_of d1 = MkHttpClient (Some (CustomTransport (agent_of v os arch) name password (f_verbose f) DefaultTransport))
    (Some (f_follow f))) as Hc by (unfold client_of; cbn [client d1 mbind option_bind]; by rewrite Hcl).
  rewrite Hc, (asks_command _ _ _ _ _ _ (credentials_name _ _ _ _ Hcred)) in H. cbn [CheckRedirect] in H.
  change (world d1) with (world d) in H. rewrite Hstate. unfold passes in H. destruct H as [Hpass Hno]. split.
  - intros Hk. specialize (Hpass ltac:(tauto)). destruct (target c) as [[e param]|]; [exact Hpass|].
    destruct Hpass as [Hw [err He]]. split; [exact Hw|]. exists err. by apply Herr.
  - intros Hk. destruct Hno as [Hw Hbad]; [tauto|]. split; [exact Hw|]. intros Hf. destruct Hbad as [err He].
    { destruct Hf as [->|Hf]; [by left|by right]. } exists err. by apply Herr.
Qed.
End commands.

(** ** A concrete command line *)

#[local] Existing Instances text_externals sample_runtime sample_runtime_laws sample_env text_encoding
  sample_node Mem_laws sample_admin.

Definition sample_unmarshal (s : string) : json_answer string := if String.eqb s "" then JsonSyntaxError else JsonOk s.
Definition sample_file (name : string) : gores string := if String.eqb name "m.js" then Ok "f()" else Err "no such file".
Definition text_of (m : gmap string (arg_value string)) (k : string) : string :=
  match m !! k with Some (TextValue s) => s | _ => "" end.

Lemma args_round_trip_witness :
  parse_args sample_unmarshal sample_file ["name=a"; "tags:=[1]"; "payload@=m.js"; "name=m"] =
    Ok (<["name" := TextValue "m"]> (<["name" := TextValue "a"]> (<["tags" := JsonValue "[1]"]>
      (<["payload" := TextValue (Base64.EncodeToString "f()")]> ∅)))).
Proof.
  apply (args_round_trip sample_unmarshal sample_file
    (λ a, match a with TextArg _ t => TextValue t | JsonArg _ t => JsonValue t
                     | FileArg _ _ => TextValue (Base64.EncodeToString "f()") end)
    [TextArg "name" "a"; JsonArg "tags" "[1]"; FileArg "payload" "m.js"; TextArg "name" "m"]);
    repeat constructor; done.
Defined.

(** Decoding takes the texts of a name and a namespace. *)
Definition sample_cli : CliEnv text_externals := {|
  cli_json := string; cli_Unmarshal := sample_unmarshal; cli_ReadFile := sample_file;
  MarshalIndent _ _ := Ok "{}"; SubcommandHelp := "help";
  args_namespace m := Ok (Spec.Namespace.mk (text_of m "name") None, []);
  args_service m := Ok (named_service (text_of m "name"), []);
  args_route m := Ok (named_route (text_of m "name"), []);
  args_module m := Ok (Module_.mk (text_of m "name") (text_of m "namespace") "" "" None, []);
  args_domain m := Ok (Domain.mk (text_of m "name") (text_of m "namespace") None 0 "" "" None, []);
  args_collection m := Ok (Collection.mk text_externals (text_of m "name") (text_of m "namespace") None "" "" None, []);
  args_document m := Ok (Document.mk text_externals (text_of m "id") 0 0 (text_of m "namespace") (text_of m "collection") None, []);
  args_secret m := Ok (Secret.mk (text_of m "name") (text_of m "namespace") "" None, []);
  args_payload m := Ok (MkNamespacePayload (text_of m "namespace"), []) |}.
#[local] Existing Instance sample_cli.

Definition sample_url (_ : string) : gores base_url := Ok (MkBase "http" "localhost:9080" "" ∅).
Definition sample_flags : flags := MkFlags "localhost:9080" "user:pass" false false.
Definition sample_process : @dgateClient (@ProxyState text_externals string Mem.MemStore sample_env) :=
  MkClient None (MkBase "" "" "" ∅) {[DefaultClient := MkHttpClient None None]} documents_proxy.

(** The right password, and a wrong one. *)
Definition wrong_flags : flags := MkFlags "localhost:9080" "user:other" false false.
Definition sample_k np c := command_asks (server_of users_config) (agent_of "dev" "linux" "amd64") np c.
Lemma user_passes c :
  (address_allowed (X := sample_env) users_config (sample_k ("user", "pass") c) ∧ authorised users_config (sample_k ("user", "pass") c)) ∧
  may_change documents_proxy (sample_k ("user", "pass") c).
Proof. split; [split; [by left|]|by left]. by exists [MkUser "user" "pass"], "user", "pass". Qed.
Lemma other_refused c : ¬ authorised users_config (sample_k ("user", "other") c).
Proof. intros (users & user & pass & [= <-] & [= <- <-] & Hpass). by vm_compute in Hpass. Qed.

Lemma command_reaches_handler_witness :
  let run f := Run_ (json := sample_json) (serve_http "" 0 sample_render not_allowed (server_of users_config)) sample_url (λ _ _, None)
    (Err "no terminal") "dev" "linux" "amd64" f in
  world (run sample_flags "collection" "get" false ["name=c"; "namespace=default"] sample_process).2 =
    (GetCollection_ (served "" "c" {["namespace" := ["default"]]}) documents_proxy).2 ∧
  (∃ err, (run sample_flags "col" "rm" false ["name=c"; "namespace=default"] sample_process).1 = Return (Err err)) ∧
  world (run wrong_flags "collection" "get" false ["name=c"; "namespace=default"] sample_process).2 = documents_proxy ∧
  ∃ err, (run wrong_flags "collection" "get" false ["name=c"; "namespace=default"] sample_process).1 = Return (Err err).
Proof.
  intros run. split; [|split].
  - destruct (command_reaches_handler (json := sample_json) "" 0 sample_render not_allowed sample_url (λ _ _, None)
      (server_of users_config) users_configured (λ _, ltac:(done)) (λ _ _, eq_refl) (Err "no terminal") "dev" "linux" "amd64" sample_flags
      (MkBase "http" "localhost:9080" "" ∅) ("user", "pass") "collection" "get" false RCollection GetAction ["name=c"; "namespace=default"]
      (CGet KCollection "c" "default") "" sample_process) as [H _];
      [reflexivity|reflexivity|done|by left|reflexivity|reflexivity|reflexivity|reflexivity|reflexivity|done|reflexivity|].
    exact (H (user_passes _)).
  - destruct (command_reaches_handler (json := sample_json) "" 0 sample_render not_allowed sample_url (λ _ _, None)
      (server_of users_config) users_configured (λ _, ltac:(done)) (λ _ _, eq_refl) (Err "no terminal") "dev" "linux" "amd64" sample_flags
      (MkBase "http" "localhost:9080" "" ∅) ("user", "pass") "col" "rm" false RCollection (DeleteAction false) ["name=c"; "namespace=default"]
      (CDelete KCollection "c" "default") "{}" sample_process) as [H _];
      [reflexivity|reflexivity|done|by left|reflexivity|reflexivity|reflexivity|reflexivity|reflexivity|done|reflexivity|].
    exact (proj2 (H (user_passes _))).
  - destruct (command_reaches_handler (json := sample_json) "" 0 sample_render not_allowed sample_url (λ _ _, None)
      (server_of users_config) users_configured (λ _, ltac:(done)) (λ _ _, eq_refl) (Err "no terminal") "dev" "linux" "amd64" wrong_flags
      (MkBase "http" "localhost:9080" "" ∅) ("user", "other") "collection" "get" false RCollection GetAction ["name=c"; "namespace=default"]
      (CGet KCollection "c" "default") "" sample_process) as [_ H];
      [reflexivity|reflexivity|done|by left|reflexivity|reflexivity|reflexivity|reflexivity|reflexivity|done|reflexivity|].
    destruct H as [Hw He]; [intros [[_ H] _]; exact (other_refused _ H)|]. split; [exact Hw|apply He; by left].
Defined.
