(* ===== verification/RaftHttp.v ===== *)
(** * pkg/rafthttp/rafthttp.go: raft's messages over HTTP

    A node sends a message to another node's server, which hands it to its raft
    and answers with raft's response.  The messages are types of
    hashicorp/raft: parameters, with encoding/json for each.  raft, which takes
    a message from the channel [consumer] and answers, is a computation over
    any world, and so is sending a request, which also says what it left
    unread of the body.  The pauses between attempts are left out. *)
From Stdlib Require Import ZArith Lia Ascii.
From stdpp Require Import base gmap strings list fin_maps pretty.
From S2P Require Import Prelude Avl SliceUtil Pattern Base64 Spec Linker ResourceManager.
From S2P Require Import Storage ProxyStore Scheduler Cache ConfigResources Proxy Http RaftAdmin RaftClient ConfigLoader.

(** The messages, and what the transport reads of them. *)
Class RaftMessages := {
  AppendEntriesRequest : Type; AppendEntriesResponse : Type;
  RequestVoteRequest : Type; RequestVoteResponse : Type;
  RequestPreVoteRequest : Type; RequestPreVoteResponse : Type;
  InstallSnapshotRequest : Type; InstallSnapshotResponse : Type;
  TimeoutNowRequest : Type; TimeoutNowResponse : Type;
  snapshot_Size : InstallSnapshotRequest → Z }.

Record installSnapshotRequest `{M : RaftMessages} : Type := MkInstall { Args : InstallSnapshotRequest; Data : string }.

Arguments MkInstall {M} Args Data.
Arguments Args {M} _.
Arguments Data {M} _.

Class RaftJSON (M : RaftMessages) := {
  #[global] json_AE :: JSON AppendEntriesRequest; #[global] json_AEr :: JSON AppendEntriesResponse;
  #[global] json_RV :: JSON RequestVoteRequest; #[global] json_RVr :: JSON RequestVoteResponse;
  #[global] json_PV :: JSON RequestPreVoteRequest; #[global] json_PVr :: JSON RequestPreVoteResponse;
  #[global] json_IS :: JSON InstallSnapshotRequest; #[global] json_ISr :: JSON InstallSnapshotResponse;
  #[global] json_TN :: JSON TimeoutNowRequest; #[global] json_TNr :: JSON TimeoutNowResponse;
  #[global] json_install :: JSON installSnapshotRequest;
  (** whether the first value of a text is null *)
  json_null : string → bool }.

Section transport.
Context {M : RaftMessages} {J : RaftJSON M}.

Inductive Command : Type :=
  | AppendEntries_ (args : AppendEntriesRequest)
  | RequestVote_ (args : RequestVoteRequest)
  | RequestPreVote_ (args : RequestPreVoteRequest)
  | InstallSnapshot_ (args : InstallSnapshotRequest)
  | TimeoutNow_ (args : TimeoutNowRequest).
(** What raft answers: any of its responses. *)
Inductive RPCResponse : Type :=
  | AppendEntriesR (r : AppendEntriesResponse)
  | RequestVoteR (r : RequestVoteResponse)
  | RequestPreVoteR (r : RequestPreVoteResponse)
  | InstallSnapshotR (r : InstallSnapshotResponse)
  | TimeoutNowR (r : TimeoutNowResponse).
Definition encode_response (r : RPCResponse) : gores string :=
  match r with
  | AppendEntriesR r => Encode r | RequestVoteR r => Encode r | RequestPreVoteR r => Encode r
  | InstallSnapshotR r => Encode r | TimeoutNowR r => Encode r
  end.

(** [raft.RPC]: the command, which may be nil, and the reader of a snapshot. *)
Record RPC : Type := MkRPC { rpc_Command : option Command; rpc_Reader : option string }.

(** A request with the one header that is read, and an answer. *)
Record raft_request : Type := MkRaftRequest { rr_URL : string; rr_Install : string; rr_Body : string }.

Record HTTPTransport (W : Type) : Type := MkTransport {
  addr : string; client : raft_request → Run W (gores reply * string); scheme : string }.
Arguments MkTransport {W} addr client scheme.
Arguments addr {W} _.
Arguments client {W} _ _.
Arguments scheme {W} _.

Section code.
Context {W : Type} (new_request : string → option error).
Abbreviation TR := (Run W).
Implicit Types (t : HTTPTransport W).

(** A nil client is http.DefaultClient. *)
Definition NewHTTPTransport (addr : string) (client : option (raft_request → TR (gores reply * string)))
    (DefaultClient_Do : raft_request → TR (gores reply * string)) (scheme : string) : HTTPTransport W :=
  MkTransport addr (default DefaultClient_Do client) (if String.eqb scheme "" then "http" else scheme).

Definition generateUrl t (target action : string) : string := scheme t +:+ "://" +:+ target +:+ "/raft/" +:+ action.
Definition LocalAddr t : string := addr t.
Definition EncodePeer (a : string) : string := a.
Definition DecodePeer (b : string) : string := b.
Definition AppendEntriesPipeline : error := "replication pipeline not supported".

(** The attempts: one, and eleven more. *)
Fixpoint attempt (retriesLeft : nat) t (req : raft_request) : TR (gores reply) :=
  '(res, unread) ← client t req;
  match res, retriesLeft with
  | Ok res, _ => mret (Ok res)
  | Err err, O => mret (Err ("could not send request: " +:+ err))
  | Err err, S retriesLeft => attempt retriesLeft t (MkRaftRequest (rr_URL req) (rr_Install req) unread)
  end.
Definition send {I O : Type} {JI : JSON I} {JO : JSON O} t (url : string) (in_ : I) : TR (gores O) :=
  match Encode in_ with
  | Err err => mret (Err ("could not serialize request: " +:+ err))
  | Ok buf =>
      match new_request url with
      | Some err => mret (Err err)
      | None =>
          res ← attempt 11 t (MkRaftRequest url "" buf);
          mret match res with
               | Err err => Err err
               | Ok res => if rp_StatusCode res =? 200 then Decode (rp_Body res)
                           else Err ("unexpected HTTP status code: " +:+ rp_Status res)
               end
      end
  end.

Definition AppendEntries t (target : string) (args : AppendEntriesRequest) : TR (gores AppendEntriesResponse) :=
  send t (generateUrl t target "AppendEntries") args.
Definition RequestVote t (target : string) (args : RequestVoteRequest) : TR (gores RequestVoteResponse) :=
  send t (generateUrl t target "RequestVote") args.
Definition RequestPreVote t (target : string) (args : RequestPreVoteRequest) : TR (gores RequestPreVoteResponse) :=
  send t (generateUrl t target "RequestPreVote") args.
Definition TimeoutNow t (target : string) (args : TimeoutNowRequest) : TR (gores TimeoutNowResponse) :=
  send t (generateUrl t target "TimeoutNow") args.

(** [io.CopyN] from a reader that does not fail: the first bytes, which must
    be there. *)
Definition copy_n (data : string) (n : Z) : gores string :=
  if n <=? Z.of_nat (String.length data) then Ok (String.substring 0 (Z.to_nat n) data) else Err "EOF".
(** [make] with a capacity that is negative. *)
Definition buffer_for (size : Z) : outcome unit :=
  if size + 512 <? 0 then Panics "makeslice: cap out of range" else mret tt.

Definition once t (req : raft_request) : TR (gores reply) := '(res, _) ← client t req; mret res.
Definition install_streaming t (url : string) (args : InstallSnapshotRequest) (data : string)
    : TR (gores InstallSnapshotResponse) :=
  match Encode args with
  | Err err => mret (Err err)
  | Ok buf =>
      res ← once t (MkRaftRequest url buf data);
      mret match res with
           | Err err => Err ("could not send request: " +:+ err)
           | Ok res => if rp_StatusCode res =? 200 then Decode (rp_Body res)
                       else Err ("unexpected HTTP status code: " +:+ rp_Status res +:+ " (body: " +:+ TrimSpace (rp_Body res) +:+ ")")
           end
  end.
Definition InstallSnapshot t (target : string) (args : InstallSnapshotRequest) (data : string)
    : TR (gores InstallSnapshotResponse) :=
  let url := generateUrl t target "InstallSnapshotStreaming" in
  match new_request url with
  | Some err => mret (Err err)
  | None =>
      probe ← once t (MkRaftRequest url "" "");
      match probe with
      | Err err => mret (Err err)
      | Ok probe =>
          if rp_StatusCode probe =? 404 then
            _ ← lift_outcome (buffer_for (snapshot_Size args));
            match copy_n data (snapshot_Size args) with
            | Err err => mret (Err ("could not read data: " +:+ err))
            | Ok buf => send t (generateUrl t target "InstallSnapshot") (MkInstall args buf)
            end
          else install_streaming t url args data
      end
  end.
End code.

(** ** The server *)

Section server.
Context {W : Type} (consumer : RPC → Run W (gores RPCResponse)) (Quote : string → string).
Abbreviation TR := (Run W).

(** What the server reads of a request. *)
Record incoming : Type := MkIncoming { in_Path : string; in_Install : string; in_Body : string }.

Definition respond (rpc : RPC) : TR Response :=
  resp ← consumer rpc;
  mret match resp with
       | Err err => Error_ ("could not run RPC: " +:+ err) 400
       | Ok resp =>
           match encode_response resp with
           | Err err => Error_ ("could not encode response: " +:+ err) 500
           | Ok b => MkResponse 200 (Set_ "Content-Type" "application/json" ∅) (b +:+ newline)
           end
       end.
(** [Decode(&rpc.Command)]: null makes the command nil. *)
Definition handle {T : Type} {JT : JSON T} (body : string) (rpc : T → RPC) : TR Response :=
  if json_null body then respond (MkRPC None None) else
  match Decode body with
  | Err err => mret (Error_ ("could not parse request: " +:+ err) 400)
  | Ok command => respond (rpc command)
  end.

Definition ServeHTTP (req : incoming) : TR Response :=
  let cmd := Base (in_Path req) in
  let plain_ (c : Command) := MkRPC (Some c) None in
  if String.eqb cmd "InstallSnapshot" then
    handle (in_Body req) (λ r, MkRPC (Some (InstallSnapshot_ (Args r))) (Some (Data r)))
  else if String.eqb cmd "InstallSnapshotStreaming" then
    match Decode (in_Install req) with
    | Err err => mret (Error_ ("could not parse request: " +:+ err) 400)
    | Ok isr => respond (MkRPC (Some (InstallSnapshot_ isr)) (Some (in_Body req)))
    end
  else if String.eqb cmd "RequestVote" then handle (in_Body req) (λ a, plain_ (RequestVote_ a))
  else if String.eqb cmd "RequestPreVote" then handle (in_Body req) (λ a, plain_ (RequestPreVote_ a))
  else if String.eqb cmd "AppendEntries" then handle (in_Body req) (λ a, plain_ (AppendEntries_ a))
  else if String.eqb cmd "TimeoutNow" then handle (in_Body req) (λ a, plain_ (TimeoutNow_ a))
  else mret (Error_ ("No RPC " +:+ Quote cmd) 404).
End server.
End transport.
Arguments MkTransport {W} addr client scheme.
Arguments addr {W} _.
Arguments client {W} _ _.
Arguments scheme {W} _.
