(* ===== verification/RaftHttpTheorems.v ===== *)
(** * A message of raft reaches the other node's raft *)
From Stdlib Require Import ZArith Lia Ascii.
From stdpp Require Import base gmap strings list fin_maps pretty countable.
From S2P Require Import Prelude Avl SliceUtil Pattern Spec Linker ResourceManager.
From S2P Require Import Storage ProxyStore Scheduler Cache ConfigResources Proxy Http.
From S2P Require Import RaftAdmin RaftClient RaftAdminTheorems ConfigLoader RaftHttp.

(** What is used of encoding/json: what is encoded decodes again and is not
    null, and the empty text is not a value. *)
Class RaftLaws {M : RaftMessages} (J : RaftJSON M) : Prop := {
  #[global] law_AE :: JSONLaw AppendEntriesRequest json_AE; #[global] law_AEr :: JSONLaw AppendEntriesResponse json_AEr;
  #[global] law_RV :: JSONLaw RequestVoteRequest json_RV; #[global] law_RVr :: JSONLaw RequestVoteResponse json_RVr;
  #[global] law_PV :: JSONLaw RequestPreVoteRequest json_PV; #[global] law_PVr :: JSONLaw RequestPreVoteResponse json_PVr;
  #[global] law_IS :: JSONLaw InstallSnapshotRequest json_IS; #[global] law_ISr :: JSONLaw InstallSnapshotResponse json_ISr;
  #[global] law_TN :: JSONLaw TimeoutNowRequest json_TN; #[global] law_TNr :: JSONLaw TimeoutNowResponse json_TNr;
  not_null_AE (a : AppendEntriesRequest) b : Encode a = Ok b → json_null b = false;
  not_null_RV (a : RequestVoteRequest) b : Encode a = Ok b → json_null b = false;
  not_null_PV (a : RequestPreVoteRequest) b : Encode a = Ok b → json_null b = false;
  not_null_TN (a : TimeoutNowRequest) b : Encode a = Ok b → json_null b = false;
  empty_IS : ∃ err, (Decode "" : gores InstallSnapshotRequest) = Err err }.

Section delivery.
Context {M : RaftMessages} {J : RaftJSON M} {L : RaftLaws J} {W : Type}.
Context (consumer : RPC → Run W (gores RPCResponse)) (Quote url_Path : string → string) (status : Z → string).
Implicit Types (target : string) (w : W).

(** The other node's server, asked directly; and a transport that does. *)
Definition asked (req : raft_request) : Run W (gores reply * string) :=
  res ← RaftHttp.ServeHTTP consumer Quote (MkIncoming (url_Path (rr_URL req)) (rr_Install req) (rr_Body req));
  mret (Ok (MkReply (StatusCode res) (status (StatusCode res)) (rs_Body res)), "").
Definition between (own : string) : HTTPTransport W := NewHTTPTransport own (Some asked) asked "".
Definition valid (_ : string) : option error := None.

(** The methods, the message that each carries, and the type of its answer. *)
Inductive carries (own : string) : ∀ O : Type, string → (string → Run W (gores O)) → RPC → (O → RPCResponse) → Prop :=
  | carries_AppendEntries args : carries own _ "AppendEntries" (λ t, AppendEntries valid (between own) t args)
      (MkRPC (Some (AppendEntries_ args)) None) AppendEntriesR
  | carries_RequestVote args : carries own _ "RequestVote" (λ t, RequestVote valid (between own) t args)
      (MkRPC (Some (RequestVote_ args)) None) RequestVoteR
  | carries_RequestPreVote args : carries own _ "RequestPreVote" (λ t, RequestPreVote valid (between own) t args)
      (MkRPC (Some (RequestPreVote_ args)) None) RequestPreVoteR
  | carries_TimeoutNow args : carries own _ "TimeoutNow" (λ t, TimeoutNow valid (between own) t args)
      (MkRPC (Some (TimeoutNow_ args)) None) TimeoutNowR
  | carries_InstallSnapshot args data : carries own _ "InstallSnapshotStreaming"
      (λ t, InstallSnapshot valid (between own) t args data)
      (MkRPC (Some (InstallSnapshot_ args)) (Some data)) InstallSnapshotR.

(** What the sender learns of a refusal. *)
Definition refusal (action : string) (err : error) : error :=
  let code := "unexpected HTTP status code: " +:+ status 400 in
  if String.eqb action "InstallSnapshotStreaming"
  then code +:+ " (body: " +:+ TrimSpace ("could not run RPC: " +:+ err +:+ newline) +:+ ")" else code.
Definition arrives own action target : Prop := Base (url_Path (RaftHttp.generateUrl (between own) target action)) = action.

Lemma attempt_asked own n url h body w res w' :
  RaftHttp.ServeHTTP consumer Quote (MkIncoming (url_Path url) h body) w = (Return res, w') →
  attempt n (between own) (MkRaftRequest url h body) w =
    (Return (Ok (MkReply (StatusCode res) (status (StatusCode res)) (rs_Body res))), w').
Proof.
  intros H. destruct n; cbn [attempt]; change (RaftHttp.client (between own)) with asked; go; unfold asked; go;
    cbn [rr_URL rr_Install rr_Body]; rewrite H; by go.
Qed.

Definition wrapped {O} (wrap : O → RPCResponse) (x : gores O) : gores RPCResponse :=
  match x with Ok o => Ok (wrap o) | Err err => Err err end.
(** The answer to a message, when raft answers with the type of the message. *)
Lemma respond_reply {O} {JO : JSON O} {LO : JSONLaw O JO} (wrap : O → RPCResponse) rpc w x w' :
  (∀ o, encode_response (wrap o) = Encode o) → consumer rpc w = (Return (wrapped wrap x), w') →
  ∃ res, respond consumer rpc w = (Return res, w') ∧
    match x with
    | Ok o => StatusCode res = 200 ∧ Decode (rs_Body res) = Ok o
    | Err err => StatusCode res = 400 ∧ rs_Body res = "could not run RPC: " +:+ err +:+ newline
    end.
Proof.
  intros Hw H. unfold respond. go. rewrite H. go. destruct x as [o|err]; cbn [wrapped].
  - rewrite Hw. destruct (json_law o) as (b & -> & _ & Hb). eexists. split; [reflexivity|]. by split.
  - eexists. split; [reflexivity|]. split; [done|]. cbn. unfold newline. by rewrite string_app_assoc.
Qed.

Lemma send_delivers {I O : Type} {JI : JSON I} {JO : JSON O} {LI : JSONLaw I JI} {LO : JSONLaw O JO}
    own target action (args : I) (cmd : I → Command) (wrap : O → RPCResponse) w x w' :
  (∀ o, encode_response (wrap o) = Encode o) → (∀ b, Encode args = Ok b → json_null b = false) →
  (∀ body h, RaftHttp.ServeHTTP consumer Quote (MkIncoming (url_Path (RaftHttp.generateUrl (between own) target action)) h body) =
    handle consumer body (λ a, MkRPC (Some (cmd a)) None)) →
  consumer (MkRPC (Some (cmd args)) None) w = (Return (wrapped wrap x), w') →
  RaftHttp.send valid (between own) (RaftHttp.generateUrl (between own) target action) args w =
    (Return match x with Ok o => Ok o | Err _ => Err ("unexpected HTTP status code: " +:+ status 400) end, w').
Proof.
  intros Hw Hn Hs Hc. unfold RaftHttp.send. destruct (json_law args) as (b & Hb & Hd & _). rewrite Hb. cbn [valid].
  destruct (respond_reply wrap _ w x w' Hw Hc) as (res & Hres & Hx). go. erewrite attempt_asked.
  2: { rewrite Hs. unfold handle. rewrite (Hn b Hb), Hd. exact Hres. }
  go. destruct x as [o|err]; destruct Hx as [Hcode Hbody]; cbn [rp_StatusCode rp_Body rp_Status]; rewrite Hcode; cbn; [by rewrite Hbody|done].
Qed.

Lemma install_delivers own target args data w x w' : arrives own "InstallSnapshotStreaming" target →
  consumer (MkRPC (Some (InstallSnapshot_ args)) (Some data)) w = (Return (wrapped InstallSnapshotR x), w') →
  InstallSnapshot valid (between own) target args data w =
    (Return match x with Ok o => Ok o | Err err => Err (refusal "InstallSnapshotStreaming" err) end, w').
Proof.
  intros Ha Hc. unfold InstallSnapshot. cbn [valid]. unfold once, install_streaming. destruct empty_IS as [err He].
  change (RaftHttp.client (between own)) with asked. go. unfold asked at 1. go. unfold RaftHttp.ServeHTTP at 1.
  cbn [rr_URL rr_Install rr_Body in_Path in_Install in_Body]. unfold arrives in Ha. rewrite Ha. cbn [String.eqb Ascii.eqb Bool.eqb].
  rewrite He. go. cbn [StatusCode Error_ rp_StatusCode]. cbn [Z.eqb Pos.eqb].
  destruct (json_law args) as (b & Hb & Hd & _). rewrite Hb. unfold once. go. change (RaftHttp.client (between own)) with asked.
  go. unfold asked. go. unfold RaftHttp.ServeHTTP. cbn [rr_URL rr_Install rr_Body in_Path in_Install in_Body].
  rewrite Ha. cbn [String.eqb Ascii.eqb Bool.eqb]. rewrite Hd.
  destruct (respond_reply InstallSnapshotR _ w x w' (λ o, eq_refl) Hc) as (res & Hres & Hx). rewrite Hres. go.
  destruct x as [o|e]; destruct Hx as [Hcode Hbody]; cbn [rp_StatusCode rp_Body rp_Status]; rewrite Hcode; [by rewrite Hbody|].
  by rewrite Hbody.
Qed.

(** C24: a message of raft is delivered: the transport hands the other node's
    raft the message that was sent, with the snapshot's data where there is
    one, once, and the sender gets raft's answer.  When raft refuses, the
    sender gets an error, with raft's reason in it for a snapshot only. *)
Theorem message_delivered own O action m rpc wrap target x w w' : carries own O action m rpc wrap →
  arrives own action target → consumer rpc w = (Return (wrapped wrap x), w') →
  m target w = (Return match x with Ok o => Ok o | Err err => Err (refusal action err) end, w').
Proof.
  intros Hm Ha Hc. destruct Hm as [args|args|args|args|args data]; [..|by apply install_delivers];
    unfold AppendEntries, RequestVote, RequestPreVote, TimeoutNow.
  - apply (send_delivers own target _ args AppendEntries_ AppendEntriesR); [done|apply not_null_AE| |done].
    intros body h. unfold RaftHttp.ServeHTTP. cbn [in_Path in_Body]. unfold arrives in Ha. by rewrite Ha.
  - apply (send_delivers own target _ args RequestVote_ RequestVoteR); [done|apply not_null_RV| |done].
    intros body h. unfold RaftHttp.ServeHTTP. cbn [in_Path in_Body]. unfold arrives in Ha. by rewrite Ha.
  - apply (send_delivers own target _ args RequestPreVote_ RequestPreVoteR); [done|apply not_null_PV| |done].
    intros body h. unfold RaftHttp.ServeHTTP. cbn [in_Path in_Body]. unfold arrives in Ha. by rewrite Ha.
  - apply (send_delivers own target _ args TimeoutNow_ TimeoutNowR); [done|apply not_null_TN| |done].
    intros body h. unfold RaftHttp.ServeHTTP. cbn [in_Path in_Body]. unfold arrives in Ha. by rewrite Ha.
Qed.
End delivery.

(** ** A witness *)

Section witness.

(** Messages are numbers, written after a bracket. *)
#[local] Instance numbers : RaftMessages := {|
  AppendEntriesRequest := Z; AppendEntriesResponse := Z; RequestVoteRequest := Z; RequestVoteResponse := Z;
  RequestPreVoteRequest := Z; RequestPreVoteResponse := Z; InstallSnapshotRequest := Z; InstallSnapshotResponse := Z;
  TimeoutNowRequest := Z; TimeoutNowResponse := Z; snapshot_Size z := z |}.
Definition number_json : JSON Z := {|
  Encode z := Ok ("[" +:+ bits_of (encode z));
  Decode b := match b with
              | String _ b => match (decode (of_line b) : option Z) with Some z => Ok z | None => Err "unexpected token" end
              | EmptyString => Err "unexpected end of JSON input"
              end |}.
Lemma number_law : JSONLaw Z number_json.
Proof.
  intros z. eexists. split; [reflexivity|]. cbn [Decode number_json].
  change ("[" +:+ bits_of (encode z)) with (String "[" (bits_of (encode z))).
  change (String "[" (bits_of (encode z)) +:+ newline) with (String "[" (bits_of (encode z) +:+ newline)). cbv iota.
  by rewrite (of_line_bits _ newline), of_line_alone, !decode_encode.
Qed.
#[local] Instance numbers_json : RaftJSON numbers := {|
  json_AE := number_json; json_AEr := number_json; json_RV := number_json; json_RVr := number_json;
  json_PV := number_json; json_PVr := number_json; json_IS := number_json; json_ISr := number_json;
  json_TN := number_json; json_TNr := number_json;
  json_install := {| Encode _ := Err ""; Decode _ := Err "" |}; json_null b := String.eqb b "null" |}.
#[local] Instance numbers_laws : RaftLaws numbers_json.
Proof.
  split; try apply number_law; try (intros a b [= <-]; reflexivity). by eexists.
Qed.

(** A raft that remembers what it was handed, and refuses a snapshot. *)
Definition sample_consumer (rpc : RPC) : Run (list (@RPC numbers)) (gores RPCResponse) := λ w,
  (Return match rpc_Command rpc with
          | Some (RequestVote_ _) => Ok (RequestVoteR (8 : @RequestVoteResponse numbers))
          | _ => Err "busy"
          end, w ++ [rpc]).
Lemma message_delivered_witness :
  RequestVote valid (between sample_consumer id id (λ _, "400 Bad Request") "a:9080") "b:9080" 7 [] =
    (Return (Ok 8), [MkRPC (Some (RequestVote_ (7 : @RequestVoteRequest numbers))) None]) ∧
  InstallSnapshot valid (between sample_consumer id id (λ _, "400 Bad Request") "a:9080") "b:9080" 3 "abc" [] =
    (Return (Err "unexpected HTTP status code: 400 Bad Request (body: could not run RPC: busy)"),
     [MkRPC (Some (InstallSnapshot_ (3 : @InstallSnapshotRequest numbers))) (Some "abc")]).
Proof.
  split.
  - exact (message_delivered sample_consumer id id (λ _, "400 Bad Request") "a:9080" _ _ _ _ _ "b:9080" (Ok 8) [] _
      (carries_RequestVote sample_consumer id id (λ _, "400 Bad Request") "a:9080" 7) eq_refl eq_refl).
  - exact (message_delivered sample_consumer id id (λ _, "400 Bad Request") "a:9080" _ _ _ _ _ "b:9080" (Err "busy") [] _
      (carries_InstallSnapshot sample_consumer id id (λ _, "400 Bad Request") "a:9080" 3 "abc") eq_refl eq_refl).
Defined.
End witness.
