(* ===== verification/ModuleContext.v ===== *)
(** * pkg/modules/types: what a module sees of a request

    A module works on wrappers of the request, of the response writer and of
    the upstream's response.  The wrappers share the objects of the proxy, so
    these are the state; a wrapper's own fields are copies, which later writes
    do not change.  Headers are shared.  Left out: trailers, transfer encodings
    and the flag of decompression, which are only copied, the redirects of
    net/http, [Locals] and setting cookies.  Parameters: encoding/json, the query
    of a URL, the cookies of a header, and the names of the statuses. *)
From Stdlib Require Import ZArith Lia Ascii.
From stdpp Require Import base gmap strings list fin_maps pretty.
From S2P Require Import Prelude Avl SliceUtil Pattern Spec Linker ResourceManager.
From S2P Require Import Storage ProxyStore Scheduler Cache ConfigResources Proxy Http.

(** ** pkg/util/bytes.go *)

(** A value of a script, as Go gets it. *)
Inductive script_value : Type :=
  | AString (s : string) | ABytes (b : string) | ABuffer (b : string) | AOther (type : string).
Definition ToBytes (a : script_value) : gores string :=
  match a with
  | AString s => Ok s
  | ABytes b => Ok b
  | ABuffer b => Ok b
  | AOther type => Err ("invalid type " +:+ type +:+ ", expected (string, []byte or ArrayBuffer)")
  end.

(** ** Bodies *)

(** A body in memory, what comes from the network, and a body from the network
    that was closed. *)
Inductive body : Type := InMemory (rest : string) | FromNetwork (r : gores string) | Closed.
Definition ReadAll (b : body) : gores string * body :=
  match b with
  | InMemory s => (Ok s, InMemory "")
  | FromNetwork r => (r, FromNetwork match r with Ok _ => Ok "" | Err err => Err err end)
  | Closed => (Err "http: invalid Read on closed Body", Closed)
  end.
Definition Close (b : body) : body := match b with FromNetwork _ => Closed | b => b end.

(** ** The objects of the proxy *)

Record http_request : Type := MkHttpRequest {
  q_Method : string; q_Path : string; q_RawQuery : string; q_Host : string; q_RemoteAddr : string; q_Proto : string;
  q_Header : Header; q_Body : option body; q_ContentLength : Z }.
Record http_response : Type := MkHttpResponse {
  p_StatusCode : Z; p_Status : string; p_Proto : string; p_Header : Header; p_Body : option body; p_ContentLength : Z }.

(** ** The wrappers *)

Record RequestWrapper (Q : Type) : Type := MkRequestWrapper {
  w_Method : string; w_Path : string; w_Query : Q; w_Host : string; w_RemoteAddress : string; w_Proto : string;
  w_ContentLength : Z }.
Record ResponseWrapper : Type := MkResponseWrapper {
  u_StatusCode : Z; u_StatusText : string; u_Protocol : string; u_ContentLength : Z }.
(** The tracker that it holds is the one of the proxy. *)
Record ResponseWriterWrapper : Type := MkWriterWrapper { g_status : Z; g_HeadersSent : bool }.

Record ModuleContext (Q Val : Type) : Type := MkContext {
  mc_ID : string;
  mc_ns : Namespace.t; mc_svc : option Service.t; mc_route : Route.t;
  mc_params : gmap string string;
  mc_req : RequestWrapper Q;
  mc_rwt : option ResponseWriterWrapper;
  mc_upResp : option ResponseWrapper;
  (** a map that may be nil *)
  mc_cache : option (gmap string Val) }.
Arguments MkRequestWrapper {Q}.
Arguments w_Method {Q}. Arguments w_Path {Q}. Arguments w_Query {Q}. Arguments w_Host {Q}. Arguments w_RemoteAddress {Q}.
Arguments w_Proto {Q}. Arguments w_ContentLength {Q}.
Arguments MkContext {Q Val}.
Arguments mc_ID {Q Val}. Arguments mc_ns {Q Val}. Arguments mc_svc {Q Val}. Arguments mc_route {Q Val}.
Arguments mc_params {Q Val}. Arguments mc_req {Q Val}. Arguments mc_rwt {Q Val}. Arguments mc_upResp {Q Val}.
Arguments mc_cache {Q Val}.

Section code.
Context {Q Val Conn : Type}.
Context (Query_ : string → Q) (SplitHostPort : string → gores (string * string)) (StatusText : Z → string).
Context (Marshal : Val → gores string) (Unmarshal : string → gores Val).
Context (rw_Write : string → Conn → (Z * option error) * Conn) (rw_WriteHeader : Z → Conn → Conn).
(** The headers of the response, which the connection holds. *)
Context (change_header : (Header → Header) → Conn → Conn).

(** The objects and the module's context. *)
Record exchange : Type := MkExchange {
  e_req : http_request; e_resp : option http_response; e_rw : @Tracker.rwTracker Conn; e_ctx : ModuleContext Q Val }.
Abbreviation MS := (Run exchange).
Implicit Types (c : ModuleContext Q Val).

Definition set_req r (x : exchange) := MkExchange r (e_resp x) (e_rw x) (e_ctx x).
Definition set_resp r (x : exchange) := MkExchange (e_req x) r (e_rw x) (e_ctx x).
Definition set_rw t (x : exchange) := MkExchange (e_req x) (e_resp x) t (e_ctx x).
Definition set_ctx c (x : exchange) := MkExchange (e_req x) (e_resp x) (e_rw x) c.

(** ** request.go *)

Definition NewRequestWrapper (req : http_request) : RequestWrapper Q :=
  let ip := match SplitHostPort (q_RemoteAddr req) with Ok (ip, _) => ip | Err _ => q_RemoteAddr req end in
  MkRequestWrapper (q_Method req) (q_Path req) (Query_ (q_RawQuery req)) (q_Host req) ip (q_Proto req) (q_ContentLength req).

Definition with_req_body (b : option body) (n : Z) (r : http_request) : http_request :=
  MkHttpRequest (q_Method r) (q_Path r) (q_RawQuery r) (q_Host r) (q_RemoteAddr r) (q_Proto r) (q_Header r) b n.
Definition with_req_header (h : Header) (r : http_request) : http_request :=
  MkHttpRequest (q_Method r) (q_Path r) (q_RawQuery r) (q_Host r) (q_RemoteAddr r) (q_Proto r) h (q_Body r) (q_ContentLength r).
Definition change_req (f : http_request → http_request) : MS unit := run_modify (λ x, set_req (f (e_req x)) x).

(** What is left of the body is read and dropped. *)
Definition RequestWrapper_clearBody : MS unit := change_req (λ r, with_req_body None (q_ContentLength r) r).
Definition RequestWrapper_WriteBody (data : script_value) : MS (option error) :=
  _ ← RequestWrapper_clearBody;
  match ToBytes data with
  | Err err => mret (Some err)
  | Ok buf =>
      _ ← change_req (with_req_body (Some (InMemory buf)) (Z.of_nat (String.length buf)));
      mret None
  end.
Definition RequestWrapper_WriteJson (data : Val) : MS (option error) :=
  _ ← change_req (λ r, with_req_header (Set_ "Content-Type" "application/json" (q_Header r)) r);
  match Marshal data with
  | Err err => mret (Some err)
  | Ok buf => RequestWrapper_WriteBody (ABytes buf)
  end.
Definition RequestWrapper_ReadBody : MS (gores string) :=
  x ← run_get;
  match q_Body (e_req x) with
  | None => mret (Err "body is not set")
  | Some b =>
      let '(r, b) := ReadAll b in
      let b := match r with Ok _ => Close b | Err _ => b end in
      _ ← change_req (λ r, with_req_body (Some b) (q_ContentLength r) r);
      mret r
  end.
Definition RequestWrapper_ReadJson : MS (gores Val) :=
  ab ← RequestWrapper_ReadBody;
  mret match ab with Err err => Err err | Ok b => Unmarshal b end.

(** ** upstream_response.go *)

Definition NewResponseWrapper (resp : http_response) : ResponseWrapper :=
  MkResponseWrapper (p_StatusCode resp) (p_Status resp) (p_Proto resp) (p_ContentLength resp).

Definition with_resp_body (b : option body) (n : Z) (r : http_response) : http_response :=
  MkHttpResponse (p_StatusCode r) (p_Status r) (p_Proto r) (p_Header r) b n.
Definition with_resp_header (h : Header) (r : http_response) : http_response :=
  MkHttpResponse (p_StatusCode r) (p_Status r) (p_Proto r) h (p_Body r) (p_ContentLength r).
Definition with_status (code : Z) (text : string) (r : http_response) : http_response :=
  MkHttpResponse code text (p_Proto r) (p_Header r) (p_Body r) (p_ContentLength r).
(** The wrapper of the upstream's response, and the response. *)
Definition the_upstream : MS (ResponseWrapper * http_response) :=
  x ← run_get;
  match mc_upResp (e_ctx x), e_resp x with
  | Some u, Some r => mret (u, r)
  | _, _ => run_panic nil_deref
  end.
Definition change_resp (f : http_response → http_response) : MS unit :=
  run_modify (λ x, set_resp (f <$> e_resp x) x).
Definition set_upResp (u : option ResponseWrapper) c : ModuleContext Q Val :=
  MkContext (mc_ID c) (mc_ns c) (mc_svc c) (mc_route c) (mc_params c) (mc_req c) (mc_rwt c) u (mc_cache c).
Definition put_upstream (u : ResponseWrapper) : MS unit := run_modify (λ x, set_ctx (set_upResp (Some u) (e_ctx x)) x).

Definition ResponseWrapper_clearBody : MS unit := change_resp (with_resp_body None 0).
(** The job of the promise of [ReadBody]; a body that is nil is read. *)
Definition ResponseWrapper_ReadBody : MS (gores string) :=
  '(_, r) ← the_upstream;
  match p_Body r with
  | None => run_panic nil_deref
  | Some b =>
      let '(res, b) := ReadAll b in
      let b := match res with Ok _ => Close b | Err _ => b end in
      _ ← change_resp (λ r, with_resp_body (Some b) (p_ContentLength r) r);
      mret res
  end.
Definition ResponseWrapper_ReadJson : MS (gores Val) :=
  res ← ResponseWrapper_ReadBody;
  mret match res with Err err => Err err | Ok b => Unmarshal b end.
Definition ResponseWrapper_WriteBody (data : script_value) : MS (option error) :=
  '(u, _) ← the_upstream;
  _ ← ResponseWrapper_clearBody;
  _ ← (if u_StatusCode u <=? 0 then
         let text := if String.eqb (u_StatusText u) "" then StatusText 200 else u_StatusText u in
         _ ← change_resp (λ r, with_status (p_StatusCode r) text r);
         put_upstream (MkResponseWrapper 200 (u_StatusText u) (u_Protocol u) (u_ContentLength u))
       else mret tt);
  '(u, _) ← the_upstream;
  _ ← change_resp (λ r, with_status (u_StatusCode u) (p_Status r) r);
  match ToBytes data with
  | Err err => mret (Some err)
  | Ok buf =>
      let n := Z.of_nat (String.length buf) in
      _ ← change_resp (λ r, with_resp_body (Some (InMemory buf)) n
            (with_resp_header (Set_ "Content-Length" (pretty n) (p_Header r)) r));
      mret None
  end.
Definition ResponseWrapper_WriteJson (data : Val) : MS (option error) :=
  '(_, _) ← the_upstream;
  _ ← change_resp (λ r, with_resp_header (Set_ "Content-Type" "application/json" (p_Header r)) r);
  match Marshal data with
  | Err err => mret (Some err)
  | Ok b => ResponseWrapper_WriteBody (ABytes b)
  end.
Definition ResponseWrapper_Status (status : Z) : MS unit :=
  '(u, _) ← the_upstream;
  _ ← change_resp (with_status status (StatusText status));
  put_upstream (MkResponseWrapper status (StatusText status) (u_Protocol u) (u_ContentLength u)).
Definition upstream_redirect (code : Z) (url : string) : MS unit :=
  '(_, _) ← the_upstream;
  _ ← ResponseWrapper_clearBody;
  _ ← change_resp (λ r, with_resp_header (Set_ "Location" url (p_Header r)) r);
  ResponseWrapper_Status code.
Definition ResponseWrapper_Redirect : string → MS unit := upstream_redirect 307.
Definition ResponseWrapper_RedirectPermanent : string → MS unit := upstream_redirect 301.

(** ** response_writer.go *)

Definition NewResponseWriterWrapper (rwt : @Tracker.rwTracker Conn) : ResponseWriterWrapper :=
  MkWriterWrapper 0 (Tracker.HeadersSent rwt).

Definition set_rwt (g : option ResponseWriterWrapper) c : ModuleContext Q Val :=
  MkContext (mc_ID c) (mc_ns c) (mc_svc c) (mc_route c) (mc_params c) (mc_req c) g (mc_upResp c) (mc_cache c).
Definition the_writer : MS ResponseWriterWrapper :=
  x ← run_get; match mc_rwt (e_ctx x) with Some g => mret g | None => run_panic nil_deref end.
Definition put_writer (g : ResponseWriterWrapper) : MS unit := run_modify (λ x, set_ctx (set_rwt (Some g) (e_ctx x)) x).
Definition tracker_header (f : Header → Header) : MS unit := run_modify (λ x,
  let t := e_rw x in
  set_rw (Tracker.MkTracker (change_header f (Tracker.rw t)) (Tracker.status t) (Tracker.bytesWritten t)) x).
Definition tracker_WriteHeader (code : Z) : MS unit :=
  x ← run_get; t ← lift_outcome (Tracker.WriteHeader rw_WriteHeader (e_rw x) code); run_modify (set_rw t).
Definition tracker_Write (b : string) : MS (Z * option error) :=
  x ← run_get;
  '(r, t) ← lift_outcome (Tracker.Write rw_Write rw_WriteHeader (e_rw x) b);
  _ ← run_modify (set_rw t);
  mret r.

Definition End_ (data : script_value) : MS (option error) :=
  g ← the_writer;
  x ← run_get;
  _ ← (if negb (Tracker.HeadersSent (e_rw x)) then
         let status := if g_status g <=? 0 then 200 else g_status g in
         _ ← tracker_WriteHeader status;
         put_writer (MkWriterWrapper status true)
       else mret tt);
  match ToBytes data with
  | Err err => mret (Some err)
  | Ok buf => r ← tracker_Write buf; mret r.2
  end.
Definition Send : script_value → MS (option error) := End_.
Definition Json (data : Val) : MS (option error) :=
  _ ← the_writer;
  _ ← tracker_header (Set_ "Content-Type" "application/json");
  match Marshal data with
  | Err err => mret (Some err)
  | Ok b => End_ (ABytes b)
  end.
Definition Status (status : Z) : MS unit := g ← the_writer; put_writer (MkWriterWrapper status (g_HeadersSent g)).
Definition Location_ (url : string) : MS unit := _ ← the_writer; tracker_header (Set_ "Location" url).

(** The first of the request's cookies with the name, with [Cookies] as in net/http. *)
Definition GetCookies (Cookies : Header → list (string * string)) : MS (list (string * string)) :=
  _ ← the_writer; x ← run_get; mret (Cookies (q_Header (e_req x))).
Definition GetCookie (Cookies : Header → list (string * string)) (name : string) : MS (option (string * string)) :=
  cookies ← GetCookies Cookies; mret (List.find (λ k, String.eqb k.1 name) cookies).

(** ** module_context.go *)

(** [id] is the clock in base 36. *)
Definition NewModuleContext {E : Externals} (id : string) (rw : @Tracker.rwTracker Conn) (req : http_request)
    (route : DGateRoute.t) (params : gmap string string) : outcome (ModuleContext Q Val) :=
  rt ← TransformDGateRoute route;
  svc ← TransformDGateService (DGateRoute.Service route);
  ns ← match DGateRoute.Namespace route with
       | Some ns => TransformDGateNamespace ns
       | None => Panics nil_deref
       end;
  mret (MkContext id ns svc rt params (NewRequestWrapper req) (Some (NewResponseWriterWrapper rw)) None None).

(** Assignment to an entry of a nil map panics. *)
Definition Set_value (key : string) (value : Val) : MS unit :=
  x ← run_get;
  let c := e_ctx x in
  match mc_cache c with
  | None => run_panic "assignment to entry in nil map"
  | Some m => run_modify (set_ctx (MkContext (mc_ID c) (mc_ns c) (mc_svc c) (mc_route c) (mc_params c) (mc_req c)
                (mc_rwt c) (mc_upResp c) (Some (<[key := value]> m))))
  end.
Definition Get_value (key : string) : MS (option Val) :=
  x ← run_get; mret (mc_cache (e_ctx x) ≫= λ m, m !! key).

Definition PathParam (key : string) : MS string :=
  x ← run_get; mret (default "" (mc_params (e_ctx x) !! key)).

(** The wrapper of the writer is dropped. *)
Definition ModuleContextWithResponse (resp : http_response) : MS unit :=
  run_modify (λ x, set_resp (Some resp) (set_ctx (set_rwt None (set_upResp (Some (NewResponseWrapper resp)) (e_ctx x))) x)).
Definition ModuleContextWithError : MS unit := run_modify (λ x, set_ctx (set_upResp None (e_ctx x)) x).
(** [modCtx.rwt.rw] *)
Definition GetModuleContextResponseWriterTracker : MS (@Tracker.rwTracker Conn) :=
  _ ← the_writer; x ← run_get; mret (e_rw x).
End code.
