(* ===== verification/Extractors.v ===== *)
(** * pkg/modules/extractors: the functions of a module

    A function that a module exports is called on the module's context; when
    it answers a promise, the caller polls the promise with growing pauses
    until it settles or thirty seconds have passed.  A module that exports no
    [fetchUpstream] or no [errorHandler] gets one written in Go.

    Parameters: goja, which runs the scripts and settles the promises, the
    network's URLs, and by how much the runtime is late in waking a sleeper.
    A time is a count of nanoseconds.  The Go runtime chooses between two
    channels that are ready. *)
From Stdlib Require Import ZArith Lia.
From stdpp Require Import base gmap strings list fin_maps.
From S2P Require Import Prelude Avl SliceUtil Pattern Spec Linker ResourceManager.
From S2P Require Import Storage ProxyStore Scheduler Cache ConfigResources Proxy Http ModuleContext.

(** ** Waiting *)

Definition Millisecond : Z := 1000000.
Definition DeadlineExceeded : error := "context deadline exceeded".
Definition maxTimeout : Z := 100 * Millisecond.
(** [time.Duration(float64(backoffTimeout)*1.75)]: the product is exact for
    the pauses that occur, and the conversion drops the fraction. *)
Definition next_backoff (backoffTimeout : Z) : Z := Z.min (backoffTimeout * 7 / 4) maxTimeout.

(** [late]: how late the [i]-th wake-up is; [coin]: whether the timer is
    chosen when the context is done too. *)
Record clock : Type := MkClock { late : nat → Z; coin : nat → bool }.

(** The [for] loop from round [i] on, entered at time [now]: the error and the
    time at the end.  [fuel] bounds the rounds. *)
Fixpoint wait_loop (fuel : nat) (ck : clock) (deadline : Z) (doneFn : Z → bool) (i : nat) (now backoffTimeout : Z)
    : option (option error * Z) :=
  match fuel with
  | O => None
  | S fuel =>
    let timer := now + backoffTimeout in
    let now := Z.max now (Z.min timer deadline) + late ck i in
    if (timer <=? now) && ((now <? deadline) || coin ck i) then
      if negb (doneFn now) then wait_loop fuel ck deadline doneFn (S i) now (next_backoff backoffTimeout)
      else Some (None, now)
    else Some (Some DeadlineExceeded, now)
  end.
Definition waitTimeout (fuel : nat) (ck : clock) (deadline : Z) (doneFn : Z → bool) : option (option error * Z) :=
  if doneFn 0 then Some (None, 0)
  else wait_loop fuel ck deadline doneFn 0 0 (2 * Millisecond).

(** The timeout of a promise, and rounds for it: a pause is two milliseconds at
    least.  As many more are for what [select] chooses after the timeout. *)
Definition promise_timeout : Z := 30 * Second.
Definition promise_fuel : nat := 15001.

(** ** Scripts *)

Inductive promise_state (Value : Type) : Type := Pending | Fulfilled (v : option Value) | Rejected (v : Value).
Arguments Pending {Value}. Arguments Fulfilled {Value}. Arguments Rejected {Value}.

Inductive upstream_error : Type := Canceled | ErrUnexpectedEOF | OtherError (text : error).
Definition upstream_text (err : upstream_error) : error :=
  match err with
  | Canceled => "context canceled" | ErrUnexpectedEOF => "unexpected EOF" | OtherError text => text
  end.

(** goja: values, functions and promises, and the scripts, which work on the
    machine and the exchange.  What a script answers is a value; what the event
    loop makes of a promise is its state at each moment from the call on. *)
Class Goja (E : Externals) (Ex : Type) := {
  Value : Type; Callable : Type; Promise : Type; VM : Type;
  call : Callable → list Value → Run (VM * Ex) (gores Value);
  as_promise : Value → option Promise;
  settle : Promise → Run (VM * Ex) (Z → promise_state Value);
  Interrupt : string → VM → VM;
  value_String : Value → string;
  is_nully : Value → bool;
  AssertFunction : Value → option Callable;
  RunString : string → Run (VM * Ex) (gores Value);
  (** [rt.ToValue] of the module's context, and of a Go error *)
  ctx_value : Value;
  error_value : upstream_error → Value }.

Section code.
Context {E : Externals} {Q Val Conn : Type}.
Abbreviation Ex := (@exchange Q Val Conn).
Context {G : Goja E Ex} (ck : clock).
Context (rw_Write : string → Conn → (Z * option error) * Conn) (rw_WriteHeader : Z → Conn → Conn).

(** The machine and the exchange, and the variable that the default
    [fetchUpstream] of this module has captured. *)
Record host : Type := MkHost { h_world : VM * Ex; roundRobinIndex : Z }.
Abbreviation HS := (Run host).
Abbreviation WS := (Run (VM * Ex)).

Definition on_world {A} (m : WS A) : HS A := λ h,
  match m (h_world h) with (r, w) => (r, MkHost w (roundRobinIndex h)) end.
Definition on_exchange {A} (m : Run Ex A) : HS A := on_world (λ '(vm, x),
  match m x with (r, x) => (r, (vm, x)) end).

Definition nully (v : option Value) : bool := match v with None => true | Some v => is_nully v end.

Definition is_settled (s : promise_state Value) : bool := match s with Pending => false | _ => true end.

Definition RunAndWaitForResult (fn : Callable) (args : list Value) : WS (gores (option Value)) :=
  r ← call fn args;
  match r with
  | Err err => mret (Err err)
  | Ok res =>
    match as_promise res with
    | None => mret (Ok (Some res))
    | Some prom =>
      st ← settle prom;
      match waitTimeout (promise_fuel + promise_fuel) ck promise_timeout (λ t, is_settled (st t)) with
      | None => run_panic "out of fuel"
      | Some (Some err, _) =>
        _ ← run_modify (λ '(vm, x), (Interrupt err vm, x));
        mret (Err ("promise timed out: " +:+ err))
      | Some (None, t) =>
        match st t with
        | Rejected v => mret (Err (value_String v))
        | Fulfilled v => mret (Ok (if nully v then None else v))
        | Pending => mret (Ok None)
        end
      end
    end
  end.
Definition RunAndWait (fn : Callable) (args : list Value) : WS (option error) :=
  r ← RunAndWaitForResult fn args; mret match r with Ok _ => None | Err err => Some err end.

(** ** Functions of a module, and those written in Go *)

Inductive extracted : Type := Script (fn : Callable) | Default.

Definition functionExtractor (varName : string) : WS (gores (option Callable)) :=
  fnRef ← RunString ("exports?." +:+ varName +:+ " ?? (typeof " +:+ varName +:+ " === 'function' ? "
                     +:+ varName +:+ " : void 0)");
  mret match fnRef with
       | Err err => Err err
       | Ok v =>
         match AssertFunction v with
         | Some fn => Ok (Some fn)
         | None => if is_nully v then Ok None else Err ("extractors: invalid function -> " +:+ varName)
         end
       end.

(** With a function written in Go, or none, where the module has none. *)
Definition extract_or (varName : string) (dflt : option extracted) : WS (gores (option extracted)) :=
  r ← functionExtractor varName;
  mret match r with
       | Ok (Some fn) => Ok (Some (Script fn))
       | Ok None => Ok dflt
       | Err err => Err err
       end.
Definition ExtractFetchUpstreamFunction := extract_or "fetchUpstream" (Some Default).
Definition ExtractRequestModifierFunction := extract_or "requestModifier" None.
Definition ExtractResponseModifierFunction := extract_or "responseModifier" None.
Definition ExtractErrorHandlerFunction := extract_or "errorHandler" (Some Default).
Definition ExtractRequestHandlerFunction := extract_or "requestHandler" None.

(** *** fetchUpstream *)

Definition DefaultFetchUpstreamFunction : HS (gores URL) :=
  h ← run_get;
  match mc_svc (e_ctx (h_world h).2) with
  | None => run_panic nil_deref
  | Some svc =>
    match elems (Service.URLs svc) with
    | [] => mret (Err "service has no URLs")
    | urls =>
      let i := (roundRobinIndex h + 1) mod Z.of_nat (length urls) in
      _ ← run_modify (λ h, MkHost (h_world h) i);
      match urls !! Z.to_nat i with
      | None => run_panic index_range
      | Some u => mret (url_Parse u)
      end
    end
  end.

Definition with_scheme (upstreamUrlString : string) : string :=
  if bool_decide (is_Some (String.index 0 "://" upstreamUrlString)) then upstreamUrlString else upstreamUrlString +:+ "http://".

Definition fetchUpstream (f : extracted) : HS (gores URL) :=
  match f with
  | Default => DefaultFetchUpstreamFunction
  | Script fn =>
    r ← on_world (RunAndWaitForResult fn [ctx_value]);
    mret match r with
         | Err err => Err err
         | Ok res =>
           match res with
           | Some v => if is_nully v || String.eqb (value_String v) ""
                       then Err "fetchUpstream returned an invalid URL"
                       else url_Parse (with_scheme (value_String v))
           | None => Err "fetchUpstream returned an invalid URL"
           end
         end
  end.

(** *** The modifiers and the handler *)

Definition requestModifier (fn : Callable) : HS (option error) := on_world (RunAndWait fn [ctx_value]).
Definition requestHandler (fn : Callable) : HS (option error) := on_world (RunAndWait fn [ctx_value]).
Definition responseModifier (fn : Callable) (res : http_response) : HS (option error) :=
  _ ← on_exchange (ModuleContextWithResponse res);
  on_world (RunAndWait fn [ctx_value]).

(** *** errorHandler *)

Definition StatusBadGateway : Z := 502.
Definition error_status (err : upstream_error) : Z :=
  match err with Canceled | ErrUnexpectedEOF => 499 | OtherError _ => StatusBadGateway end.
Definition error_body (err : upstream_error) : string :=
  match err with Canceled | ErrUnexpectedEOF => "Client Closed Request" | OtherError _ => "Bad Gateway" end.
Definition DefaultErrorHandlerFunction (err : upstream_error) : Run Ex (option error) :=
  rwt ← GetModuleContextResponseWriterTracker;
  if Tracker.HeadersSent rwt then mret None else
  _ ← tracker_WriteHeader rw_WriteHeader (error_status err);
  _ ← tracker_Write rw_Write rw_WriteHeader (error_body err);
  mret None.
Definition errorHandler (f : extracted) (upstreamErr : upstream_error) : HS (option error) :=
  match f with
  | Default => on_exchange (DefaultErrorHandlerFunction upstreamErr)
  | Script fn =>
    _ ← on_exchange ModuleContextWithError;
    on_world (RunAndWait fn [ctx_value; error_value upstreamErr])
  end.
End code.
