(* ===== verification/ExtractorsTheorems.v ===== *)
(** * The functions of a module: waiting for promises, the default upstream
    and the default error handler *)
From Stdlib Require Import ZArith Lia.
From stdpp Require Import base gmap strings list fin_maps.
From S2P Require Import Prelude Avl SliceUtil Pattern Spec Linker ResourceManager.
From S2P Require Import Storage ProxyStore Scheduler Cache ConfigResources Proxy Http ModuleContext Extractors.

(** ** Waiting *)

Section waiting.
Context (ck : clock) (L deadline : Z) (K : nat).
Context (Hlate : ∀ i, 0 ≤ late ck i ≤ L) (Hcoin : ∀ i, ∃ j, (j ≤ K)%nat ∧ coin ck (i + j) = false).

Lemma next_backoff_range b : 2 * Millisecond ≤ b ≤ maxTimeout → 2 * Millisecond ≤ next_backoff b ≤ maxTimeout.
Proof. unfold next_backoff, maxTimeout, Millisecond. intros. split; [|lia]. apply Z.min_glb; [|lia]. apply Z.div_le_lower_bound; lia. Qed.

(** What is known at the end of the loop. *)
Definition waited (doneFn : Z → bool) (now last : Z) (res : option error * Z) : Prop :=
  now ≤ res.2 ≤ last ∧
  match res.1 with
  | None => doneFn res.2 = true
  | Some e => e = DeadlineExceeded ∧ deadline ≤ res.2
  end.

Lemma times_late k : 0 ≤ Z.of_nat k * L ∧ Z.of_nat (S k) * L = Z.of_nat k * L + L.
Proof. specialize (Hlate 0%nat). split; [apply Z.mul_nonneg_nonneg; lia|]. rewrite Nat2Z.inj_succ. lia. Qed.
Lemma waited_later doneFn now now1 last last1 res :
  waited doneFn now1 last1 res → now ≤ now1 → last1 ≤ last → waited doneFn now last res.
Proof. intros [Hr Hres] ??. split; [lia|done]. Qed.

(** After the deadline a round is entered only by the choice of [select]. *)
Lemma wait_loop_late doneFn k : ∀ fuel i now b,
  deadline ≤ now → (∃ j, (j ≤ k)%nat ∧ coin ck (i + j) = false) → (k < fuel)%nat →
  ∃ res, wait_loop fuel ck deadline doneFn i now b = Some res ∧ waited doneFn now (now + Z.of_nat (S k) * L) res.
Proof.
  induction k as [|k IH]; intros fuel i now b Hnow (j & Hj & Hc) Hf; (destruct fuel as [|fuel]; [lia|]); cbn [wait_loop];
    pose proof (Hlate i) as Hi; set (now' := Z.max now (Z.min (now + b) deadline) + late ck i);
    assert (now' = now + late ck i) as E1 by (unfold now'; lia); rewrite (proj2 (Z.ltb_ge now' deadline)) by lia; cbn [orb].
  - assert (j = O) as -> by lia. rewrite Nat.add_0_r in Hc. rewrite Hc, andb_false_r.
    exists (Some DeadlineExceeded, now'). split; [done|]. split; cbn [fst snd]; [|split; [done|lia]].
    destruct (times_late 0). lia.
  - destruct (times_late k), (times_late (S k)). destruct ((now + b <=? now') && coin ck i) eqn:Hgo.
    2:{ exists (Some DeadlineExceeded, now'). split; [done|]. split; cbn [fst snd]; [lia|split; [done|lia]]. }
    destruct (doneFn now') eqn:Hdone; cbn [negb].
    + exists (None, now'). split; [done|]. split; cbn [fst snd]; [lia|done].
    + destruct (IH fuel (S i) now' (next_backoff b)) as (res & -> & Hr); [lia| |lia|].
      * apply andb_true_iff in Hgo as [_ Hgo]. destruct j as [|j]; [rewrite Nat.add_0_r in Hc; congruence|].
        exists j. split; [lia|]. by rewrite <-Hc, Nat.add_succ_r.
      * exists res. split; [done|]. eapply waited_later; [exact Hr|lia|lia].
Qed.

Lemma wait_loop_ends doneFn n : ∀ fuel i now b,
  2 * Millisecond ≤ b ≤ maxTimeout → now ≤ deadline →
  deadline - now ≤ 2 * Millisecond * Z.of_nat n → (n + S K < fuel)%nat →
  ∃ res, wait_loop fuel ck deadline doneFn i now b = Some res ∧ waited doneFn now (deadline + Z.of_nat (S (S K)) * L) res.
Proof.
  destruct (times_late K), (times_late (S K)).
  induction n as [|n IH]; intros fuel i now b Hb Hnow Hn Hf; pose proof (Hlate i) as Hi.
  { destruct (wait_loop_late doneFn K fuel i now b) as (res & -> & Hr); [lia|apply Hcoin|lia|].
    exists res. split; [done|]. eapply waited_later; [exact Hr|lia|lia]. }
  destruct fuel as [|fuel]; [lia|]. cbn [wait_loop].
  set (now' := Z.max now (Z.min (now + b) deadline) + late ck i).
  assert (now ≤ now' ≤ deadline + L) as Hn' by (unfold now', Millisecond in *; lia).
  destruct ((now + b <=? now') && ((now' <? deadline) || coin ck i)) eqn:Hgo.
  2:{ exists (Some DeadlineExceeded, now'). split; [done|]. split; cbn [fst snd]; [lia|]. split; [done|].
      apply andb_false_iff in Hgo as [Hgo|Hgo].
      - apply Z.leb_gt in Hgo. unfold now' in *. lia.
      - apply orb_false_iff in Hgo as [Hgo%Z.ltb_ge _]. lia. }
  destruct (doneFn now') eqn:Hdone; cbn [negb]; [exists (None, now'); split; [done|]; split; cbn [fst snd]; [lia|done]|].
  destruct (Z.le_gt_cases now' deadline) as [Hle|Hgt].
  - apply andb_true_iff in Hgo as [Hgo%Z.leb_le _].
    destruct (IH fuel (S i) now' (next_backoff b)) as (res & -> & Hr);
      [by apply next_backoff_range|done|unfold Millisecond in *; lia|lia|].
    exists res. split; [done|]. eapply waited_later; [exact Hr|lia|lia].
  - destruct (wait_loop_late doneFn K fuel (S i) now' (next_backoff b)) as (res & -> & Hr); [lia|apply Hcoin|lia|].
    exists res. split; [done|]. eapply waited_later; [exact Hr|lia|lia].
Qed.

Lemma wait_loop_settles doneFn s fuel (Hs : ∀ t, s ≤ t → doneFn t = true)
    (Hroom : s + maxTimeout + L ≤ deadline) : ∀ i now b res,
  2 * Millisecond ≤ b ≤ maxTimeout → now < s →
  wait_loop fuel ck deadline doneFn i now b = Some res → res.1 = None ∧ res.2 ≤ s + maxTimeout + L.
Proof.
  induction fuel as [|fuel IH]; intros i now b res Hb Hnow; [done|]. cbn [wait_loop].
  pose proof (Hlate i) as Hi. set (now' := Z.max now (Z.min (now + b) deadline) + late ck i).
  assert (now' = now + b + late ck i) as E1 by (unfold now'; unfold maxTimeout, Millisecond in *; lia).
  rewrite (proj2 (Z.leb_le (now + b) now')), (proj2 (Z.ltb_lt now' deadline)) by lia. cbn [andb orb].
  destruct (doneFn now') eqn:Hdone; cbn [negb].
  - intros [= <-]. cbn. split; [done|lia].
  - apply IH; [by apply next_backoff_range|]. destruct (Z.lt_ge_cases now' s); [done|]. by rewrite Hs in Hdone.
Qed.
End waiting.

(** C22: Waiting for a promise ends, on a runtime that wakes a sleeper at most L
    late, whatever L is, and whose [select], with the timer and the deadline
    both ready, takes the timer at most K times in a row.  It ends at the
    latest K + 2 times L after the thirty seconds; it ends well only when the
    promise has settled, and with the deadline's error only after the thirty
    seconds.  A promise that settles before the last tenth of a second and L
    of the thirty seconds is noticed at the latest a tenth of a second and L
    after it settled. *)
Theorem promise_noticed ck L K fuel doneFn (Hlate : ∀ i, 0 ≤ late ck i ≤ L)
    (Hcoin : ∀ i, ∃ j, (j ≤ K)%nat ∧ coin ck (i + j) = false) (Hfuel : (promise_fuel + K < fuel)%nat) :
  ∃ err T, waitTimeout fuel ck promise_timeout doneFn = Some (err, T) ∧
    0 ≤ T ≤ promise_timeout + Z.of_nat (S (S K)) * L ∧
    (err = None → doneFn T = true) ∧
    (∀ e, err = Some e → e = DeadlineExceeded ∧ promise_timeout ≤ T) ∧
    (∀ s, 0 ≤ s → (∀ t, s ≤ t → doneFn t = true) → s + maxTimeout + L ≤ promise_timeout →
      err = None ∧ T ≤ s + maxTimeout + L).
Proof.
  assert (0 ≤ L) by (specialize (Hlate 0%nat); lia). unfold waitTimeout.
  destruct (doneFn 0) eqn:H0.
  - exists None, 0. split; [done|]. split; [unfold promise_timeout, Second; lia|]. split; [done|]. split; [done|].
    intros s Hs _ _. split; [done|]. unfold maxTimeout, Millisecond. lia.
  - assert (promise_timeout - 0 ≤ 2 * Millisecond * Z.of_nat (pred promise_fuel)) as Hn by by vm_compute.
    assert (0 < promise_fuel)%nat by (apply Nat.ltb_lt; by vm_compute).
    destruct (wait_loop_ends ck L promise_timeout K Hlate Hcoin doneFn (pred promise_fuel) fuel 0 0 (2 * Millisecond))
      as ([err T] & E1 & HT & Hw); [unfold maxTimeout, Millisecond; lia|unfold promise_timeout, Second; lia|done|lia|].
    rewrite E1. exists err, T. split; [done|]. split; [done|]. cbn in Hw.
    split; [by intros ->|]. split; [by intros e ->|]. intros s Hs Hdone Hroom.
    eapply (wait_loop_settles ck L promise_timeout Hlate doneFn s fuel Hdone Hroom 0 0 (2 * Millisecond) (err, T));
      [unfold maxTimeout, Millisecond; lia| |done].
    destruct (Z.lt_ge_cases 0 s); [done|]. by rewrite Hdone in H0.
Qed.

(** ** The default upstream *)

Section scripts.
Context {E : Externals} {Q Val Conn : Type} {G : Goja E (@exchange Q Val Conn)} (ck : clock).
Context (rw_Write : string → Conn → (Z * option error) * Conn) (rw_WriteHeader : Z → Conn → Conn).
Abbreviation HS := (Run (host (Q := Q) (Val := Val) (Conn := Conn))).

(** The results of [n] calls, one after the other. *)
Fixpoint calls {A} (n : nat) (m : HS A) : HS (list A) :=
  match n with O => mret [] | S n => a ← m; l ← calls n m; mret (a :: l) end.

Lemma DefaultFetchUpstream_next svc urls (h : host) (i : Z) :
  mc_svc (e_ctx (h_world h).2) = Some svc → elems (Service.URLs svc) = urls → urls ≠ [] →
  i = (roundRobinIndex h + 1) mod Z.of_nat (length urls) →
  ∃ u, urls !! Z.to_nat i = Some u ∧
    DefaultFetchUpstreamFunction h = (Return (url_Parse u), MkHost (h_world h) i).
Proof.
  intros Hsvc Hu Hne ->. set (i := (roundRobinIndex h + 1) mod Z.of_nat (length urls)).
  assert (0 < Z.of_nat (length urls)) by (destruct urls; [done|cbn; lia]).
  assert (0 ≤ i < Z.of_nat (length urls)) by (by apply Z.mod_pos_bound).
  destruct (lookup_lt_is_Some_2 urls (Z.to_nat i)) as [u Hu']; [lia|]. exists u. split; [done|].
  unfold DefaultFetchUpstreamFunction. rewrite run_bind_unfold. cbn. rewrite Hsvc, Hu. destruct urls as [|u0 us]; [done|].
  rewrite run_bind_unfold. cbn -[length lookup Z.modulo].
  change (Z.of_nat (S (length us))) with (Z.of_nat (length (u0 :: us))). fold i. by rewrite Hu'.
Qed.

Lemma DefaultFetchUpstream_calls svc urls k : ∀ (h : host),
  mc_svc (e_ctx (h_world h).2) = Some svc → elems (Service.URLs svc) = urls → urls ≠ [] →
  ∃ i l, calls k DefaultFetchUpstreamFunction h = (Return l, MkHost (h_world h) i) ∧ length l = k ∧
    (k ≠ O → i = (roundRobinIndex h + Z.of_nat k) mod Z.of_nat (length urls)) ∧
    ∀ j r, l !! j = Some r → ∃ u, r = url_Parse u ∧
      urls !! Z.to_nat ((roundRobinIndex h + 1 + Z.of_nat j) mod Z.of_nat (length urls)) = Some u.
Proof.
  induction k as [|k IH]; intros h Hsvc Hu Hne.
  { exists (roundRobinIndex h), []. cbn. by destruct h. }
  destruct (DefaultFetchUpstream_next svc urls h _ Hsvc Hu Hne eq_refl) as (u & Hlu & Enext).
  set (i1 := (roundRobinIndex h + 1) mod Z.of_nat (length urls)) in *.
  assert (0 < Z.of_nat (length urls)) by (destruct urls; [done|cbn; lia]).
  destruct (IH (MkHost (h_world h) i1)) as (i & l & E1 & Hl & Hi & Hj); [done..|].
  exists i, (url_Parse u :: l). cbn [calls]. rewrite run_bind_unfold, Enext, run_bind_unfold, E1. cbn [h_world] in *.
  split; [done|]. split; [cbn; lia|]. cbn [roundRobinIndex] in *. split.
  - intros _. destruct k as [|k].
    + destruct l; [|done]. injection E1 as <-. done.
    + rewrite Hi by done. unfold i1. rewrite Zplus_mod_idemp_l. f_equal. lia.
  - intros [|j] r; cbn.
    + intros [= <-]. exists u. split; [done|]. unfold i1 in Hlu. by rewrite Z.add_0_r.
    + intros (u' & -> & Hu')%Hj. exists u'. split; [done|]. rewrite <- Hu'. f_equal. f_equal.
      unfold i1. rewrite <- (Z.add_assoc (_ mod _)), Zplus_mod_idemp_l. f_equal. lia.
Qed.

(** A module without [fetchUpstream] gets the URLs of its service in turn:
    as many calls as there are URLs try each of them once, in the order of the
    service but from the one after the last that was tried, and the calls after
    them repeat the round.  A fresh module starts with the second URL. *)
Theorem round_robin svc urls (h : host)
  (Hsvc : mc_svc (e_ctx (h_world h).2) = Some svc) (Hu : elems (Service.URLs svc) = urls) (Hne : urls ≠ [])
  (Hi : 0 ≤ roundRobinIndex h < Z.of_nat (length urls)) :
  calls (length urls) DefaultFetchUpstreamFunction h =
    (Return (url_Parse <$> rotate (Z.to_nat (roundRobinIndex h) + 1) urls), h).
Proof.
  destruct (DefaultFetchUpstream_calls svc urls (length urls) h Hsvc Hu Hne) as (i & l & -> & Hl & Hend & Hj).
  assert (length urls ≠ O) as Hlen by (by destruct urls).
  rewrite Hend by done.
  assert ((roundRobinIndex h + Z.of_nat (length urls)) mod Z.of_nat (length urls) = roundRobinIndex h) as ->.
  { rewrite Zplus_mod, Z_mod_same_full, Z.add_0_r, Zmod_mod. by apply Z.mod_small. }
  destruct h as [w rr]. cbn in *. f_equal. f_equal.
  apply list_eq_same_length with (length urls); [|done|].
  { by rewrite length_fmap, length_rotate. }
  intros j r r' Hjl Hr Hr'. destruct (Hj j r Hr) as (u & -> & Hlu).
  rewrite list_lookup_fmap, lookup_rotate_r in Hr' by done. apply fmap_Some in Hr' as (u' & Hu' & ->).
  f_equal. enough (Some u = Some u') by congruence. rewrite <- Hlu, <- Hu'. f_equal.
  unfold rotate_nat_add. f_equal. f_equal. lia.
Qed.

(** ** The default error handler *)

Lemma tracker_of_writer (x : @exchange Q Val Conn) g : mc_rwt (e_ctx x) = Some g →
  GetModuleContextResponseWriterTracker x = (Return (e_rw x), x).
Proof.
  intros Hg. unfold GetModuleContextResponseWriterTracker, the_writer. rewrite !run_bind_unfold. cbn. by rewrite Hg.
Qed.
Lemma no_writer (x : @exchange Q Val Conn) : mc_rwt (e_ctx x) = None →
  GetModuleContextResponseWriterTracker x = (Panic nil_deref, x).
Proof.
  intros Hg. unfold GetModuleContextResponseWriterTracker, the_writer. rewrite !run_bind_unfold. cbn. by rewrite Hg.
Qed.

Lemma default_handler_answers err (x : @exchange Q Val Conn) g : mc_rwt (e_ctx x) = Some g →
  DefaultErrorHandlerFunction rw_Write rw_WriteHeader err x =
    (Return None,
     if Tracker.HeadersSent (e_rw x) then x else
     let '(n, _, c) := rw_Write (error_body err) (rw_WriteHeader (error_status err) (Tracker.rw (e_rw x))) in
     set_rw (Tracker.MkTracker c (error_status err) (Tracker.bytesWritten (e_rw x) + n)) x).
Proof.
  intros Hg. unfold DefaultErrorHandlerFunction. rewrite run_bind_unfold, (tracker_of_writer x g Hg).
  destruct (Tracker.HeadersSent (e_rw x)); [done|]. destruct x as [q p [rw st n] c].
  unfold tracker_WriteHeader, tracker_Write.
  destruct err; repeat (rewrite run_bind_unfold; cbn); by destruct (rw_Write _ _) as [[m e] c'].
Qed.

(** Scripts, and the jobs of the loop, have no way to the context's writer. *)
Definition leaves_writer : Prop :=
  (∀ fn args w, mc_rwt (e_ctx (call fn args w).2.2) = mc_rwt (e_ctx w.2)) ∧
  (∀ prom w, mc_rwt (e_ctx (settle prom w).2.2) = mc_rwt (e_ctx w.2)).

Lemma RunAndWait_leaves fn args w : leaves_writer →
  mc_rwt (e_ctx (RunAndWait ck fn args w).2.2) = mc_rwt (e_ctx w.2).
Proof.
  intros [Hcall Hsettle]. unfold RunAndWait, RunAndWaitForResult. rewrite !run_bind_unfold.
  specialize (Hcall fn args w). destruct (call fn args w) as [[[res|e]|e|] w1]; cbn in *; try done.
  destruct (as_promise res) as [prom|]; [|done]. rewrite run_bind_unfold.
  specialize (Hsettle prom w1). destruct (settle prom w1) as [[st|e|] w2]; cbn in *;
    [|by rewrite Hsettle|by rewrite Hsettle].
  rewrite <- Hcall, <- Hsettle. destruct (waitTimeout _ _ _ _) as [[[e|] t]|]; [|by destruct (st t)|done].
  by destruct w2.
Qed.

(** C20: The error handler of a module that has none answers an error of the
    upstream with a status and a text, if no header was sent.  After the
    module's response modifier, however it ended, the context has no writer,
    and the same handler fails on a nil pointer: an error that the response
    modifier itself raises is not answered at all. *)
Theorem modifier_disarms_handler fn res err (h : host) r h' g
  (Hscripts : leaves_writer) (Hg : mc_rwt (e_ctx (h_world h).2) = Some g)
  (Hsent : Tracker.HeadersSent (e_rw (h_world h).2) = false)
  (Hrun : responseModifier ck fn res h = (r, h')) :
  (∃ h1, errorHandler ck rw_Write rw_WriteHeader Default err h = (Return None, h1) ∧
     Tracker.status (e_rw (h_world h1).2) = error_status err ∧
     Tracker.rw (e_rw (h_world h1).2) =
       (rw_Write (error_body err) (rw_WriteHeader (error_status err) (Tracker.rw (e_rw (h_world h).2)))).2) ∧
  errorHandler ck rw_Write rw_WriteHeader Default err h' = (Panic nil_deref, h').
Proof.
  split.
  - destruct h as [[vm x] i]. cbn in Hg, Hsent. unfold errorHandler, on_exchange, on_world. cbn [h_world].
    rewrite (default_handler_answers err x g Hg), Hsent. cbn [h_world Datatypes.snd].
    destruct (rw_Write _ _) as [[m e] c']. eexists. split; [reflexivity|]. done.
  - assert (mc_rwt (e_ctx (h_world h').2) = None) as Hn.
    { unfold responseModifier in Hrun. rewrite run_bind_unfold in Hrun. destruct h as [[vm x] i]. cbn in Hrun.
      unfold on_world in Hrun. cbn in Hrun.
      match type of Hrun with context [RunAndWait ck fn ?a ?w] => pose proof (RunAndWait_leaves fn a w Hscripts) as H;
        destruct (RunAndWait ck fn a w) as [r1 w1] end.
      injection Hrun as <- <-. cbn in *. by rewrite H. }
    destruct h' as [[vm x] i]. cbn in Hn. unfold errorHandler, on_exchange, on_world. cbn [h_world].
    unfold DefaultErrorHandlerFunction. by rewrite run_bind_unfold, (no_writer x Hn).
Qed.

End scripts.

(** ** A host without scripts that matter

    Every call throws; there are no promises.  A connection is what was
    written to it. *)
#[local] Existing Instance text_externals.

Definition sample_goja : Goja text_externals (@exchange unit string (list string)) := {|
  Value := string; Callable := string; Promise := unit; VM := unit;
  call fn _ w := (Return (Err fn), w);
  as_promise _ := None;
  settle _ w := (Return (λ _, Pending), w);
  Interrupt _ vm := vm;
  value_String v := v; is_nully v := String.eqb v "";
  AssertFunction v := Some v;
  RunString s w := (Return (Ok s), w);
  ctx_value := "ctx"; error_value err := upstream_text err |}.
#[local] Existing Instance sample_goja.

Definition on_time : clock := MkClock (λ _, 0) (λ _, false).
Definition three_urls : Service.t :=
  Service.mk "svc" (Some ["a"; "b"; "c"]) "ns" None None None None None None None None None.
Definition sample_host : host (Q := unit) (Val := string) (Conn := list string) :=
  MkHost (tt,
    MkExchange (MkHttpRequest "GET" "/" "" "h" "1.2.3.4:5" "HTTP/1.1" ∅ None 0) None
      (Tracker.NewResponseWriterTracker [])
      (MkContext "id" (Namespace.mk "ns" None) (Some three_urls) (Route.mk "r" None None false false "svc" "ns" None None)
         ∅ (MkRequestWrapper "GET" "/" tt "h" "1.2.3.4" "HTTP/1.1" 0) (Some (MkWriterWrapper 0 false)) None None)) 0.
Definition written_conn (b : string) (c : list string) : (Z * option error) * list string :=
  (Z.of_nat (String.length b), None, c ++ [b]).

Definition thrown : @Callable _ _ sample_goja := "thrown".

(** A promise that settles after five seconds is noticed before 5.1 seconds. *)
(** Every wake-up three milliseconds late. *)
Definition slow : clock := MkClock (λ _, 3 * Millisecond) (λ _, false).
Lemma promise_noticed_witness : ∃ T,
  waitTimeout (S (S promise_fuel)) slow promise_timeout (λ t, 5 * Second <=? t) = Some (None, T) ∧
  T ≤ 5 * Second + maxTimeout + 3 * Millisecond.
Proof.
  destruct (promise_noticed slow (3 * Millisecond) 0 (S (S promise_fuel)) (λ t, 5 * Second <=? t))
    as (err & T & E1 & _ & _ & _ & H); [done|intros i; by exists 0%nat|lia|].
  destruct (H (5 * Second)) as [-> HT]; [done|intros t Ht; by apply Z.leb_le|done|].
  exists T. split; [exact E1|exact HT].
Defined.

Lemma round_robin_witness :
  calls 3 DefaultFetchUpstreamFunction sample_host = (Return [Ok "b"; Ok "c"; Ok "a"], sample_host).
Proof. apply (round_robin three_urls ["a"; "b"; "c"] sample_host); done. Defined.

Lemma modifier_disarms_handler_witness : ∃ h',
  responseModifier on_time thrown (MkHttpResponse 200 "OK" "HTTP/1.1" ∅ None 0) sample_host = (Return (Some "thrown"), h') ∧
  errorHandler on_time written_conn (λ _ c, c) Default (OtherError "thrown") h' = (Panic nil_deref, h').
Proof.
  eexists. split; [reflexivity|].
  eapply (modifier_disarms_handler on_time written_conn (λ _ c, c) thrown (MkHttpResponse 200 "OK" "HTTP/1.1" ∅ None 0)
    (OtherError "thrown") sample_host); [split; done|reflexivity|reflexivity|reflexivity].
Defined.

(** The scheme that is missing is put at the end. *)
Lemma with_scheme_suffix s : String.index 0 "://" s = None → with_scheme s = s +:+ "http://".
Proof. intros H. unfold with_scheme. by rewrite H. Qed.
