(* ===== verification/ModuleApi.v ===== *)
(** * pkg/modules/dgate: what a module can ask the proxy for

    The modules [dgate], [dgate/storage], [dgate/state], [dgate/util],
    [dgate/crypto] and [dgate/http], and the loader behind [require].  The
    jobs that they put on the event loop are computations of their own, with
    what the job's promise is settled with.  The context is that of the
    request: [None] when no request is being handled; what it holds under
    the name of the namespace may be missing too.

    Parameters: goja's values, the digests and the sources of random bits of
    Go's crypto packages, the HTTP client, and time.ParseDuration. *)
From Stdlib Require Import ZArith Lia Ascii.
From stdpp Require Import base gmap strings list fin_maps pretty.
From S2P Require Import Prelude Avl SliceUtil Pattern Base64 Spec Linker ResourceManager.
From S2P Require Import Storage ProxyStore Scheduler Cache Util Compact ConfigResources.
From S2P Require Import ProxyTransport Proxy RequestContext DynamicProxy ChangeLogs ProxyState Http ModuleContext.

(** Wrap-around of an [int64]. *)
Definition wrap_int64 (n : Z) : Z := (n + 2 ^ 63) mod 2 ^ 64 - 2 ^ 63.

(** What a job settles its promise with. *)
Inductive settlement (A : Type) : Type := Resolved (a : A) | RejectedWith (err : error) | RejectedNull.
Arguments Resolved {A}. Arguments RejectedWith {A}. Arguments RejectedNull {A}.

Section code.
Context {E : Externals} {R : Runtime} {Any : Type} {C : Encoding E Any} {S : Type}.
Context {St : Storage S} {X : ProxyEnv E Any} {N : NodeEnv}.

Abbreviation PS := (Run (@ProxyState E Any S X)).

(** ** internal/proxy/runtime_context.go *)

(** The namespace in the context of a request. *)
Record request_ctx : Type := MkRequestCtx { ctx_namespace : option string; ctx_Err : option error }.
(** [rtCtx.reqCtx.ctx] *)
Definition Context_ (reqCtx : option request_ctx) : PS request_ctx :=
  match reqCtx with None => run_panic nil_deref | Some ctx => mret ctx end.
(** [runtimeContext.Use]: the request context afterwards, or the error. *)
Definition Use (reqCtx : option request_ctx) : gores (option request_ctx) :=
  match reqCtx with
  | Some ctx => match ctx_Err ctx with Some err => Err err | None => Ok reqCtx end
  | None => Ok None
  end.

(** [strings.Replace(path, "node_modules/", "", 1)] *)
Definition remove_first (old s : string) : string :=
  match String.index 0 old s with
  | None => s
  | Some i => String.substring 0 i s +:+
              String.substring (i + String.length old) (String.length s - (i + String.length old)) s
  end.
(** The loader: a module of the route, by binary search on the names. *)
Definition transpile_required (now : Z) (key payload : string) : PS (gores string) :=
  match Transpile payload with
  | Err err => mret (Err err)
  | Ok payload =>
    _ ← on_cache (in_bucket "ts-transpile" (SetWithTTL now key (CachedBytes payload) (30 * Minute)));
    mret (Ok payload)
  end.
Definition require_loader (now : Z) (modules : list DGateModule.t) (path : string) : PS (gores string) :=
  let requireMod := remove_first "node_modules/" path in
  mod_ ← lift_outcome (findInSortedWith modules requireMod DGateModule.Name);
  match mod_ with
  | None => mret (Err (requireMod +:+ " not found"))
  | Some mod_ =>
    if String.eqb (DGateModule.Type_ mod_) ModuleTypeJavascript then mret (Ok (DGateModule.Payload mod_)) else
    _ ← on_cache (Cache.Bucket now "ts-transpile");
    match HashString encode_string 0 [DGateModule.Payload mod_] with
    | Err _ => transpile_required now "" (DGateModule.Payload mod_)
    | Ok key =>
      code ← on_cache (in_bucket "ts-transpile" (Cache.Get now key));
      match code with
      | Some (CachedBytes code) => mret (Ok code)
      | Some _ => run_panic "interface conversion"
      | None => transpile_required now key (DGateModule.Payload mod_)
      end
    end
  end.

(** ** dgate/storage *)

(** [namespace == nil || namespace.(string) == ""] *)
Definition storage_namespace {A} (reqCtx : option request_ctx) (k : string → PS (gores A)) : PS (gores A) :=
  ctx ← Context_ reqCtx;
  match ctx_namespace ctx with
  | None => mret (Err "namespace is not set")
  | Some ns => if String.eqb ns "" then mret (Err "namespace is not set") else k ns
  end.

Definition SetCache (now : Z) (reqCtx : option request_ctx) (cacheId : string) (val : cached) (TTL : Z)
    : PS (gores unit) :=
  if String.eqb cacheId "" then mret (Err "cache id cannot be empty") else
  storage_namespace reqCtx (λ namespace,
    let uniqueId := "storage:cache:" +:+ namespace +:+ ":" +:+ cacheId in
    _ ← on_cache (Cache.Bucket now uniqueId);
    if TTL <? 0 then mret (Err "TTL cannot be negative")
    else if 0 <? TTL then
      _ ← on_cache (in_bucket uniqueId (SetWithTTL now uniqueId val (wrap_int64 (TTL * Second)))); mret (Ok tt)
    else mret (Ok tt)).

Definition GetCache (now : Z) (reqCtx : option request_ctx) (cacheId : string) : PS (gores (option cached)) :=
  if String.eqb cacheId "" then mret (Err "cache id cannot be empty") else
  storage_namespace reqCtx (λ namespace,
    let name := "storage:cache:" +:+ namespace in
    _ ← on_cache (Cache.Bucket now name);
    val ← on_cache (in_bucket name (Cache.Get now cacheId));
    mret (Ok val)).

(** ** dgate/state *)

(** [rt.ToValue] of a collection; [null] where there is none. *)
Definition fetchCollection (reqCtx : option request_ctx) (name : string) : PS (settlement DGateCollection.t) :=
  ctx ← Context_ reqCtx;
  match ctx_namespace ctx with
  | None => mret (RejectedWith "namespace not found in context")
  | Some namespace =>
    collection ← on_rm (ResourceManager.GetCollection name namespace);
    mret match collection with None => RejectedNull | Some c => Resolved c end
  end.

Definition getDocument (reqCtx : option request_ctx) (docId collection : string)
    : PS (settlement (option Document.t)) :=
  ctx ← Context_ reqCtx;
  match ctx_namespace ctx with
  | None => mret (RejectedWith "namespace not found in context")
  | Some namespace =>
    doc ← GetDocumentByID docId collection namespace;
    mret match doc with Err err => RejectedWith err | Ok doc => Resolved doc end
  end.

Record FetchDocumentsPayload : Type := MkFetchDocuments { fd_Collection : string; fd_Limit : Z; fd_Offset : Z }.
(** The first two errors are thrown, not settled with. *)
Definition getDocuments (reqCtx : option request_ctx) (payload : FetchDocumentsPayload)
    : PS (gores (settlement (slice Document.t))) :=
  ctx ← Context_ reqCtx;
  if String.eqb (fd_Collection payload) "" then mret (Err "collection name is required") else
  match ctx_namespace ctx with
  | None => mret (Err "namespace not found in context")
  | Some namespace =>
    docs ← GetDocuments (fd_Collection payload) namespace (fd_Limit payload) (fd_Offset payload);
    mret (Ok match docs with Err err => RejectedWith err | Ok docs => Resolved docs end)
  end.

(** [remarshal] is [remarshalNamed[T]], [as_item] puts a [T] in an [any]. *)
Definition writeFunc {Obj T : Type} (remarshal : Obj → gores T) (GetName : T → string) (as_item : T → Any)
    (cmd : Command) (now : Z) (reqCtx : option request_ctx) (item : option Obj) : PS (gores (settlement T)) :=
  match item with
  | None => mret (Err "item is nil")
  | Some item =>
    ctx ← Context_ reqCtx;
    match remarshal item with
    | Err err => mret (Ok (RejectedWith err))
    | Ok rs =>
      match ctx_namespace ctx with
      | None => mret (Ok (RejectedWith "namespace not found in context"))
      | Some namespace =>
        cl ← lift_outcome (NewChangeLog now (λ _, GetName rs) (Some (as_item rs)) namespace cmd);
        err ← ApplyChangeLog now (Some cl);
        mret (Ok match err with Some err => RejectedWith err | None => Resolved rs end)
      end
    end
  end.

(** The functions that [Exports] names. *)
Definition addCollection {Obj} (remarshal : Obj → gores Collection.t) :=
  writeFunc remarshal Collection.Name item_collection AddCollectionCommand.
Definition addDocument {Obj} (remarshal : Obj → gores Document.t) :=
  writeFunc remarshal Document.ID item_document AddDocumentCommand.
Definition deleteCollection {Obj} (remarshal : Obj → gores Collection.t) :=
  writeFunc remarshal Collection.Name item_collection DeleteCollectionCommand.
Definition deleteDocument {Obj} (remarshal : Obj → gores Document.t) :=
  writeFunc remarshal Document.ID item_document DeleteDocumentCommand.
End code.

(** ** dgate/util *)

(** [callback] may be nil; the body is read and closed. *)
Definition ReadWriteBody (res : http_response) (callback : option (string → string))
    : outcome (string * http_response) :=
  match callback with
  | None => mret ("", res)
  | Some callback =>
    match p_Body res with
    | None => Panics nil_deref
    | Some b =>
      match ReadAll b with
      | (Err err, _) => Panics err
      | (Ok body, _) =>
        let newBody := callback body in
        let n := Z.of_nat (String.length newBody) in
        mret (newBody, with_resp_body (Some (InMemory newBody)) n
                         (with_resp_header (Set_ "Content-Length" (pretty n) (p_Header res)) res))
      end
    end
  end.

(** ** dgate *)

(** What goja exports a number or a string as; a float is a fraction. *)
Inductive duration_value : Type := Float64 (num : Z) (den : positive) | Int64 (n : Z) | Text (s : string) | Other.

Section dgate.
Context (ParseDuration : string → gores Z).

Definition duration_of (val : duration_value) : gores Z :=
  match val with
  | Float64 num den => Ok (wrap_int64 (Z.quot num (Z.pos den) * Second))
  | Int64 n => Ok (wrap_int64 (n * Second))
  | Text s => ParseDuration s
  | Other => Err "sleep() requires a number or string as a first argument"
  end.
(** How long the call waits, unless the context is done before. *)
Definition Sleep (val : duration_value) : gores Z :=
  match duration_of val with Err err => Err err | Ok dur => Ok (Z.max 0 dur) end.
(** The time that the promise's job waits; [None]: it is resolved at once. *)
Definition AsyncSleep (val : duration_value) : gores (option Z) :=
  match duration_of val with Err err => Err err | Ok dur => Ok (if 0 <? dur then Some dur else None) end.
Definition Fail_ (msg : string) : gores unit := Err msg.

(** A callback's value is nil when it throws. *)
Context {W Value : Type} (ToBoolean : Value → bool).
Definition retry_callback : Type := Z → Run W (option Value * option error).
(** The job on the loop, with [calls] to go. *)
Fixpoint retry_job (calls : nat) (i : Z) (fn : retry_callback) : Run W unit :=
  match calls with
  | O => mret tt
  | Datatypes.S calls =>
    '(v, _) ← fn i;
    match v with
    | None => run_panic nil_deref
    | Some v => if ToBoolean v then mret tt else retry_job calls (i + 1) fn
    end
  end.
(** The answer, given before the job runs (unless the loop is faster), and
    the job. *)
Definition Retry (num : Z) (fn : option retry_callback) : gores (option Value * Run W unit) :=
  if num <=? 0 then Err "num must be greater than 0" else
  match fn with
  | None => Err "retry() requires a callback as a second argument"
  | Some fn => Ok (None, retry_job (Z.to_nat num) 0 fn)
  end.
End dgate.

(** ** dgate/crypto *)

(** A hash is an object: its algorithm and what was written to it. *)
Record hash_object : Type := MkHash { hash_algorithm : string; hash_data : string }.

(** A read that may fail, and a draw below a bound. *)
Class CryptoEnv := {
  digest : string → string → string;
  (** [hmac.New] on two hashes of their own *)
  hmac_key : string → string → string;
  random_Read : Z → gores string;
  random_Int : Z → gores Z }.

(** [hex.EncodeToString], and the alphabet of [URLEncoding]. *)
Definition hexEncodeToString (s : string) : string := Util.EncodeToString (Z.of_N <$> Base64.bytes s).
Fixpoint url_alphabet (s : string) : string :=
  match s with
  | EmptyString => ""
  | String c s =>
    String (if Ascii.eqb c "+" then "-" else if Ascii.eqb c "/" then "_" else c)%char (url_alphabet s)
  end.

Definition hashAlgos : list string := ["md5"; "sha1"; "sha256"; "sha384"; "sha512"; "sha512_224"; "sha512_256"].
(** [strings.Replace(k, "_", "-", -1)] *)
Fixpoint dashes (s : string) : string :=
  match s with
  | EmptyString => ""
  | String c s => String (if Ascii.eqb c "_" then "-" else c)%char (dashes s)
  end.
(** In the order of [hashAlgos]; that of the map is random. *)
Definition getHashes : list string := dashes <$> hashAlgos.

Section crypto.
Context {CE : CryptoEnv}.
Abbreviation CS := (Run (gmap loc hash_object)).

Definition new_hash (algorithm : string) : CS loc :=
  hs ← run_get;
  let l := fresh ({[nil]} ∪ dom hs : gset loc) in
  _ ← run_modify (<[l := MkHash algorithm ""]>);
  mret l.
Definition getHash (enc : string) : CS (gores loc) :=
  if bool_decide (enc ∈ hashAlgos) then l ← new_hash enc; mret (Ok l) else mret (Err "invalid hash algorithm").
Definition createHash : string → CS (gores loc) := getHash.

Definition Update (h : loc) (data : script_value) : CS (option error) :=
  match ToBytes data with
  | Err err => mret (Some err)
  | Ok d =>
    hs ← run_get;
    match hs !! h with
    | None => run_panic nil_deref
    | Some o => _ ← run_modify (<[h := MkHash (hash_algorithm o) (hash_data o +:+ d)]>); mret None
    end
  end.

Inductive digest_value : Type := DigestText (s : string) | DigestBuffer (b : string).
Definition encode_digest (enc sum : string) : digest_value :=
  if String.eqb enc "hex" then DigestText (hexEncodeToString sum)
  else if bool_decide (enc ∈ ["base64"; "b64"]) then DigestText (Base64.EncodeToString sum)
  else if bool_decide (enc ∈ ["base64raw"; "b64raw"]) then DigestText (Base64.RawEncodeToString sum)
  else if bool_decide (enc ∈ ["base64url"; "b64url"]) then DigestText (url_alphabet (Base64.EncodeToString sum))
  else if bool_decide (enc ∈ ["base64rawurl"; "b64rawurl"]) then DigestText (url_alphabet (Base64.RawEncodeToString sum))
  else DigestBuffer sum.
Definition Digest (h : loc) (enc : string) : CS digest_value :=
  hs ← run_get;
  match hs !! h with
  | None => run_panic nil_deref
  | Some o => mret (encode_digest enc (digest (hash_algorithm o) (hash_data o)))
  end.

Definition update (alg : string) (data : script_value) (encoding : string) : CS (gores digest_value) :=
  r ← createHash alg;
  match r with
  | Err err => mret (Err err)
  | Ok h =>
    err ← Update h data;
    match err with
    | Some err => mret (Err (alg +:+ " failed: " +:+ err))
    | None => d ← Digest h encoding; mret (Ok d)
    end
  end.
Definition md5 := update "md5".
Definition sha1 := update "sha1".
Definition sha256 := update "sha256".
Definition sha384 := update "sha384".
Definition sha512 := update "sha512".
Definition sha512_224 := update "sha512_224".
Definition sha512_256 := update "sha512_256".
Definition hexEncode (data : script_value) : gores string :=
  match ToBytes data with Err err => Err err | Ok d => Ok (hexEncodeToString d) end.

(** [hmac.New]: calls [hashFunc] for the outer and for the inner hash, and
    panics when they are the same. *)
Definition hmac_New (hashFunc : CS loc) (key : string) : CS loc :=
  outer ← hashFunc;
  inner ← hashFunc;
  if bool_decide (outer = inner) then
    run_panic "crypto/hmac: hash generation function does not produce unique values"
  else
    hs ← run_get;
    match hs !! outer with
    | None => run_panic nil_deref
    | Some o => new_hash (hmac_key (hash_algorithm o) key)
    end.
Definition createHmac (algorithm : string) (key : script_value) : CS (gores loc) :=
  r ← getHash algorithm;
  match r with
  | Err err => mret (Err err)
  | Ok h =>
    match ToBytes key with
    | Err err => mret (Err err)
    | Ok kb => l ← hmac_New (mret h) kb; mret (Ok l)
    end
  end.
Definition hmac (algorithm : string) (key data : script_value) (encoding : string) : CS (gores digest_value) :=
  r ← createHmac algorithm key;
  match r with
  | Err err => mret (Err err)
  | Ok h =>
    err ← Update h data;
    match err with Some err => mret (Err err) | None => d ← Digest h encoding; mret (Ok d) end
  end.

Definition randomBytes (size : Z) : gores string := if size <? 1 then Err "invalid size" else random_Read size.
(** [rand.Int], which panics on a bound that is not positive. *)
Definition rand_Int (max : Z) : outcome (gores Z) :=
  if max <=? 0 then Panics "crypto/rand: argument to Int is <= 0" else mret (random_Int max).
Definition randomInt (arguments : list Z) : outcome (gores Z) :=
  match arguments with
  | [max] => rand_Int max
  | [min; max] =>
    if max <? min then mret (Err "min must be less than or equal to max") else
    n ← rand_Int (wrap_int64 (max - min));
    mret match n with Err err => Err err | Ok n => Ok (wrap_int64 (min + n)) end
  | _ => mret (Err "invalid number of arguments")
  end.
End crypto.

(** ** dgate/http *)

Inductive redirect_policy : Type := Follow | Error_ | Manual | OtherPolicy.
Record FetchOptions : Type := MkFetchOptions {
  fo_Method : string; fo_Body : string; fo_Headers : list (string * string); fo_Redirect : redirect_policy }.

(** [CheckRedirect]: the error, and [redirected] afterwards. *)
Definition CheckRedirect (p : redirect_policy) (redirected : bool) : option error * bool :=
  match p with
  | Manual => (Some "net/http: use last response", redirected)
  | Error_ => (Some "redirects not allowed", redirected)
  | _ => (None, true)
  end.
(** The request: the headers in the order in which [range] visits them. *)
Definition fetch_headers (o : FetchOptions) : Header :=
  foldl (λ h '(k, v), Http.Set_ k v h) (Http.Set_ "User-Agent" "DGate-Client/1.0" ∅) (fo_Headers o).
Definition fetch_body (o : FetchOptions) : option string :=
  if String.eqb (fo_Body o) "" then None else Some (fo_Body o).
Definition fetch_ok (StatusCode : Z) : bool := (200 <=? StatusCode) && (StatusCode <? 300).

(** The response's body and [bodyUsed]: the jobs of [json], [text] and
    [arrayBuffer].  The body is closed when a job ends. *)
Record fetched : Type := MkFetched { f_body : body; bodyUsed : bool }.
Definition read_fetched (f : fetched) : gores string * fetched :=
  let '(r, b) := ReadAll (f_body f) in (r, MkFetched (Close b) (bodyUsed f)).
Definition use (f : fetched) : fetched := MkFetched (f_body f) true.
Definition body_already_used : error := "body already used".

(** [Decode] reads one value of the body. *)
Definition fetched_json {J} (Decode : gores string → gores J) (f : fetched) : settlement J * fetched :=
  if bodyUsed f then (RejectedWith body_already_used, f) else
  let '(r, f) := read_fetched f in
  match Decode r with Err err => (RejectedWith err, f) | Ok j => (Resolved j, use f) end.
Definition fetched_text (f : fetched) : settlement string * fetched :=
  if bodyUsed f then (RejectedWith body_already_used, f) else
  let '(r, f) := read_fetched f in
  match r with Err err => (RejectedWith err, f) | Ok s => (Resolved s, f) end.
Definition fetched_arrayBuffer (f : fetched) : settlement string * fetched :=
  if bodyUsed f then (RejectedWith body_already_used, f) else
  let '(r, f) := read_fetched f in
  match r with Err err => (RejectedWith err, f) | Ok s => (Resolved s, use f) end.
