(* ===== verification/ModuleApiTheorems.v ===== *)
(** * What a module can ask the proxy for: the documents it adds, the values it
    caches, and the functions of [dgate/crypto], [dgate/http] and [dgate] that
    go wrong *)
From Stdlib Require Import ZArith Lia Ascii.
From stdpp Require Import base gmap strings list fin_maps pretty.
From S2P Require Import Prelude Avl Heap SliceUtil Pattern Base64 Spec Linker ResourceManager.
From S2P Require Import Storage ProxyStore Scheduler Cache Util Compact ConfigResources.
From S2P Require Import ProxyTransport ResourceSpec Proxy ProxyLogic RequestContext DynamicProxy ChangeLogs Replay ProxyState ProxyStateTheorems Http.
From S2P Require Import AdminAPI AdminAPITheorems ModuleContext ModuleApi.

(** ** Documents *)

Section documents.
Context {E : Externals} {R : Runtime} {Any : Type} {C : Encoding E Any} {CL : EncodingLaws C}.
Context {S : Type} {St : Storage S} {SL : StorageLaws S} {X : ProxyEnv E Any} {N : NodeEnv}.
Abbreviation PS := (Run (@ProxyState E Any S X)).
Implicit Types (p : @ProxyState E Any S X).

Lemma apply_change_document cl i d p : Cmd cl = AddDocumentCommand → cl_Item cl = Some i → decode_document i = Ok d →
  apply_change cl true p = on_store (StoreDocument (document_in (or_ns (Document.NamespaceName d) cl) d)) p.
Proof.
  intros Hcmd Hi Hd. unfold apply_change. rewrite Hcmd, Hi, Hd. go. cbn. unfold on_action. rewrite Hcmd. by go.
Qed.

(** A document whose change log is applied is in the store, and the manager of
    the resources is as before. *)
Lemma document_stored now cl i d p p1 : idle p → pendingChanges p = false →
  Cmd cl = AddDocumentCommand → cl_Item cl = Some i → decode_document i = Ok d →
  processChangeLog now (Some cl) true true p = (Return None, p1) →
  ∃ s1, StoreDocument (document_in (or_ns (Document.NamespaceName d) cl) d) (store p) = Returns (None, s1) ∧
    StoreChangeLog (RenewID now cl) s1 = Returns (None, store p1) ∧ rm p1 = rm p.
Proof.
  intros (Hl & Hr & Hd) Hpend Hcmd Hi Hdec H. unfold processChangeLog in H. revert H. go. unfold Lock. rewrite Hl.
  intros H. apply deferred_returned in H as (e1 & p2 & H & Hun). revert Hun. go. intros [= -> <-].
  unfold process_locked in H. rewrite Hcmd in H. cbn [IsNoop negb andb] in H.
  apply deferred_returned in H as (e2 & p3 & H & Hkeep).
  apply deferred_returned in H as (e3 & p4 & H & Hhash).
  apply keep_log_ends in Hkeep as (-> & Hkept).
  apply hash_log_kept in Hhash as (-> & h & ->).
  revert H. go. rewrite (apply_change_document cl i d _ Hcmd Hi Hdec). unfold on_store. go. cbn [store set_proxyLock].
  destruct (StoreDocument _ (store p)) as [[[err|] s1]|] eqn:Hs; [done| |done].
  unfold reload_proxy. go. cbn [pendingChanges set_store set_proxyLock]. rewrite Hcmd, Hpend. cbn. go. intros [= <-].
  destruct Hkept as (s & Hs2 & logs & ->); [done|]. exists s1. done.
Qed.

Lemma GetDocumentByID_stored doc c b p :
  has_collection p (Document.NamespaceName doc) (Document.CollectionName doc) c →
  store_ok (store p) → marshal_doc doc = Ok b → store_map (store p) !! ProxyStore.doc_key doc = Some b →
  GetDocumentByID (Document.ID doc) (Document.CollectionName doc) (Document.NamespaceName doc) p =
    (Return (Ok (Some doc)), p).
Proof.
  intros [[n Hn] Hc] Hok Hb Hl. unfold GetDocumentByID, checked. go. rewrite (on_rm_found _ _ _ Hn). go.
  rewrite (on_rm_found _ _ _ Hc). unfold on_store, zoom. rewrite (FetchDocument_hit _ _ _ Hok Hb Hl).
  by rewrite set_store_id.
Qed.

(** C19: A document that a module adds is read back by the modules of the
    namespace it is put in, as it was given; that is the namespace the document
    names, whatever the namespace of the module that adds it, which is only the
    default.  The changes are not replicated, and the collection exists in the
    reader's namespace. *)
Theorem module_document_read_back {Obj} (remarshal : Obj → gores Document.t) now ctx obj w d p p1 reader c
  (Hidle : idle p) (Hpend : pendingChanges p = false) (Hok : store_ok (store p))
  (Hdec : decode_document (item_document d) = Ok d) (Hw : ctx_namespace ctx = Some w)
  (Hadd : addDocument remarshal now (Some ctx) (Some obj) p = (Return (Ok (Resolved d)), p1))
  (Hreader : ctx_namespace reader =
    Some (if String.eqb (Document.NamespaceName d) "" then w else Document.NamespaceName d))
  (Hc : has_collection p (default "" (ctx_namespace reader)) (Document.CollectionName d) c) :
  getDocument (Some reader) (Document.ID d) (Document.CollectionName d) p1 =
    (Return (Resolved (Some (document_in (default "" (ctx_namespace reader)) d))), p1).
Proof.
  unfold addDocument, writeFunc in Hadd. revert Hadd. cbn [Context_]. go.
  destruct (remarshal obj) as [rs|e]; [|done]. rewrite Hw. go.
  destruct (NewChangeLog _ _ _ _ _) as [cl|e] eqn:Hcl; [|done]. unfold ApplyChangeLog. go.
  destruct (Ready p); cbn [negb]; [|done]. unfold Raft. pose proof Hidle as (_ & Hr & _). rewrite Hr.
  destruct (processChangeLog now (Some cl) true true p) as [[[err|]|e|] q] eqn:Hp; [done| |done..].
  intros [= -> ->].
  unfold NewChangeLog in Hcl. destruct (String.eqb w ""); [done|]. injection Hcl as <-.
  match type of Hp with processChangeLog _ (Some ?cl) _ _ _ = _ =>
    destruct (document_stored now cl (item_document d) d p p1 Hidle Hpend eq_refl eq_refl Hdec Hp) as (s1 & Hs1 & Hlog & Hrm) end.
  set (ns := default "" (ctx_namespace reader)) in *. match type of Hs1 with context [or_ns ?n ?cl] => assert (or_ns n cl = ns) as E1 end;
    [unfold or_ns, ns; by rewrite Hreader|rewrite E1 in Hs1].
  destruct (StoreDocument_ok _ _ _ _ Hok Hs1) as (Hok1 & b & Hb & Hm).
  destruct (StoreChangeLog_ok _ _ _ Hok1 Hlog) as (Hok2 & b' & cl' & _ & Hm2 & _).
  unfold getDocument. cbn [Context_]. go.
  pose proof (GetDocumentByID_stored (document_in ns d) c b p1) as Hget. cbn [document_in Document.ID Document.CollectionName Document.NamespaceName] in Hget.
  assert (ctx_namespace reader = Some ns) as -> by (unfold ns; by rewrite Hreader).
  go. rewrite Hget; [done| |done..|].
  - unfold has_collection. by rewrite Hrm.
  - rewrite Hm2, lookup_insert_ne, Hm; [apply lookup_insert_eq|]. done.
Qed.
End documents.

(** ** Cached values *)

Section cache.
Context {V : Type}.
Implicit Types (b : @bucketImpl V).

(** [m] adds no key but [key] to the items of a bucket. *)
Definition keys_only {A} (key : string) (m : ST (@bucketImpl V) A) : Prop := ∀ b a b' k,
  m b = Returns (a, b') → is_Some (b_items b' !! k) → k = key ∨ is_Some (b_items b !! k).

Lemma keys_ret {A} key (a : A) : keys_only key (mret a).
Proof. intros b a' b' k. st. intros [= <- <-]. by right. Qed.
Lemma keys_panic {A} key e : keys_only key (st_panic e : ST (@bucketImpl V) A).
Proof. by intros b a b' k. Qed.
Lemma keys_bind {A B} key (m : ST (@bucketImpl V) A) (f : A → ST (@bucketImpl V) B) :
  keys_only key m → (∀ a, keys_only key (f a)) → keys_only key (m ≫= f).
Proof.
  intros Hm Hf b a b' k. st. destruct (m b) as [[a1 b1]|e] eqn:E1; [|done]. intros H Hk.
  destruct (Hf a1 b1 a b' k H Hk) as [->|Hk1]; [by left|]. by apply (Hm b a1 b1).
Qed.
Lemma keys_get key : keys_only key st_get.
Proof. intros b a b' k. st. intros [= <- <-]. by right. Qed.
Lemma keys_lift {A} key (o : outcome A) : keys_only key (st_lift o).
Proof. intros b a b' k. st. destruct o; [|done]. intros [= <- <-]. by right. Qed.
Lemma keys_change key f : (∀ b k, is_Some (b_items (f b) !! k) → k = key ∨ is_Some (b_items b !! k)) →
  keys_only key (Cache.change f).
Proof. intros Hf b a b' k. unfold Cache.change. st. intros [= <- <-]. apply Hf. Qed.
Lemma keys_queue {A} key (queue : @bucketImpl V → Heap Z loc) (m : Heap Z loc → outcome (Heap Z loc * A))
    (put : @bucketImpl V → Heap Z loc → @bucketImpl V) : (∀ b h, b_items (put b h) = b_items b) →
  keys_only key (b ← st_get; '(h, r) ← st_lift (m (queue b)); _ ← st_put (put b h); mret r).
Proof.
  intros Hput b a b' k. st. destruct (m (queue b)) as [[h r]|e]; [|done]. st. intros [= <- <-]. rewrite Hput. by right.
Qed.
Lemma keys_push key (queue : @bucketImpl V → Heap Z loc) (m : Heap Z loc → outcome (Heap Z loc))
    (put : @bucketImpl V → Heap Z loc → @bucketImpl V) : (∀ b h, b_items (put b h) = b_items b) →
  keys_only key (b ← st_get; h ← st_lift (m (queue b)); st_put (put b h)).
Proof.
  intros Hput b a b' k. st. destruct (m (queue b)) as [h|e]; [|done]. st. intros [= <- <-]. rewrite Hput. by right.
Qed.
Lemma keys_entry key l : keys_only key (entry_at l).
Proof.
  apply keys_bind; [apply keys_get|]. intros b. destruct (b_entries b !! l); [apply keys_ret|apply keys_panic].
Qed.
Lemma keys_set_entry key l e : keys_only key (set_entry l e).
Proof. apply keys_change. intros b k. by right. Qed.
Lemma keys_drop key k' : keys_only key (drop_item k').
Proof.
  apply keys_change. intros b k H. right. cbn in H. destruct H as [v Hv].
  apply lookup_delete_Some in Hv as [_ Hv]. by exists v.
Qed.

Lemma SetWithTTL_keys_only now key v ttl : keys_only key (SetWithTTL now key v ttl).
Proof.
  apply keys_bind; [apply keys_get|]. intros b.
  destruct (b_items b !! key) as [l|].
  - apply keys_bind; [apply keys_entry|]. intros e.
    destruct (0 <? ttl); (apply keys_bind; [apply keys_set_entry|]; intros _);
      [by apply (keys_push key ttlQueue (λ h, Push h _ _) with_ttl)|by apply (keys_push key limitQueue (λ h, Push h _ _) with_limit)].
  - apply keys_bind.
    { destruct (_ && _); [|apply keys_ret]. apply keys_bind; [by apply (keys_queue key ttlQueue Pop with_ttl)|].
      intros [[t ce] []]; [apply keys_bind; [apply keys_entry|intros ?; apply keys_drop]|].
      apply keys_bind; [by apply (keys_queue key limitQueue Pop with_limit)|].
      intros [[t' ce'] []]; [apply keys_bind; [apply keys_entry|intros ?; apply keys_drop]|apply keys_panic]. }
    intros _. apply keys_bind; [apply keys_get|]. intros b'. apply keys_bind; [apply keys_set_entry|]. intros _.
    apply keys_bind.
    { destruct (0 <? ttl); [by apply (keys_push key ttlQueue (λ h, Push h _ _) with_ttl)|].
      destruct (0 <? _); [by apply (keys_push key limitQueue (λ h, Push h _ _) with_limit)|apply keys_ret]. }
    intros _. apply keys_change. intros b'' k H. cbn in H. destruct (decide (k = key)) as [->|Hne]; [by left|].
    right. by rewrite lookup_insert_ne in H.
Qed.
End cache.

Section storage.
Context {E : Externals} {R : Runtime} {Any : Type} {C : Encoding E Any}.
Context {S : Type} {St : Storage S} {X : ProxyEnv E Any} {N : NodeEnv}.
Abbreviation PS := (Run (@ProxyState E Any S X)).
Implicit Types (p : @ProxyState E Any S X) (c : @cacheImpl cached).

(** The buckets of [dgate/storage] hold no key but their own names. *)
Definition own_keys c : Prop := ∀ x b k, buckets c !! ("storage:cache:" +:+ x) = Some b →
  is_Some (b_items b !! k) → k = "storage:cache:" +:+ x.
Definition keeps_keys {A} (m : PS A) : Prop := ∀ p, own_keys (sharedCache p) → own_keys (sharedCache (m p).2).

Lemma keeps_keys_ret {A} (a : A) : keeps_keys (mret a).
Proof. by intros p. Qed.
Lemma keeps_keys_panic {A} e : keeps_keys (run_panic e : PS A).
Proof. by intros p. Qed.
Lemma keeps_keys_bind {A B} (m : PS A) (f : A → PS B) :
  keeps_keys m → (∀ a, keeps_keys (f a)) → keeps_keys (m ≫= f).
Proof.
  intros Hm Hf p Hp. rewrite run_bind_unfold. specialize (Hm p Hp). destruct (m p) as [[a|e|] p1]; cbn in *; [|done..].
  by apply Hf.
Qed.
Lemma keeps_keys_cache {A} (m : ST (@cacheImpl cached) A) :
  (∀ c a c', own_keys c → m c = Returns (a, c') → own_keys c') → keeps_keys (on_cache m : PS A).
Proof.
  intros Hm p Hp. unfold on_cache, zoom. destruct (m (sharedCache p)) as [[a c']|e] eqn:E1; [|done].
  cbn. by apply (Hm _ _ _ Hp E1).
Qed.

Lemma Bucket_keys now name c b c' : own_keys c → Cache.Bucket now name c = Returns (b, c') → own_keys c'.
Proof.
  intros Hc. unfold Cache.Bucket, BucketWithOpts. st. destruct (buckets c !! name); [by intros [= _ <-]|].
  st. destruct (ScheduleTask _ _ _ _) as [[r s]|]; [|done]. st. intros [= _ <-] x b' k. cbn.
  intros [[_ <-]|[_ H]]%lookup_insert_Some; [|by apply Hc]. cbn. by intros [? ?].
Qed.
Lemma SetWithTTL_keys now v ttl name c a c' : own_keys c →
  in_bucket name (SetWithTTL now name v ttl) c = Returns (a, c') → own_keys c'.
Proof.
  intros Hc. unfold in_bucket. destruct (buckets c !! name) as [b|] eqn:Hb; [|done].
  destruct (SetWithTTL now name v ttl b) as [[[] b']|e] eqn:Hs; [|done]. intros [= _ <-] x b2 k. cbn.
  intros [[-> <-]|[_ H]]%lookup_insert_Some Hk; [|by apply (Hc x b2)].
  destruct (SetWithTTL_keys_only now _ v ttl b tt b' k Hs Hk) as [->|H]; [done|]. by apply (Hc x b).
Qed.
Lemma Get_same {V} now key (b : @bucketImpl V) v b' : Cache.Get now key b = Returns (v, b') → b' = b.
Proof.
  unfold Cache.Get, entry_at. st. destruct (b_items b !! key); st; [|by intros [= _ <-]].
  destruct (b_entries b !! _); st; [|done]. destruct (_ && _); by intros [= _ <-].
Qed.
Lemma Get_keys {V} now key name (c c' : @cacheImpl V) v :
  in_bucket name (Cache.Get now key) c = Returns (v, c') → buckets c' = buckets c.
Proof.
  unfold in_bucket. destruct (buckets c !! name) as [b|] eqn:Hb; [|done].
  destruct (Cache.Get now key b) as [[v' b']|e] eqn:Hg; [|done]. intros [= _ <-]. cbn.
  by rewrite (Get_same _ _ _ _ _ Hg), insert_id.
Qed.

Lemma storage_namespace_keys {A} reqCtx (k : string → PS (gores A)) :
  (∀ ns, keeps_keys (k ns)) → keeps_keys (storage_namespace reqCtx k).
Proof.
  intros Hk. apply keeps_keys_bind; [destruct reqCtx; [apply keeps_keys_ret|apply keeps_keys_panic]|].
  intros ctx. destruct (ctx_namespace ctx) as [ns|]; [|apply keeps_keys_ret].
  destruct (String.eqb ns ""); [apply keeps_keys_ret|apply Hk].
Qed.
Lemma SetCache_keys now reqCtx id v TTL : keeps_keys (SetCache now reqCtx id v TTL).
Proof.
  unfold SetCache. destruct (String.eqb id ""); [apply keeps_keys_ret|]. apply storage_namespace_keys. intros ns.
  apply keeps_keys_bind; [apply keeps_keys_cache; intros ???; apply Bucket_keys|]. intros _.
  destruct (TTL <? 0); [apply keeps_keys_ret|]. destruct (0 <? TTL); [|apply keeps_keys_ret].
  apply keeps_keys_bind; [apply keeps_keys_cache; intros ???; apply SetWithTTL_keys|]. intros _. apply keeps_keys_ret.
Qed.
Lemma GetCache_keys now reqCtx id : keeps_keys (GetCache now reqCtx id).
Proof.
  unfold GetCache. destruct (String.eqb id ""); [apply keeps_keys_ret|]. apply storage_namespace_keys. intros ns.
  apply keeps_keys_bind; [apply keeps_keys_cache; intros ???; apply Bucket_keys|]. intros _.
  apply keeps_keys_bind; [|intros v; apply keeps_keys_ret]. apply keeps_keys_cache.
  intros c a c' Hc Hg x b k. rewrite (Get_keys _ _ _ _ _ _ Hg). apply Hc.
Qed.

(** What modules do with the cache, at their times and for their requests. *)
Inductive cache_op : Type :=
  | OpSet (now : Z) (reqCtx : option request_ctx) (id : string) (v : cached) (TTL : Z)
  | OpGet (now : Z) (reqCtx : option request_ctx) (id : string).
Definition run_op (o : cache_op) (p : @ProxyState E Any S X) : @ProxyState E Any S X :=
  match o with
  | OpSet now reqCtx id v TTL => (SetCache now reqCtx id v TTL p).2
  | OpGet now reqCtx id => (GetCache now reqCtx id p).2
  end.

Lemma run_ops_keys ops p : own_keys (sharedCache p) → own_keys (sharedCache (foldl (flip run_op) p ops)).
Proof.
  revert p. induction ops as [|o ops IH]; intros p Hp; [done|]. apply IH.
  destruct o; [by apply SetCache_keys|by apply GetCache_keys].
Qed.

(** Whatever modules put into the shared cache, no module gets a value out
    of it: [setCache] writes to a bucket of the value's own, under that
    bucket's name, and [getCache] looks in the namespace's bucket under the
    identifier.  The one exception is an identifier that is the name of the
    namespace's bucket itself. *)
Theorem cached_never_read ops p now ctx ns id v
  (Hown : own_keys (sharedCache p)) (Hns : ctx_namespace ctx = Some ns) (Hid : id ≠ "storage:cache:" +:+ ns) :
  (GetCache now (Some ctx) id (foldl (flip run_op) p ops)).1 ≠ Return (Ok (Some v)).
Proof.
  pose proof (run_ops_keys ops p Hown) as Hq. set (q := foldl (flip run_op) p ops) in *. clearbody q.
  unfold GetCache. destruct (String.eqb id ""); [done|]. unfold storage_namespace, Context_. go. rewrite Hns.
  destruct (String.eqb ns ""); [done|]. unfold on_cache. go. unfold zoom.
  destruct (Cache.Bucket now ("storage:cache:" +:+ ns) (sharedCache q)) as [[b c]|e] eqn:Eb; go; [|done].
  apply Bucket_keys in Eb; [|done]. cbn [sharedCache set_sharedCache]. unfold in_bucket.
  destruct (buckets c !! ("storage:cache:" +:+ ns)) as [b'|] eqn:Hb; [|done].
  destruct (Cache.Get now id b') as [[r b2]|e] eqn:Hg; [|done]. go. cbn. intros [= ->].
  unfold Cache.Get in Hg. revert Hg. st. destruct (b_items b' !! id) as [l|] eqn:Hl; st; [|done].
  intros _. apply Hid. apply (Eb ns b' id Hb). by exists l.
Qed.
End storage.

(** ** The other modules *)

Section crypto.
Context {CE : CryptoEnv}.

(** [createHmac] gives [hmac.New] the same hash twice: with an algorithm and a
    key that are valid it always panics. *)
Lemma createHmac_panics alg key kb hs : alg ∈ hashAlgos → ToBytes key = Ok kb →
  (createHmac alg key hs).1 = Panic "crypto/hmac: hash generation function does not produce unique values".
Proof.
  intros Ha Hk. unfold createHmac, getHash. rewrite bool_decide_true by done. unfold new_hash. go. rewrite Hk.
  unfold hmac_New. go. by rewrite bool_decide_true.
Qed.

(** Two of the names that [getHashes] lists are refused by [createHash]. *)
Lemma getHashes_refused k hs : k ∈ getHashes →
  (createHash k hs).1 = Return (Err "invalid hash algorithm") ↔ k = "sha512-224" ∨ k = "sha512-256".
Proof.
  intros Hk. unfold createHash, getHash, new_hash.
  repeat (apply elem_of_cons in Hk as [->|Hk]; [go; split; [intros H; try discriminate H; auto|
    intros [H|H]; try discriminate H; reflexivity]|]).
  by apply elem_of_nil in Hk.
Qed.

(** [randomInt] of equal bounds passes its own guard, and panics. *)
Lemma randomInt_equal n : - 2 ^ 63 ≤ n < 2 ^ 63 → randomInt [n; n] = Panics "crypto/rand: argument to Int is <= 0".
Proof. intros Hn. unfold randomInt. rewrite Z.ltb_irrefl, Z.sub_diag. by vm_compute. Qed.
End crypto.

(** The body that [text] has read is not marked as used: a second read gets the
    error of a closed body. *)
Lemma text_not_marked s J (Decode : gores string → gores J) :
  let f := (fetched_text (MkFetched (FromNetwork (Ok s)) false)).2 in
  fetched_text (MkFetched (FromNetwork (Ok s)) false) = (Resolved s, f) ∧ bodyUsed f = false ∧
  (fetched_text f).1 = RejectedWith "http: invalid Read on closed Body" ∧
  let g := (fetched_arrayBuffer (MkFetched (FromNetwork (Ok s)) false)).2 in
  fetched_text g = (RejectedWith body_already_used, g).
Proof. done. Qed.

(** A callback that throws ends the job of [retry], and with it the goroutine
    of the loop, in a panic. *)
Lemma retry_throws {W Value} (ToBoolean : Value → bool) n i (fn : retry_callback (W := W) (Value := Value)) w err w' :
  fn i w = (Return (None, err), w') → retry_job ToBoolean (Datatypes.S n) i fn w = (Panic nil_deref, w').
Proof. intros H. cbn [retry_job]. go. by rewrite H. Qed.
(** It stops at the first value that counts as true. *)
Lemma retry_stops {W Value} (ToBoolean : Value → bool) (fn : retry_callback (W := W) (Value := Value)) k : ∀ n i w ws,
  (k < n)%nat → (∀ j, (j ≤ k)%nat → ∃ v, fn (i + Z.of_nat j) (ws j) = (Return (Some v, None), ws (Datatypes.S j)) ∧
    ToBoolean v = Nat.eqb j k) → w = ws O →
  retry_job ToBoolean n i fn w = (Return tt, ws (Datatypes.S k)).
Proof.
  induction k as [|k IH]; intros n i w ws Hk Hfn ->; (destruct n as [|n]; [lia|]); cbn [retry_job]; go;
    destruct (Hfn O) as (v & Hv & Hb); try lia; rewrite Z.add_0_r in Hv; rewrite Hv, Hb; [done|].
  cbn [Nat.eqb]. apply (IH n (i + 1) (ws 1%nat) (λ j, ws (Datatypes.S j))); [lia| |done].
  intros j Hj. destruct (Hfn (Datatypes.S j)) as (v' & Hv' & Hb'); [lia|]. exists v'.
  replace (i + 1 + Z.of_nat j) with (i + Z.of_nat (Datatypes.S j)) by lia. done.
Qed.

Section context.
Context {Q Val Conn : Type}.

(** The cache of a context is a nil map, which nothing makes: [set] panics. *)
Lemma new_context_Set_panics {E : Externals} {Query_ shp} id (rw : @Tracker.rwTracker Conn) req (route : DGateRoute.t) params (c : ModuleContext Q Val) key v (x : @exchange Q Val Conn) :
  NewModuleContext Query_ shp id rw req route params = Returns c → e_ctx x = c →
  Set_value key v x = (Panic "assignment to entry in nil map", x).
Proof.
  intros H Hx. assert (mc_cache c = None) as Hc.
  { unfold NewModuleContext in H. revert H. st. destruct (TransformDGateRoute route); st; [|done].
    destruct (TransformDGateService _); st; [|done]. destruct (DGateRoute.Namespace route); [|done].
    unfold TransformDGateNamespace. st. by intros [= <-]. }
  unfold Set_value. go. by rewrite Hx, Hc.
Qed.

(** What a module writes as the body of the request is what it reads, and the
    length of the request follows; the wrapper's copy does not. *)
Lemma request_body_round_trip data b (x : @exchange Q Val Conn) : ToBytes data = Ok b →
  ∃ x1 x2, RequestWrapper_WriteBody data x = (Return None, x1) ∧ RequestWrapper_ReadBody x1 = (Return (Ok b), x2) ∧
    q_ContentLength (e_req x1) = Z.of_nat (String.length b) ∧ e_ctx x1 = e_ctx x.
Proof.
  intros Hb. unfold RequestWrapper_WriteBody, RequestWrapper_clearBody, change_req. go. rewrite Hb. go.
  eexists _, _. split; [reflexivity|]. unfold RequestWrapper_ReadBody, change_req. split; [|done].
  repeat (rewrite run_bind_unfold; cbn). reflexivity.
Qed.
End context.

(** ** A module of another namespace

    The proxy holds the namespace [default] with the collection [c]; the module
    that adds the document is of the namespace [other]. *)
#[local] Existing Instances text_externals sample_runtime sample_env text_encoding sample_node Mem_laws.

Definition context_of (ns : string) : request_ctx := MkRequestCtx (Some ns) None.
Definition as_document : string → gores (@Document.t text_externals) := decode_document (ProxyEnv := sample_env).
Definition document_4 : @Document.t text_externals :=
  Document.mk text_externals "4" 0 0 "default" "c" (Some "{}").
Definition added_proxy : @ProxyState text_externals string Mem.MemStore sample_env :=
  (addDocument as_document 7 (Some (context_of "other")) (Some "4") documents_proxy).2.

Lemma module_document_read_back_witness :
  (addDocument as_document 7 (Some (context_of "other")) (Some "4") documents_proxy).1 =
    Return (Ok (Resolved document_4)) ∧
  getDocument (Some (context_of "default")) "4" "c" added_proxy = (Return (Resolved (Some document_4)), added_proxy).
Proof.
  assert (H : (addDocument as_document 7 (Some (context_of "other")) (Some "4") documents_proxy).1 =
    Return (Ok (Resolved document_4))) by (vm_compute; reflexivity).
  split; [exact H|].
  eapply (module_document_read_back (CL := text_encoding_laws) (SL := Mem_laws) as_document 7 (context_of "other") "4" "other" document_4
    documents_proxy added_proxy (context_of "default") c_collection);
    [split; [|split]; vm_compute; reflexivity|vm_compute; reflexivity|apply c_documents|reflexivity|reflexivity| |reflexivity
    |apply c_in_proxy].
  unfold added_proxy. destruct (addDocument _ _ _ _ documents_proxy) as [r q]. cbn in *. by subst r.
Defined.

Lemma cached_never_read_witness :
  (SetCache 1 (Some (context_of "default")) "k" (CachedString "v") 60 documents_proxy).1 = Return (Ok tt) ∧
  (GetCache 2 (Some (context_of "default")) "k"
    (SetCache 1 (Some (context_of "default")) "k" (CachedString "v") 60 documents_proxy).2).1 ≠ Return (Ok (Some (CachedString "v"))).
Proof.
  split; [vm_compute; reflexivity|].
  apply (cached_never_read [OpSet 1 (Some (context_of "default")) "k" (CachedString "v") 60] documents_proxy 2
    (context_of "default") "default" "k" (CachedString "v")); [|reflexivity|done].
  intros x b k H. assert (buckets (sharedCache documents_proxy) = ∅) as E1 by (vm_compute; reflexivity).
  rewrite E1 in H. exfalso. exact (lookup_empty_Some _ _ H).
Defined.
